(* ===== verification/_CoqProject ===== *)
-Q . S2P
Prelude.v
BitSet.v
BitSetOps.v
TxDefine.v
TwoPhaseCommitter.v
TwoPhaseLaws.v
TwoPhaseInv.v
TwoPhaseLog.v
TwoPhaseSystem.v
TwoPhaseMock.v
TwoPhaseDrive.v
TwoPhaseAtomic.v
Serialization.v
Scn.v
Lsn.v
LsnAllocator.v
Parity.v
Codec.v
LogBaseHeader.v
LogEntryHeader.v
LogEntry.v
LogWriteBuf.v
LogGroupEntryHeader.v
LogGroupChecksum.v
LogGroupEntry.v
LogChecksum.v
LogGroupBuffer.v
LogSubmit.v
FixedSlidingWindow.v
FixedSlidingWindowInv.v
WindowSafety.v
LogTask.v
GroupCollect.v
MemberList.v
LogStateMgr.v
StateSwitch.v
LogCommit.v
CommitSafety.v
SimpleMemberList.v
LogReconfirm.v
ReconfirmSafety.v
LogModeMgr.v
ModeSafety.v
ReconfirmMode.v
LogConfigMeta.v
ConfigChange.v
LogConfigMgr.v
ConfigSafety.v
ConfigHistory.v
ConfigBarrier.v
LogReplica.v
ReplicaView.v
ReplicaRefine.v
ReplicaSafety.v
