(* ===== verification/Prelude.v ===== *)
(** * Two-phase commit and the log of seekdb

    A verification development of parts of the database kernel under [src/]: the
    commit protocol of distributed transactions, the positions, timestamps and
    encodings that the log service and the transaction layer share, and the path
    of a log entry through the log service: its header, the group it joins, the
    ring buffer of the leader, the checks of a follower, the log a replica keeps of
    what it receives, its commit by a majority, the roles of the replicas and the
    changes of their group.

    ** The program and its parts

    - The two-phase committer ([src/src/storage/tx/ob_two_phase_committer.h],
      [ob_two_phase_upstream_committer.cpp],
      [ob_two_phase_downstream_committer.cpp], [ob_committer_define.h]) is an
      abstract class, [ObTxCycleTwoPhaseCommitter].  An object has an in-memory
      state and a durable state (the state of its last applied log), a role (root,
      internal, leaf), and a bit set of the downstream participants that have
      answered in the current phase.  It is driven by requests from its upstream,
      responses from its downstreams, callbacks of its logs, replay of its logs
      after a restart, and timeouts.  What a phase does to the data, how a log is
      written and how a message is sent are virtual methods.  In this repository
      the class is implemented by the [MockOb2pcCtx] of the unit tests.
    - [ObBitSet] ([src/deps/oblib/src/lib/container/ob_bit_set.h]) is the bit set.
    - [SCN] ([src/src/share/scn.h], [scn.cpp]) is the 62-bit timestamp with a
      2-bit version that orders transactions and logs; [LSN]
      ([src/src/logservice/palf/lsn.h], [lsn.cpp]) is a byte position in the log.
    - [LSNAllocator] ([src/src/logservice/palf/lsn_allocator.cpp]) gives every log
      entry its position, group id and timestamp, with one 128-bit
      compare-and-swap, and keeps entries inside blocks and groups.
    - [LogEntryHeader] and [LogEntry] ([log_entry_header.cpp], [log_entry.cpp] of
      [src/src/logservice/palf]) wrap the payload of one log;
      [ObLogBaseHeader] ([src/src/logservice/ob_log_base_header.cpp]) is the
      header the payload itself starts with.  [LogGroupEntryHeader] and
      [LogGroupEntry] ([log_group_entry_header.cpp], [log_group_entry.cpp]) wrap
      a run of entries that is replicated as a unit.  Each header has a parity or
      16-bit checksum of itself and a checksum of its data
      ([src/deps/oblib/src/lib/checksum/ob_parity_check.cpp]).
    - [LogWriteBuf] ([log_writer_utils.cpp]) is the one or two memory areas in
      which a group lies when it crosses the end of the ring.
    - [LogChecksum] ([log_checksum.cpp]) accumulates the checksums of the groups
      from the start of the log.
    - [LogGroupBuffer] ([log_group_buffer.cpp]) is the ring buffer into which the
      threads of the leader write their entries and from which groups are sent
      and read.
    - [FixedSlidingWindow] ([fixed_sliding_window.h]) is the ring of slots for the
      logs in flight, with one slot per log id.  Threads get a counted reference to
      the slot of an id, give it back, slide the window over finished logs, and
      truncate it; a slot is used again when its log has been slid over and its last
      reference is gone.
    - [LogTask] ([log_task.cpp]) is such a slot.  The threads of the leader gather
      the sizes and the timestamp of a group in it while they write its entries, and
      [LogSlidingWindow] ([log_sliding_window.cpp]) freezes it, builds the header of
      the group and submits it.
    - [LogSlidingWindow] also keeps the log of a replica: it takes groups that a
      leader sends, checks that each follows the one before it, gives them to the log
      engine in order, notes their flushes, reports logs that are committed and flushed
      to the file system, and cuts off logs that a new leader does not have.  As leader
      it collects the acknowledgements of the members and decides what is committed,
      by the member lists of [LogConfigMgr] ([log_config_mgr.cpp]).
    - [LogStateMgr] ([log_state_mgr.cpp]) holds the role and state of a replica, its
      leader and its proposal id, and moves it between them as the election, the
      reconfirmation and prepare requests of other replicas say.
    - [LogReconfirm] ([log_reconfirm.cpp]) is what an elected replica does before it
      leads: it proposes a new id, asks the members for their logs, fetches the newest
      one, waits until a majority has it and writes a start-working log.
      [LogSimpleMemberList] and [LogAckList] ([log_simple_member_list.cpp]) are the
      servers that have answered.
    - [LogModeMgr] ([log_mode_mgr.cpp]) changes the access mode of the log (append, raw
      write, flashback) by a prepare and an accept phase of its own; a new leader confirms
      the mode it finds during its reconfirmation, with the same prepare request.
    - [LogConfigMgr] ([log_config_mgr.cpp], with the data of [log_meta_info.cpp]) changes
      the members, the learners, the arbitration member and the number of replicas of a
      group.  A leader checks a change, appends it, sends it to the members of the new
      configuration and finishes it when a majority has acknowledged it; the start-working
      log of a new leader is such a change.  Before a change with an arbitration member it
      waits until a majority has the log up to a barrier.
    - [ObAddr], [ObMember] and [ObMemberListBase]
      ([src/deps/oblib/src/lib/net/ob_addr.h], [ob_member.cpp] and
      [ob_member_list.ipp] of [src/deps/oblib/src/common]) are the servers and the
      lists of them that take part.
    - [serialization.h] ([src/deps/oblib/src/lib/utility]) holds the integer
      encodings all of these are stored and sent with.

    ** Files

    - [Prelude]: return codes, machine integers with their wrap-around, the state
      monad in which methods are written ([None] is [ob_abort] or undefined
      behaviour), its proof rules, and shared tactics.
    - [BitSet], [BitSetOps]: [ObBitSet] as a list of 32-bit words.
    - [TxDefine]: log types, message types, roles, states.
    - [TwoPhaseCommitter]: every method of the committer, one definition each
      with the name of the method, over the interface [CommitterHooks] (a class
      with the virtual methods).  Loops over participants are structural in the
      list of participant ids.
    - [TwoPhaseLaws]: [CommitterLaws], what the header's comments promise of the
      virtual methods, stated on the part of the object the protocol sees
      ([Core]: both states, logs in flight, messages, role, sizes).
    - [TwoPhaseInv]: the invariant of one participant ([NInv]) and that every
      entry point keeps it.
    - [TwoPhaseLog]: the invariant of a durable history ([HInv]), log application,
      replay and restart.
    - [TwoPhaseSystem]: the system of one root and its leaves.  Its steps are:
      start, delivery of any message ever sent (so messages are lost, duplicated
      and reordered), application of the oldest log in flight, timeout, abort by a
      participant that has not voted, exit after the clear log, and a crash that
      keeps any prefix of the logs in flight and recovers by replay.
      [reachable_sinv] shows its invariant by induction on the steps.
    - [TwoPhaseMock]: [MockOb2pcCtx] and a minimal object as instances of the
      interface, with runs of three participants.
    - [TwoPhaseDrive]: total correctness of [drive_self_2pc_phase].
    - [TwoPhaseAtomic]: what the protocol promises, and the refinement of the
      abstract transaction commit protocol.
    - [Serialization], [Scn], [Lsn], [LsnAllocator]: the codecs over explicit
      buffers and positions, timestamps, positions, and the allocator.
    - [Parity], [Codec]: the parity function; sequences of field codecs with the
      guards of the headers, the interface [HeaderChecksum] of the two hash
      functions, and pointers into memory.
    - [LogBaseHeader], [LogEntryHeader], [LogEntry]: the headers and the entry.
    - [LogWriteBuf]: the split buffer and its serialization.
    - [LogGroupEntryHeader], [LogGroupChecksum], [LogGroupEntry]: the header of a
      group; its data checksum as a fold over the entries, and truncation of a
      group to the entries up to a timestamp; the group with its data.
    - [LogChecksum]: the accumulated checksum.
    - [LogGroupBuffer]: the ring buffer, its abstract log and the refinement.
    - [LogSubmit]: the generation of a group header from the ring
      ([generate_group_entry_header_]) and the way of a group from the leader to
      a follower, over all of the above.
    - [FixedSlidingWindow]: the operations of the window as a machine in which
      every access to shared memory is a step, and the system of its threads.
    - [FixedSlidingWindowInv]: the invariant of that system.
    - [WindowSafety]: what the window promises.
    - [LogTask]: the task with its tags and members, as an instance of the slots of
      the window, and the parts of [LogSlidingWindow] that update and freeze it.
    - [GroupCollect]: the threads that gather one group, and its submission.
    - [MemberList]: addresses, members and member lists, with the finite map they stand
      for.
    - [LogStateMgr]: the state manager over the interface [Peers] (a class with what
      the election, the window, the reconfirmation and the log engine answer);
      [StateSwitch]: its invariants and the loop of [switch_state].
    - [LogCommit]: the map of acknowledged LSNs, the majority and the committed end;
      [CommitSafety]: what a majority has acknowledged is what is committed.
    - [LogReplica]: the state of [LogSlidingWindow] on one replica and its handlers
      ([receive_log], [handle_next_submit_log_], [after_flush_log],
      [handle_committed_log_], [clean_cached_log], [truncate], [after_truncate],
      [handle_committed_info], [append_disk_log]).
    - [ReplicaView]: the part of that state that matters for the log and the eight
      ways in which it changes, with their invariant; [ReplicaRefine]: every handler
      changes it in these ways only; [ReplicaSafety]: the replica as a transition
      system of its handlers, and what it promises.
    - [SimpleMemberList]: the two lists of servers, as sets.
    - [LogReconfirm]: every method of the reconfirmation over the interface [Peers];
      [ReconfirmSafety]: its rounds and the answers it gets as a transition system with
      a trace of what was asked and answered, the invariant, and what it promises.
    - [LogModeMgr]: every method of the mode manager over its interface [Peers], with
      [LogModeMeta] and [BaseLearnerList]; [ModeSafety]: its transition system and what
      it promises.
    - [ReconfirmMode]: the mode manager as the peer of the reconfirmation.
    - [LogConfigMeta]: versions, configurations, the lock of configuration changes, the
      kinds of change, and the computation of the next configuration; [ConfigChange]: what
      a change does to the members, and why majorities before and after it meet.
    - [LogConfigMgr]: the operations of the configuration manager over its interface
      [Peers]; [ConfigSafety]: appending a change; [ConfigHistory]: the manager as a
      transition system of its calls with the acknowledgements it has received;
      [ConfigBarrier]: the log barrier.

    ** What the theorems show

    - Commit protocol: atomicity, all-prepared before commit, all-committed before
      the root forgets, order of the two states of a participant, recovery from
      the log, failure atomicity of a drive, and a step-by-step refinement of the
      abstract protocol in which a participant works, prepares, commits or aborts.
      They are proved for every object that meets [CommitterLaws]; the two
      instances show that the laws can be met.  Recovery says which prefix of the
      log was replayed, and that it is the whole log if the calls replay makes on
      the object succeed ([replay_accepted]); the mock refuses the commit log.
    - Bit set: updates, queries and searches are those of a finite set; the
      word-parallel count is the cardinality.
    - Timestamps: total order, round trips of both serializations and of the
      arithmetic, monotonicity of the lock-free updates under interference.
    - Allocator: each allocation takes exactly its bytes behind the end of the
      log, inside one block and with the padding that fills a block; in every
      interleaving of threads the ranges are disjoint and ordered between two
      truncations, and timestamps increase as long as no log is learned whose
      timestamp is older than the last one.
    - Encodings: round trips with exact sizes, errors without room, and the exact
      meaning of the five-byte form.
    - Headers: round trips; a header that was generated passes its check, and one
      flipped bit makes the parity check fail; a padding entry has the bytes and
      sizes its header says.
    - Groups: the data checksum of a group does not depend on where the group is
      cut in two by the end of the ring; truncation keeps exactly the entries up
      to the bound and leaves a header that passes its checks; the accumulated
      checksum is a fold over the history of the log.
    - Sliding window: in every interleaving in which no thread is overtaken by a whole
      window and the window is not moved when it is used up ([on_time]), a slot that is
      held keeps its id and its
      data, the window grows only by slots that nobody holds and that have been
      reset, and the tests against internal errors never fail; a slot whose
      references are gone comes back whichever operation was last; the callback runs
      in the order of the ids; [get] and [revert] return.  The two conditions are shown
      to be needed.
    - Log task: a group is submitted only when it is frozen and every entry has been
      filled, by one thread, and with its exact range, length and timestamp.
    - Member list: the sorted array behaves as a finite map of at most seven members.
    - State manager: the packed word of role and state is always one of five, a
      replica that leads was elected, [switch_state] settles in four rounds (a pending
      replica may still wait for its logs and know another leader than the elected one),
      and a prepare request is a promise that is never taken back.
    - Commit: the majority LSN is the greatest one that more than half of the replicas
      have acknowledged; each step of a leader moves the committed end only forward, and
      only to an LSN that more than half of the lists of its configuration have
      acknowledged, or, before the barrier of a change and when entries are missing, to
      the barrier.
    - Reconfirmation: the answers counted are those of different followers to the very
      proposal, and a majority; the log chosen is at least as new as any log a majority
      had accepted; the confirmation succeeds only after the log is that of a majority,
      the start-working log is committed and all of it is applied; a round always
      returns and never goes back.
    - Access mode: ids never go back; a mode is applied only with a majority of promises
      and of acknowledgements; what a new leader submits, in whichever phase, is the newest mode a
      majority may have accepted; the reconfirmation and the mode manager hold the same proposal and count
      the same answers.
    - Membership: a leader's change, a forced one excepted, moves one server at a time, so that every majority of
      the old configuration meets every majority of the new one, for the members that vote
      and for those that keep the log; a change is reported as done only when a majority of
      the new configuration has acknowledged its version; versions never go back; a refused
      change leaves no trace; when the wait for the barrier succeeds and the access mode does
      not skip it, a majority has the log up to it, if what servers report is so
      ([ConfigBarrier.Reports]).
    - Replica: the log on the disk is contiguous and each group follows the log its
      sender had before it; committed logs are never cut off; what is reported is a
      prefix of the committed log in order; two replicas agree on the log before any
      log they share.  The conditions on the handlers are those of [ReplicaSafety.step].
    - Ring buffer: every operation is one of an abstract append-only log with a
      window, on either side of [reuse_lsn_]; a read returns the bytes of the log or an error.
    - Composition: a group whose entries were put into the ring is turned by the
      leader into bytes that a follower takes as a correct group with the same
      entries.

    ** Bounds and fuel

    [alloc_lsn_scn] and the updates of [SCN] take fuel for their loops.  Two
    rounds are enough for an allocation (a rebase makes the next attempt fit),
    which is proved; the updates of [SCN] are stated for any number of
    interferences.  [decode_vi64] uses one unit of fuel per byte of the buffer.
    [vi_bytes] uses ten, the most a 64-bit value takes, as its length theorem
    shows.  Positions, ids and timestamps of the allocator are bounded by [2^62],
    so that no sum of the code wraps around.  The loops over the entries of a
    group take one unit of fuel more than there are bytes, and each entry has at
    least one byte; that the fuel is enough is part of the theorems.  Positions in
    the ring buffer are below [2^63].  The ids of the sliding window are integers
    without wrap-around (the code reaches the end of [int64_t] after [2^63] logs);
    that [revert] returns is shown with a measure on the ids left to reclaim.
    Positions of a group are below [2^62].  [handle_committed_log_] takes one unit of
    fuel more than there are tasks in the window, and [committed_loop_ends] shows that
    it ends by itself; [handle_next_submit_log_] takes the number of rounds before the
    lease of its thread expires, which is part of the environment.  [switch_state]
    takes fuel, and four rounds are shown to be enough.  The LSNs of messages are
    below [2^63].

    ** Not modelled

    The system theorems are about a root and its leaves; internal nodes of a
    commit tree are modelled in every method, but the system has none, and
    participants transferred during a commit ([merge_intermediate_participants])
    are outside [CommitterLaws].  The redo-prepare messages of XA transactions
    have no implementation in the repository.  The hash functions [XXH64] and
    [ob_crc64] are parameters of which nothing is assumed.  The ring buffer is
    modelled one operation at a time: its compare-and-swap loops run without another
    writer, and a read does not overlap a write.  In the sliding window,
    [truncate_and_reset_begin_sn], [init] and [destroy] run while no other operation
    does, and the atomic updates of the tags and counters of a log task are one step
    each; so is an attempt of the allocator, whose compare-and-swap does not fail (one that
    fails is made again).  The handlers of a replica run one at a time, the log engine and the
    network are the list of what was submitted to them, and the theorems about the log
    of a replica are about one that is not an active leader; a truncation begins within
    the submitted log, the run ends with one that fails half-way, and messages that are cached beyond the submitted logs arrive for places
    between the cached ones ([brings]).  Fetching logs, rebuild and flashback of
    [LogSlidingWindow] are not modelled, and neither are the election and the log
    engine behind the interfaces.  Of [LogConfigMgr] the tree of parents and children in
    which learners get their logs is a call of the interface; its methods are one step
    each, as its locks make them, and a configuration of another replica, a first or a
    forced one is taken while no change of the replica's own is running.
    Logging, tracing and statistics are left out.  The rest of the
    database (SQL, storage, networking) is listed as such in the
    manifest.

    ** Plan

    Next are the active leader as a step of the replica, with the reconfirmation and the
    configuration manager connected to the logs of the replicas, the tree of learners, reads of the ring buffer that overlap writes,
    and commit trees with internal nodes. *)

From Stdlib Require Export ZArith Lia Bool.
From stdpp Require Export base numbers option gmap list.

#[global] Open Scope Z_scope.

(** * Return codes

    Every fallible routine of the code base returns an [int] and reports errors
    as values of [deps/oblib/src/lib/ob_errno.h] and [src/share/ob_errno.h];
    [OB_FAIL(e)] is [OB_SUCCESS != (ret = e)]. *)
Module Errno.
Definition OB_SUCCESS : Z := 0.
Definition OB_INVALID_ARGUMENT : Z := -4002.
Definition OB_ARRAY_OUT_OF_RANGE : Z := -4003.
Definition OB_INIT_TWICE : Z := -4005.
Definition OB_NOT_INIT : Z := -4006.
Definition OB_NOT_SUPPORTED : Z := -4007.
Definition OB_ALLOCATE_MEMORY_FAILED : Z := -4013.
Definition OB_ERR_UNEXPECTED : Z := -4016.
Definition OB_ENTRY_EXIST : Z := -4017.
Definition OB_ENTRY_NOT_EXIST : Z := -4018.
Definition OB_SIZE_OVERFLOW : Z := -4019.
Definition OB_EAGAIN : Z := -4023.
Definition OB_BUF_NOT_ENOUGH : Z := -4024.
Definition OB_DESERIALIZE_ERROR : Z := -4034.
Definition OB_NOT_MASTER : Z := -4038.
Definition OB_INVALID_DATA : Z := -4070.
Definition OB_CHECKSUM_ERROR : Z := -4103.
Definition OB_STATE_NOT_MATCH : Z := -4109.
Definition OB_OP_NOT_ALLOW : Z := -4179.
Definition OB_ITEM_NOT_MATCH : Z := -4187.
Definition OB_ERR_OUT_OF_LOWER_BOUND : Z := -4233.
Definition OB_ERR_OUT_OF_UPPER_BOUND : Z := -4234.
Definition OB_TRANS_INVALID_STATE : Z := -6205.
Definition OB_TRANS_PROTOCOL_ERROR : Z := -6207.
Definition OB_ELECTION_WARN_INVALID_LEADER : Z := -7006.
End Errno.
Export Errno.

(** [OB_FAIL(ret)] as a test on a code already computed. *)
Definition ob_failed (ret : Z) : bool := negb (ret =? OB_SUCCESS).

Lemma ob_failed_false (ret : Z) : ob_failed ret = false ↔ ret = OB_SUCCESS.
Proof. unfold ob_failed. rewrite negb_false_iff. apply Z.eqb_eq. Qed.

(** * Machine integers

    A [w]-bit unsigned value is a [Z] in [0, 2^w), a signed one a [Z] in
    [-2^(w-1), 2^(w-1)); arithmetic that may leave the range is wrapped where
    the source does. *)
Definition wrapu (w z : Z) : Z := z mod 2 ^ w.
Definition wraps (w z : Z) : Z := (z + 2 ^ (w - 1)) mod 2 ^ w - 2 ^ (w - 1).

Definition in_u (w z : Z) : Prop := 0 <= z < 2 ^ w.
Definition in_s (w z : Z) : Prop := - 2 ^ (w - 1) <= z < 2 ^ (w - 1).

Abbreviation u8 := (wrapu 8).
Abbreviation u16 := (wrapu 16).
Abbreviation u32 := (wrapu 32).
Abbreviation u64 := (wrapu 64).
Abbreviation s16 := (wraps 16).
Abbreviation s32 := (wraps 32).
Abbreviation s64 := (wraps 64).

Definition INT64_MAX : Z := 2 ^ 63 - 1.
Definition UINT64_MAX : Z := 2 ^ 64 - 1.

Lemma wrapu_range w z : 0 <= w → in_u w (wrapu w z).
Proof. intros Hw. apply Z.mod_pos_bound, Z.pow_pos_nonneg; lia. Qed.

Lemma wrapu_small w z : in_u w z → wrapu w z = z.
Proof. intros Hz. apply Z.mod_small, Hz. Qed.

Lemma wraps_range w z : 0 < w → in_s w (wraps w z).
Proof.
  intros Hw. unfold in_s, wraps.
  assert (2 ^ w = 2 * 2 ^ (w - 1)) as Hp by (rewrite <- Z.pow_succ_r by lia; f_equal; lia).
  pose proof (Z.mod_pos_bound (z + 2 ^ (w - 1)) (2 ^ w) ltac:(apply Z.pow_pos_nonneg; lia)). lia.
Qed.

Lemma wraps_small w z : 0 < w → in_s w z → wraps w z = z.
Proof.
  intros Hw Hz. unfold in_s, wraps in *.
  assert (2 ^ w = 2 * 2 ^ (w - 1)) as Hp by (rewrite <- Z.pow_succ_r by lia; f_equal; lia).
  rewrite Z.mod_small; lia.
Qed.

Lemma wraps_wrapu w z : 0 < w → wraps w (wrapu w z) = wraps w z.
Proof.
  intros Hw. unfold wraps, wrapu.
  rewrite Zplus_mod_idemp_l. reflexivity.
Qed.

(** * A state monad with process abort

    A method of a class with mutable members is a function of the state; [None]
    stands for [ob_abort()], which kills the process. *)
Definition M (S A : Type) : Type := S → option (A * S).

Definition ret {S A} (a : A) : M S A := fun s => Some (a, s).
Definition bind {S A B} (m : M S A) (k : A → M S B) : M S B :=
  fun s => match m s with Some (a, s') => k a s' | None => None end.
Definition get {S} : M S S := fun s => Some (s, s).
Definition gets {S A} (f : S → A) : M S A := fun s => Some (f s, s).
Definition modify {S} (f : S → S) : M S unit := fun s => Some (tt, f s).
Definition ob_abort {S A} : M S A := fun _ => None.

Declare Scope ob_scope.
Delimit Scope ob_scope with ob.
Notation "'let!' x ':=' m 'in' k" := (bind m (fun x => k))
  (at level 10, x name, m at level 100, k at level 200) : ob_scope.
Notation "m ';;;' k" := (bind m (fun _ => k))
  (at level 199, right associativity) : ob_scope.
(** [else if (OB_FAIL(m)) { log } else { k }], the code of a failure returned. *)
Notation "'chk!' m 'else' k" := (bind m (fun r => if ob_failed r then ret r else k))
  (at level 10, m at level 100, k at level 200) : ob_scope.
#[global] Open Scope ob_scope.

(** ** Partial correctness: a run that does not abort ends in [Q]. *)
Definition wp {S A} (m : M S A) (Q : A → S → Prop) (s : S) : Prop :=
  match m s with Some (a, s') => Q a s' | None => True end.

Section wp.
Context {S : Type}.

Lemma wp_ret {A} (a : A) (Q : A → S → Prop) s : Q a s → wp (ret a) Q s.
Proof. done. Qed.

Lemma wp_bind {A B} (m : M S A) (k : A → M S B) Q s :
  wp m (fun a s' => wp (k a) Q s') s → wp (bind m k) Q s.
Proof. unfold wp, bind. by destruct (m s) as [[a s']|]. Qed.

Lemma wp_gets {A} (f : S → A) (Q : A → S → Prop) s : Q (f s) s → wp (gets f) Q s.
Proof. done. Qed.

Lemma wp_get (Q : S → S → Prop) s : Q s s → wp get Q s.
Proof. done. Qed.

Lemma wp_modify (f : S → S) (Q : unit → S → Prop) s : Q tt (f s) → wp (modify f) Q s.
Proof. done. Qed.

Lemma wp_abort {A} (Q : A → S → Prop) s : wp ob_abort Q s.
Proof. done. Qed.

Lemma wp_mono {A} (m : M S A) (Q Q' : A → S → Prop) s :
  wp m Q s → (∀ a s', Q a s' → Q' a s') → wp m Q' s.
Proof. unfold wp. destruct (m s) as [[a s']|]; auto. Qed.

Lemma wp_run {A} (m : M S A) Q s a s' : wp m Q s → m s = Some (a, s') → Q a s'.
Proof. unfold wp. intros H Hm. by rewrite Hm in H. Qed.

Lemma bind_run {A B} (m : M S A) (k : A → M S B) s a s' :
  m s = Some (a, s') → bind m k s = k a s'.
Proof. unfold bind. intros ->. done. Qed.

Lemma wp_intro {A} (m : M S A) (Q : A → S → Prop) s :
  (∀ a s', m s = Some (a, s') → Q a s') → wp m Q s.
Proof. unfold wp. destruct (m s) as [[a s']|]; auto. Qed.
End wp.

(** ** Total correctness: a run does not abort and ends in [Q]. *)
Definition twp {S A} (m : M S A) (Q : A → S → Prop) (s : S) : Prop :=
  match m s with Some (a, s') => Q a s' | None => False end.

Section twp.
Context {S : Type}.

Lemma twp_ret {A} (a : A) (Q : A → S → Prop) s : Q a s → twp (ret a) Q s.
Proof. done. Qed.
Lemma twp_bind {A B} (m : M S A) (k : A → M S B) Q s :
  twp m (fun a s' => twp (k a) Q s') s → twp (bind m k) Q s.
Proof. unfold twp, bind. by destruct (m s) as [[a s']|]. Qed.
Lemma twp_gets {A} (f : S → A) (Q : A → S → Prop) s : Q (f s) s → twp (gets f) Q s.
Proof. done. Qed.
Lemma twp_get (Q : S → S → Prop) s : Q s s → twp get Q s.
Proof. done. Qed.
Lemma twp_modify (f : S → S) (Q : unit → S → Prop) s : Q tt (f s) → twp (modify f) Q s.
Proof. done. Qed.
Lemma twp_mono {A} (m : M S A) (Q Q' : A → S → Prop) s :
  twp m Q s → (∀ a s', Q a s' → Q' a s') → twp m Q' s.
Proof. unfold twp. destruct (m s) as [[a s']|]; auto. Qed.
Lemma twp_seq {A B} (m : M S A) (k : A → M S B) (P : A → S → Prop) Q s :
  twp m P s → (∀ a s', P a s' → twp (k a) Q s') → twp (bind m k) Q s.
Proof. unfold twp, bind. destruct (m s) as [[a s']|]; naive_solver. Qed.
Lemma twp_run {A} (m : M S A) Q s : twp m Q s ↔ ∃ a s', m s = Some (a, s') ∧ Q a s'.
Proof. unfold twp. destruct (m s) as [[a s']|]; naive_solver. Qed.
Lemma twp_elim {A} (m : M S A) (Q : A → S → Prop) s a s' : m s = Some (a, s') → twp m Q s → Q a s'.
Proof. unfold twp. by intros ->. Qed.
End twp.

(** * Generic lemmas and tactics *)

(** Case analysis on the scrutinee of a [match] or [if] of the goal. *)
Ltac break_match :=
  match goal with
  | |- context [match ?x with _ => _ end] =>
      lazymatch x with context [match _ with _ => _ end] => fail | _ => destruct x eqn:? end
  end.

(** Boolean tests on integers in the context become propositions. *)
Ltac bool_to_prop :=
  repeat match goal with
  | H : (_ && _)%bool = true |- _ => apply andb_true_iff in H; destruct H
  | H : (_ || _)%bool = false |- _ => apply orb_false_iff in H; destruct H
  | H : (_ || _)%bool = true |- _ => apply orb_true_iff in H
  | H : (_ && _)%bool = false |- _ => apply andb_false_iff in H
  | H : negb _ = true |- _ => apply negb_true_iff in H
  | H : negb _ = false |- _ => apply negb_false_iff in H
  | H : (_ =? _) = true |- _ => apply Z.eqb_eq in H
  | H : (_ =? _) = false |- _ => apply Z.eqb_neq in H
  | H : (_ <? _) = true |- _ => apply Z.ltb_lt in H
  | H : (_ <? _) = false |- _ => apply Z.ltb_ge in H
  | H : (_ <=? _) = true |- _ => apply Z.leb_le in H
  | H : (_ <=? _) = false |- _ => apply Z.leb_gt in H
  end.
