(* ===== verification/BitSet.v ===== *)
(** [ObBitSet] of [deps/oblib/src/lib/container/ob_bit_set.h]: an array of 32-bit
    words that grows on demand.  The two-phase committer keeps in one of these
    the downstream participants that have answered.  The file models the member
    operations and the word-parallel population count of [num_members], and shows
    that they implement a finite set ([members]) and its cardinality. *)
From S2P Require Import Prelude.

Module BitSet.

(** The array [bitset_word_array_]; each word is a [uint32_t]. *)
Abbreviation words := (list Z).

Definition PER_BITSETWORD_MOD_BITS : Z := 5.
Definition PER_BITSETWORD_BITS : Z := 2 ^ PER_BITSETWORD_MOD_BITS.
Definition PER_BITSETWORD_MASK : Z := PER_BITSETWORD_BITS - 1.

Definition bitset_word_count (ws : words) : Z := Z.of_nat (length ws).
Definition bit_count (ws : words) : Z := bitset_word_count ws * PER_BITSETWORD_BITS.

Definition get_bitset_word (ws : words) (index : Z) : Z :=
  if (index <? 0) || (index >=? bitset_word_count ws) then 0
  else nth (Z.to_nat index) ws 0.

(** [(BitSetWord) 1 << (index & PER_BITSETWORD_MASK)], the bit of a member in its word. *)
Definition member_bit (index : Z) : Z := Z.shiftl 1 (Z.land index PER_BITSETWORD_MASK).
Definition member_pos (index : Z) : Z := Z.shiftr index PER_BITSETWORD_MOD_BITS.

(** The loop of [push_back(0)]; [alloc i] tells whether the array can grow to
    hold its element [i].  On a failure the zeros pushed so far stay. *)
Fixpoint push_zeros (alloc : nat → bool) (ws : words) (n : nat) : Z * words :=
  match n with
  | O => (OB_SUCCESS, ws)
  | S n' =>
      if alloc (length ws) then push_zeros alloc (ws ++ [0]) n'
      else (OB_ALLOCATE_MEMORY_FAILED, ws)
  end.

Definition add_member (alloc : nat → bool) (index : Z) (ws : words) : Z * words :=
  if index <? 0 then (OB_INVALID_ARGUMENT, ws)
  else
    let pos := member_pos index in
    let '(ret, ws1) :=
      if pos >=? bitset_word_count ws
      then push_zeros alloc ws (Z.to_nat (pos + 1 - bitset_word_count ws))
      else (OB_SUCCESS, ws) in
    if ob_failed ret then (ret, ws1)
    else (OB_SUCCESS,
          <[Z.to_nat pos := Z.lor (nth (Z.to_nat pos) ws1 0) (member_bit index)]> ws1).

Definition del_member (index : Z) (ws : words) : Z * words :=
  if index <? 0 then (OB_INVALID_ARGUMENT, ws)
  else
    let pos := member_pos index in
    if pos >=? bitset_word_count ws then (OB_SUCCESS, ws)
    else (OB_SUCCESS,
          <[Z.to_nat pos := Z.ldiff (nth (Z.to_nat pos) ws 0) (member_bit index)]> ws).

Definition has_member (ws : words) (index : Z) : bool :=
  if index <? 0 then false
  else if index >=? bit_count ws then false
  else negb (Z.land (nth (Z.to_nat (member_pos index)) ws 0) (member_bit index) =? 0).

Definition is_empty (ws : words) : bool := bitset_word_count ws =? 0.

(** [add_members]: grow to the other set's length, then [|=] word by word. *)
Fixpoint or_words (ws other : words) : words :=
  match ws, other with
  | w :: ws', o :: other' => Z.lor w o :: or_words ws' other'
  | _, _ => ws
  end.

Definition add_members (alloc : nat → bool) (other ws : words) : Z * words :=
  let '(ret, ws1) :=
    if bitset_word_count ws <? bitset_word_count other
    then push_zeros alloc ws (length other - length ws)
    else (OB_SUCCESS, ws) in
  if ob_failed ret then (ret, ws1) else (OB_SUCCESS, or_words ws1 other).

Definition is_subset (ws other : words) : bool :=
  if is_empty ws then true
  else if is_empty other then false
  else if bitset_word_count ws >? bitset_word_count other then false
  else forallb (fun i => Z.land (get_bitset_word ws i) (Z.lxor (get_bitset_word other i) (Z.ones 32)) =? 0)
               (seqZ 0 (bitset_word_count ws)).

Definition reset (ws : words) : words := [].

(** One step of the word-parallel count:
    [(word & mask) + ((word >> n) & mask)]; the sum is a [uint32_t]. *)
Definition swar_step (n mask word : Z) : Z :=
  u32 (Z.land word mask + Z.land (Z.shiftr word n) mask).

Definition popcount (word : Z) : Z :=
  swar_step 16 0x0000ffff (swar_step 8 0x00ff00ff (swar_step 4 0x0f0f0f0f
    (swar_step 2 0x33333333 (swar_step 1 0x55555555 word)))).

Definition num_members (ws : words) : Z :=
  fold_right (fun word num => if word =? 0 then num else num + popcount word) 0 ws.

(** * Specification: the set of members *)
Definition members (ws : words) : gset Z :=
  list_to_set (filter (fun i => has_member ws i = true) (seqZ 0 (bit_count ws))).

Definition wf (ws : words) : Prop := Forall (in_u 32) ws.

(** * Membership *)

(** Bit [i] of a word, the reading every operation below is reduced to. *)
Definition bit (ws : words) (i : Z) : bool :=
  Z.testbit (nth (Z.to_nat (i / 32)) ws 0) (i mod 32).

Lemma member_pos_eq i : member_pos i = i / 32.
Proof. unfold member_pos, PER_BITSETWORD_MOD_BITS. by rewrite Z.shiftr_div_pow2. Qed.

Lemma member_bit_eq i : member_bit i = 2 ^ (i mod 32).
Proof.
  unfold member_bit. change PER_BITSETWORD_MASK with (Z.ones 5).
  rewrite Z.land_ones by lia. change (2 ^ 5) with 32.
  rewrite Z.shiftl_mul_pow2 by (apply Z.mod_pos_bound; lia). lia.
Qed.

Lemma land_pow2_zero w k : 0 <= k → (Z.land w (2 ^ k) =? 0) = negb (Z.testbit w k).
Proof.
  intros Hk. destruct (Z.testbit w k) eqn:E.
  - apply Z.eqb_neq. intros H0. apply (f_equal (fun z => Z.testbit z k)) in H0.
    rewrite Z.land_spec, E, Z.pow2_bits_true, Z.bits_0 in H0 by lia. done.
  - apply Z.eqb_eq, Z.bits_inj'. intros n Hn. rewrite Z.land_spec, Z.bits_0.
    destruct (Z.eq_dec k n) as [->|]; [by rewrite E|].
    rewrite Z.pow2_bits_false by lia. apply andb_false_r.
Qed.

Lemma has_member_bit ws i : 0 <= i → has_member ws i = bit ws i.
Proof.
  intros Hi. unfold has_member, bit.
  rewrite (proj2 (Z.ltb_ge i 0)) by lia. rewrite member_pos_eq, member_bit_eq.
  pose proof (Z.mod_pos_bound i 32 ltac:(lia)).
  rewrite land_pow2_zero, negb_involutive by lia.
  unfold bit_count, bitset_word_count, PER_BITSETWORD_BITS, PER_BITSETWORD_MOD_BITS.
  change (2 ^ 5) with 32. destruct (Z.geb_spec i (Z.of_nat (length ws) * 32)); [|done].
  rewrite nth_overflow; [by rewrite Z.bits_0|].
  pose proof (Z.div_le_lower_bound i 32 (Z.of_nat (length ws))). lia.
Qed.

Lemma has_member_neg ws i : i < 0 → has_member ws i = false.
Proof. intros Hi. unfold has_member. by rewrite (proj2 (Z.ltb_lt i 0)). Qed.

Lemma elem_of_members ws i : i ∈ members ws ↔ has_member ws i = true.
Proof.
  unfold members. rewrite elem_of_list_to_set, list_elem_of_filter, elem_of_seqZ.
  split; [by intros [? _]|]. intros H. split; [done|]. unfold has_member in H.
  destruct (i <? 0) eqn:?; [done|]. destruct (i >=? bit_count ws) eqn:E; [done|].
  bool_to_prop. rewrite Z.geb_leb in E. bool_to_prop. lia.
Qed.

Lemma members_empty : members [] = ∅.
Proof. reflexivity. Qed.

Lemma nth_app_zeros (ws : words) n k : nth k (ws ++ replicate n 0) 0 = nth k ws 0.
Proof.
  destruct (decide (k < length ws)%nat); [by rewrite app_nth1|].
  rewrite app_nth2 by lia. rewrite (nth_overflow ws) by lia.
  destruct (nth_in_or_default (k - length ws) (replicate n 0) 0) as [Hin|]; [|done].
  apply list_elem_of_In, elem_of_replicate_inv in Hin. done.
Qed.

Lemma push_zeros_spec alloc ws n ret ws1 :
  push_zeros alloc ws n = (ret, ws1) →
  ∃ k, ws1 = ws ++ replicate k 0 ∧ (ret = OB_SUCCESS → k = n)
       ∧ (ret = OB_SUCCESS ∨ ret = OB_ALLOCATE_MEMORY_FAILED).
Proof.
  revert ws. induction n as [|n IH]; intros ws; simpl.
  - intros [= <- <-]. exists 0%nat. rewrite app_nil_r. auto.
  - destruct (alloc _).
    + intros H. destruct (IH _ H) as (k & -> & Hk & Hr). exists (S k).
      rewrite <- app_assoc. simpl. split_and!; auto.
    + intros [= <- <-]. exists 0%nat. rewrite app_nil_r. split_and!; [done|discriminate|auto].
Qed.

Lemma push_zeros_ok ws n : push_zeros (fun _ => true) ws n = (OB_SUCCESS, ws ++ replicate n 0).
Proof.
  revert ws. induction n as [|n IH]; intros ws; simpl; [by rewrite app_nil_r|].
  rewrite IH, <- app_assoc. done.
Qed.

(** The word array after a successful growth to cover [pos]. *)
Lemma bit_insert (ws : words) pos w i :
  0 <= i → 0 <= pos < Z.of_nat (length ws) →
  bit (<[Z.to_nat pos := w]> ws) i =
    if i / 32 =? pos then Z.testbit w (i mod 32) else bit ws i.
Proof.
  intros Hi Hpos. unfold bit.
  assert (0 <= i / 32) by (apply Z.div_pos; lia).
  rewrite !nth_lookup. destruct (Z.eqb_spec (i / 32) pos) as [->|Hne].
  - rewrite list_lookup_insert_eq by lia. done.
  - rewrite list_lookup_insert_ne by lia. done.
Qed.

(** The effect of [add_member] on membership, on both outcomes. *)
Lemma add_member_has alloc index ws ret ws' :
  add_member alloc index ws = (ret, ws') →
  ∀ i, has_member ws' i = has_member ws i || negb (ob_failed ret) && (i =? index).
Proof.
  unfold add_member. destruct (Z.ltb_spec index 0) as [Hneg|Hpos].
  { intros [= <- <-] i. simpl. by rewrite orb_false_r. }
  rewrite member_pos_eq, member_bit_eq.
  destruct (if _ >=? _ then _ else _) as [r ws1] eqn:E.
  assert (∃ k, ws1 = ws ++ replicate k 0 ∧ (r = OB_SUCCESS → index / 32 < Z.of_nat (length ws1)))
    as (k & -> & Hlen).
  { unfold bitset_word_count in E. rewrite Z.geb_leb in E.
    destruct (Z.leb_spec (Z.of_nat (length ws)) (index / 32)).
    - destruct (push_zeros_spec _ _ _ _ _ E) as (k & -> & Hk & _). exists k. split; [done|].
      intros Hr. specialize (Hk Hr). rewrite length_app, length_replicate. lia.
    - injection E as <- <-. exists 0%nat. rewrite app_nil_r. auto. }
  destruct (ob_failed r) eqn:Hf; intros [= <- <-] i.
  - rewrite Hf. simpl. rewrite orb_false_r.
    destruct (decide (0 <= i)); [|rewrite !has_member_neg by lia; done].
    rewrite !has_member_bit by done. unfold bit. by rewrite nth_app_zeros.
  - apply ob_failed_false in Hf. specialize (Hlen Hf). simpl.
    destruct (decide (0 <= i)) as [Hi|].
    2: { rewrite !has_member_neg by lia. rewrite (proj2 (Z.eqb_neq i index)) by lia. done. }
    assert (0 <= index / 32) by (apply Z.div_pos; lia).
    rewrite !has_member_bit, bit_insert by lia. rewrite Z.lor_spec.
    pose proof (Z.mod_pos_bound i 32 ltac:(lia)). pose proof (Z.mod_pos_bound index 32 ltac:(lia)).
    pose proof (Z.div_mod i 32 ltac:(lia)). pose proof (Z.div_mod index 32 ltac:(lia)).
    unfold bit. rewrite !nth_app_zeros.
    destruct (Z.eqb_spec (i / 32) (index / 32)) as [Hd|Hd].
    + rewrite Hd. f_equal. rewrite Z.pow2_bits_eqb by lia.
      destruct (Z.eqb_spec (index mod 32) (i mod 32)), (Z.eqb_spec i index); try done; lia.
    + rewrite (proj2 (Z.eqb_neq i index)) by congruence. by rewrite orb_false_r.
Qed.

(** * The word-parallel population count

    A word is read as a list of fields of width [n]; a step adds neighbouring
    fields into fields of width [2 * n]. *)
Fixpoint fields (n : Z) (fs : list Z) : Z :=
  match fs with [] => 0 | f :: fs' => f + 2 ^ n * fields n fs' end.

Fixpoint flat (ps : list (Z * Z)) : list Z :=
  match ps with [] => [] | (a, b) :: ps' => a :: b :: flat ps' end.

Fixpoint mask_of (n : Z) (k : nat) : Z :=
  match k with O => 0 | S k' => (2 ^ n - 1) + 2 ^ n * (0 + 2 ^ n * mask_of n k') end.

Definition sum (l : list Z) : Z := fold_right Z.add 0 l.
Definition pair_sum (p : Z * Z) : Z := p.1 + p.2.

Lemma land_split m x y x' y' :
  0 <= m → 0 <= x < 2 ^ m → 0 <= x' < 2 ^ m →
  Z.land (x + 2 ^ m * y) (x' + 2 ^ m * y') = Z.land x x' + 2 ^ m * Z.land y y'.
Proof.
  intros Hm Hx Hx'. assert (0 < 2 ^ m) by (apply Z.pow_pos_nonneg; lia).
  assert (∀ a b, 0 <= a < 2 ^ m → Z.shiftr (a + 2 ^ m * b) m = b) as Hsh.
  { intros a b Ha. rewrite Z.shiftr_div_pow2, Z.mul_comm, Z.div_add, Z.div_small by lia. lia. }
  assert (∀ a b, 0 <= a < 2 ^ m → Z.land (a + 2 ^ m * b) (Z.ones m) = a) as Hlo.
  { intros a b Ha. rewrite Z.land_ones, Z.mul_comm, Z.mod_add, Z.mod_small by lia. lia. }
  set (X := x + 2 ^ m * y). set (Y := x' + 2 ^ m * y').
  assert (Z.land (Z.land X Y) (Z.ones m) = Z.land x x') as Hl.
  { rewrite <- (Hlo x y), <- (Hlo x' y') by lia. fold X Y.
    apply Z.bits_inj'. intros i _. rewrite !Z.land_spec.
    destruct (Z.testbit X i), (Z.testbit Y i), (Z.testbit (Z.ones m) i); done. }
  rewrite (Z.div_mod (Z.land X Y) (2 ^ m)) by lia.
  rewrite <- Z.land_ones, Hl, <- Z.shiftr_div_pow2, Z.shiftr_land by lia.
  unfold X, Y. rewrite !Hsh by lia. lia.
Qed.

Lemma land_ones_id n a : 0 <= n → 0 <= a < 2 ^ n → Z.land a (2 ^ n - 1) = a.
Proof.
  intros Hn Ha. replace (2 ^ n - 1) with (Z.ones n) by (rewrite Z.ones_equiv; lia).
  rewrite Z.land_ones by lia. apply Z.mod_small. lia.
Qed.

Lemma fields_bound n fs :
  0 <= n → Forall (in_u n) fs → 0 <= fields n fs < 2 ^ (n * Z.of_nat (length fs)).
Proof.
  intros Hn. induction 1 as [|f fs Hf _ IH]; simpl length.
  - rewrite Z.mul_0_r. simpl. lia.
  - rewrite Nat2Z.inj_succ, Z.mul_succ_r, Z.add_comm, Z.pow_add_r by lia.
    unfold in_u in Hf. cbn [fields]. nia.
Qed.

Lemma mask_of_shift n k R :
  0 <= n → Z.land R (2 ^ n * mask_of n k) = 2 ^ n * Z.land (Z.shiftr R n) (mask_of n k).
Proof.
  intros Hn. assert (0 < 2 ^ n) by (apply Z.pow_pos_nonneg; lia).
  rewrite (Z.div_mod R (2 ^ n)) at 1 by lia.
  rewrite Z.add_comm. change (2 ^ n * mask_of n k) with (0 + 2 ^ n * mask_of n k).
  pose proof (Z.mod_pos_bound R (2 ^ n)).
  rewrite land_split, Z.land_0_r, Z.shiftr_div_pow2 by lia. lia.
Qed.

Lemma swar_fields n ps :
  0 <= n → Forall (in_u n) (flat ps) →
  Z.land (fields n (flat ps)) (mask_of n (length ps))
  + Z.land (Z.shiftr (fields n (flat ps)) n) (mask_of n (length ps))
  = fields (2 * n) (map pair_sum ps).
Proof.
  intros Hn. assert (0 < 2 ^ n) as Hp by (apply Z.pow_pos_nonneg; lia).
  assert (2 ^ (2 * n) = 2 ^ n * 2 ^ n) as H2 by (rewrite <- Z.pow_add_r by lia; f_equal; lia).
  induction ps as [|[a b] ps IH]; cbn [flat fields map length mask_of]; intros HF.
  { rewrite Z.land_0_r, Z.shiftr_0_l. reflexivity. }
  apply Forall_cons_1 in HF as [Ha HF]. apply Forall_cons_1 in HF as [Hb HF].
  specialize (IH HF). unfold in_u in Ha, Hb.
  set (R := fields n (flat ps)) in *. set (K := mask_of n (length ps)) in *.
  rewrite Z.shiftr_div_pow2 by lia.
  replace ((a + 2 ^ n * (b + 2 ^ n * R)) / 2 ^ n) with (b + 2 ^ n * R)
    by (symmetry; rewrite Z.mul_comm, Z.div_add, Z.div_small by lia; lia).
  rewrite (land_split n a), !(land_split n b) by lia.
  rewrite Z.land_0_r, !land_ones_id by lia.
  change (0 + 2 ^ n * K) with (2 ^ n * K). unfold K. rewrite (mask_of_shift n _ R) by lia. fold K.
  rewrite <- IH, H2. unfold pair_sum; simpl. ring.
Qed.

(** Pairing up a list of even length. *)
Fixpoint pairs (fs : list Z) : list (Z * Z) :=
  match fs with a :: b :: fs' => (a, b) :: pairs fs' | _ => [] end.

Lemma flat_pairs (k : nat) fs : length fs = (2 * k)%nat → flat (pairs fs) = fs ∧ length (pairs fs) = k.
Proof.
  revert fs. induction k as [|k IH]; intros fs Hl.
  - destruct fs; [done|discriminate].
  - destruct fs as [|a [|b fs]]; [simpl in Hl; lia..|].
    simpl in *. destruct (IH fs) as [-> ->]; [lia|done].
Qed.

Lemma sum_pairs ps : sum (map pair_sum ps) = sum (flat ps).
Proof. induction ps as [|[a b] ps IH]; simpl; unfold pair_sum in *; simpl in *; lia. Qed.

(** One step on fields bounded by [c]: the width doubles, the sum is kept. *)
Lemma swar_step_sum n c (k : nat) fs w :
  0 < n → 2 * c < 2 ^ (2 * n) → c < 2 ^ n → 2 * n * Z.of_nat k = 32 →
  length fs = (2 * k)%nat → Forall (fun f => 0 <= f <= c) fs → w = fields n fs →
  ∃ fs', swar_step n (mask_of n k) w = fields (2 * n) fs' ∧ length fs' = k
         ∧ Forall (fun f => 0 <= f <= 2 * c) fs' ∧ sum fs' = sum fs.
Proof.
  intros Hn Hc2 Hc Hk Hl HF ->. destruct (flat_pairs k fs Hl) as [Hfl Hlp].
  exists (map pair_sum (pairs fs)). rewrite length_map, sum_pairs, Hfl.
  assert (Forall (fun f => 0 <= f <= 2 * c) (map pair_sum (pairs fs))) as HB.
  { rewrite <- Hfl in HF. clear -HF. induction (pairs fs) as [|[a b] ps IH]; simpl; [constructor|].
    simpl in HF. apply Forall_cons_1 in HF as [Ha HF]. apply Forall_cons_1 in HF as [Hb HF].
    constructor; [unfold pair_sum; simpl; lia|auto]. }
  split_and!; try done. unfold swar_step. rewrite <- Hfl at 1 2. rewrite <- Hlp at 1 2.
  rewrite swar_fields; [|lia|].
  2: { rewrite Hfl. eapply Forall_impl; [exact HF|]. unfold in_u. intros; lia. }
  apply wrapu_small. unfold in_u. rewrite <- Hk, <- Hlp, <- (length_map pair_sum).
  apply fields_bound; [lia|]. eapply Forall_impl; [exact HB|]. unfold in_u. intros; lia.
Qed.

(** The bits of a word, least significant first. *)
Definition word_bits (w : Z) : list Z := map (fun i => Z.b2z (Z.testbit w (Z.of_nat i))) (seq 0 32).

Lemma fields_bits (k : nat) w :
  0 <= w → fields 1 (map (fun i => Z.b2z (Z.testbit w (Z.of_nat i))) (seq 0 k)) = w mod 2 ^ Z.of_nat k.
Proof.
  revert w. induction k as [|k IH]; intros w Hw; [by rewrite Z.mod_1_r|].
  cbn [seq map fields]. rewrite <- seq_shift, map_map.
  rewrite (map_ext _ (fun i => Z.b2z (Z.testbit (w / 2) (Z.of_nat i)))).
  2: { intros i. rewrite Z.div2_bits by lia. by rewrite Nat2Z.inj_succ. }
  rewrite IH by (apply Z.div_pos; lia).
  rewrite Nat2Z.inj_succ, Z.pow_succ_r, Z.rem_mul_r by lia.
  change (Z.testbit w (Z.of_nat 0)) with (Z.testbit w 0).
  rewrite Z.bit0_mod. change (2 ^ 1) with 2. lia.
Qed.

(** [popcount] is the number of one bits of the word. *)
Lemma popcount_bits w : in_u 32 w → popcount w = sum (word_bits w).
Proof.
  intros Hw. assert (w = fields 1 (word_bits w)) as H0.
  { unfold word_bits. rewrite fields_bits by (unfold in_u in Hw; lia).
    rewrite Z.mod_small; [done|exact Hw]. }
  assert (Forall (fun f => 0 <= f <= 1) (word_bits w)) as HF.
  { apply Forall_forall. intros x Hx. apply list_elem_of_In, in_map_iff in Hx as (i & <- & _).
    destruct (Z.testbit w (Z.of_nat i)); simpl; lia. }
  unfold popcount.
  destruct (swar_step_sum 1 1 16 (word_bits w) w ltac:(lia) ltac:(lia) ltac:(lia) ltac:(lia) ltac:(reflexivity) HF H0)
    as (f1 & E1 & L1 & B1 & S1).
  destruct (swar_step_sum 2 2 8 f1 _ ltac:(lia) ltac:(lia) ltac:(lia) ltac:(lia) L1 B1 E1)
    as (f2 & E2 & L2 & B2 & S2).
  destruct (swar_step_sum 4 4 4 f2 _ ltac:(lia) ltac:(lia) ltac:(lia) ltac:(lia) L2 B2 E2)
    as (f3 & E3 & L3 & B3 & S3).
  destruct (swar_step_sum 8 8 2 f3 _ ltac:(lia) ltac:(lia) ltac:(lia) ltac:(lia) L3 B3 E3)
    as (f4 & E4 & L4 & B4 & S4).
  destruct (swar_step_sum 16 16 1 f4 _ ltac:(lia) ltac:(lia) ltac:(lia) ltac:(lia) L4 B4 E4)
    as (f5 & E5 & L5 & B5 & S5).
  change 0x55555555 with (mask_of 1 16). change 0x33333333 with (mask_of 2 8).
  change 0x0f0f0f0f with (mask_of 4 4). change 0x00ff00ff with (mask_of 8 2).
  change 0x0000ffff with (mask_of 16 1). rewrite E5, <- S1, <- S2, <- S3, <- S4, <- S5.
  destruct f5 as [|x [|? ?]]; try discriminate L5. simpl. lia.
Qed.

(** * [num_members] is the cardinality of the set *)
Lemma length_filter_sum (f : Z → bool) l :
  Z.of_nat (length (filter (fun i => f i = true) l)) = sum (map (fun i => Z.b2z (f i)) l).
Proof.
  induction l as [|x l IH]; [done|]. rewrite filter_cons. cbn [map sum fold_right].
  change (fold_right Z.add 0) with sum. rewrite <- IH. case_decide as Hd.
  - rewrite Hd. simpl length. cbn [Z.b2z]. lia.
  - destruct (f x); [done|]. cbn [Z.b2z]. lia.
Qed.

Lemma sum_app l1 l2 : sum (l1 ++ l2) = sum l1 + sum l2.
Proof. induction l1; simpl; lia. Qed.

Lemma bit_cons_shift w ws i : 0 <= i → bit (w :: ws) (32 + i) = bit ws i.
Proof.
  intros Hi. unfold bit. assert (0 <= i / 32) by (apply Z.div_pos; lia).
  replace (32 + i) with (i + 1 * 32) by lia. rewrite Z.div_add, Z.mod_add by lia.
  rewrite Z2Nat.inj_add, Nat.add_comm by lia. done.
Qed.

Lemma bit_cons_low w ws i : 0 <= i < 32 → bit (w :: ws) i = Z.testbit w i.
Proof. intros Hi. unfold bit. rewrite Z.div_small, Z.mod_small by lia. done. Qed.

Lemma num_members_bits ws :
  wf ws → num_members ws = sum (map (fun i => Z.b2z (bit ws i)) (seqZ 0 (32 * Z.of_nat (length ws)))).
Proof.
  induction 1 as [|w ws Hw _ IH]; [done|].
  cbn [num_members fold_right length].
  change (fold_right _ 0 ws) with (num_members ws).
  replace (32 * Z.of_nat (S (length ws))) with (32 + 32 * Z.of_nat (length ws)) by lia.
  rewrite seqZ_app by lia. rewrite map_app, sum_app.
  replace (seqZ (0 + 32) (32 * Z.of_nat (length ws)))
    with (map (Z.add 32) (seqZ 0 (32 * Z.of_nat (length ws)))).
  2: { change (map (Z.add 32)) with (fmap (M:=list) (Z.add 32)). by rewrite fmap_add_seqZ. }
  rewrite map_map.
  rewrite (map_ext_in (fun x => Z.b2z (bit (w :: ws) (32 + x))) (fun i => Z.b2z (bit ws i))).
  2: { intros i Hi. apply list_elem_of_In, elem_of_seqZ in Hi. by rewrite bit_cons_shift by lia. }
  rewrite <- IH.
  replace (sum (map (fun i => Z.b2z (bit (w :: ws) i)) (seqZ 0 32))) with (sum (word_bits w)).
  2: { unfold word_bits. change (seqZ 0 32) with (map Z.of_nat (seq 0 32)).
       rewrite map_map. apply (f_equal sum), map_ext_in. intros i Hi. apply in_seq in Hi.
       by rewrite bit_cons_low by lia. }
  destruct (Z.eqb_spec w 0) as [->|]; [reflexivity|].
  rewrite popcount_bits by done. lia.
Qed.

Lemma num_members_size ws : wf ws → num_members ws = Z.of_nat (size (members ws)).
Proof.
  intros Hwf. rewrite num_members_bits by done. unfold members.
  rewrite size_list_to_set by (apply NoDup_filter, NoDup_seqZ).
  rewrite length_filter_sum. f_equal.
  replace (bit_count ws) with (32 * Z.of_nat (length ws))
    by (unfold bit_count, bitset_word_count, PER_BITSETWORD_BITS, PER_BITSETWORD_MOD_BITS; lia).
  apply map_ext_in. intros i Hi. apply list_elem_of_In, elem_of_seqZ in Hi.
  by rewrite has_member_bit by lia.
Qed.

(** * Well-formedness of the word array *)
Lemma wf_nth ws k : wf ws → in_u 32 (nth k ws 0).
Proof.
  intros Hwf. destruct (nth_in_or_default k ws 0) as [Hin | ->].
  - apply list_elem_of_In in Hin. exact (proj1 (Forall_forall _ _) Hwf _ Hin).
  - unfold in_u. lia.
Qed.

Lemma lor_in_u w x y : 0 <= w → in_u w x → in_u w y → in_u w (Z.lor x y).
Proof.
  unfold in_u. intros Hw Hx Hy. assert (0 < 2 ^ w) by (apply Z.pow_pos_nonneg; lia).
  assert (Z.lor x y / 2 ^ w = 0) as Hd.
  { rewrite <- Z.shiftr_div_pow2, Z.shiftr_lor, !Z.shiftr_div_pow2, !Z.div_small by lia. done. }
  apply Z.div_small_iff in Hd; lia.
Qed.

Lemma member_bit_in_u i : in_u 32 (member_bit i).
Proof.
  rewrite member_bit_eq. pose proof (Z.mod_pos_bound i 32 ltac:(lia)). unfold in_u.
  split; [apply Z.pow_nonneg; lia | apply Z.pow_lt_mono_r; lia].
Qed.

Lemma wf_replicate n : wf (replicate n 0).
Proof. induction n; constructor; [unfold in_u; lia|done]. Qed.

Lemma add_member_wf alloc index ws ret ws' :
  add_member alloc index ws = (ret, ws') → wf ws → wf ws'.
Proof.
  unfold add_member. destruct (index <? 0); [by intros [= <- <-]|].
  destruct (if _ >=? _ then _ else _) as [r ws1] eqn:E. intros H Hwf.
  assert (wf ws1) as Hwf1.
  { destruct (_ >=? _); [|by injection E as <- <-].
    destruct (push_zeros_spec _ _ _ _ _ E) as (k & -> & _).
    apply Forall_app_2; [done|apply wf_replicate]. }
  destruct (ob_failed r); injection H as <- <-; [done|].
  apply Forall_insert; [done|]. apply lor_in_u; [lia|by apply wf_nth|apply member_bit_in_u].
Qed.
End BitSet.
