(* ===== verification/BitSetOps.v ===== *)
(** The rest of [ObBitSet] ([deps/oblib/src/lib/container/ob_bit_set.h]): the
    operations on whole sets, the comparisons and the searches.  The file shows
    that the word array implements a finite set of non-negative integers. *)
From stdpp Require Import sorting.
From S2P Require Import Prelude BitSet.
Import BitSet.

Module BitSetOps.
(** * Operations *)

(** [del_members]: [word(i) &= ~other.word(i)]. *)
Definition del_members (other ws : words) : words :=
  imap (fun i w => Z.ldiff w (get_bitset_word other (Z.of_nat i))) ws.

Definition clear_all (ws : words) : words := map (fun _ => 0) ws.
Definition MAX_WORD : Z := Z.shiftl 1 32 - 1.
Definition set_all (ws : words) : words := map (fun w => u32 (Z.lor w MAX_WORD)) ws.

(** The loops of [do_mask]: words set to zero, bits of a word cleared. *)
Definition zero_words (idx : list Z) (ws : words) : words :=
  foldl (fun ws i => <[Z.to_nat i := 0]> ws) ws idx.
Definition clear_bits (word : Z) (idx : list Z) (ws : words) : words :=
  foldl (fun ws i => <[Z.to_nat word := Z.ldiff (nth (Z.to_nat word) ws 0) (Z.shiftl 1 i)]> ws) ws idx.

Definition do_mask (begin_index end_index : Z) (ws : words) : Z * words :=
  let max_bit_count := bit_count ws in
  if (begin_index <? 0) || (begin_index >=? max_bit_count) || (end_index <? 0)
     || (end_index >=? max_bit_count) || (begin_index >=? end_index)
  then (OB_INVALID_ARGUMENT, ws)
  else
    let begin_word := begin_index / PER_BITSETWORD_BITS in
    let end_word := end_index / PER_BITSETWORD_BITS in
    let begin_pos := begin_index mod PER_BITSETWORD_BITS in
    let end_pos := end_index mod PER_BITSETWORD_BITS in
    let ws1 := zero_words (seqZ 0 begin_word) ws in
    let ws2 := zero_words (reverse (seqZ (end_word + 1) (bitset_word_count ws - 1 - end_word))) ws1 in
    let ws3 := clear_bits begin_word (seqZ 0 begin_pos) ws2 in
    (OB_SUCCESS, clear_bits end_word (seqZ (1 + end_pos) (PER_BITSETWORD_BITS - (1 + end_pos))) ws3).

(** [a & ~b] of two words. *)
Definition word_diff (a b : Z) : Z := Z.land a (Z.lxor b (Z.ones 32)).

Definition is_superset (ws other : words) : bool :=
  if is_empty other then true
  else if is_empty ws then false
  else if bitset_word_count ws <? bitset_word_count other then false
  else forallb (fun i => word_diff (get_bitset_word other i) (get_bitset_word ws i) =? 0)
               (seqZ 0 (bitset_word_count other)).

Definition overlap (ws other : words) : bool :=
  existsb (fun i => negb (Z.land (get_bitset_word ws i) (get_bitset_word other i) =? 0))
          (seqZ 0 (Z.min (bitset_word_count ws) (bitset_word_count other))).

Definition equal (ws other : words) : bool :=
  forallb (fun i => get_bitset_word ws i =? get_bitset_word other i)
          (seqZ 0 (Z.max (bitset_word_count ws) (bitset_word_count other))).

(** [to_array]: [push k] is what [push_back] of element [k] returns. *)
Fixpoint to_array_loop (push : nat → Z) (ws : words) (num : Z) (idx : list Z) (arr : list Z)
    : Z * list Z :=
  match idx with
  | [] => (OB_SUCCESS, arr)
  | i :: idx' =>
      if Z.of_nat (length arr) <? num then
        if has_member ws i then
          if ob_failed (push (length arr)) then (push (length arr), arr)
          else to_array_loop push ws num idx' (arr ++ [i])
        else to_array_loop push ws num idx' arr
      else (OB_SUCCESS, arr)
  end.
Definition to_array (push : nat → Z) (ws : words) : Z * list Z :=
  to_array_loop push ws (num_members ws) (seqZ 0 (bit_count ws)) [].

(** The first index of the list that passes the test, [-1] if there is none. *)
Fixpoint first_index (test : Z → bool) (idx : list Z) : Z :=
  match idx with
  | [] => -1
  | i :: idx' => if test i then i else first_index test idx'
  end.

Definition get_first_peculiar_bit (ws other : words) : Z :=
  let min_bit_count := Z.min (bit_count ws) (bit_count other) in
  let index := first_index (fun i => has_member ws i && negb (has_member other i)) (seqZ 0 min_bit_count) in
  if (-1 =? index) && (min_bit_count <? bit_count ws)
  then first_index (has_member ws) (seqZ min_bit_count (bit_count ws - min_bit_count))
  else index.

(** [__builtin_ctz] and [__builtin_clz] of a 32-bit word that is not zero. *)
Fixpoint ctz_from (n : nat) (k w : Z) : Z :=
  match n with
  | O => k
  | S n' => if Z.testbit w k then k else ctz_from n' (k + 1) w
  end.
Definition ctz (w : Z) : Z := ctz_from 32 0 w.
Definition clz (w : Z) : Z := 31 - Z.log2 w.

(** The loop of [find_next] over the words from [which_word] on. *)
Fixpoint next_loop (ws : words) (which_word : Z) : Z :=
  match ws with
  | [] => -1
  | w :: ws' => if w =? 0 then next_loop ws' (which_word + 1)
                else which_word * PER_BITSETWORD_BITS + ctz w
  end.

(** The pair is [ret] and [find_pos], which an error leaves as it was. *)
Definition find_next (start_pos find_pos : Z) (ws : words) : Z * Z :=
  if start_pos <? -1 then (OB_INVALID_ARGUMENT, find_pos)
  else
    let pos := start_pos + 1 in
    let which_word := Z.shiftr pos PER_BITSETWORD_MOD_BITS in
    let which_bit := pos mod PER_BITSETWORD_BITS in
    if bitset_word_count ws <=? which_word then (OB_SUCCESS, -1)
    else
      let this_word := Z.land (nth (Z.to_nat which_word) ws 0) (u32 (Z.shiftl (Z.ones 32) which_bit)) in
      if negb (this_word =? 0) then (OB_SUCCESS, which_word * PER_BITSETWORD_BITS + ctz this_word)
      else (OB_SUCCESS, next_loop (drop (S (Z.to_nat which_word)) ws) (which_word + 1)).

(** The loop of [find_prev]: [ws] are the words below, the nearest one first. *)
Fixpoint prev_loop (ws : words) (delta : Z) : Z :=
  match ws with
  | [] => delta
  | w :: ws' => if w =? 0 then prev_loop ws' (delta + PER_BITSETWORD_BITS) else delta + clz w
  end.

Definition find_prev (start_pos : Z) (ws : words) : Z * Z :=
  if start_pos <? 0 then (OB_INVALID_ARGUMENT, -1)
  else if start_pos =? 0 then (OB_SUCCESS, -1)
  else if bitset_word_count ws =? 0 then (OB_SUCCESS, -1)
  else
    let limit := Z.shiftl (bitset_word_count ws) PER_BITSETWORD_MOD_BITS in
    let pos := if start_pos - 1 >=? limit then limit - 1 else start_pos - 1 in
    let which_word := Z.shiftr pos PER_BITSETWORD_MOD_BITS in
    let which_bit := pos mod PER_BITSETWORD_BITS in
    let this_word := u32 (Z.shiftl (nth (Z.to_nat which_word) ws 0) (PER_BITSETWORD_BITS - which_bit - 1)) in
    let delta := if negb (this_word =? 0) then clz this_word
                 else prev_loop (reverse (take (Z.to_nat which_word) ws)) (which_bit + 1) in
    (OB_SUCCESS, pos - delta).

Definition find_first (find_pos : Z) (ws : words) : Z * Z := find_next (-1) find_pos ws.

Example ops_run :
  let ws := (add_member (fun _ => true) 40 (add_member (fun _ => true) 3 []).2).2 in
  to_array (fun _ => OB_SUCCESS) ws = (OB_SUCCESS, [3; 40]) ∧ find_next 3 0 ws = (OB_SUCCESS, 40)
  ∧ find_prev 40 ws = (OB_SUCCESS, 3) ∧ find_prev 3 ws = (OB_SUCCESS, -1)
  ∧ (do_mask 4 50 ws).2 = [0; 256] ∧ get_first_peculiar_bit ws [8] = 40.
Proof. vm_compute. split_and!; reflexivity. Qed.

(** * Words and their bits *)
Lemma get_word_nth ws i : 0 <= i → get_bitset_word ws i = nth (Z.to_nat i) ws 0.
Proof.
  intros Hi. unfold get_bitset_word, bitset_word_count. rewrite (proj2 (Z.ltb_ge i 0)) by lia.
  cbn [orb]. destruct (Z.geb_spec i (Z.of_nat (length ws))); [|done].
  by rewrite nth_overflow by lia.
Qed.

Lemma bit_word ws k b : 0 <= k → 0 <= b < 32 → bit ws (32 * k + b) = Z.testbit (get_bitset_word ws k) b.
Proof.
  intros Hk Hb. unfold bit. rewrite get_word_nth by done.
  replace ((32 * k + b) / 32) with k by (apply Z.div_unique with b; lia).
  by replace ((32 * k + b) mod 32) with b by (apply Z.mod_unique with k; lia).
Qed.

Lemma index_split i : 0 <= i → 0 <= i / 32 ∧ 0 <= i mod 32 < 32 ∧ i = 32 * (i / 32) + i mod 32.
Proof.
  intros Hi. pose proof (Z.mod_pos_bound i 32 ltac:(lia)). pose proof (Z.div_mod i 32 ltac:(lia)).
  pose proof (Z.div_pos i 32 Hi ltac:(lia)). lia.
Qed.

Lemma bit_at ws i : 0 <= i → bit ws i = Z.testbit (get_bitset_word ws (i / 32)) (i mod 32).
Proof. intros Hi. destruct (index_split i Hi) as (? & _). by rewrite get_word_nth. Qed.

Lemma in_u_testbit w b : in_u 32 w → 32 <= b → Z.testbit w b = false.
Proof.
  intros Hw Hb. rewrite <- (Z.mod_small w (2 ^ 32)) by done. apply Z.mod_pow2_bits_high. lia.
Qed.

Lemma get_word_in_u ws i : wf ws → in_u 32 (get_bitset_word ws i).
Proof.
  intros Hwf. unfold get_bitset_word. destruct (_ || _); [unfold in_u; lia|]. by apply wf_nth.
Qed.

Lemma word_diff_bit a b k : 0 <= k < 32 → Z.testbit (word_diff a b) k = Z.testbit a k && negb (Z.testbit b k).
Proof.
  intros Hk. unfold word_diff. rewrite Z.land_spec, Z.lxor_spec, Z.testbit_ones_nonneg by lia.
  rewrite (proj2 (Z.ltb_lt k 32)) by lia. by rewrite xorb_true_r.
Qed.

Lemma word_zero w : in_u 32 w → (w =? 0) = true ↔ ∀ k, 0 <= k < 32 → Z.testbit w k = false.
Proof.
  intros Hw. rewrite Z.eqb_eq. split; [intros -> k _; apply Z.bits_0|].
  intros H. apply Z.bits_inj'. intros k Hk. rewrite Z.bits_0.
  destruct (decide (k < 32)); [apply H; lia|]. apply in_u_testbit; [done|lia].
Qed.

Lemma land_in_u a b : in_u 32 a → in_u 32 (Z.land a b).
Proof.
  intros Ha. assert (Z.land a b = Z.land a b mod 2 ^ 32) as ->; [|by apply (wrapu_range 32)].
  apply Z.bits_inj'. intros k Hk. destruct (decide (k < 32)).
  - by rewrite Z.mod_pow2_bits_low by lia.
  - rewrite Z.mod_pow2_bits_high, Z.land_spec, in_u_testbit by (done || lia). done.
Qed.

Lemma ldiff_in_u a b : in_u 32 a → in_u 32 (Z.ldiff a b).
Proof. rewrite Z.ldiff_land. apply land_in_u. Qed.

(** Membership of an index at or beyond the words is false. *)
Lemma bit_beyond ws i : 32 * Z.of_nat (length ws) <= i → bit ws i = false.
Proof.
  intros Hi. unfold bit. rewrite nth_overflow; [apply Z.bits_0|].
  pose proof (Z.div_le_lower_bound i 32 (Z.of_nat (length ws)) ltac:(lia) Hi). lia.
Qed.

Lemma elem_members_bit ws i : i ∈ members ws ↔ 0 <= i ∧ bit ws i = true.
Proof.
  rewrite elem_of_members. destruct (decide (0 <= i)).
  - rewrite has_member_bit by done. naive_solver.
  - rewrite has_member_neg by lia. naive_solver.
Qed.

(** Two arrays with the same members have the same words. *)
Lemma members_words ws other :
  wf ws → wf other → members ws = members other →
  ∀ k, 0 <= k → get_bitset_word ws k = get_bitset_word other k.
Proof.
  intros Hw Ho Heq k Hk. apply Z.bits_inj'. intros b Hb. destruct (decide (b < 32)).
  - rewrite <- !bit_word by lia. apply eq_bool_prop_intro. rewrite !Is_true_true.
    pose proof (elem_members_bit ws (32 * k + b)) as H1. rewrite Heq, elem_members_bit in H1.
    assert (0 <= 32 * k + b) by lia. tauto.
  - rewrite !in_u_testbit by (try apply get_word_in_u; lia || done). done.
Qed.

(** * The operations *)
Lemma has_eq_members ws' (P : Z → bool) (X : gset Z) :
  (∀ i, 0 <= i → bit ws' i = P i) → (∀ i, 0 <= i → P i = true ↔ i ∈ X) → (∀ i, i ∈ X → 0 <= i) →
  members ws' = X.
Proof.
  intros Hb HP HX. apply set_eq. intros i. rewrite elem_members_bit. split.
  - intros [Hi H]. apply HP; [done|]. by rewrite <- Hb.
  - intros H. pose proof (HX _ H). split; [done|]. rewrite Hb by done. by apply HP.
Qed.

Lemma del_member_bit index ws i :
  0 <= index → 0 <= i → bit (del_member index ws).2 i = bit ws i && negb (i =? index).
Proof.
  intros Hx Hi. unfold del_member. rewrite (proj2 (Z.ltb_ge index 0)) by lia.
  rewrite member_pos_eq, member_bit_eq. unfold bitset_word_count.
  destruct (index_split i Hi) as (Hi1 & Hi2 & Hi3), (index_split index Hx) as (Hx1 & Hx2 & Hx3).
  destruct (Z.geb_spec (index / 32) (Z.of_nat (length ws))); cbn [snd].
  { destruct (Z.eqb_spec i index) as [->|]; [|by rewrite andb_true_r].
    rewrite andb_false_r. apply bit_beyond. lia. }
  rewrite bit_insert by lia. destruct (Z.eqb_spec (i / 32) (index / 32)) as [E|E].
  - rewrite Z.ldiff_spec. unfold bit. rewrite E. f_equal. f_equal.
    rewrite Z.pow2_bits_eqb by lia. destruct (Z.eqb_spec (index mod 32) (i mod 32)), (Z.eqb_spec i index); lia.
  - destruct (Z.eqb_spec i index) as [->|]; [done|]. by rewrite andb_true_r.
Qed.

Lemma or_words_bit ws other i :
  (length other <= length ws)%nat → 0 <= i → bit (or_words ws other) i = bit ws i || bit other i.
Proof.
  intros Hl Hi. unfold bit. destruct (index_split i Hi) as (Hk & _ & _).
  rewrite <- Z.lor_spec. f_equal. revert other Hl. generalize (Z.to_nat (i / 32)) as k.
  induction ws as [|w ws IH]; intros k other Hl.
  { destruct other; [|simpl in Hl; lia]. by destruct k. }
  destruct other as [|o other]; simpl.
  { by destruct k; rewrite ?Z.lor_0_r. }
  destruct k; [done|]. apply IH. simpl in Hl. lia.
Qed.

Lemma del_members_bit other ws i : 0 <= i → bit (del_members other ws) i = bit ws i && negb (bit other i).
Proof.
  intros Hi. unfold bit, del_members. destruct (index_split i Hi) as (Hk & _ & _).
  rewrite <- Z.ldiff_spec. f_equal. rewrite !nth_lookup, list_lookup_imap.
  destruct (ws !! Z.to_nat (i / 32)) as [w|] eqn:E; [|by rewrite Z.ldiff_0_l].
  cbn. by rewrite get_word_nth, Nat2Z.id, nth_lookup by lia.
Qed.

(** ** [do_mask] *)
Lemma zero_words_bit idx ws i :
  Forall (fun k => 0 <= k < Z.of_nat (length ws)) idx → 0 <= i →
  length (zero_words idx ws) = length ws
  ∧ bit (zero_words idx ws) i = bit ws i && negb (bool_decide (i / 32 ∈ idx)).
Proof.
  intros Hidx Hi. revert ws Hidx. induction idx as [|k idx IH]; intros ws Hidx; cbn [zero_words foldl].
  { split; [done|]. rewrite bool_decide_eq_false_2 by (by intros ?%elem_of_nil). by rewrite andb_true_r. }
  inversion_clear Hidx as [|? ? Hk Hr].
  destruct (IH (<[Z.to_nat k := 0]> ws)) as [Hl Hb]; [by rewrite length_insert|].
  rewrite length_insert in Hl. split; [exact Hl|]. unfold zero_words in Hb. rewrite Hb, bit_insert by done.
  destruct (Z.eqb_spec (i / 32) k) as [->|Hne].
  - rewrite Z.bits_0. symmetry. rewrite (bool_decide_eq_true_2 (k ∈ k :: idx)) by constructor.
    apply andb_false_r.
  - f_equal. f_equal. apply bool_decide_ext. rewrite elem_of_cons. naive_solver.
Qed.

Lemma clear_bits_bit word idx ws i :
  0 <= word < Z.of_nat (length ws) → Forall (fun k => 0 <= k) idx → 0 <= i →
  length (clear_bits word idx ws) = length ws
  ∧ bit (clear_bits word idx ws) i = bit ws i && negb ((i / 32 =? word) && bool_decide (i mod 32 ∈ idx)).
Proof.
  intros Hw Hidx Hi. destruct (index_split i Hi) as (_ & Hm & _).
  revert ws Hw. induction Hidx as [|k idx Hk _ IH]; intros ws Hw; cbn [clear_bits foldl].
  { split; [done|]. rewrite bool_decide_eq_false_2 by (by intros ?%elem_of_nil).
    by rewrite andb_false_r, andb_true_r. }
  set (ws1 := <[Z.to_nat word := _]> ws). destruct (IH ws1) as [Hl Hb]; [subst ws1; by rewrite length_insert|].
  subst ws1. rewrite length_insert in Hl. split; [exact Hl|]. unfold clear_bits in Hb.
  rewrite Hb, bit_insert by done. destruct (Z.eqb_spec (i / 32) word) as [E|E]; [|done].
  rewrite Z.ldiff_spec, Z.shiftl_1_l, Z.pow2_bits_eqb by lia. unfold bit. rewrite E, <- andb_assoc.
  f_equal. cbn [andb]. rewrite <- negb_orb. f_equal.
  destruct (Z.eqb_spec k (i mod 32)) as [->|Hne]; cbn [orb].
  - by rewrite bool_decide_eq_true_2 by constructor.
  - apply bool_decide_ext. rewrite elem_of_cons. naive_solver.
Qed.

Lemma bits_32 : PER_BITSETWORD_BITS = 32.
Proof. reflexivity. Qed.

Lemma forall_seqZ (P : Z → Prop) a n : (∀ k, a <= k < a + n → P k) → Forall P (seqZ a n).
Proof. intros H. apply Forall_forall. intros k Hk%elem_of_seqZ. by apply H. Qed.

Lemma do_mask_bit b e ws i :
  0 <= b < e → e < bit_count ws → 0 <= i →
  (do_mask b e ws).1 = OB_SUCCESS
  ∧ bit (do_mask b e ws).2 i = bit ws i && (b <=? i) && (i <=? e).
Proof.
  intros Hb He Hi. unfold do_mask, bit_count, bitset_word_count in *. rewrite bits_32 in *.
  rewrite !Z.geb_leb. rewrite (proj2 (Z.ltb_ge b 0)), (proj2 (Z.ltb_ge e 0)), !(proj2 (Z.leb_gt _ _)) by lia.
  cbn [orb fst snd]. split; [done|].
  destruct (index_split i Hi) as (Hi1 & Hi2 & Hi3), (index_split b ltac:(lia)) as (Hb1 & Hb2 & Hb3),
    (index_split e ltac:(lia)) as (He1 & He2 & He3).
  destruct (zero_words_bit (seqZ 0 (b / 32)) ws i) as [L1 B1]; [apply forall_seqZ; lia|done|].
  set (ws1 := zero_words (seqZ 0 (b / 32)) ws) in *.
  destruct (zero_words_bit (reverse (seqZ (e / 32 + 1) (Z.of_nat (length ws) - 1 - e / 32))) ws1 i) as [L2 B2];
    [apply Forall_reverse, forall_seqZ; lia|done|].
  set (ws2 := zero_words (reverse _) ws1) in *.
  destruct (clear_bits_bit (b / 32) (seqZ 0 (b mod 32)) ws2 i) as [L3 B3];
    [lia|apply forall_seqZ; lia|done|].
  set (ws3 := clear_bits (b / 32) _ ws2) in *.
  destruct (clear_bits_bit (e / 32) (seqZ (1 + e mod 32) (32 - (1 + e mod 32))) ws3 i) as [_ B4];
    [lia|apply forall_seqZ; lia|done|].
  rewrite B4, B3, B2, B1. destruct (Z.ltb_spec (i / 32) (Z.of_nat (length ws))) as [Hin|Hout].
  2: { rewrite bit_beyond by lia. done. }
  rewrite <- !andb_assoc. f_equal. apply eq_bool_prop_intro.
  rewrite !Is_true_true, !andb_true_iff, !negb_true_iff, !andb_false_iff, !bool_decide_eq_false,
    !Z.eqb_neq, !Z.leb_le.
  rewrite elem_of_reverse, !elem_of_seqZ. lia.
Qed.

(** ** Comparisons *)
Lemma forallb_seqZ f a n : forallb f (seqZ a n) = true ↔ ∀ k, a <= k < a + n → f k = true.
Proof.
  rewrite forallb_forall. split; intros H k Hk.
  - apply H, list_elem_of_In, elem_of_seqZ. done.
  - apply H. by apply list_elem_of_In, elem_of_seqZ in Hk.
Qed.

Lemma diff_words ws other :
  wf ws →
  (∀ k, 0 <= k < Z.of_nat (length ws) → (word_diff (get_bitset_word ws k) (get_bitset_word other k) =? 0) = true)
  ↔ members ws ⊆ members other.
Proof.
  intros Hw. assert (∀ k, in_u 32 (word_diff (get_bitset_word ws k) (get_bitset_word other k))) as Hd
    by (intros k; apply land_in_u, get_word_in_u, Hw).
  split.
  - intros H i. rewrite !elem_members_bit. intros [Hi Hb]. split; [done|].
    destruct (index_split i Hi) as (Hk & Hm & E). rewrite bit_at in Hb |- * by done.
    assert (i / 32 < Z.of_nat (length ws)) as Hlt.
    { apply Z.nle_gt. intros Hle. rewrite get_word_nth, nth_overflow, Z.bits_0 in Hb by lia. done. }
    pose proof (proj1 (word_zero _ (Hd _)) (H (i / 32) ltac:(lia)) (i mod 32) Hm) as Hz.
    rewrite word_diff_bit, Hb in Hz by done. by destruct (Z.testbit (get_bitset_word other _) _).
  - intros H k Hk. apply word_zero; [done|]. intros b Hb. rewrite word_diff_bit by done.
    rewrite <- !bit_word by lia. destruct (bit ws (32 * k + b)) eqn:E; [|done].
    assert (32 * k + b ∈ members other) as Ho by (apply H, elem_members_bit; split; [lia|done]).
    apply elem_members_bit in Ho as [_ ->]. done.
Qed.

Lemma is_empty_length ws : is_empty ws = true ↔ length ws = 0%nat.
Proof. unfold is_empty, bitset_word_count. rewrite Z.eqb_eq. lia. Qed.

Lemma empty_members ws : length ws = 0%nat → members ws = ∅.
Proof. by destruct ws. Qed.

(** The subset test answers no when the array is longer, whatever its members. *)
Lemma is_subset_spec ws other :
  wf ws → is_subset ws other = true ↔ (length ws <= length other)%nat ∧ members ws ⊆ members other.
Proof.
  intros Hw. unfold is_subset. destruct (is_empty ws) eqn:E1.
  { apply is_empty_length in E1. rewrite empty_members by done. split; [|done]. split; [lia|set_solver]. }
  assert (length ws ≠ 0%nat) by (rewrite <- is_empty_length, E1; done).
  destruct (is_empty other) eqn:E2.
  { apply is_empty_length in E2. split; [done|]. intros [? _]. lia. }
  unfold bitset_word_count. rewrite Z.gtb_ltb. destruct (Z.ltb_spec (Z.of_nat (length other)) (Z.of_nat (length ws))).
  { split; [done|]. intros [? _]. lia. }
  rewrite forallb_seqZ. change (Z.land (get_bitset_word ws ?k) _) with (word_diff (get_bitset_word ws k) (get_bitset_word other k)).
  rewrite <- diff_words by done. split; [intros Hf; split; [lia|done]|intros [_ Hf]; exact Hf].
Qed.

Lemma is_superset_subset ws other : is_superset ws other = is_subset other ws.
Proof.
  unfold is_superset, is_subset. destruct (is_empty other); [done|]. destruct (is_empty ws); [done|].
  rewrite Z.gtb_ltb. by destruct (_ <? _).
Qed.

Lemma equal_spec ws other : wf ws → wf other → equal ws other = true ↔ members ws = members other.
Proof.
  intros Hw Ho. unfold equal, bitset_word_count. rewrite forallb_seqZ. split.
  - intros H. apply set_eq. intros i. rewrite !elem_members_bit.
    assert (0 <= i → bit ws i = bit other i) as Hb; [|intuition congruence].
    intros Hi. destruct (index_split i Hi) as (Hk & _). rewrite !bit_at by done.
    destruct (decide (i / 32 < Z.max (Z.of_nat (length ws)) (Z.of_nat (length other)))).
    + specialize (H (i / 32) ltac:(lia)). apply Z.eqb_eq in H. by rewrite H.
    + rewrite !get_word_nth, !nth_overflow by lia. done.
  - intros H k Hk. apply Z.eqb_eq, members_words; [done..|lia].
Qed.

Lemma overlap_spec ws other : wf ws → overlap ws other = true ↔ ∃ i, i ∈ members ws ∧ i ∈ members other.
Proof.
  intros Hw. unfold overlap, bitset_word_count. rewrite existsb_exists. split.
  - intros (k & Hk & Hz). apply list_elem_of_In, elem_of_seqZ in Hk. apply negb_true_iff in Hz.
    assert (¬ ∀ b, 0 <= b < 32 → Z.testbit (Z.land (get_bitset_word ws k) (get_bitset_word other k)) b = false) as Hn.
    { rewrite <- word_zero by (apply land_in_u, get_word_in_u, Hw). by rewrite Hz. }
    destruct (decide (Exists (fun b => Z.testbit (Z.land (get_bitset_word ws k) (get_bitset_word other k)) b = true)
                       (seqZ 0 32))) as [He|He].
    + apply Exists_exists in He as (b & Hb%elem_of_seqZ & Ht). rewrite Z.land_spec in Ht.
      apply andb_true_iff in Ht as [H1 H2]. exists (32 * k + b).
      rewrite !elem_members_bit, !bit_word by lia. split_and!; lia || done.
    + exfalso. apply Hn. intros b Hb. apply not_true_is_false. intros Ht. apply He, Exists_exists.
      exists b. split; [apply elem_of_seqZ; lia|done].
  - intros (i & H1 & H2). apply elem_members_bit in H1 as [Hi H1], H2 as [_ H2].
    destruct (index_split i Hi) as (Hk & Hm & E). exists (i / 32).
    assert (∀ l, bit l i = true → i / 32 < Z.of_nat (length l)) as Hlen.
    { intros l Hb. apply Z.nle_gt. intros Hle. rewrite bit_beyond in Hb by lia. done. }
    pose proof (Hlen _ H1). pose proof (Hlen _ H2).
    split; [apply list_elem_of_In, elem_of_seqZ; lia|].
    apply negb_true_iff, not_true_is_false. rewrite word_zero by (apply land_in_u, get_word_in_u, Hw).
    intros Hz. specialize (Hz (i mod 32) Hm). rewrite bit_at in H1, H2 by done.
    rewrite Z.land_spec, H1, H2 in Hz. done.
Qed.

(** ** Enumeration *)
Definition elements_list (ws : words) : list Z := filter (fun i => has_member ws i = true) (seqZ 0 (bit_count ws)).

Lemma num_members_elements ws : wf ws → num_members ws = Z.of_nat (length (elements_list ws)).
Proof.
  intros Hw. rewrite num_members_size by done. unfold members.
  rewrite size_list_to_set by (apply NoDup_filter, NoDup_seqZ). done.
Qed.

(** Leaving the loop once [num] members are found loses none. *)
Lemma to_array_loop_all ws num idx arr :
  num = Z.of_nat (length arr + length (filter (fun i => has_member ws i = true) idx)) →
  to_array_loop (fun _ => OB_SUCCESS) ws num idx arr
  = (OB_SUCCESS, arr ++ filter (fun i => has_member ws i = true) idx).
Proof.
  revert arr. induction idx as [|i idx IH]; intros arr; cbn [to_array_loop].
  { by rewrite app_nil_r. }
  rewrite filter_cons. intros Hn. destruct (Z.ltb_spec (Z.of_nat (length arr)) num) as [Hlt|Hge].
  - destruct (has_member ws i) eqn:E.
    + rewrite decide_True in Hn |- * by done. cbn. rewrite IH; [by rewrite <- app_assoc|].
      rewrite length_app. cbn in Hn |- *. lia.
    + rewrite decide_False in Hn |- * by done. by apply IH.
  - destruct (decide (has_member ws i = true)); [cbn in Hn; lia|].
    assert (filter (fun i => has_member ws i = true) idx = []) as -> by (apply nil_length_inv; lia).
    by rewrite app_nil_r.
Qed.

Lemma to_array_all ws : wf ws → to_array (fun _ => OB_SUCCESS) ws = (OB_SUCCESS, elements_list ws).
Proof.
  intros Hw. unfold to_array. rewrite to_array_loop_all; [done|]. by rewrite num_members_elements.
Qed.

Lemma seqZ_sorted a n : StronglySorted Z.lt (seqZ a n).
Proof.
  destruct (decide (0 <= n)) as [Hn|]; [|rewrite seqZ_nil by lia; constructor].
  revert a. pattern n. apply natlike_ind; [constructor| |done].
  intros m Hm IH a. rewrite seqZ_cons by lia. replace (Z.pred (Z.succ m)) with m by lia.
  constructor; [apply IH|]. apply forall_seqZ. lia.
Qed.

Lemma elements_sorted ws : StronglySorted Z.lt (elements_list ws).
Proof.
  unfold elements_list. induction (seqZ_sorted 0 (bit_count ws)) as [|i l _ IH Hi]; [constructor|].
  rewrite filter_cons. destruct (decide _); [|done]. constructor; [done|].
  apply Forall_forall. intros j [_ Hj]%list_elem_of_filter. exact (proj1 (Forall_forall _ _) Hi _ Hj).
Qed.

(** ** Searches *)
Lemma first_index_spec test a n :
  0 <= a →
  first_index test (seqZ a n) = -1 ∧ (∀ i, a <= i < a + n → test i = false)
  ∨ ∃ p, first_index test (seqZ a n) = p ∧ a <= p < a + n ∧ test p = true ∧ ∀ i, a <= i < p → test i = false.
Proof.
  destruct (decide (0 <= n)) as [Hn|]; [|rewrite seqZ_nil by lia; left; split; [done|lia]].
  revert a. pattern n. apply natlike_ind; [left; split; [done|lia]| |done].
  intros m Hm IH a Ha. rewrite seqZ_cons by lia. replace (Z.pred (Z.succ m)) with m by lia. cbn [first_index].
  destruct (test a) eqn:E; [right; exists a; split_and!; lia || done|].
  assert (∀ hi, (∀ i, Z.succ a <= i < hi → test i = false) → ∀ i, a <= i < hi → test i = false) as Hext.
  { intros hi H i Hi. destruct (decide (i = a)) as [->|]; [done|]. apply H. lia. }
  destruct (IH (Z.succ a) ltac:(lia)) as [[-> H]|(p & -> & Hp & Ht & H)].
  - left. split; [done|]. apply Hext. intros i Hi. apply H. lia.
  - right. exists p. split_and!; try done; try lia. by apply Hext.
Qed.

Lemma has_member_beyond ws i : bit_count ws <= i → has_member ws i = false.
Proof.
  intros Hi. unfold has_member. destruct (i <? 0); [done|]. by rewrite Z.geb_leb, (proj2 (Z.leb_le _ _)).
Qed.

Lemma bit_count_nonneg ws : 0 <= bit_count ws.
Proof. unfold bit_count, bitset_word_count. rewrite bits_32. lia. Qed.

Lemma first_peculiar_spec ws other :
  let p := get_first_peculiar_bit ws other in
  (p = -1 ∨ has_member ws p && negb (has_member other p) = true ∧ 0 <= p)
  ∧ ∀ i, (p = -1 ∨ i < p) → has_member ws i && negb (has_member other i) = false.
Proof.
  cbv zeta. unfold get_first_peculiar_bit. cbv zeta. set (m := Z.min (bit_count ws) (bit_count other)).
  set (test := fun i => has_member ws i && negb (has_member other i)).
  pose proof (bit_count_nonneg ws). pose proof (bit_count_nonneg other).
  assert (m = Z.min (bit_count ws) (bit_count other)) as Hmin by done. clearbody m.
  assert (∀ i, i < 0 ∨ bit_count ws <= i → test i = false) as Hout.
  { intros i Hi. unfold test. destruct Hi; [rewrite has_member_neg by lia|rewrite has_member_beyond by lia]; done. }
  destruct (first_index_spec test 0 m ltac:(lia)) as [[-> H1]|(p & -> & Hp & Ht & H1)].
  - cbn [Z.eqb Pos.eqb andb]. destruct (Z.ltb_spec m (bit_count ws)) as [Hlt|Hge].
    + assert (∀ i, m <= i → has_member ws i = test i) as Hsame.
      { intros i Hi. unfold test. rewrite (has_member_beyond other) by lia. by rewrite andb_true_r. }
      destruct (first_index_spec (has_member ws) m (bit_count ws - m) ltac:(lia))
        as [[-> H2]|(p & -> & Hp & Ht & H2)].
      * split; [by left|]. intros i _. destruct (decide (i < 0 ∨ bit_count ws <= i)); [apply Hout; lia|].
        destruct (decide (i < m)); [apply H1; lia|]. fold (test i). rewrite <- Hsame by lia. apply H2. lia.
      * split; [right; fold (test p); rewrite <- Hsame by lia; split; [done|lia]|].
        intros i [?|Hi]; [lia|]. destruct (decide (i < 0)); [apply Hout; lia|].
        destruct (decide (i < m)); [apply H1; lia|]. fold (test i). rewrite <- Hsame by lia. apply H2. lia.
    + split; [by left|]. intros i _. destruct (decide (i < 0 ∨ bit_count ws <= i)); [apply Hout; lia|]. apply H1. lia.
  - rewrite (proj2 (Z.eqb_neq (-1) p)) by lia. cbn [andb]. split; [right; split; [done|lia]|].
    intros i [?|Hi]; [lia|]. destruct (decide (i < 0)); [apply Hout; lia|]. apply H1. lia.
Qed.

(** [p] is the lowest (highest) index of [l] in the range, [-1] standing for none. *)
Definition lowest_from (ws : words) (lo p : Z) : Prop :=
  (p = -1 ∧ ∀ i, lo <= i → bit ws i = false)
  ∨ (lo <= p ∧ bit ws p = true ∧ ∀ i, lo <= i < p → bit ws i = false).
Definition highest_below (ws : words) (hi p : Z) : Prop :=
  (p = -1 ∨ 0 <= p ∧ bit ws p = true) ∧ p < hi ∧ ∀ i, 0 <= i → p < i < hi → bit ws i = false.

Lemma ctz_from_spec n k w :
  (∃ j, k <= j < k + Z.of_nat n ∧ Z.testbit w j = true) →
  k <= ctz_from n k w < k + Z.of_nat n ∧ Z.testbit w (ctz_from n k w) = true
  ∧ ∀ j, k <= j < ctz_from n k w → Z.testbit w j = false.
Proof.
  revert k. induction n as [|n IH]; intros k (j & Hj & Ht); [lia|]. cbn [ctz_from].
  destruct (Z.testbit w k) eqn:E; [split_and!; lia || done|].
  assert (j ≠ k) by congruence.
  destruct (IH (k + 1)) as (H1 & H2 & H3); [exists j; split; [lia|done]|].
  split_and!; [lia|lia|done|]. intros i Hi. destruct (decide (i = k)) as [->|]; [done|]. apply H3. lia.
Qed.

Lemma nonzero_bit w : in_u 32 w → w ≠ 0 → ∃ j, 0 <= j < 32 ∧ Z.testbit w j = true.
Proof.
  intros Hw Hn. exists (Z.log2 w). destruct Hw as [H0 H1]. split; [|apply Z.bit_log2; lia].
  split; [apply Z.log2_nonneg|]. apply Z.log2_lt_pow2; lia.
Qed.

Lemma ctz_spec w :
  in_u 32 w → w ≠ 0 →
  0 <= ctz w < 32 ∧ Z.testbit w (ctz w) = true ∧ ∀ j, 0 <= j < ctz w → Z.testbit w j = false.
Proof. intros Hw Hn. apply (ctz_from_spec 32 0 w), nonzero_bit; done. Qed.

Lemma clz_spec w :
  in_u 32 w → w ≠ 0 →
  0 <= clz w < 32 ∧ Z.testbit w (31 - clz w) = true ∧ ∀ j, 31 - clz w < j → Z.testbit w j = false.
Proof.
  intros [H0 H1] Hn. unfold clz. replace (31 - (31 - Z.log2 w)) with (Z.log2 w) by lia.
  pose proof (Z.log2_nonneg w). assert (Z.log2 w < 32) by (apply Z.log2_lt_pow2; lia).
  split_and!; [lia|lia|apply Z.bit_log2; lia|]. intros j Hj. apply Z.bits_above_log2; lia.
Qed.

Lemma next_loop_spec ws k :
  wf ws → 0 <= k →
  (next_loop ws k = -1 ∧ ∀ i, 0 <= i → bit ws i = false)
  ∨ ∃ p, next_loop ws k = 32 * k + p ∧ 0 <= p ∧ bit ws p = true ∧ ∀ i, 0 <= i < p → bit ws i = false.
Proof.
  intros Hw. revert k. induction Hw as [|w ws Hw _ IH]; intros k Hk; cbn [next_loop].
  { left. split; [done|]. intros i Hi. apply bit_beyond. simpl. lia. }
  assert (∀ i, 32 <= i → bit (w :: ws) i = bit ws (i - 32)) as Hsh.
  { intros i Hi. rewrite <- (bit_cons_shift w ws (i - 32)) by lia. f_equal. lia. }
  destruct (Z.eqb_spec w 0) as [->|Hn].
  - assert (∀ i, 0 <= i < 32 → bit (0 :: ws) i = false) as Hlow
      by (intros i Hi; rewrite bit_cons_low by done; apply Z.bits_0).
    destruct (IH (k + 1) ltac:(lia)) as [[-> H]|(p & -> & Hp & Hb & H)].
    + left. split; [done|]. intros i Hi. destruct (decide (i < 32)); [apply Hlow; lia|].
      rewrite Hsh by lia. apply H. lia.
    + right. exists (p + 32). split_and!; [lia|lia|rewrite Hsh by lia; rewrite <- Hb; f_equal; lia|].
      intros i Hi. destruct (decide (i < 32)); [apply Hlow; lia|]. rewrite Hsh by lia. apply H. lia.
  - right. exists (ctz w). destruct (ctz_spec w Hw Hn) as (Hc & Hb & H). rewrite bits_32.
    split_and!; [lia|lia|by rewrite bit_cons_low|]. intros i Hi. rewrite bit_cons_low by lia. by apply H.
Qed.

Lemma bit_drop ws n i : 0 <= i → bit (drop n ws) i = bit ws (32 * Z.of_nat n + i).
Proof.
  intros Hi. unfold bit. destruct (index_split i Hi) as (Hk & _).
  replace (32 * Z.of_nat n + i) with (i + Z.of_nat n * 32) by lia. rewrite Z.div_add, Z.mod_add by lia.
  rewrite !nth_lookup, lookup_drop. do 3 f_equal. lia.
Qed.

Lemma find_next_spec start find_pos ws :
  wf ws → -1 <= start →
  ∃ p, find_next start find_pos ws = (OB_SUCCESS, p) ∧ lowest_from ws (start + 1) p.
Proof.
  intros Hw Hs. unfold find_next. rewrite (proj2 (Z.ltb_ge start (-1))) by lia.
  set (pos := start + 1). assert (0 <= pos) as Hp by (subst pos; lia). clearbody pos.
  change (Z.shiftr pos PER_BITSETWORD_MOD_BITS) with (member_pos pos). rewrite member_pos_eq, bits_32.
  destruct (index_split pos Hp) as (Hk & Hm & E). unfold bitset_word_count.
  destruct (Z.leb_spec (Z.of_nat (length ws)) (pos / 32)).
  { exists (-1). split; [done|]. left. split; [done|]. intros i Hi. apply bit_beyond. lia. }
  set (tw := Z.land _ _). assert (in_u 32 tw) as Htw by (apply land_in_u, wf_nth, Hw).
  assert (∀ b, 0 <= b < 32 → Z.testbit tw b = bit ws (32 * (pos / 32) + b) && (pos mod 32 <=? b)) as Hbit.
  { intros b Hb. subst tw. rewrite Z.land_spec, bit_word, get_word_nth by lia. f_equal.
    unfold wrapu. rewrite Z.mod_pow2_bits_low, Z.shiftl_spec by lia.
    destruct (Z.leb_spec (pos mod 32) b); [apply Z.ones_spec_low; lia|apply Z.testbit_neg_r; lia]. }
  clearbody tw. destruct (Z.eqb_spec tw 0) as [->|Hn]; cbn [negb].
  - assert (∀ i, pos <= i < 32 * (pos / 32 + 1) → bit ws i = false) as Hlow.
    { intros i Hi. pose proof (Hbit (i - 32 * (pos / 32)) ltac:(lia)) as Hb. rewrite Z.bits_0 in Hb.
      replace (32 * (pos / 32) + (i - 32 * (pos / 32))) with i in Hb by lia.
      destruct (Z.leb_spec (pos mod 32) (i - 32 * (pos / 32))); [|lia]. by rewrite andb_true_r in Hb. }
    set (rest := drop (S (Z.to_nat (pos / 32))) ws).
    assert (∀ i, 32 * (pos / 32 + 1) <= i → bit ws i = bit rest (i - 32 * (pos / 32 + 1))) as Hrest.
    { intros i Hi. subst rest. rewrite bit_drop by lia. f_equal. lia. }
    destruct (next_loop_spec rest (pos / 32 + 1)) as [[-> H2]|(p & -> & Hpp & Hb & H2)];
      [by apply Forall_drop|lia| |]; eexists; (split; [reflexivity|]).
    + left. split; [done|]. intros i Hi. destruct (decide (i < 32 * (pos / 32 + 1))); [apply Hlow; lia|].
      rewrite Hrest by lia. apply H2. lia.
    + right. split_and!; [lia|rewrite Hrest by lia; rewrite <- Hb; f_equal; lia|].
      intros i Hi. destruct (decide (i < 32 * (pos / 32 + 1))); [apply Hlow; lia|].
      rewrite Hrest by lia. apply H2. lia.
  - destruct (ctz_spec tw Htw Hn) as (Hc & Hb & H2). eexists. split; [reflexivity|]. right.
    rewrite Hbit in Hb by lia. apply andb_true_iff in Hb as [Hb1 Hb2]. apply Z.leb_le in Hb2.
    replace (pos / 32 * 32 + ctz tw) with (32 * (pos / 32) + ctz tw) by lia.
    split_and!; [lia|done|]. intros i Hi. specialize (H2 (i - 32 * (pos / 32)) ltac:(lia)).
    rewrite Hbit in H2 by lia. replace (32 * (pos / 32) + (i - 32 * (pos / 32))) with i in H2 by lia.
    destruct (Z.leb_spec (pos mod 32) (i - 32 * (pos / 32))); [|lia]. by rewrite andb_true_r in H2.
Qed.

Lemma prev_loop_spec ws m delta :
  wf ws → (m <= length ws)%nat →
  ∃ p, prev_loop (reverse (take m ws)) delta = delta + (32 * Z.of_nat m - 1 - p)
    ∧ highest_below ws (32 * Z.of_nat m) p.
Proof.
  intros Hw. revert delta. induction m as [|m IH]; intros delta Hm.
  { exists (-1). split; [change (prev_loop (reverse (take 0 ws)) delta) with delta; lia|]. split_and!; [by left|lia|intros; lia]. }
  destruct (lookup_lt_is_Some_2 ws m ltac:(lia)) as [w Hlw]. rewrite (take_S_r _ _ _ Hlw), reverse_app.
  cbn [reverse app]. change (reverse [w] ++ ?x) with (w :: x). cbn [prev_loop]. rewrite bits_32.
  assert (in_u 32 w) as Hwu by exact (Forall_lookup_1 _ _ _ _ Hw Hlw).
  assert (∀ b, 0 <= b < 32 → bit ws (32 * Z.of_nat m + b) = Z.testbit w b) as Hbit.
  { intros b Hb. rewrite bit_word, get_word_nth, Nat2Z.id, nth_lookup, Hlw by lia. done. }
  destruct (Z.eqb_spec w 0) as [->|Hn].
  - destruct (IH (delta + 32) ltac:(lia)) as (p & -> & Hp1 & Hp2 & Hp3). exists p. split; [lia|].
    split_and!; [done|lia|]. intros i Hi Hi2. destruct (decide (i < 32 * Z.of_nat m)); [apply Hp3; lia|].
    replace i with (32 * Z.of_nat m + (i - 32 * Z.of_nat m)) by lia. rewrite Hbit by lia. apply Z.bits_0.
  - destruct (clz_spec w Hwu Hn) as (Hc & Hb & H2). exists (32 * Z.of_nat m + (31 - clz w)).
    split; [lia|]. split_and!; [right; split; [lia|by rewrite Hbit by lia]|lia|].
    intros i Hi Hi2. replace i with (32 * Z.of_nat m + (i - 32 * Z.of_nat m)) by lia.
    rewrite Hbit by lia. apply H2. lia.
Qed.

(** The shifted word of [find_prev] holds the bits up to [which_bit]. *)
Lemma prev_word_bit w b j :
  0 <= b < 32 → 0 <= j < 32 →
  Z.testbit (u32 (Z.shiftl w (32 - b - 1))) j = (31 - b <=? j) && Z.testbit w (j - (31 - b)).
Proof.
  intros Hb Hj. unfold wrapu. rewrite Z.mod_pow2_bits_low, Z.shiftl_spec by lia.
  replace (32 - b - 1) with (31 - b) by lia.
  destruct (Z.leb_spec (31 - b) j); [done|]. apply Z.testbit_neg_r. lia.
Qed.

Lemma prev_from_pos ws pos :
  wf ws → 0 <= pos < 32 * Z.of_nat (length ws) →
  let this_word := u32 (Z.shiftl (nth (Z.to_nat (pos / 32)) ws 0) (32 - pos mod 32 - 1)) in
  highest_below ws (pos + 1)
    (pos - (if negb (this_word =? 0) then clz this_word
            else prev_loop (reverse (take (Z.to_nat (pos / 32)) ws)) (pos mod 32 + 1))).
Proof.
  intros Hw Hp. cbv zeta. destruct (index_split pos ltac:(lia)) as (Hk & Hm & E).
  set (tw := u32 _). assert (in_u 32 tw) as Htw by (apply wrapu_range; lia).
  assert (∀ i, 32 * (pos / 32) <= i <= pos → bit ws i = Z.testbit tw (i - pos + 31)) as Hbit.
  { intros i Hi. subst tw. rewrite prev_word_bit by lia.
    replace i with (32 * (pos / 32) + (i - 32 * (pos / 32))) at 1 by lia.
    rewrite bit_word, get_word_nth by lia. rewrite (proj2 (Z.leb_le _ _)) by lia. cbn [andb]. f_equal. lia. }
  assert (∀ j, 0 <= j < 31 - pos mod 32 → Z.testbit tw j = false) as Hlow.
  { intros j Hj. subst tw. rewrite prev_word_bit by lia. by rewrite (proj2 (Z.leb_gt _ _)) by lia. }
  clearbody tw. destruct (Z.eqb_spec tw 0) as [->|Hn]; cbn [negb].
  - destruct (prev_loop_spec ws (Z.to_nat (pos / 32)) (pos mod 32 + 1) Hw ltac:(lia)) as (p & -> & H1 & H2 & H3).
    rewrite Z2Nat.id in * by lia.
    replace (pos - (pos mod 32 + 1 + (32 * (pos / 32) - 1 - p))) with p by lia.
    split_and!; [done|lia|]. intros i Hi Hi2. destruct (decide (i < 32 * (pos / 32))); [apply H3; lia|].
    rewrite Hbit by lia. apply Z.bits_0.
  - destruct (clz_spec tw Htw Hn) as (Hc & Hb & H2).
    assert (31 - pos mod 32 <= 31 - clz tw).
    { apply Z.nlt_ge. intros Hlt. rewrite Hlow in Hb by lia. done. }
    split_and!; [right|lia|].
    + split; [lia|]. rewrite Hbit by lia. rewrite <- Hb. f_equal. lia.
    + intros i Hi Hi2. rewrite Hbit by lia. apply H2. lia.
Qed.

Lemma find_prev_spec start ws :
  wf ws → 0 <= start → ∃ p, find_prev start ws = (OB_SUCCESS, p) ∧ (p = -1 ∨ 0 <= p ∧ bit ws p = true)
    ∧ (p = -1 ∨ p < start) ∧ ∀ i, 0 <= i → p < i < start → bit ws i = false.
Proof.
  intros Hw Hs. unfold find_prev. rewrite (proj2 (Z.ltb_ge start 0)) by lia.
  destruct (Z.eqb_spec start 0) as [->|Hs0]; [exists (-1); split_and!; auto; intros; lia|].
  unfold bitset_word_count. destruct (Z.eqb_spec (Z.of_nat (length ws)) 0) as [E|E].
  { exists (-1). split_and!; auto. intros i Hi _. apply bit_beyond. lia. }
  unfold PER_BITSETWORD_MOD_BITS. rewrite Z.shiftl_mul_pow2 by lia. change (2 ^ 5) with 32.
  set (pos := if _ >=? _ then _ else _).
  assert (0 <= pos < 32 * Z.of_nat (length ws) ∧ pos < start
          ∧ ∀ i, pos < i < start → bit ws i = false) as (Hp & Hps & Hout).
  { subst pos. rewrite Z.geb_leb. destruct (Z.leb_spec (Z.of_nat (length ws) * 32) (start - 1)).
    - split_and!; [lia..|]. intros i Hi. apply bit_beyond. lia.
    - split_and!; [lia..|intros; lia]. }
  clearbody pos. rewrite Z.shiftr_div_pow2, bits_32 by lia. change (2 ^ 5) with 32.
  destruct (prev_from_pos ws pos Hw Hp) as (H1 & H2 & H3).
  eexists. split; [reflexivity|]. split_and!; [exact H1|right; lia|]. intros i Hi Hi2.
  destruct (decide (i <= pos)); [apply H3; lia|]. apply Hout. lia.
Qed.

(** * The theorems *)
Lemma ldiff_wf index ws : wf ws → wf (del_member index ws).2.
Proof.
  intros Hw. unfold del_member. destruct (index <? 0); [done|]. destruct (_ >=? _); [done|].
  cbn. apply Forall_insert; [done|]. by apply ldiff_in_u, wf_nth.
Qed.

Lemma add_members_spec alloc other ws r ws' :
  add_members alloc other ws = (r, ws') →
  ∀ i, 0 <= i → bit ws' i = bit ws i || negb (ob_failed r) && bit other i.
Proof.
  unfold add_members, bitset_word_count. destruct (if _ <? _ then _ else _) as [r1 ws1] eqn:E.
  assert (∃ k, ws1 = ws ++ replicate k 0 ∧ (r1 = OB_SUCCESS → (length other <= length ws1)%nat))
    as (k & -> & Hlen).
  { destruct (Z.ltb_spec (Z.of_nat (length ws)) (Z.of_nat (length other))).
    - destruct (push_zeros_spec _ _ _ _ _ E) as (k & -> & Hk & _). exists k. split; [done|].
      intros Hr. specialize (Hk Hr). rewrite length_app, length_replicate. lia.
    - injection E as <- <-. exists 0%nat. rewrite app_nil_r. split; [done|lia]. }
  assert (∀ i, bit (ws ++ replicate k 0) i = bit ws i) as Hz by (intros i; unfold bit; by rewrite nth_app_zeros).
  destruct (ob_failed r1) eqn:Hf; intros [= <- <-] i Hi.
  - rewrite Hf, Hz. cbn. by rewrite orb_false_r.
  - apply ob_failed_false in Hf. rewrite or_words_bit, Hz by (done || auto). done.
Qed.

Lemma union_members (ws other ws' : words) :
  (∀ i, 0 <= i → bit ws' i = bit ws i || bit other i) → members ws' = members ws ∪ members other.
Proof.
  intros Hb. apply set_eq. intros i. rewrite elem_of_union, !elem_members_bit. split.
  - intros [Hi H]. rewrite Hb in H by done. apply orb_true_iff in H. tauto.
  - intros H. assert (0 <= i) by tauto. split; [done|]. rewrite Hb by done. apply orb_true_iff. tauto.
Qed.

Lemma add_member_members alloc index ws r ws' :
  add_member alloc index ws = (r, ws') →
  members ws' = if ob_failed r then members ws else {[index]} ∪ members ws.
Proof.
  intros E. pose proof (add_member_has _ _ _ _ _ E) as Hh. apply set_eq. intros i.
  destruct (ob_failed r); rewrite ?elem_of_union, ?elem_of_singleton, !elem_of_members, Hh; cbn.
  - by rewrite orb_false_r.
  - rewrite orb_true_iff, Z.eqb_eq. tauto.
Qed.

Lemma add_member_ok index ws : 0 <= index → (add_member (fun _ => true) index ws).1 = OB_SUCCESS.
Proof.
  intros Hi. unfold add_member. rewrite (proj2 (Z.ltb_ge index 0)) by lia.
  rewrite push_zeros_ok. by destruct (_ >=? _).
Qed.

(** The updates of [ObBitSet] are those of a finite set.  [add_member] adds its
    argument, or keeps the set when it fails, which it does not while memory
    lasts; [del_member] removes it; [add_members] and [del_members] are union
    (or nothing, when it fails) and difference; [do_mask] keeps the members
    between its bounds; [reset] empties the set. *)
Theorem bitset_updates_refine_sets alloc other ws index b e :
  wf ws → 0 <= index → 0 <= b < e → e < bit_count ws →
  (∀ r ws', add_member alloc index ws = (r, ws') →
     wf ws' ∧ members ws' = if ob_failed r then members ws else {[index]} ∪ members ws)
  ∧ (add_member (fun _ => true) index ws).1 = OB_SUCCESS
  ∧ wf (del_member index ws).2 ∧ members (del_member index ws).2 = members ws ∖ {[index]}
  ∧ (∀ r ws', add_members alloc other ws = (r, ws') →
       members ws' = if ob_failed r then members ws else members ws ∪ members other)
  ∧ members (del_members other ws) = members ws ∖ members other
  ∧ (do_mask b e ws).1 = OB_SUCCESS
  ∧ members (do_mask b e ws).2 = filter (fun i => b <= i <= e) (members ws)
  ∧ members (reset ws) = ∅.
Proof.
  intros Hw Hi Hb He. split; [|split; [by apply add_member_ok|split; [by apply ldiff_wf|]]].
  { intros r ws' E. split; [by eapply add_member_wf|by eapply add_member_members]. }
  split; [|split; [|split; [|split; [by apply (do_mask_bit b e ws 0)|split; [|done]]]]].
  - apply set_eq. intros i. rewrite elem_of_difference, elem_of_singleton, !elem_members_bit.
    split.
    + intros [H0 H]. rewrite del_member_bit in H by done. bool_to_prop. done.
    + intros [[H0 H] Hne]. rewrite del_member_bit, H by done. by rewrite (proj2 (Z.eqb_neq i index)).
  - intros r ws' E. pose proof (add_members_spec _ _ _ _ _ E) as H. destruct (ob_failed r); cbn in H.
    + apply set_eq. intros i. rewrite !elem_members_bit. split; intros [H0 Hb']; (split; [done|]);
        rewrite H, orb_false_r in * by done; done.
    + by apply union_members.
  - apply set_eq. intros i. rewrite elem_of_difference, !elem_members_bit. split.
    + intros [H0 H]. rewrite del_members_bit in H by done. bool_to_prop. split; [done|].
      intros [_ ?]. congruence.
    + intros [[H0 H] Hne]. rewrite del_members_bit, H by done. split; [done|].
      destruct (bit other i); [|done]. by destruct Hne.
  - apply set_eq. intros i. rewrite elem_of_filter, !elem_members_bit. split.
    + intros [H0 H]. rewrite (proj2 (do_mask_bit b e ws i Hb He H0)) in H. bool_to_prop. done.
    + intros [[H1 H2] [H0 H]]. split; [done|]. rewrite (proj2 (do_mask_bit b e ws i Hb He H0)), H.
      by rewrite !(proj2 (Z.leb_le _ _)).
Qed.

(** the queries of [ObBitSet] answer about the set: [num_members] (the
    word-parallel count) is its size, [==] and [overlap] compare sets,
    [to_array] lists the members in increasing order.  [is_subset] and
    [is_superset] imply inclusion, and are true of an inclusion exactly when the
    smaller set has no more words than the larger one. *)
Theorem bitset_queries_refine_sets ws other :
  wf ws → wf other →
  num_members ws = Z.of_nat (size (members ws))
  ∧ (∀ i, has_member ws i = true ↔ i ∈ members ws)
  ∧ (is_subset ws other = true ↔ (length ws <= length other)%nat ∧ members ws ⊆ members other)
  ∧ (is_superset other ws = true ↔ (length ws <= length other)%nat ∧ members ws ⊆ members other)
  ∧ (equal ws other = true ↔ members ws = members other)
  ∧ (overlap ws other = true ↔ ∃ i, i ∈ members ws ∧ i ∈ members other)
  ∧ ∃ arr, to_array (fun _ => OB_SUCCESS) ws = (OB_SUCCESS, arr)
      ∧ StronglySorted Z.lt arr ∧ ∀ i, i ∈ arr ↔ i ∈ members ws.
Proof.
  intros Hw Ho. rewrite is_superset_subset.
  split; [by apply num_members_size|]. split; [intros; by rewrite elem_of_members|].
  split; [by apply is_subset_spec|]. split; [by apply is_subset_spec|].
  split; [by apply equal_spec|]. split; [by apply overlap_spec|].
  exists (elements_list ws). split; [by apply to_array_all|]. split; [apply elements_sorted|].
  intros i. unfold members. by rewrite elem_of_list_to_set.
Qed.

(** : the searches.  [find_next] and [find_prev] return the nearest member above
    and below their start (which need not be a member), and
    [get_first_peculiar_bit] the first member that the other set lacks; [-1]
    stands for none. *)
Theorem bitset_searches ws other start find_pos :
  wf ws → 0 <= start →
  (∃ p, find_next start find_pos ws = (OB_SUCCESS, p)
     ∧ (p = -1 ∧ (∀ i, start < i → i ∉ members ws)
        ∨ start < p ∧ p ∈ members ws ∧ ∀ i, start < i < p → i ∉ members ws))
  ∧ (∃ p, find_prev start ws = (OB_SUCCESS, p)
     ∧ (p = -1 ∧ (∀ i, i < start → i ∉ members ws)
        ∨ p < start ∧ p ∈ members ws ∧ ∀ i, p < i < start → i ∉ members ws))
  ∧ (let p := get_first_peculiar_bit ws other in
     p = -1 ∧ members ws ⊆ members other
     ∨ p ∈ members ws ∖ members other ∧ ∀ i, i < p → i ∈ members ws → i ∈ members other).
Proof.
  intros Hw Hs. assert (∀ i, bit ws i = false → i ∉ members ws) as Hno.
  { intros i H Hi. apply elem_members_bit in Hi as [_ Hi]. congruence. }
  assert (∀ i, i < 0 → i ∉ members ws) as Hneg by (intros i H Hi%elem_members_bit; lia).
  split; [|split].
  - destruct (find_next_spec start find_pos ws Hw ltac:(lia)) as (p & -> & Hp). exists p. split; [done|].
    destruct Hp as [[-> H]|(H1 & H2 & H3)]; [left|right].
    + split; [done|]. intros i Hi. apply Hno, H. lia.
    + split; [lia|]. split; [apply elem_members_bit; split; [lia|done]|]. intros i Hi. apply Hno, H3. lia.
  - destruct (find_prev_spec start ws Hw Hs) as (p & -> & H1 & H2 & H3). exists p. split; [done|].
    assert (∀ i, p < i < start → i ∉ members ws) as Hbet.
    { intros i Hi. destruct (decide (0 <= i)); [by apply Hno, H3|apply Hneg; lia]. }
    destruct H1 as [-> |[Hp Hb]]; [left|right].
    + split; [done|]. intros i Hi. destruct (decide (0 <= i)); [apply Hbet; lia|apply Hneg; lia].
    + split; [lia|]. split; [by apply elem_members_bit|done].
  - destruct (first_peculiar_spec ws other) as [H1 H2]. cbv zeta in *.
    set (p := get_first_peculiar_bit ws other) in *.
    assert (∀ i, has_member ws i && negb (has_member other i) = false → i ∈ members ws → i ∈ members other) as Hin.
    { intros i H. rewrite !elem_of_members. intros Hi. rewrite Hi in H. by destruct (has_member other i). }
    destruct H1 as [E|[Hp Hp0]]; [left|right].
    + split; [done|]. intros i. apply Hin, H2. by left.
    + rewrite elem_of_difference, !elem_of_members. bool_to_prop. split; [split; [done|congruence]|].
      intros i Hi. apply Hin, H2. by right.
Qed.

(** * Witnesses *)
Lemma sample_wf : wf [8; 256].
Proof. repeat constructor; vm_compute; congruence. Qed.

Lemma bitset_updates_refine_sets_witness :
  members (del_member 3 [8; 256]).2 = members [8; 256] ∖ {[3]} ∧ (do_mask 2 40 [8; 256]).1 = OB_SUCCESS.
Proof.
  destruct (bitset_updates_refine_sets (fun _ => true) [8] [8; 256] 3 2 40)
    as (_ & _ & _ & H1 & _ & _ & H2 & _); [exact sample_wf|lia|lia|vm_compute; congruence|].
  split; [exact H1|exact H2].
Defined.

Lemma bitset_queries_refine_sets_witness : num_members [8; 256] = Z.of_nat (size (members [8; 256])).
Proof. exact (proj1 (bitset_queries_refine_sets [8; 256] [8; 256] sample_wf sample_wf)). Defined.

Lemma bitset_searches_witness : ∃ p, find_next 3 0 [8; 256] = (OB_SUCCESS, p) ∧ p = 40.
Proof.
  destruct (bitset_searches [8; 256] [8] 3 0 sample_wf ltac:(lia)) as ((p & E & _) & _).
  exists p. split; [exact E|]. vm_compute in E. congruence.
Defined.
End BitSetOps.
