(* ===== verification/TxDefine.v ===== *)
(** Enumerations of [src/storage/tx/ob_committer_define.h]: the log types, message
    types, tree roles and protocol states of the two-phase commit, with the
    numeric values the code compares. *)
From S2P Require Import Prelude.

Inductive ObTwoPhaseCommitLogType : Set :=
  | OB_LOG_TX_INIT
  | OB_LOG_TX_COMMIT_INFO
  | OB_LOG_TX_PREPARE
  | OB_LOG_TX_PRE_COMMIT
  | OB_LOG_TX_COMMIT
  | OB_LOG_TX_ABORT
  | OB_LOG_TX_CLEAR
  | OB_LOG_TX_MAX.

Inductive ObTwoPhaseCommitMsgType : Set :=
  | OB_MSG_TX_UNKNOWN
  | OB_MSG_TX_PREPARE_REQ
  | OB_MSG_TX_PREPARE_RESP
  | OB_MSG_TX_PRE_COMMIT_REQ
  | OB_MSG_TX_PRE_COMMIT_RESP
  | OB_MSG_TX_COMMIT_REQ
  | OB_MSG_TX_COMMIT_RESP
  | OB_MSG_TX_ABORT_REQ
  | OB_MSG_TX_ABORT_RESP
  | OB_MSG_TX_CLEAR_REQ
  | OB_MSG_TX_CLEAR_RESP
  | OB_MSG_TX_PREPARE_REDO_REQ
  | OB_MSG_TX_PREPARE_REDO_RESP
  | OB_MSG_TX_MAX.

(** [enum class Ob2PCRole]; [ROLE_UNKNOWN] is [Ob2PCRole::UNKNOWN]. *)
Inductive Ob2PCRole : Set := ROLE_UNKNOWN | ROOT | INTERNAL | LEAF.

(** [enum class ObTxState : uint8_t]; [TX_UNKNOWN] and [TX_MAX] are its
    [UNKNOWN] and [MAX]. *)
Inductive ObTxState : Set :=
  | TX_UNKNOWN | INIT | REDO_COMPLETE | PREPARE | PRE_COMMIT | COMMIT | ABORT | CLEAR | TX_MAX.

Definition tx_state_val (s : ObTxState) : Z :=
  match s with
  | TX_UNKNOWN => 0 | INIT => 10 | REDO_COMPLETE => 20 | PREPARE => 30 | PRE_COMMIT => 40
  | COMMIT => 50 | ABORT => 60 | CLEAR => 70 | TX_MAX => 100
  end.

#[global] Instance ObTxState_eq_dec : EqDecision ObTxState.
Proof. solve_decision. Defined.
#[global] Instance Ob2PCRole_eq_dec : EqDecision Ob2PCRole.
Proof. solve_decision. Defined.
#[global] Instance ObTwoPhaseCommitMsgType_eq_dec : EqDecision ObTwoPhaseCommitMsgType.
Proof. solve_decision. Defined.
#[global] Instance ObTwoPhaseCommitLogType_eq_dec : EqDecision ObTwoPhaseCommitLogType.
Proof. solve_decision. Defined.

(** The comparisons of the code: [==] on states, [<=] and [>] on their values. *)
Definition tx_eqb (a b : ObTxState) : bool := bool_decide (a = b).
Definition tx_leb (a b : ObTxState) : bool := tx_state_val a <=? tx_state_val b.
Definition tx_gtb (a b : ObTxState) : bool := tx_state_val b <? tx_state_val a.

Definition OB_C2PC_UPSTREAM_ID : Z := INT64_MAX - 1.
Definition OB_C2PC_SENDER_ID : Z := INT64_MAX - 2.

(** [is_2pc_request_msg] and [is_2pc_response_msg]. *)
Definition is_2pc_request_msg (m : ObTwoPhaseCommitMsgType) : bool :=
  match m with
  | OB_MSG_TX_PREPARE_REQ | OB_MSG_TX_PRE_COMMIT_REQ | OB_MSG_TX_COMMIT_REQ
  | OB_MSG_TX_ABORT_REQ | OB_MSG_TX_CLEAR_REQ | OB_MSG_TX_PREPARE_REDO_REQ => true
  | _ => false
  end.

Definition is_2pc_response_msg (m : ObTwoPhaseCommitMsgType) : bool :=
  match m with
  | OB_MSG_TX_PREPARE_RESP | OB_MSG_TX_PRE_COMMIT_RESP | OB_MSG_TX_COMMIT_RESP
  | OB_MSG_TX_ABORT_RESP | OB_MSG_TX_CLEAR_RESP | OB_MSG_TX_PREPARE_REDO_RESP => true
  | _ => false
  end.

Lemma tx_state_val_inj a b : tx_state_val a = tx_state_val b → a = b.
Proof. destruct a, b; simpl; congruence. Qed.

Lemma tx_eqb_true a b : tx_eqb a b = true ↔ a = b.
Proof. apply bool_decide_eq_true. Qed.
