(* ===== verification/TwoPhaseCommitter.v ===== *)
(** [ObTxCycleTwoPhaseCommitter] of [src/storage/tx/ob_two_phase_committer.h], with
    the bodies of [ob_two_phase_upstream_committer.cpp] (the side that drives and
    collects the downstream participants) and
    [ob_two_phase_downstream_committer.cpp] (the side that answers requests and
    applies or replays logs).

    The class is abstract: its virtual methods are the interface
    [CommitterHooks], and every method below is translated for an arbitrary
    implementation of it.  Logging calls ([TRANS_LOG]) have no counterpart. *)
From S2P Require Import Prelude BitSet TxDefine.

(** The members of the base class and the object derived from it. *)
Record Committer (D : Type) : Type := mkCommitter {
  collected_ : BitSet.words;
  self_id_ : Z;
  derived : D
}.
Arguments mkCommitter {D}.
Arguments collected_ {D}.
Arguments self_id_ {D}.
Arguments derived {D}.

(** The pure virtual methods.  Methods that only observe the object are
    functions of it; the others return their [int] and the new object
    ([do_prepare] and [do_pre_commit] also their [bool &] result).
    [alloc_word d i] says whether the allocator can grow [collected_] to hold
    word [i].  The last three are declared in the header for XA transactions and
    have no definition in the repository. *)
Class CommitterHooks (D : Type) : Type := {
  do_prepare : M D (Z * bool);
  do_pre_commit : M D (Z * bool);
  do_commit : M D Z;
  do_abort : M D Z;
  do_clear : M D Z;
  on_prepare : M D Z;
  on_commit : M D Z;
  on_abort : M D Z;
  on_clear : M D Z;
  get_downstream_size : D → Z;
  get_self_id : D → Z;
  get_2pc_role : D → Ob2PCRole;
  is_2pc_logging : D → bool;
  is_2pc_blocking : D → bool;
  get_downstream_state : D → ObTxState;
  set_downstream_state : ObTxState → M D Z;
  get_upstream_state : D → ObTxState;
  set_upstream_state : ObTxState → M D Z;
  submit_log : ObTwoPhaseCommitLogType → M D Z;
  post_msg : ObTwoPhaseCommitMsgType → Z → M D Z;
  is_sub2pc : D → bool;
  is_dup_tx : D → bool;
  merge_intermediate_participants : M D Z;
  is_real_upstream : D → bool;
  apply_2pc_msg_ : ObTwoPhaseCommitMsgType → M D Z;
  alloc_word : D → nat → bool;
  handle_2pc_prepare_redo_request : M (Committer D) Z;
  handle_2pc_prepare_redo_response : Z → M (Committer D) Z;
  apply_commit_info_log : M (Committer D) Z
}.

Module Committer.
Section committer.
Context {D : Type} `{CommitterHooks D}.
Abbreviation C := (Committer D).

(** A virtual call, an observation of the object, and the accesses to [collected_]. *)
Definition call {A} (m : M D A) : M C A := fun c =>
  match m (derived c) with
  | Some (a, d') => Some (a, mkCommitter (collected_ c) (self_id_ c) d')
  | None => None
  end.
Definition obs {A} (f : D → A) : M C A := gets (fun c => f (derived c)).
Definition set_collected (w : BitSet.words) (c : C) : C := mkCommitter w (self_id_ c) (derived c).
Definition collected_reset : M C unit := modify (fun c => set_collected (BitSet.reset (collected_ c)) c).
Definition collected_add_member (participant : Z) : M C Z := fun c =>
  let '(r, w) := BitSet.add_member (alloc_word (derived c)) participant (collected_ c) in
  Some (r, set_collected w c).

(** [ObTxCycleTwoPhaseCommitter::reset]. *)
Definition reset : M C unit := modify (fun c => mkCommitter (BitSet.reset (collected_ c)) (-1) (derived c)).

Definition is_root (d : D) : bool := bool_decide (get_2pc_role d = ROOT).
Definition is_leaf (d : D) : bool := bool_decide (get_2pc_role d = LEAF).
Definition is_internal (d : D) : bool := bool_decide (get_2pc_role d = INTERNAL).

(** * Deciding logs and messages *)

(** The returned triple is [ret], [need_submit] and [log_type]; [log_type] is an
    in-out parameter. *)
Definition decide_2pc_log_type_ (log_type : ObTwoPhaseCommitLogType) (d : D)
    : Z * bool * ObTwoPhaseCommitLogType :=
  let upstream_state := get_upstream_state d in
  let downstream_state := get_downstream_state d in
  if is_2pc_logging d then (OB_SUCCESS, false, log_type)
  else if tx_gtb upstream_state downstream_state then
    match upstream_state with
    | INIT => (OB_SUCCESS, false, log_type)
    | REDO_COMPLETE => (OB_SUCCESS, true, OB_LOG_TX_COMMIT_INFO)
    | PREPARE => (OB_SUCCESS, true, OB_LOG_TX_PREPARE)
    | PRE_COMMIT => (OB_SUCCESS, false, log_type)
    | COMMIT =>
        if tx_eqb PREPARE downstream_state || tx_eqb PRE_COMMIT downstream_state
        then (OB_SUCCESS, true, OB_LOG_TX_COMMIT)
        else (OB_TRANS_INVALID_STATE, false, log_type)
    | ABORT =>
        if negb (tx_eqb COMMIT downstream_state)
        then (OB_SUCCESS, true, OB_LOG_TX_ABORT)
        else (OB_TRANS_INVALID_STATE, false, log_type)
    | CLEAR =>
        if tx_eqb COMMIT downstream_state || tx_eqb ABORT downstream_state
        then (OB_SUCCESS, true, OB_LOG_TX_CLEAR)
        else (OB_TRANS_INVALID_STATE, false, log_type)
    | TX_UNKNOWN | TX_MAX => (OB_TRANS_INVALID_STATE, false, log_type)
    end
  else (OB_SUCCESS, false, log_type).

Definition submit_2pc_log_ : M C Z :=
  let! r := obs (decide_2pc_log_type_ OB_LOG_TX_INIT) in
  let '(rc, need_submit, log_type) := r in
  if ob_failed rc then ret rc
  else if need_submit then (call (submit_log log_type) ;;; ret OB_SUCCESS)
  else ret OB_SUCCESS.

Definition decide_next_state_ (cur_state : ObTxState) : ObTxState :=
  match cur_state with
  | INIT => REDO_COMPLETE
  | REDO_COMPLETE => PREPARE
  | PREPARE => PRE_COMMIT
  | PRE_COMMIT => COMMIT
  | COMMIT => CLEAR
  | ABORT => CLEAR
  | _ => TX_UNKNOWN
  end.

(** [ret], [need_submit], [msg_type]. *)
Definition decide_downstream_msg_type_ (d : D) : Z * bool * ObTwoPhaseCommitMsgType :=
  match get_upstream_state d with
  | REDO_COMPLETE =>
      if is_sub2pc d then (OB_SUCCESS, true, OB_MSG_TX_PREPARE_REDO_REQ)
      else if is_dup_tx d then (OB_SUCCESS, true, OB_MSG_TX_PREPARE_REQ)
      else (OB_SUCCESS, false, OB_MSG_TX_UNKNOWN)
  | PREPARE => (OB_SUCCESS, true, OB_MSG_TX_PREPARE_REQ)
  | PRE_COMMIT => (OB_SUCCESS, true, OB_MSG_TX_PRE_COMMIT_REQ)
  | COMMIT => (OB_SUCCESS, true, OB_MSG_TX_COMMIT_REQ)
  | ABORT => (OB_SUCCESS, true, OB_MSG_TX_ABORT_REQ)
  | CLEAR => (OB_SUCCESS, true, OB_MSG_TX_CLEAR_REQ)
  | TX_UNKNOWN | INIT | TX_MAX => (OB_TRANS_INVALID_STATE, true, OB_MSG_TX_UNKNOWN)
  end.

(** * Posting messages *)

(** The participant ids [0 .. get_downstream_size() - 1] of the [for] loops. *)
Definition downstream_ids (d : D) : list Z := seqZ 0 (get_downstream_size d).

(** Returns the code of the last [post_msg], as [tmp_ret] does. *)
Fixpoint post_downstream_loop (msg_type : ObTwoPhaseCommitMsgType) (ids : list Z) (tmp_ret : Z) : M C Z :=
  match ids with
  | [] => ret tmp_ret
  | downstream_id :: ids' =>
      let! self := obs get_self_id in
      if negb (downstream_id =? self) then
        let! r := call (post_msg msg_type downstream_id) in post_downstream_loop msg_type ids' r
      else post_downstream_loop msg_type ids' tmp_ret
  end.

Definition post_downstream_msg (msg_type : ObTwoPhaseCommitMsgType) : M C Z :=
  let! ids := obs downstream_ids in post_downstream_loop msg_type ids OB_SUCCESS.

(** The loop of [retransmit_downstream_msg_()]: the participants not collected. *)
Fixpoint retransmit_loop (msg_type : ObTwoPhaseCommitMsgType) (this_part_id : Z) (ids : list Z) : M C unit :=
  match ids with
  | [] => ret tt
  | i :: ids' =>
      let! got := gets (fun c => BitSet.has_member (collected_ c) i) in
      if negb got && negb (this_part_id =? i) then
        (call (post_msg msg_type i) ;;; retransmit_loop msg_type this_part_id ids')
      else retransmit_loop msg_type this_part_id ids'
  end.

Definition retransmit_downstream_msg_all : M C Z :=
  let! go := obs (fun d => (is_root d || is_internal d) && is_real_upstream d) in
  if go then
    let! this_part_id := obs get_self_id in
    let! r := obs decide_downstream_msg_type_ in
    let '(rc, need_submit, msg_type) := r in
    if ob_failed rc then ret rc
    else if need_submit then
      let! ids := obs downstream_ids in
      (retransmit_loop msg_type this_part_id ids ;;; ret OB_SUCCESS)
    else ret OB_SUCCESS
  else ret OB_SUCCESS.

(** [retransmit_downstream_msg_(participant)]. *)
Definition retransmit_downstream_msg_ (participant : Z) : M C Z :=
  let! leaf := obs is_leaf in
  if leaf then ret OB_SUCCESS
  else
    let! r := obs decide_downstream_msg_type_ in
    let '(rc, need_submit, msg_type) := r in
    if ob_failed rc then ret rc
    else if need_submit then (call (post_msg msg_type participant) ;;; ret OB_SUCCESS)
    else ret OB_SUCCESS.

(** * Collecting downstream answers *)
Definition all_downstream_collected_ (c : C) : bool :=
  match get_2pc_role (derived c) with
  | ROOT => BitSet.num_members (collected_ c) =? get_downstream_size (derived c) - 1
  | INTERNAL => BitSet.num_members (collected_ c) =? get_downstream_size (derived c)
  | LEAF => true
  | ROLE_UNKNOWN => false
  end.

Definition collect_downstream_ (participant : Z) : M C Z :=
  let! role := obs get_2pc_role in
  match role with
  | ROOT | INTERNAL =>
      let! self := obs get_self_id in
      if participant =? self then ret OB_SUCCESS else collected_add_member participant
  | LEAF => ret OB_SUCCESS
  | ROLE_UNKNOWN => ret OB_ERR_UNEXPECTED
  end.

(** [need_respond] of [retransmit_upstream_msg_] by role, with the error of an unknown role. *)
Definition upstream_need_respond (state : ObTxState) (c : C) : Z * bool :=
  let d := derived c in
  match get_2pc_role d with
  | ROOT => (OB_SUCCESS, negb (is_real_upstream d))
  | INTERNAL =>
      (OB_SUCCESS,
       ((all_downstream_collected_ c || negb (is_real_upstream d))
        && tx_eqb (get_downstream_state d) state)
       || tx_gtb (get_downstream_state d) state)
  | LEAF => (OB_SUCCESS, tx_leb state (get_downstream_state d))
  | ROLE_UNKNOWN => (OB_TRANS_INVALID_STATE, false)
  end.

(** The second [switch]: [ret], [need_respond], [msg_type]. *)
Definition upstream_resp_type (state : ObTxState) (d : D) : Z * bool * ObTwoPhaseCommitMsgType :=
  match state with
  | INIT => (OB_SUCCESS, false, OB_MSG_TX_UNKNOWN)
  | REDO_COMPLETE =>
      if is_sub2pc d then (OB_SUCCESS, true, OB_MSG_TX_PREPARE_REDO_RESP)
      else (OB_SUCCESS, false, OB_MSG_TX_UNKNOWN)
  | PREPARE => (OB_SUCCESS, true, OB_MSG_TX_PREPARE_RESP)
  | PRE_COMMIT => (OB_SUCCESS, true, OB_MSG_TX_PRE_COMMIT_RESP)
  | COMMIT => (OB_SUCCESS, true, OB_MSG_TX_COMMIT_RESP)
  | ABORT => (OB_SUCCESS, true, OB_MSG_TX_ABORT_RESP)
  | CLEAR => (OB_NOT_SUPPORTED, true, OB_MSG_TX_UNKNOWN)
  | TX_UNKNOWN | TX_MAX => (OB_TRANS_INVALID_STATE, true, OB_MSG_TX_UNKNOWN)
  end.

Definition retransmit_upstream_msg_ (state : ObTxState) : M C Z :=
  let! bad := obs (fun d => tx_gtb (get_downstream_state d) (get_upstream_state d)) in
  if bad then ret OB_INVALID_ARGUMENT
  else
    let! r := gets (upstream_need_respond state) in
    let '(rc, need_respond) := r in
    if need_respond then
      let! t := obs (upstream_resp_type state) in
      let '(rc, need_respond, msg_type) := t in
      if negb (ob_failed rc) && need_respond
      then (call (post_msg msg_type OB_C2PC_SENDER_ID) ;;; ret rc)
      else ret rc
    else ret rc.

(** * Driving the local state machine *)

(** The [switch] over the next phase: [ret] and [no_need_submit_log]. *)
Definition drive_do_phase (next_phase : ObTxState) : M C (Z * bool) :=
  match next_phase with
  | REDO_COMPLETE => ret (OB_SUCCESS, false)
  | PREPARE => call do_prepare
  | PRE_COMMIT =>
      let! r := call do_pre_commit in
      let '(rc, need_wait) := r in
      if ob_failed rc then ret (rc, false)
      else
        let! root := obs is_root in
        if need_wait && root then ret (OB_EAGAIN, false)
        else if need_wait && negb root then ret (OB_ERR_UNEXPECTED, false)
        else ret (OB_SUCCESS, false)
  | COMMIT => let! r := call do_commit in ret (r, false)
  | CLEAR => let! r := call do_clear in ret (r, false)
  | ABORT => let! r := call do_abort in ret (r, false)
  | TX_UNKNOWN | INIT | TX_MAX => ret (OB_ERR_UNEXPECTED, false)
  end.

(** The in-memory step: hook, merge of the transferred participants, new
    [upstream_state] and an empty [collected_]. *)
Definition drive_in_memory (next_phase : ObTxState) : M C (Z * bool) :=
  let! r := drive_do_phase next_phase in
  let '(rc, no_need_submit_log) := r in
  if ob_failed rc then ret (rc, no_need_submit_log)
  else
    let! rm := call merge_intermediate_participants in
    if ob_failed rm then ret (rm, no_need_submit_log)
    else (collected_reset ;;; call (set_upstream_state next_phase) ;;;
          ret (OB_SUCCESS, no_need_submit_log)).

Definition drive_self_2pc_phase (next_phase : ObTxState) : M C Z :=
  let! logging := obs is_2pc_logging in
  if logging then ret OB_EAGAIN
  else
    let! blocking := obs is_2pc_blocking in
    if blocking then ret OB_EAGAIN
    else
      let! upstream := obs get_upstream_state in
      let! r := (if tx_eqb next_phase upstream then ret (OB_SUCCESS, false)
                 else drive_in_memory next_phase) in
      let '(rc, no_need_submit_log) := r in
      if ob_failed rc then ret rc
      else
        let! logging := obs is_2pc_logging in
        if negb no_need_submit_log && negb logging then (submit_2pc_log_ ;;; ret OB_SUCCESS)
        else ret OB_SUCCESS.

Definition two_phase_commit : M C Z :=
  let! upstream := obs get_upstream_state in
  if tx_leb PREPARE upstream then ret OB_SUCCESS
  else
    let! logging := obs is_2pc_logging in
    if logging then ret OB_SUCCESS
    else chk! drive_self_2pc_phase PREPARE
         else (post_downstream_msg OB_MSG_TX_PREPARE_REQ ;;; ret OB_SUCCESS).

(** [on_pre_commit]: the durable side of the pre-commit phase has no log. *)
Definition on_pre_commit : M C Z :=
  chk! call (set_downstream_state PRE_COMMIT)
  else
    let! role := obs get_2pc_role in
    match role with
    | ROOT =>
        let! size := obs get_downstream_size in
        if 1 =? size then (drive_self_2pc_phase COMMIT ;;; ret OB_SUCCESS)
        else (post_downstream_msg OB_MSG_TX_PRE_COMMIT_REQ ;;; ret OB_SUCCESS)
    | INTERNAL => post_downstream_msg OB_MSG_TX_PRE_COMMIT_REQ ;;; ret OB_SUCCESS
    | LEAF => call (post_msg OB_MSG_TX_PRE_COMMIT_RESP OB_C2PC_UPSTREAM_ID) ;;; ret OB_SUCCESS
    | ROLE_UNKNOWN => ret OB_TRANS_INVALID_STATE
    end.

(** The failure of [drive_self_2pc_phase] goes to [tmp_ret]: [ret] stays success. *)
Definition try_enter_pre_commit_state : M C Z :=
  let! logging := obs is_2pc_logging in
  if logging then ret OB_EAGAIN
  else
    let! tmp_ret := drive_self_2pc_phase PRE_COMMIT in
    if ob_failed tmp_ret then ret OB_SUCCESS else on_pre_commit.

(** * Requests from the upstream (downstream side) *)

(** Both retransmissions, their codes dropped ([OB_TMP_FAIL]). *)
Definition retransmit_both_tmp (state : ObTxState) : M C Z :=
  retransmit_downstream_msg_all ;;; retransmit_upstream_msg_ state ;;; ret OB_SUCCESS.

(** Both retransmissions, the code of the second one kept ([OB_FAIL] twice). *)
Definition retransmit_both (state : ObTxState) : M C Z :=
  retransmit_downstream_msg_all ;;; retransmit_upstream_msg_ state.

Definition handle_2pc_prepare_request_impl_ : M C Z :=
  let! logging := obs is_2pc_logging in
  if logging then ret OB_SUCCESS
  else
    chk! call (apply_2pc_msg_ OB_MSG_TX_PREPARE_REQ) else
    chk! drive_self_2pc_phase PREPARE else
    let! role := obs get_2pc_role in
    match role with
    | ROOT => ret OB_ERR_UNEXPECTED
    | INTERNAL => post_downstream_msg OB_MSG_TX_PREPARE_REQ ;;; ret OB_SUCCESS
    | LEAF => ret OB_SUCCESS
    | ROLE_UNKNOWN => ret OB_ERR_UNEXPECTED
    end.

Definition handle_2pc_prepare_request : M C Z :=
  let! state := obs get_downstream_state in
  match state with
  | INIT | REDO_COMPLETE => handle_2pc_prepare_request_impl_
  | PREPARE => retransmit_both_tmp PREPARE
  | ABORT =>
      chk! call (apply_2pc_msg_ OB_MSG_TX_PREPARE_REQ) else retransmit_both_tmp ABORT
  | PRE_COMMIT | COMMIT => retransmit_both_tmp PREPARE
  | CLEAR => ret OB_SUCCESS
  | TX_UNKNOWN | TX_MAX => ret OB_TRANS_INVALID_STATE
  end.

Definition handle_2pc_commit_request_impl_ : M C Z :=
  let! logging := obs is_2pc_logging in
  if logging then ret OB_SUCCESS
  else
    chk! call (apply_2pc_msg_ OB_MSG_TX_COMMIT_REQ) else
    chk! drive_self_2pc_phase COMMIT else
    let! role := obs get_2pc_role in
    match role with
    | ROOT => ret OB_ERR_UNEXPECTED
    | INTERNAL => post_downstream_msg OB_MSG_TX_COMMIT_REQ ;;; ret OB_SUCCESS
    | LEAF => ret OB_SUCCESS
    | ROLE_UNKNOWN => ret OB_ERR_UNEXPECTED
    end.

(** The [ABORT] case has no [break] and falls into [CLEAR], which keeps [ret]. *)
Definition handle_2pc_commit_request : M C Z :=
  let! state := obs get_downstream_state in
  match state with
  | INIT | REDO_COMPLETE => ret OB_TRANS_PROTOCOL_ERROR
  | PREPARE | PRE_COMMIT => handle_2pc_commit_request_impl_
  | COMMIT => retransmit_both COMMIT
  | ABORT => ret OB_TRANS_PROTOCOL_ERROR
  | CLEAR => ret OB_SUCCESS
  | TX_UNKNOWN | TX_MAX => ret OB_TRANS_INVALID_STATE
  end.

Definition handle_2pc_abort_request_impl_ : M C Z :=
  let! logging := obs is_2pc_logging in
  if logging then ret OB_SUCCESS
  else
    chk! call (apply_2pc_msg_ OB_MSG_TX_ABORT_REQ) else
    chk! drive_self_2pc_phase ABORT else
    let! role := obs get_2pc_role in
    match role with
    | ROOT => ret OB_ERR_UNEXPECTED
    | INTERNAL => post_downstream_msg OB_MSG_TX_ABORT_REQ
    | LEAF => ret OB_SUCCESS
    | ROLE_UNKNOWN => ret OB_ERR_UNEXPECTED
    end.

Definition handle_2pc_abort_request : M C Z :=
  let! state := obs get_downstream_state in
  match state with
  | INIT | REDO_COMPLETE | PREPARE => handle_2pc_abort_request_impl_
  | PRE_COMMIT => ret OB_TRANS_PROTOCOL_ERROR
  | COMMIT => ret OB_SUCCESS
  | ABORT => chk! call (apply_2pc_msg_ OB_MSG_TX_ABORT_REQ) else retransmit_both ABORT
  | CLEAR => ret OB_SUCCESS
  | TX_UNKNOWN | TX_MAX => ret OB_TRANS_INVALID_STATE
  end.

Definition handle_2pc_pre_commit_request_impl_ : M C Z :=
  chk! call (apply_2pc_msg_ OB_MSG_TX_PRE_COMMIT_REQ) else try_enter_pre_commit_state.

Definition handle_2pc_pre_commit_request : M C Z :=
  let! state := obs get_downstream_state in
  match state with
  | INIT | REDO_COMPLETE => ret OB_TRANS_PROTOCOL_ERROR
  | PREPARE => handle_2pc_pre_commit_request_impl_
  | PRE_COMMIT | COMMIT => retransmit_both PRE_COMMIT
  | ABORT => ret OB_TRANS_PROTOCOL_ERROR
  | CLEAR => ret OB_SUCCESS
  | TX_UNKNOWN | TX_MAX => ret OB_TRANS_INVALID_STATE
  end.

Definition handle_2pc_clear_request_impl_ : M C Z :=
  let! logging := obs is_2pc_logging in
  if logging then ret OB_SUCCESS
  else
    chk! call (apply_2pc_msg_ OB_MSG_TX_CLEAR_REQ) else
    chk! drive_self_2pc_phase CLEAR else
    let! role := obs get_2pc_role in
    match role with
    | ROOT => ret OB_ERR_UNEXPECTED
    | INTERNAL => post_downstream_msg OB_MSG_TX_CLEAR_REQ
    | LEAF => ret OB_SUCCESS
    | ROLE_UNKNOWN => ret OB_ERR_UNEXPECTED
    end.

(** [REDO_COMPLETE] has no case and takes the default. *)
Definition handle_2pc_clear_request : M C Z :=
  let! state := obs get_downstream_state in
  match state with
  | INIT => ret OB_SUCCESS
  | PREPARE | PRE_COMMIT => ret OB_TRANS_PROTOCOL_ERROR
  | COMMIT | ABORT => handle_2pc_clear_request_impl_
  | CLEAR => ret OB_SUCCESS
  | TX_UNKNOWN | REDO_COMPLETE | TX_MAX => ret OB_TRANS_INVALID_STATE
  end.

Definition handle_2pc_req (msg_type : ObTwoPhaseCommitMsgType) : M C Z :=
  match msg_type with
  | OB_MSG_TX_PREPARE_REDO_REQ => handle_2pc_prepare_redo_request
  | OB_MSG_TX_PREPARE_REQ => handle_2pc_prepare_request
  | OB_MSG_TX_PRE_COMMIT_REQ => handle_2pc_pre_commit_request
  | OB_MSG_TX_COMMIT_REQ => handle_2pc_commit_request
  | OB_MSG_TX_ABORT_REQ => handle_2pc_abort_request
  | OB_MSG_TX_CLEAR_REQ => handle_2pc_clear_request
  | _ => ret OB_TRANS_INVALID_STATE
  end.

(** * Responses from the downstream (upstream side) *)

Definition handle_2pc_prepare_response_impl_ (participant : Z) : M C Z :=
  let! downstream_state := obs get_downstream_state in
  chk! call (apply_2pc_msg_ OB_MSG_TX_PREPARE_RESP) else
  chk! collect_downstream_ participant else
  let! logging := obs is_2pc_logging in
  if logging then ret OB_SUCCESS
  else
    let! all := gets all_downstream_collected_ in
    if tx_eqb PREPARE downstream_state && all then
      let! role := obs get_2pc_role in
      match role with
      | ROOT => try_enter_pre_commit_state
      | INTERNAL => call (post_msg OB_MSG_TX_PREPARE_RESP OB_C2PC_UPSTREAM_ID)
      | LEAF => ret OB_ERR_UNEXPECTED
      | ROLE_UNKNOWN => ret OB_ERR_UNEXPECTED
      end
    else ret OB_SUCCESS.

Definition handle_2pc_prepare_response (participant : Z) : M C Z :=
  let! upstream := obs get_upstream_state in
  match upstream with
  | INIT => ret OB_SUCCESS
  | REDO_COMPLETE =>
      let! sub := obs is_sub2pc in
      if sub then drive_self_2pc_phase PREPARE else ret OB_SUCCESS
  | PREPARE => handle_2pc_prepare_response_impl_ participant
  | PRE_COMMIT | COMMIT | ABORT => retransmit_downstream_msg_ participant ;;; ret OB_SUCCESS
  | CLEAR => ret OB_SUCCESS
  | TX_UNKNOWN | TX_MAX => ret OB_TRANS_INVALID_STATE
  end.

(** The codes of the two [apply_2pc_msg_] calls are not stored in [ret]: a
    failure ends the method with [OB_SUCCESS]. *)
Definition handle_2pc_ack_response_impl_ (participant : Z) : M C Z :=
  let! downstream_state := obs get_downstream_state in
  let! upstream := obs get_upstream_state in
  let! r1 := (if tx_eqb upstream COMMIT then call (apply_2pc_msg_ OB_MSG_TX_COMMIT_RESP)
              else ret OB_SUCCESS) in
  if ob_failed r1 then ret OB_SUCCESS
  else
    let! upstream := obs get_upstream_state in
    let! r2 := (if tx_eqb upstream ABORT then call (apply_2pc_msg_ OB_MSG_TX_ABORT_RESP)
                else ret OB_SUCCESS) in
    if ob_failed r2 then ret OB_SUCCESS
    else
      chk! collect_downstream_ participant else
      let! logging := obs is_2pc_logging in
      if logging then ret OB_SUCCESS
      else
        let! all := gets all_downstream_collected_ in
        if (tx_eqb COMMIT downstream_state || tx_eqb ABORT downstream_state) && all then
          let! role := obs get_2pc_role in
          match role with
          | ROOT =>
              chk! drive_self_2pc_phase CLEAR
              else (post_downstream_msg OB_MSG_TX_CLEAR_REQ ;;; ret OB_SUCCESS)
          | INTERNAL =>
              let! upstream := obs get_upstream_state in
              let msg_type :=
                match upstream with
                | PRE_COMMIT => OB_MSG_TX_PRE_COMMIT_RESP
                | COMMIT => OB_MSG_TX_COMMIT_RESP
                | _ => OB_MSG_TX_ABORT_RESP
                end in
              call (post_msg msg_type OB_C2PC_UPSTREAM_ID) ;;; ret OB_SUCCESS
          | LEAF => ret OB_ERR_UNEXPECTED
          | ROLE_UNKNOWN => ret OB_ERR_UNEXPECTED
          end
        else ret OB_SUCCESS.

Definition handle_2pc_commit_response (participant : Z) : M C Z :=
  let! upstream := obs get_upstream_state in
  match upstream with
  | INIT | REDO_COMPLETE => ret OB_TRANS_PROTOCOL_ERROR
  | PREPARE | PRE_COMMIT => ret OB_SUCCESS
  | COMMIT => handle_2pc_ack_response_impl_ participant
  | ABORT => ret OB_TRANS_PROTOCOL_ERROR
  | CLEAR => retransmit_downstream_msg_ participant
  | TX_UNKNOWN | TX_MAX => ret OB_TRANS_INVALID_STATE
  end.

Definition handle_2pc_abort_response_impl_ (participant : Z) : M C Z :=
  let! downstream_state := obs get_downstream_state in
  if negb (tx_eqb INIT downstream_state) && negb (tx_eqb REDO_COMPLETE downstream_state)
     && negb (tx_eqb PREPARE downstream_state)
  then ret OB_TRANS_INVALID_STATE
  else
    let! logging := obs is_2pc_logging in
    if logging then ret OB_SUCCESS
    else
      let! upstream := obs get_upstream_state in
      if tx_eqb INIT upstream || tx_eqb REDO_COMPLETE upstream || tx_eqb PREPARE upstream then
        let! role := obs get_2pc_role in
        match role with
        | ROOT | INTERNAL =>
            chk! call (apply_2pc_msg_ OB_MSG_TX_ABORT_RESP) else
            chk! drive_self_2pc_phase ABORT else
            chk! collect_downstream_ participant
            else (post_downstream_msg OB_MSG_TX_ABORT_REQ ;;; ret OB_SUCCESS)
        | LEAF => ret OB_ERR_UNEXPECTED
        | ROLE_UNKNOWN => ret OB_ERR_UNEXPECTED
        end
      else ret OB_TRANS_INVALID_STATE.

(** [PRE_COMMIT] has no case and takes the default. *)
Definition handle_2pc_abort_response (participant : Z) : M C Z :=
  let! upstream := obs get_upstream_state in
  match upstream with
  | INIT | REDO_COMPLETE | PREPARE => handle_2pc_abort_response_impl_ participant
  | COMMIT | ABORT => handle_2pc_ack_response_impl_ participant
  | CLEAR => retransmit_downstream_msg_ participant
  | TX_UNKNOWN | PRE_COMMIT | TX_MAX => ret OB_TRANS_INVALID_STATE
  end.

Definition handle_2pc_pre_commit_response_impl_ (participant : Z) : M C Z :=
  chk! call (apply_2pc_msg_ OB_MSG_TX_PRE_COMMIT_RESP) else
  chk! collect_downstream_ participant else
  let! all := gets all_downstream_collected_ in
  if all then
    let! role := obs get_2pc_role in
    match role with
    | ROOT =>
        chk! drive_self_2pc_phase COMMIT
        else (post_downstream_msg OB_MSG_TX_COMMIT_REQ ;;; ret OB_SUCCESS)
    | INTERNAL => call (post_msg OB_MSG_TX_PRE_COMMIT_RESP OB_C2PC_UPSTREAM_ID)
    | LEAF => ret OB_ERR_UNEXPECTED
    | ROLE_UNKNOWN => ret OB_ERR_UNEXPECTED
    end
  else ret OB_SUCCESS.

Definition handle_2pc_pre_commit_response (participant : Z) : M C Z :=
  let! upstream := obs get_upstream_state in
  match upstream with
  | INIT | REDO_COMPLETE => ret OB_TRANS_PROTOCOL_ERROR
  | PREPARE => ret OB_SUCCESS
  | PRE_COMMIT => handle_2pc_pre_commit_response_impl_ participant
  | COMMIT => retransmit_downstream_msg_ participant
  | ABORT => ret OB_TRANS_PROTOCOL_ERROR
  | CLEAR => retransmit_downstream_msg_ participant
  | TX_UNKNOWN | TX_MAX => ret OB_TRANS_INVALID_STATE
  end.

Definition handle_2pc_clear_response (participant : Z) : M C Z := ret OB_SUCCESS.

Definition handle_2pc_resp (msg_type : ObTwoPhaseCommitMsgType) (participant_id : Z) : M C Z :=
  match msg_type with
  | OB_MSG_TX_PREPARE_REDO_RESP => handle_2pc_prepare_redo_response participant_id
  | OB_MSG_TX_PREPARE_RESP => handle_2pc_prepare_response participant_id
  | OB_MSG_TX_PRE_COMMIT_RESP => handle_2pc_pre_commit_response participant_id
  | OB_MSG_TX_COMMIT_RESP => handle_2pc_commit_response participant_id
  | OB_MSG_TX_ABORT_RESP => handle_2pc_abort_response participant_id
  | OB_MSG_TX_CLEAR_RESP => handle_2pc_clear_response participant_id
  | _ => ret OB_TRANS_INVALID_STATE
  end.

(** * Logs *)

(** The answer sent once a durable state is reached and everything is collected. *)
Definition post_upstream_resp (msg_type : ObTwoPhaseCommitMsgType) : M C Z :=
  call (post_msg msg_type OB_C2PC_UPSTREAM_ID) ;;; ret OB_SUCCESS.

Definition apply_prepare_log : M C Z :=
  let! state := obs get_downstream_state in
  let! upstream_state := obs get_upstream_state in
  if tx_eqb ABORT upstream_state then ret OB_SUCCESS
  else if negb (tx_eqb INIT state) && negb (tx_eqb REDO_COMPLETE state)
  then ret OB_TRANS_INVALID_STATE
  else if negb (tx_eqb PREPARE upstream_state) then ret OB_TRANS_INVALID_STATE
  else
    chk! call on_prepare else
    chk! call (set_downstream_state PREPARE) else
    let! all := gets all_downstream_collected_ in
    if all then
      let! role := obs get_2pc_role in
      match role with
      | ROOT =>
          let! r := try_enter_pre_commit_state in
          if r =? OB_EAGAIN then ret OB_SUCCESS else ret r
      | INTERNAL | LEAF => post_upstream_resp OB_MSG_TX_PREPARE_RESP
      | ROLE_UNKNOWN => ret OB_TRANS_INVALID_STATE
      end
    else ret OB_SUCCESS.

(** Entering the clear phase after a durable [COMMIT] or [ABORT]; the codes go
    to [tmp_ret]. *)
Definition drive_clear_and_post : M C Z :=
  let! tmp_ret := drive_self_2pc_phase CLEAR in
  if ob_failed tmp_ret then ret OB_SUCCESS
  else (post_downstream_msg OB_MSG_TX_CLEAR_REQ ;;; ret OB_SUCCESS).

Definition apply_commit_log : M C Z :=
  let! state := obs get_downstream_state in
  let! upstream_state := obs get_upstream_state in
  if negb (tx_eqb PREPARE state) && negb (tx_eqb PRE_COMMIT state) && negb (tx_eqb COMMIT state)
  then ret OB_TRANS_INVALID_STATE
  else if negb (tx_eqb COMMIT upstream_state) then ret OB_TRANS_INVALID_STATE
  else
    chk! call on_commit else
    chk! call (set_downstream_state COMMIT) else
    let! all := gets all_downstream_collected_ in
    if all then
      let! role := obs get_2pc_role in
      match role with
      | ROOT => drive_clear_and_post
      | INTERNAL | LEAF => post_upstream_resp OB_MSG_TX_COMMIT_RESP
      | ROLE_UNKNOWN => ret OB_ERR_UNEXPECTED
      end
    else ret OB_SUCCESS.

(** An [upstream_state] other than [ABORT] only logs a warning. *)
Definition apply_abort_log : M C Z :=
  let! state := obs get_downstream_state in
  if negb (tx_eqb INIT state) && negb (tx_eqb REDO_COMPLETE state) && negb (tx_eqb PREPARE state)
  then ret OB_TRANS_INVALID_STATE
  else
    chk! call on_abort else
    chk! call (set_downstream_state ABORT) else
    let! all := gets all_downstream_collected_ in
    if all then
      let! role := obs get_2pc_role in
      match role with
      | ROOT => drive_clear_and_post
      | INTERNAL | LEAF => post_upstream_resp OB_MSG_TX_ABORT_RESP
      | ROLE_UNKNOWN => ret OB_ERR_UNEXPECTED
      end
    else ret OB_SUCCESS.

Definition apply_clear_log : M C Z :=
  let! state := obs get_downstream_state in
  let! upstream_state := obs get_upstream_state in
  if negb (tx_eqb COMMIT state) && negb (tx_eqb ABORT state) then ret OB_TRANS_INVALID_STATE
  else if negb (tx_eqb CLEAR upstream_state) then ret OB_TRANS_INVALID_STATE
  else chk! call on_clear else call (set_downstream_state CLEAR).

(** A failure of the callback aborts the process. *)
Definition apply_log (log_type : ObTwoPhaseCommitLogType) : M C Z :=
  let! r :=
    match log_type with
    | OB_LOG_TX_COMMIT_INFO => apply_commit_info_log
    | OB_LOG_TX_PREPARE => apply_prepare_log
    | OB_LOG_TX_COMMIT => apply_commit_log
    | OB_LOG_TX_ABORT => apply_abort_log
    | OB_LOG_TX_CLEAR => apply_clear_log
    | _ => ret OB_TRANS_INVALID_STATE
    end in
  if ob_failed r then ob_abort else ret r.

(** The common shape of the replay of a log that reaches [target] from one of
    the durable states accepted by [from]. *)
Definition replay_to (target : ObTxState) (from : ObTxState → bool) : M C Z :=
  let! state := obs get_downstream_state in
  if tx_eqb target state then
    (call (set_upstream_state target) ;;; collected_reset ;;; ret OB_SUCCESS)
  else if negb (from state) then ret OB_TRANS_INVALID_STATE
  else
    (call (set_upstream_state target) ;;;
     chk! call (set_downstream_state target) else (collected_reset ;;; ret OB_SUCCESS)).

Definition replay_prepare_log : M C Z :=
  replay_to PREPARE (fun s => tx_eqb INIT s || tx_eqb REDO_COMPLETE s || tx_eqb PRE_COMMIT s).

Definition replay_commit_info_log : M C Z :=
  replay_to REDO_COMPLETE (fun s => tx_eqb INIT s || tx_eqb PREPARE s || tx_eqb PRE_COMMIT s).

Definition replay_commit_log : M C Z :=
  replay_to COMMIT (fun s => tx_eqb PREPARE s || tx_eqb PRE_COMMIT s).

Definition replay_abort_log : M C Z :=
  replay_to ABORT (fun s => tx_eqb INIT s || tx_eqb REDO_COMPLETE s || tx_eqb PREPARE s).

(** The clear log does not reset [collected_]. *)
Definition replay_clear_log : M C Z :=
  let! state := obs get_downstream_state in
  if tx_eqb CLEAR state then (call (set_upstream_state CLEAR) ;;; ret OB_SUCCESS)
  else if negb (tx_eqb COMMIT state) && negb (tx_eqb ABORT state) then ret OB_TRANS_INVALID_STATE
  else (call (set_upstream_state CLEAR) ;;; call (set_downstream_state CLEAR)).

Definition replay_log (log_type : ObTwoPhaseCommitLogType) : M C Z :=
  chk! call merge_intermediate_participants else
  match log_type with
  | OB_LOG_TX_COMMIT_INFO => replay_commit_info_log
  | OB_LOG_TX_PREPARE => replay_prepare_log
  | OB_LOG_TX_COMMIT => replay_commit_log
  | OB_LOG_TX_ABORT => replay_abort_log
  | OB_LOG_TX_CLEAR => replay_clear_log
  | _ => ret OB_TRANS_INVALID_STATE
  end.

Definition recover_from_tx_table : M C Z :=
  let! state := obs get_downstream_state in
  (call (set_upstream_state state) ;;; collected_reset ;;; ret OB_SUCCESS).

(** * Timeout *)

(** A root with a single participant has no message to drive it. *)
Definition timeout_single_participant : M C unit :=
  let! drive := obs (fun d =>
    tx_eqb (get_upstream_state d) (get_downstream_state d)
    && tx_gtb CLEAR (get_downstream_state d) && tx_leb PREPARE (get_downstream_state d)) in
  (if drive then
     let! st := obs get_downstream_state in
     (drive_self_2pc_phase (decide_next_state_ st) ;;; ret tt)
   else ret tt) ;;;
  let! pre := obs (fun d =>
    tx_eqb PRE_COMMIT (get_upstream_state d) && tx_eqb PREPARE (get_downstream_state d)) in
  if pre then (on_pre_commit ;;; ret tt) else ret tt.

Definition handle_timeout : M C Z :=
  submit_2pc_log_ ;;;
  let! down := obs (fun d => is_root d || is_internal d) in
  (if down then (retransmit_downstream_msg_all ;;; ret tt) else ret tt) ;;;
  let! up := obs (fun d => is_internal d || is_leaf d) in
  (if up then
     let! st := obs get_downstream_state in (retransmit_upstream_msg_ st ;;; ret tt)
   else ret tt) ;;;
  let! single := obs (fun d =>
    is_root d && (1 =? get_downstream_size d) && negb (is_2pc_logging d)) in
  (if single then timeout_single_participant else ret tt) ;;;
  ret OB_SUCCESS.
End committer.

(** * Orphan messages: the context no longer exists

    One method per message gives [ret] and [send_msg_type]; the triple of the
    dispatchers is [ret], [send_msg_type] (an in-out parameter) and [need_ack]. *)
Definition handle_orphan_2pc_prepare_redo_request : Z * ObTwoPhaseCommitMsgType := (OB_SUCCESS, OB_MSG_TX_ABORT_RESP).
Definition handle_orphan_2pc_prepare_request : Z * ObTwoPhaseCommitMsgType := (OB_SUCCESS, OB_MSG_TX_ABORT_RESP).
Definition handle_orphan_2pc_pre_commit_request : Z * ObTwoPhaseCommitMsgType := (OB_SUCCESS, OB_MSG_TX_ABORT_RESP).
Definition handle_orphan_2pc_commit_request : Z * ObTwoPhaseCommitMsgType := (OB_SUCCESS, OB_MSG_TX_ABORT_RESP).
Definition handle_orphan_2pc_abort_request : Z * ObTwoPhaseCommitMsgType := (OB_SUCCESS, OB_MSG_TX_ABORT_RESP).
Definition handle_orphan_2pc_clear_request : Z := OB_SUCCESS.

Definition handle_orphan_2pc_prepare_redo_response : Z * ObTwoPhaseCommitMsgType := (OB_SUCCESS, OB_MSG_TX_ABORT_REQ).
Definition handle_orphan_2pc_prepare_response : Z * ObTwoPhaseCommitMsgType := (OB_SUCCESS, OB_MSG_TX_ABORT_REQ).
Definition handle_orphan_2pc_pre_commit_response : Z * ObTwoPhaseCommitMsgType := (OB_SUCCESS, OB_MSG_TX_ABORT_REQ).
Definition handle_orphan_2pc_commit_response : Z * ObTwoPhaseCommitMsgType := (OB_SUCCESS, OB_MSG_TX_CLEAR_REQ).
Definition handle_orphan_2pc_abort_response : Z * ObTwoPhaseCommitMsgType := (OB_SUCCESS, OB_MSG_TX_CLEAR_REQ).
Definition handle_orphan_2pc_clear_response : Z := OB_SUCCESS.

Definition handle_orphan_2pc_req (recv_msg_type send_msg_type : ObTwoPhaseCommitMsgType) (need_ack : bool)
    : Z * ObTwoPhaseCommitMsgType * bool :=
  match recv_msg_type with
  | OB_MSG_TX_PREPARE_REDO_REQ => (handle_orphan_2pc_prepare_redo_request, true)
  | OB_MSG_TX_PREPARE_REQ => (handle_orphan_2pc_prepare_request, true)
  | OB_MSG_TX_PRE_COMMIT_REQ => (handle_orphan_2pc_pre_commit_request, true)
  | OB_MSG_TX_COMMIT_REQ => (handle_orphan_2pc_commit_request, true)
  | OB_MSG_TX_ABORT_REQ => (handle_orphan_2pc_abort_request, true)
  | OB_MSG_TX_CLEAR_REQ => (handle_orphan_2pc_clear_request, send_msg_type, false)
  | _ => (OB_TRANS_INVALID_STATE, send_msg_type, need_ack)
  end.

Definition handle_orphan_2pc_resp (recv_msg_type send_msg_type : ObTwoPhaseCommitMsgType) (need_ack : bool)
    : Z * ObTwoPhaseCommitMsgType * bool :=
  match recv_msg_type with
  | OB_MSG_TX_PREPARE_REDO_RESP => (handle_orphan_2pc_prepare_redo_response, true)
  | OB_MSG_TX_PREPARE_RESP => (handle_orphan_2pc_prepare_response, true)
  | OB_MSG_TX_PRE_COMMIT_RESP => (handle_orphan_2pc_pre_commit_response, true)
  | OB_MSG_TX_COMMIT_RESP => (handle_orphan_2pc_commit_response, true)
  | OB_MSG_TX_ABORT_RESP => (handle_orphan_2pc_abort_response, true)
  | OB_MSG_TX_CLEAR_RESP => (handle_orphan_2pc_clear_response, send_msg_type, false)
  | _ => (OB_TRANS_INVALID_STATE, send_msg_type, need_ack)
  end.
End Committer.
