(* ===== verification/TwoPhaseLaws.v ===== *)
(** The contract between the two-phase committer and the object that implements
    its virtual methods, as the comments of
    [src/storage/tx/ob_two_phase_committer.h] state it: hooks run the in-memory
    work of a phase and do not move the protocol state; [submit_log] queues one
    log or fails; [post_msg] is best effort; [is_2pc_logging] is true exactly
    while a submitted log waits for its callback.  [Core] is the part of the
    object the protocol sees. *)
From S2P Require Import Prelude BitSet TxDefine TwoPhaseCommitter.

Record Core : Type := mkCore {
  c_up : ObTxState;                                  (* in-memory state *)
  c_down : ObTxState;                                (* durable state *)
  c_pending : list ObTwoPhaseCommitLogType;          (* submitted, not yet applied *)
  c_sent : list (ObTwoPhaseCommitMsgType * Z);       (* messages posted *)
  c_role : Ob2PCRole;
  c_size : Z;
  c_self : Z
}.

Definition with_up (st : ObTxState) (k : Core) : Core :=
  mkCore st (c_down k) (c_pending k) (c_sent k) (c_role k) (c_size k) (c_self k).
Definition with_down (st : ObTxState) (k : Core) : Core :=
  mkCore (c_up k) st (c_pending k) (c_sent k) (c_role k) (c_size k) (c_self k).
Definition with_pending (l : list ObTwoPhaseCommitLogType) (k : Core) : Core :=
  mkCore (c_up k) (c_down k) l (c_sent k) (c_role k) (c_size k) (c_self k).
Definition with_sent (l : list (ObTwoPhaseCommitMsgType * Z)) (k : Core) : Core :=
  mkCore (c_up k) (c_down k) (c_pending k) l (c_role k) (c_size k) (c_self k).

(** A hook that leaves the protocol state alone. *)
Definition quiet {D A} (ok : D → Prop) (core : D → Core) (m : M D A) : Prop :=
  ∀ d, ok d → wp m (fun _ d' => ok d' ∧ core d' = core d) d.

Class CommitterLaws (D : Type) `{CommitterHooks D} : Type := {
  core : D → Core;
  ok : D → Prop;
  up_core d : get_upstream_state d = c_up (core d);
  down_core d : get_downstream_state d = c_down (core d);
  role_core d : get_2pc_role d = c_role (core d);
  size_core d : get_downstream_size d = c_size (core d);
  self_core d : get_self_id d = c_self (core d);
  logging_core d : is_2pc_logging d = bool_decide (c_pending (core d) ≠ []);
  non_xa d : ok d → is_sub2pc d = false;
  set_up_law st d : ok d →
    wp (set_upstream_state st) (fun _ d' => ok d' ∧ core d' = with_up st (core d)) d;
  set_down_law st d : ok d →
    wp (set_downstream_state st) (fun r d' => ok d' ∧
      (r = OB_SUCCESS ∧ core d' = with_down st (core d)
       ∨ r ≠ OB_SUCCESS ∧ core d' = core d)) d;
  submit_law lt d : ok d →
    wp (submit_log lt) (fun r d' => ok d' ∧
      (core d' = with_pending (c_pending (core d) ++ [lt]) (core d) ∨ core d' = core d)) d;
  post_law mt i d : ok d →
    wp (post_msg mt i) (fun r d' => ok d' ∧
      (core d' = with_sent (c_sent (core d) ++ [(mt, i)]) (core d) ∨ core d' = core d)) d;
  do_prepare_law : quiet ok core do_prepare;
  do_pre_commit_law : quiet ok core do_pre_commit;
  do_commit_law : quiet ok core do_commit;
  do_abort_law : quiet ok core do_abort;
  do_clear_law : quiet ok core do_clear;
  on_prepare_law : quiet ok core on_prepare;
  on_commit_law : quiet ok core on_commit;
  on_abort_law : quiet ok core on_abort;
  on_clear_law : quiet ok core on_clear;
  merge_law : quiet ok core merge_intermediate_participants;
  apply_msg_law mt : quiet ok core (apply_2pc_msg_ mt)
}.

Create HintDb hooks.
#[export] Hint Resolve do_prepare_law do_pre_commit_law do_commit_law do_abort_law do_clear_law
  on_prepare_law on_commit_law on_abort_law on_clear_law merge_law apply_msg_law : hooks.

Section laws.
Context {D : Type} `{CommitterLaws D}.
Import Committer.

(** What the protocol proofs see of a committer: the core and the collected set. *)
Definition kern (c : Committer D) : Core := core (derived c).
Definition coll (c : Committer D) : gset Z := BitSet.members (collected_ c).
Definition good (c : Committer D) : Prop := ok (derived c) ∧ BitSet.wf (collected_ c).

Lemma wp_obs {A} (f : D → A) Q (c : Committer D) : Q (f (derived c)) c → wp (obs f) Q c.
Proof. done. Qed.

Lemma wp_call {A} (m : M D A) (P : A → D → Prop) Q (c : Committer D) :
  wp m P (derived c) →
  (∀ a d', P a d' → Q a (mkCommitter (collected_ c) (self_id_ c) d')) → wp (call m) Q c.
Proof. unfold wp, call. destruct (m (derived c)) as [[a d']|]; auto. Qed.

Lemma wp_quiet {A} (m : M D A) Q (c : Committer D) :
  quiet ok core m → good c →
  (∀ a c', good c' → kern c' = kern c → coll c' = coll c → Q a c') → wp (call m) Q c.
Proof.
  intros Hm [Hok Hwf] HQ. eapply wp_call; [exact (Hm _ Hok)|].
  intros a d' [Hok' Hc]. by apply HQ.
Qed.

Lemma wp_set_up st Q (c : Committer D) :
  good c → (∀ a c', good c' → kern c' = with_up st (kern c) → coll c' = coll c → Q a c') →
  wp (call (set_upstream_state st)) Q c.
Proof.
  intros [Hok Hwf] HQ. eapply wp_call; [exact (set_up_law st _ Hok)|].
  intros a d' [Hok' Hc]. by apply HQ.
Qed.

Lemma wp_set_down st Q (c : Committer D) :
  good c →
  (∀ c', good c' → kern c' = with_down st (kern c) → coll c' = coll c → Q OB_SUCCESS c') →
  (∀ r c', r ≠ OB_SUCCESS → good c' → kern c' = kern c → coll c' = coll c → Q r c') →
  wp (call (set_downstream_state st)) Q c.
Proof.
  intros [Hok Hwf] HQ HQ'. eapply wp_call; [exact (set_down_law st _ Hok)|].
  intros a d' [Hok' [[-> Hc]|[Ha Hc]]]; [by apply HQ|by apply HQ'].
Qed.

Lemma wp_submit lt Q (c : Committer D) :
  good c →
  (∀ r c', good c' → kern c' = with_pending (c_pending (kern c) ++ [lt]) (kern c) ∨ kern c' = kern c →
     coll c' = coll c → Q r c') →
  wp (call (submit_log lt)) Q c.
Proof.
  intros [Hok Hwf] HQ. eapply wp_call; [exact (submit_law lt _ Hok)|].
  intros a d' [Hok' Hc]. by apply HQ.
Qed.

Lemma wp_post mt i Q (c : Committer D) :
  good c →
  (∀ r c', good c' → kern c' = with_sent (c_sent (kern c) ++ [(mt, i)]) (kern c) ∨ kern c' = kern c →
     coll c' = coll c → Q r c') →
  wp (call (post_msg mt i)) Q c.
Proof.
  intros [Hok Hwf] HQ. eapply wp_call; [exact (post_law mt i _ Hok)|].
  intros a d' [Hok' Hc]. by apply HQ.
Qed.

Lemma wp_collected_reset Q (c : Committer D) :
  good c → (∀ c', good c' → kern c' = kern c → coll c' = ∅ → Q tt c') → wp collected_reset Q c.
Proof.
  intros [Hok Hwf] HQ. apply wp_modify. apply HQ; [|done|apply BitSet.members_empty].
  split; [done|]. constructor.
Qed.

(** [collected_.add_member] adds the participant or, on a failure, nothing. *)
Lemma wp_add_member i Q (c : Committer D) :
  good c →
  (∀ r c', good c' → kern c' = kern c →
     coll c' = coll c ∨ coll c' = {[i]} ∪ coll c → Q r c') →
  wp (collected_add_member i) Q c.
Proof.
  intros [Hok Hwf] HQ. unfold wp, collected_add_member.
  destruct (BitSet.add_member _ _ _) as [r w] eqn:E. apply HQ.
  - split; [done|]. exact (BitSet.add_member_wf _ _ _ _ _ E Hwf).
  - done.
  - pose proof (BitSet.add_member_has _ _ _ _ _ E) as Hh. unfold coll. simpl.
    destruct (ob_failed r); [left|right]; apply set_eq; intros j;
      rewrite ?elem_of_union, ?elem_of_singleton, !BitSet.elem_of_members, Hh; simpl.
    + by rewrite orb_false_r.
    + rewrite orb_true_iff, Z.eqb_eq. tauto.
Qed.

Lemma all_collected_root (c : Committer D) :
  good c → c_role (kern c) = ROOT → all_downstream_collected_ c = true →
  Z.of_nat (size (coll c)) = c_size (kern c) - 1.
Proof.
  intros [_ Hwf] Hr. unfold all_downstream_collected_.
  rewrite role_core. unfold kern in Hr. rewrite Hr, BitSet.num_members_size, size_core by done.
  intros E. by apply Z.eqb_eq in E.
Qed.
End laws.
