(* ===== verification/TwoPhaseInv.v ===== *)
(** The invariant of one participant of the two-phase commit, relative to what is
    true of the other participants, and its preservation by every method of the
    committer that the coordinator or a leaf runs.  The environment facts are
    those the system proof maintains: who is durably prepared or committed,
    whether some participant aborted without having prepared, whether all are
    prepared, whether the root is durably committed. *)
From S2P Require Import Prelude BitSet TxDefine TwoPhaseCommitter TwoPhaseLaws.
Import Committer.

Abbreviation log := ObTwoPhaseCommitLogType.
Abbreviation msg := ObTwoPhaseCommitMsgType.

Record Env : Type := mkEnv {
  e_leaf : Z → Prop;       (* ids of the downstream participants of the root *)
  e_size : Z;              (* number of participants, root included *)
  e_self : Z;              (* the id of the root *)
  e_prepared : Z → Prop;   (* downstream participants that logged PREPARE *)
  e_committed : Z → Prop;  (* downstream participants that logged COMMIT *)
  e_dec : Prop;            (* every participant, the root too, logged PREPARE *)
  e_ab : Prop;             (* some participant logged ABORT and not PREPARE *)
  e_rc : Prop              (* the root logged COMMIT *)
}.

(** The durable state a log history leads to; [TX_UNKNOWN] for the histories
    the protocol never writes. *)
Definition durable (h : list log) : ObTxState :=
  match h with
  | [] => INIT
  | [OB_LOG_TX_PREPARE] => PREPARE
  | [OB_LOG_TX_PREPARE; OB_LOG_TX_COMMIT] => COMMIT
  | [OB_LOG_TX_ABORT] | [OB_LOG_TX_PREPARE; OB_LOG_TX_ABORT] => ABORT
  | [OB_LOG_TX_PREPARE; OB_LOG_TX_COMMIT; OB_LOG_TX_CLEAR]
  | [OB_LOG_TX_ABORT; OB_LOG_TX_CLEAR]
  | [OB_LOG_TX_PREPARE; OB_LOG_TX_ABORT; OB_LOG_TX_CLEAR] => CLEAR
  | _ => TX_UNKNOWN
  end.

Lemma durable_range h :
  durable h ≠ PRE_COMMIT ∧ durable h ≠ REDO_COMPLETE ∧ durable h ≠ TX_MAX.
Proof. unfold durable. repeat case_match; done. Qed.

(** The logs a durable state proves. *)
Lemma durable_prepare h : durable h = PREPARE → h = [OB_LOG_TX_PREPARE].
Proof. unfold durable. repeat case_match; done. Qed.
Lemma durable_init h : durable h = INIT → h = [].
Proof. unfold durable. repeat case_match; done. Qed.
Lemma durable_commit h : durable h = COMMIT → h = [OB_LOG_TX_PREPARE; OB_LOG_TX_COMMIT].
Proof. unfold durable. repeat case_match; done. Qed.
Lemma durable_abort h :
  durable h = ABORT → h = [OB_LOG_TX_ABORT] ∨ h = [OB_LOG_TX_PREPARE; OB_LOG_TX_ABORT].
Proof. unfold durable. repeat case_match; auto; done. Qed.
Lemma durable_clear h :
  durable h = CLEAR →
  h = [OB_LOG_TX_PREPARE; OB_LOG_TX_COMMIT; OB_LOG_TX_CLEAR]
  ∨ h = [OB_LOG_TX_ABORT; OB_LOG_TX_CLEAR]
  ∨ h = [OB_LOG_TX_PREPARE; OB_LOG_TX_ABORT; OB_LOG_TX_CLEAR].
Proof. unfold durable. repeat case_match; auto; done. Qed.

Lemma durable_cleared h : durable h ≠ TX_UNKNOWN → OB_LOG_TX_CLEAR ∈ h → durable h = CLEAR.
Proof. unfold durable. repeat case_match; try done; set_solver. Qed.

(** Which in-memory states may stand over a durable state. *)
Definition updown_ok (down up : ObTxState) : bool :=
  match down, up with
  | INIT, (INIT | PREPARE | ABORT) => true
  | PREPARE, (PREPARE | PRE_COMMIT | COMMIT | ABORT) => true
  | PRE_COMMIT, (PRE_COMMIT | COMMIT) => true
  | COMMIT, (COMMIT | CLEAR) => true
  | ABORT, (ABORT | CLEAR) => true
  | CLEAR, CLEAR => true
  | _, _ => false
  end.

(** At most one log is in flight and it is the one the two states ask for. *)
Definition pending_ok (down up : ObTxState) (l : list log) : bool :=
  match l with
  | [] => true
  | [OB_LOG_TX_PREPARE] => tx_eqb up PREPARE && tx_eqb down INIT
  | [OB_LOG_TX_COMMIT] => tx_eqb up COMMIT && (tx_eqb down PREPARE || tx_eqb down PRE_COMMIT)
  | [OB_LOG_TX_ABORT] => tx_eqb up ABORT && (tx_eqb down INIT || tx_eqb down PREPARE)
  | [OB_LOG_TX_CLEAR] => tx_eqb up CLEAR && (tx_eqb down COMMIT || tx_eqb down ABORT)
  | _ => false
  end.

Definition shape (h : list log) (k : Core) : Prop :=
  (c_down k = durable h ∨ c_down k = PRE_COMMIT ∧ durable h = PREPARE)
  ∧ updown_ok (c_down k) (c_up k) = true
  ∧ pending_ok (c_down k) (c_up k) (c_pending k) = true.

Section inv.
Context {D : Type} `{CommitterLaws D}.
Context (E : Env) (role : Ob2PCRole) (h : list log).

Definition abort_ok : Prop := role = ROOT ∨ OB_LOG_TX_PREPARE ∈ h → e_ab E.
Definition clear_ok : Prop :=
  OB_LOG_TX_COMMIT ∈ h →
  (role = ROOT → ∀ i, e_leaf E i → e_committed E i) ∧ (role = LEAF → e_rc E).

(** What has to be known before the in-memory state [st] is entered. *)
Definition up_guard (st : ObTxState) : Prop :=
  match st with
  | PRE_COMMIT | COMMIT => e_dec E
  | ABORT => abort_ok
  | CLEAR => clear_ok
  | _ => True
  end.

(** What a posted message tells. *)
Definition msg_ok (m : msg * Z) : Prop :=
  match role with
  | ROOT =>
      e_leaf E m.2 ∧
      match m.1 with
      | OB_MSG_TX_PREPARE_REQ => True
      | OB_MSG_TX_PRE_COMMIT_REQ | OB_MSG_TX_COMMIT_REQ => e_dec E
      | OB_MSG_TX_ABORT_REQ => e_ab E
      | OB_MSG_TX_CLEAR_REQ => OB_LOG_TX_COMMIT ∈ h ∨ e_ab E
      | _ => False
      end
  | _ =>
      (m.2 = OB_C2PC_UPSTREAM_ID ∨ m.2 = OB_C2PC_SENDER_ID) ∧
      match m.1 with
      | OB_MSG_TX_PREPARE_RESP | OB_MSG_TX_PRE_COMMIT_RESP => OB_LOG_TX_PREPARE ∈ h
      | OB_MSG_TX_COMMIT_RESP => OB_LOG_TX_COMMIT ∈ h
      | OB_MSG_TX_ABORT_RESP => OB_LOG_TX_ABORT ∈ h
      | _ => False
      end
  end.

Definition coll_ok (up : ObTxState) (s : gset Z) : Prop :=
  role = ROOT → ∀ i, i ∈ s →
    e_leaf E i ∧ (up = PREPARE → e_prepared E i) ∧ (up = COMMIT → e_committed E i).

Record NInv (c : Committer D) : Prop := mkNInv {
  n_good : good c;
  n_role : c_role (kern c) = role ∧ (role = ROOT ∨ role = LEAF);
  n_conf : role = ROOT → c_size (kern c) = e_size E ∧ c_self (kern c) = e_self E;
  n_shape : shape h (kern c);
  n_up : up_guard (c_up (kern c));
  n_dec : OB_LOG_TX_COMMIT ∈ h → e_dec E;
  n_ab : OB_LOG_TX_ABORT ∈ h → abort_ok;
  n_clr : OB_LOG_TX_CLEAR ∈ h → clear_ok;
  n_coll : coll_ok (c_up (kern c)) (coll c);
  n_sent : Forall msg_ok (c_sent (kern c))
}.

(** The configuration: the root is one of the participants [0 .. size-1] and the
    others are its downstream; a root that has logged PREPARE and whose
    downstream all have, has everything prepared. *)
Class EnvOk : Prop := {
  leaf_ids i : e_leaf E i ↔ 0 <= i < e_size E ∧ i ≠ e_self E;
  self_in : 0 <= e_self E < e_size E;
  dec_intro : role = ROOT → OB_LOG_TX_PREPARE ∈ h → (∀ i, e_leaf E i → e_prepared E i) → e_dec E;
  dec_not_ab : e_dec E → e_ab E → False
}.
Context `{!EnvOk}.

(** ** The primitive steps *)
Definition same (c c' : Committer D) : Prop :=
  c_up (kern c') = c_up (kern c) ∧ c_down (kern c') = c_down (kern c)
  ∧ c_pending (kern c') = c_pending (kern c) ∧ coll c' = coll c.

Lemma same_refl c : same c c.
Proof. done. Qed.

Lemma same_trans c1 c2 c3 : same c1 c2 → same c2 c3 → same c1 c3.
Proof. unfold same. intros (->&->&->&->) (?&?&?&?). split_and!; congruence. Qed.

Lemma ninv_quiet c c' :
  NInv c → good c' → kern c' = kern c → coll c' = coll c → NInv c' ∧ same c c'.
Proof.
  intros [] Hg Hk Hc. split; [|unfold same; by rewrite Hk, Hc].
  constructor; rewrite ?Hk, ?Hc; done.
Qed.

Lemma ninv_sent c c' m :
  NInv c → msg_ok m → good c' → coll c' = coll c →
  kern c' = with_sent (c_sent (kern c) ++ [m]) (kern c) ∨ kern c' = kern c → NInv c' ∧ same c c'.
Proof.
  intros HI Hm Hg Hc [Hk|Hk]; [|by apply ninv_quiet].
  split; [|unfold same; by rewrite Hk, Hc].
  destruct HI. constructor; rewrite ?Hk, ?Hc; simpl; try done.
  apply Forall_app_2; [done|]. by constructor.
Qed.

Lemma ninv_up c c' st :
  NInv c → c_pending (kern c) = [] → good c' → kern c' = with_up st (kern c) → coll c' = ∅ →
  up_guard st → updown_ok (c_down (kern c)) st = true → NInv c'.
Proof.
  intros [] Hp Hg Hk Hc Hu Hud. constructor; rewrite ?Hk, ?Hc; simpl; try done.
  destruct n_shape0 as (Hd & _ & _). unfold shape; simpl. rewrite Hp. done.
Qed.

Lemma ninv_submit c c' lt :
  NInv c → good c' → coll c' = coll c →
  pending_ok (c_down (kern c)) (c_up (kern c)) [lt] = true → c_pending (kern c) = [] →
  kern c' = with_pending (c_pending (kern c) ++ [lt]) (kern c) ∨ kern c' = kern c → NInv c'.
Proof.
  intros HI Hg Hc Hok Hp [Hk|Hk]; [|by apply (ninv_quiet c)].
  destruct HI. constructor; rewrite ?Hk, ?Hc; simpl; try done.
  destruct n_shape0 as (Hd & Hud & _). unfold shape; simpl. rewrite Hp. done.
Qed.

Lemma ninv_down_pre c c' :
  NInv c → c_up (kern c) = PRE_COMMIT → c_pending (kern c) = [] →
  good c' → kern c' = with_down PRE_COMMIT (kern c) → coll c' = coll c → NInv c'.
Proof.
  intros [] Hu Hp Hg Hk Hc. constructor; rewrite ?Hk, ?Hc; simpl; try done.
  destruct n_shape0 as (Hd & Hud & _). unfold shape; simpl. rewrite Hu, Hp in *.
  split_and!; try done. right. split; [done|].
  destruct Hd as [Hd|[_ Hd]]; [|done]. rewrite Hd in Hud.
  destruct (durable_range h) as (? & _ & _). by destruct (durable h).
Qed.

Lemma ninv_collect c c' i :
  NInv c → good c' → kern c' = kern c → coll c' = coll c ∨ coll c' = {[i]} ∪ coll c →
  (role = ROOT → e_leaf E i ∧ (c_up (kern c) = PREPARE → e_prepared E i)
                 ∧ (c_up (kern c) = COMMIT → e_committed E i)) → NInv c'.
Proof.
  intros HI Hg Hk [Hc|Hc] Hi; [by apply (ninv_quiet c)|].
  destruct HI. constructor; rewrite ?Hk, ?Hc; try done.
  intros Hr j. rewrite elem_of_union, elem_of_singleton. intros [->|]; auto.
Qed.

(** Everything collected: the collected set is the whole downstream. *)
Lemma ninv_all_collected c i :
  NInv c → role = ROOT → all_downstream_collected_ c = true → e_leaf E i → i ∈ coll c.
Proof.
  intros HI Hr Hall Hi. destruct HI as [Hg [Hrole _] Hconf _ _ _ _ _ Hcoll _].
  destruct (Hconf Hr) as [Hsz _]. rewrite Hr in Hrole.
  pose proof (all_collected_root c Hg Hrole Hall) as Hs. rewrite Hsz in Hs.
  set (A := list_to_set (seqZ 0 (e_size E)) ∖ {[e_self E]} : gset Z).
  assert (coll c ⊆ A) as Hsub.
  { intros j Hj. destruct (Hcoll Hr j Hj) as [Hl _]. apply leaf_ids in Hl.
    unfold A. rewrite elem_of_difference, elem_of_list_to_set, elem_of_seqZ, elem_of_singleton. lia. }
  assert (size A = Z.to_nat (e_size E - 1)) as HA.
  { unfold A. pose proof self_in. rewrite size_difference.
    - rewrite size_list_to_set, length_seqZ, size_singleton by apply NoDup_seqZ. lia.
    - intros j. rewrite elem_of_singleton, elem_of_list_to_set, elem_of_seqZ. lia. }
  assert (coll c = A) as ->.
  { apply set_eq. intros j. split; [apply Hsub|].
    assert (coll c ≡ A) as Heq by (apply set_subseteq_size_equiv; [done|lia]). by rewrite Heq. }
  apply leaf_ids in Hi. unfold A.
  rewrite elem_of_difference, elem_of_list_to_set, elem_of_seqZ, elem_of_singleton. lia.
Qed.

(** ** Composite steps *)
Definition same_states (c c' : Committer D) : Prop :=
  c_up (kern c') = c_up (kern c) ∧ c_down (kern c') = c_down (kern c) ∧ coll c' = coll c.

Lemma same_same_states c c' : same c c' → same_states c c'.
Proof. unfold same, same_states. tauto. Qed.

Lemma same_states_trans c1 c2 c3 : same_states c1 c2 → same_states c2 c3 → same_states c1 c3.
Proof. unfold same_states. intros (->&->&->) (?&?&?). split_and!; congruence. Qed.

(** The answers a spec gives: the invariant and a relation to the start. *)
Definition post (R : Committer D → Committer D → Prop) (c : Committer D) {A} (_ : A) (c' : Committer D) : Prop :=
  NInv c' ∧ R c c'.

Lemma post_msg_spec c mt i :
  NInv c → msg_ok (mt, i) → wp (call (post_msg mt i)) (post same c) c.
Proof.
  intros HI Hm. apply wp_post; [apply HI|]. intros r c' Hg Hk Hc.
  by apply (ninv_sent c c' (mt, i)).
Qed.

Lemma quiet_spec c {A} (m : M D A) : quiet ok core m → NInv c → wp (call m) (post same c) c.
Proof.
  intros Hq HI. apply wp_quiet; [done|apply HI|]. intros a c' Hg Hk Hc. by apply ninv_quiet.
Qed.

(** Sequencing through the invariant. *)
Lemma wp_seq {A B} (m : M (Committer D) A) (k : A → M (Committer D) B) R c Q :
  wp m (post R c) c →
  (∀ a c', NInv c' → R c c' → wp (k a) Q c') → wp (bind m k) Q c.
Proof.
  intros Hm Hk. apply wp_bind. eapply wp_mono; [exact Hm|]. intros a c' [HI HR]. by apply Hk.
Qed.

Lemma post_downstream_loop_spec c mt ids r :
  NInv c → role = ROOT → (∀ i, e_leaf E i → msg_ok (mt, i)) →
  (∀ i, i ∈ ids → 0 <= i < e_size E) →
  wp (post_downstream_loop mt ids r) (post same c) c.
Proof.
  intros HI Hr Hm. revert c r HI. induction ids as [|i ids IH]; intros c r HI Hin; simpl.
  { apply wp_ret. split; [done|apply same_refl]. }
  apply wp_bind, wp_obs. rewrite self_core. fold (kern c).
  rewrite (proj2 (n_conf c HI Hr)). destruct (Z.eqb_spec i (e_self E)) as [->|Hne]; simpl.
  - apply IH; [done|]. intros j Hj. apply Hin. by constructor.
  - eapply wp_seq; [apply post_msg_spec; [done|]|].
    { apply Hm, leaf_ids. split; [|done]. apply Hin. by constructor. }
    intros r' c' HI' Hs. eapply wp_mono; [apply IH; [done|]|].
    { intros j Hj. apply Hin. by constructor. }
    intros a c'' [HI'' Hs']. split; [done|]. by eapply same_trans.
Qed.

Lemma downstream_ids_range c i :
  NInv c → role = ROOT → i ∈ downstream_ids (derived c) → 0 <= i < e_size E.
Proof.
  intros HI Hr. unfold downstream_ids. rewrite size_core. fold (kern c).
  rewrite (proj1 (n_conf c HI Hr)), elem_of_seqZ. lia.
Qed.

Lemma post_downstream_spec c mt :
  NInv c → role = ROOT → (∀ i, e_leaf E i → msg_ok (mt, i)) →
  wp (post_downstream_msg mt) (post same c) c.
Proof.
  intros HI Hr Hm. apply wp_bind, wp_obs. apply post_downstream_loop_spec; try done.
  intros i. by apply (downstream_ids_range c).
Qed.

Lemma retransmit_loop_spec c mt ids :
  NInv c → role = ROOT → (∀ i, e_leaf E i → msg_ok (mt, i)) →
  (∀ i, i ∈ ids → 0 <= i < e_size E) →
  wp (retransmit_loop mt (e_self E) ids) (post same c) c.
Proof.
  intros HI Hr Hm. revert c HI. induction ids as [|i ids IH]; intros c HI Hin; simpl.
  { apply wp_ret. split; [done|apply same_refl]. }
  apply wp_bind, wp_gets. destruct (negb _ && negb (e_self E =? i)) eqn:Hb.
  - bool_to_prop. eapply wp_seq; [apply post_msg_spec; [done|]|].
    { apply Hm, leaf_ids. split; [|done]. apply Hin. by constructor. }
    intros r' c' HI' Hs. eapply wp_mono; [apply IH; [done|]|].
    { intros j Hj. apply Hin. by constructor. }
    intros a c'' [HI'' Hs']. split; [done|]. by eapply same_trans.
  - apply IH; [done|]. intros j Hj. apply Hin. by constructor.
Qed.

(** The request that the in-memory state asks for may be sent. *)
Lemma decide_downstream_msg_ok c mt i :
  NInv c → role = ROOT → e_leaf E i →
  decide_downstream_msg_type_ (derived c) = (OB_SUCCESS, true, mt) → msg_ok (mt, i).
Proof.
  intros HI Hr Hi. unfold decide_downstream_msg_type_. rewrite up_core. fold (kern c).
  destruct HI as [[Hok _] _ _ (Hd & Hud & _) Hu _ Hab _ _]. rewrite (non_xa _ Hok).
  unfold msg_ok. rewrite Hr. simpl.
  destruct (c_up (kern c)) eqn:Eu; simpl in Hu;
    try (intros [= <-]; split; [done|]; try done; apply Hu; auto; fail); try done.
  - destruct (c_down (kern c)); discriminate.
  - intros [= <-]. split; [done|].
    destruct Hd as [Hd|[Hd _]]; rewrite Hd in Hud; [|discriminate].
    destruct (durable h) eqn:Eh; try discriminate Hud.
    + apply durable_commit in Eh. left. rewrite Eh. set_solver.
    + right. apply Hab; [|by left]. apply durable_abort in Eh. destruct Eh as [Eh|Eh]; rewrite Eh; set_solver.
    + apply durable_clear in Eh as [Eh|Eh]; [left; rewrite Eh; set_solver|].
      right. apply Hab; [|by left]. destruct Eh as [Eh|Eh]; rewrite Eh; set_solver.
Qed.

Lemma role_tests c :
  NInv c → is_root (derived c) = bool_decide (role = ROOT)
           ∧ is_leaf (derived c) = bool_decide (role = LEAF) ∧ is_internal (derived c) = false.
Proof.
  intros HI. unfold is_root, is_leaf, is_internal. rewrite role_core. fold (kern c).
  destruct HI as [_ [Hr Hr'] _ _ _ _ _ _ _ _]. rewrite Hr.
  split_and!; try done. destruct Hr' as [-> | ->]; done.
Qed.

Lemma retransmit_all_spec c : NInv c → wp retransmit_downstream_msg_all (post same c) c.
Proof.
  intros HI. apply wp_bind, wp_obs. destruct (role_tests c HI) as (-> & _ & ->).
  rewrite orb_false_r. destruct (bool_decide (role = ROOT)) eqn:Hr; simpl.
  2: { apply wp_ret. split; [done|apply same_refl]. }
  apply bool_decide_eq_true in Hr. destruct (is_real_upstream _); simpl.
  2: { apply wp_ret. split; [done|apply same_refl]. }
  apply wp_bind, wp_obs, wp_bind, wp_obs.
  destruct (decide_downstream_msg_type_ (derived c)) as [[rc need] mt] eqn:Ed.
  destruct (ob_failed rc) eqn:Hf; [apply wp_ret; split; [done|apply same_refl]|].
  apply ob_failed_false in Hf as ->.
  destruct need; [|apply wp_ret; split; [done|apply same_refl]].
  apply wp_bind, wp_obs. rewrite self_core. fold (kern c). rewrite (proj2 (n_conf c HI Hr)).
  eapply wp_seq; [apply retransmit_loop_spec; try done|].
  - intros i Hi. by eapply decide_downstream_msg_ok.
  - intros i. by apply (downstream_ids_range c).
  - intros _ c' HI' Hs. by apply wp_ret.
Qed.

Lemma retransmit_spec c i :
  NInv c → (role = ROOT → e_leaf E i) → wp (retransmit_downstream_msg_ i) (post same c) c.
Proof.
  intros HI Hi. apply wp_bind, wp_obs. destruct (role_tests c HI) as (_ & -> & _).
  destruct (proj2 (n_role c HI)) as [Hr|Hr]; rewrite Hr.
  2: { apply wp_ret. split; [done|apply same_refl]. }
  rewrite bool_decide_eq_false_2 by done. apply wp_bind, wp_obs.
  destruct (decide_downstream_msg_type_ (derived c)) as [[rc need] mt] eqn:Ed.
  destruct (ob_failed rc) eqn:Hf; [apply wp_ret; split; [done|apply same_refl]|].
  apply ob_failed_false in Hf as ->.
  destruct need; [|apply wp_ret; split; [done|apply same_refl]].
  eapply wp_seq; [apply post_msg_spec; [done|]|].
  - eapply decide_downstream_msg_ok; eauto.
  - intros _ c' HI' Hs. by apply wp_ret.
Qed.

Lemma not_logging c : is_2pc_logging (derived c) = false → c_pending (kern c) = [].
Proof.
  rewrite logging_core. fold (kern c). rewrite bool_decide_eq_false.
  intros Hn. destruct (c_pending (kern c)); [done|]. exfalso. by apply Hn.
Qed.

(** The log the two states ask for fits them. *)
Lemma decide_log_ok c lt need lt0 :
  NInv c → decide_2pc_log_type_ lt0 (derived c) = (OB_SUCCESS, need, lt) → need = true →
  c_pending (kern c) = [] ∧ pending_ok (c_down (kern c)) (c_up (kern c)) [lt] = true.
Proof.
  intros HI. unfold decide_2pc_log_type_.
  destruct (is_2pc_logging (derived c)) eqn:Hl; [by intros [= <- <-]|].
  apply not_logging in Hl. rewrite up_core, down_core. fold (kern c).
  destruct (n_shape c HI) as (_ & Hud & _).
  destruct (c_down (kern c)), (c_up (kern c)); try discriminate Hud; simpl;
    try (by intros [= <- <-]); intros [= <- <-]; done.
Qed.

Lemma submit_spec c : NInv c → wp submit_2pc_log_ (post same_states c) c.
Proof.
  intros HI. apply wp_bind, wp_obs.
  destruct (decide_2pc_log_type_ OB_LOG_TX_INIT (derived c)) as [[rc need] lt] eqn:Ed.
  destruct (ob_failed rc) eqn:Hf; [apply wp_ret; done|].
  apply ob_failed_false in Hf as ->.
  destruct need; [|apply wp_ret; done].
  destruct (decide_log_ok c _ _ _ HI Ed eq_refl) as [Hp Hok].
  apply wp_bind. apply wp_submit; [apply HI|]. intros r c' Hg Hk Hc. apply wp_ret. split.
  - by eapply ninv_submit.
  - unfold same_states. destruct Hk as [-> | ->]; rewrite Hc; done.
Qed.

Lemma drive_do_phase_spec c st : NInv c → wp (drive_do_phase st) (post same c) c.
Proof.
  assert (∀ (c : Committer D) (m : M D Z), quiet ok core m → NInv c →
    wp (let! r := call m in ret (r, false)) (post same c) c) as Hq.
  { intros c0 m Hm HI. eapply wp_seq; [by apply quiet_spec|]. intros a c' HI' Hs. by apply wp_ret. }
  intros HI. destruct st; simpl; try (apply wp_ret; done); try (apply Hq; auto with hooks; fail).
  - apply quiet_spec; auto with hooks.
  - eapply wp_seq; [apply quiet_spec; auto with hooks|]. intros [rc w] c' HI' Hs. simpl.
    destruct (ob_failed rc); [by apply wp_ret|]. apply wp_bind, wp_obs.
    destruct (w && _); [by apply wp_ret|]. destruct (w && _); by apply wp_ret.
Qed.

(** The result of driving the local state machine into [st]. *)
Definition drive_post (st : ObTxState) (c : Committer D) (r : Z) (c' : Committer D) : Prop :=
  NInv c' ∧ c_down (kern c') = c_down (kern c)
  ∧ (r = OB_SUCCESS → c_pending (kern c) = [] ∧ c_up (kern c') = st)
  ∧ (r ≠ OB_SUCCESS → same c c').

Lemma drive_in_memory_spec c st :
  NInv c → c_pending (kern c) = [] → up_guard st → updown_ok (c_down (kern c)) st = true →
  wp (drive_in_memory st) (fun r c' => drive_post st c r.1 c') c.
Proof.
  intros HI Hp Hu Hud. eapply wp_seq; [by apply drive_do_phase_spec|].
  intros [rc no] c1 HI1 Hs1. simpl. destruct (ob_failed rc) eqn:Hf.
  { apply wp_ret. simpl. split_and!; try done; [by destruct Hs1 as (_&->&_)|].
    intros ->. discriminate. }
  eapply wp_seq; [apply quiet_spec; auto with hooks|]. intros rm c2 HI2 Hs2. simpl.
  pose proof (same_trans _ _ _ Hs1 Hs2) as Hs.
  destruct (ob_failed rm) eqn:Hf2.
  { apply wp_ret. simpl. split_and!; try done; [by destruct Hs as (_&->&_)|].
    intros ->. discriminate. }
  apply wp_bind, wp_collected_reset; [apply HI2|]. intros c3 Hg3 Hk3 Hc3.
  apply wp_bind, wp_set_up; [done|]. intros _ c4 Hg4 Hk4 Hc4. apply wp_ret. simpl.
  destruct Hs as (_ & Hd & Hp' & _). rewrite Hk3 in Hk4. rewrite Hc3 in Hc4.
  assert (NInv c4) as HI4.
  { apply (ninv_up c2 c4 st); try done; [by rewrite Hp'|by rewrite Hd]. }
  split_and!; try done; rewrite Hk4; done.
Qed.

Lemma drive_spec c st :
  NInv c → up_guard st → (c_pending (kern c) = [] → updown_ok (c_down (kern c)) st = true) →
  wp (drive_self_2pc_phase st) (drive_post st c) c.
Proof.
  intros HI Hu Hud. unfold drive_self_2pc_phase.
  assert (drive_post st c OB_EAGAIN c) as Hfail by (split_and!; done).
  apply wp_bind, wp_obs. destruct (is_2pc_logging (derived c)) eqn:Hl; [by apply wp_ret|].
  apply not_logging in Hl. apply wp_bind, wp_obs.
  destruct (is_2pc_blocking (derived c)); [by apply wp_ret|]. apply wp_bind, wp_obs.
  assert (wp (if tx_eqb st (get_upstream_state (derived c)) then ret (OB_SUCCESS, false)
              else drive_in_memory st) (fun r c' => drive_post st c r.1 c') c) as Hm.
  { destruct (tx_eqb st _) eqn:Heq; [|by apply drive_in_memory_spec; auto].
    apply tx_eqb_true in Heq. rewrite up_core in Heq. apply wp_ret. split_and!; done. }
  apply wp_bind. eapply wp_mono; [exact Hm|]. intros [rc no] c1. simpl. intros Hpost.
  destruct (ob_failed rc) eqn:Hf; [by apply wp_ret|]. apply ob_failed_false in Hf as ->.
  apply wp_bind, wp_obs. destruct (negb no && _); [|by apply wp_ret].
  destruct Hpost as (HI1 & Hd1 & Hs & _). destruct (Hs eq_refl) as [Hp Hup].
  eapply wp_seq; [by apply submit_spec|]. intros _ c2 HI2 (Hu2 & Hd2 & _). apply wp_ret.
  split_and!; try done; [congruence|]. intros _. split; [done|congruence].
Qed.

(** ** Pre-commit *)
Definition inv_post {A} (_ : A) (c' : Committer D) : Prop := NInv c'.

Lemma post_inv {A} (m : M (Committer D) A) R c : wp m (post R c) c → wp m inv_post c.
Proof. intros Hm. eapply wp_mono; [exact Hm|]. by intros a c' [HI _]. Qed.

Lemma drive_inv m st c : wp m (drive_post st c) c → wp m inv_post c.
Proof. intros Hm. eapply wp_mono; [exact Hm|]. by intros a c' [HI _]. Qed.

(** [drop the result and return] at the end of a method. *)
Lemma wp_then_ret {A B} (m : M (Committer D) A) (b : B) c :
  wp m inv_post c → wp (bind m (fun _ => ret b)) inv_post c.
Proof. intros Hm. apply wp_bind. eapply wp_mono; [exact Hm|]. intros a c' HI. by apply wp_ret. Qed.

Lemma get_role c : NInv c → get_2pc_role (derived c) = role.
Proof. intros HI. rewrite role_core. apply HI. Qed.

Lemma down_logs c :
  NInv c →
  match c_down (kern c) with
  | INIT => h = []
  | PREPARE | PRE_COMMIT => h = [OB_LOG_TX_PREPARE]
  | COMMIT => h = [OB_LOG_TX_PREPARE; OB_LOG_TX_COMMIT]
  | ABORT => h = [OB_LOG_TX_ABORT] ∨ h = [OB_LOG_TX_PREPARE; OB_LOG_TX_ABORT]
  | CLEAR => durable h = CLEAR
  | _ => False
  end.
Proof.
  intros HI. destruct (n_shape c HI) as (Hd & Hud & _). destruct (durable_range h) as (Hn1 & Hn2 & Hn3).
  destruct Hd as [Hd|[Hd Hd']]; rewrite Hd in *.
  - destruct (durable h) eqn:Eh; try done.
    + by apply durable_init. + by apply durable_prepare.
    + by apply durable_commit. + by apply durable_abort.
  - by apply durable_prepare.
Qed.

Lemma on_pre_commit_spec c :
  NInv c → c_up (kern c) = PRE_COMMIT → wp on_pre_commit inv_post c.
Proof.
  intros HI Hu. assert (c_pending (kern c) = []) as Hp.
  { destruct (n_shape c HI) as (_ & _ & Hp). rewrite Hu in Hp.
    destruct (c_pending (kern c)) as [|[] []]; done. }
  apply wp_bind, wp_set_down; [apply HI| |].
  2: { intros r c' Hr Hg Hk Hc. destruct (ob_failed r) eqn:Hf.
       - apply wp_ret. by apply (ninv_quiet c).
       - by apply ob_failed_false in Hf. }
  intros c1 Hg1 Hk1 Hc1. change (ob_failed OB_SUCCESS) with false. cbv iota.
  pose proof (ninv_down_pre c c1 HI Hu Hp Hg1 Hk1 Hc1) as HI1.
  assert (c_up (kern c1) = PRE_COMMIT) as Hu1 by (by rewrite Hk1).
  assert (c_down (kern c1) = PRE_COMMIT) as Hd1 by (by rewrite Hk1).
  pose proof (n_up c1 HI1) as Hdec. rewrite Hu1 in Hdec. simpl in Hdec.
  apply wp_bind, wp_obs. rewrite (get_role c1 HI1).
  destruct (proj2 (n_role c1 HI1)) as [Hr|Hr]; rewrite Hr.
  - apply wp_bind, wp_obs. cbv beta. destruct (1 =? get_downstream_size (derived c1)).
    + apply wp_then_ret, drive_inv with COMMIT. apply drive_spec; [done|done|].
      intros _. by rewrite Hd1.
    + apply wp_then_ret, post_inv with same. apply post_downstream_spec; [done|done|].
      intros i Hi. unfold msg_ok. by rewrite Hr.
  - apply wp_then_ret, post_inv with same. apply post_msg_spec; [done|].
    unfold msg_ok. rewrite Hr. simpl. split; [by left|].
    pose proof (down_logs c1 HI1) as Hl. rewrite Hd1 in Hl. rewrite Hl. set_solver.
Qed.

Lemma try_enter_spec c :
  NInv c → e_dec E → c_down (kern c) = PREPARE ∨ c_down (kern c) = PRE_COMMIT →
  wp try_enter_pre_commit_state inv_post c.
Proof.
  intros HI Hdec Hd. apply wp_bind, wp_obs.
  destruct (is_2pc_logging (derived c)); [by apply wp_ret|].
  apply wp_bind. eapply wp_mono.
  { apply (drive_spec c PRE_COMMIT); [done|done|]. intros _. by destruct Hd as [-> | ->]. }
  intros r c1 (HI1 & Hd1 & Hok & _). simpl. destruct (ob_failed r) eqn:Hf; [by apply wp_ret|].
  apply ob_failed_false in Hf. apply on_pre_commit_spec; [done|]. by apply Hok.
Qed.

(** ** The leaf: requests *)
Definition resp_ok (st : ObTxState) : Prop :=
  match st with
  | PREPARE | PRE_COMMIT => OB_LOG_TX_PREPARE ∈ h
  | COMMIT => OB_LOG_TX_COMMIT ∈ h
  | ABORT => OB_LOG_TX_ABORT ∈ h
  | _ => True
  end.

Lemma retransmit_upstream_spec c st :
  NInv c → role = LEAF → resp_ok st → wp (retransmit_upstream_msg_ st) (post same c) c.
Proof.
  intros HI Hr Hst. apply wp_bind, wp_obs.
  destruct (tx_gtb _ _); [by apply wp_ret|]. apply wp_bind, wp_gets.
  destruct (upstream_need_respond st c) as [rc need]. destruct need; [|by apply wp_ret].
  apply wp_bind, wp_obs. unfold upstream_resp_type.
  rewrite (non_xa _ (proj1 (n_good c HI))).
  destruct st; simpl; try (by apply wp_ret);
    (eapply wp_seq; [apply post_msg_spec; [done|]|intros _ c' HI' Hs; by apply wp_ret]);
    unfold msg_ok; rewrite Hr; simpl; split; auto.
Qed.

Lemma retransmit_both_spec c st :
  NInv c → role = LEAF → resp_ok st → wp (retransmit_both st) inv_post c.
Proof.
  intros HI Hr Hst. eapply wp_seq; [by apply retransmit_all_spec|]. intros _ c1 HI1 _.
  apply post_inv with same. by apply retransmit_upstream_spec.
Qed.

Lemma retransmit_both_tmp_spec c st :
  NInv c → role = LEAF → resp_ok st → wp (retransmit_both_tmp st) inv_post c.
Proof.
  intros HI Hr Hst. eapply wp_seq; [by apply retransmit_all_spec|]. intros _ c1 HI1 _.
  apply wp_then_ret, post_inv with same. by apply retransmit_upstream_spec.
Qed.

(** A request handler of a leaf: log check, message cache, phase. *)
Lemma leaf_drive_spec c mt st (k : Ob2PCRole → M (Committer D) Z) :
  NInv c → role = LEAF → up_guard st → updown_ok (c_down (kern c)) st = true →
  k LEAF = ret OB_SUCCESS →
  wp (let! logging := obs is_2pc_logging in
      if logging then ret OB_SUCCESS
      else chk! call (apply_2pc_msg_ mt) else chk! drive_self_2pc_phase st else
           let! role := obs get_2pc_role in k role) inv_post c.
Proof.
  intros HI Hr Hu Hud Hk. apply wp_bind, wp_obs.
  destruct (is_2pc_logging (derived c)); [by apply wp_ret|].
  eapply wp_seq; [apply quiet_spec; auto with hooks|]. intros r1 c1 HI1 (_ & Hd1 & _ & _).
  destruct (ob_failed r1); [by apply wp_ret|].
  apply wp_bind. eapply wp_mono; [apply (drive_spec c1 st); [done|done|by rewrite Hd1]|].
  intros r2 c2 [HI2 _]. simpl. destruct (ob_failed r2); [by apply wp_ret|].
  apply wp_bind, wp_obs. rewrite (get_role c2 HI2), Hr, Hk. by apply wp_ret.
Qed.

(** What is known of a request when it reaches a leaf. *)
Definition req_ok (mt : msg) : Prop :=
  match mt with
  | OB_MSG_TX_PREPARE_REQ => True
  | OB_MSG_TX_PRE_COMMIT_REQ | OB_MSG_TX_COMMIT_REQ => e_dec E
  | OB_MSG_TX_ABORT_REQ => e_ab E ∨ OB_LOG_TX_COMMIT ∈ h
  | OB_MSG_TX_CLEAR_REQ => e_rc E ∨ e_ab E
  | _ => False
  end.

Ltac solve_logs :=
  match goal with Hl : h = _ |- _ => rewrite Hl end; set_solver.

Lemma leaf_prepare_request c :
  NInv c → role = LEAF → wp handle_2pc_prepare_request inv_post c.
Proof.
  intros HI Hr. pose proof (down_logs c HI) as Hl. apply wp_bind, wp_obs.
  rewrite down_core. fold (kern c). destruct (c_down (kern c)) eqn:Hd; try done;
    try (by apply wp_ret); try (apply retransmit_both_tmp_spec; [done|done|simpl; solve_logs]).
  - apply leaf_drive_spec; try done. by rewrite Hd.
  - eapply wp_seq; [apply quiet_spec; auto with hooks|]. intros r1 c1 HI1 _.
    destruct (ob_failed r1); [by apply wp_ret|].
    apply retransmit_both_tmp_spec; [done|done|simpl]. destruct Hl as [Hl|Hl]; solve_logs.
Qed.

Lemma leaf_commit_request c :
  NInv c → role = LEAF → e_dec E → wp handle_2pc_commit_request inv_post c.
Proof.
  intros HI Hr Hdec. pose proof (down_logs c HI) as Hl. apply wp_bind, wp_obs.
  rewrite down_core. fold (kern c). destruct (c_down (kern c)) eqn:Hd; try done; try (by apply wp_ret).
  - apply leaf_drive_spec; try done. by rewrite Hd.
  - apply leaf_drive_spec; try done. by rewrite Hd.
  - apply retransmit_both_spec; [done|done|simpl; solve_logs].
Qed.

Lemma leaf_abort_request c :
  NInv c → role = LEAF → e_ab E ∨ OB_LOG_TX_COMMIT ∈ h → wp handle_2pc_abort_request inv_post c.
Proof.
  intros HI Hr Hab. pose proof (down_logs c HI) as Hl. apply wp_bind, wp_obs.
  rewrite down_core. fold (kern c). destruct (c_down (kern c)) eqn:Hd; try done; try (by apply wp_ret).
  - apply leaf_drive_spec; try done; [|by rewrite Hd].
    intros _. destruct Hab as [|Hin]; [done|]. rewrite Hl in Hin. set_solver.
  - apply leaf_drive_spec; try done; [|by rewrite Hd].
    intros _. destruct Hab as [|Hin]; [done|]. rewrite Hl in Hin. set_solver.
  - eapply wp_seq; [apply quiet_spec; auto with hooks|]. intros r1 c1 HI1 _.
    destruct (ob_failed r1); [by apply wp_ret|].
    apply retransmit_both_spec; [done|done|simpl]. destruct Hl as [Hl|Hl]; solve_logs.
Qed.

Lemma leaf_pre_commit_request c :
  NInv c → role = LEAF → e_dec E → wp handle_2pc_pre_commit_request inv_post c.
Proof.
  intros HI Hr Hdec. pose proof (down_logs c HI) as Hl. apply wp_bind, wp_obs.
  rewrite down_core. fold (kern c). destruct (c_down (kern c)) eqn:Hd; try done; try (by apply wp_ret);
    try (apply retransmit_both_spec; [done|done|simpl; solve_logs]).
  eapply wp_seq; [apply quiet_spec; auto with hooks|]. intros r1 c1 HI1 (_ & Hd1 & _ & _).
  destruct (ob_failed r1); [by apply wp_ret|].
  apply try_enter_spec; [done|done|]. left. by rewrite Hd1.
Qed.

Lemma leaf_clear_request c :
  NInv c → role = LEAF → e_rc E ∨ e_ab E → wp handle_2pc_clear_request inv_post c.
Proof.
  intros HI Hr Hrc. assert (clear_ok) as Hcl.
  { intros Hc. split; [by rewrite Hr|]. intros _. destruct Hrc as [|Hab]; [done|].
    exfalso. apply dec_not_ab; [by apply (n_dec c HI)|done]. }
  pose proof (down_logs c HI) as Hl. apply wp_bind, wp_obs.
  rewrite down_core. fold (kern c). destruct (c_down (kern c)) eqn:Hd; try done; try (by apply wp_ret);
    apply leaf_drive_spec; try done; by rewrite Hd.
Qed.

Lemma leaf_req_spec c mt :
  NInv c → role = LEAF → req_ok mt → wp (handle_2pc_req mt) inv_post c.
Proof.
  intros HI Hr Hok. destruct mt; simpl in *; try done.
  - by apply leaf_prepare_request.
  - by apply leaf_pre_commit_request.
  - by apply leaf_commit_request.
  - by apply leaf_abort_request.
  - by apply leaf_clear_request.
Qed.

(** ** Timeout *)

(** What the next phase of a root with no downstream needs is known. *)
Lemma single_next_ok c :
  NInv c → role = ROOT → e_size E = 1 → c_up (kern c) = c_down (kern c) →
  tx_gtb CLEAR (c_down (kern c)) = true → tx_leb PREPARE (c_down (kern c)) = true →
  up_guard (decide_next_state_ (c_down (kern c)))
  ∧ updown_ok (c_down (kern c)) (decide_next_state_ (c_down (kern c))) = true.
Proof.
  intros HI Hr Hn Hud Hlt Hle. assert (∀ i, ¬ e_leaf E i) as Hno.
  { intros i Hi. apply leaf_ids in Hi. pose proof self_in. lia. }
  pose proof (down_logs c HI) as Hl. pose proof (n_up c HI) as Hu. rewrite Hud in Hu.
  destruct (c_down (kern c)); try discriminate; simpl in *; (split; [|done]).
  - apply dec_intro; [done|solve_logs|]. intros i Hi. by destruct (Hno i).
  - done.
  - intros _. split; [|by rewrite Hr]. intros _ i Hi. by destruct (Hno i).
  - intros Hc. destruct Hl as [Hl|Hl]; rewrite Hl in Hc; set_solver.
Qed.

Lemma timeout_single_spec c :
  NInv c → role = ROOT → e_size E = 1 → wp timeout_single_participant inv_post c.
Proof.
  intros HI Hr Hn. apply wp_bind, wp_obs. rewrite !up_core, !down_core. fold (kern c).
  assert (∀ c1, NInv c1 → wp
    (let! pre := obs (fun d => tx_eqb PRE_COMMIT (get_upstream_state d)
                               && tx_eqb PREPARE (get_downstream_state d)) in
     if pre then (on_pre_commit ;;; ret tt) else ret tt) inv_post c1) as Hsnd.
  { intros c1 HI1. apply wp_bind, wp_obs. rewrite up_core. fold (kern c1).
    destruct (tx_eqb PRE_COMMIT (c_up (kern c1))) eqn:Hu; simpl; [|by apply wp_ret].
    apply tx_eqb_true in Hu. destruct (tx_eqb PREPARE _); [|by apply wp_ret].
    by apply wp_then_ret, on_pre_commit_spec. }
  apply wp_bind.
  assert (wp (if tx_eqb (c_up (kern c)) (c_down (kern c)) && tx_gtb CLEAR (c_down (kern c))
                 && tx_leb PREPARE (c_down (kern c))
              then let! st := obs get_downstream_state in
                   (drive_self_2pc_phase (decide_next_state_ st) ;;; ret tt)
              else ret tt) inv_post c) as Hfst.
  { destruct (_ && _) eqn:Hb; [|by apply wp_ret]. bool_to_prop.
    match goal with Hu : tx_eqb _ _ = true |- _ => apply tx_eqb_true in Hu end.
    apply wp_bind, wp_obs. rewrite down_core. fold (kern c).
    destruct (single_next_ok c) as [Hg Hud]; try done.
    apply wp_then_ret, drive_inv with (decide_next_state_ (c_down (kern c))).
    by apply drive_spec. }
  eapply wp_mono; [exact Hfst|]. intros ? c1 HI1. by apply Hsnd.
Qed.

Lemma timeout_down_spec c :
  NInv c →
  wp (if is_root (derived c) || is_internal (derived c)
      then (retransmit_downstream_msg_all ;;; ret tt) else ret tt) inv_post c.
Proof.
  intros HI. destruct (role_tests c HI) as (Hroot & _ & Hint). rewrite Hroot, Hint, orb_false_r.
  case_bool_decide; [|by apply wp_ret].
  apply wp_then_ret, post_inv with same. by apply retransmit_all_spec.
Qed.

Lemma timeout_up_spec c :
  NInv c →
  wp (if is_internal (derived c) || is_leaf (derived c)
      then let! st := obs get_downstream_state in (retransmit_upstream_msg_ st ;;; ret tt)
      else ret tt) inv_post c.
Proof.
  intros HI. destruct (role_tests c HI) as (_ & Hleaf & Hint). rewrite Hleaf, Hint, orb_false_l.
  case_bool_decide as Hr; [|by apply wp_ret]. apply wp_bind, wp_obs.
  apply wp_then_ret, post_inv with same. apply retransmit_upstream_spec; [done|done|].
  pose proof (down_logs c HI) as Hl. rewrite down_core. fold (kern c).
  destruct (c_down (kern c)); simpl; try done; try solve_logs.
  destruct Hl as [Hl|Hl]; solve_logs.
Qed.

Lemma timeout_spec c : NInv c → wp handle_timeout inv_post c.
Proof.
  intros HI. eapply wp_seq; [by apply submit_spec|]. intros _ c1 HI1 _.
  apply wp_bind, wp_obs, wp_bind.
  eapply wp_mono; [by apply timeout_down_spec|]. intros ? c2 HI2.
  apply wp_bind, wp_obs, wp_bind.
  eapply wp_mono; [by apply timeout_up_spec|]. intros ? c3 HI3.
  destruct (role_tests c3 HI3) as (Hroot & _ & _).
  apply wp_bind, wp_obs. rewrite Hroot, size_core. fold (kern c3).
  apply wp_then_ret.
  destruct (bool_decide (role = ROOT) && (1 =? c_size (kern c3)) && _) eqn:Hb; [|by apply wp_ret].
  bool_to_prop. match goal with Hr : bool_decide _ = true |- _ => apply bool_decide_eq_true in Hr end.
  apply timeout_single_spec; [done|done|]. by rewrite <- (proj1 (n_conf c3 HI3 ltac:(done))).
Qed.

(** ** The root: start and responses *)
Lemma root_start_spec c : NInv c → role = ROOT → wp two_phase_commit inv_post c.
Proof.
  intros HI Hr. apply wp_bind, wp_obs. rewrite up_core. fold (kern c).
  destruct (tx_leb PREPARE (c_up (kern c))) eqn:Hle; [by apply wp_ret|].
  apply wp_bind, wp_obs. destruct (is_2pc_logging (derived c)); [by apply wp_ret|].
  apply wp_bind. eapply wp_mono.
  { apply (drive_spec c PREPARE); [done|done|]. intros _.
    destruct (n_shape c HI) as (_ & Hud & _).
    destruct (c_down (kern c)), (c_up (kern c)); done. }
  intros r c1 [HI1 _]. simpl. destruct (ob_failed r); [by apply wp_ret|].
  apply wp_then_ret, post_inv with same. apply post_downstream_spec; [done|done|].
  intros i Hi. unfold msg_ok. by rewrite Hr.
Qed.

Definition same_kern (c c' : Committer D) : Prop := kern c' = kern c.

Lemma collect_spec c i :
  NInv c → role = ROOT → e_leaf E i → (c_up (kern c) = PREPARE → e_prepared E i) →
  (c_up (kern c) = COMMIT → e_committed E i) →
  wp (collect_downstream_ i) (post same_kern c) c.
Proof.
  intros HI Hr Hi Hp Hc. apply wp_bind, wp_obs. rewrite (get_role c HI), Hr.
  apply wp_bind, wp_obs. destruct (i =? get_self_id (derived c)); [by apply wp_ret|].
  apply wp_add_member; [apply HI|]. intros r c' Hg Hk Hcl. split; [|done].
  by apply (ninv_collect c c' i).
Qed.

(** Everything is prepared once all of the downstream is collected in the prepare phase. *)
Lemma root_dec c :
  NInv c → role = ROOT → c_up (kern c) = PREPARE → c_down (kern c) = PREPARE →
  all_downstream_collected_ c = true → e_dec E.
Proof.
  intros HI Hr Hu Hd Hall. pose proof (down_logs c HI) as Hl. rewrite Hd in Hl.
  apply dec_intro; [done|solve_logs|]. intros i Hi.
  apply (n_coll c HI Hr i); [by apply ninv_all_collected|done].
Qed.

Lemma root_prepare_response c i :
  NInv c → role = ROOT → e_leaf E i → e_prepared E i → wp (handle_2pc_prepare_response i) inv_post c.
Proof.
  intros HI Hr Hi Hp. apply wp_bind, wp_obs. rewrite up_core. fold (kern c).
  destruct (c_up (kern c)) eqn:Hu; try (by apply wp_ret);
    try (apply wp_then_ret, post_inv with same; by apply retransmit_spec).
  { apply wp_bind, wp_obs. rewrite (non_xa _ (proj1 (n_good c HI))). by apply wp_ret. }
  apply wp_bind, wp_obs. rewrite down_core. fold (kern c).
  eapply wp_seq; [apply quiet_spec; auto with hooks|]. intros r1 c1 HI1 (Hu1 & Hd1 & _ & _).
  destruct (ob_failed r1); [by apply wp_ret|].
  eapply wp_seq; [apply (collect_spec c1 i); try done; congruence|]. intros r2 c2 HI2 Hk2.
  destruct (ob_failed r2); [by apply wp_ret|].
  apply wp_bind, wp_obs. destruct (is_2pc_logging _); [by apply wp_ret|].
  apply wp_bind, wp_gets. destruct (tx_eqb PREPARE (c_down (kern c))) eqn:Hd; simpl; [|by apply wp_ret].
  apply tx_eqb_true in Hd. destruct (all_downstream_collected_ c2) eqn:Hall; [|by apply wp_ret].
  apply wp_bind, wp_obs. rewrite (get_role c2 HI2), Hr.
  assert (c_up (kern c2) = PREPARE) by (rewrite Hk2; congruence).
  assert (c_down (kern c2) = PREPARE) by (rewrite Hk2; congruence).
  apply try_enter_spec; [done|by eapply root_dec|by left].
Qed.

(** The acknowledgement of a commit or an abort. *)
Lemma root_ack c i :
  NInv c → role = ROOT → e_leaf E i → c_up (kern c) = COMMIT ∨ c_up (kern c) = ABORT →
  (c_up (kern c) = COMMIT → e_committed E i) → wp (handle_2pc_ack_response_impl_ i) inv_post c.
Proof.
  intros HI Hr Hi Hu Hc. apply wp_bind, wp_obs. rewrite down_core. fold (kern c).
  apply wp_bind, wp_obs, wp_bind.
  apply wp_mono with (post same c).
  { destruct (tx_eqb _ COMMIT); [apply quiet_spec; auto with hooks|by apply wp_ret]. }
  intros r1 c1 [HI1 Hs1]. destruct (ob_failed r1); [by apply wp_ret|].
  apply wp_bind, wp_obs, wp_bind. apply wp_mono with (post same c1).
  { destruct (tx_eqb _ ABORT); [apply quiet_spec; auto with hooks|by apply wp_ret]. }
  intros r2 c2 [HI2 Hs2]. destruct (ob_failed r2); [by apply wp_ret|].
  pose proof (same_trans _ _ _ Hs1 Hs2) as (Hu2 & Hd2 & _ & _).
  eapply wp_seq; [apply (collect_spec c2 i); try done; intros He; rewrite Hu2 in He|].
  { destruct Hu; congruence. } { auto. }
  intros r3 c3 HI3 Hk3. destruct (ob_failed r3); [by apply wp_ret|].
  apply wp_bind, wp_obs. destruct (is_2pc_logging _); [by apply wp_ret|].
  apply wp_bind, wp_gets. destruct (_ || _) eqn:Hd; simpl; [|by apply wp_ret].
  destruct (all_downstream_collected_ c3) eqn:Hall; [|by apply wp_ret].
  apply wp_bind, wp_obs. rewrite (get_role c3 HI3), Hr.
  unfold same_kern in Hk3.
  assert (c_down (kern c3) = COMMIT ∨ c_down (kern c3) = ABORT) as Hd3.
  { rewrite Hk3, Hd2. apply orb_true_iff in Hd as [Hd|Hd]; apply tx_eqb_true in Hd; auto. }
  pose proof (down_logs c3 HI3) as Hl.
  assert (clear_ok) as Hcl.
  { intros Hin. split; [|by rewrite Hr]. intros _ j Hj. destruct Hd3 as [Hd3|Hd3]; rewrite Hd3 in Hl.
    - assert (c_up (kern c3) = COMMIT) as Hu3.
      { destruct (n_shape c3 HI3) as (_ & Hud & _). rewrite Hd3 in Hud. rewrite Hk3, Hu2 in *.
        destruct Hu as [Hu|Hu]; rewrite Hu in *; done. }
      apply (n_coll c3 HI3 Hr j); [by apply ninv_all_collected|done].
    - exfalso. destruct Hl as [Hl|Hl]; rewrite Hl in Hin; set_solver. }
  apply wp_bind. eapply wp_mono.
  { apply (drive_spec c3 CLEAR); [done|done|]. intros _. by destruct Hd3 as [-> | ->]. }
  intros r4 c4 (HI4 & Hd4 & Hup4 & _). destruct (ob_failed r4) eqn:Hf; [by apply wp_ret|].
  apply ob_failed_false in Hf.
  apply wp_then_ret, post_inv with same. apply post_downstream_spec; [done|done|].
  intros j Hj. eapply decide_downstream_msg_ok; [exact HI4|done|done|].
  unfold decide_downstream_msg_type_. rewrite up_core. fold (kern c4).
  by rewrite (proj2 (Hup4 Hf)).
Qed.

Lemma root_commit_response c i :
  NInv c → role = ROOT → e_leaf E i → e_committed E i → wp (handle_2pc_commit_response i) inv_post c.
Proof.
  intros HI Hr Hi Hc. apply wp_bind, wp_obs. rewrite up_core. fold (kern c).
  destruct (c_up (kern c)) eqn:Hu; try (by apply wp_ret).
  - apply root_ack; auto.
  - apply post_inv with same. by apply retransmit_spec.
Qed.

Lemma root_pre_commit_response c i :
  NInv c → role = ROOT → e_leaf E i → wp (handle_2pc_pre_commit_response i) inv_post c.
Proof.
  intros HI Hr Hi. apply wp_bind, wp_obs. rewrite up_core. fold (kern c).
  destruct (c_up (kern c)) eqn:Hu; try (by apply wp_ret);
    try (apply post_inv with same; by apply retransmit_spec).
  eapply wp_seq; [apply quiet_spec; auto with hooks|]. intros r1 c1 HI1 (Hu1 & _ & _ & _).
  destruct (ob_failed r1); [by apply wp_ret|].
  eapply wp_seq; [apply (collect_spec c1 i); try done; congruence|]. intros r2 c2 HI2 Hk2.
  destruct (ob_failed r2); [by apply wp_ret|].
  apply wp_bind, wp_gets. destruct (all_downstream_collected_ c2); [|by apply wp_ret].
  apply wp_bind, wp_obs. rewrite (get_role c2 HI2), Hr.
  unfold same_kern in Hk2. assert (c_up (kern c2) = PRE_COMMIT) as Hu2 by congruence.
  pose proof (n_up c2 HI2) as Hdec. rewrite Hu2 in Hdec.
  destruct (n_shape c2 HI2) as (_ & Hud & _). rewrite Hu2 in Hud.
  apply wp_bind. eapply wp_mono.
  { apply (drive_spec c2 COMMIT); [done|done|]. intros _. by destruct (c_down (kern c2)). }
  intros r3 c3 [HI3 _]. simpl. destruct (ob_failed r3); [by apply wp_ret|].
  apply wp_then_ret, post_inv with same. apply post_downstream_spec; [done|done|].
  intros j Hj. unfold msg_ok. by rewrite Hr.
Qed.

Lemma root_abort_impl c i :
  NInv c → role = ROOT → e_leaf E i → e_ab E →
  wp (handle_2pc_abort_response_impl_ i) inv_post c.
Proof.
  intros HI Hr Hi Hab. apply wp_bind, wp_obs. rewrite down_core. fold (kern c).
  destruct (_ && _) eqn:Hd; [by apply wp_ret|].
  assert (updown_ok (c_down (kern c)) ABORT = true) as Hud.
  { pose proof (down_logs c HI) as Hl. by destruct (c_down (kern c)). }
  clear Hd. apply wp_bind, wp_obs. destruct (is_2pc_logging (derived c)); [by apply wp_ret|].
  apply wp_bind, wp_obs. destruct (_ || _); [|by apply wp_ret].
  apply wp_bind, wp_obs. rewrite (get_role c HI), Hr.
  eapply wp_seq; [apply quiet_spec; auto with hooks|]. intros r1 c1 HI1 (_ & Hd1 & _ & _).
  destruct (ob_failed r1); [by apply wp_ret|].
  apply wp_bind. eapply wp_mono.
  { apply (drive_spec c1 ABORT); [done|by intros _|by rewrite Hd1]. }
  intros r2 c2 (HI2 & _ & Hup & _). simpl. destruct (ob_failed r2) eqn:Hf; [by apply wp_ret|].
  apply ob_failed_false in Hf. destruct (Hup Hf) as [_ Hu2].
  eapply wp_seq; [apply (collect_spec c2 i); try done; congruence|]. intros r3 c3 HI3 _.
  destruct (ob_failed r3); [by apply wp_ret|].
  apply wp_then_ret, post_inv with same. apply post_downstream_spec; [done|done|].
  intros j Hj. unfold msg_ok. by rewrite Hr.
Qed.

Lemma root_abort_response c i :
  NInv c → role = ROOT → e_leaf E i → e_ab E ∨ OB_LOG_TX_COMMIT ∈ h ∧ e_committed E i →
  wp (handle_2pc_abort_response i) inv_post c.
Proof.
  intros HI Hr Hi Hab. pose proof (down_logs c HI) as Hl.
  pose proof (n_up c HI) as Hup. destruct (n_shape c HI) as (_ & Hud & _).
  apply wp_bind, wp_obs. rewrite up_core. fold (kern c).
  assert (c_up (kern c) = COMMIT → e_committed E i) as Hcm.
  { intros Hu. rewrite Hu in Hup. destruct Hab as [Hab|[_ ?]]; [|done].
    exfalso. by apply dec_not_ab. }
  destruct (c_up (kern c)) eqn:Hu; try (by apply wp_ret);
    try (apply root_abort_impl; try done; destruct Hab as [|[Hin _]]; [done|];
         destruct (c_down (kern c)); try done; rewrite Hl in Hin; set_solver);
    try (apply root_ack; auto; congruence).
  apply post_inv with same. by apply retransmit_spec.
Qed.

(** What is known of a response of participant [i] when it reaches the root. *)
Definition ack_ok (mt : msg) (i : Z) : Prop :=
  e_leaf E i ∧
  match mt with
  | OB_MSG_TX_PREPARE_RESP => e_prepared E i
  | OB_MSG_TX_PRE_COMMIT_RESP | OB_MSG_TX_CLEAR_RESP => True
  | OB_MSG_TX_COMMIT_RESP => e_committed E i
  | OB_MSG_TX_ABORT_RESP => e_ab E ∨ OB_LOG_TX_COMMIT ∈ h ∧ e_committed E i
  | _ => False
  end.

Lemma root_resp_spec c mt i :
  NInv c → role = ROOT → ack_ok mt i → wp (handle_2pc_resp mt i) inv_post c.
Proof.
  intros HI Hr [Hi Hok]. destruct mt; try done; simpl.
  - by apply root_prepare_response.
  - by apply root_pre_commit_response.
  - by apply root_commit_response.
  - by apply root_abort_response.
Qed.

(** ** A participant that aborts by itself *)

(** [MockOb2pcCtx::abort] of [unittest/storage/tx/ob_mock_2pc_ctx.cpp]: a
    participant that gives up before it is prepared. *)
Definition self_abort : M (Committer D) Z :=
  chk! call (set_upstream_state ABORT) else
  chk! call do_abort else call (submit_log OB_LOG_TX_ABORT).

Lemma self_abort_spec c :
  NInv c → role = LEAF → c_up (kern c) = INIT → c_down (kern c) = INIT →
  c_pending (kern c) = [] → wp self_abort inv_post c.
Proof.
  intros HI Hr Hu Hd Hp. pose proof (down_logs c HI) as Hl. rewrite Hd in Hl.
  apply wp_bind, wp_set_up; [apply HI|]. intros r1 c1 Hg1 Hk1 Hc1.
  assert (NInv c1) as HI1.
  { destruct HI as [_ n2 n3 n4 _ n6 n7 n8 _ n9]. constructor; rewrite ?Hk1; try done.
    - destruct n4 as (Hd4 & _ & _). unfold shape; simpl. rewrite Hp, Hd. rewrite Hd in Hd4. done.
    - intros [Hx|Hx]; [congruence|]. rewrite Hl in Hx. set_solver.
    - intros Hx. congruence. }
  destruct (ob_failed r1); [by apply wp_ret|].
  eapply wp_seq; [apply quiet_spec; auto with hooks|]. intros r2 c2 HI2 (Hu2 & Hd2 & Hp2 & _).
  destruct (ob_failed r2); [by apply wp_ret|]. rewrite Hk1 in Hu2, Hd2, Hp2. simpl in Hu2, Hd2, Hp2.
  apply wp_submit; [apply HI2|]. intros r c3 Hg3 Hk3 Hc3.
  apply (ninv_submit c2 c3 OB_LOG_TX_ABORT); try done; [|congruence].
  by rewrite Hu2, Hd2, Hd.
Qed.
End inv.
