(* ===== verification/TwoPhaseLog.v ===== *)
(** The log callbacks of a participant: [apply_log] after a log became durable
    extends the history the invariant speaks of, and [replay_log] rebuilds a
    participant from its history after a crash. *)
From S2P Require Import Prelude BitSet TxDefine TwoPhaseCommitter TwoPhaseLaws TwoPhaseInv.
Import Committer.

(** What a log history alone promises, for a participant that is gone or restarting. *)
Record HInv (E : Env) (role : Ob2PCRole) (h : list log) : Prop := mkHInv {
  h_known : durable h ≠ TX_UNKNOWN;
  h_dec : OB_LOG_TX_COMMIT ∈ h → e_dec E;
  h_ab : OB_LOG_TX_ABORT ∈ h → abort_ok E role h;
  h_clr : OB_LOG_TX_CLEAR ∈ h → clear_ok E role h
}.

(** An environment in which more is known. *)
Record env_le (E E' : Env) : Prop := {
  le_leaf i : e_leaf E i ↔ e_leaf E' i;
  le_size : e_size E' = e_size E;
  le_self : e_self E' = e_self E;
  le_prepared i : e_prepared E i → e_prepared E' i;
  le_committed i : e_committed E i → e_committed E' i;
  le_dec : e_dec E → e_dec E';
  le_ab : e_ab E → e_ab E';
  le_rc : e_rc E → e_rc E'
}.

Lemma abort_ok_mono E E' role h : env_le E E' → abort_ok E role h → abort_ok E' role h.
Proof. intros [] Hab Hx. auto. Qed.

Lemma clear_ok_mono E E' role h : env_le E E' → clear_ok E role h → clear_ok E' role h.
Proof.
  intros [] Hcl Hx. destruct (Hcl Hx) as [H1 H2]. split; [|auto].
  intros Hr i Hi. apply le_committed0, H1; [done|]. by apply le_leaf0.
Qed.

Lemma hinv_mono E E' role h : env_le E E' → HInv E role h → HInv E' role h.
Proof.
  intros Hle []. constructor; auto.
  - intros Hx. by apply (le_dec _ _ Hle), h_dec0.
  - intros Hx. by eapply abort_ok_mono; [|apply h_ab0].
  - intros Hx. by eapply clear_ok_mono; [|apply h_clr0].
Qed.

Lemma msg_ok_mono E E' role h h' m :
  env_le E E' → h ⊆ h' → msg_ok E role h m → msg_ok E' role h' m.
Proof.
  intros [] Hh. unfold msg_ok. destruct role, m as [mt i], mt; simpl; rewrite <- ?le_leaf0;
    set_solver.
Qed.

Section log.
Context {D : Type} `{CommitterLaws D}.
Implicit Types c : Committer D.

Lemma ninv_hinv E role h c : NInv E role h c → HInv E role h.
Proof.
  intros HI. pose proof (down_logs E role h c HI) as Hl.
  destruct (n_shape _ _ _ _ HI) as (Hd & _ & _). destruct HI. constructor; try done.
  destruct Hd as [Hd|[_ Hd]]; [|by rewrite Hd]. rewrite <- Hd. by destruct (c_down (kern c)).
Qed.

Lemma ninv_mono E E' role h c : env_le E E' → NInv E role h c → NInv E' role h c.
Proof.
  intros Hle HI. pose proof (hinv_mono _ _ _ _ Hle (ninv_hinv _ _ _ _ HI)) as [].
  destruct HI. constructor; try done.
  - destruct Hle as [_ Hs1 Hs2 _ _ _ _ _]. by rewrite Hs1, Hs2.
  - destruct (c_up (kern c)); simpl in *; try done; try (by apply (le_dec _ _ Hle));
      eauto using abort_ok_mono, clear_ok_mono.
  - intros Hr i Hi. destruct (n_coll Hr i Hi) as (H1 & H2 & H3), Hle. rewrite <- le_leaf0. auto.
  - eapply Forall_impl; [exact n_sent|]. intros m. apply msg_ok_mono; done.
Qed.

(** The durable state a log leads to. *)
Definition target (lt : log) : ObTxState :=
  match lt with
  | OB_LOG_TX_PREPARE => PREPARE
  | OB_LOG_TX_COMMIT => COMMIT
  | OB_LOG_TX_ABORT => ABORT
  | OB_LOG_TX_CLEAR => CLEAR
  | _ => TX_UNKNOWN
  end.

(** The history grows by the log in flight. *)
Lemma pending_cases E role h c lt :
  NInv E role h c → pending_ok (c_down (kern c)) (c_up (kern c)) [lt] = true →
  lt = OB_LOG_TX_PREPARE ∧ c_up (kern c) = PREPARE ∧ h = []
  ∨ lt = OB_LOG_TX_COMMIT ∧ c_up (kern c) = COMMIT ∧ h = [OB_LOG_TX_PREPARE]
  ∨ lt = OB_LOG_TX_ABORT ∧ c_up (kern c) = ABORT ∧ (h = [] ∨ h = [OB_LOG_TX_PREPARE])
  ∨ lt = OB_LOG_TX_CLEAR ∧ c_up (kern c) = CLEAR
    ∧ (h = [OB_LOG_TX_PREPARE; OB_LOG_TX_COMMIT] ∨ h = [OB_LOG_TX_ABORT]
       ∨ h = [OB_LOG_TX_PREPARE; OB_LOG_TX_ABORT]).
Proof.
  intros HI Hp. pose proof (down_logs E role h c HI) as Hl.
  destruct lt; simpl in Hp; try done; destruct (c_down (kern c)), (c_up (kern c)); try done; tauto.
Qed.

Lemma hinv_apply E role h c lt :
  NInv E role h c → pending_ok (c_down (kern c)) (c_up (kern c)) [lt] = true →
  HInv E role (h ++ [lt]) ∧ durable (h ++ [lt]) = target lt
  ∧ up_guard E role (h ++ [lt]) (c_up (kern c)) ∧ c_up (kern c) = target lt.
Proof.
  intros HI Hp. pose proof (n_up _ _ _ _ HI) as Hu.
  pose proof (n_dec _ _ _ _ HI) as Hdec. pose proof (n_ab _ _ _ _ HI) as Hab.
  destruct (pending_cases _ _ _ _ _ HI Hp) as
    [(-> & Eu & ->)|[(-> & Eu & ->)|[(-> & Eu & [-> | ->])|(-> & Eu & [-> |[-> | ->]])]]];
    rewrite Eu in *; simpl in *;
    (split; [|split; [done|split; [|done]]]); try done;
    try (constructor; simpl; try done);
    unfold abort_ok, clear_ok in *; set_solver.
Qed.

Section apply.
Context (E : Env) (role : Ob2PCRole) (h : list log) (lt : log).
Context `{!EnvOk E role (h ++ [lt])}.

Lemma ninv_apply c c' :
  NInv E role h c → pending_ok (c_down (kern c)) (c_up (kern c)) [lt] = true →
  c_pending (kern c) = [] → good c' → kern c' = with_down (target lt) (kern c) →
  coll c' = coll c → NInv E role (h ++ [lt]) c'.
Proof.
  intros HI Hp Hp0 Hg Hk Hc. destruct (hinv_apply _ _ _ _ _ HI Hp) as ([] & Hd & Hu & Ht).
  destruct HI. constructor; rewrite ?Hk, ?Hc; simpl; try done.
  - unfold shape; simpl. rewrite Hp0, Ht. split_and!; [by left| |done].
    destruct lt; simpl in *; try done; by destruct (c_down (kern c)).
  - eapply Forall_impl; [exact n_sent|]. intros m. apply msg_ok_mono; [done|set_solver].
Qed.

(** The common start of the callbacks: hook, then the durable state. *)
Lemma apply_common c (hook : M D Z) (k : M (Committer D) Z) :
  NInv E role h c → pending_ok (c_down (kern c)) (c_up (kern c)) [lt] = true →
  c_pending (kern c) = [] → quiet ok core hook →
  (∀ c', NInv E role (h ++ [lt]) c' → c_up (kern c') = target lt → c_down (kern c') = target lt →
     wp k (fun r c'' => r = OB_SUCCESS → NInv E role (h ++ [lt]) c'') c') →
  wp (chk! call hook else chk! call (set_downstream_state (target lt)) else k)
     (fun r c'' => r = OB_SUCCESS → NInv E role (h ++ [lt]) c'') c.
Proof.
  intros HI Hp Hp0 Hq Hk. apply wp_bind. apply wp_quiet; [done|apply HI|].
  intros r1 c1 Hg1 Hk1 Hc1. destruct (ob_failed r1) eqn:Hf1.
  { apply wp_ret. intros ->. done. }
  destruct (ninv_quiet E role h c c1 HI Hg1 Hk1 Hc1) as [HI1 _].
  apply wp_bind. apply wp_set_down; [done| |].
  - intros c2 Hg2 Hk2 Hc2. change (ob_failed OB_SUCCESS) with false. cbv iota.
    pose proof (hinv_apply _ _ _ _ _ HI Hp) as (_ & _ & _ & Ht).
    apply Hk; [apply (ninv_apply c1 c2); try done; by rewrite Hk1| |]; rewrite Hk2; simpl; [|done].
    by rewrite Hk1.
  - intros r c2 Hr _ _ _. destruct (ob_failed r) eqn:Hf; [by apply wp_ret|].
    by apply ob_failed_false in Hf.
Qed.

Lemma done_post (m : M (Committer D) Z) c :
  wp m (inv_post E role (h ++ [lt])) c →
  wp m (fun r c'' => r = OB_SUCCESS → NInv E role (h ++ [lt]) c'') c.
Proof. intros Hm. eapply wp_mono; [exact Hm|]. by intros r c' HI _. Qed.

Lemma leaf_resp_spec c mt :
  NInv E role (h ++ [lt]) c → role = LEAF → msg_ok E LEAF (h ++ [lt]) (mt, OB_C2PC_UPSTREAM_ID) →
  wp (post_upstream_resp mt) (inv_post E role (h ++ [lt])) c.
Proof.
  intros HI Hr Hm. apply wp_then_ret, post_inv with same. apply post_msg_spec; [done|].
  by rewrite Hr.
Qed.

Lemma root_clear_spec c :
  NInv E role (h ++ [lt]) c → role = ROOT → clear_ok E role (h ++ [lt]) →
  c_down (kern c) = COMMIT ∨ c_down (kern c) = ABORT →
  wp drive_clear_and_post (inv_post E role (h ++ [lt])) c.
Proof.
  intros HI Hr Hcl Hd. apply wp_bind. eapply wp_mono.
  { apply (drive_spec E role (h ++ [lt]) c CLEAR); [done|done|]. intros _. by destruct Hd as [-> | ->]. }
  intros r c1 (HI1 & Hd1 & Hup & _). destruct (ob_failed r) eqn:Hf; [by apply wp_ret|].
  apply ob_failed_false in Hf. apply wp_then_ret, post_inv with same.
  apply post_downstream_spec; [done|done|done|]. intros i Hi.
  eapply decide_downstream_msg_ok; [done|exact HI1|done|done|].
  unfold decide_downstream_msg_type_. rewrite up_core. fold (kern c1). by rewrite (proj2 (Hup Hf)).
Qed.

Lemma apply_prepare_spec c :
  NInv E role h c → pending_ok (c_down (kern c)) (c_up (kern c)) [lt] = true →
  c_pending (kern c) = [] → lt = OB_LOG_TX_PREPARE →
  wp apply_prepare_log (fun r c'' => r = OB_SUCCESS → NInv E role (h ++ [lt]) c'') c.
Proof.
  intros HI Hp Hp0 Hlt. apply wp_bind, wp_obs, wp_bind, wp_obs. rewrite up_core, down_core.
  fold (kern c). pose proof Hp as Hp'. rewrite Hlt in Hp'. simpl in Hp'.
  apply andb_true_iff in Hp' as [Hu Hd]. apply tx_eqb_true in Hu, Hd. rewrite Hu, Hd. simpl.
  change PREPARE with (target OB_LOG_TX_PREPARE) at 1. rewrite <- Hlt.
  apply apply_common; try done; [auto with hooks|]. intros c1 HI1 Hu1 Hd1. rewrite Hlt in Hu1, Hd1.
  apply wp_bind, wp_gets. destruct (all_downstream_collected_ c1) eqn:Hall; [|by apply wp_ret].
  apply wp_bind, wp_obs. rewrite (get_role _ _ _ c1 HI1).
  destruct (proj2 (n_role _ _ _ c1 HI1)) as [Hr|Hr]; rewrite Hr at 1.
  - apply wp_bind. eapply wp_mono; [apply (try_enter_spec E role (h ++ [lt])); [done| |by left]|].
    + by eapply root_dec.
    + intros r c2 HI2. simpl. destruct (r =? OB_EAGAIN); by apply wp_ret.
  - apply done_post, leaf_resp_spec; [done|done|]. split; [by left|]. simpl. rewrite Hlt. set_solver.
Qed.

Lemma apply_commit_spec c :
  NInv E role h c → pending_ok (c_down (kern c)) (c_up (kern c)) [lt] = true →
  c_pending (kern c) = [] → lt = OB_LOG_TX_COMMIT →
  wp apply_commit_log (fun r c'' => r = OB_SUCCESS → NInv E role (h ++ [lt]) c'') c.
Proof.
  intros HI Hp Hp0 Hlt. apply wp_bind, wp_obs, wp_bind, wp_obs. rewrite up_core, down_core.
  fold (kern c). pose proof Hp as Hp'. rewrite Hlt in Hp'. simpl in Hp'.
  apply andb_true_iff in Hp' as [Hu _]. apply tx_eqb_true in Hu. rewrite Hu.
  destruct (_ && _) eqn:Hb; [apply wp_ret; done|]. clear Hb. simpl.
  change COMMIT with (target OB_LOG_TX_COMMIT) at 1. rewrite <- Hlt.
  apply apply_common; try done; [auto with hooks|]. intros c1 HI1 Hu1 Hd1. rewrite Hlt in Hu1, Hd1.
  apply wp_bind, wp_gets. destruct (all_downstream_collected_ c1) eqn:Hall; [|by apply wp_ret].
  apply wp_bind, wp_obs. rewrite (get_role _ _ _ c1 HI1).
  destruct (proj2 (n_role _ _ _ c1 HI1)) as [Hr|Hr]; rewrite Hr at 1.
  - apply done_post, root_clear_spec; [done|done| |by left].
    intros _. split; [|by rewrite Hr]. intros _ i Hi.
    apply (n_coll _ _ _ c1 HI1 Hr i); [|done]. by eapply ninv_all_collected.
  - apply done_post, leaf_resp_spec; [done|done|]. split; [by left|]. simpl. rewrite Hlt. set_solver.
Qed.

Lemma apply_abort_spec c :
  NInv E role h c → pending_ok (c_down (kern c)) (c_up (kern c)) [lt] = true →
  c_pending (kern c) = [] → lt = OB_LOG_TX_ABORT →
  wp apply_abort_log (fun r c'' => r = OB_SUCCESS → NInv E role (h ++ [lt]) c'') c.
Proof.
  intros HI Hp Hp0 Hlt. apply wp_bind, wp_obs. destruct (_ && _); [apply wp_ret; done|].
  change ABORT with (target OB_LOG_TX_ABORT) at 1. rewrite <- Hlt.
  apply apply_common; try done; [auto with hooks|]. intros c1 HI1 Hu1 Hd1. rewrite Hlt in Hu1, Hd1.
  apply wp_bind, wp_gets. destruct (all_downstream_collected_ c1) eqn:Hall; [|by apply wp_ret].
  apply wp_bind, wp_obs. rewrite (get_role _ _ _ c1 HI1).
  destruct (proj2 (n_role _ _ _ c1 HI1)) as [Hr|Hr]; rewrite Hr at 1.
  - apply done_post, root_clear_spec; [done|done| |by right].
    pose proof (down_logs _ _ _ c1 HI1) as Hl. rewrite Hd1 in Hl.
    intros Hin. exfalso. destruct Hl as [Hl|Hl]; rewrite Hl in Hin; set_solver.
  - apply done_post, leaf_resp_spec; [done|done|]. split; [by left|]. simpl. rewrite Hlt. set_solver.
Qed.

Lemma apply_clear_spec c :
  NInv E role h c → pending_ok (c_down (kern c)) (c_up (kern c)) [lt] = true →
  c_pending (kern c) = [] → lt = OB_LOG_TX_CLEAR →
  wp apply_clear_log (fun r c'' => r = OB_SUCCESS → NInv E role (h ++ [lt]) c'') c.
Proof.
  intros HI Hp Hp0 Hlt. apply wp_bind, wp_obs, wp_bind, wp_obs.
  destruct (_ && _); [apply wp_ret; done|]. destruct (negb _); [apply wp_ret; done|].
  apply wp_bind, wp_quiet; [auto with hooks|apply HI|]. intros r1 c1 Hg1 Hk1 Hc1.
  destruct (ob_failed r1) eqn:Hf1; [apply wp_ret; by intros ->|].
  destruct (ninv_quiet E role h c c1 HI Hg1 Hk1 Hc1) as [HI1 _].
  apply wp_set_down; [done| |by intros].
  intros c2 Hg2 Hk2 Hc2 _. apply (ninv_apply c1 c2); try done; [by rewrite Hk1..|].
  by rewrite Hk2, Hlt.
Qed.

(** A log that became durable while its callback runs: the history grows by it. *)
Lemma apply_log_spec c :
  NInv E role h c → pending_ok (c_down (kern c)) (c_up (kern c)) [lt] = true →
  c_pending (kern c) = [] → wp (apply_log lt) (inv_post E role (h ++ [lt])) c.
Proof.
  intros HI Hp Hp0. apply wp_bind.
  apply wp_mono with (fun r c'' => r = OB_SUCCESS → NInv E role (h ++ [lt]) c'').
  - set (Q := fun _ _ => _). destruct (pending_cases _ _ _ _ _ HI Hp) as
      [(Hlt & _)|[(Hlt & _)|[(Hlt & _)|(Hlt & _)]]]; rewrite Hlt at 1; unfold Q;
      [by apply apply_prepare_spec|by apply apply_commit_spec
      |by apply apply_abort_spec|by apply apply_clear_spec].
  - intros r c1 Hr. destruct (ob_failed r) eqn:Hf; [apply wp_abort|].
    apply ob_failed_false in Hf. apply wp_ret. by apply Hr.
Qed.
End apply.

(** ** Replay *)

(** A restarted participant replays its logs in order and stops at a failure. *)
Fixpoint replay_all (h : list log) : M (Committer D) Z :=
  match h with
  | [] => ret OB_SUCCESS
  | lt :: h' => chk! replay_log lt else replay_all h'
  end.

(** Both states are [st], nothing else differs from [k]. *)
Definition at_state (k : Core) (st : ObTxState) c : Prop :=
  good c ∧ kern c = with_up st (with_down st k) ∧ coll c = ∅.

Lemma at_state_quiet k st c c' :
  at_state k st c → good c' → kern c' = kern c → coll c' = coll c → at_state k st c'.
Proof. intros (_ & Hk & Hc) Hg Hk' Hc'. split_and!; [done|congruence|congruence]. Qed.

(** What a replayed log leaves behind: the next state, or the durable state of before. *)
Definition replayed (k : Core) (st tgt : ObTxState) (r : Z) c : Prop :=
  (r = OB_SUCCESS → at_state k tgt c) ∧ (r ≠ OB_SUCCESS → c_down (kern c) = st).

Lemma replay_to_spec k st c tgt from :
  at_state k st c → wp (replay_to tgt from) (replayed k st tgt) c.
Proof.
  intros (Hg & Hk & Hc). apply wp_bind, wp_obs. rewrite down_core. fold (kern c). rewrite Hk. simpl.
  destruct (tx_eqb tgt st) eqn:He.
  - apply tx_eqb_true in He as ->. apply wp_bind, wp_set_up; [done|]. intros _ c1 Hg1 Hk1 Hc1.
    apply wp_bind, wp_collected_reset; [done|]. intros c2 Hg2 Hk2 Hc2. apply wp_ret. split; [|done]. intros _.
    split_and!; [done| |done]. by rewrite Hk2, Hk1, Hk.
  - destruct (negb (from st)); [apply wp_ret; split; [done|]; by rewrite Hk|].
    apply wp_bind, wp_set_up; [done|]. intros _ c1 Hg1 Hk1 Hc1.
    apply wp_bind, wp_set_down; [done| |].
    + intros c2 Hg2 Hk2 Hc2. change (ob_failed OB_SUCCESS) with false. cbv iota.
      apply wp_bind, wp_collected_reset; [done|]. intros c3 Hg3 Hk3 Hc3. apply wp_ret. split; [|done]. intros _.
      split_and!; [done| |done]. by rewrite Hk3, Hk2, Hk1, Hk.
    + intros r c2 Hr _ Hk2 _. destruct (ob_failed r) eqn:Hf; [|by apply ob_failed_false in Hf].
      apply wp_ret. split; [done|]. by rewrite Hk2, Hk1, Hk.
Qed.

Lemma replay_clear_spec k st c :
  at_state k st c → wp replay_clear_log (replayed k st CLEAR) c.
Proof.
  intros (Hg & Hk & Hc). apply wp_bind, wp_obs. rewrite down_core. fold (kern c). rewrite Hk. simpl.
  destruct (tx_eqb CLEAR st) eqn:He.
  - apply tx_eqb_true in He as <-. apply wp_bind, wp_set_up; [done|]. intros _ c1 Hg1 Hk1 Hc1.
    apply wp_ret. split; [|done]. intros _. split_and!; [done|by rewrite Hk1, Hk|congruence].
  - destruct (_ && _); [apply wp_ret; split; [done|]; by rewrite Hk|].
    apply wp_bind, wp_set_up; [done|]. intros _ c1 Hg1 Hk1 Hc1.
    apply wp_set_down; [done| |].
    + intros c2 Hg2 Hk2 Hc2. split; [|done]. intros _. split_and!; [done| |congruence]. by rewrite Hk2, Hk1, Hk.
    + intros r c2 Hr _ Hk2 _. split; [done|]. by rewrite Hk2, Hk1, Hk.
Qed.

Lemma replay_log_spec k st c lt :
  at_state k st c → target lt ≠ TX_UNKNOWN → wp (replay_log lt) (replayed k st (target lt)) c.
Proof.
  intros Hst Ht. apply wp_bind, wp_quiet; [auto with hooks|apply Hst|]. intros r c1 Hg1 Hk1 Hc1.
  pose proof (at_state_quiet _ _ _ _ Hst Hg1 Hk1 Hc1) as Hst1.
  destruct (ob_failed r) eqn:Hf.
  { apply wp_ret. split; [by intros ->|]. intros _. by destruct Hst1 as (_ & -> & _). }
  destruct lt; try done; simpl; try (by eapply replay_to_spec). by eapply replay_clear_spec.
Qed.

(** Replay goes through a prefix of the logs, all of them when it succeeds. *)
Lemma replay_all_spec k st c h :
  at_state k st c → Forall (fun lt => target lt ≠ TX_UNKNOWN) h →
  wp (replay_all h) (fun r c' => ∃ h1 h2, h = h1 ++ h2 ∧ c_down (kern c') = foldl (fun _ => target) st h1
    ∧ (r = OB_SUCCESS → h2 = [] ∧ at_state k (foldl (fun _ => target) st h) c')
    ∧ (r ≠ OB_SUCCESS → h2 ≠ [])) c.
Proof.
  intros Hst Hh. revert st c Hst. induction Hh as [|lt h Hlt _ IH]; intros st c Hst; simpl.
  { apply wp_ret. exists [], []. destruct Hst as (? & Hk & ?). split_and!; [done|by rewrite Hk|intros _; by split_and!|done]. }
  apply wp_bind. eapply wp_mono; [by eapply replay_log_spec|]. intros r c1 [Hok Hbad]. simpl.
  destruct (ob_failed r) eqn:Hf.
  - assert (r ≠ OB_SUCCESS) as Hr by (by intros ->). apply wp_ret. exists [], (lt :: h). by split_and!; auto.
  - apply ob_failed_false in Hf. eapply wp_mono; [by apply IH, Hok|]. intros r' c' (h1 & h2 & -> & Hd & HS & HF).
    by exists (lt :: h1), h2.
Qed.

Lemma durable_foldl h :
  durable h ≠ TX_UNKNOWN →
  Forall (fun lt => target lt ≠ TX_UNKNOWN) h ∧ foldl (fun _ => target) INIT h = durable h.
Proof. unfold durable. repeat case_match; try done; intros _; split; try done; by repeat constructor. Qed.

Lemma durable_prefix h1 h2 : durable (h1 ++ h2) ≠ TX_UNKNOWN → durable h1 ≠ TX_UNKNOWN.
Proof.
  remember (h1 ++ h2) as h eqn:E. unfold durable at 1. repeat case_match; try done; intros _ He;
    destruct h1 as [|? [|? [|? [|? ?]]]]; simplify_eq/=; done.
Qed.

(** The transitions of the histories the protocol writes. *)
Definition log_follows (st : ObTxState) (lt : log) : bool :=
  match lt with
  | OB_LOG_TX_PREPARE => tx_eqb st INIT
  | OB_LOG_TX_COMMIT => tx_eqb st PREPARE
  | OB_LOG_TX_ABORT => tx_eqb st INIT || tx_eqb st PREPARE
  | OB_LOG_TX_CLEAR => tx_eqb st COMMIT || tx_eqb st ABORT
  | _ => false
  end.

(** The calls a replay of [h] makes succeed: the merge of participants, the in-memory
    states of the logs of [h], and the durable state of each of these logs, set where the
    log follows the durable state. *)
Record replay_accepted (h : list log) : Prop := {
  merge_accepted d : ok d → ∃ d', merge_intermediate_participants d = Some (OB_SUCCESS, d');
  up_accepted lt d : lt ∈ h → ok d → ∃ r d', set_upstream_state (target lt) d = Some (r, d');
  down_accepted lt d : lt ∈ h → ok d → log_follows (get_downstream_state d) lt = true →
    ∃ d', set_downstream_state (target lt) d = Some (OB_SUCCESS, d')
}.

(** ** Replay succeeds when the calls it makes do *)
Section total.
Context (h0 : list log) (Hacc : replay_accepted h0).

Lemma call_run {A} (m : M D A) c a d' :
  m (derived c) = Some (a, d') → call m c = Some (a, mkCommitter (collected_ c) (self_id_ c) d').
Proof. intros Hm. unfold call. by rewrite Hm. Qed.

Lemma up_run lt c :
  lt ∈ h0 → good c →
  ∃ r c', call (set_upstream_state (target lt)) c = Some (r, c') ∧ good c'
    ∧ get_downstream_state (derived c') = get_downstream_state (derived c).
Proof.
  intros Hin [Hok Hwf]. destruct (up_accepted _ Hacc lt _ Hin Hok) as (r & d' & Hd).
  pose proof (wp_run _ _ _ _ _ (set_up_law (target lt) _ Hok) Hd) as [Hok' Hcore].
  eexists r, _. split; [by apply call_run|]. split; [done|]. rewrite !down_core. simpl. by rewrite Hcore.
Qed.

Lemma down_run lt c :
  lt ∈ h0 → good c → log_follows (get_downstream_state (derived c)) lt = true →
  ∃ c', call (set_downstream_state (target lt)) c = Some (OB_SUCCESS, c').
Proof.
  intros Hin [Hok Hwf] Hf. destruct (down_accepted _ Hacc lt _ Hin Hok Hf) as (d' & Hd).
  eexists _. by apply call_run.
Qed.

Lemma replay_to_total lt from c :
  lt ∈ h0 → good c → log_follows (get_downstream_state (derived c)) lt = true →
  tx_eqb (target lt) (get_downstream_state (derived c)) = false → from (get_downstream_state (derived c)) = true →
  ∃ c', replay_to (target lt) from c = Some (OB_SUCCESS, c').
Proof.
  intros Hin Hg Hf Ht Hst. unfold replay_to. rewrite (bind_run _ _ c _ c eq_refl), Ht, Hst. cbv iota beta delta [negb].
  destruct (up_run lt c Hin Hg) as (r & c1 & Hc1 & Hg1 & Hd1).
  destruct (down_run lt c1 Hin Hg1) as (c2 & Hc2); [by rewrite Hd1|].
  rewrite (bind_run _ _ _ _ _ Hc1), (bind_run _ _ _ _ _ Hc2). eexists; done.
Qed.

Lemma replay_clear_total c :
  OB_LOG_TX_CLEAR ∈ h0 → good c → log_follows (get_downstream_state (derived c)) OB_LOG_TX_CLEAR = true →
  ∃ c', replay_clear_log c = Some (OB_SUCCESS, c').
Proof.
  intros Hin Hg Hf. unfold replay_clear_log. rewrite (bind_run _ _ c _ c eq_refl).
  destruct (up_run OB_LOG_TX_CLEAR c Hin Hg) as (r & c1 & Hc1 & Hg1 & Hd1). simpl in Hc1.
  destruct (down_run OB_LOG_TX_CLEAR c1 Hin Hg1) as (c2 & Hc2); [by rewrite Hd1|]. simpl in Hc2.
  destruct (get_downstream_state (derived c)); try done; simpl; rewrite (bind_run _ _ _ _ _ Hc1); eexists; done.
Qed.

Lemma replay_log_total k st c lt :
  lt ∈ h0 → at_state k st c → log_follows st lt = true → ∃ c', replay_log lt c = Some (OB_SUCCESS, c').
Proof.
  intros Hin (Hg & Hk & Hc) Hf. destruct (merge_accepted _ Hacc _ (proj1 Hg)) as (d' & Hd).
  pose proof (wp_run _ _ _ _ _ (merge_law _ (proj1 Hg)) Hd) as [Hok' Hcore].
  unfold replay_log. rewrite (bind_run _ _ _ _ _ (call_run _ _ _ _ Hd)).
  set (c1 := mkCommitter _ _ _).
  assert (get_downstream_state (derived c1) = st) as Hst.
  { rewrite down_core. simpl. rewrite Hcore. fold (kern c). by rewrite Hk. }
  assert (good c1) as Hg1 by (split; [done|apply Hg]). rewrite <- Hst in Hf. clear Hcore Hd Hk.
  destruct lt; try done;
    destruct st; rewrite Hst in Hf; try done;
    first [ apply (replay_to_total OB_LOG_TX_PREPARE) | apply (replay_to_total OB_LOG_TX_COMMIT)
          | apply (replay_to_total OB_LOG_TX_ABORT) | apply replay_clear_total ]; rewrite ?Hst; done.
Qed.

Lemma replay_all_total k st c h :
  at_state k st c → (∀ lt, lt ∈ h → lt ∈ h0) →
  foldl (fun o lt => match o with
                     | Some s => if log_follows s lt then Some (target lt) else None
                     | None => None end) (Some st) h ≠ None →
  ∃ c', replay_all h c = Some (OB_SUCCESS, c').
Proof.
  revert st c. induction h as [|lt h IH]; intros st c Hst Hsub; simpl; [by eexists|].
  destruct (log_follows st lt) eqn:Hf.
  2: { assert (∀ l : list log, foldl (fun o lt0 => match o with
         | Some s => if log_follows s lt0 then Some (target lt0) else None | None => None end) None l
         = None) as -> by (intros l; induction l; done). done. }
  intros Hh. destruct (replay_log_total k st c lt) as (c1 & Hc1); [apply Hsub; by left|done|done|].
  rewrite (bind_run _ _ _ _ _ Hc1). change (ob_failed OB_SUCCESS) with false. cbv iota.
  apply (IH (target lt)); [|intros x Hx; apply Hsub; by right|done].
  assert (target lt ≠ TX_UNKNOWN) as Ht by (by destruct lt).
  by apply (wp_run _ _ _ _ _ (replay_log_spec _ _ _ _ Hst Ht) Hc1).
Qed.

Lemma replay_durable_total k c :
  at_state k INIT c → durable h0 ≠ TX_UNKNOWN → ∃ c', replay_all h0 c = Some (OB_SUCCESS, c').
Proof.
  intros Hst Hd. apply (replay_all_total k INIT c h0 Hst); [done|].
  unfold durable in Hd. repeat case_match; done.
Qed.
End total.

(** A freshly created participant. *)
Definition booted (E : Env) (role : Ob2PCRole) c : Prop :=
  good c ∧ coll c = ∅ ∧ (role = ROOT ∨ role = LEAF)
  ∧ ∃ sz self, kern c = mkCore INIT INIT [] [] role sz self
     ∧ (role = ROOT → sz = e_size E ∧ self = e_self E).

Lemma restart_spec E role h c :
  HInv E role h → booted E role c →
  wp (replay_all h) (fun r c' => r = OB_SUCCESS → NInv E role h c' ∧ c_sent (kern c') = []) c.
Proof.
  intros [Hkn Hdec Hab Hclr] (Hg & Hc & Hrole & sz & self & Hk & Hconf).
  destruct (durable_foldl h Hkn) as [Hall Hfold].
  eapply wp_mono; [apply (replay_all_spec (kern c) INIT); [|done]|].
  { split_and!; [done| |done]. by rewrite Hk. }
  intros r c1 (h1 & h2 & _ & _ & Hst & _) Hr. destruct (Hst Hr) as (_ & Hg1 & Hk1 & Hc1). rewrite Hfold, Hk in Hk1. simpl in Hk1.
  split; [|by rewrite Hk1]. constructor; rewrite ?Hk1, ?Hc1; simpl; try done.
  - unfold shape; simpl. split_and!; [by left| |done].
    unfold durable in *. by repeat case_match.
  - destruct (durable h) eqn:Ed; simpl; try done.
    + by destruct (durable_range h).
    + apply Hdec. rewrite (durable_commit h Ed). set_solver.
    + apply Hab. destruct (durable_abort h Ed) as [-> | ->]; set_solver.
    + apply Hclr. destruct (durable_clear h Ed) as [-> |[-> | ->]]; set_solver.
Qed.
End log.
