(* ===== verification/TwoPhaseSystem.v ===== *)
(** A transaction of one root and its leaves over an unreliable network: every
    participant runs the committer, messages may be lost, repeated and
    reordered, and a participant may crash at any point, come back from its
    durable logs or be gone for good.  Atomicity of the commit is an invariant of
    every reachable state, and the system refines the abstract transaction
    commit protocol. *)
From stdpp Require Import functions.
From S2P Require Import Prelude BitSet TxDefine TwoPhaseCommitter TwoPhaseLaws TwoPhaseInv TwoPhaseLog.
Import Committer.

(** What the surroundings of a participant do: create it, run the callback of the
    first log in flight, and note the sender of the message being handled. *)
Class Deployment (D : Type) `{CommitterLaws D} : Type := {
  n_size : Z;
  n_root : Z;
  boot : Z → Committer D;
  pop_log : M D unit;
  begin_msg : Z → M D unit;
  end_msg : M D unit;
  root_in : 0 <= n_root < n_size;
  size_fits : n_size <= OB_C2PC_SENDER_ID;
  boot_law i : good (boot i) ∧ coll (boot i) = ∅
    ∧ ∃ sz self,
        kern (boot i) = mkCore INIT INIT [] [] (if i =? n_root then ROOT else LEAF) sz self
        ∧ (i = n_root → sz = n_size ∧ self = n_root);
  pop_law d : ok d → wp pop_log (fun _ d' => ok d' ∧ core d' = with_pending (tail (c_pending (core d))) (core d)) d;
  begin_law i : quiet ok core (begin_msg i);
  end_law : quiet ok core end_msg
}.
#[export] Hint Resolve begin_law end_law : hooks.

Record Packet : Set := mkPacket { p_src : Z; p_dst : Z; p_type : msg }.
#[global] Instance Packet_eq_dec : EqDecision Packet.
Proof. solve_decision. Defined.

(** [ctx] is [None] when the participant has no context: it finished and was
    released, or crashed before its first log. *)
Record Node (D : Type) : Type := mkNode { ctx : option (Committer D); hist : list log }.
Arguments mkNode {D}.
Arguments ctx {D}.
Arguments hist {D}.

Record Sys (D : Type) : Type := mkSys { nodes : Z → Node D; net : list Packet }.
Arguments mkSys {D}.
Arguments nodes {D}.
Arguments net {D}.

Inductive Event : Set :=
  | EvStart                        (* the client asks the root to commit *)
  | EvDeliver (p : Packet)         (* a message on the network reaches its destination *)
  | EvApply (i : Z)                (* the first log in flight of [i] became durable *)
  | EvTimeout (i : Z)
  | EvSelfAbort (i : Z)            (* a leaf gives up before it is prepared *)
  | EvExit (i : Z)                 (* a context whose CLEAR is durable is released *)
  | EvCrash (i : Z) (k : nat).     (* [i] crashes, [k] of the logs in flight are durable *)

Section system.
Context {D : Type} `{Deployment D}.
Implicit Types (c : Committer D) (s : Sys D) (nd : Z → Node D).

Definition role_of (i : Z) : Ob2PCRole := if i =? n_root then ROOT else LEAF.
Definition member (i : Z) : bool := (0 <=? i) && (i <? n_size).

(** Where a posted message goes: the upstream of a leaf is the root. *)
Definition route (dst : Z) : Z :=
  if (dst =? OB_C2PC_UPSTREAM_ID) || (dst =? OB_C2PC_SENDER_ID) then n_root else dst.

Definition packets (i : Z) c : list Packet :=
  map (fun m => mkPacket i (route m.2) m.1) (c_sent (kern c)).

Definition init : Sys D := mkSys (fun i => mkNode (Some (boot i)) []) [].

(** One method run on participant [i], whose durable history becomes [h']. *)
Definition run (s : Sys D) (i : Z) (h' : list log) (m : M (Committer D) Z) c : option (Sys D) :=
  match m c with
  | Some (_, c') => Some (mkSys (<[i := mkNode (Some c') h']> (nodes s)) (net s ++ packets i c'))
  | None => None
  end.

(** The message handler of a participant. *)
Definition handle (p : Packet) : M (Committer D) Z :=
  call (begin_msg (p_src p)) ;;;
  let! r := (if is_2pc_request_msg (p_type p) then handle_2pc_req (p_type p)
             else if is_2pc_response_msg (p_type p) then handle_2pc_resp (p_type p) (p_src p)
             else ret OB_INVALID_ARGUMENT) in
  (call end_msg ;;; ret r).

(** The answer to a message whose destination has no context. *)
Definition orphan_reply (p : Packet) : list Packet :=
  let '(rc, mt, need_ack) :=
    if is_2pc_request_msg (p_type p) then handle_orphan_2pc_req (p_type p) OB_MSG_TX_UNKNOWN false
    else handle_orphan_2pc_resp (p_type p) OB_MSG_TX_UNKNOWN false in
  if negb (ob_failed rc) && need_ack then [mkPacket (p_dst p) (p_src p) mt] else [].

(** A crash keeps the durable logs only; without any the participant is gone. *)
Definition crash (s : Sys D) (i : Z) (h' : list log) : option (Sys D) :=
  match h' with
  | [] => Some (mkSys (<[i := mkNode None []]> (nodes s)) (net s))
  | _ =>
      match replay_all h' (boot i) with
      | Some (r, c') =>
          if ob_failed r then None
          else Some (mkSys (<[i := mkNode (Some c') h']> (nodes s)) (net s))
      | None => None
      end
  end.

Definition idle c : bool :=
  tx_eqb (c_up (kern c)) INIT && tx_eqb (c_down (kern c)) INIT && bool_decide (c_pending (kern c) = []).

Definition step (s : Sys D) (e : Event) : option (Sys D) :=
  let at_node i (k : list log → Committer D → option (Sys D)) :=
    if member i then match ctx (nodes s i) with Some c => k (hist (nodes s i)) c | None => None end
    else None in
  match e with
  | EvStart => at_node n_root (fun h c => run s n_root h two_phase_commit c)
  | EvDeliver p =>
      if bool_decide (p ∈ net s) then
        match ctx (nodes s (p_dst p)) with
        | Some c => run s (p_dst p) (hist (nodes s (p_dst p))) (handle p) c
        | None => Some (mkSys (nodes s) (net s ++ orphan_reply p))
        end
      else None
  | EvApply i =>
      at_node i (fun h c =>
        match c_pending (kern c) with
        | [] => None
        | lt :: _ => run s i (h ++ [lt]) (call pop_log ;;; apply_log lt) c
        end)
  | EvTimeout i => at_node i (fun h c => run s i h handle_timeout c)
  | EvSelfAbort i =>
      at_node i (fun h c =>
        if negb (i =? n_root) && idle c then run s i h self_abort c else None)
  | EvExit i =>
      at_node i (fun h c =>
        if bool_decide (OB_LOG_TX_CLEAR ∈ h)
        then Some (mkSys (<[i := mkNode None h]> (nodes s)) (net s)) else None)
  | EvCrash i k => at_node i (fun h c => crash s i (h ++ take k (c_pending (kern c))))
  end.

Inductive reachable : Sys D → Prop :=
  | reach_init : reachable init
  | reach_step s e s' : reachable s → step s e = Some s' → reachable s'.

Fixpoint run_events (s : Sys D) (es : list Event) : option (Sys D) :=
  match es with
  | [] => Some s
  | e :: es' => match step s e with Some s' => run_events s' es' | None => None end
  end.

Lemma run_events_reachable s es s' : reachable s → run_events s es = Some s' → reachable s'.
Proof.
  revert s. induction es as [|e es IH]; intros s Hs; simpl; [by intros [= <-]|].
  destruct (step s e) as [s1|] eqn:He; [|done]. apply IH. by eapply reach_step.
Qed.

(** ** The facts of a system state *)
Definition in_range (i : Z) : Prop := 0 <= i < n_size.

Definition ab nd : Prop :=
  ∃ i, in_range i ∧ OB_LOG_TX_PREPARE ∉ hist (nd i)
       ∧ (OB_LOG_TX_ABORT ∈ hist (nd i) ∨ ctx (nd i) = None).
Definition dec nd : Prop := ∀ i, in_range i → OB_LOG_TX_PREPARE ∈ hist (nd i).

Definition env nd : Env := {|
  e_leaf i := in_range i ∧ i ≠ n_root;
  e_size := n_size;
  e_self := n_root;
  e_prepared i := OB_LOG_TX_PREPARE ∈ hist (nd i);
  e_committed i := OB_LOG_TX_COMMIT ∈ hist (nd i);
  e_dec := dec nd;
  e_ab := ab nd;
  e_rc := OB_LOG_TX_COMMIT ∈ hist (nd n_root)
|}.

Lemma env_ok nd i : EnvOk (env nd) (role_of i) (hist (nd i)).
Proof.
  pose proof root_in. constructor; simpl; try done.
  - unfold role_of. destruct (Z.eqb_spec i n_root) as [->|]; [|done].
    intros _ Hp Hl j Hj. destruct (decide (j = n_root)) as [->|]; auto.
  - intros Hdec (j & Hj & Hn & _). by apply Hn, Hdec.
Qed.

Lemma role_cases i : role_of i = ROOT ∧ i = n_root ∨ role_of i = LEAF ∧ i ≠ n_root.
Proof. unfold role_of. destruct (Z.eqb_spec i n_root); auto. Qed.

(** ** The invariant *)
Definition pkt_ok nd (p : Packet) : Prop :=
  (p_src p = n_root ∧ e_leaf (env nd) (p_dst p) ∧
   match p_type p with
   | OB_MSG_TX_PREPARE_REQ => True
   | OB_MSG_TX_PRE_COMMIT_REQ | OB_MSG_TX_COMMIT_REQ => dec nd
   | OB_MSG_TX_ABORT_REQ =>
       ab nd ∨ ∀ i, e_leaf (env nd) i → OB_LOG_TX_COMMIT ∈ hist (nd i)
   | OB_MSG_TX_CLEAR_REQ => OB_LOG_TX_COMMIT ∈ hist (nd n_root) ∨ ab nd
   | _ => False
   end)
  ∨
  (p_dst p = n_root ∧ ack_ok (env nd) (hist (nd n_root)) (p_type p) (p_src p)).

Definition node_ok (E : Env) (i : Z) (x : Node D) : Prop :=
  match ctx x with
  | Some c => NInv E (role_of i) (hist x) c
  | None => HInv E (role_of i) (hist x) ∧ (OB_LOG_TX_CLEAR ∈ hist x ∨ hist x = [])
  end.

Definition SInv s : Prop :=
  (∀ i, in_range i → node_ok (env (nodes s)) i (nodes s i)) ∧ Forall (pkt_ok (nodes s)) (net s).

Lemma node_hinv E i x : node_ok E i x → HInv E (role_of i) (hist x).
Proof. unfold node_ok. destruct (ctx x); [apply ninv_hinv|by intros [? _]]. Qed.

Lemma node_ok_mono E E' i x : env_le E E' → node_ok E i x → node_ok E' i x.
Proof.
  intros Hle. unfold node_ok. destruct (ctx x); [by apply ninv_mono|].
  intros [Hh ?]. split; [by eapply hinv_mono|done].
Qed.

Lemma pkt_ok_mono nd nd' p :
  env_le (env nd) (env nd') → hist (nd n_root) ⊆ hist (nd' n_root) → pkt_ok nd p → pkt_ok nd' p.
Proof.
  intros [Hl _ _ Hp Hc Hd Ha Hr] Hroot. simpl in *. unfold pkt_ok, ack_ok; simpl.
  intros [(? & ? & ?)|(? & ? & ?)]; [left|right]; (split; [done|]; split; [done|]).
  - destruct (p_type p); naive_solver.
  - destruct (p_type p); naive_solver.
Qed.

(** ** Updating one participant *)

(** What a step may do to the logs and the context of one participant. *)
Definition grows (x x' : Node D) : Prop :=
  hist x ⊆ hist x'
  ∧ (OB_LOG_TX_PREPARE ∉ hist x → OB_LOG_TX_ABORT ∈ hist x ∨ ctx x = None →
     OB_LOG_TX_PREPARE ∉ hist x' ∧ (OB_LOG_TX_ABORT ∈ hist x' ∨ ctx x' = None)).

Lemma env_update nd i x' : grows (nd i) x' → env_le (env nd) (env (<[i := x']> nd)).
Proof.
  intros [Hh Hg].
  assert (∀ j, hist (nd j) ⊆ hist ((<[i := x']> nd) j)) as Hsub.
  { intros j. destruct (decide (j = i)) as [->|]; [by rewrite fn_lookup_insert|].
    by rewrite fn_lookup_insert_ne by done. }
  constructor; simpl; try done; try (intros; by apply Hsub).
  - intros Hd j Hj. by apply Hsub, Hd.
  - intros (j & Hj & Hn & Hor). exists j. split; [done|]. destruct (decide (j = i)) as [->|].
    + rewrite fn_lookup_insert. by apply Hg.
    + by rewrite fn_lookup_insert_ne by done.
Qed.

Lemma sinv_update s i x' new :
  SInv s → in_range i → grows (nodes s i) x' →
  node_ok (env (<[i := x']> (nodes s))) i x' →
  Forall (pkt_ok (<[i := x']> (nodes s))) new →
  SInv (mkSys (<[i := x']> (nodes s)) (net s ++ new)).
Proof.
  intros [Hn Hnet] Hi Hg Hx Hnew. pose proof (env_update _ _ _ Hg) as Hle. split; simpl.
  - intros j Hj. destruct (decide (j = i)) as [->|]; [by rewrite fn_lookup_insert|].
    rewrite fn_lookup_insert_ne by done. by eapply node_ok_mono, Hn.
  - apply Forall_app_2; [|done]. eapply Forall_impl; [exact Hnet|]. intros p.
    apply pkt_ok_mono; [done|]. destruct (decide (n_root = i)) as [<-|].
    + rewrite fn_lookup_insert. apply Hg.
    + by rewrite fn_lookup_insert_ne by done.
Qed.

(** A logged abort without a preceding prepare is known to all. *)
Lemma abort_known nd i :
  in_range i → HInv (env nd) (role_of i) (hist (nd i)) → OB_LOG_TX_ABORT ∈ hist (nd i) → ab nd.
Proof.
  intros Hi Hh Ha. destruct (decide (OB_LOG_TX_PREPARE ∈ hist (nd i))) as [Hp|Hp].
  - apply (h_ab _ _ _ Hh Ha). by right.
  - exists i. auto.
Qed.

Lemma route_leaf nd dst : e_leaf (env nd) dst → route dst = dst.
Proof.
  intros [Hd _]. pose proof size_fits. unfold in_range, route, OB_C2PC_UPSTREAM_ID, OB_C2PC_SENDER_ID in *.
  destruct (Z.eqb_spec dst (INT64_MAX - 1)); [lia|]. destruct (Z.eqb_spec dst (INT64_MAX - 2)); [lia|done].
Qed.

Lemma route_up dst : dst = OB_C2PC_UPSTREAM_ID ∨ dst = OB_C2PC_SENDER_ID → route dst = n_root.
Proof. by intros [-> | ->]. Qed.

(** The messages a participant posted are right for the network. *)
Lemma packets_ok nd i c :
  in_range i → NInv (env nd) (role_of i) (hist (nd i)) c → Forall (pkt_ok nd) (packets i c).
Proof.
  intros Hi HI. pose proof (n_sent _ _ _ _ HI) as Hs. pose proof (ninv_hinv _ _ _ _ HI) as Hh.
  apply Forall_map. eapply Forall_impl; [exact Hs|]. intros [mt dst]. unfold msg_ok, pkt_ok, ack_ok.
  destruct (role_cases i) as [[Hr Ei]|[Hr Ei]]; rewrite Hr; simpl.
  - intros [Hd Hm]. left. split; [done|]. rewrite (route_leaf nd) by done. split; [done|].
    rewrite Ei in *. destruct mt; auto.
  - intros [Hd Hm]. right. rewrite route_up by done. split; [done|]. split; [done|].
    destruct mt; auto; try done. left. by apply (abort_known nd i).
Qed.

(** ** Steps of a participant *)
Lemma run_sinv s i h' (m : M (Committer D) Z) c s' :
  SInv s → in_range i → ctx (nodes s i) = Some c →
  (∀ c', grows (nodes s i) (mkNode (Some c') h')) →
  (∀ c0, wp m (fun _ c' => NInv (env (<[i := mkNode (Some c0) h']> (nodes s))) (role_of i) h' c') c) →
  run s i h' m c = Some s' → SInv s'.
Proof.
  intros HS Hi Hc Hg Hm. unfold run. destruct (m c) as [[r c']|] eqn:Em; [|done]. intros [= <-].
  pose proof (wp_run _ _ _ _ _ (Hm c') Em) as HI.
  apply sinv_update; try done. apply packets_ok; [done|]. by rewrite fn_lookup_insert.
Qed.

Lemma grows_ctx (x : Node D) c c' : ctx x = Some c → grows x (mkNode (Some c') (hist x)).
Proof. intros Hc. split; simpl; [done|]. rewrite Hc. naive_solver. Qed.

(** A method that keeps the history. *)
Lemma run_same s i (m : M (Committer D) Z) c s' :
  SInv s → in_range i → ctx (nodes s i) = Some c →
  (EnvOk (env (nodes s)) (role_of i) (hist (nodes s i)) →
   NInv (env (nodes s)) (role_of i) (hist (nodes s i)) c →
   wp m (inv_post (env (nodes s)) (role_of i) (hist (nodes s i))) c) →
  run s i (hist (nodes s i)) m c = Some s' → SInv s'.
Proof.
  intros HS Hi Hc Hm. apply run_sinv; try done; [intros c'; by eapply grows_ctx|].
  intros c0. eapply wp_mono; [apply Hm; [apply env_ok|]|].
  - pose proof (proj1 HS i Hi) as Hn. unfold node_ok in Hn. by rewrite Hc in Hn.
  - intros r c'. apply ninv_mono, env_update. by eapply grows_ctx.
Qed.

Lemma handle_spec nd i c p :
  pkt_ok nd p → p_dst p = i → NInv (env nd) (role_of i) (hist (nd i)) c →
  wp (handle p) (inv_post (env nd) (role_of i) (hist (nd i))) c.
Proof.
  intros Hp Hi HI. pose proof (env_ok nd i) as HE. unfold handle.
  eapply (wp_seq (env nd) (role_of i) (hist (nd i))); [apply quiet_spec; auto with hooks|].
  intros _ c1 HI1 _.
  apply wp_bind. apply wp_mono with (inv_post (env nd) (role_of i) (hist (nd i))).
  2: { intros r c2 HI2. apply wp_then_ret, post_inv with same.
       apply quiet_spec; auto with hooks. }
  destruct Hp as [(Hs & Hl & Hm)|(Hd & Hl & Hm)].
  - assert (role_of i = LEAF) as Hr.
    { destruct (role_cases i) as [[_ Ei]|[Hr _]]; [|done]. destruct Hl as [_ Hne]. by rewrite Hi in Hne. }
    destruct (p_type p) eqn:Et; try done; cbv beta iota delta [is_2pc_request_msg];
      apply leaf_req_spec; try done.
    destruct Hm as [Hm|Hm]; [by left|right]. rewrite <- Hi. by apply Hm.
  - assert (role_of i = ROOT ∧ i = n_root) as [Hr Ei].
    { destruct (role_cases i) as [|[_ Hne]]; [done|congruence]. }
    assert (ack_ok (env nd) (hist (nd i)) (p_type p) (p_src p)) as Hack by (rewrite Ei; done).
    destruct (p_type p) eqn:Et; try done;
      cbv beta iota delta [is_2pc_request_msg is_2pc_response_msg]; by apply root_resp_spec.
Qed.

Lemma deliver_sinv s p c s' :
  SInv s → p ∈ net s → ctx (nodes s (p_dst p)) = Some c →
  run s (p_dst p) (hist (nodes s (p_dst p))) (handle p) c = Some s' → SInv s'.
Proof.
  intros HS Hp Hc. pose proof (proj1 (Forall_forall _ _) (proj2 HS) p Hp) as Hok.
  apply run_same; try done.
  - destruct Hok as [(_ & [? _] & _)|(Hd & _)]; [done|]. rewrite Hd. apply root_in.
  - intros _ HI. by apply handle_spec.
Qed.

(** The history of a participant that answers as an orphan. *)
Lemma gone_cases nd i :
  in_range i → ctx (nd i) = None → node_ok (env nd) i (nd i) →
  ab nd ∨ OB_LOG_TX_COMMIT ∈ hist (nd i) ∧ clear_ok (env nd) (role_of i) (hist (nd i)).
Proof.
  intros Hi Hc. unfold node_ok. rewrite Hc. intros [Hh [Hcl|Hnil]].
  2: { left. exists i. rewrite Hnil. split; [done|]. split; [set_solver|by right]. }
  destruct (decide (OB_LOG_TX_ABORT ∈ hist (nd i))) as [Ha|Ha]; [left; by eapply abort_known|].
  right. split; [|by apply Hh].
  pose proof (durable_cleared _ (h_known _ _ _ Hh) Hcl) as Hd.
  destruct (durable_clear _ Hd) as [E|[E|E]]; rewrite E in *; set_solver.
Qed.

Lemma orphan_ok s p :
  SInv s → pkt_ok (nodes s) p → ctx (nodes s (p_dst p)) = None →
  Forall (pkt_ok (nodes s)) (orphan_reply p).
Proof.
  intros HS Hp Hc.
  assert (in_range (p_dst p)) as Hi.
  { destruct Hp as [(_ & [? _] & _)|(Hd & _)]; [done|]. rewrite Hd. apply root_in. }
  pose proof (gone_cases _ _ Hi Hc (proj1 HS _ Hi)) as Hg. unfold orphan_reply.
  destruct Hp as [(Hs & Hl & Hm)|(Hd & Hl & Hm)].
  - assert (ab (nodes s) ∨ OB_LOG_TX_COMMIT ∈ hist (nodes s n_root)
            ∧ OB_LOG_TX_COMMIT ∈ hist (nodes s (p_dst p))) as Hg'.
    { destruct Hg as [|[Hcm Hcl]]; [by left|right]. split; [|done].
      apply Hcl; [done|]. destruct (role_cases (p_dst p)) as [[_ Ei]|[Hr _]]; [|done]. by destruct Hl. }
    destruct (p_type p); try done; try (by constructor); apply Forall_singleton; right; simpl; (split; [done|]);
      (split; [done|]); done.
  - assert (ab (nodes s) ∨ OB_LOG_TX_COMMIT ∈ hist (nodes s n_root)
            ∧ ∀ i, e_leaf (env (nodes s)) i → OB_LOG_TX_COMMIT ∈ hist (nodes s i)) as Hg'.
    { rewrite Hd in Hg. destruct Hg as [|[Hcm Hcl]]; [by left|right]. split; [done|].
      apply Hcl; [done|]. destruct (role_cases n_root) as [[? _]|[_ Hne]]; [done|done]. }
    destruct (p_type p); try done; try (by constructor); apply Forall_singleton; left; simpl; (split; [done|]);
      (split; [done|]); tauto.
Qed.

(** ** Durable logs, crashes and exits *)
Lemma pending_head i c lt l s :
  SInv s → in_range i → ctx (nodes s i) = Some c → c_pending (kern c) = lt :: l →
  l = [] ∧ pending_ok (c_down (kern c)) (c_up (kern c)) [lt] = true.
Proof.
  intros HS Hi Hc Hp. pose proof (proj1 HS i Hi) as Hn. unfold node_ok in Hn. rewrite Hc in Hn.
  destruct (n_shape _ _ _ _ Hn) as (_ & _ & Hok). rewrite Hp in Hok.
  destruct lt, l; try done.
Qed.

(** Making the log in flight durable keeps what was known. *)
Lemma grows_log s i c lt x' :
  SInv s → in_range i → ctx (nodes s i) = Some c →
  pending_ok (c_down (kern c)) (c_up (kern c)) [lt] = true →
  hist x' = hist (nodes s i) ++ [lt] → grows (nodes s i) x'.
Proof.
  intros HS Hi Hc Hp Hx. pose proof (proj1 HS i Hi) as Hn. unfold node_ok in Hn. rewrite Hc in Hn.
  split; rewrite Hx; [set_solver|]. rewrite Hc. intros HnP [Ha|?]; [|done].
  destruct (pending_cases _ _ _ _ _ Hn Hp) as [(_ & _ & Eh)|[(_ & _ & Eh)|[(_ & _ & Eh)|(-> & _ & _)]]].
  - rewrite Eh in Ha. set_solver.
  - rewrite Eh in Ha. set_solver.
  - destruct Eh as [Eh|Eh]; rewrite Eh in Ha; set_solver.
  - split; [set_solver|]. left. set_solver.
Qed.

Lemma apply_sinv s i c lt l s' :
  SInv s → in_range i → ctx (nodes s i) = Some c → c_pending (kern c) = lt :: l →
  run s i (hist (nodes s i) ++ [lt]) (call pop_log ;;; apply_log lt) c = Some s' → SInv s'.
Proof.
  intros HS Hi Hc Hpd. destruct (pending_head _ _ _ _ _ HS Hi Hc Hpd) as [-> Hok].
  apply run_sinv; try done; [intros c'; by eapply grows_log|].
  intros c0. set (nd' := <[i := _]> (nodes s)).
  assert (env_le (env (nodes s)) (env nd')) as Hle by (apply env_update; by eapply grows_log).
  assert (EnvOk (env nd') (role_of i) (hist (nodes s i) ++ [lt])) as HE.
  { pose proof (env_ok nd' i) as HE. unfold nd' in HE at 2. by rewrite fn_lookup_insert in HE. }
  pose proof (proj1 HS i Hi) as Hn. unfold node_ok in Hn. rewrite Hc in Hn.
  apply (ninv_mono _ _ _ _ _ Hle) in Hn.
  apply wp_bind. eapply wp_call; [apply pop_law, Hn|]. intros _ d' [Hd' Hk'].
  set (c1 := mkCommitter _ _ d'). fold (kern c) in Hk'. rewrite Hpd in Hk'. simpl in Hk'.
  assert (kern c1 = with_pending [] (kern c)) as Hk1 by done.
  apply apply_log_spec; [done| |by rewrite Hk1|by rewrite Hk1].
  destruct Hn as [[_ Hwf] n2 n3 n4 n5 n6 n7 n8 n9 n10]. constructor; rewrite ?Hk1; try done.
  destruct n4 as (n41 & n42 & _). done.
Qed.

Lemma boot_booted nd i : booted (env nd) (role_of i) (boot i).
Proof.
  destruct (boot_law i) as (Hg & Hc & sz & self & Hk & Hconf). split_and!; [done|done| |].
  - destruct (role_cases i) as [[-> _]|[-> _]]; auto.
  - exists sz, self. split; [done|]. intros Hr. apply Hconf.
    destruct (role_cases i) as [[_ ->]|[Hr' _]]; [done|congruence].
Qed.

(** Restarting from a history the invariant allows. *)
Lemma crash_sinv s i h' s' :
  SInv s → in_range i → (∀ x', hist x' = h' → (h' = [] → ctx x' = None) → grows (nodes s i) x') →
  HInv (env (nodes s)) (role_of i) h' → crash s i h' = Some s' → SInv s'.
Proof.
  intros HS Hi Hg Hh. unfold crash. destruct h' as [|lt h'].
  - intros [= <-]. rewrite <- (app_nil_r (net s)).
    apply sinv_update; try done; [by apply Hg|]. split; [|by right]. simpl.
    eapply hinv_mono; [by apply env_update, Hg|done].
  - destruct (replay_all (lt :: h') (boot i)) as [[r c']|] eqn:Er; [|done].
    destruct (ob_failed r) eqn:Hf; [done|]. apply ob_failed_false in Hf. intros [= <-].
    rewrite <- (app_nil_r (net s)). apply sinv_update; try done; [by apply Hg|]. unfold node_ok; simpl.
    assert (env_le (env (nodes s)) (env (<[i := mkNode (Some c') (lt :: h')]> (nodes s)))) as Hle
      by (by apply env_update, Hg).
    pose proof (restart_spec _ _ _ (boot i) (hinv_mono _ _ _ _ Hle Hh) (boot_booted _ i)) as Hw.
    by apply (wp_run _ _ _ _ _ Hw Er).
Qed.

Lemma crash_event_sinv s i k c s' :
  SInv s → in_range i → ctx (nodes s i) = Some c →
  crash s i (hist (nodes s i) ++ take k (c_pending (kern c))) = Some s' → SInv s'.
Proof.
  intros HS Hi Hc. pose proof (proj1 HS i Hi) as Hn. unfold node_ok in Hn. rewrite Hc in Hn.
  destruct (c_pending (kern c)) as [|lt l] eqn:Hp; [|destruct k as [|k]].
  1,2: rewrite ?take_nil, ?take_0, app_nil_r; apply crash_sinv; [done|done| |by eapply ninv_hinv].
  1,2: intros x' Hx Hnil; split; rewrite Hx; [done|]; rewrite Hc; intros HnP [?|?]; [|done]; auto.
  destruct (pending_head _ _ _ _ _ HS Hi Hc Hp) as [-> Hok].
  simpl. rewrite take_nil. apply crash_sinv; [done|done| |].
  - intros x' Hx _. by eapply grows_log.
  - by eapply hinv_apply.
Qed.

Lemma exit_sinv s i c :
  SInv s → in_range i → ctx (nodes s i) = Some c → OB_LOG_TX_CLEAR ∈ hist (nodes s i) →
  SInv (mkSys (<[i := mkNode None (hist (nodes s i))]> (nodes s)) (net s)).
Proof.
  intros HS Hi Hc Hcl. rewrite <- (app_nil_r (net s)).
  assert (grows (nodes s i) (mkNode None (hist (nodes s i)))) as Hg by (split; auto).
  apply sinv_update; try done. split; [|by left]. simpl.
  eapply hinv_mono; [by apply env_update|]. eapply node_hinv. by apply HS.
Qed.

(** ** The invariant holds of every reachable state *)
Lemma init_sinv : SInv init.
Proof.
  split; [|constructor]. intros i Hi. unfold node_ok; simpl.
  assert (HInv (env (nodes init)) (role_of i) []) as Hh by (constructor; simpl; set_solver).
  pose proof (restart_spec _ _ _ (boot i) Hh (boot_booted _ i)) as Hw. by apply Hw.
Qed.

Lemma member_range i : member i = true → in_range i.
Proof. unfold member, in_range. intros. bool_to_prop. lia. Qed.

Lemma step_sinv s e s' : SInv s → step s e = Some s' → SInv s'.
Proof.
  intros HS. destruct e as [|p|i|i|i|i|i k]; simpl;
    try (destruct (member _) eqn:Hm; [|done]; apply member_range in Hm;
         destruct (ctx (nodes s _)) as [c|] eqn:Hc; [|done]).
  - apply run_same; try done. intros HE HI. apply root_start_spec; try done.
    by destruct (role_cases n_root) as [[? _]|[_ ?]].
  - case_bool_decide as Hp; [|done]. destruct (ctx (nodes s (p_dst p))) as [c|] eqn:Hc.
    + by apply deliver_sinv.
    + intros [= <-]. split; [apply HS|]. apply Forall_app_2; [apply HS|].
      apply (orphan_ok s); try done. by apply (proj1 (Forall_forall _ _) (proj2 HS)).
  - destruct (c_pending (kern c)) as [|lt l] eqn:Hp; [done|]. by eapply apply_sinv.
  - apply run_same; try done. intros HE HI. by apply timeout_spec.
  - destruct (negb _ && _) eqn:Hb; [|done]. unfold idle in Hb. bool_to_prop.
    rewrite ?tx_eqb_true, ?bool_decide_eq_true in *.
    apply run_same; try done. intros HE HI. apply self_abort_spec; try done.
    by destruct (role_cases i) as [[_ ?]|[? _]].
  - case_bool_decide; [|done]. intros [= <-]. by eapply exit_sinv.
  - by apply crash_event_sinv.
Qed.

Lemma reachable_sinv s : reachable s → SInv s.
Proof. induction 1; [apply init_sinv|by eapply step_sinv]. Qed.
End system.
