(* ===== verification/TwoPhaseMock.v ===== *)
(** [MockOb2pcCtx] of [unittest/storage/tx/ob_mock_2pc_ctx.cpp], the
    implementation of the committer's virtual methods that the repository tests
    it with: it satisfies the contract of the committer, so everything proved of
    the system holds of it.  A transaction of three participants is run on it.
    [Plain] is the smallest object that meets the contract: the protocol core
    itself, with hooks that never fail. *)
From S2P Require Import Prelude BitSet TxDefine TwoPhaseCommitter TwoPhaseLaws TwoPhaseInv TwoPhaseLog TwoPhaseSystem.
Import Committer.

Module Mock.
(** [sent_] records the mails given to [mailbox_mgr_->send]: message type,
    participant id asked for, address. *)
Record MockOb2pcCtx : Type := mkMock {
  addr_ : Z;
  upstream_state_ : ObTxState;
  downstream_state_ : ObTxState;
  tx_state_ : ObTxState;
  log_queue_ : list log;
  coordinator_ : Z;
  sender_ : Z;
  participants_ : list Z;
  intermediate_participants_ : list Z;
  sent_ : list (msg * Z * Z)
}.

Implicit Type d : MockOb2pcCtx.

Definition set_up st d : MockOb2pcCtx :=
  mkMock (addr_ d) st (downstream_state_ d) (tx_state_ d) (log_queue_ d) (coordinator_ d)
    (sender_ d) (participants_ d) (intermediate_participants_ d) (sent_ d).
Definition set_down st tx d : MockOb2pcCtx :=
  mkMock (addr_ d) (upstream_state_ d) st tx (log_queue_ d) (coordinator_ d)
    (sender_ d) (participants_ d) (intermediate_participants_ d) (sent_ d).
Definition set_queue q d : MockOb2pcCtx :=
  mkMock (addr_ d) (upstream_state_ d) (downstream_state_ d) (tx_state_ d) q (coordinator_ d)
    (sender_ d) (participants_ d) (intermediate_participants_ d) (sent_ d).
Definition set_sender i d : MockOb2pcCtx :=
  mkMock (addr_ d) (upstream_state_ d) (downstream_state_ d) (tx_state_ d) (log_queue_ d)
    (coordinator_ d) i (participants_ d) (intermediate_participants_ d) (sent_ d).
Definition set_sent l d : MockOb2pcCtx :=
  mkMock (addr_ d) (upstream_state_ d) (downstream_state_ d) (tx_state_ d) (log_queue_ d)
    (coordinator_ d) (sender_ d) (participants_ d) (intermediate_participants_ d) l.
Definition set_participants p i d : MockOb2pcCtx :=
  mkMock (addr_ d) (upstream_state_ d) (downstream_state_ d) (tx_state_ d) (log_queue_ d)
    (coordinator_ d) (sender_ d) p i (sent_ d).

Definition get_2pc_role d : Ob2PCRole :=
  if coordinator_ d =? -1 then ROLE_UNKNOWN
  else if addr_ d =? coordinator_ d then ROOT
  else match participants_ d with [] => LEAF | _ => INTERNAL end.

Fixpoint find_participant_id_from (i key : Z) (l : list Z) : Z :=
  match l with
  | [] => -1
  | p :: l' => if p =? key then i else find_participant_id_from (i + 1) key l'
  end.
Definition find_participant_id key d : Z := find_participant_id_from 0 key (participants_ d).

(** Where a message for [participant] goes; an index outside [participants_] is
    undefined behaviour and ends the run. *)
Definition post_address (participant : Z) d : option Z :=
  if participant =? OB_C2PC_UPSTREAM_ID then Some (coordinator_ d)
  else if participant =? OB_C2PC_SENDER_ID then
    Some (if negb (-1 =? sender_ d) then sender_ d
          else if negb (-1 =? coordinator_ d) then coordinator_ d else -1)
  else if 0 <=? participant then participants_ d !! Z.to_nat participant else None.

Definition post_msg (msg_type : msg) (participant : Z) : M MockOb2pcCtx Z := fun d =>
  match post_address participant d with
  | None => None
  | Some to =>
      if (-1 =? to) && (participant =? OB_C2PC_UPSTREAM_ID)
         && bool_decide (msg_type = OB_MSG_TX_ABORT_RESP) then Some (OB_SUCCESS, d)
      else if (-1 =? to) && (participant =? OB_C2PC_UPSTREAM_ID) then Some (OB_INVALID_ARGUMENT, d)
      else if (-1 =? to) && (participant =? OB_C2PC_SENDER_ID) then Some (OB_SUCCESS, d)
      else if negb (addr_ d =? to)
      then Some (OB_SUCCESS, set_sent (sent_ d ++ [(msg_type, participant, to)]) d)
      else Some (OB_SUCCESS, d)
  end.

Definition submit_log (log_type : log) : M MockOb2pcCtx Z := fun d =>
  Some (OB_SUCCESS, set_queue (log_queue_ d ++ [log_type]) d).

(** The transitions the mock accepts; any other one aborts the process. *)
Definition down_allowed (new_state old : ObTxState) : bool :=
  match new_state with
  | PREPARE => tx_eqb INIT old || tx_eqb PREPARE old
  | PRE_COMMIT => tx_eqb PREPARE old || tx_eqb PRE_COMMIT old
  | COMMIT => tx_eqb PRE_COMMIT old || tx_eqb COMMIT old
  | ABORT => tx_eqb INIT old || tx_eqb PREPARE old || tx_eqb ABORT old
  | CLEAR => tx_eqb COMMIT old || tx_eqb ABORT old
  | _ => false
  end.

Definition set_downstream_state (new_state : ObTxState) : M MockOb2pcCtx Z := fun d =>
  if down_allowed new_state (downstream_state_ d) then
    let tx := if tx_eqb new_state COMMIT || tx_eqb new_state ABORT then new_state else tx_state_ d in
    Some (OB_SUCCESS, set_down new_state tx d)
  else None.

Definition set_upstream_state (state : ObTxState) : M MockOb2pcCtx Z := fun d =>
  Some (OB_SUCCESS, set_up state d).

(** The participants learnt from a transfer are appended once each. *)
Definition merge_intermediate_participants : M MockOb2pcCtx Z := fun d =>
  let merged := foldl (fun ps i => if bool_decide (i ∈ ps) then ps else ps ++ [i])
                  (participants_ d) (intermediate_participants_ d) in
  Some (OB_SUCCESS, set_participants merged [] d).

Definition add_intermediate_participants (ls_id : Z) d : MockOb2pcCtx :=
  if bool_decide (ls_id ∈ intermediate_participants_ d) then d
  else set_participants (participants_ d) (intermediate_participants_ d ++ [ls_id]) d.

Definition is_real_upstream d : bool :=
  if -1 =? sender_ d then true else sender_ d =? coordinator_ d.

(** [check_status_valid], the final check of the unit tests. *)
Definition check_status_valid (should_commit : bool) d : bool :=
  tx_eqb (if should_commit then COMMIT else ABORT) (tx_state_ d)
  && tx_eqb CLEAR (downstream_state_ d).

#[global] Instance mock_hooks : CommitterHooks MockOb2pcCtx := {
  do_prepare := ret (OB_SUCCESS, false);
  do_pre_commit := ret (OB_SUCCESS, false);
  do_commit := ret OB_SUCCESS;
  do_abort := ret OB_SUCCESS;
  do_clear := ret OB_SUCCESS;
  on_prepare := ret OB_SUCCESS;
  on_commit := ret OB_SUCCESS;
  on_abort := ret OB_SUCCESS;
  on_clear := ret OB_SUCCESS;
  get_downstream_size d := Z.of_nat (length (participants_ d));
  get_self_id d := find_participant_id (addr_ d) d;
  TwoPhaseCommitter.get_2pc_role := get_2pc_role;
  is_2pc_logging d := bool_decide (log_queue_ d ≠ []);
  is_2pc_blocking _ := false;
  get_downstream_state := downstream_state_;
  TwoPhaseCommitter.set_downstream_state := set_downstream_state;
  get_upstream_state := upstream_state_;
  TwoPhaseCommitter.set_upstream_state := set_upstream_state;
  TwoPhaseCommitter.submit_log := submit_log;
  TwoPhaseCommitter.post_msg := post_msg;
  is_sub2pc _ := false;
  is_dup_tx _ := false;
  TwoPhaseCommitter.merge_intermediate_participants := merge_intermediate_participants;
  TwoPhaseCommitter.is_real_upstream := is_real_upstream;
  apply_2pc_msg_ _ := ret OB_SUCCESS;
  alloc_word _ _ := true;
  handle_2pc_prepare_redo_request := ret OB_NOT_SUPPORTED;
  handle_2pc_prepare_redo_response _ := ret OB_NOT_SUPPORTED;
  apply_commit_info_log := ret OB_NOT_SUPPORTED
}.

Definition mock_core d : Core :=
  mkCore (upstream_state_ d) (downstream_state_ d) (log_queue_ d)
    (map fst (sent_ d)) (get_2pc_role d) (Z.of_nat (length (participants_ d)))
    (find_participant_id (addr_ d) d).

(** No transfer is under way. *)
Definition mock_ok d : Prop := intermediate_participants_ d = [].

Lemma quiet_ret {A} (a : A) : quiet mock_ok mock_core (ret a).
Proof. intros d Hd. by apply wp_ret. Qed.

#[global, refine] Instance mock_laws : CommitterLaws MockOb2pcCtx := {
  core := mock_core; ok := mock_ok
}.
Proof.
  all: try done; try (intros; apply quiet_ret).
  - intros st d Hd. unfold wp; simpl. unfold set_downstream_state.
    destruct (down_allowed _ _); [|done]. split; [done|]. by left.
  - intros lt d Hd. split; [done|]. by left.
  - intros mt i d Hd. unfold wp; simpl. unfold post_msg.
    destruct (post_address i d) as [to|]; [|done].
    do 3 (destruct (_ && _); [split; [done|by right]|]). destruct (negb _); (split; [done|]); [|by right].
    left. unfold mock_core, with_sent; simpl. by rewrite map_app.
  - intros d Hd. unfold wp; simpl. unfold mock_ok in Hd. rewrite Hd. split; [done|].
    unfold mock_core; simpl. unfold get_2pc_role, find_participant_id; simpl. done.
Defined.

(** ** A deployment: the root and its leaves know each other *)
Section deploy.
Context (n r : Z) (Hr : 0 <= r < n) (Hn : n <= OB_C2PC_SENDER_ID).

(** [init] followed by what [commit] sets on the root and the first request on a leaf. *)
Definition mock_boot (i : Z) : Committer MockOb2pcCtx :=
  mkCommitter [] (-1)
    (mkMock i INIT INIT INIT [] r (-1) (if i =? r then seqZ 0 n else []) [] []).

Lemma find_seqZ k a m i : k <= i → i < a + m → a = k → find_participant_id_from k i (seqZ a m) = i.
Proof.
  intros Hk Hi ->. revert k Hk Hi. induction (Z.to_nat m) as [|x IH] eqn:Ex in m |- *; intros k Hk Hi.
  { lia. }
  rewrite seqZ_cons by lia. simpl. destruct (Z.eqb_spec k i) as [->|]; [done|].
  rewrite <- Z.add_1_r. apply IH; lia.
Qed.

#[global, refine] Instance mock_deployment : Deployment MockOb2pcCtx := {
  n_size := n; n_root := r; boot := mock_boot;
  pop_log := modify (fun d => set_queue (tail (log_queue_ d)) d);
  begin_msg i := modify (set_sender i);
  end_msg := modify (set_sender (-1))
}.
Proof.
  all: try done.
  - intros i. split; [split; [done|constructor]|]. split; [apply BitSet.members_empty|].
    eexists _, _. split.
    + unfold kern; simpl. unfold mock_core; simpl. f_equal; try reflexivity.
      unfold get_2pc_role; simpl. destruct (Z.eqb_spec r (-1)); [lia|].
      by destruct (Z.eqb_spec i r).
    + intros ->. unfold find_participant_id; simpl. rewrite Z.eqb_refl, length_seqZ.
      split; [lia|]. apply find_seqZ; lia.
Defined.
End deploy.

(** ** A run of three participants *)
Definition three : Deployment MockOb2pcCtx.
Proof. refine (mock_deployment 3 0 _ _); [lia|by vm_compute]. Defined.
#[global] Existing Instance three.

Definition req (i : Z) mt : Event := EvDeliver (mkPacket 0 i mt).
Definition resp (i : Z) mt : Event := EvDeliver (mkPacket i 0 mt).

Definition commit_events : list Event := [
  EvStart; EvApply 0; req 1 OB_MSG_TX_PREPARE_REQ; req 2 OB_MSG_TX_PREPARE_REQ;
  EvApply 1; EvApply 2; resp 1 OB_MSG_TX_PREPARE_RESP; resp 2 OB_MSG_TX_PREPARE_RESP;
  req 1 OB_MSG_TX_PRE_COMMIT_REQ; req 2 OB_MSG_TX_PRE_COMMIT_REQ;
  resp 1 OB_MSG_TX_PRE_COMMIT_RESP; resp 2 OB_MSG_TX_PRE_COMMIT_RESP; EvApply 0;
  req 1 OB_MSG_TX_COMMIT_REQ; req 2 OB_MSG_TX_COMMIT_REQ; EvApply 1; EvApply 2;
  resp 1 OB_MSG_TX_COMMIT_RESP; resp 2 OB_MSG_TX_COMMIT_RESP; EvApply 0;
  req 1 OB_MSG_TX_CLEAR_REQ; req 2 OB_MSG_TX_CLEAR_REQ; EvApply 1; EvApply 2 ].

Definition final (es : list Event) : Sys MockOb2pcCtx :=
  default init (run_events init es).

Lemma mock_final_reachable es : reachable (final es).
Proof.
  unfold final. destruct (run_events init es) eqn:E; simpl; [|constructor].
  by eapply run_events_reachable; [constructor|].
Qed.

Example commit_run :
  map (fun i => hist (nodes (final commit_events) i)) [0; 1; 2]
  = replicate 3 [OB_LOG_TX_PREPARE; OB_LOG_TX_COMMIT; OB_LOG_TX_CLEAR].
Proof. vm_compute. reflexivity. Qed.
End Mock.

Module Plain.
#[global] Instance plain_hooks : CommitterHooks Core := {
  do_prepare := ret (OB_SUCCESS, false);
  do_pre_commit := ret (OB_SUCCESS, false);
  do_commit := ret OB_SUCCESS;
  do_abort := ret OB_SUCCESS;
  do_clear := ret OB_SUCCESS;
  on_prepare := ret OB_SUCCESS;
  on_commit := ret OB_SUCCESS;
  on_abort := ret OB_SUCCESS;
  on_clear := ret OB_SUCCESS;
  get_downstream_size := c_size;
  get_self_id := c_self;
  get_2pc_role := c_role;
  is_2pc_logging d := bool_decide (c_pending d ≠ []);
  is_2pc_blocking _ := false;
  get_downstream_state := c_down;
  set_downstream_state st d := Some (OB_SUCCESS, with_down st d);
  get_upstream_state := c_up;
  set_upstream_state st d := Some (OB_SUCCESS, with_up st d);
  submit_log lt d := Some (OB_SUCCESS, with_pending (c_pending d ++ [lt]) d);
  post_msg mt i d := Some (OB_SUCCESS, with_sent (c_sent d ++ [(mt, i)]) d);
  is_sub2pc _ := false;
  is_dup_tx _ := false;
  merge_intermediate_participants := ret OB_SUCCESS;
  is_real_upstream _ := true;
  apply_2pc_msg_ _ := ret OB_SUCCESS;
  alloc_word _ _ := true;
  handle_2pc_prepare_redo_request := ret OB_NOT_SUPPORTED;
  handle_2pc_prepare_redo_response _ := ret OB_NOT_SUPPORTED;
  apply_commit_info_log := ret OB_NOT_SUPPORTED
}.

#[global, refine] Instance plain_laws : CommitterLaws Core := { core d := d; ok _ := True }.
Proof.
  all: try done; try (intros; intros d ?; by apply wp_ret).
  - intros st d _. split; [done|]. by left.
  - intros lt d _. split; [done|]. by left.
  - intros mt i d _. split; [done|]. by left.
Defined.

(** A root with two leaves. *)
#[global, refine] Instance plain_three : Deployment Core := {
  n_size := 3; n_root := 0;
  boot i := mkCommitter [] (-1) (mkCore INIT INIT [] [] (if i =? 0 then ROOT else LEAF) 3 i);
  pop_log := modify (fun d => with_pending (tail (c_pending d)) d);
  begin_msg _ := ret tt;
  end_msg := ret tt
}.
Proof.
  all: try done; try (intros; intros d ?; by apply wp_ret).
  intros i. split; [split; [done|constructor]|]. split; [apply BitSet.members_empty|].
  eexists _, _. split; [done|]. by intros ->.
Defined.

(** The leaf 1 crashes after it voted, comes back from its log and commits. *)
Definition crash_events : list Event := [
  EvStart; EvApply 0; Mock.req 1 OB_MSG_TX_PREPARE_REQ; Mock.req 2 OB_MSG_TX_PREPARE_REQ;
  EvCrash 1 1; EvTimeout 1; EvApply 2;
  Mock.resp 1 OB_MSG_TX_PREPARE_RESP; Mock.resp 2 OB_MSG_TX_PREPARE_RESP;
  Mock.req 1 OB_MSG_TX_PRE_COMMIT_REQ; Mock.req 2 OB_MSG_TX_PRE_COMMIT_REQ;
  Mock.resp 1 OB_MSG_TX_PRE_COMMIT_RESP; Mock.resp 2 OB_MSG_TX_PRE_COMMIT_RESP;
  EvApply 0; EvCrash 1 0; Mock.req 1 OB_MSG_TX_COMMIT_REQ; EvApply 1 ].

Definition final (es : list Event) : Sys Core := default init (run_events init es).

Lemma plain_final_reachable es : reachable (final es).
Proof.
  unfold final. destruct (run_events init es) eqn:E; simpl; [|constructor].
  by eapply run_events_reachable; [constructor|].
Qed.

Example crash_run :
  map (fun i => hist (nodes (final crash_events) i)) [0; 1; 2]
  = [[OB_LOG_TX_PREPARE; OB_LOG_TX_COMMIT]; [OB_LOG_TX_PREPARE; OB_LOG_TX_COMMIT];
     [OB_LOG_TX_PREPARE]].
Proof. vm_compute. reflexivity. Qed.
End Plain.
