(* ===== verification/TwoPhaseDrive.v ===== *)
(** The drive of a phase, [drive_self_2pc_phase]: it always returns, a failure
    changes nothing (the failure atomicity the comments of
    [src/storage/tx/ob_two_phase_committer.h] ask for), and a success moves the
    in-memory state to the phase, forgets the answers of the phase before and
    queues at most the one log of the phase. *)
From S2P Require Import Prelude BitSet TxDefine TwoPhaseCommitter TwoPhaseLaws TwoPhaseMock.
Import Committer.


(** A call that returns and keeps its law. *)
Definition returns {D A} (ok : D → Prop) (m : M D A) : Prop := ∀ d, ok d → is_Some (m d).

(** The virtual methods a drive calls return (they do not kill the process). *)
Class DriveTotal (D : Type) `{CommitterLaws D} : Prop := {
  do_prepare_total : returns ok do_prepare;
  do_pre_commit_total : returns ok do_pre_commit;
  do_commit_total : returns ok do_commit;
  do_abort_total : returns ok do_abort;
  do_clear_total : returns ok do_clear;
  merge_returns : returns ok merge_intermediate_participants;
  set_up_total st : returns ok (set_upstream_state st);
  submit_total lt : returns ok (submit_log lt)
}.
#[export] Hint Resolve do_prepare_total do_pre_commit_total do_commit_total do_abort_total
  do_clear_total merge_returns set_up_total submit_total : hooks.

(** The log of an in-memory state that is ahead of the durable one. *)
Definition phase_log (up down : ObTxState) : option ObTwoPhaseCommitLogType :=
  if tx_gtb up down then
    match up with
    | REDO_COMPLETE => Some OB_LOG_TX_COMMIT_INFO
    | PREPARE => Some OB_LOG_TX_PREPARE
    | COMMIT => if tx_eqb PREPARE down || tx_eqb PRE_COMMIT down then Some OB_LOG_TX_COMMIT else None
    | ABORT => if tx_eqb COMMIT down then None else Some OB_LOG_TX_ABORT
    | CLEAR => if tx_eqb COMMIT down || tx_eqb ABORT down then Some OB_LOG_TX_CLEAR else None
    | _ => None
    end
  else None.

Section drive.
Context {D : Type} `{DriveTotal D}.
Implicit Types (c : Committer D).

Lemma twp_call {A} (m : M D A) (P : A → D → Prop) Q c :
  returns ok m → ok (derived c) → wp m P (derived c) →
  (∀ a d', P a d' → Q a (mkCommitter (collected_ c) (self_id_ c) d')) → twp (call m) Q c.
Proof.
  intros Ht Hok Hm HQ. destruct (Ht _ Hok) as [[a d'] E]. unfold twp, call. rewrite E.
  apply HQ. exact (wp_run _ _ _ _ _ Hm E).
Qed.

(** Nothing the protocol sees has changed. *)
Definition still c c' : Prop := good c' ∧ kern c' = kern c ∧ coll c' = coll c.

Lemma twp_quiet {A} (m : M D A) Q c :
  returns ok m → quiet ok core m → good c → (∀ a c', still c c' → Q a c') → twp (call m) Q c.
Proof.
  intros Ht Hm [Hok Hwf] HQ. eapply twp_call; [done|done|exact (Hm _ Hok)|].
  intros a d' [Hok' Hc]. apply HQ. by split_and!.
Qed.

Lemma twp_obs {A B} (f : D → A) (k : A → M (Committer D) B) Q c :
  twp (k (f (derived c))) Q c → twp (bind (obs f) k) Q c.
Proof. done. Qed.

Lemma do_phase_still c ph : good c → twp (drive_do_phase ph) (fun _ c' => still c c') c.
Proof.
  intros Hg. assert (still c c) by (by split_and!).
  destruct ph; cbn [drive_do_phase]; try done; try apply twp_bind;
    (apply twp_quiet; [eauto with hooks|eauto with hooks|done|]); try done.
  intros [rc need_wait] c' Hs. destruct (ob_failed rc); [done|]. apply twp_obs.
  by destruct (need_wait && _); [|destruct (need_wait && _)].
Qed.

(** What a drive to [ph] did, by its code. *)
Definition moved (ph : ObTxState) c c' : Prop :=
  good c' ∧ kern c' = with_up ph (kern c)
  ∧ coll c' = if tx_eqb ph (c_up (kern c)) then coll c else ∅.

Lemma in_memory_moved c ph :
  good c → tx_eqb ph (c_up (kern c)) = false →
  twp (drive_in_memory ph)
    (fun r c' => if ob_failed r.1 then still c c' else moved ph c c') c.
Proof.
  intros Hg Hne. eapply twp_seq; [by apply do_phase_still|].
  intros [rc nl] c1 (Hg1 & Hk1 & Hc1). destruct (ob_failed rc) eqn:Hrc.
  { cbn. rewrite Hrc. by split_and!. }
  apply twp_bind, twp_quiet; [eauto with hooks|eauto with hooks|done|].
  intros rm c2 (Hg2 & Hk2 & Hc2). destruct (ob_failed rm) eqn:Hrm.
  { cbn. rewrite Hrm. split_and!; congruence. }
  eapply twp_bind. cbn. destruct Hg2 as [Hok2 Hwf2].
  eapply twp_bind, twp_call; [by apply set_up_total|done|by apply set_up_law|].
  intros r d' [Hok' Hd']. cbn. split_and!; [by split; [|constructor]| |].
  - unfold kern in *. cbn. rewrite Hd'. cbn. congruence.
  - rewrite Hne. apply BitSet.members_empty.
Qed.

Lemma decide_phase_log lt0 (d : D) :
  c_pending (core d) = [] →
  let r := decide_2pc_log_type_ lt0 d in
  if ob_failed r.1.1 then phase_log (c_up (core d)) (c_down (core d)) = None
  else if r.1.2 then phase_log (c_up (core d)) (c_down (core d)) = Some r.2
  else True.
Proof.
  intros Hp. cbv zeta. unfold decide_2pc_log_type_, phase_log. rewrite logging_core, Hp, up_core, down_core.
  rewrite bool_decide_eq_false_2 by auto.
  by destruct (c_up (core d)), (c_down (core d)).
Qed.

(** Queueing the log of the phase the in-memory state is in. *)
Definition queued c c' : Prop :=
  good c' ∧ coll c' = coll c
  ∧ (kern c' = kern c ∨ ∃ lt, phase_log (c_up (kern c)) (c_down (kern c)) = Some lt
                           ∧ kern c' = with_pending [lt] (kern c)).

Lemma submit_2pc_log_queued c :
  good c → c_pending (kern c) = [] → twp submit_2pc_log_ (fun _ c' => queued c c') c.
Proof.
  intros Hg Hp. assert (queued c c) by (split_and!; auto). unfold submit_2pc_log_. apply twp_obs.
  pose proof (decide_phase_log OB_LOG_TX_INIT (derived c) Hp) as Hd. cbv zeta in Hd.
  destruct (decide_2pc_log_type_ OB_LOG_TX_INIT (derived c)) as [[rc need] lt]. cbn in Hd.
  destruct (ob_failed rc); [done|]. destruct need; [|done]. destruct Hg as [Hok Hwf].
  eapply twp_bind, twp_call; [by apply submit_total|done|by apply submit_law|].
  intros r d' [Hok' Hd']. cbn. split_and!; [by split|done|]. unfold kern in *. cbn.
  destruct Hd' as [E|E]; [right|by left]. exists lt. by rewrite Hp in E.
Qed.

(** C7: driving to a phase always returns.  With a log in flight, or when the work
    of the phase fails, nothing the protocol sees has changed; on success the
    in-memory state is the phase, the durable state and the messages are as
    before, the collected answers are those of this phase (none, when it is new),
    and at most the one log of the phase is queued. *)
Theorem drive_failure_atomic c ph :
  good c →
  ∃ rc c', drive_self_2pc_phase ph c = Some (rc, c') ∧ good c'
    ∧ (ob_failed rc = true ∧ kern c' = kern c ∧ coll c' = coll c
       ∨ rc = OB_SUCCESS ∧ c_pending (kern c) = []
         ∧ coll c' = (if tx_eqb ph (c_up (kern c)) then coll c else ∅)
         ∧ (kern c' = with_up ph (kern c)
            ∨ ∃ lt, phase_log ph (c_down (kern c)) = Some lt
                 ∧ kern c' = with_pending [lt] (with_up ph (kern c)))).
Proof.
  intros Hg. apply twp_run. unfold drive_self_2pc_phase. apply twp_obs.
  destruct (is_2pc_logging (derived c)) eqn:Hl; [by split; [|left]|].
  rewrite logging_core in Hl. apply bool_decide_eq_false, dec_stable in Hl. fold (kern c) in Hl.
  apply twp_obs. destruct (is_2pc_blocking _); [by split; [|left]|]. apply twp_obs.
  eapply (twp_seq _ _ (fun r c' => if ob_failed r.1 then still c c' else moved ph c c')).
  { rewrite up_core. fold (kern c). destruct (tx_eqb ph _) eqn:Heq; [|by apply in_memory_moved].
    cbn. split_and!; [done| |by rewrite Heq]. apply tx_eqb_true in Heq. rewrite Heq. by destruct (kern c). }
  intros [rc nl] c1 Hm. cbn in Hm. destruct (ob_failed rc) eqn:Hrc.
  { destruct Hm as (Hg1 & Hk1 & Hc1). split; [done|]. by left. }
  destruct Hm as (Hg1 & Hk1 & Hc1). apply twp_obs.
  destruct (negb nl && _); [|split; [done|right; by split_and!; auto]].
  eapply twp_seq; [apply submit_2pc_log_queued; [done|by rewrite Hk1]|].
  intros r c2 (Hg2 & Hc2 & Hk2). split; [done|]. right. rewrite Hc2, Hc1. split_and!; try done.
  rewrite Hk1 in Hk2. exact Hk2.
Qed.
End drive.

#[export] Instance mock_total : DriveTotal Mock.MockOb2pcCtx.
Proof. constructor; repeat intro; by eexists. Qed.

Lemma drive_failure_atomic_witness :
  ∃ c', drive_self_2pc_phase PREPARE (Mock.mock_boot 3 0 0) = Some (OB_SUCCESS, c')
    ∧ kern c' = with_pending [OB_LOG_TX_PREPARE] (with_up PREPARE (kern (Mock.mock_boot 3 0 0))).
Proof.
  destruct (drive_failure_atomic (Mock.mock_boot 3 0 0) PREPARE) as (rc & c' & E & _);
    [split; [reflexivity|constructor]|].
  vm_compute in E. injection E as <- <-. eexists. split; vm_compute; reflexivity.
Defined.
