(* ===== verification/TwoPhaseAtomic.v ===== *)
(** What the two-phase commit promises: atomicity, the conditions of a commit and
    of a clear, the shape of a participant's states, recovery from the log, and
    the refinement of the abstract transaction commit protocol. *)
From stdpp Require Import functions.
From S2P Require Import Prelude BitSet TxDefine TwoPhaseCommitter TwoPhaseLaws TwoPhaseInv TwoPhaseLog TwoPhaseSystem TwoPhaseMock.
Import Committer.

(** * The abstract protocol

    A resource manager works, is prepared, and commits or aborts; it commits only
    when all are prepared or committed, and aborts only when none is committed. *)
Inductive tc_state : Set := Working | Prepared | Committed | Aborted.

Definition tc_allowed (n : Z) (t : Z → tc_state) (i : Z) (st : tc_state) : Prop :=
  match st with
  | Working => False
  | Prepared => t i = Working
  | Committed => t i = Prepared ∧ ∀ j, 0 <= j < n → t j = Prepared ∨ t j = Committed
  | Aborted => (t i = Working ∨ t i = Prepared) ∧ ∀ j, 0 <= j < n → t j ≠ Committed
  end.

(** One step of the abstract protocol, on the participants [0 .. n-1]. *)
Definition tc_step (n : Z) (t t' : Z → tc_state) : Prop :=
  ∃ i st, 0 <= i < n ∧ tc_allowed n t i st
    ∧ ∀ j, 0 <= j < n → t' j = if j =? i then st else t j.

Definition tc_stutter (n : Z) (t t' : Z → tc_state) : Prop := ∀ j, 0 <= j < n → t' j = t j.

Section refine.
Context {D : Type} `{Deployment D}.
Implicit Types (s : Sys D) (c : Committer D) (x : Node D).

(** The abstract state of a participant, from what is durable. *)
Definition abs_node x : tc_state :=
  if bool_decide (OB_LOG_TX_COMMIT ∈ hist x) then Committed
  else if bool_decide (OB_LOG_TX_ABORT ∈ hist x) then Aborted
  else if bool_decide (OB_LOG_TX_PREPARE ∈ hist x) then Prepared
  else match ctx x with Some _ => Working | None => Aborted end.

Definition abs s (i : Z) : tc_state := abs_node (nodes s i).

Lemma sinv_hinv s i : SInv s → in_range i → HInv (env (nodes s)) (role_of i) (hist (nodes s i)).
Proof. intros HS Hi. eapply node_hinv, HS, Hi. Qed.

(** A commit somewhere and an abort somewhere cannot both be. *)
Lemma commit_dec s i :
  SInv s → in_range i → OB_LOG_TX_COMMIT ∈ hist (nodes s i) → dec (nodes s).
Proof. intros HS Hi. apply (h_dec _ _ _ (sinv_hinv s i HS Hi)). Qed.

Lemma abort_ab s i :
  SInv s → in_range i → OB_LOG_TX_ABORT ∈ hist (nodes s i) → ab (nodes s).
Proof. intros HS Hi. apply (abort_known _ i); [done|]. by apply sinv_hinv. Qed.

Lemma dec_ab_false s : dec (nodes s) → ab (nodes s) → False.
Proof. intros Hd (i & Hi & Hn & _). by apply Hn, Hd. Qed.

(** With everything prepared, no participant is aborted. *)
Lemma dec_abs s j : SInv s → dec (nodes s) → in_range j → abs s j = Prepared ∨ abs s j = Committed.
Proof.
  intros HS Hd Hj. unfold abs, abs_node. case_bool_decide; [by right|].
  rewrite bool_decide_eq_false_2.
  - rewrite bool_decide_eq_true_2 by (by apply Hd). by left.
  - intros Ha. by eapply dec_ab_false, abort_ab.
Qed.

Lemma not_dec_abs s j : SInv s → ¬ dec (nodes s) → in_range j → abs s j ≠ Committed.
Proof.
  intros HS Hd Hj. unfold abs, abs_node. case_bool_decide as Hc; [|by repeat case_match].
  exfalso. by eapply Hd, commit_dec.
Qed.

(** ** What a step does to the participants *)
Inductive change s (i : Z) : Node D → Prop :=
  | ch_same c c' : ctx (nodes s i) = Some c → change s i (mkNode (Some c') (hist (nodes s i)))
  | ch_log c c' lt :
      ctx (nodes s i) = Some c → pending_ok (c_down (kern c)) (c_up (kern c)) [lt] = true →
      change s i (mkNode (Some c') (hist (nodes s i) ++ [lt]))
  | ch_exit c :
      ctx (nodes s i) = Some c → OB_LOG_TX_CLEAR ∈ hist (nodes s i) →
      change s i (mkNode None (hist (nodes s i)))
  | ch_gone c : ctx (nodes s i) = Some c → hist (nodes s i) = [] → change s i (mkNode None []).

Lemma run_change s i h' (m : M (Committer D) Z) c s' :
  run s i h' m c = Some s' → ∃ c', nodes s' = <[i := mkNode (Some c') h']> (nodes s).
Proof. unfold run. destruct (m c) as [[r c']|]; [|done]. intros [= <-]. by exists c'. Qed.

Lemma crash_change s i k c s' :
  SInv s → in_range i → ctx (nodes s i) = Some c →
  crash s i (hist (nodes s i) ++ take k (c_pending (kern c))) = Some s' →
  ∃ x', nodes s' = <[i := x']> (nodes s) ∧ change s i x'.
Proof.
  intros HS Hi Hc. unfold crash.
  assert (take k (c_pending (kern c)) = [] ∨ ∃ lt, take k (c_pending (kern c)) = [lt]
          ∧ pending_ok (c_down (kern c)) (c_up (kern c)) [lt] = true) as Htk.
  { destruct (c_pending (kern c)) as [|lt l] eqn:Hp; [left; apply take_nil|].
    destruct k; [by left|]. right. exists lt.
    destruct (pending_head _ _ _ _ _ HS Hi Hc Hp) as [-> Hok]. simpl. by rewrite take_nil. }
  destruct (hist (nodes s i) ++ take k (c_pending (kern c))) as [|l0 h0] eqn:Eh.
  - intros [= <-]. eexists. split; [done|]. apply app_nil in Eh as [Eh _]. by eapply ch_gone.
  - destruct (replay_all (l0 :: h0) (boot i)) as [[r c']|]; [|done].
    destruct (ob_failed r); [done|]. intros [= <-]. eexists. split; [done|]. rewrite <- Eh.
    destruct Htk as [->|(lt & -> & Hok)]; [rewrite app_nil_r; by eapply ch_same|by eapply ch_log].
Qed.

Lemma step_change s e s' :
  SInv s → step s e = Some s' →
  nodes s' = nodes s ∨ ∃ i x', in_range i ∧ nodes s' = <[i := x']> (nodes s) ∧ change s i x'.
Proof.
  intros HS. destruct e as [|p|i|i|i|i|i k]; simpl;
    try (destruct (member _) eqn:Hm; [|done]; apply member_range in Hm;
         destruct (ctx (nodes s _)) as [c|] eqn:Hc; [|done]).
  - intros Hr. destruct (run_change _ _ _ _ _ _ Hr) as [c' E]. right. eexists _, _.
    split; [done|]. split; [exact E|]. by eapply ch_same.
  - case_bool_decide as Hp; [|done]. destruct (ctx (nodes s (p_dst p))) as [c|] eqn:Hc.
    + intros Hr. destruct (run_change _ _ _ _ _ _ Hr) as [c' E]. right. eexists _, _.
      split; [|split; [exact E|by eapply ch_same]].
      pose proof (proj1 (Forall_forall _ _) (proj2 HS) p Hp) as Hok.
      destruct Hok as [(_ & [? _] & _)|(Hd & _)]; [done|]. rewrite Hd. apply root_in.
    + intros [= <-]. by left.
  - destruct (c_pending (kern c)) as [|lt l] eqn:Hp; [done|]. intros Hr.
    destruct (run_change _ _ _ _ _ _ Hr) as [c' E]. right. eexists _, _.
    split; [done|]. split; [exact E|]. eapply ch_log; [done|]. by destruct (pending_head _ _ _ _ _ HS Hm Hc Hp).
  - intros Hr. destruct (run_change _ _ _ _ _ _ Hr) as [c' E]. right. eexists _, _.
    split; [done|]. split; [exact E|]. by eapply ch_same.
  - destruct (_ && _); [|done]. intros Hr. destruct (run_change _ _ _ _ _ _ Hr) as [c' E].
    right. eexists _, _. split; [done|]. split; [exact E|]. by eapply ch_same.
  - case_bool_decide; [|done]. intros [= <-]. right. eexists _, _. split; [done|].
    split; [done|]. by eapply ch_exit.
  - intros Hr. destruct (crash_change _ _ _ _ _ HS Hm Hc Hr) as (x' & E & Hch). right. by exists i, x'.
Qed.

Lemma app_log_abs x x' lt :
  hist x' = hist x ++ [lt] →
  abs_node x' = match lt with
                | OB_LOG_TX_COMMIT => Committed
                | OB_LOG_TX_ABORT =>
                    if bool_decide (OB_LOG_TX_COMMIT ∈ hist x) then Committed else Aborted
                | OB_LOG_TX_PREPARE =>
                    if bool_decide (OB_LOG_TX_COMMIT ∈ hist x) then Committed
                    else if bool_decide (OB_LOG_TX_ABORT ∈ hist x) then Aborted else Prepared
                | _ => abs_node (mkNode (ctx x') (hist x))
                end.
Proof.
  intros Hh. unfold abs_node. rewrite Hh. simpl.
  destruct lt; repeat case_bool_decide; try done; set_solver.
Qed.

(** The three ways a participant's abstract state moves. *)
Lemma change_abs s i x' :
  SInv s → in_range i → change s i x' →
  abs_node x' = abs s i ∨ tc_allowed n_size (abs s) i (abs_node x').
Proof.
  intros HS Hi Hch. pose proof (proj1 HS i Hi) as Hn. unfold node_ok in Hn.
  destruct Hch as [c c' Hc|c c' lt Hc Hp|c Hc Hcl|c Hc Hnil]; rewrite Hc in Hn.
  - left. unfold abs, abs_node. simpl. by rewrite Hc.
  - pose proof (n_up _ _ _ _ Hn) as Hu. rewrite (app_log_abs (nodes s i)) with (lt := lt) by done.
    destruct (pending_cases _ _ _ _ _ Hn Hp) as
      [(-> & Eu & Eh)|[(-> & Eu & Eh)|[(-> & Eu & Eh)|(-> & Eu & Eh)]]]; rewrite Eu in Hu.
    + right. rewrite Eh. simpl. unfold abs, abs_node. by rewrite Eh, Hc.
    + right. simpl. split; [unfold abs, abs_node; by rewrite Eh|]. intros j Hj. by apply dec_abs.
    + right. assert (¬ dec (nodes s)) as Hnd.
      { intros Hd. destruct Eh as [Eh|Eh].
        - pose proof (Hd i Hi) as Hin. rewrite Eh in Hin. set_solver.
        - apply (dec_ab_false s Hd), Hu. right. rewrite Eh. set_solver. }
      rewrite bool_decide_eq_false_2 by (destruct Eh as [-> | ->]; set_solver). split.
      * unfold abs, abs_node. destruct Eh as [-> | ->]; [rewrite Hc|]; auto.
      * intros j Hj. by apply not_dec_abs.
    + left. unfold abs, abs_node; simpl. by destruct Eh as [-> |[-> | ->]].
  - left. unfold abs, abs_node; simpl. pose proof (h_known _ _ _ (ninv_hinv _ _ _ _ Hn)) as Hk.
    destruct (hist (nodes s i)) as [|a h] eqn:Eh; [set_solver|]. rewrite <- Eh in *.
    assert (durable (hist (nodes s i)) = CLEAR) as Hd by (by apply durable_cleared).
    by destruct (durable_clear _ Hd) as [-> |[-> | ->]].
  - right. simpl. split; [left; unfold abs, abs_node; by rewrite Hnil, Hc|].
    intros j Hj. apply not_dec_abs; [done| |done]. intros Hd.
    pose proof (Hd i Hi) as Hin. rewrite Hnil in Hin. set_solver.
Qed.

Lemma change_refines s s' i x' :
  SInv s → in_range i → nodes s' = <[i := x']> (nodes s) → change s i x' →
  tc_stutter n_size (abs s) (abs s') ∨ tc_step n_size (abs s) (abs s').
Proof.
  intros HS Hi E Hch.
  assert (∀ j, abs s' j = if j =? i then abs_node x' else abs s j) as Habs.
  { intros j. unfold abs. rewrite E. destruct (Z.eqb_spec j i) as [->|].
    - by rewrite fn_lookup_insert. - by rewrite fn_lookup_insert_ne. }
  destruct (change_abs s i x' HS Hi Hch) as [Heq|Hal].
  - left. intros j _. rewrite Habs, Heq. by destruct (Z.eqb_spec j i) as [->|].
  - right. exists i, (abs_node x'). split_and!; [apply Hi..|done|]. intros j _. apply Habs.
Qed.

(** * The theorems *)

(** C1: atomicity.  In every reachable state of the system, whatever was lost,
    repeated, reordered or crashed, no participant has durably committed while
    another has durably aborted. *)
Theorem commit_atomicity s i j :
  reachable s → in_range i → in_range j →
  OB_LOG_TX_COMMIT ∈ hist (nodes s i) → OB_LOG_TX_ABORT ∉ hist (nodes s j).
Proof.
  intros Hs Hi Hj Hc Ha. apply reachable_sinv in Hs.
  apply (dec_ab_false s); [by apply (commit_dec s i)|by apply (abort_ab s j)].
Qed.

(** C2: refinement.  Every step of the system is a step of the abstract
    transaction commit protocol, or leaves its state unchanged. *)
Theorem system_refines_tc s e s' :
  reachable s → step s e = Some s' →
  tc_stutter n_size (abs s) (abs s') ∨ tc_step n_size (abs s) (abs s').
Proof.
  intros Hs He. apply reachable_sinv in Hs.
  destruct (step_change _ _ _ Hs He) as [E|(i & x' & Hi & E & Hch)].
  - left. intros j _. unfold abs. by rewrite E.
  - by eapply change_refines.
Qed.

(** C3: a participant commits durably only after every participant, the root
    included, has its PREPARE log durable. *)
Theorem commit_needs_all_prepared s i j :
  reachable s → in_range i → in_range j →
  OB_LOG_TX_COMMIT ∈ hist (nodes s i) → OB_LOG_TX_PREPARE ∈ hist (nodes s j).
Proof. intros Hs Hi Hj Hc. apply reachable_sinv in Hs. by apply (commit_dec s i Hs Hi Hc). Qed.

(** C4: nobody forgets a commit too early.  When the root of a committed
    transaction has logged CLEAR, every participant has logged COMMIT; when a leaf
    has, the root has logged COMMIT. *)
Theorem clear_needs_all_committed s i :
  reachable s → in_range i →
  OB_LOG_TX_COMMIT ∈ hist (nodes s i) → OB_LOG_TX_CLEAR ∈ hist (nodes s i) →
  if i =? n_root then ∀ j, in_range j → OB_LOG_TX_COMMIT ∈ hist (nodes s j)
  else OB_LOG_TX_COMMIT ∈ hist (nodes s n_root).
Proof.
  intros Hs Hi Hc Hcl. apply reachable_sinv in Hs. pose proof (sinv_hinv s i Hs Hi) as Hh.
  destruct (h_clr _ _ _ Hh Hcl Hc) as [Hroot Hleaf]. unfold role_of in *.
  destruct (Z.eqb_spec i n_root) as [->|]; [|by apply Hleaf].
  intros j Hj. destruct (decide (j = n_root)) as [->|]; [done|]. by apply Hroot.
Qed.

(** C5: the states of a live participant.  The durable state never overtakes the
    in-memory one, at most one log is in flight, [decide_2pc_log_type_] finds no
    invalid state, and the durable logs are a history of the protocol. *)
Theorem participant_states_ordered s i c :
  reachable s → in_range i → ctx (nodes s i) = Some c →
  tx_leb (get_downstream_state (derived c)) (get_upstream_state (derived c)) = true
  ∧ (length (c_pending (kern c)) <= 1)%nat
  ∧ (decide_2pc_log_type_ OB_LOG_TX_INIT (derived c)).1.1 = OB_SUCCESS
  ∧ (get_downstream_state (derived c) = durable (hist (nodes s i))
     ∨ get_downstream_state (derived c) = PRE_COMMIT ∧ hist (nodes s i) = [OB_LOG_TX_PREPARE]).
Proof.
  intros Hs Hi Hc. apply reachable_sinv in Hs. pose proof (proj1 Hs i Hi) as Hn.
  unfold node_ok in Hn. rewrite Hc in Hn. destruct (n_shape _ _ _ _ Hn) as (Hd & Hud & Hp).
  unfold decide_2pc_log_type_. rewrite up_core, down_core. fold (kern c). split_and!.
  - by destruct (c_down (kern c)), (c_up (kern c)).
  - destruct (c_pending (kern c)) as [|[] []]; simpl; try done; lia.
  - destruct (is_2pc_logging _); [done|]. by destruct (c_down (kern c)), (c_up (kern c)).
  - destruct Hd as [Hd|[Hd Hd']]; [by left|right]. split; [done|by apply durable_prepare].
Qed.

(** C6: recovery.  Let a new participant replay the durable logs of a history of the
    protocol.  If replay reports success, it went through all the logs, both states are
    the durable state of the history, and nothing is collected; if it reports a failure,
    it stopped before the end, and the durable state is that of the logs it went
    through.  It does succeed when the calls it makes on the context do
    ([replay_accepted]): the merge of participants, and setting the states of these logs
    where they follow the durable state. *)
Theorem replay_restores_durable_state (k : Core) c h :
  good c → kern c = with_up INIT (with_down INIT k) → coll c = ∅ → durable h ≠ TX_UNKNOWN →
  (∀ r c', replay_all h c = Some (r, c') →
     ∃ h1 h2, h = h1 ++ h2 ∧ get_downstream_state (derived c') = durable h1
       ∧ (r = OB_SUCCESS → h2 = [] ∧ get_upstream_state (derived c') = durable h ∧ coll c' = ∅)
       ∧ (r ≠ OB_SUCCESS → h2 ≠ []))
  ∧ (replay_accepted h → ∃ c', replay_all h c = Some (OB_SUCCESS, c')).
Proof.
  intros Hg Hk Hc Hh. assert (at_state k INIT c) as Hst by by split_and!.
  destruct (durable_foldl h Hh) as [Hall Hfold]. split; [|intros Ha; by eapply replay_durable_total].
  intros r c' Hr. pose proof (wp_run _ _ _ _ _ (replay_all_spec _ _ _ _ Hst Hall) Hr) as (h1 & h2 & Hd & Hdown & HS & HF).
  exists h1, h2. rewrite up_core, down_core. fold (kern c'). split_and!; [done| | |done].
  - rewrite Hdown. apply durable_foldl, (durable_prefix h1 h2). by rewrite <- Hd.
  - intros E. destruct (HS E) as (? & _ & Hk' & ?). by rewrite Hk', Hfold.
Qed.
End refine.

(** * Witnesses: a transaction of three participants that commits *)
Abbreviation commit3 := (Mock.final Mock.commit_events).

Lemma commit_atomicity_witness :
  OB_LOG_TX_COMMIT ∈ hist (nodes commit3 1) ∧ OB_LOG_TX_ABORT ∉ hist (nodes commit3 2).
Proof.
  assert (OB_LOG_TX_COMMIT ∈ hist (nodes commit3 1)) as Hc by (vm_compute; set_solver).
  split; [exact Hc|].
  apply (commit_atomicity commit3 1 2 (Mock.mock_final_reachable _)); [split; vm_compute; congruence..|exact Hc].
Defined.

Lemma system_refines_tc_witness :
  tc_stutter 3 (abs (Mock.final [EvStart])) (abs (Mock.final [EvStart; EvApply 0]))
  ∨ tc_step 3 (abs (Mock.final [EvStart])) (abs (Mock.final [EvStart; EvApply 0])).
Proof.
  apply (system_refines_tc (Mock.final [EvStart]) (EvApply 0) _ (Mock.mock_final_reachable _)).
  reflexivity.
Defined.

Lemma commit_needs_all_prepared_witness :
  OB_LOG_TX_COMMIT ∈ hist (nodes commit3 1) ∧ OB_LOG_TX_PREPARE ∈ hist (nodes commit3 2).
Proof.
  assert (OB_LOG_TX_COMMIT ∈ hist (nodes commit3 1)) as Hc by (vm_compute; set_solver).
  split; [exact Hc|].
  apply (commit_needs_all_prepared commit3 1 2 (Mock.mock_final_reachable _));
    [split; vm_compute; congruence..|exact Hc].
Defined.

Lemma clear_needs_all_committed_witness :
  OB_LOG_TX_CLEAR ∈ hist (nodes commit3 0) ∧ OB_LOG_TX_COMMIT ∈ hist (nodes commit3 2).
Proof.
  split; [vm_compute; set_solver|].
  assert (∀ j, in_range j → OB_LOG_TX_COMMIT ∈ hist (nodes commit3 j)) as Hall.
  { apply (clear_needs_all_committed commit3 0 (Mock.mock_final_reachable _));
      [split; vm_compute; congruence|vm_compute; set_solver..]. }
  apply Hall. split; vm_compute; congruence.
Defined.

Lemma participant_states_ordered_witness :
  ∃ c, ctx (nodes commit3 1) = Some c ∧ get_downstream_state (derived c) = CLEAR
       ∧ get_upstream_state (derived c) = CLEAR
       ∧ tx_leb (get_downstream_state (derived c)) (get_upstream_state (derived c)) = true.
Proof.
  destruct (ctx (nodes commit3 1)) as [c|] eqn:Hc; [|vm_compute in Hc; congruence].
  exists c. split; [reflexivity|].
  assert (0 <= 1 < 3) as Hi by lia.
  pose proof (participant_states_ordered commit3 1 c (Mock.mock_final_reachable _) Hi Hc) as [Hle _].
  vm_compute in Hc. injection Hc as <-. split; [reflexivity|]. split; [reflexivity|exact Hle].
Defined.

(** The participants of the repository's own mock, recovered from an aborted transaction. *)
Lemma mock_accepts_abort :
  replay_accepted (D := Mock.MockOb2pcCtx) [OB_LOG_TX_PREPARE; OB_LOG_TX_ABORT; OB_LOG_TX_CLEAR].
Proof.
  constructor; [intros d _; by eexists|intros lt d _ _; by eexists _, _|].
  intros lt d Hlt _ Hf. simpl in *. unfold Mock.set_downstream_state. unfold log_follows in Hf.
  repeat (apply elem_of_cons in Hlt as [->|Hlt]); try (by apply elem_of_nil in Hlt);
    destruct (Mock.downstream_state_ d); try done; by eexists.
Qed.

(** Participants whose context accepts every state, recovered from a committed one. *)
Lemma plain_accepts h : replay_accepted (D := Core) h.
Proof. constructor; intros; by repeat eexists. Qed.

Lemma replay_restores_durable_state_witness :
  (∃ c', replay_all [OB_LOG_TX_PREPARE; OB_LOG_TX_COMMIT] (boot (D := Core) 1) = Some (OB_SUCCESS, c'))
  ∧ ∃ c', replay_all [OB_LOG_TX_PREPARE; OB_LOG_TX_ABORT; OB_LOG_TX_CLEAR] (boot (D := Mock.MockOb2pcCtx) 1)
            = Some (OB_SUCCESS, c')
      ∧ get_upstream_state (derived c') = CLEAR ∧ coll c' = ∅.
Proof.
  split.
  { apply (replay_restores_durable_state (kern (boot (D := Core) 1)));
      [exact (proj1 (boot_law 1))|reflexivity|exact (proj1 (proj2 (boot_law 1)))|done|apply plain_accepts]. }
  destruct (replay_restores_durable_state (kern (boot (D := Mock.MockOb2pcCtx) 1)) (boot (D := Mock.MockOb2pcCtx) 1)
    [OB_LOG_TX_PREPARE; OB_LOG_TX_ABORT; OB_LOG_TX_CLEAR]) as [Hres Hrun];
    [exact (proj1 (boot_law 1))|reflexivity|exact (proj1 (proj2 (boot_law 1)))|done|].
  destruct (Hrun mock_accepts_abort) as (c' & Hc'). exists c'. split; [exact Hc'|].
  destruct (Hres _ _ Hc') as (h1 & h2 & _ & _ & HS & _). exact (proj2 (HS eq_refl)).
Defined.

(** The mock does not accept the logs of a committed transaction: its durable state may
    become COMMIT only from PRE_COMMIT, which has no log, while [replay_commit_log] takes
    a prepared participant to COMMIT, so the mock ends the process. *)
Example mock_replay_commit_aborts :
  replay_all [OB_LOG_TX_PREPARE; OB_LOG_TX_COMMIT] (boot (D := Mock.MockOb2pcCtx) 1) = None.
Proof. vm_compute. reflexivity. Qed.
