(* ===== verification/Serialization.v ===== *)
(** The integer codecs of [deps/oblib/src/lib/utility/serialization.h]: fixed-width
    big-endian integers, booleans and variable-length integers, over explicit
    buffers and positions.

    A buffer is [None] for [NULL] or the list of its bytes.  A writer changes the
    buffer and the position, a reader the position; [None] as the result of a run
    is an access outside the buffer (or a shift by 64 bits or more), which is
    undefined behaviour in the code. *)
From S2P Require Import Prelude.

Module Ser.
Definition buf_t : Type := option (list Z).
Record Wr : Type := mkWr { w_buf : buf_t; w_pos : Z }.

(** * Byte strings of integers *)

(** The bytes [(val >> 8*(n-1)) & 0xff], ..., [val & 0xff]. *)
Fixpoint be_bytes (n : nat) (val : Z) : list Z :=
  match n with
  | O => []
  | S n' => Z.land (Z.shiftr val (8 * Z.of_nat n')) 255 :: be_bytes n' val
  end.

(** [(b0 & 0xff) << 8*(n-1) | ... | (bn & 0xff)]. *)
Fixpoint be_or (bs : list Z) : Z :=
  match bs with
  | [] => 0
  | b :: bs' => Z.lor (Z.shiftl (Z.land b 255) (8 * Z.of_nat (length bs'))) (be_or bs')
  end.

(** [*(buf + pos++) = b]. *)
Definition put_byte (b : Z) : M Wr unit := fun w =>
  match w_buf w with
  | Some l =>
      if (0 <=? w_pos w) && (w_pos w <? Z.of_nat (length l))
      then Some (tt, mkWr (Some (<[Z.to_nat (w_pos w) := b]> l)) (w_pos w + 1))
      else None
  | None => None
  end.

Fixpoint put_bytes (bs : list Z) : M Wr unit :=
  match bs with
  | [] => ret tt
  | b :: bs' => put_byte b ;;; put_bytes bs'
  end.

(** [NULL != buf && buf_len - pos >= size]. *)
Definition has_room (buf_len size : Z) (w : Wr) : bool :=
  match w_buf w with Some _ => size <=? buf_len - w_pos w | None => false end.

(** The common body of the encoders: room or [OB_SIZE_OVERFLOW], then the bytes. *)
Definition encode_with (buf_len size : Z) (bs : list Z) : M Wr Z :=
  let! room := gets (has_room buf_len size) in
  if room then (put_bytes bs ;;; ret OB_SUCCESS) else ret OB_SIZE_OVERFLOW.

Definition encode_i8 (buf_len val : Z) : M Wr Z := encode_with buf_len 1 (be_bytes 1 val).
Definition encode_i16 (buf_len val : Z) : M Wr Z := encode_with buf_len 2 (be_bytes 2 val).
Definition encode_i32 (buf_len val : Z) : M Wr Z := encode_with buf_len 4 (be_bytes 4 val).
Definition encode_i64 (buf_len val : Z) : M Wr Z := encode_with buf_len 8 (be_bytes 8 val).
Definition encode_bool (buf_len : Z) (val : bool) : M Wr Z :=
  encode_with buf_len 1 [if val then 1 else 0].

Definition encoded_length_i8 (val : Z) : Z := 1.
Definition encoded_length_i16 (val : Z) : Z := 2.
Definition encoded_length_i32 (val : Z) : Z := 4.
Definition encoded_length_i64 (val : Z) : Z := 8.
Definition encoded_length_bool (val : bool) : Z := 1.

(** [*(buf + pos++)]. *)
Definition byte_at (buf : buf_t) (pos : Z) : option Z :=
  match buf with
  | Some l => if 0 <=? pos then l !! Z.to_nat pos else None
  | None => None
  end.

Fixpoint get_bytes (buf : buf_t) (n : nat) : M Z (list Z) :=
  match n with
  | O => ret []
  | S n' =>
      let! b := (fun pos => match byte_at buf pos with Some b => Some (b, pos + 1) | None => None end) in
      let! bs := get_bytes buf n' in ret (b :: bs)
  end.

(** A decoder returns [ret] and the value it stores on success. *)
Definition decode_with (buf : buf_t) (data_len : Z) (n : nat) (val_of : list Z → Z) : M Z (Z * Z) :=
  let! room := gets (fun pos => match buf with Some _ => Z.of_nat n <=? data_len - pos | None => false end) in
  if room then let! bs := get_bytes buf n in ret (OB_SUCCESS, val_of bs)
  else ret (OB_DESERIALIZE_ERROR, 0).

Definition decode_i8 buf data_len : M Z (Z * Z) := decode_with buf data_len 1 (fun bs => wraps 8 (be_or bs)).
Definition decode_i16 buf data_len : M Z (Z * Z) := decode_with buf data_len 2 (fun bs => s16 (be_or bs)).
Definition decode_i32 buf data_len : M Z (Z * Z) := decode_with buf data_len 4 (fun bs => s32 (be_or bs)).
Definition decode_i64 buf data_len : M Z (Z * Z) := decode_with buf data_len 8 (fun bs => s64 (be_or bs)).
Definition decode_bool buf data_len : M Z (Z * bool) :=
  let! r := decode_i8 buf data_len in
  if ob_failed r.1 then ret (r.1, false) else ret (OB_SUCCESS, negb (r.2 =? 0)).

(** * Variable-length integers: 7 bits a byte, least significant first *)
Definition OB_MAX_VB (k : Z) : Z := 2 ^ (7 * k) - 1.

Definition encoded_length_vi64 (val : Z) : Z :=
  let v := u64 val in
  if v <=? OB_MAX_VB 1 then 1 else if v <=? OB_MAX_VB 2 then 2
  else if v <=? OB_MAX_VB 3 then 3 else if v <=? OB_MAX_VB 4 then 4
  else if v <=? OB_MAX_VB 5 then 5 else if v <=? OB_MAX_VB 6 then 6
  else if v <=? OB_MAX_VB 7 then 7 else if v <=? OB_MAX_VB 8 then 8
  else if v <=? OB_MAX_VB 9 then 9 else 10.

(** The bytes of the [while] loop of [encode_vi64]; ten rounds empty 64 bits. *)
Fixpoint vi_bytes (fuel : nat) (v : Z) : list Z :=
  match fuel with
  | O => []
  | S f => if OB_MAX_VB 1 <? v then u8 (Z.lor v 128) :: vi_bytes f (Z.shiftr v 7)
           else [Z.land v 127]
  end.

Definition encode_vi64 (buf_len val : Z) : M Wr Z :=
  encode_with buf_len (encoded_length_vi64 val) (vi_bytes 10 (u64 val)).

Definition OB_SERIALIZE_SIZE_NEED_BYTES : Z := 5.

(** The [n] bytes of [encode_fixed_bytes_i64]. *)
Fixpoint fixed_bytes (n : nat) (v : Z) : list Z :=
  match n with
  | O => []
  | S O => [Z.land v 127]
  | S n' => u8 (Z.lor v 128) :: fixed_bytes n' (Z.shiftr v 7)
  end.

Definition encode_fixed_bytes_i64 (buf_len val : Z) : M Wr Z :=
  encode_with buf_len OB_SERIALIZE_SIZE_NEED_BYTES (fixed_bytes 5 (u64 val)).

(** The [while] loop of [decode_vi64] and what follows it: the byte is read
    before the length is checked.  Each round consumes a byte of the buffer. *)
Fixpoint decode_vi64_loop (fuel : nat) (buf : buf_t) (data_len tmp_pos v shift : Z) : option (Z * Z * Z) :=
  match fuel with
  | O => None
  | S f =>
      match byte_at buf tmp_pos with
      | None => None
      | Some b =>
          if data_len - tmp_pos <? 1 then Some (OB_DESERIALIZE_ERROR, v, tmp_pos)
          else if 64 <=? shift then None
          else
            let v' := Z.lor v (u64 (Z.shiftl (Z.land b 127) shift)) in
            if negb (Z.land b 128 =? 0)
            then decode_vi64_loop f buf data_len (tmp_pos + 1) v' (shift + 7)
            else Some (OB_SUCCESS, v', tmp_pos + 1)
      end
  end.

Definition decode_vi64 (buf : buf_t) (data_len : Z) : M Z (Z * Z) := fun pos =>
  let fuel := match buf with Some l => S (length l) | None => 1%nat end in
  match decode_vi64_loop fuel buf data_len pos 0 0 with
  | Some (rc, v, tmp_pos) =>
      if ob_failed rc then Some ((rc, 0), pos) else Some ((rc, s64 v), tmp_pos)
  | None => None
  end.

(** * Lemmas *)
Lemma length_be_bytes n v : length (be_bytes n v) = n.
Proof. induction n; simpl; congruence. Qed.

Lemma be_step v n :
  0 <= n →
  Z.lor (Z.shiftl (Z.land (Z.land (Z.shiftr v n) 255) 255) n) (v mod 2 ^ n) = v mod 2 ^ (n + 8).
Proof.
  intros Hn. apply Z.bits_inj'. intros i Hi.
  rewrite Z.lor_spec, Z.shiftl_spec by done. change 255 with (Z.ones 8).
  destruct (Z.ltb_spec i n) as [Hlt|Hge].
  - rewrite (Z.testbit_neg_r _ (i - n)) by lia. simpl.
    rewrite !Z.mod_pow2_bits_low by lia. done.
  - rewrite (Z.mod_pow2_bits_high v n) by lia. rewrite orb_false_r, !Z.land_spec.
    rewrite Z.shiftr_spec by lia. rewrite Z.testbit_ones_nonneg by lia.
    replace (i - n + n) with i by lia. destruct (Z.ltb_spec (i - n) 8).
    + rewrite Z.mod_pow2_bits_low by lia. by rewrite !andb_true_r.
    + rewrite Z.mod_pow2_bits_high by lia. by rewrite !andb_false_r.
Qed.

Lemma be_or_bytes n v : be_or (be_bytes n v) = v mod 2 ^ (8 * Z.of_nat n).
Proof.
  induction n as [|n IH]; cbn [be_bytes be_or]; [by rewrite Z.mod_1_r|].
  rewrite length_be_bytes, IH, be_step by lia. do 2 f_equal. lia.
Qed.

Lemma be_roundtrip n v : (0 < n)%nat → in_s (8 * Z.of_nat n) v → wraps (8 * Z.of_nat n) (be_or (be_bytes n v)) = v.
Proof.
  intros Hn Hv. rewrite be_or_bytes. fold (wrapu (8 * Z.of_nat n) v).
  rewrite wraps_wrapu by lia. apply wraps_small; [lia|done].
Qed.

Lemma be_bytes_range n v : Forall (in_u 8) (be_bytes n v).
Proof.
  induction n as [|n IH]; cbn [be_bytes]; constructor; [|done].
  change 255 with (Z.ones 8). rewrite Z.land_ones by lia. apply wrapu_range. lia.
Qed.

(** ** Writing and reading a string of bytes *)

(** The buffer [l] with [bs] written at [pos]; the bytes of [l] from [pos] on. *)
Definition splice (l : list Z) (pos : Z) (bs : list Z) : list Z :=
  take (Z.to_nat pos) l ++ bs ++ drop (Z.to_nat pos + length bs) l.
Definition slice (l : list Z) (pos : Z) (n : nat) : list Z := take n (drop (Z.to_nat pos) l).

(** [m] writes exactly [bs], when there is room. *)
Definition writes (buf_len : Z) (m : M Wr Z) (bs : list Z) : Prop :=
  ∀ l pos, 0 <= pos → pos + Z.of_nat (length bs) <= buf_len <= Z.of_nat (length l) →
    m (mkWr (Some l) pos) = Some (OB_SUCCESS, mkWr (Some (splice l pos bs)) (pos + Z.of_nat (length bs))).

(** [m] reads [bs] as the value [a]. *)
Definition reads {A} (buf : list Z) (data_len : Z) (m : M Z (Z * A)) (bs : list Z) (a : A) : Prop :=
  ∀ pos, 0 <= pos → pos + Z.of_nat (length bs) <= data_len →
    slice buf pos (length bs) = bs → m pos = Some ((OB_SUCCESS, a), pos + Z.of_nat (length bs)).

Lemma length_splice l pos bs :
  0 <= pos → pos + Z.of_nat (length bs) <= Z.of_nat (length l) → length (splice l pos bs) = length l.
Proof. intros. unfold splice. rewrite !length_app, length_take, length_drop. lia. Qed.

Lemma splice_cons l pos b bs :
  0 <= pos → pos + 1 + Z.of_nat (length bs) <= Z.of_nat (length l) →
  splice (<[Z.to_nat pos := b]> l) (pos + 1) bs = splice l pos (b :: bs).
Proof.
  intros Hp Hl. unfold splice. simpl. replace (Z.to_nat (pos + 1)) with (S (Z.to_nat pos)) by lia.
  rewrite drop_insert_lt by lia.
  rewrite insert_take_drop by lia. rewrite take_app, take_take, length_take.
  replace (S (Z.to_nat pos) `min` Z.to_nat pos)%nat with (Z.to_nat pos) by lia.
  replace (S (Z.to_nat pos) - Z.to_nat pos `min` length l)%nat with 1%nat by lia. simpl.
  rewrite take_0, <- app_assoc. simpl.
  by replace (Z.to_nat pos + S (length bs))%nat with (S (Z.to_nat pos + length bs)) by lia.
Qed.

Lemma put_bytes_run l pos bs :
  0 <= pos → pos + Z.of_nat (length bs) <= Z.of_nat (length l) →
  put_bytes bs (mkWr (Some l) pos)
  = Some (tt, mkWr (Some (splice l pos bs)) (pos + Z.of_nat (length bs))).
Proof.
  revert l pos. induction bs as [|b bs IH]; intros l pos Hp Hl; simpl in *.
  - unfold ret, splice. simpl. rewrite Nat.add_0_r, take_drop, Z.add_0_r. done.
  - assert (put_byte b (mkWr (Some l) pos)
            = Some (tt, mkWr (Some (<[Z.to_nat pos := b]> l)) (pos + 1))) as Hb.
    { unfold put_byte. simpl. destruct (Z.leb_spec 0 pos); [|lia].
      destruct (Z.ltb_spec pos (Z.of_nat (length l))); [done|lia]. }
    rewrite (bind_run _ _ _ _ _ Hb), IH; [|lia|rewrite length_insert; lia].
    rewrite splice_cons by lia. do 3 f_equal. lia.
Qed.

Lemma encode_with_writes buf_len size bs :
  size = Z.of_nat (length bs) → writes buf_len (encode_with buf_len size bs) bs.
Proof.
  intros -> l pos Hp [H1 H2]. unfold encode_with. rewrite (bind_run _ _ _ _ _ eq_refl).
  unfold has_room. simpl. destruct (Z.leb_spec (Z.of_nat (length bs)) (buf_len - pos)); [|lia].
  rewrite (bind_run _ _ _ _ _ (put_bytes_run l pos bs Hp ltac:(lia))). done.
Qed.

(** Without room nothing is written. *)
Lemma encode_with_full buf_len size bs w :
  has_room buf_len size w = false → encode_with buf_len size bs w = Some (OB_SIZE_OVERFLOW, w).
Proof. intros Hr. unfold encode_with. rewrite (bind_run _ _ _ _ _ eq_refl). by rewrite Hr. Qed.

Lemma splice_app l pos bs1 bs2 :
  0 <= pos → pos + Z.of_nat (length bs1) <= Z.of_nat (length l) →
  splice (splice l pos bs1) (pos + Z.of_nat (length bs1)) bs2 = splice l pos (bs1 ++ bs2).
Proof.
  intros Hp Hl. unfold splice.
  replace (Z.to_nat (pos + Z.of_nat (length bs1))) with (Z.to_nat pos + length bs1)%nat by lia.
  rewrite (app_assoc (take (Z.to_nat pos) l) bs1 (drop _ l)).
  assert (length (take (Z.to_nat pos) l ++ bs1) = (Z.to_nat pos + length bs1)%nat) as HA
    by (rewrite length_app, length_take; lia).
  rewrite take_app_length', (drop_app_add' _ _ (Z.to_nat pos + length bs1)) by done.
  rewrite drop_drop, length_app, <- !app_assoc.
  by replace (Z.to_nat pos + (length bs1 + length bs2))%nat
    with (Z.to_nat pos + length bs1 + length bs2)%nat by lia.
Qed.

Lemma writes_seq buf_len m1 bs1 m2 bs2 :
  writes buf_len m1 bs1 → writes buf_len m2 bs2 → writes buf_len (chk! m1 else m2) (bs1 ++ bs2).
Proof.
  intros H1 H2 l pos Hp. rewrite length_app. intros [Ha Hb].
  rewrite (bind_run _ _ _ _ _ (H1 l pos Hp ltac:(lia))). cbv [ob_failed OB_SUCCESS negb Z.eqb].
  rewrite H2; [|lia|rewrite length_splice; lia].
  rewrite splice_app by lia. do 3 f_equal. lia.
Qed.

Lemma slice_splice l pos bs :
  0 <= pos → pos + Z.of_nat (length bs) <= Z.of_nat (length l) →
  slice (splice l pos bs) pos (length bs) = bs.
Proof.
  intros Hp Hl. unfold slice, splice. rewrite drop_app_length' by (rewrite length_take; lia).
  by rewrite take_app_length.
Qed.

Lemma slice_app l pos n1 n2 :
  0 <= pos → slice l pos (n1 + n2) = slice l pos n1 ++ slice l (pos + Z.of_nat n1) n2.
Proof.
  intros Hp. unfold slice. replace (Z.to_nat (pos + Z.of_nat n1)) with (Z.to_nat pos + n1)%nat by lia.
  rewrite <- (drop_drop l).
  rewrite <- (take_drop n1 (drop (Z.to_nat pos) l)) at 1.
  destruct (decide (n1 <= length (drop (Z.to_nat pos) l))%nat).
  - rewrite take_app_add' by (rewrite length_take; lia). done.
  - rewrite (drop_ge _ n1), take_nil, !app_nil_r, take_take by lia. f_equal. lia.
Qed.

Lemma slice_app_inv l pos bs1 bs2 :
  0 <= pos → slice l pos (length (bs1 ++ bs2)) = bs1 ++ bs2 →
  slice l pos (length bs1) = bs1 ∧ slice l (pos + Z.of_nat (length bs1)) (length bs2) = bs2.
Proof.
  intros Hp Hs. rewrite length_app, slice_app in Hs by done.
  assert (length (slice l pos (length bs1)) = length bs1) as Hlen.
  { pose proof (f_equal length Hs) as Hl. rewrite !length_app in Hl.
    unfold slice in *. rewrite !length_take in *. lia. }
  by apply app_inj_1 in Hs.
Qed.

Lemma slice_cons l pos b bs :
  0 <= pos → slice l pos (S (length bs)) = b :: bs →
  l !! Z.to_nat pos = Some b ∧ slice l (pos + 1) (length bs) = bs.
Proof.
  intros Hp Hs. destruct (slice_app_inv l pos [b] bs Hp Hs) as [H1 H2]. split; [|done].
  unfold slice in H1. simpl in H1. destruct (drop (Z.to_nat pos) l) as [|x t] eqn:E; [done|].
  injection H1 as ->. rewrite <- (Nat.add_0_r (Z.to_nat pos)), <- lookup_drop, E. done.
Qed.

Lemma byte_at_lookup l pos : 0 <= pos → byte_at (Some l) pos = l !! Z.to_nat pos.
Proof. intros Hp. unfold byte_at. by destruct (Z.leb_spec 0 pos); [|lia]. Qed.

Lemma get_bytes_run l pos bs :
  0 <= pos → slice l pos (length bs) = bs →
  get_bytes (Some l) (length bs) pos = Some (bs, pos + Z.of_nat (length bs)).
Proof.
  revert pos. induction bs as [|b bs IH]; intros pos Hp Hs.
  { simpl. by rewrite Z.add_0_r. }
  destruct (slice_cons _ _ _ _ Hp Hs) as [Hb Hs'].
  cbn [get_bytes length]. unfold bind at 1. rewrite byte_at_lookup, Hb by done.
  rewrite (bind_run _ _ _ _ _ (IH (pos + 1) ltac:(lia) Hs')). unfold ret. do 2 f_equal. lia.
Qed.

Lemma decode_with_reads l data_len n val_of bs :
  length bs = n → reads l data_len (decode_with (Some l) data_len n val_of) bs (val_of bs).
Proof.
  intros <- pos Hp Hlen Hs. unfold decode_with. rewrite (bind_run _ _ _ _ _ eq_refl).
  destruct (Z.leb_spec (Z.of_nat (length bs)) (data_len - pos)); [|lia].
  by rewrite (bind_run _ _ _ _ _ (get_bytes_run l pos bs Hp Hs)).
Qed.

(** ** Variable-length integers *)
Lemma vi_byte_low v : Z.land (u8 (Z.lor v 128)) 127 = v mod 128.
Proof.
  apply Z.bits_inj'. intros i Hi. unfold wrapu. change 127 with (Z.ones 7). change 128 with (2 ^ 7).
  rewrite Z.land_spec, Z.testbit_ones_nonneg by lia. destruct (Z.ltb_spec i 7).
  - rewrite andb_true_r, !Z.mod_pow2_bits_low, Z.lor_spec, Z.pow2_bits_false by lia. apply orb_false_r.
  - rewrite andb_false_r, Z.mod_pow2_bits_high by lia. done.
Qed.

Lemma vi_byte_cont v : Z.land (u8 (Z.lor v 128)) 128 = 128.
Proof.
  apply Z.bits_inj'. intros i Hi. unfold wrapu. change 128 with (2 ^ 7).
  rewrite Z.land_spec. destruct (decide (i = 7)) as [->|].
  - rewrite Z.mod_pow2_bits_low, Z.lor_spec, Z.pow2_bits_true by lia. by rewrite orb_true_r.
  - rewrite Z.pow2_bits_false by lia. apply andb_false_r.
Qed.

Lemma vi_last v : 0 <= v <= 127 → Z.land (Z.land v 127) 127 = v ∧ Z.land (Z.land v 127) 128 = 0.
Proof.
  intros Hv. rewrite <- !Z.land_assoc. change (Z.land 127 127) with (Z.ones 7).
  change (Z.land 127 128) with 0. rewrite Z.land_ones, Z.land_0_r by lia.
  split; [apply Z.mod_small; lia|done].
Qed.

Lemma vi_split v shift :
  0 <= v → 0 <= shift →
  Z.lor (Z.shiftl (v mod 128) shift) (Z.shiftl (Z.shiftr v 7) (shift + 7)) = Z.shiftl v shift.
Proof.
  intros Hv Hs. rewrite (Z.add_comm shift 7), <- Z.shiftl_shiftl, <- Z.shiftl_lor by lia.
  f_equal. apply Z.bits_inj'. intros i Hi. change 128 with (2 ^ 7). rewrite Z.lor_spec.
  destruct (Z.ltb_spec i 7).
  - rewrite Z.mod_pow2_bits_low, Z.shiftl_spec_low by lia. apply orb_false_r.
  - rewrite Z.mod_pow2_bits_high, Z.shiftl_spec, Z.shiftr_spec by lia. simpl. f_equal. lia.
Qed.

Lemma shiftr7 v : 0 <= v → 0 <= Z.shiftr v 7 ∧ v = 128 * Z.shiftr v 7 + v mod 128.
Proof.
  intros Hv. rewrite Z.shiftr_div_pow2 by lia. change (2 ^ 7) with 128.
  split; [apply Z.div_pos; lia|]. apply Z.div_mod. lia.
Qed.

(** Decoding a string of continuation bytes that starts at bit [shift]. *)
Lemma decode_vi_loop_run l data_len f v pos acc shift fuel :
  0 <= v < 2 ^ (7 * Z.of_nat f) → (0 < f)%nat → 0 <= shift < 64 → v * 2 ^ shift < 2 ^ 64 → 0 <= pos →
  pos + Z.of_nat (length (vi_bytes f v)) <= data_len →
  slice l pos (length (vi_bytes f v)) = vi_bytes f v → (length (vi_bytes f v) <= fuel)%nat →
  decode_vi64_loop fuel (Some l) data_len pos acc shift
  = Some (OB_SUCCESS, Z.lor acc (Z.shiftl v shift), pos + Z.of_nat (length (vi_bytes f v))).
Proof.
  revert v pos acc shift fuel.
  induction f as [|f IH]; intros v pos acc shift fuel Hv Hf Hs Hb Hp Hd Hsl Hfuel; [lia|].
  cbn [vi_bytes] in *. change (OB_MAX_VB 1) with 127 in *.
  assert (∀ x, 0 <= x <= v → u64 (Z.shiftl x shift) = Z.shiftl x shift) as Hu.
  { intros x Hx. apply wrapu_small. unfold in_u. rewrite Z.shiftl_mul_pow2 by lia. nia. }
  destruct (Z.ltb_spec 127 v) as [Hbig|Hsmall].
  - destruct (slice_cons _ _ _ _ Hp Hsl) as [Hbyte Hrest]. cbn [length] in *.
    destruct fuel as [|fuel]; [lia|]. cbn [decode_vi64_loop].
    rewrite byte_at_lookup, Hbyte by done.
    destruct (Z.ltb_spec (data_len - pos) 1); [lia|]. destruct (Z.leb_spec 64 shift); [lia|].
    rewrite vi_byte_low, vi_byte_cont. cbn [Z.eqb negb Pos.eqb].
    destruct (shiftr7 v ltac:(lia)) as [Hr Hsplit].
    assert (2 ^ (7 * Z.of_nat (S f)) = 128 * 2 ^ (7 * Z.of_nat f)) as Hpow.
    { change 128 with (2 ^ 7). rewrite <- Z.pow_add_r by lia. f_equal. lia. }
    assert (2 ^ (shift + 7) = 128 * 2 ^ shift) as Hps by (rewrite Z.pow_add_r by lia; lia).
    assert (shift + 7 < 64) as Hshift.
    { destruct (Z.lt_ge_cases (shift + 7) 64) as [|Hge]; [done|].
      pose proof (Z.pow_le_mono_r 2 64 (shift + 7) ltac:(lia) Hge). nia. }
    assert (0 < f)%nat by (destruct f; [simpl in *; lia|lia]).
    pose proof (Z.mod_pos_bound v 128 ltac:(lia)).
    assert (Z.shiftr v 7 * 2 ^ (shift + 7) < 2 ^ 64) by (rewrite Hps; nia).
    rewrite (IH (Z.shiftr v 7)); try lia; [|done].
    rewrite Hu, <- Z.lor_assoc, vi_split by lia.
    do 2 f_equal. lia.
  - destruct (slice_cons _ _ _ [] Hp Hsl) as [Hbyte _]. cbn [length] in *.
    destruct fuel as [|fuel]; [lia|]. cbn [decode_vi64_loop].
    rewrite byte_at_lookup, Hbyte by done.
    destruct (Z.ltb_spec (data_len - pos) 1); [lia|]. destruct (Z.leb_spec 64 shift); [lia|].
    destruct (vi_last v ltac:(lia)) as [-> ->]. cbn [Z.eqb negb]. rewrite Hu by lia. done.
Qed.

Lemma length_vi_bytes f k v :
  (0 < k <= f)%nat → (k ≠ 1%nat → 2 ^ (7 * Z.of_nat (k - 1)) <= v) → 0 <= v < 2 ^ (7 * Z.of_nat k) →
  length (vi_bytes f v) = k.
Proof.
  revert k v. induction f as [|f IH]; intros k v Hk Hlo Hv; [lia|].
  cbn [vi_bytes]. change (OB_MAX_VB 1) with 127. destruct (Z.ltb_spec 127 v) as [Hbig|Hsmall].
  - assert (k ≠ 1%nat) as Hk1 by (intros ->; simpl in Hv; lia). specialize (Hlo Hk1).
    simpl. f_equal. destruct (shiftr7 v ltac:(lia)) as [Hr Hsplit].
    pose proof (Z.mod_pos_bound v 128 ltac:(lia)).
    assert (∀ j, (0 < j)%nat → 2 ^ (7 * Z.of_nat j) = 128 * 2 ^ (7 * Z.of_nat (j - 1))) as Hpow.
    { intros j Hj. change 128 with (2 ^ 7). rewrite <- Z.pow_add_r by lia. f_equal. lia. }
    rewrite (IH (k - 1)%nat); [lia|lia| |].
    + intros Hk2. rewrite (Hpow (k - 1)%nat ltac:(lia)) in Hlo. lia.
    + rewrite (Hpow k ltac:(lia)) in Hv. lia.
  - destruct (decide (k = 1%nat)) as [->|Hk1]; [done|]. specialize (Hlo Hk1).
    assert (2 ^ 7 <= 2 ^ (7 * Z.of_nat (k - 1))) by (apply Z.pow_le_mono_r; lia). lia.
Qed.

Ltac compute_pow :=
  repeat match goal with
  | |- context [2 ^ ?n] => let x := eval vm_compute in (2 ^ n) in change (2 ^ n) with x
  | H : context [2 ^ ?n] |- _ => let x := eval vm_compute in (2 ^ n) in change (2 ^ n) with x in H
  end.

Lemma encoded_length_vi_bytes val :
  encoded_length_vi64 val = Z.of_nat (length (vi_bytes 10 (u64 val))).
Proof.
  unfold encoded_length_vi64, OB_MAX_VB. cbv zeta. pose proof (wrapu_range 64 val ltac:(lia)) as [H0 H1].
  set (v := u64 val) in *.
  repeat match goal with
  | |- context [if ?a <=? ?b then ?c else _] =>
      destruct (Z.leb_spec a b);
      [rewrite (length_vi_bytes 10 (Z.to_nat c));
       [done|lia|intros ?; compute_pow; lia|compute_pow; lia]|]
  end.
  rewrite (length_vi_bytes 10 10); [done|lia|intros _; compute_pow; lia|compute_pow; lia].
Qed.

Lemma vi64_writes buf_len val : writes buf_len (encode_vi64 buf_len val) (vi_bytes 10 (u64 val)).
Proof. apply encode_with_writes, encoded_length_vi_bytes. Qed.

Lemma vi64_reads l data_len val :
  in_s 64 val → reads l data_len (decode_vi64 (Some l) data_len) (vi_bytes 10 (u64 val)) val.
Proof.
  intros Hval pos Hp Hd Hs. unfold decode_vi64. pose proof (wrapu_range 64 val ltac:(lia)) as Hu.
  assert (length (vi_bytes 10 (u64 val)) <= S (length l))%nat as Hlen.
  { rewrite <- Hs at 1. unfold slice. rewrite length_take, length_drop. lia. }
  unfold in_u in Hu.
  rewrite (decode_vi_loop_run l data_len 10 (u64 val)); [|compute_pow; lia|lia|lia|lia|done..].
  change (ob_failed OB_SUCCESS) with false. cbv iota.
  rewrite Z.lor_0_l, Z.shiftl_0_r, wraps_wrapu, wraps_small by done. done.
Qed.

Lemma splice_outside l pos bs i :
  0 <= pos → pos + Z.of_nat (length bs) <= Z.of_nat (length l) →
  (i < Z.to_nat pos)%nat ∨ (Z.to_nat pos + length bs <= i)%nat → splice l pos bs !! i = l !! i.
Proof.
  intros Hp Hl [Hi|Hi]; unfold splice.
  - rewrite lookup_app_l by (rewrite length_take; lia). apply lookup_take_lt. lia.
  - rewrite lookup_app_r, length_take by (rewrite length_take; lia).
    rewrite lookup_app_r, lookup_drop by lia. f_equal. lia.
Qed.

(** What writing [bs] and reading it back amounts to. *)
Lemma write_read {A} (enc : M Wr Z) (dec : buf_t → M Z (Z * A)) bs a l pos :
  writes (Z.of_nat (length l)) enc bs →
  (∀ l', reads l' (Z.of_nat (length l)) (dec (Some l')) bs a) →
  0 <= pos → pos + Z.of_nat (length bs) <= Z.of_nat (length l) →
  ∃ l', enc (mkWr (Some l) pos) = Some (OB_SUCCESS, mkWr (Some l') (pos + Z.of_nat (length bs)))
    ∧ dec (Some l') pos = Some ((OB_SUCCESS, a), pos + Z.of_nat (length bs))
    ∧ length l' = length l
    ∧ ∀ i, (i < Z.to_nat pos)%nat ∨ (Z.to_nat pos + length bs <= i)%nat → l' !! i = l !! i.
Proof.
  intros Hw Hr Hp Hl. exists (splice l pos bs). split; [apply Hw; [done|lia]|].
  split; [apply Hr; [done|lia|by apply slice_splice]|].
  split; [by apply length_splice|]. intros i. by apply splice_outside.
Qed.

(** Encoders and decoders of the fixed-width integers, by size in bytes. *)
Definition encode_int (n : Z) : Z → Z → M Wr Z :=
  if n =? 1 then encode_i8 else if n =? 2 then encode_i16 else if n =? 4 then encode_i32 else encode_i64.
Definition decode_int (n : Z) : buf_t → Z → M Z (Z * Z) :=
  if n =? 1 then decode_i8 else if n =? 2 then decode_i16 else if n =? 4 then decode_i32 else decode_i64.

Lemma int_writes n buf_len v :
  n = 1 ∨ n = 2 ∨ n = 4 ∨ n = 8 → writes buf_len (encode_int n buf_len v) (be_bytes (Z.to_nat n) v).
Proof. intros [-> |[-> |[-> | ->]]]; by apply encode_with_writes. Qed.

Lemma int_reads n l data_len v :
  n = 1 ∨ n = 2 ∨ n = 4 ∨ n = 8 → in_s (8 * n) v →
  reads l data_len (decode_int n (Some l) data_len) (be_bytes (Z.to_nat n) v) v.
Proof.
  intros Hn Hv. assert (v = wraps (8 * n) (be_or (be_bytes (Z.to_nat n) v))) as Hb.
  { rewrite <- (Z2Nat.id n) at 1 by lia. symmetry. apply be_roundtrip; [lia|].
    by rewrite Z2Nat.id by lia. }
  rewrite Hb at 2. destruct Hn as [-> |[-> |[-> | ->]]]; by apply (decode_with_reads l).
Qed.

(** ** The padded encoding of [encode_fixed_bytes_i64] *)
Lemma length_fixed_bytes n v : length (fixed_bytes n v) = n.
Proof.
  revert v. induction n as [|[|n] IH]; intros v; [done|done|].
  change (fixed_bytes (S (S n)) v) with (u8 (Z.lor v 128) :: fixed_bytes (S n) (Z.shiftr v 7)).
  cbn [length]. by rewrite IH.
Qed.

Lemma fixed_last v : Z.land (Z.land v 127) 127 = v mod 128 ∧ Z.land (Z.land v 127) 128 = 0.
Proof.
  rewrite <- !Z.land_assoc. change (Z.land 127 127) with (Z.ones 7).
  change (Z.land 127 128) with 0. by rewrite Z.land_ones, Z.land_0_r by lia.
Qed.

Lemma fixed_split v n :
  0 <= v → 0 <= n →
  v mod 2 ^ (n + 7) = v mod 128 + 128 * (Z.shiftr v 7 mod 2 ^ n).
Proof.
  intros Hv Hn. rewrite Z.shiftr_div_pow2 by lia. change (2 ^ 7) with 128.
  replace (2 ^ (n + 7)) with (128 * 2 ^ n) by (rewrite Z.pow_add_r by lia; lia).
  apply Z.rem_mul_r; [lia|]. apply Z.pow_pos_nonneg; lia.
Qed.

Lemma lor_shiftl_add a b shift :
  0 <= a < 128 → 0 <= b → 0 <= shift →
  Z.lor (Z.shiftl a shift) (Z.shiftl b (shift + 7)) = Z.shiftl (a + 128 * b) shift.
Proof.
  intros Ha Hb Hs. rewrite <- (vi_split (a + 128 * b) shift) by lia.
  rewrite Z.shiftr_div_pow2 by lia. change (2 ^ 7) with 128. f_equal; f_equal.
  - apply Z.mod_unique with (q := b); lia.
  - apply Z.div_unique with (r := a); lia.
Qed.

Lemma decode_fixed_run l data_len n v pos acc shift fuel :
  0 <= v → 0 <= shift → shift + 7 * Z.of_nat (S n) <= 64 → 0 <= pos →
  pos + Z.of_nat (S n) <= data_len →
  slice l pos (S n) = fixed_bytes (S n) v → (S n <= fuel)%nat →
  decode_vi64_loop fuel (Some l) data_len pos acc shift
  = Some (OB_SUCCESS, Z.lor acc (Z.shiftl (v mod 2 ^ (7 * Z.of_nat (S n))) shift),
          pos + Z.of_nat (S n)).
Proof.
  revert v pos acc shift fuel.
  induction n as [|n IH]; intros v pos acc shift fuel Hv Hs Hsh Hp Hd Hsl Hfuel;
    (destruct fuel as [|fuel]; [lia|]);
    pose proof (Z.mod_pos_bound v 128 ltac:(lia)) as Hm;
    assert (u64 (Z.shiftl (v mod 128) shift) = Z.shiftl (v mod 128) shift) as Hu
      by (apply wrapu_small; unfold in_u; rewrite Z.shiftl_mul_pow2 by lia;
          pose proof (Z.pow_le_mono_r 2 (shift + 7) 64 ltac:(lia) ltac:(lia)) as Hle;
          rewrite Z.pow_add_r in Hle by lia; change (2 ^ 7) with 128 in Hle; nia).
  - destruct (slice_cons l pos _ [] Hp Hsl) as [Hbyte _].
    cbn [decode_vi64_loop]. rewrite byte_at_lookup, Hbyte by done.
    destruct (Z.ltb_spec (data_len - pos) 1); [lia|]. destruct (Z.leb_spec 64 shift); [lia|].
    destruct (fixed_last v) as [-> ->]. cbn [Z.eqb negb]. rewrite Hu. reflexivity.
  - change (fixed_bytes (S (S n)) v) with (u8 (Z.lor v 128) :: fixed_bytes (S n) (Z.shiftr v 7)) in Hsl.
    pose proof (slice_cons l pos (u8 (Z.lor v 128)) (fixed_bytes (S n) (Z.shiftr v 7)) Hp) as Hc.
    rewrite length_fixed_bytes in Hc. destruct (Hc Hsl) as [Hbyte Hrest].
    cbn [decode_vi64_loop]. rewrite byte_at_lookup, Hbyte by done.
    destruct (Z.ltb_spec (data_len - pos) 1); [lia|]. destruct (Z.leb_spec 64 shift); [lia|].
    rewrite vi_byte_low, vi_byte_cont. cbn [Z.eqb negb Pos.eqb].
    destruct (shiftr7 v Hv) as [Hr _].
    rewrite (IH (Z.shiftr v 7)); [|lia|lia|lia|lia|lia|done|lia].
    replace (7 * Z.of_nat (S (S n))) with (7 * Z.of_nat (S n) + 7) by lia.
    rewrite fixed_split, Hu, <- Z.lor_assoc, lor_shiftl_add by
      (try apply Z.mod_pos_bound; try apply Z.pow_pos_nonneg; lia).
    do 2 f_equal. lia.
Qed.

Lemma fixed_writes buf_len val :
  writes buf_len (encode_fixed_bytes_i64 buf_len val) (fixed_bytes 5 (u64 val)).
Proof. by apply encode_with_writes; rewrite length_fixed_bytes. Qed.

Lemma fixed_reads l data_len val :
  reads l data_len (decode_vi64 (Some l) data_len) (fixed_bytes 5 (u64 val)) (val mod 2 ^ 35).
Proof.
  intros pos Hp Hd Hs. unfold decode_vi64. pose proof (wrapu_range 64 val ltac:(lia)) as [Hu _].
  rewrite length_fixed_bytes in *.
  assert (5 <= S (length l))%nat as Hlen.
  { pose proof (f_equal length Hs) as Hl. rewrite length_fixed_bytes in Hl.
    unfold slice in Hl. rewrite length_take, length_drop in Hl. lia. }
  rewrite (decode_fixed_run l data_len 4 (u64 val)); [|lia..|done|lia].
  change (ob_failed OB_SUCCESS) with false. cbv iota. change (7 * Z.of_nat 5) with 35.
  rewrite Z.lor_0_l, Z.shiftl_0_r.
  assert (u64 val mod 2 ^ 35 = val mod 2 ^ 35) as ->.
  { unfold wrapu. change (2 ^ 64) with (2 ^ 35 * 2 ^ 29). rewrite Z.rem_mul_r by done.
    rewrite (Z.mul_comm (2 ^ 35)), Z.mod_add, Z.mod_mod by done. done. }
  rewrite wraps_small; [done|lia|]. unfold in_s.
  pose proof (Z.mod_pos_bound val (2 ^ 35) ltac:(lia)). compute_pow. lia.
Qed.

(** ** Errors *)
Lemma decode_with_short buf data_len n val_of pos :
  buf = None ∨ data_len - pos < Z.of_nat n →
  decode_with buf data_len n val_of pos = Some ((OB_DESERIALIZE_ERROR, 0), pos).
Proof.
  intros Hs. unfold decode_with. rewrite (bind_run _ _ _ _ _ eq_refl).
  destruct buf as [l|]; [|done]. destruct Hs as [|Hs]; [done|].
  by destruct (Z.leb_spec (Z.of_nat n) (data_len - pos)); [lia|].
Qed.

Lemma vi_loop_overread l fuel pos v shift :
  0 <= pos → Forall (fun b => Z.land b 128 ≠ 0) (drop (Z.to_nat pos) l) →
  decode_vi64_loop fuel (Some l) (Z.of_nat (length l)) pos v shift = None.
Proof.
  revert pos v shift. induction fuel as [|fuel IH]; intros pos v shift Hp Hc; [done|].
  cbn [decode_vi64_loop]. rewrite byte_at_lookup by done.
  destruct (l !! Z.to_nat pos) as [b|] eqn:Hb; [|done].
  pose proof (lookup_lt_Some _ _ _ Hb). rewrite (drop_S _ _ _ Hb) in Hc.
  inversion_clear Hc as [|? ? Hb1 Hc1]. destruct (Z.ltb_spec (Z.of_nat (length l) - pos) 1); [lia|].
  destruct (64 <=? shift); [done|].
  destruct (Z.eqb_spec (Z.land b 128) 0); [done|]. cbn [negb]. apply IH; [lia|].
  by replace (Z.to_nat (pos + 1)) with (S (Z.to_nat pos)) by lia.
Qed.

(** * The theorems *)

(** : a fixed-width integer (8, 16, 32 or 64 bits) of its width, written by
    its encoder at a position with room, is read back by its decoder at that
    position; both move the position by the size of the integer, the bytes of the
    buffer outside of it are kept, and the length of the buffer too. *)
Theorem ser_int_roundtrip n v l pos :
  n = 1 ∨ n = 2 ∨ n = 4 ∨ n = 8 → in_s (8 * n) v → 0 <= pos → pos + n <= Z.of_nat (length l) →
  ∃ l', encode_int n (Z.of_nat (length l)) v (mkWr (Some l) pos)
        = Some (OB_SUCCESS, mkWr (Some l') (pos + n))
    ∧ decode_int n (Some l') (Z.of_nat (length l)) pos = Some ((OB_SUCCESS, v), pos + n)
    ∧ length l' = length l
    ∧ ∀ i, (i < Z.to_nat pos)%nat ∨ (Z.to_nat (pos + n) <= i)%nat → l' !! i = l !! i.
Proof.
  intros Hn Hv Hp Hl. assert (Z.of_nat (length (be_bytes (Z.to_nat n) v)) = n) as Hlen
    by (rewrite length_be_bytes; lia).
  destruct (write_read (encode_int n (Z.of_nat (length l)) v)
    (fun b => decode_int n b (Z.of_nat (length l))) (be_bytes (Z.to_nat n) v) v l pos)
    as (l' & H1 & H2 & H3 & H4); [by apply int_writes|intros; by apply int_reads|done|lia|].
  rewrite Hlen in *. exists l'. do 3 (split; [done|]). intros i Hi. apply H4. lia.
Qed.

(** Every [int64_t] survives the variable-length encoding, which takes
    exactly [encoded_length_vi64] bytes (one to ten); bytes outside of them are kept. *)
Theorem ser_vi64_roundtrip v l pos :
  in_s 64 v → 0 <= pos → pos + encoded_length_vi64 v <= Z.of_nat (length l) →
  ∃ l', encode_vi64 (Z.of_nat (length l)) v (mkWr (Some l) pos)
        = Some (OB_SUCCESS, mkWr (Some l') (pos + encoded_length_vi64 v))
    ∧ decode_vi64 (Some l') (Z.of_nat (length l)) pos
        = Some ((OB_SUCCESS, v), pos + encoded_length_vi64 v)
    ∧ length l' = length l
    ∧ ∀ i, (i < Z.to_nat pos)%nat ∨ (Z.to_nat (pos + encoded_length_vi64 v) <= i)%nat → l' !! i = l !! i.
Proof.
  intros Hv Hp Hl. rewrite encoded_length_vi_bytes in *.
  destruct (write_read (encode_vi64 (Z.of_nat (length l)) v)
    (fun b => decode_vi64 b (Z.of_nat (length l))) (vi_bytes 10 (u64 v)) v l pos)
    as (l' & H1 & H2 & H3 & H4); [apply vi64_writes|intros; by apply vi64_reads|done|done|].
  exists l'. do 3 (split; [done|]). intros i Hi. apply H4. lia.
Qed.

(** The padded encoding of [encode_fixed_bytes_i64] always takes five bytes
    and is read by [decode_vi64] as the value modulo [2^35]: it is compatible, as
    its comment says, for the values below [2^35], and loses the high bits of others. *)
Theorem ser_fixed_bytes_compatible v l pos :
  0 <= pos → pos + 5 <= Z.of_nat (length l) →
  ∃ l', encode_fixed_bytes_i64 (Z.of_nat (length l)) v (mkWr (Some l) pos)
        = Some (OB_SUCCESS, mkWr (Some l') (pos + 5))
    ∧ decode_vi64 (Some l') (Z.of_nat (length l)) pos = Some ((OB_SUCCESS, v mod 2 ^ 35), pos + 5).
Proof.
  intros Hp Hl.
  destruct (write_read (encode_fixed_bytes_i64 (Z.of_nat (length l)) v)
    (fun b => decode_vi64 b (Z.of_nat (length l))) (fixed_bytes 5 (u64 v)) (v mod 2 ^ 35) l pos)
    as (l' & H1 & H2 & _); [apply fixed_writes|intros; apply fixed_reads|done| |].
  { rewrite length_fixed_bytes. lia. }
  rewrite length_fixed_bytes in *. exists l'. by split.
Qed.

(** Without room (or with a [NULL] buffer) every encoder reports
    [OB_SIZE_OVERFLOW] and writes nothing, and every fixed-width decoder reports
    [OB_DESERIALIZE_ERROR] and stays where it is. *)
Theorem ser_no_room n buf pos len v :
  n = 1 ∨ n = 2 ∨ n = 4 ∨ n = 8 →
  (buf = None ∨ len - pos < n →
     encode_int n len v (mkWr buf pos) = Some (OB_SIZE_OVERFLOW, mkWr buf pos)
     ∧ decode_int n buf len pos = Some ((OB_DESERIALIZE_ERROR, 0), pos))
  ∧ (buf = None ∨ len - pos < encoded_length_vi64 v →
     encode_vi64 len v (mkWr buf pos) = Some (OB_SIZE_OVERFLOW, mkWr buf pos))
  ∧ (buf = None ∨ len - pos < OB_SERIALIZE_SIZE_NEED_BYTES →
     encode_fixed_bytes_i64 len v (mkWr buf pos) = Some (OB_SIZE_OVERFLOW, mkWr buf pos)).
Proof.
  intros Hn.
  assert (∀ size, buf = None ∨ len - pos < size → has_room len size (mkWr buf pos) = false) as Hr.
  { intros size Hs. unfold has_room. cbn. destruct buf; [|done]. destruct Hs; [done|].
    by destruct (Z.leb_spec size (len - pos)); [lia|]. }
  split; [intros Hs; split|split; intros Hs].
  - destruct Hn as [-> |[-> |[-> | ->]]]; by apply encode_with_full, Hr.
  - destruct Hn as [-> |[-> |[-> | ->]]]; by apply decode_with_short.
  - by apply encode_with_full, Hr.
  - by apply encode_with_full, Hr.
Qed.

(** : a truncated variable-length integer is not an error of [decode_vi64]:
    when every byte from the position to the end of the buffer asks for another
    one (an empty rest included), the decoder reads outside of the buffer or
    shifts by 64 bits or more, although it is given the right length. *)
Theorem decode_vi64_truncated l pos :
  0 <= pos → Forall (fun b => Z.land b 128 ≠ 0) (drop (Z.to_nat pos) l) →
  decode_vi64 (Some l) (Z.of_nat (length l)) pos = None.
Proof. intros Hp Hc. unfold decode_vi64. by rewrite vi_loop_overread. Qed.

(** * Witnesses *)
Lemma ser_int_roundtrip_witness :
  ∃ l', decode_int 4 (Some l') 6 1 = Some ((OB_SUCCESS, -2), 5) ∧ length l' = 6%nat.
Proof.
  destruct (ser_int_roundtrip 4 (-2) [9; 9; 9; 9; 9; 9] 1) as (l' & _ & H & Hl & _);
    [by right; right; left|split; vm_compute; congruence|lia|vm_compute; congruence|].
  exists l'. split; [exact H|exact Hl].
Defined.

Lemma ser_vi64_roundtrip_witness :
  encoded_length_vi64 300 = 2 ∧ ∃ l', decode_vi64 (Some l') 3 1 = Some ((OB_SUCCESS, 300), 3).
Proof.
  split; [reflexivity|].
  destruct (ser_vi64_roundtrip 300 [9; 9; 9] 1) as (l' & _ & H & _);
    [split; vm_compute; congruence|lia|vm_compute; congruence|]. exists l'. exact H.
Defined.

Lemma ser_fixed_bytes_compatible_witness :
  ∃ l', decode_vi64 (Some l') 5 0 = Some ((OB_SUCCESS, 7), 5).
Proof.
  destruct (ser_fixed_bytes_compatible (2 ^ 35 + 7) [9; 9; 9; 9; 9] 0) as (l' & _ & H);
    [lia|vm_compute; congruence|]. exists l'. exact H.
Defined.

Lemma ser_no_room_witness :
  encode_int 8 7 5 (mkWr (Some [0; 0; 0; 0; 0; 0; 0]) 0)
  = Some (OB_SIZE_OVERFLOW, mkWr (Some [0; 0; 0; 0; 0; 0; 0]) 0).
Proof.
  refine (proj1 (proj1 (ser_no_room 8 (Some [0; 0; 0; 0; 0; 0; 0]) 0 7 5 _) _));
    [by right; right; right|right; lia].
Defined.

Lemma decode_vi64_truncated_witness : decode_vi64 (Some [130]) 1 0 = None.
Proof. apply (decode_vi64_truncated [130] 0); [lia|]. repeat constructor. vm_compute. congruence. Defined.
End Ser.
