(* ===== verification/Scn.v ===== *)
(** [share::SCN] of [src/share/scn.h] and [scn.cpp]: a 64-bit word whose low 62 bits
    are a timestamp and whose high 2 bits are a version; only version 0 is valid.
    The orders, the arithmetic, the conversions and both serializations. *)
From S2P Require Import Prelude Serialization.
Import Ser.

Module Scn.
Definition OB_INVALID_SCN_VAL : Z := UINT64_MAX.
Definition OB_MIN_SCN_TS_NS : Z := 0.
Definition OB_BASE_SCN_TS_NS : Z := 1.
Definition OB_MAX_SCN_TS_NS : Z := 2 ^ 62 - 1.
Definition SCN_VERSION : Z := 0.

(** [val_], an unsigned 64-bit word; [ts_ns_] and [v_] are its bit fields. *)
Record SCN : Set := mkSCN { val_ : Z }.
#[global] Instance SCN_eq_dec : EqDecision SCN.
Proof. solve_decision. Defined.

Definition ts_ns_ (s : SCN) : Z := Z.land (val_ s) (Z.ones 62).
Definition v_ (s : SCN) : Z := Z.shiftr (val_ s) 62.
(** Assigning both bit fields. *)
Definition of_fields (v ts : Z) : SCN :=
  mkSCN (Z.lor (Z.shiftl (wrapu 2 v) 62) (wrapu 62 ts)).

Definition wf (s : SCN) : Prop := in_u 64 (val_ s).

Definition reset (s : SCN) : SCN := mkSCN OB_INVALID_SCN_VAL.
Definition is_valid (s : SCN) : bool := SCN_VERSION =? v_ s.
Definition is_valid_and_not_min (s : SCN) : bool :=
  (SCN_VERSION =? v_ s) && negb (OB_MIN_SCN_TS_NS =? val_ s).
Definition is_max (s : SCN) : bool := (v_ s =? SCN_VERSION) && (ts_ns_ s =? OB_MAX_SCN_TS_NS).
Definition is_min (s : SCN) : bool := (v_ s =? SCN_VERSION) && (ts_ns_ s =? OB_MIN_SCN_TS_NS).
Definition is_base_scn (s : SCN) : bool := (SCN_VERSION =? v_ s) && (OB_BASE_SCN_TS_NS =? ts_ns_ s).

Definition set_max (s : SCN) : SCN := of_fields SCN_VERSION OB_MAX_SCN_TS_NS.
Definition set_min (s : SCN) : SCN := of_fields SCN_VERSION OB_MIN_SCN_TS_NS.
Definition set_base (s : SCN) : SCN := of_fields SCN_VERSION OB_BASE_SCN_TS_NS.
#[global] Arguments ts_ns_ : simpl never.
#[global] Arguments v_ : simpl never.
#[global] Arguments of_fields : simpl never.

Definition invalid_scn : SCN := mkSCN OB_INVALID_SCN_VAL.
Definition max_scn : SCN := set_max invalid_scn.
Definition min_scn : SCN := set_min invalid_scn.
Definition base_scn : SCN := set_base invalid_scn.

(** * Comparison: an invalid SCN is below every valid one *)
Definition scn_eqb (a b : SCN) : bool := val_ a =? val_ b.
Definition scn_ltb (a b : SCN) : bool :=
  if negb (is_valid a) && negb (is_valid b) then false
  else if negb (is_valid a) then true
  else if negb (is_valid b) then false
  else ts_ns_ a <? ts_ns_ b.
Definition scn_leb (a b : SCN) : bool :=
  if negb (is_valid a) && negb (is_valid b) then true
  else if negb (is_valid a) then true
  else if negb (is_valid b) then false
  else ts_ns_ a <=? ts_ns_ b.
Definition scn_gtb (a b : SCN) : bool :=
  if negb (is_valid a) && negb (is_valid b) then false
  else if negb (is_valid a) then false
  else if negb (is_valid b) then true
  else ts_ns_ b <? ts_ns_ a.
Definition scn_geb (a b : SCN) : bool :=
  if negb (is_valid a) && negb (is_valid b) then true
  else if negb (is_valid a) then false
  else if negb (is_valid b) then true
  else ts_ns_ b <=? ts_ns_ a.

Definition max (left right : SCN) : SCN :=
  if negb (is_valid left) then right
  else if negb (is_valid right) then left
  else if scn_gtb right left then right else left.
Definition min (left right : SCN) : SCN :=
  if negb (is_valid left) then left
  else if negb (is_valid right) then right
  else if scn_ltb right left then right else left.

(** * Arithmetic: an invalid SCN where the result does not exist *)
Definition plus (ref : SCN) (delta : Z) : SCN :=
  if (OB_MAX_SCN_TS_NS <=? delta) || negb (is_valid ref) then invalid_scn
  else
    let new_val := u64 (val_ ref + delta) in
    if OB_MAX_SCN_TS_NS <? new_val then invalid_scn else mkSCN new_val.
Definition minus (ref : SCN) (delta : Z) : SCN :=
  if (OB_MAX_SCN_TS_NS <=? delta) || negb (is_valid ref) then invalid_scn
  else if val_ ref <? delta then invalid_scn
  else mkSCN (u64 (val_ ref - delta)).
Definition scn_inc (ref : SCN) : SCN :=
  if OB_MAX_SCN_TS_NS <=? val_ ref then mkSCN OB_INVALID_SCN_VAL else mkSCN (u64 (val_ ref + 1)).
Definition scn_dec (ref : SCN) : SCN :=
  if (OB_MIN_SCN_TS_NS =? val_ ref) || negb (is_valid ref) then mkSCN OB_INVALID_SCN_VAL
  else mkSCN (u64 (val_ ref - 1)).

(** ** The compare-and-swap loops

    Between two attempts other threads may change the word: [env] gives the
    value that the [k]-th [ATOMIC_VCAS] finds.  The result is the value returned
    and the word after the loop. *)
Fixpoint inc_update_loop (fuel : nat) (env : nat → SCN) (k : nat) (new_scn word ref_scn : SCN)
    : option (SCN * SCN) :=
  match fuel with
  | O => None
  | S f =>
      if scn_ltb new_scn ref_scn then
        let found := env k in
        if scn_eqb found new_scn then Some (ref_scn, ref_scn)
        else inc_update_loop f env (S k) found found ref_scn
      else Some (new_scn, word)
  end.
Definition inc_update (fuel : nat) (env : nat → SCN) (word ref_scn : SCN) : option (SCN * SCN) :=
  inc_update_loop fuel env 0 word word ref_scn.

Fixpoint dec_update_loop (fuel : nat) (env : nat → SCN) (k : nat) (new_scn word ref_scn : SCN)
    : option (SCN * SCN) :=
  match fuel with
  | O => None
  | S f =>
      if scn_gtb new_scn ref_scn then
        let found := env k in
        if scn_eqb found new_scn then Some (ref_scn, ref_scn)
        else dec_update_loop f env (S k) found found ref_scn
      else Some (new_scn, word)
  end.
Definition dec_update (fuel : nat) (env : nat → SCN) (word ref_scn : SCN) : option (SCN * SCN) :=
  dec_update_loop fuel env 0 word word ref_scn.

(** * Conversions: [ret] and the new value *)
Definition convert_to_ts (s : SCN) : Z := if is_valid s then ts_ns_ s / 1000 else 0.
Definition convert_from_ts (ts_us : Z) (s : SCN) : Z * SCN :=
  let ts_ns := u64 (ts_us * 1000) in
  if OB_MAX_SCN_TS_NS / 1000 + 1 <=? ts_us then (OB_INVALID_ARGUMENT, s)
  else (OB_SUCCESS, of_fields SCN_VERSION ts_ns).
Definition convert_for_gts (ts_ns : Z) (s : SCN) : Z * SCN :=
  if (ts_ns <? 0) || (OB_MAX_SCN_TS_NS <? u64 ts_ns) then (OB_INVALID_ARGUMENT, s)
  else (OB_SUCCESS, of_fields SCN_VERSION ts_ns).
Definition convert_for_logservice (scn_val : Z) (s : SCN) : Z * SCN :=
  if OB_MAX_SCN_TS_NS <? scn_val then (OB_INVALID_ARGUMENT, s) else (OB_SUCCESS, mkSCN scn_val).
Definition convert_for_inner_table_field (value : Z) (s : SCN) : Z * SCN :=
  if OB_MAX_SCN_TS_NS <? value then (OB_INVALID_ARGUMENT, s) else (OB_SUCCESS, mkSCN value).
Definition convert_for_sql (value : Z) (s : SCN) : Z * SCN :=
  if OB_MAX_SCN_TS_NS <? value then (OB_INVALID_ARGUMENT, s) else (OB_SUCCESS, mkSCN value).
Definition convert_for_tx (val : Z) (s : SCN) : Z * SCN :=
  if INT64_MAX =? val then (OB_SUCCESS, mkSCN OB_MAX_SCN_TS_NS)
  else if (val <? 0) || (OB_MAX_SCN_TS_NS <? u64 val) then (OB_INVALID_ARGUMENT, s)
  else (OB_SUCCESS, mkSCN (u64 val)).
Definition get_val_for_tx (s : SCN) : Z :=
  if SCN_VERSION =? v_ s
  then if negb (OB_MAX_SCN_TS_NS =? ts_ns_ s) then ts_ns_ s else INT64_MAX
  else -1.
Definition get_val_for_logservice (s : SCN) : Z := val_ s.

(** * Serialization; the new position is stored only on success *)
Definition transform_max_ (s : SCN) : SCN := if INT64_MAX =? val_ s then set_max s else s.

(** Runs [m] on a copy of the position, committed on success. *)
Definition commit_pos (m : M Wr Z) : M Wr Z := fun w =>
  match m w with
  | Some (r, w') => Some (r, if ob_failed r then mkWr (w_buf w') (w_pos w) else w')
  | None => None
  end.
Definition commit_rpos {A} (m : M Z (Z * A)) : M Z (Z * A) := fun pos =>
  match m pos with
  | Some ((r, a), pos') => Some ((r, a), if ob_failed r then pos else pos')
  | None => None
  end.

Definition bad_buf (buf : buf_t) (len : Z) : bool :=
  match buf with None => true | Some _ => len <=? 0 end.

Definition fixed_serialize (s : SCN) (buf_len : Z) : M Wr Z :=
  let! bad := gets (fun w => bad_buf (w_buf w) buf_len) in
  if bad then ret OB_INVALID_ARGUMENT else commit_pos (encode_i64 buf_len (s64 (val_ s))).
Definition fixed_deserialize_without_transform (buf : buf_t) (data_len : Z) (s : SCN) : M Z (Z * SCN) :=
  if bad_buf buf data_len then ret (OB_INVALID_ARGUMENT, s)
  else
    let! r := commit_rpos (decode_i64 buf data_len) in
    ret (if ob_failed r.1 then (r.1, s) else (OB_SUCCESS, mkSCN (u64 r.2))).
Definition fixed_deserialize (buf : buf_t) (data_len : Z) (s : SCN) : M Z (Z * SCN) :=
  let! r := fixed_deserialize_without_transform buf data_len s in
  ret (if ob_failed r.1 then r else (r.1, transform_max_ r.2)).
Definition get_fixed_serialize_size (s : SCN) : Z := encoded_length_i64 (val_ s).

Definition serialize (s : SCN) (buf_len : Z) : M Wr Z :=
  let! bad := gets (fun w => bad_buf (w_buf w) buf_len) in
  if bad then ret OB_INVALID_ARGUMENT else commit_pos (encode_vi64 buf_len (s64 (val_ s))).
(** [decode] clears the value before it reads it. *)
Definition deserialize (buf : buf_t) (data_len : Z) (s : SCN) : M Z (Z * SCN) :=
  if bad_buf buf data_len then ret (OB_INVALID_ARGUMENT, s)
  else
    let! r := commit_rpos (decode_vi64 buf data_len) in
    ret (if ob_failed r.1 then (r.1, mkSCN 0) else (OB_SUCCESS, transform_max_ (mkSCN (u64 r.2)))).
Definition get_serialize_size (s : SCN) : Z := encoded_length_vi64 (s64 (val_ s)).

(** * Lemmas *)
Lemma valid_iff s : wf s → is_valid s = true ↔ val_ s <= OB_MAX_SCN_TS_NS.
Proof.
  unfold wf, in_u, is_valid, v_, SCN_VERSION, OB_MAX_SCN_TS_NS. intros Hs.
  rewrite Z.eqb_eq, Z.shiftr_div_pow2 by lia. split.
  - intros E. symmetry in E. apply Z.div_small_iff in E; lia.
  - intros Hle. symmetry. apply Z.div_small. lia.
Qed.

Lemma valid_ts s : wf s → is_valid s = true → ts_ns_ s = val_ s.
Proof.
  intros Hs Hv. apply (valid_iff s Hs) in Hv. unfold ts_ns_. rewrite Z.land_ones by lia.
  unfold wf, in_u, OB_MAX_SCN_TS_NS in *. apply Z.mod_small. lia.
Qed.

Lemma of_fields_valid ts : 0 <= ts <= OB_MAX_SCN_TS_NS → of_fields SCN_VERSION ts = mkSCN ts.
Proof.
  intros Hts. unfold of_fields, SCN_VERSION, OB_MAX_SCN_TS_NS in *. f_equal.
  change (wrapu 2 0) with 0. rewrite Z.shiftl_0_l, Z.lor_0_l. apply wrapu_small. unfold in_u. lia.
Qed.

Lemma small_wf v : 0 <= v <= OB_MAX_SCN_TS_NS → wf (mkSCN v) ∧ is_valid (mkSCN v) = true.
Proof.
  intros Hv. assert (wf (mkSCN v)) as Hw by (unfold wf, in_u, OB_MAX_SCN_TS_NS in *; simpl; lia).
  split; [done|]. apply valid_iff; simpl; [done|lia].
Qed.

Lemma invalid_not_valid : is_valid invalid_scn = false.
Proof. reflexivity. Qed.

(** The position an invalid SCN and the valid ones take in the order. *)
Definition rank (s : SCN) : Z := if is_valid s then ts_ns_ s else -1.

Lemma ts_nonneg s : 0 <= ts_ns_ s.
Proof. unfold ts_ns_. apply Z.land_nonneg. right. by vm_compute. Qed.

Lemma ltb_rank a b : scn_ltb a b = (rank a <? rank b).
Proof.
  unfold scn_ltb, rank. pose proof (ts_nonneg a). pose proof (ts_nonneg b).
  destruct (is_valid a), (is_valid b); simpl; try done; symmetry; apply Z.ltb_lt || apply Z.ltb_ge; lia.
Qed.

Lemma leb_rank a b : scn_leb a b = (rank a <=? rank b).
Proof.
  unfold scn_leb, rank. pose proof (ts_nonneg a). pose proof (ts_nonneg b).
  destruct (is_valid a), (is_valid b); simpl; try done; symmetry; apply Z.leb_le || apply Z.leb_gt; lia.
Qed.

Lemma gtb_ltb a b : scn_gtb a b = scn_ltb b a.
Proof. unfold scn_gtb, scn_ltb. by destruct (is_valid a), (is_valid b). Qed.

Lemma geb_leb a b : scn_geb a b = scn_leb b a.
Proof. unfold scn_geb, scn_leb. by destruct (is_valid a), (is_valid b). Qed.

Lemma max_rank a b : rank (max a b) = Z.max (rank a) (rank b).
Proof.
  unfold max. rewrite gtb_ltb, ltb_rank. pose proof (ts_nonneg a). pose proof (ts_nonneg b).
  destruct (is_valid a) eqn:Ha; cbn [negb]; [destruct (is_valid b) eqn:Hb; cbn [negb]|].
  - destruct (Z.ltb_spec (rank a) (rank b)); lia.
  - unfold rank. rewrite Ha, Hb. lia.
  - unfold rank at 2. rewrite Ha. unfold rank. destruct (is_valid b); lia.
Qed.

Lemma min_rank a b : rank (min a b) = Z.min (rank a) (rank b).
Proof.
  unfold min. rewrite ltb_rank. pose proof (ts_nonneg a). pose proof (ts_nonneg b).
  destruct (is_valid a) eqn:Ha; cbn [negb]; [destruct (is_valid b) eqn:Hb; cbn [negb]|].
  - destruct (Z.ltb_spec (rank b) (rank a)); lia.
  - unfold rank. rewrite Ha, Hb. lia.
  - unfold rank. rewrite Ha. destruct (is_valid b); lia.
Qed.

(** ** The update loops

    Both loops are one loop over the comparison that keeps it going. *)
Fixpoint update_loop (cmp : SCN → SCN → bool) (fuel : nat) (env : nat → SCN) (k : nat) (word ref : SCN)
    : option (SCN * SCN) :=
  match fuel with
  | O => None
  | S f =>
      if cmp word ref then
        if scn_eqb (env k) word then Some (ref, ref) else update_loop cmp f env (S k) (env k) ref
      else Some (word, word)
  end.

Lemma inc_update_is fuel env word ref : inc_update fuel env word ref = update_loop scn_ltb fuel env 0 word ref.
Proof.
  unfold inc_update. generalize 0%nat as k. revert word.
  induction fuel as [|f IH]; intros word k; [reflexivity|]. cbn [inc_update_loop update_loop]. by rewrite IH.
Qed.

Lemma dec_update_is fuel env word ref : dec_update fuel env word ref = update_loop scn_gtb fuel env 0 word ref.
Proof.
  unfold dec_update. generalize 0%nat as k. revert word.
  induction fuel as [|f IH]; intros word k; [reflexivity|]. cbn [dec_update_loop update_loop]. by rewrite IH.
Qed.

Lemma update_loop_result cmp fuel env k word ref r w :
  cmp ref ref = false → update_loop cmp fuel env k word ref = Some (r, w) →
  r = w ∧ cmp w ref = false ∧ (w = ref ∨ w = word ∨ ∃ j, w = env j).
Proof.
  intros Hrr. revert k word. induction fuel as [|f IH]; intros k word; cbn [update_loop]; [discriminate|].
  destruct (cmp word ref) eqn:Hc; [|intros E; injection E as <- <-; auto].
  destruct (scn_eqb (env k) word); [intros E; injection E as <- <-; auto|].
  intros E. destruct (IH _ _ E) as (? & ? & [->|[->|?]]); eauto 6.
Qed.

Lemma update_loop_stable cmp env k0 :
  (∀ j, (k0 <= j)%nat → env j = env k0) →
  ∀ n k fuel word ref, (k0 + 1 - k <= n)%nat → (n + 2 <= fuel)%nat →
    (k0 < k → word = env k0)%nat → update_loop cmp fuel env k word ref ≠ None.
Proof.
  intros Hst. induction n as [|n IH]; intros k fuel word ref Hn Hf Hw;
    (destruct fuel as [|fuel]; [lia|]); cbn [update_loop];
    (destruct (cmp word ref); [|discriminate]); destruct (scn_eqb (env k) word) eqn:He;
    try discriminate.
  - exfalso. rewrite (Hst k), Hw in He by lia. unfold scn_eqb in He. by rewrite Z.eqb_refl in He.
  - apply IH; [lia|lia|]. intros Hk. apply Hst. lia.
Qed.

(** Without interference the loop ends after one attempt, with the maximum. *)
Lemma inc_update_alone word ref :
  inc_update 2 (fun _ => word) word ref
  = Some (if scn_ltb word ref then (ref, ref) else (word, word)).
Proof.
  unfold inc_update. cbn [inc_update_loop]. destruct (scn_ltb word ref) eqn:Hlt; [|reflexivity].
  unfold scn_eqb. rewrite Z.eqb_refl. reflexivity.
Qed.

(** ** Serialization *)
Lemma commit_writes buf_len m bs : writes buf_len m bs → writes buf_len (commit_pos m) bs.
Proof. intros Hm l pos Hp Hl. unfold commit_pos. by rewrite (Hm l pos Hp Hl). Qed.

Lemma commit_reads {A} l data_len (m : M Z (Z * A)) bs a :
  reads l data_len m bs a → reads l data_len (commit_rpos m) bs a.
Proof. intros Hm pos Hp Hl Hs. unfold commit_rpos. by rewrite (Hm pos Hp Hl Hs). Qed.

(** A leading [NULL == buf || len <= 0] check passes where there are bytes. *)
Lemma guard_writes buf_len m bs (k : M Wr Z) :
  0 < Z.of_nat (length bs) → writes buf_len m bs →
  writes buf_len (let! bad := gets (fun w => bad_buf (w_buf w) buf_len) in
                  if bad then k else m) bs.
Proof.
  intros Hn Hm l pos Hp Hl. rewrite (bind_run _ _ _ _ _ eq_refl). simpl.
  destruct (Z.leb_spec buf_len 0); [lia|]. by apply Hm.
Qed.

Lemma vi_bytes_nonempty f v : (0 < f)%nat → 0 < Z.of_nat (length (vi_bytes f v)).
Proof. destruct f; [lia|]. cbn [vi_bytes]. destruct (_ <? _); simpl; lia. Qed.

Lemma u64_s64 v : in_u 64 v → u64 (s64 v) = v.
Proof.
  intros Hv. unfold wrapu, wraps. rewrite Zminus_mod_idemp_l.
  replace (v + 2 ^ (64 - 1) - 2 ^ (64 - 1)) with v by lia. by apply wrapu_small.
Qed.

Lemma u64_s64_wrap v : u64 (s64 v) = u64 v.
Proof.
  unfold wrapu, wraps. rewrite Zminus_mod_idemp_l. f_equal. lia.
Qed.

Lemma s64_range v : in_s 64 (s64 v).
Proof. apply wraps_range. lia. Qed.

Lemma scn_fixed_writes s buf_len : writes buf_len (fixed_serialize s buf_len) (be_bytes 8 (s64 (val_ s))).
Proof.
  apply guard_writes; [by rewrite length_be_bytes|].
  apply commit_writes, (int_writes 8). auto.
Qed.

Lemma fixed_raw_reads l data_len s s0 :
  wf s → reads l data_len (fixed_deserialize_without_transform (Some l) data_len s0)
           (be_bytes 8 (s64 (val_ s))) s.
Proof.
  intros Hs pos Hp Hl Hsl. unfold fixed_deserialize_without_transform, bad_buf.
  rewrite length_be_bytes in Hl.
  destruct (Z.leb_spec data_len 0); [lia|].
  pose proof (commit_reads _ _ _ _ _ (int_reads 8 l data_len (s64 (val_ s)) ltac:(auto) (s64_range _)))
    as Hr.
  rewrite (bind_run _ _ _ _ _ (Hr pos Hp ltac:(rewrite length_be_bytes; lia) Hsl)). simpl.
  unfold ret. rewrite u64_s64 by done. by destruct s.
Qed.

Lemma scn_fixed_reads l data_len s s0 :
  wf s → reads l data_len (fixed_deserialize (Some l) data_len s0)
           (be_bytes 8 (s64 (val_ s))) (transform_max_ s).
Proof.
  intros Hs pos Hp Hl Hsl. unfold fixed_deserialize.
  by rewrite (bind_run _ _ _ _ _ (fixed_raw_reads l data_len s s0 Hs pos Hp Hl Hsl)).
Qed.

Lemma var_writes s buf_len :
  writes buf_len (serialize s buf_len) (vi_bytes 10 (u64 (s64 (val_ s)))).
Proof. apply guard_writes; [apply vi_bytes_nonempty; lia|]. apply commit_writes, vi64_writes. Qed.

Lemma var_reads l data_len s s0 :
  wf s → reads l data_len (deserialize (Some l) data_len s0)
           (vi_bytes 10 (u64 (s64 (val_ s)))) (transform_max_ s).
Proof.
  intros Hs pos Hp Hl Hsl. unfold deserialize, bad_buf.
  pose proof (vi_bytes_nonempty 10 (u64 (s64 (val_ s))) ltac:(lia)).
  destruct (Z.leb_spec data_len 0); [lia|].
  pose proof (commit_reads _ _ _ _ _ (vi64_reads l data_len (s64 (val_ s)) (s64_range _))) as Hr.
  rewrite (bind_run _ _ _ _ _ (Hr pos Hp Hl Hsl)). unfold ret. cbn [fst snd].
  change (ob_failed OB_SUCCESS) with false. cbv iota. rewrite u64_s64 by exact Hs.
  destruct s. reflexivity.
Qed.

Lemma transform_id s : wf s → is_valid s = true → transform_max_ s = s.
Proof.
  intros Hs Hv. apply (valid_iff s Hs) in Hv. unfold transform_max_, OB_MAX_SCN_TS_NS, INT64_MAX in *.
  destruct (Z.eqb_spec (2 ^ 63 - 1) (val_ s)); [lia|done].
Qed.

(** * The theorems *)

(** : the comparison operators of [SCN] are one total preorder: [<] is the
    negation of [>=], [>] and [>=] are [<] and [<=] swapped, [<=] is total and
    transitive, two valid SCNs that compare equal both ways are equal, and [max] and [min] are
    bounds of their arguments. *)
Theorem scn_order (a b c : SCN) :
  scn_ltb a b = negb (scn_geb a b) ∧ scn_gtb a b = scn_ltb b a ∧ scn_geb a b = scn_leb b a
  ∧ (scn_leb a b = true ∨ scn_leb b a = true)
  ∧ (scn_leb a b = true → scn_leb b c = true → scn_leb a c = true)
  ∧ (wf a → wf b → is_valid a = true → is_valid b = true →
     scn_leb a b = true → scn_leb b a = true → a = b)
  ∧ scn_leb a (max a b) = true ∧ scn_leb b (max a b) = true
  ∧ scn_leb (min a b) a = true ∧ scn_leb (min a b) b = true.
Proof.
  rewrite gtb_ltb, geb_leb, !leb_rank, !ltb_rank, max_rank, min_rank, !Z.leb_le.
  split; [symmetry; apply Z.leb_antisym || (rewrite <- Z.ltb_antisym; reflexivity)|].
  split; [reflexivity|]. split; [reflexivity|]. split; [lia|]. split; [lia|].
  split; [|lia]. intros Ha Hb Hva Hvb H1 H2. unfold rank in *. rewrite Hva, Hvb in *.
  rewrite (valid_ts a), (valid_ts b) in * by done. destruct a as [x], b as [y]. simpl in *.
  f_equal. lia.
Qed.

(** : serializing a valid SCN, in the fixed or the variable encoding, at any
    position with room, and deserializing it gives the SCN back, consumes the
    bytes written and leaves the rest of the buffer alone. *)
Theorem scn_serialize_roundtrip (s s0 : SCN) (fixed : bool) l pos :
  wf s → is_valid s = true → 0 <= pos →
  pos + (if fixed then get_fixed_serialize_size s else get_serialize_size s) <= Z.of_nat (length l) →
  let n := if fixed then get_fixed_serialize_size s else get_serialize_size s in
  let ser := if fixed then fixed_serialize else serialize in
  let deser := if fixed then fixed_deserialize else deserialize in
  ∃ l', ser s (Z.of_nat (length l)) (mkWr (Some l) pos) = Some (OB_SUCCESS, mkWr (Some l') (pos + n))
    ∧ deser (Some l') (Z.of_nat (length l)) s0 pos = Some ((OB_SUCCESS, s), pos + n)
    ∧ length l' = length l
    ∧ ∀ i, (i < Z.to_nat pos)%nat ∨ (Z.to_nat (pos + n) <= i)%nat → l' !! i = l !! i.
Proof.
  intros Hs Hv Hp Hl. cbv zeta.
  set (bs := if fixed then be_bytes 8 (s64 (val_ s)) else vi_bytes 10 (u64 (s64 (val_ s)))).
  assert (Z.of_nat (length bs) = if fixed then get_fixed_serialize_size s else get_serialize_size s) as Hn.
  { unfold bs. destruct fixed; [by rewrite length_be_bytes|].
    unfold get_serialize_size. by rewrite encoded_length_vi_bytes. }
  rewrite <- Hn in *.
  destruct (write_read
    ((if fixed then fixed_serialize else serialize) s (Z.of_nat (length l)))
    (fun b => (if fixed then fixed_deserialize else deserialize) b (Z.of_nat (length l)) s0)
    bs (transform_max_ s) l pos) as (l' & H1 & H2 & H3 & H4); [..|exists l'].
  - unfold bs. destruct fixed; [apply scn_fixed_writes|apply var_writes].
  - intros l'. unfold bs. destruct fixed; [by apply scn_fixed_reads|by apply var_reads].
  - done.
  - done.
  - rewrite transform_id in H2 by done. split_and!; try done. intros i Hi. apply H4. lia.
Qed.

(** [inc_update] and [dec_update] under interference.  Whatever other threads
    store in between, each returns the word it leaves, which is not below (above)
    the reference and is the reference itself or a value that was there; and both
    end as soon as the others stop changing the word. *)
Theorem scn_inc_update_monotone (env : nat → SCN) (word ref : SCN) (fuel : nat) :
  (∀ r w, inc_update fuel env word ref = Some (r, w) →
     r = w ∧ scn_leb ref w = true ∧ (w = ref ∨ w = word ∨ ∃ j, w = env j))
  ∧ (∀ r w, dec_update fuel env word ref = Some (r, w) →
     r = w ∧ scn_leb w ref = true ∧ (w = ref ∨ w = word ∨ ∃ j, w = env j))
  ∧ (∀ k0, (∀ j, (k0 <= j)%nat → env j = env k0) → (k0 + 3 <= fuel)%nat →
       inc_update fuel env word ref ≠ None ∧ dec_update fuel env word ref ≠ None).
Proof.
  rewrite inc_update_is, dec_update_is. split_and!.
  - intros r w Hr. apply update_loop_result in Hr as (-> & Hc & Hw); [|rewrite ltb_rank; apply Z.ltb_irrefl].
    rewrite ltb_rank in Hc. rewrite leb_rank. split_and!; [done| |done]. apply Z.leb_le. by apply Z.ltb_ge.
  - intros r w Hr. apply update_loop_result in Hr as (-> & Hc & Hw);
      [|rewrite gtb_ltb, ltb_rank; apply Z.ltb_irrefl].
    rewrite gtb_ltb, ltb_rank in Hc. rewrite leb_rank. split_and!; [done| |done]. apply Z.leb_le. by apply Z.ltb_ge.
  - intros k0 Hst Hf. split; apply (update_loop_stable _ env k0 Hst (k0 + 1)); lia.
Qed.

Lemma plus_valid s delta :
  wf s → is_valid s = true → 0 <= delta →
  is_valid (plus s delta) = (delta <? OB_MAX_SCN_TS_NS) && (val_ s + delta <=? OB_MAX_SCN_TS_NS).
Proof.
  intros Hs Hv Hd. pose proof (proj1 (valid_iff s Hs) Hv) as Hle. destruct Hs as [H0 H1].
  unfold plus. rewrite Hv, Z.leb_antisym. cbn [negb]. rewrite orb_false_r.
  destruct (Z.ltb_spec delta OB_MAX_SCN_TS_NS); [|reflexivity]. cbn [negb andb].
  rewrite wrapu_small by (unfold in_u, OB_MAX_SCN_TS_NS in *; lia).
  rewrite Z.ltb_antisym. destruct (Z.leb_spec (val_ s + delta) OB_MAX_SCN_TS_NS); [|reflexivity].
  cbn [negb]. apply small_wf. lia.
Qed.

(** Arithmetic and conversions.  Adding to a valid SCN gives a valid SCN
    exactly when the amount and the sum are in range, and subtracting the same
    amount gives it back; incrementing fails exactly at the maximum, goes up and is
    undone by decrementing; and a valid SCN survives the conversion to the
    transaction layer's integer. *)
Theorem scn_arith_roundtrip (s : SCN) (delta : Z) :
  wf s → is_valid s = true → 0 <= delta →
  is_valid (plus s delta) = (delta <? OB_MAX_SCN_TS_NS) && (val_ s + delta <=? OB_MAX_SCN_TS_NS)
  ∧ is_valid (scn_inc s) = (val_ s <? OB_MAX_SCN_TS_NS)
  ∧ (is_valid (plus s delta) = true → minus (plus s delta) delta = s ∧ val_ (plus s delta) = val_ s + delta)
  ∧ (is_valid (scn_inc s) = true → scn_dec (scn_inc s) = s ∧ scn_ltb s (scn_inc s) = true)
  ∧ convert_for_tx (get_val_for_tx s) s = (OB_SUCCESS, s).
Proof.
  intros Hs Hv Hd. pose proof (proj1 (valid_iff s Hs) Hv) as Hle. pose proof Hs as [H0 H1].
  pose proof (valid_ts s Hs Hv) as Hts. split_and!.
  - by apply plus_valid.
  - unfold scn_inc. rewrite Z.leb_antisym. destruct (Z.ltb_spec (val_ s) OB_MAX_SCN_TS_NS); [|reflexivity].
    cbn [negb]. rewrite wrapu_small by (unfold in_u, OB_MAX_SCN_TS_NS in *; lia). apply small_wf. lia.
  - unfold plus. destruct (Z.leb_spec OB_MAX_SCN_TS_NS delta) as [|Hdm]; cbn [orb].
    { intros Hbad. vm_compute in Hbad. discriminate. }
    rewrite Hv. cbn [negb]. unfold OB_MAX_SCN_TS_NS in *.
    rewrite wrapu_small by (unfold in_u; lia).
    destruct (Z.ltb_spec (2 ^ 62 - 1) (val_ s + delta)) as [|Hsum].
    { intros Hbad. vm_compute in Hbad. discriminate. }
    intros Hp. split; [|reflexivity]. unfold minus. rewrite Hp. unfold OB_MAX_SCN_TS_NS.
    destruct (Z.leb_spec (2 ^ 62 - 1) delta); [lia|]. cbn [negb orb val_].
    destruct (Z.ltb_spec (val_ s + delta) delta); [lia|].
    rewrite wrapu_small by (unfold in_u; lia). destruct s as [x]. cbn [val_] in *. f_equal. lia.
  - unfold scn_inc. destruct (Z.leb_spec OB_MAX_SCN_TS_NS (val_ s)) as [|Hlt].
    { intros Hbad. vm_compute in Hbad. discriminate. }
    unfold OB_MAX_SCN_TS_NS in *. rewrite wrapu_small by (unfold in_u; lia).
    destruct (small_wf (val_ s + 1)) as [Hw' Hv']; [unfold OB_MAX_SCN_TS_NS; lia|]. intros _. split.
    + unfold scn_dec. rewrite Hv'. unfold OB_MIN_SCN_TS_NS. cbn [val_ negb].
      destruct (Z.eqb_spec 0 (val_ s + 1)); [lia|]. cbn [orb].
      rewrite wrapu_small by (unfold in_u; lia). destruct s as [x]. cbn [val_] in *. f_equal. lia.
    + rewrite ltb_rank, Z.ltb_lt. unfold rank. rewrite Hv, Hv', Hts, (valid_ts _ Hw' Hv'). cbn [val_]. lia.
  - unfold get_val_for_tx, convert_for_tx. unfold is_valid in Hv. rewrite Hv, Hts.
    unfold OB_MAX_SCN_TS_NS, INT64_MAX in *.
    destruct (Z.eqb_spec (2 ^ 62 - 1) (val_ s)) as [E|]; cbn [negb].
    + rewrite Z.eqb_refl. f_equal. destruct s as [x]. cbn [val_] in *. by rewrite E.
    + destruct (Z.eqb_spec (2 ^ 63 - 1) (val_ s)); [lia|]. rewrite wrapu_small by done.
      destruct (Z.ltb_spec (val_ s) 0); [lia|]. destruct (Z.ltb_spec (2 ^ 62 - 1) (val_ s)); [lia|].
      cbn [orb]. by destruct s.
Qed.

(** * Witnesses *)
Lemma scn_serialize_roundtrip_witness :
  ∃ l', serialize (mkSCN 300) 4 (mkWr (Some [9; 9; 9; 9]) 1) = Some (OB_SUCCESS, mkWr (Some l') 3)
    ∧ deserialize (Some l') 4 invalid_scn 1 = Some ((OB_SUCCESS, mkSCN 300), 3).
Proof.
  destruct (scn_serialize_roundtrip (mkSCN 300) invalid_scn false [9; 9; 9; 9] 1)
    as (l' & H1 & H2 & _); [split; vm_compute; congruence|reflexivity|lia|vm_compute; congruence|].
  exists l'. split; [exact H1|exact H2].
Defined.

Lemma scn_arith_roundtrip_witness :
  plus (mkSCN 5) 7 = mkSCN 12 ∧ minus (plus (mkSCN 5) 7) 7 = mkSCN 5.
Proof.
  split; [reflexivity|].
  refine (proj1 (proj1 (proj2 (proj2 (scn_arith_roundtrip (mkSCN 5) 7 _ _ _))) _)); [split; vm_compute; congruence|reflexivity|lia|reflexivity].
Defined.
End Scn.
