(* ===== verification/Lsn.v ===== *)
(** Log sequence numbers: [src/logservice/palf/lsn.h] and [lsn.cpp], with the block
    geometry and the other constants of [log_define.h]. *)
From S2P Require Import Prelude Serialization Scn.
Import Ser.

Module Lsn.
(** ** Constants of [log_define.h] *)
Definition MAX_LOG_HEADER_SIZE : Z := 4 * 1024.
Definition MAX_INFO_BLOCK_SIZE : Z := 4 * 1024.
Definition MAX_LOG_BODY_SIZE : Z := 3 * 1024 * 1024 + 512 * 1024.
Definition PALF_PHY_BLOCK_SIZE : Z := Z.shiftl 1 26.
Definition PALF_BLOCK_SIZE : Z := PALF_PHY_BLOCK_SIZE - MAX_INFO_BLOCK_SIZE.
Definition CLOG_FILE_TAIL_PADDING_TRIGGER : Z := 4096.
Definition MAX_LOG_BUFFER_SIZE : Z :=
  MAX_LOG_BODY_SIZE + MAX_LOG_HEADER_SIZE + CLOG_FILE_TAIL_PADDING_TRIGGER.
Definition INVALID_PROPOSAL_ID : Z := INT64_MAX.
Definition LOG_INVALID_LSN_VAL : Z := UINT64_MAX.
Definition OB_INVALID_LOG_ID : Z := -1.

Definition is_valid_log_id (log_id : Z) : bool := 0 <? log_id.

Definition max_proposal_id (a b : Z) : Z :=
  if ((INVALID_PROPOSAL_ID =? a) && (INVALID_PROPOSAL_ID =? b))
     || (negb (INVALID_PROPOSAL_ID =? a) && (INVALID_PROPOSAL_ID =? b)) then a
  else if (INVALID_PROPOSAL_ID =? a) && negb (INVALID_PROPOSAL_ID =? b) then b
  else Z.max a b.

(** ** [LSN]: an unsigned 64-bit offset *)
Record LSN : Set := mkLSN { val_ : Z }.
#[global] Instance LSN_eq_dec : EqDecision LSN.
Proof. solve_decision. Defined.

Definition wf (l : LSN) : Prop := in_u 64 (val_ l).
Definition reset (l : LSN) : LSN := mkLSN LOG_INVALID_LSN_VAL.
Definition is_valid (l : LSN) : bool := negb (LOG_INVALID_LSN_VAL =? val_ l).

Definition lsn_eqb (a b : LSN) : bool := val_ a =? val_ b.
Definition lsn_ltb (a b : LSN) : bool := val_ a <? val_ b.
Definition lsn_gtb (a b : LSN) : bool := lsn_ltb b a.
Definition lsn_geb (a b : LSN) : bool := lsn_ltb b a || lsn_eqb b a.
Definition lsn_leb (a b : LSN) : bool := lsn_gtb b a || lsn_eqb b a.

Definition lsn_add (l : LSN) (len : Z) : LSN := mkLSN (u64 (val_ l + len)).
Definition lsn_sub (l : LSN) (len : Z) : LSN := mkLSN (u64 (val_ l - len)).
Definition lsn_diff (a b : LSN) : Z := u64 (val_ a - val_ b).

Definition lsn_2_block (l : LSN) (block_size : Z) : Z := val_ l / block_size.
Definition lsn_2_offset (l : LSN) (block_size : Z) : Z := val_ l mod block_size.

(** ** Serialization

    The guard is [NULL == buf && len <= 0]: a null buffer with a positive length
    passes it and is refused by the codec. *)
Definition null_and_empty (buf : buf_t) (len : Z) : bool :=
  match buf with None => len <=? 0 | Some _ => false end.

Definition serialize (l : LSN) (buf_len : Z) : M Wr Z :=
  let! bad := gets (fun w => null_and_empty (w_buf w) buf_len) in
  if bad then ret OB_INVALID_ARGUMENT
  else
    let! r := Scn.commit_pos (encode_i64 buf_len (s64 (val_ l))) in
    ret (if ob_failed r then OB_BUF_NOT_ENOUGH else OB_SUCCESS).

Definition deserialize (buf : buf_t) (data_len : Z) (l : LSN) : M Z (Z * LSN) :=
  if null_and_empty buf data_len then ret (OB_INVALID_ARGUMENT, l)
  else
    let! r := Scn.commit_rpos (decode_i64 buf data_len) in
    ret (if ob_failed r.1 then (OB_BUF_NOT_ENOUGH, l) else (OB_SUCCESS, mkLSN (u64 r.2))).

Definition get_serialize_size (l : LSN) : Z := encoded_length_i64 (val_ l).

(** ** Lemmas *)
Lemma ltb_spec a b : lsn_ltb a b = true ↔ val_ a < val_ b.
Proof. apply Z.ltb_lt. Qed.

Lemma leb_spec a b : lsn_leb a b = true ↔ val_ a <= val_ b.
Proof.
  unfold lsn_leb, lsn_gtb, lsn_ltb, lsn_eqb. rewrite orb_true_iff, Z.ltb_lt, Z.eqb_eq. lia.
Qed.

Lemma block_offset l : val_ l = lsn_2_block l PALF_BLOCK_SIZE * PALF_BLOCK_SIZE + lsn_2_offset l PALF_BLOCK_SIZE.
Proof.
  unfold lsn_2_block, lsn_2_offset. rewrite Z.mul_comm. apply Z.div_mod. by vm_compute.
Qed.

Lemma lsn_writes l buf_len : writes buf_len (serialize l buf_len) (be_bytes 8 (s64 (val_ l))).
Proof.
  intros b pos Hp Hl. unfold serialize. rewrite (bind_run _ _ _ _ _ eq_refl).
  cbn [null_and_empty w_buf].
  pose proof (Scn.commit_writes _ _ _ (int_writes 8 buf_len (s64 (val_ l)) ltac:(auto))) as Hw.
  by rewrite (bind_run _ _ _ _ _ (Hw b pos Hp Hl)).
Qed.

Lemma lsn_reads b data_len l l0 :
  wf l → reads b data_len (deserialize (Some b) data_len l0) (be_bytes 8 (s64 (val_ l))) l.
Proof.
  intros Hl pos Hp Hd Hs. unfold deserialize. cbn [null_and_empty].
  pose proof (Scn.commit_reads _ _ _ _ _
    (int_reads 8 b data_len (s64 (val_ l)) ltac:(auto) (Scn.s64_range _))) as Hr.
  rewrite (bind_run _ _ _ _ _ (Hr pos Hp Hd Hs)). unfold ret. cbn [fst snd].
  change (ob_failed OB_SUCCESS) with false. cbv iota. rewrite Scn.u64_s64 by exact Hl.
  destruct l. reflexivity.
Qed.
End Lsn.
