(* ===== verification/LsnAllocator.v ===== *)
(** [LSNAllocator] of [src/logservice/palf/lsn_allocator.h] and [lsn_allocator.cpp]:
    the allocation of log positions, log ids and timestamps to log entries.

    The code keeps the last position, the deltas of id and timestamp and a flag in
    one 128-bit word that it changes by compare-and-swap under a read lock, and
    the two base values under a write lock.  A [CAS128] that succeeds found the
    word it computed from, so each attempt below is one atomic step on the state;
    a failed one changes nothing and is retried. *)
From Stdlib Require Import Sorting.Sorted.
From S2P Require Import Prelude Serialization Scn Lsn.
Import Lsn.

Module LsnAllocator.
Definition LOG_ID_DELTA_BIT_CNT : Z := 28.
Definition LOG_TS_DELTA_BIT_CNT : Z := 35.
Definition LOG_ID_DELTA_UPPER_BOUND : Z := Z.shiftl 1 LOG_ID_DELTA_BIT_CNT - 1000.
Definition LOG_TS_DELTA_UPPER_BOUND : Z := Z.shiftl 1 LOG_TS_DELTA_BIT_CNT - 1000.
Definition LOG_CUT_TRIGGER : Z := Z.shiftl 1 21.
Definition LOG_CUT_TRIGGER_MASK : Z := Z.shiftl 1 21 - 1.
(** [sizeof(LogGroupEntryHeader)]. *)
Definition HEADER_SER_SIZE : Z := 56.

(** [LSNTsMeta], with the widths of its bit fields. *)
Record Meta : Set := mkMeta {
  is_need_cut_ : bool;
  log_id_delta_ : Z;
  scn_delta_ : Z;
  lsn_val_ : Z
}.
Definition meta (need_cut : bool) (log_id_delta scn_delta lsn_val : Z) : Meta :=
  mkMeta need_cut (wrapu LOG_ID_DELTA_BIT_CNT log_id_delta) (wrapu LOG_TS_DELTA_BIT_CNT scn_delta)
    (u64 lsn_val).

Record Alloc : Set := mkAlloc {
  lsn_ts_meta_ : Meta;
  log_id_base_ : Z;
  scn_base_ : Z;
  is_inited_ : bool
}.

Definition reset (a : Alloc) : Alloc := mkAlloc (meta true 0 0 0) OB_INVALID_LOG_ID 0 false.

Definition init (log_id : Z) (scn : Scn.SCN) (start_lsn : LSN) (a : Alloc) : Z * Alloc :=
  if is_inited_ a then (OB_INIT_TWICE, a)
  else if (OB_INVALID_LOG_ID =? log_id) || negb (Scn.is_valid scn) || negb (is_valid start_lsn)
  then (OB_INVALID_ARGUMENT, a)
  else (OB_SUCCESS,
        mkAlloc (meta true 0 0 (val_ start_lsn)) log_id (Scn.get_val_for_logservice scn) true).

(** [log_id_base_ + last.log_id_delta_] and [scn_base_ + last.scn_delta_]. *)
Definition cur_log_id (a : Alloc) : Z := s64 (log_id_base_ a + log_id_delta_ (lsn_ts_meta_ a)).
Definition cur_scn (a : Alloc) : Z := u64 (scn_base_ a + scn_delta_ (lsn_ts_meta_ a)).

Definition truncate (lsn : LSN) (log_id : Z) (scn : Scn.SCN) (a : Alloc) : Z * Alloc :=
  if negb (is_inited_ a) then (OB_NOT_INIT, a)
  else if negb (is_valid lsn) || (OB_INVALID_LOG_ID =? log_id) || negb (Scn.is_valid scn)
  then (OB_INVALID_ARGUMENT, a)
  else (OB_SUCCESS,
        mkAlloc (meta true 0 0 (val_ lsn)) log_id (Scn.get_val_for_logservice scn) true).

(** The two rounds of the [do] loop are one case distinction: the second, under
    the write lock, rebases and always ends. *)
Definition inc_update_last_log_info (lsn : LSN) (log_id : Z) (scn : Scn.SCN) (a : Alloc) : Z * Alloc :=
  if negb (is_inited_ a) then (OB_NOT_INIT, a)
  else if negb (is_valid lsn) || negb (Scn.is_valid scn) || (OB_INVALID_LOG_ID =? log_id)
  then (OB_INVALID_ARGUMENT, a)
  else
    let last := lsn_ts_meta_ a in
    let scn_val := Scn.get_val_for_logservice scn in
    if (log_id <? cur_log_id a) || (val_ lsn <? lsn_val_ last) then (OB_SUCCESS, a)
    else if (LOG_ID_DELTA_UPPER_BOUND <=? s64 (log_id - log_id_base_ a))
            || (LOG_TS_DELTA_UPPER_BOUND <=? u64 (scn_val - scn_base_ a))
    then (OB_SUCCESS, mkAlloc (meta true 0 0 (val_ lsn)) log_id scn_val true)
    else (OB_SUCCESS,
          mkAlloc (meta true (log_id - log_id_base_ a) (scn_val - scn_base_ a) (val_ lsn))
            (log_id_base_ a) (scn_base_ a) true).

Definition inc_update_scn_base (ref_scn : Scn.SCN) (a : Alloc) : Z * Alloc :=
  if negb (is_inited_ a) then (OB_NOT_INIT, a)
  else if negb (Scn.is_valid ref_scn) then (OB_INVALID_ARGUMENT, a)
  else
    let last := lsn_ts_meta_ a in
    let scn := Scn.get_val_for_logservice ref_scn in
    if scn <? cur_scn a then (OB_SUCCESS, a)
    else (OB_SUCCESS,
          mkAlloc (meta true (log_id_delta_ last) 0 (lsn_val_ last)) (log_id_base_ a) scn true).

Definition get_max_log_id (a : Alloc) : Z :=
  if negb (is_inited_ a) then OB_INVALID_LOG_ID else cur_log_id a.
Definition get_max_scn (a : Alloc) : Scn.SCN :=
  if negb (is_inited_ a) then Scn.invalid_scn
  else (Scn.convert_for_logservice (cur_scn a) Scn.invalid_scn).2.
(** [ret] and [curr_end_lsn]. *)
Definition get_curr_end_lsn (a : Alloc) : Z * option LSN :=
  if negb (is_inited_ a) then (OB_NOT_INIT, None) else (OB_SUCCESS, Some (mkLSN (lsn_val_ (lsn_ts_meta_ a)))).

Definition freeze (a : Alloc) : Alloc :=
  let last := lsn_ts_meta_ a in
  mkAlloc (meta true (log_id_delta_ last) (scn_delta_ last) (lsn_val_ last))
    (log_id_base_ a) (scn_base_ a) (is_inited_ a).

(** [ret], [last_lsn] and [last_log_id], and the new state. *)
Definition try_freeze_by_time (a : Alloc) : Z * option (LSN * Z) * Alloc :=
  if negb (is_inited_ a) then (OB_NOT_INIT, None, a)
  else
    let out := Some (mkLSN (lsn_val_ (lsn_ts_meta_ a)), cur_log_id a) in
    if is_need_cut_ (lsn_ts_meta_ a) then (OB_STATE_NOT_MATCH, out, a)
    else (OB_SUCCESS, out, freeze a).
Definition try_freeze (a : Alloc) : Z * option (LSN * Z) * Alloc :=
  if negb (is_inited_ a) then (OB_NOT_INIT, None, a)
  else
    let out := Some (mkLSN (lsn_val_ (lsn_ts_meta_ a)), cur_log_id a) in
    if is_need_cut_ (lsn_ts_meta_ a) then (OB_SUCCESS, out, a)
    else (OB_SUCCESS, out, freeze a).

(** ** [alloc_lsn_scn] *)

(** The rebase under the write lock. *)
Definition update_base (base_scn : Scn.SCN) (a : Alloc) : Alloc :=
  let last := lsn_ts_meta_ a in
  mkAlloc (meta (is_need_cut_ last) 0 0 (lsn_val_ last))
    (cur_log_id a) (Z.max (Scn.get_val_for_logservice base_scn) (cur_scn a)) (is_inited_ a).

(** The deltas would leave their bit fields. *)
Definition need_update_base (base_scn : Scn.SCN) (a : Alloc) : bool :=
  let tmp_next_scn := Z.max (Scn.get_val_for_logservice base_scn) (u64 (cur_scn a + 1)) in
  (LOG_TS_DELTA_UPPER_BOUND <=? u64 (tmp_next_scn + 1 - scn_base_ a))
  || (LOG_ID_DELTA_UPPER_BOUND <=? log_id_delta_ (lsn_ts_meta_ a) + 2).

(** Where the entry goes in the current block: [is_new_group_log],
    [is_next_need_cut] and [tmp_next_block_offset].  The second branch only sets
    [ret] to [OB_ERR_UNEXPECTED] and leaves the initial values; the attempt goes
    on with them, and [ret] is assigned again before it ends. *)
Definition place (need_cut : bool) (last_block_offset size : Z) : bool * bool * Z :=
  let new_group_log_size := size + HEADER_SER_SIZE in
  let low := Z.land last_block_offset LOG_CUT_TRIGGER_MASK in
  if need_cut then
    (true, LOG_CUT_TRIGGER <=? u64 (low + new_group_log_size),
     u64 (last_block_offset + new_group_log_size))
  else if (0 <? last_block_offset) && (low =? 0) then (false, false, 0)
  else if (0 <? last_block_offset) && (LOG_CUT_TRIGGER <? u64 (low + size)) then
    (true, LOG_CUT_TRIGGER <=? u64 (low + new_group_log_size),
     u64 (last_block_offset + new_group_log_size))
  else
    (false, LOG_CUT_TRIGGER <=? u64 (low + size), u64 (last_block_offset + size)).

Record Fit : Set := mkFit {
  f_new : bool;          (* is_new_group_log *)
  f_cut : bool;          (* is_next_need_cut *)
  f_block : Z;           (* tmp_next_block_id *)
  f_off : Z;             (* tmp_next_block_offset *)
  f_pad : bool;          (* need_gen_padding_entry *)
  f_pad_len : Z          (* padding_len *)
}.

(** The entry goes to the next block, behind a padding entry that fills this one. *)
Definition switch_block (block last_block_offset size : Z) : Fit :=
  let new_group_log_size := size + HEADER_SER_SIZE in
  mkFit true (LOG_CUT_TRIGGER <=? new_group_log_size) (block + 1) new_group_log_size true
    (PALF_BLOCK_SIZE - last_block_offset).

Definition fit_block (is_new is_next_need_cut : bool) (block last_block_offset off size : Z) : Fit :=
  if off <? PALF_BLOCK_SIZE then
    if PALF_BLOCK_SIZE - off <? CLOG_FILE_TAIL_PADDING_TRIGGER
    then switch_block block last_block_offset size
    else mkFit is_new is_next_need_cut block off false 0
  else if off =? PALF_BLOCK_SIZE then mkFit is_new true (block + 1) 0 false 0
  else switch_block block last_block_offset size.

(** The out parameters of a successful allocation. *)
Record Out : Set := mkOut {
  o_lsn : LSN;
  o_log_id : Z;
  o_scn : Scn.SCN;
  o_is_new : bool;
  o_padding : bool;
  o_padding_len : Z
}.

Definition b2z (b : bool) : Z := if b then 1 else 0.

(** One attempt under the read lock, when no rebase is needed. *)
Definition try_alloc (base_scn : Scn.SCN) (size log_id_upper_bound : Z) (lsn_upper_bound : LSN) (a : Alloc)
    : Z * option Out * Alloc :=
  let last := lsn_ts_meta_ a in
  let last_lsn := mkLSN (lsn_val_ last) in
  let last_block_offset := lsn_2_offset last_lsn PALF_BLOCK_SIZE in
  let tmp_next_scn := Z.max (Scn.get_val_for_logservice base_scn) (u64 (cur_scn a + 1)) in
  let '(is_new, is_next_need_cut, off) := place (is_need_cut_ last) last_block_offset size in
  let f := fit_block is_new is_next_need_cut (lsn_2_block last_lsn PALF_BLOCK_SIZE)
             last_block_offset off size in
  let scn_delta := u64 (tmp_next_scn - scn_base_ a) in
  let next := meta (f_cut f) (log_id_delta_ last + b2z (f_new f) + b2z (f_pad f))
                (scn_delta + b2z (f_pad f)) (f_block f * PALF_BLOCK_SIZE + f_off f) in
  let new_log_id := cur_log_id a + b2z (f_new f) + b2z (f_pad f) in
  if (log_id_upper_bound <? new_log_id) || lsn_gtb (mkLSN (lsn_val_ next)) lsn_upper_bound
  then (OB_EAGAIN, None, a)
  else
    let '(rs, scn) := Scn.convert_for_logservice (u64 (scn_base_ a + scn_delta)) Scn.invalid_scn in
    (rs, Some (mkOut last_lsn (cur_log_id a + b2z (f_new f)) scn (f_new f) (f_pad f) (f_pad_len f)),
     mkAlloc next (log_id_base_ a) (scn_base_ a) (is_inited_ a)).

(** The [do ... while (need_update_base)] loop. *)
Fixpoint alloc_loop (fuel : nat) (rebase : bool) (base_scn : Scn.SCN) (size log_id_upper_bound : Z)
    (lsn_upper_bound : LSN) (a : Alloc) : option (Z * option Out * Alloc) :=
  match fuel with
  | O => None
  | S f =>
      let a := if rebase then update_base base_scn a else a in
      if need_update_base base_scn a
      then alloc_loop f true base_scn size log_id_upper_bound lsn_upper_bound a
      else Some (try_alloc base_scn size log_id_upper_bound lsn_upper_bound a)
  end.

Definition alloc_lsn_scn (fuel : nat) (base_scn : Scn.SCN) (size log_id_upper_bound : Z)
    (lsn_upper_bound : LSN) (a : Alloc) : option (Z * option Out * Alloc) :=
  if negb (is_inited_ a) then Some (OB_NOT_INIT, None, a)
  else if (size <=? 0) || negb (Scn.is_valid base_scn) || (log_id_upper_bound <=? 0)
          || negb (is_valid lsn_upper_bound)
  then Some (OB_INVALID_ARGUMENT, None, a)
  else alloc_loop fuel false base_scn size log_id_upper_bound lsn_upper_bound a.

(** * Geometry of the blocks *)
Abbreviation B := PALF_BLOCK_SIZE.
Abbreviation TAIL := CLOG_FILE_TAIL_PADDING_TRIGGER.

(** The sizes [log_define.h] allows for a group entry that is not padding. *)
Definition size_ok (size : Z) : Prop :=
  0 < size ∧ size + HEADER_SER_SIZE < MAX_LOG_BODY_SIZE + MAX_LOG_HEADER_SIZE.

(** The end of the log is not in the tail of a block, and an entry may still join
    the last group only away from a 2MB boundary. *)
Definition end_ok (need_cut : bool) (lsn : Z) : Prop :=
  lsn mod B <= B - TAIL ∧ (need_cut = false → (lsn mod B) mod LOG_CUT_TRIGGER ≠ 0).

Lemma consts : B = 67104768 ∧ TAIL = 4096 ∧ HEADER_SER_SIZE = 56 ∧ LOG_CUT_TRIGGER = 2097152
  ∧ MAX_LOG_BODY_SIZE + MAX_LOG_HEADER_SIZE = 3674112 ∧ MAX_LOG_BUFFER_SIZE = 3678208
  ∧ LOG_ID_DELTA_UPPER_BOUND = 268434456 ∧ LOG_TS_DELTA_UPPER_BOUND = 34359737368.
Proof. by vm_compute. Qed.

Ltac geometry :=
  let H := fresh in pose proof consts as H;
  destruct H as (?HB & ?HT & ?HH & ?HC & ?HM & ?HBuf & ?HI & ?HTS).

Lemma low_mod off : Z.land off LOG_CUT_TRIGGER_MASK = off mod LOG_CUT_TRIGGER.
Proof. change LOG_CUT_TRIGGER_MASK with (Z.ones 21). rewrite Z.land_ones by lia. done. Qed.

(** Adding less than what is left to the boundary. *)
Lemma low_add off x :
  0 < x → off mod LOG_CUT_TRIGGER + x < LOG_CUT_TRIGGER → 0 <= off → (off + x) mod LOG_CUT_TRIGGER ≠ 0.
Proof.
  intros Hx Hlt Hoff. geometry. pose proof (Z.mod_pos_bound off LOG_CUT_TRIGGER ltac:(lia)).
  rewrite <- Z.add_mod_idemp_l by lia. rewrite Z.mod_small; lia.
Qed.

(** The length the entry takes, with the header of a new group. *)
Definition entry_len (is_new : bool) (size : Z) : Z := size + if is_new then HEADER_SER_SIZE else 0.

Lemma place_spec need_cut off size :
  size_ok size → 0 <= off <= B - TAIL → (need_cut = false → off mod LOG_CUT_TRIGGER ≠ 0) →
  let '(is_new, cut, off') := place need_cut off size in
  off' = off + entry_len is_new size ∧ (cut = false → off' mod LOG_CUT_TRIGGER ≠ 0).
Proof.
  intros [Hs Hmax] Hoff Hcut. unfold place, entry_len. rewrite low_mod. geometry.
  pose proof (Z.mod_pos_bound off LOG_CUT_TRIGGER ltac:(lia)) as Hlow.
  assert (∀ x, 0 <= x <= 4000000 → u64 (off mod LOG_CUT_TRIGGER + x) = off mod LOG_CUT_TRIGGER + x
            ∧ u64 (off + x) = off + x) as Hu.
  { intros x Hx. split; apply wrapu_small; unfold in_u; lia. }
  destruct (Hu size ltac:(lia)) as [-> ->]. destruct (Hu (size + HEADER_SER_SIZE) ltac:(lia)) as [-> ->].
  assert (∀ x, 0 < x → (LOG_CUT_TRIGGER <=? off mod LOG_CUT_TRIGGER + x) = false →
            (off + x) mod LOG_CUT_TRIGGER ≠ 0) as Hlo.
  { intros x Hx Hb. apply Z.leb_gt in Hb. apply low_add; lia. }
  destruct need_cut; [split; [lia|apply Hlo; lia]|].
  specialize (Hcut eq_refl). assert (0 < off) as Hpos by (destruct (decide (off = 0)) as [->|]; [done|lia]).
  destruct (Z.ltb_spec 0 off); [|lia]. destruct (Z.eqb_spec (off mod LOG_CUT_TRIGGER) 0); [lia|].
  cbn [andb]. destruct (Z.ltb_spec LOG_CUT_TRIGGER (off mod LOG_CUT_TRIGGER + size)).
  - split; [lia|apply Hlo; lia].
  - split; [lia|apply Hlo; lia].
Qed.

(** What the allocation does to the end of the log. *)
Record fit_ok (lsn size : Z) (f : Fit) : Prop := {
  fit_end : f_block f * B + f_off f
            = lsn + (if f_pad f then f_pad_len f else 0) + entry_len (f_new f) size;
  fit_new_end : end_ok (f_cut f) (f_block f * B + f_off f);
  fit_pad : f_pad f = true →
            f_new f = true ∧ (lsn + f_pad_len f) mod B = 0 ∧ TAIL <= f_pad_len f < MAX_LOG_BUFFER_SIZE;
  fit_within : (f_block f * B + f_off f - entry_len (f_new f) size) / B
               = (f_block f * B + f_off f - 1) / B
}.

Lemma block_div b x : 0 <= x < B → (b * B + x) / B = b.
Proof. intros Hx. geometry. rewrite Z.add_comm, Z.div_add by lia. rewrite Z.div_small; lia. Qed.

Lemma block_mod b x : 0 <= x < B → (b * B + x) mod B = x.
Proof. intros Hx. geometry. rewrite Z.add_comm, Z.mod_add by lia. apply Z.mod_small. lia. Qed.

Lemma switch_ok lsn size :
  size_ok size → 0 <= lsn → lsn mod B <= B - TAIL →
  B - TAIL < lsn mod B + (size + HEADER_SER_SIZE) →
  fit_ok lsn size (switch_block (lsn / B) (lsn mod B) size).
Proof.
  intros [Hs Hmax] Hl Hoff Hfar. geometry.
  pose proof (Z.mod_pos_bound lsn B ltac:(lia)). pose proof (Z.div_mod lsn B ltac:(lia)).
  unfold switch_block. constructor; cbn [f_new f_cut f_block f_off f_pad f_pad_len]; unfold entry_len.
  - lia.
  - unfold end_ok. rewrite block_mod by lia. split; [lia|]. intros Hc. apply Z.leb_gt in Hc.
    rewrite Z.mod_small; lia.
  - intros _. split; [done|]. split; [|lia].
    replace (lsn + (B - lsn mod B)) with ((lsn / B + 1) * B) by lia. apply Z.mod_mul. lia.
  - replace ((lsn / B + 1) * B + (size + HEADER_SER_SIZE) - (size + HEADER_SER_SIZE))
      with ((lsn / B + 1) * B + 0) by lia.
    rewrite block_div by lia.
    replace ((lsn / B + 1) * B + (size + HEADER_SER_SIZE) - 1)
      with ((lsn / B + 1) * B + (size + HEADER_SER_SIZE - 1)) by lia.
    rewrite block_div; lia.
Qed.

Lemma fit_spec need_cut lsn size :
  size_ok size → 0 <= lsn → end_ok need_cut lsn →
  let '(is_new, cut, off') := place need_cut (lsn mod B) size in
  fit_ok lsn size (fit_block is_new cut (lsn / B) (lsn mod B) off' size).
Proof.
  intros Hsz Hl [Hoff Hcut]. geometry. pose proof (Z.mod_pos_bound lsn B ltac:(lia)) as Hm.
  pose proof (Z.div_mod lsn B ltac:(lia)) as Hdm.
  pose proof (place_spec need_cut (lsn mod B) size Hsz ltac:(lia) Hcut) as Hp.
  destruct (place need_cut (lsn mod B) size) as [[is_new cut] off']. destruct Hp as [-> Hcut'].
  assert (0 < entry_len is_new size <= size + HEADER_SER_SIZE) as He
    by (unfold entry_len; destruct Hsz; destruct is_new; lia).
  unfold fit_block. destruct (Z.ltb_spec (lsn mod B + entry_len is_new size) B) as [Hlt|Hge].
  - destruct (Z.ltb_spec (B - (lsn mod B + entry_len is_new size)) TAIL) as [Ht|Ht].
    + apply switch_ok; try done. lia.
    + constructor; cbn [f_new f_cut f_block f_off f_pad f_pad_len]; try done.
      * lia.
      * unfold end_ok. rewrite block_mod by lia. split; [lia|done].
      * replace (lsn / B * B + (lsn mod B + entry_len is_new size) - entry_len is_new size)
          with (lsn / B * B + lsn mod B) by lia.
        replace (lsn / B * B + (lsn mod B + entry_len is_new size) - 1)
          with (lsn / B * B + (lsn mod B + entry_len is_new size - 1)) by lia.
        rewrite !block_div by lia. done.
  - destruct (Z.eqb_spec (lsn mod B + entry_len is_new size) B) as [He'|Hne].
    + constructor; cbn [f_new f_cut f_block f_off f_pad f_pad_len]; try done.
      * lia.
      * unfold end_ok. rewrite block_mod by lia. split; [lia|done].
      * replace ((lsn / B + 1) * B + 0 - entry_len is_new size)
          with (lsn / B * B + lsn mod B) by lia.
        replace ((lsn / B + 1) * B + 0 - 1) with (lsn / B * B + (B - 1)) by lia.
        rewrite !block_div by lia. done.
    + apply switch_ok; try done. lia.
Qed.

(** * The invariant *)
Definition end_lsn (a : Alloc) : Z := lsn_val_ (lsn_ts_meta_ a).
Definition log_id_of (a : Alloc) : Z := log_id_base_ a + log_id_delta_ (lsn_ts_meta_ a).
Definition scn_of (a : Alloc) : Z := scn_base_ a + scn_delta_ (lsn_ts_meta_ a).

(** The bounds up to which ids, positions and timestamps are used. *)
Definition LIMIT : Z := 2 ^ 62.

Record wf (a : Alloc) : Prop := mkWf {
  w_inited : is_inited_ a = true;
  w_log_delta : 0 <= log_id_delta_ (lsn_ts_meta_ a) < LOG_ID_DELTA_UPPER_BOUND;
  w_scn_delta : 0 <= scn_delta_ (lsn_ts_meta_ a) < LOG_TS_DELTA_UPPER_BOUND;
  w_log_base : 0 <= log_id_base_ a;
  w_log_max : log_id_of a < LIMIT;
  w_scn_base : 0 <= scn_base_ a;
  w_scn_max : scn_of a < LIMIT;
  w_lsn : 0 <= end_lsn a < LIMIT;
  w_end : end_ok (is_need_cut_ (lsn_ts_meta_ a)) (end_lsn a)
}.

Lemma cur_log_id_eq a : wf a → cur_log_id a = log_id_of a.
Proof.
  intros []. unfold cur_log_id, log_id_of, LIMIT in *. apply wraps_small; [lia|]. unfold in_s.
  change (64 - 1) with 63. geometry. lia.
Qed.

Lemma cur_scn_eq a : wf a → cur_scn a = scn_of a.
Proof.
  intros []. unfold cur_scn, scn_of, LIMIT in *. apply wrapu_small. unfold in_u. geometry. lia.
Qed.

(** What a valid timestamp argument is bounded by. *)
Lemma scn_arg base : Scn.wf base → Scn.is_valid base = true →
  0 <= Scn.get_val_for_logservice base <= Scn.OB_MAX_SCN_TS_NS.
Proof. intros Hw Hv. apply (Scn.valid_iff base Hw) in Hv. destruct Hw. split; done. Qed.

(** A meta word whose parts fit their fields is stored unchanged. *)
Lemma meta_fits need_cut ld sd lsn :
  0 <= ld < LOG_ID_DELTA_UPPER_BOUND → 0 <= sd < LOG_TS_DELTA_UPPER_BOUND → 0 <= lsn < LIMIT →
  meta need_cut ld sd lsn = mkMeta need_cut ld sd lsn.
Proof.
  intros H1 H2 H3. geometry. unfold LIMIT in *. unfold meta.
  rewrite !wrapu_small; [done|..]; unfold in_u, LOG_ID_DELTA_BIT_CNT, LOG_TS_DELTA_BIT_CNT; lia.
Qed.

(** ** The rebase *)
Lemma update_base_spec base a :
  wf a → 0 <= Scn.get_val_for_logservice base < LIMIT →
  wf (update_base base a) ∧ end_lsn (update_base base a) = end_lsn a
  ∧ log_id_of (update_base base a) = log_id_of a
  ∧ scn_of (update_base base a) = Z.max (Scn.get_val_for_logservice base) (scn_of a)
  ∧ scn_base_ (update_base base a) = scn_of (update_base base a)
  ∧ log_id_delta_ (lsn_ts_meta_ (update_base base a)) = 0
  ∧ is_need_cut_ (lsn_ts_meta_ (update_base base a)) = is_need_cut_ (lsn_ts_meta_ a).
Proof.
  intros Hw Hb. pose proof Hw as []. geometry. unfold update_base.
  rewrite (cur_log_id_eq a Hw), (cur_scn_eq a Hw), meta_fits by (unfold end_lsn in *; lia).
  assert (0 <= log_id_of a) by (unfold log_id_of; lia).
  split; [constructor|]; unfold end_lsn, log_id_of, scn_of in *; simpl in *; try done; try lia.
  split_and!; (reflexivity || lia).
Qed.

(** After a rebase, or while the deltas are small, no rebase is needed. *)
Lemma no_update_base base a :
  wf a → 0 <= Scn.get_val_for_logservice base < LIMIT →
  need_update_base base (update_base base a) = false.
Proof.
  intros Hw Hb. destruct (update_base_spec base a Hw Hb) as (Hw' & _ & _ & Hs & Hsb & Hd & _).
  pose proof Hw' as []. unfold need_update_base. rewrite (cur_scn_eq _ Hw'), Hd, Hsb.
  geometry. unfold LIMIT in *.
  rewrite (wrapu_small 64 (scn_of (update_base base a) + 1)) by (unfold in_u; lia).
  rewrite wrapu_small by (unfold in_u; lia).
  apply orb_false_iff. split; apply Z.leb_gt; lia.
Qed.

(** ** One attempt *)

(** What a successful allocation of [size] bytes promises. *)
Record alloc_ok (base : Z) (size : Z) (a : Alloc) (o : Out) (a' : Alloc) : Prop := {
  ok_lsn : val_ (o_lsn o) = end_lsn a;
  ok_end : end_lsn a' = end_lsn a + (if o_padding o then o_padding_len o else 0)
                        + entry_len (o_is_new o) size;
  ok_within : (end_lsn a' - entry_len (o_is_new o) size) / B = (end_lsn a' - 1) / B;
  ok_pad : o_padding o = true →
           o_is_new o = true ∧ (end_lsn a + o_padding_len o) mod B = 0
           ∧ TAIL <= o_padding_len o < MAX_LOG_BUFFER_SIZE;
  ok_log_id : o_log_id o = log_id_of a + b2z (o_is_new o);
  ok_log_next : log_id_of a' = o_log_id o + b2z (o_padding o);
  ok_scn : scn_of a < Scn.val_ (o_scn o) ∧ base <= Scn.val_ (o_scn o) <= Z.max base (scn_of a) + 1;
  ok_scn_next : scn_of a' = Scn.val_ (o_scn o) + b2z (o_padding o)
}.

Lemma b2z_range b : 0 <= b2z b <= 1.
Proof. destruct b; simpl; lia. Qed.

Lemma try_alloc_spec base size log_ub lsn_ub a :
  wf a → size_ok size → 0 <= Scn.get_val_for_logservice base →
  Scn.get_val_for_logservice base + 1 < LIMIT → scn_of a + 2 < LIMIT →
  log_ub < LIMIT → val_ lsn_ub < LIMIT → need_update_base base a = false →
  (try_alloc base size log_ub lsn_ub a = (OB_EAGAIN, None, a))
  ∨ ∃ o a', try_alloc base size log_ub lsn_ub a = (OB_SUCCESS, Some o, a') ∧ wf a'
      ∧ alloc_ok (Scn.get_val_for_logservice base) size a o a'
      ∧ end_lsn a' <= val_ lsn_ub ∧ log_id_of a' <= log_ub.
Proof.
  intros Hw Hsz Hb0 Hb Hscn Hlub Hsub Hnb. pose proof Hw as []. geometry.
  unfold try_alloc. cbv zeta. unfold lsn_2_offset, lsn_2_block. cbn [val_].
  pose proof (fit_spec (is_need_cut_ (lsn_ts_meta_ a)) (end_lsn a) size Hsz ltac:(lia) w_end0) as Hfit.
  fold (end_lsn a). destruct (place _ _ _) as [[is_new cut] off].
  set (f := fit_block is_new cut (end_lsn a / B) (end_lsn a mod B) off size) in *.
  rewrite (cur_log_id_eq a Hw), (cur_scn_eq a Hw). unfold need_update_base in Hnb.
  rewrite (cur_scn_eq a Hw) in Hnb. unfold LIMIT in *.
  rewrite (wrapu_small 64 (scn_of a + 1)) in * by (unfold in_u, scn_of in *; lia).
  set (nx := Z.max (Scn.get_val_for_logservice base) (scn_of a + 1)) in *.
  assert (scn_base_ a <= nx) as Hge by (unfold nx, scn_of in *; lia).
  apply orb_false_iff in Hnb as [Hn1 Hn2]. rewrite wrapu_small in Hn1 by (unfold in_u; lia).
  apply Z.leb_gt in Hn1, Hn2. rewrite (wrapu_small 64 (nx - scn_base_ a)) by (unfold in_u; lia).
  pose proof (b2z_range (f_new f)). pose proof (b2z_range (f_pad f)).
  destruct (_ || _) eqn:Hub; [by left|right]. apply orb_false_iff in Hub as [Hu1 Hu2].
  apply Z.ltb_ge in Hu1. unfold lsn_gtb, lsn_ltb in Hu2. apply Z.ltb_ge in Hu2.
  destruct Hfit as [Hend Hnew Hpad Hin].
  assert (0 <= f_block f * B + f_off f < 2 ^ 64) as Hwrap.
  { rewrite Hend. destruct Hsz as [Hs1 Hs2]. unfold entry_len. destruct (f_pad f).
    - destruct (Hpad eq_refl) as (_ & _ & Hpl). destruct (f_new f); lia.
    - destruct (f_new f); lia. }
  cbn [val_ lsn_val_ meta] in Hu2. rewrite wrapu_small in Hu2 by exact Hwrap.
  rewrite meta_fits by (unfold LIMIT; lia).
  unfold Scn.convert_for_logservice, Scn.OB_MAX_SCN_TS_NS.
  replace (scn_base_ a + (nx - scn_base_ a)) with nx by lia.
  rewrite (wrapu_small 64 nx) by (unfold in_u; lia).
  destruct (Z.ltb_spec (2 ^ 62 - 1) nx); [lia|].
  eexists _, _. split; [reflexivity|].
  set (a' := mkAlloc _ _ _ _).
  assert (end_lsn a' = f_block f * B + f_off f) as He' by done.
  assert (log_id_of a' = log_id_of a + b2z (f_new f) + b2z (f_pad f)) as Hl' by (unfold log_id_of; simpl; lia).
  assert (scn_of a' = nx + b2z (f_pad f)) as Hs' by (unfold scn_of; simpl; lia).
  split; [|split; [|split; [by rewrite He'|by rewrite Hl']]].
  - constructor; rewrite ?He', ?Hl', ?Hs'; cbn [a' lsn_ts_meta_ log_id_delta_ scn_delta_ log_id_base_ scn_base_
      is_inited_ is_need_cut_]; unfold LIMIT; try done; try lia.
  - constructor; cbn [o_lsn o_log_id o_scn o_is_new o_padding o_padding_len val_ Scn.val_];
      rewrite ?He', ?Hl', ?Hs'; try done; try lia.
Qed.

(** ** The whole call *)

(** The arguments a caller may give, with room below [LIMIT]. *)
Record args_ok (base : Scn.SCN) (size log_ub : Z) (lsn_ub : LSN) (a : Alloc) : Prop := {
  arg_size : size_ok size;
  arg_scn : Scn.wf base ∧ Scn.is_valid base = true;
  arg_room : Z.max (Scn.get_val_for_logservice base) (scn_of a) + 2 < LIMIT;
  arg_log : 0 < log_ub < LIMIT;
  arg_lsn : val_ lsn_ub < LIMIT
}.

Lemma limit_valid l : val_ l < LIMIT → is_valid l = true.
Proof.
  intros Hl. unfold is_valid, LOG_INVALID_LSN_VAL, UINT64_MAX, LIMIT in *.
  destruct (Z.eqb_spec (2 ^ 64 - 1) (val_ l)); [lia|done].
Qed.

Lemma alloc_ok_rebase base size a a1 o a' :
  end_lsn a1 = end_lsn a → log_id_of a1 = log_id_of a → scn_of a1 = Z.max base (scn_of a) →
  alloc_ok base size a1 o a' → alloc_ok base size a o a'.
Proof.
  intros He Hl Hs []. constructor; try (rewrite <- ?He, <- ?Hl; done).
  rewrite Hs in *. lia.
Qed.

Lemma alloc_loop_spec fuel base size log_ub lsn_ub a :
  wf a → args_ok base size log_ub lsn_ub a → (2 <= fuel)%nat →
  ∃ rc out a', alloc_loop fuel false base size log_ub lsn_ub a = Some (rc, out, a') ∧ wf a'
    ∧ (rc = OB_EAGAIN ∧ out = None ∧ end_lsn a' = end_lsn a ∧ log_id_of a' = log_id_of a
       ∨ rc = OB_SUCCESS ∧ ∃ o, out = Some o ∧ alloc_ok (Scn.get_val_for_logservice base) size a o a'
           ∧ end_lsn a' <= val_ lsn_ub ∧ log_id_of a' <= log_ub).
Proof.
  intros Hw [Hsz [Hbw Hbv] Hroom Hlog Hlsn] Hfuel. pose proof (scn_arg base Hbw Hbv) as Hb.
  destruct fuel as [|[|fuel]]; [lia..|]. cbn [alloc_loop].
  destruct (need_update_base base a) eqn:Hn.
  - destruct (update_base_spec base a Hw ltac:(lia)) as (Hw1 & He1 & Hl1 & Hs1 & _).
    rewrite (no_update_base base a Hw ltac:(lia)).
    destruct (try_alloc_spec base size log_ub lsn_ub (update_base base a))
      as [->|(o & a' & -> & Hw' & Hok & Hend & Hid)]; try done; try lia.
    + apply no_update_base; [done|lia].
    + eexists _, _, _. split; [done|]. split; [done|]. left. done.
    + eexists _, _, _. split; [done|]. split; [done|]. right. split; [done|]. exists o.
      split; [done|]. split; [by eapply alloc_ok_rebase|done].
  - destruct (try_alloc_spec base size log_ub lsn_ub a)
      as [->|(o & a' & -> & Hw' & Hok & Hend & Hid)]; try done; try lia.
    + eexists _, _, _. split; [done|]. split; [done|]. left. done.
    + eexists _, _, _. split; [done|]. split; [done|]. right. split; [done|]. exists o. done.
Qed.

(** ** The other operations *)
Lemma wf_at log_id scn lsn :
  0 <= log_id < LIMIT → 0 <= scn < LIMIT → 0 <= lsn < LIMIT → lsn mod B <= B - TAIL →
  wf (mkAlloc (meta true 0 0 lsn) log_id scn true).
Proof.
  intros H1 H2 H3 H4. geometry. rewrite meta_fits by lia.
  constructor; unfold log_id_of, scn_of, end_lsn; cbn; try lia; try done.
Qed.

Lemma freeze_wf a : wf a → wf (freeze a) ∧ end_lsn (freeze a) = end_lsn a
  ∧ log_id_of (freeze a) = log_id_of a ∧ scn_of (freeze a) = scn_of a.
Proof.
  intros Hw. pose proof Hw as []. unfold freeze.
  rewrite meta_fits by (unfold end_lsn in *; lia).
  split; [|done]. constructor; unfold log_id_of, scn_of, end_lsn in *; cbn in *; try lia; try done.
  destruct w_end0. split; done.
Qed.

Lemma inc_update_scn_wf ref a a' :
  wf a → Scn.wf ref → inc_update_scn_base ref a = (OB_SUCCESS, a') →
  wf a' ∧ end_lsn a' = end_lsn a ∧ log_id_of a' = log_id_of a ∧ scn_of a <= scn_of a'
  ∧ Scn.get_val_for_logservice ref <= scn_of a'.
Proof.
  intros Hw Hr. pose proof Hw as []. unfold inc_update_scn_base. rewrite w_inited0.
  destruct (Scn.is_valid ref) eqn:Hv; cbn [negb]; [|done].
  pose proof (scn_arg ref Hr Hv) as Hb. unfold Scn.OB_MAX_SCN_TS_NS in Hb.
  rewrite (cur_scn_eq a Hw). destruct (Z.ltb_spec (Scn.get_val_for_logservice ref) (scn_of a)).
  - intros E. injection E as <-. split; [done|lia].
  - intros E. injection E as <-. geometry. rewrite meta_fits by (unfold end_lsn in *; lia).
    split; [constructor|]; unfold log_id_of, scn_of, end_lsn, LIMIT in *; cbn in *; try lia; try done.
    destruct w_end0. split; done.
Qed.

Lemma u64_negative z : - 2 ^ 62 <= z < 0 → LOG_TS_DELTA_UPPER_BOUND <= u64 z.
Proof.
  intros Hz. unfold u64, wrapu. rewrite <- (Z.mod_add z 1), Z.mod_small by lia.
  unfold LOG_TS_DELTA_UPPER_BOUND, LOG_TS_DELTA_BIT_CNT. change (Z.shiftl 1 35) with (2 ^ 35). lia.
Qed.

(** The timestamp of the log is not compared with the one of the allocator. *)
Lemma inc_update_log_wf lsn log_id scn a a' :
  wf a → Lsn.wf lsn → val_ lsn < LIMIT → val_ lsn mod B <= B - TAIL → log_id < LIMIT →
  Scn.wf scn → inc_update_last_log_info lsn log_id scn a = (OB_SUCCESS, a') →
  wf a' ∧ end_lsn a <= end_lsn a' ∧ log_id_of a <= log_id_of a'
  ∧ (scn_of a <= Scn.get_val_for_logservice scn → scn_of a <= scn_of a').
Proof.
  intros Hw Hlw Hll Hlt Hid Hsw. pose proof Hw as []. unfold inc_update_last_log_info.
  rewrite w_inited0. destruct (is_valid lsn); cbn [negb orb]; [|done].
  destruct (Scn.is_valid scn) eqn:Hv; cbn [negb orb]; [|done].
  pose proof (scn_arg scn Hsw Hv) as Hb. unfold Scn.OB_MAX_SCN_TS_NS in Hb.
  destruct (OB_INVALID_LOG_ID =? log_id); [done|].
  rewrite (cur_log_id_eq a Hw). destruct (_ || _) eqn:Hold.
  { intros E. injection E as <-. split; [done|lia]. }
  apply orb_false_iff in Hold as [Ho1 Ho2]. apply Z.ltb_ge in Ho1, Ho2. destruct Hlw as [Hl0 _].
  geometry. unfold LIMIT in *.
  rewrite wraps_small by (unfold in_s, log_id_of in *; simpl; lia).
  assert (wf (mkAlloc (meta true 0 0 (val_ lsn)) log_id (Scn.get_val_for_logservice scn) true)
          ∧ end_lsn a <= end_lsn (mkAlloc (meta true 0 0 (val_ lsn)) log_id (Scn.get_val_for_logservice scn) true)) as [Hat Hae].
  { split; [apply wf_at; unfold log_id_of, LIMIT in *; lia|]. rewrite meta_fits by (unfold LIMIT; lia). unfold end_lsn in *. cbn. lia. }
  destruct (_ || _) eqn:Hub.
  - intros E. injection E as <-. split; [done|]. split; [done|].
    rewrite meta_fits by (unfold LIMIT; lia). unfold log_id_of, scn_of in *; cbn. lia.
  - apply orb_false_iff in Hub as [Hu1 Hu2]. apply Z.leb_gt in Hu1, Hu2.
    destruct (Z.lt_ge_cases (Scn.get_val_for_logservice scn) (scn_base_ a)) as [Hlt'|Hge].
    { pose proof (u64_negative (Scn.get_val_for_logservice scn - scn_base_ a)). unfold scn_of in *. lia. }
    rewrite (wrapu_small 64) in Hu2 by (unfold in_u, scn_of in *; lia).
    intros E. injection E as <-.
    rewrite meta_fits by (unfold log_id_of, scn_of, LIMIT in *; lia).
    split; [constructor|]; unfold log_id_of, scn_of, end_lsn, LIMIT in *; cbn in *; try lia; try done.
Qed.

Lemma truncate_wf lsn log_id scn a a' :
  Lsn.wf lsn → val_ lsn < LIMIT → val_ lsn mod B <= B - TAIL → 0 <= log_id < LIMIT → Scn.wf scn →
  wf a → truncate lsn log_id scn a = (OB_SUCCESS, a') → wf a' ∧ end_lsn a' = val_ lsn.
Proof.
  intros [Hl0 _] Hll Hlt Hid Hsw Hw. unfold truncate. rewrite (w_inited a Hw). cbn [negb].
  destruct (_ || negb (Scn.is_valid scn)) eqn:Hv; [done|]. apply orb_false_iff in Hv as [_ Hv%negb_false_iff].
  pose proof (scn_arg scn Hsw Hv) as Hb. unfold Scn.OB_MAX_SCN_TS_NS in Hb. intros [= <-].
  split; [apply wf_at; unfold LIMIT in *; lia|]. unfold end_lsn. cbn. apply wrapu_small. unfold in_u, LIMIT in *. lia.
Qed.

(** * Interleavings

    The atomic steps of any number of threads: an attempt that succeeds, a
    rebase, a freeze, the updates from received logs and from a new leader, and a
    truncation.  The label tells what was handed out, and the two steps behind which
    the order does not go on: a truncation, and a received log whose timestamp is
    older than the last one. *)
Inductive Label : Set := Handed (e : Z * Out) | Truncated | OlderLog | Silent.

Inductive astep : Alloc → Label → Alloc → Prop :=
  | as_alloc base size log_ub lsn_ub a o a' :
      args_ok base size log_ub lsn_ub a → need_update_base base a = false →
      try_alloc base size log_ub lsn_ub a = (OB_SUCCESS, Some o, a') → astep a (Handed (size, o)) a'
  | as_rebase base a :
      0 <= Scn.get_val_for_logservice base < LIMIT → astep a Silent (update_base base a)
  | as_freeze a : astep a Silent (freeze a)
  | as_scn ref a a' : Scn.wf ref → inc_update_scn_base ref a = (OB_SUCCESS, a') → astep a Silent a'
  | as_log lsn log_id scn a a' :
      Lsn.wf lsn → val_ lsn < LIMIT → val_ lsn mod B <= B - TAIL → log_id < LIMIT → Scn.wf scn →
      inc_update_last_log_info lsn log_id scn a = (OB_SUCCESS, a') →
      astep a (if scn_of a <=? Scn.get_val_for_logservice scn then Silent else OlderLog) a'
  | as_truncate lsn log_id scn a a' :
      Lsn.wf lsn → val_ lsn < LIMIT → val_ lsn mod B <= B - TAIL → 0 <= log_id < LIMIT → Scn.wf scn →
      truncate lsn log_id scn a = (OB_SUCCESS, a') → astep a Truncated a'.

Inductive atrace : Alloc → list Label → Alloc → Prop :=
  | at_nil a : atrace a [] a
  | at_step a l a1 ls a2 : astep a l a1 → atrace a1 ls a2 → atrace a (l :: ls) a2.

Definition handed (l : Label) : option (Z * Out) := match l with Handed e => Some e | _ => None end.
Definition allocs (ls : list Label) : list (Z * Out) := omap handed ls.

(** The bytes an allocation takes, padding included. *)
Definition alloc_end (e : Z * Out) : Z :=
  val_ (o_lsn e.2) + (if o_padding e.2 then o_padding_len e.2 else 0) + entry_len (o_is_new e.2) e.1.

(** [e2] lies behind [e1] in the log, and is later. *)
Definition behind (e1 e2 : Z * Out) : Prop := alloc_end e1 <= val_ (o_lsn e2.2) ∧ o_log_id e1.2 <= o_log_id e2.2.
Definition later (e1 e2 : Z * Out) : Prop := Scn.val_ (o_scn e1.2) < Scn.val_ (o_scn e2.2).

(** What a step does to the end of the log, the last id and the last timestamp. *)
Lemma astep_spec a l a' :
  wf a → astep a l a' →
  wf a' ∧ (l ≠ Truncated → end_lsn a <= end_lsn a' ∧ log_id_of a <= log_id_of a')
  ∧ (l ≠ Truncated → l ≠ OlderLog → scn_of a <= scn_of a')
  ∧ match l with
    | Handed e => val_ (o_lsn e.2) = end_lsn a ∧ alloc_end e = end_lsn a'
                  ∧ scn_of a < Scn.val_ (o_scn e.2) <= scn_of a'
                  ∧ log_id_of a <= o_log_id e.2 <= log_id_of a'
    | _ => True
    end.
Proof.
  intros Hw Hst. destruct Hst as [base size log_ub lsn_ub a o a' [Hsz [Hbw Hbv] Hroom Hlog Hlsn] Hn Ht
    |base a Hb|a|ref a a' Hr He|lsn log_id scn a a' Hlw Hll Hlt Hid Hsw He|lsn log_id scn a a' Hlw Hll Hlt Hid Hsw He].
  - pose proof (scn_arg base Hbw Hbv) as Hb.
    destruct (try_alloc_spec base size log_ub lsn_ub a) as [E|(o' & a1 & E & Hw' & Hok & _)];
      try done; try lia; rewrite E in Ht; [done|]. injection Ht as <- <-.
    destruct Hok. unfold alloc_end. cbn [fst snd].
    pose proof (b2z_range (o_is_new o')). pose proof (b2z_range (o_padding o')).
    assert (0 < entry_len (o_is_new o') size) as He.
    { destruct Hsz. geometry. unfold entry_len. destruct (o_is_new o'); lia. }
    assert (0 <= if o_padding o' then o_padding_len o' else 0) as Hp.
    { destruct (o_padding o'); [|lia]. geometry. destruct (ok_pad0 eq_refl) as (_ & _ & ?). lia. }
    split; [done|]. lia.
  - destruct (update_base_spec base a Hw Hb) as (Hw' & ? & ? & ? & _). split; [done|]. lia.
  - destruct (freeze_wf a Hw) as (Hw' & ? & ? & ?). split; [done|]. lia.
  - destruct (inc_update_scn_wf ref a a' Hw Hr He) as (Hw' & ? & ? & ? & _). split; [done|]. lia.
  - destruct (inc_update_log_wf lsn log_id scn a a') as (Hw' & ? & ? & Hs); try done. split; [done|]. split; [done|].
    destruct (Z.leb_spec (scn_of a) (Scn.get_val_for_logservice scn)); [by split; [auto|]|]. split; [by intros _ []|done].
  - destruct (truncate_wf lsn log_id scn a a' Hlw Hll Hlt Hid Hsw Hw He) as [Hw' _]. split; [done|]. split; [by intros []|].
    split; [by intros []|done].
Qed.

Lemma atrace_wf a ls a' : wf a → atrace a ls a' → wf a'.
Proof. intros Hw Ht. induction Ht as [|a l a1 ls a2 Hst _ IH]; [done|]. by apply IH, (astep_spec a l). Qed.

Lemma not_in_cons (x l : Label) ls : x ∉ l :: ls → l ≠ x ∧ x ∉ ls.
Proof. rewrite not_elem_of_cons. intros [? ?]. done. Qed.

Lemma atrace_places a ls a' :
  wf a → atrace a ls a' → Truncated ∉ ls →
  StronglySorted behind (allocs ls) ∧ end_lsn a <= end_lsn a'
  ∧ Forall (fun e => end_lsn a <= val_ (o_lsn e.2) ∧ log_id_of a <= o_log_id e.2 ∧ alloc_end e <= end_lsn a') (allocs ls).
Proof.
  intros Hw Ht. induction Ht as [a|a l a1 ls a2 Hst Ht IH]; [split; [constructor|split; [lia|constructor]]|].
  intros [Hl Hls]%not_in_cons. destruct (astep_spec _ _ _ Hw Hst) as (Hw1 & Hp & _ & Ho). destruct (Hp Hl) as [He Hi].
  destruct (IH Hw1 Hls) as (Hsort & He2 & Hall).
  assert (Forall (fun e => end_lsn a <= val_ (o_lsn e.2) ∧ log_id_of a <= o_log_id e.2 ∧ alloc_end e <= end_lsn a2) (allocs ls)) as Hall'.
  { eapply Forall_impl; [exact Hall|]. cbv beta. intros e. lia. }
  destruct l as [e| | |]; [|done|split; [done|split; [lia|done]]..].
  destruct Ho as (Hstart & Hstop & _ & Hid). split; [|split; [lia|]].
  - constructor; [done|]. eapply Forall_impl; [exact Hall|]. cbv beta. unfold behind. intros e'. lia.
  - constructor; [lia|done].
Qed.

Lemma atrace_times a ls a' :
  wf a → atrace a ls a' → Truncated ∉ ls → OlderLog ∉ ls →
  StronglySorted later (allocs ls) ∧ Forall (fun e => scn_of a < Scn.val_ (o_scn e.2)) (allocs ls).
Proof.
  intros Hw Ht. induction Ht as [a|a l a1 ls a2 Hst Ht IH]; [split; constructor|].
  intros [Hl Hls]%not_in_cons [Hl' Hls']%not_in_cons. destruct (astep_spec _ _ _ Hw Hst) as (Hw1 & _ & Hs & Ho).
  specialize (Hs Hl Hl'). destruct (IH Hw1 Hls Hls') as (Hsort & Hall).
  assert (Forall (fun e => scn_of a < Scn.val_ (o_scn e.2)) (allocs ls)) as Hall'.
  { eapply Forall_impl; [exact Hall|]. cbv beta. intros e. lia. }
  destruct l as [e| | |]; [|done..]. destruct Ho as (_ & _ & Hscn & _). split.
  - constructor; [done|]. eapply Forall_impl; [exact Hall|]. cbv beta. unfold later. intros e'. lia.
  - constructor; [lia|done].
Qed.

(** * The theorems *)

(** C31: [alloc_lsn_scn] ends within two rounds of its loop and either asks to
    retry ([OB_EAGAIN], position and id unchanged) or allocates: the entry starts
    at the end of the log (behind the padding), the log grows by exactly the
    padding and the entry, the entry stays within one block, the padding fills a
    block and has the size [log_define.h] states, ids and timestamps go up, and
    the bounds the caller gave are respected.  The invariant is kept. *)
Theorem alloc_lsn_scn_correct fuel base size log_ub lsn_ub a :
  wf a → args_ok base size log_ub lsn_ub a → (2 <= fuel)%nat →
  ∃ rc out a', alloc_lsn_scn fuel base size log_ub lsn_ub a = Some (rc, out, a') ∧ wf a'
    ∧ (rc = OB_EAGAIN ∧ out = None ∧ end_lsn a' = end_lsn a ∧ log_id_of a' = log_id_of a
       ∨ rc = OB_SUCCESS ∧ ∃ o, out = Some o ∧ alloc_ok (Scn.get_val_for_logservice base) size a o a'
           ∧ end_lsn a' <= val_ lsn_ub ∧ log_id_of a' <= log_ub).
Proof.
  intros Hw Ha Hf. unfold alloc_lsn_scn. rewrite (w_inited a Hw).
  pose proof Ha as [[Hs _] [_ Hbv] _ Hlog Hlsn]. rewrite Hbv, (limit_valid _ Hlsn).
  destruct (Z.leb_spec size 0); [lia|]. destruct (Z.leb_spec log_ub 0); [lia|]. cbn [negb orb].
  by apply alloc_loop_spec.
Qed.

(** C32: in every interleaving of the atomic steps of any number of threads, which
    allocate, rebase, freeze, learn of logs and of a new base and truncate, with sizes
    and positions below [LIMIT], the allocator stays well formed; in every part of it
    without a truncation the byte ranges handed out are disjoint and in order, their
    log ids never decrease, and they all lie between the first and the last end of the
    log; and if moreover no log was learned with a timestamp older than the last one,
    which the code does not test, the timestamps strictly increase. *)
Theorem alloc_interleavings_ordered a ls a' :
  wf a → atrace a ls a' →
  wf a'
  ∧ (Truncated ∉ ls →
     StronglySorted behind (allocs ls)
     ∧ Forall (fun e => end_lsn a <= val_ (o_lsn e.2) ∧ alloc_end e <= end_lsn a') (allocs ls))
  ∧ (Truncated ∉ ls → OlderLog ∉ ls → StronglySorted later (allocs ls)).
Proof.
  intros Hw Ht. split; [by eapply atrace_wf|]. split.
  - intros Hn. destruct (atrace_places a ls a' Hw Ht Hn) as (Hs & _ & Hall). split; [done|].
    eapply Forall_impl; [exact Hall|]. cbv beta. intros e. lia.
  - intros Hn Ho. by destruct (atrace_times a ls a' Hw Ht Hn Ho).
Qed.

(** The operations that move the end of the log to a position of a received
    or a kept log, and the freezes, keep the invariant; freezing makes the next
    entry start a new group. *)
Theorem allocator_operations_keep_wf a lsn log_id scn :
  wf a → 0 <= val_ lsn < LIMIT → val_ lsn mod B <= B - TAIL → 0 <= log_id < LIMIT →
  Scn.wf scn → Scn.is_valid scn = true →
  wf (truncate lsn log_id scn a).2 ∧ end_lsn (truncate lsn log_id scn a).2 = val_ lsn
  ∧ (scn_of a <= Scn.val_ scn → wf (inc_update_last_log_info lsn log_id scn a).2)
  ∧ wf (inc_update_scn_base scn a).2
  ∧ wf (try_freeze a).2 ∧ is_need_cut_ (lsn_ts_meta_ (try_freeze a).2) = true
  ∧ end_lsn (try_freeze a).2 = end_lsn a.
Proof.
  intros Hw Hl Ht Hid Hsw Hsv. pose proof (scn_arg scn Hsw Hsv) as Hb.
  unfold Scn.OB_MAX_SCN_TS_NS in Hb.
  assert (OB_INVALID_LOG_ID =? log_id = false) as Hlid.
  { unfold OB_INVALID_LOG_ID. apply Z.eqb_neq. lia. }
  assert (wf (mkAlloc (meta true 0 0 (val_ lsn)) log_id (Scn.get_val_for_logservice scn) true)
          ∧ end_lsn (truncate lsn log_id scn a).2 = val_ lsn) as [Hat Hend].
  { split; [apply wf_at; unfold LIMIT in *; lia|]. unfold truncate.
    rewrite (w_inited a Hw), (limit_valid lsn), Hsv, Hlid by lia. cbn [negb orb snd].
    unfold end_lsn. cbn. apply wrapu_small. unfold in_u, LIMIT in *. lia. }
  split; [|split; [exact Hend|split; [|split; [|]]]].
  - unfold truncate. rewrite (w_inited a Hw), (limit_valid lsn), Hsv, Hlid by lia. exact Hat.
  - intros Hge. destruct (inc_update_last_log_info lsn log_id scn a) as [rc a'] eqn:E.
    assert (rc = OB_SUCCESS) as ->.
    { unfold inc_update_last_log_info in E.
      rewrite (w_inited a Hw), (limit_valid lsn), Hsv, Hlid in E by lia. cbn [negb orb] in E.
      repeat match type of E with context [if ?b then _ else _] => destruct b end; congruence. }
    destruct (inc_update_log_wf lsn log_id scn a a') as (Hw' & _); try done; try lia.
    unfold Lsn.wf, in_u, LIMIT in *. lia.
  - destruct (inc_update_scn_base scn a) as [rc a'] eqn:E.
    assert (rc = OB_SUCCESS) as ->.
    { unfold inc_update_scn_base in E. rewrite (w_inited a Hw), Hsv in E. cbn [negb] in E.
      destruct (_ <? _); congruence. }
    by destruct (inc_update_scn_wf scn a a' Hw Hsw E).
  - unfold try_freeze. rewrite (w_inited a Hw). cbn [negb].
    destruct (is_need_cut_ (lsn_ts_meta_ a)) eqn:Hc; cbn [snd]; [done|].
    destruct (freeze_wf a Hw) as (? & ? & _). done.
Qed.

(** : the check for a group that ends on a 2MB boundary does not stop the
    allocation.  In a state that violates the invariant there, [alloc_lsn_scn]
    reports success and moves the end of the log back to the start of the block. *)
Theorem boundary_check_masked :
  ∃ a o a', is_need_cut_ (lsn_ts_meta_ a) = false ∧ end_lsn a = LOG_CUT_TRIGGER
    ∧ alloc_lsn_scn 2 (Scn.mkSCN 10) 100 1000 (mkLSN 10000000) a = Some (OB_SUCCESS, Some o, a')
    ∧ end_lsn a' < end_lsn a.
Proof.
  exists (mkAlloc (mkMeta false 0 0 LOG_CUT_TRIGGER) 1 5 true). eexists _, _.
  split; [reflexivity|]. split; [reflexivity|]. split; [vm_compute; reflexivity|reflexivity].
Qed.

(** * Witnesses *)
Definition start : Alloc := (init 1 (Scn.mkSCN 5) (mkLSN 0) (reset (mkAlloc (meta true 0 0 0) 0 0 false))).2.

Lemma start_wf : wf start.
Proof. apply (wf_at 1 5 0); vm_compute; repeat split; congruence. Qed.

Lemma start_args : args_ok (Scn.mkSCN 10) 100 1000 (mkLSN 10000000) start.
Proof. constructor; [split; vm_compute; congruence|split; [split; vm_compute; congruence|reflexivity]|
  vm_compute; congruence|split; vm_compute; congruence|vm_compute; congruence]. Qed.

Lemma alloc_lsn_scn_correct_witness :
  ∃ rc out a', alloc_lsn_scn 2 (Scn.mkSCN 10) 100 1000 (mkLSN 10000000) start = Some (rc, out, a')
    ∧ rc = OB_SUCCESS ∧ end_lsn a' = 156.
Proof.
  destruct (alloc_lsn_scn_correct 2 (Scn.mkSCN 10) 100 1000 (mkLSN 10000000) start
    start_wf start_args (le_n 2)) as (rc & out & a' & E & _).
  exists rc, out, a'. split; [exact E|]. vm_compute in E. injection E as <- _ <-.
  split; reflexivity.
Defined.

(** Two allocations of 100 bytes, with a freeze between them. *)
Definition two_allocs : list (Z * Out) :=
  [(100, mkOut (mkLSN 0) 2 (Scn.mkSCN 10) true false 0); (100, mkOut (mkLSN 156) 3 (Scn.mkSCN 11) true false 0)].
Definition after_two : Alloc := mkAlloc (mkMeta false 2 6 312) 1 5 true.

Lemma two_allocs_trace : atrace start (match two_allocs with [e1; e2] => [Handed e1; Silent; Handed e2] | _ => [] end) after_two.
Proof.
  eapply at_step; [apply (as_alloc (Scn.mkSCN 10) 100 1000 (mkLSN 10000000)); [exact start_args|reflexivity|vm_compute; reflexivity]|].
  eapply at_step; [apply as_freeze|]. eapply at_step; [|apply at_nil].
  apply (as_alloc (Scn.mkSCN 10) 100 1000 (mkLSN 10000000)); [|reflexivity|vm_compute; reflexivity].
  constructor; [split; vm_compute; congruence|split; [split; vm_compute; congruence|reflexivity]|
    vm_compute; congruence|split; vm_compute; congruence|vm_compute; congruence].
Qed.

Lemma alloc_interleavings_ordered_witness : StronglySorted behind two_allocs ∧ StronglySorted later two_allocs.
Proof.
  destruct (alloc_interleavings_ordered start _ after_two start_wf two_allocs_trace) as (_ & H1 & H2). split.
  - apply H1. intros Hin. repeat (apply elem_of_cons in Hin as [?|Hin]; [discriminate|]). by apply elem_of_nil in Hin.
  - apply H2; intros Hin; repeat (apply elem_of_cons in Hin as [?|Hin]; [discriminate|]); by apply elem_of_nil in Hin.
Defined.

(** A received log with an older timestamp is taken, and the next timestamp handed out
    is smaller than an earlier one. *)
Example older_log_moves_time_back :
  let a := (inc_update_last_log_info (mkLSN 400) 4 (Scn.mkSCN 7) after_two).2 in
  scn_of after_two = 11 ∧ scn_of a = 7 ∧
  match try_alloc (Scn.mkSCN 1) 100 1000 (mkLSN 10000000) a with
  | (rc, Some o, _) => rc = OB_SUCCESS ∧ Scn.val_ (o_scn o) = 8
  | _ => False
  end.
Proof. by vm_compute. Qed.


Lemma allocator_operations_keep_wf_witness :
  wf (truncate (mkLSN 4096) 7 (Scn.mkSCN 9) start).2.
Proof.
  apply (allocator_operations_keep_wf start (mkLSN 4096) 7 (Scn.mkSCN 9));
    [exact start_wf|split; vm_compute; congruence|vm_compute; congruence|split; vm_compute; congruence
    |split; vm_compute; congruence|reflexivity].
Defined.
End LsnAllocator.
