(* ===== verification/Parity.v ===== *)
(** [parity_check] of [deps/oblib/src/lib/checksum/ob_parity_check.cpp]: the parity
    of the number of ones in a 16, 32 or 64-bit integer, by folding it to a byte
    and a table of 256 entries.  The log headers of the first version protect
    themselves with it. *)
From S2P Require Import Prelude.

Module Parity.
(** The macros [P2], [P4], [P6] and the table they spell out. *)
Definition P2 (n : bool) : list bool := [n; xorb n true; xorb n true; n].
Definition P4 (n : bool) : list bool := P2 n ++ P2 (xorb n true) ++ P2 (xorb n true) ++ P2 n.
Definition P6 (n : bool) : list bool := P4 n ++ P4 (xorb n true) ++ P4 (xorb n true) ++ P4 n.
Definition ParityTable : list bool := P6 false ++ P6 true ++ P6 true ++ P6 false.

(** [val ^= val >> n] and the access [ParityTable[val & 0xff]]. *)
Definition fold_shift (n val : Z) : Z := Z.lxor val (Z.shiftr val n).
Definition table_at (val : Z) : bool := nth (Z.to_nat (Z.land val 255)) ParityTable false.

Definition parity_check16 (value : Z) : bool := table_at (fold_shift 8 value).
Definition parity_check32 (value : Z) : bool := table_at (fold_shift 8 (fold_shift 16 value)).
Definition parity_check64 (value : Z) : bool :=
  table_at (fold_shift 8 (fold_shift 16 (fold_shift 32 value))).

(** * The parity of the low bits of an integer *)
Fixpoint parity (n : nat) (v : Z) : bool :=
  match n with O => false | S n' => xorb (Z.testbit v (Z.of_nat n')) (parity n' v) end.

Lemma parity_lxor n a b : parity n (Z.lxor a b) = xorb (parity n a) (parity n b).
Proof.
  induction n as [|n IH]; [done|]. cbn [parity]. rewrite IH, Z.lxor_spec.
  by destruct (Z.testbit a _), (Z.testbit b _), (parity n a), (parity n b).
Qed.

Lemma parity_add n m v : parity (n + m) v = xorb (parity n v) (parity m (Z.shiftr v (Z.of_nat n))).
Proof.
  induction m as [|m IH]; [by rewrite Nat.add_0_r, xorb_false_r|].
  rewrite Nat.add_succ_r. cbn [parity]. rewrite IH, Z.shiftr_spec by lia.
  replace (Z.of_nat m + Z.of_nat n) with (Z.of_nat (n + m)) by lia.
  by destruct (Z.testbit v _), (parity n v), (parity m _).
Qed.

Lemma parity_fold n v : parity n (fold_shift (Z.of_nat n) v) = parity (n + n) v.
Proof. unfold fold_shift. by rewrite parity_lxor, parity_add. Qed.

Lemma parity_ext n a b : (∀ i, 0 <= i < Z.of_nat n → Z.testbit a i = Z.testbit b i) → parity n a = parity n b.
Proof.
  induction n as [|n IH]; intros H; [done|]. cbn [parity]. rewrite H, IH by (intros; try apply H; lia). done.
Qed.

Lemma parity_bit n k : (k < n)%nat → parity n (2 ^ Z.of_nat k) = true.
Proof.
  induction n as [|n IH]; intros Hk; [lia|]. cbn [parity]. rewrite Z.pow2_bits_eqb by lia.
  destruct (Z.eqb_spec (Z.of_nat k) (Z.of_nat n)) as [E|E]; [|by rewrite IH by lia].
  assert (parity n (2 ^ Z.of_nat k) = parity n 0) as ->.
  { apply parity_ext. intros i Hi. rewrite Z.bits_0. apply Z.pow2_bits_false. lia. }
  assert (parity n 0 = false) as ->; [|done]. clear. induction n as [|n IH]; [done|].
  cbn [parity]. by rewrite IH, Z.bits_0.
Qed.

(** The 256 entries of the table, by computation. *)
Lemma table_entries : forallb (fun i => eqb (nth i ParityTable false) (parity 8 (Z.of_nat i))) (seq 0 256) = true.
Proof. vm_compute. reflexivity. Qed.

Lemma table_parity v : table_at v = parity 8 v.
Proof.
  unfold table_at. pose proof (Z.mod_pos_bound v 256 ltac:(lia)) as Hb.
  assert (Z.land v 255 = v mod 256) as E by (apply (Z.land_ones v 8); lia). rewrite E.
  pose proof (proj1 (forallb_forall _ _) table_entries (Z.to_nat (v mod 256))) as Ht.
  cbv beta in Ht. rewrite eqb_true_iff in Ht. rewrite Ht by (apply in_seq; lia).
  rewrite Z2Nat.id by lia. apply parity_ext. intros i Hi. change 256 with (2 ^ 8).
  by rewrite Z.mod_pow2_bits_low by lia.
Qed.

Lemma check16 v : parity_check16 v = parity 16 v.
Proof. unfold parity_check16. rewrite table_parity. apply (parity_fold 8). Qed.

Lemma check32 v : parity_check32 v = parity 32 v.
Proof. unfold parity_check32. rewrite table_parity, (parity_fold 8). apply (parity_fold 16). Qed.

Lemma check64 v : parity_check64 v = parity 64 v.
Proof.
  unfold parity_check64. rewrite table_parity, (parity_fold 8), (parity_fold 16). apply (parity_fold 32).
Qed.

(** The number of ones among the low [n] bits. *)
Definition ones_count (n : nat) (v : Z) : nat :=
  length (filter (fun i => Z.testbit v (Z.of_nat i) = true) (seq 0 n)).

Lemma parity_odd n v : parity n v = Nat.odd (ones_count n v).
Proof.
  unfold ones_count. induction n as [|n IH]; [done|]. cbn [parity]. rewrite IH, seq_S, filter_app, length_app.
  cbn [Nat.add]. rewrite filter_cons, filter_nil. destruct (Z.testbit v (Z.of_nat n)) eqn:E.
  - rewrite decide_True by done. cbn [length]. rewrite Nat.add_1_r, Nat.odd_succ, <- Nat.negb_odd. done.
  - rewrite decide_False by done. cbn [length]. by rewrite Nat.add_0_r.
Qed.

(** [parity_check] (fold and table) is true exactly when the number of ones of
    the integer is odd, for each of the three widths. *)
Theorem parity_check_counts v :
  parity_check16 v = Nat.odd (ones_count 16 v) ∧ parity_check32 v = Nat.odd (ones_count 32 v)
  ∧ parity_check64 v = Nat.odd (ones_count 64 v).
Proof. rewrite check16, check32, check64, !parity_odd. done. Qed.
End Parity.
