(* ===== verification/Codec.v ===== *)
(** Shared pieces of the headers of the log: chains of encoders and decoders, what a
    reader does on arbitrary bytes, masks of flag words. *)
From S2P Require Import Prelude Serialization Scn.
Import Ser.

Module Codec.
(** The bytes of an integer in memory, least significant first. *)
Definition le_bytes (n : nat) (v : Z) : list Z := reverse (be_bytes n v).

(** A chain of encoders: any failure is [OB_BUF_NOT_ENOUGH], and the position moves only on success. *)
Definition guarded (buf_len : Z) (m : M Wr Z) : M Wr Z :=
  let! bad := gets (fun w => Scn.bad_buf (w_buf w) buf_len) in
  if bad then ret OB_INVALID_ARGUMENT
  else Scn.commit_pos (let! r := m in ret (if ob_failed r then OB_BUF_NOT_ENOUGH else OB_SUCCESS)).

(** Decode a member; on a failure the object keeps the members read so far. *)
Definition field {A B} (m : M Z (Z * A)) (kept : B) (k : A → M Z (Z * B)) : M Z (Z * B) :=
  let! r := m in if ob_failed r.1 then ret (OB_BUF_NOT_ENOUGH, kept) else k r.2.

(** The same with the error of the decoder. *)
Definition field_rc {A B} (m : M Z (Z * A)) (kept : B) (k : A → M Z (Z * B)) : M Z (Z * B) :=
  let! r := m in if ob_failed r.1 then ret (r.1, kept) else k r.2.

(** [buf + pos]. *)
Definition pointer (buf : buf_t) (pos : Z) : buf_t := drop (Z.to_nat pos) <$> buf.

(** [MEMCPY(buf + pos, src, len)]; [None] outside of either buffer. *)
Definition memcpy (src : buf_t) (len : Z) : M Wr unit := fun w =>
  match src, w_buf w with
  | Some s, Some l =>
      if (0 <=? len) && (len <=? Z.of_nat (length s)) && (0 <=? w_pos w)
         && (w_pos w + len <=? Z.of_nat (length l))
      then Some (tt, mkWr (Some (splice l (w_pos w) (take (Z.to_nat len) s))) (w_pos w + len))
      else None
  | _, _ => None
  end.

(** * Chains of encoders and decoders *)
Lemma guarded_writes buf_len m bs :
  0 < Z.of_nat (length bs) → writes buf_len m bs → writes buf_len (guarded buf_len m) bs.
Proof.
  intros Hn Hm. apply Scn.guard_writes; [done|]. apply Scn.commit_writes.
  intros l pos Hp Hl. by rewrite (bind_run _ _ _ _ _ (Hm l pos Hp Hl)).
Qed.

Lemma field_reads {A B} l data_len (m : M Z (Z * A)) kept (k : A → M Z (Z * B)) bs1 bs2 a b :
  reads l data_len m bs1 a → reads l data_len (k a) bs2 b →
  reads l data_len (field m kept k) (bs1 ++ bs2) b.
Proof.
  intros H1 H2 pos Hp Hd Hs. destruct (slice_app_inv _ _ _ _ Hp Hs) as [S1 S2].
  rewrite length_app in Hd. unfold field.
  rewrite (bind_run _ _ _ _ _ (H1 pos Hp ltac:(lia) S1)). cbn [fst snd].
  change (ob_failed OB_SUCCESS) with false. cbv iota. rewrite H2 by (lia || done).
  rewrite length_app. do 2 f_equal. lia.
Qed.

Lemma field_rc_reads {A B} l data_len (m : M Z (Z * A)) kept (k : A → M Z (Z * B)) bs1 bs2 a b :
  reads l data_len m bs1 a → reads l data_len (k a) bs2 b →
  reads l data_len (field_rc m kept k) (bs1 ++ bs2) b.
Proof.
  intros H1 H2 pos Hp Hd Hs. rewrite <- (field_reads _ _ m kept k _ _ a b H1 H2 pos Hp Hd Hs).
  destruct (slice_app_inv _ _ _ _ Hp Hs) as [S1 _]. rewrite length_app in Hd. unfold field, field_rc.
  by rewrite !(bind_run _ _ _ _ _ (H1 pos Hp ltac:(lia) S1)).
Qed.

Lemma guard_reads {A} l data_len (bad m : M Z (Z * A)) bs a :
  0 < Z.of_nat (length bs) → reads l data_len m bs a →
  reads l data_len (if Scn.bad_buf (Some l) data_len then bad else m) bs a.
Proof.
  intros Hn Hm pos Hp Hd Hs. unfold Scn.bad_buf. destruct (Z.leb_spec data_len 0); [lia|]. by apply Hm.
Qed.

Lemma ret_reads {A} l data_len (a : A) : reads l data_len (ret (OB_SUCCESS, a)) [] a.
Proof. intros pos Hp Hd Hs. cbn. by rewrite Z.add_0_r. Qed.

Lemma memcpy_run s len l pos :
  0 <= len <= Z.of_nat (length s) → 0 <= pos → pos + len <= Z.of_nat (length l) →
  memcpy (Some s) len (mkWr (Some l) pos)
  = Some (tt, mkWr (Some (splice l pos (take (Z.to_nat len) s))) (pos + Z.of_nat (length (take (Z.to_nat len) s)))).
Proof.
  intros Hl Hp Hr. rewrite length_take. unfold memcpy. cbn [w_buf w_pos].
  rewrite !(proj2 (Z.leb_le _ _)) by lia. cbn [andb]. do 3 f_equal. lia.
Qed.

Lemma memcpy_writes buf_len s len :
  0 <= len <= Z.of_nat (length s) →
  writes buf_len (memcpy (Some s) len ;;; ret OB_SUCCESS) (take (Z.to_nat len) s).
Proof.
  intros Hl l pos Hp [H1 H2]. rewrite length_take in H1.
  by rewrite (bind_run _ _ _ _ _ (memcpy_run s len l pos Hl Hp ltac:(lia))).
Qed.

(** * Masks *)
Lemma land_lor_mask f c m : Z.land c (Z.lnot m) = 0 → Z.land c m = c →
  Z.land (Z.lor (Z.land f (Z.lnot m)) c) (Z.lnot m) = Z.land f (Z.lnot m)
  ∧ Z.land (Z.lor (Z.land f (Z.lnot m)) c) m = c.
Proof.
  intros H1 H2. split.
  - rewrite Z.land_lor_distr_l, H1, Z.lor_0_r, <- Z.land_assoc, Z.land_diag. done.
  - rewrite Z.land_lor_distr_l, H2, <- Z.land_assoc, (Z.land_comm (Z.lnot m)), Z.land_lnot_diag.
    by rewrite Z.land_0_r.
Qed.

Lemma mask_small c k : 0 <= k → 0 <= c < 2 ^ k →
  Z.land c (Z.lnot (Z.ones k)) = 0 ∧ Z.land c (Z.ones k) = c.
Proof.
  intros Hk Hc. rewrite <- Z.ldiff_land, Z.ldiff_ones_r, Z.land_ones, Z.shiftr_div_pow2, Z.div_small by lia.
  split; [apply Z.shiftl_0_l|by apply Z.mod_small].
Qed.

Lemma land_in_s w a b : 0 < w → in_s w a → in_s w b → in_s w (Z.land a b).
Proof.
  intros Hw Ha Hb. unfold in_s in *.
  assert (∀ x, - 2 ^ (w - 1) <= x < 2 ^ (w - 1) ↔ Z.shiftr x (w - 1) = 0 ∨ Z.shiftr x (w - 1) = -1) as Hiff.
  { intros x. rewrite Z.shiftr_div_pow2 by lia. assert (0 < 2 ^ (w - 1)) by (apply Z.pow_pos_nonneg; lia).
    split.
    - intros Hx. destruct (Z.lt_ge_cases x 0); [right|left; apply Z.div_small; lia].
      symmetry. apply Z.div_unique with (x + 2 ^ (w - 1)); lia.
    - pose proof (Z.div_mod x (2 ^ (w - 1)) ltac:(lia)). pose proof (Z.mod_pos_bound x (2 ^ (w - 1)) ltac:(lia)).
      nia. }
  rewrite Hiff in *. rewrite Z.shiftr_land. destruct Ha as [-> | ->], Hb as [-> | ->]; cbn; auto.
Qed.

Lemma lor_in_s w a b : 0 < w → in_s w a → in_s w b → in_s w (Z.lor a b).
Proof.
  intros Hw Ha Hb. replace (Z.lor a b) with (Z.lnot (Z.land (Z.lnot a) (Z.lnot b)))
    by (rewrite Z.lnot_land, !Z.lnot_involutive; done).
  assert (∀ x, in_s w x → in_s w (Z.lnot x)) as Hn by (unfold in_s, Z.lnot; lia).
  by apply Hn, land_in_s; [|apply Hn|apply Hn].
Qed.

(** * Headers with a checksum in their flag word

    The headers of entries and groups keep a checksum of themselves in some low
    bits of [flag_]: [hc_mask] are the bits, [hc_sum] the checksum, which does not
    look at them, for the versions [hc_known]. *)
Class HeaderChecksum (H : Type) : Type := {
  hc_flag : H → Z;
  hc_set : Z → H → H;
  hc_mask : H → Z;
  hc_sum : H → Z;
  hc_known : H → Prop
}.

Class HeaderChecksumLaws (H : Type) `{HeaderChecksum H} : Prop := {
  hc_flag_set f h : hc_flag (hc_set f h) = f;
  hc_set_set f g h : hc_set f (hc_set g h) = hc_set f h;
  hc_mask_set f h : hc_mask (hc_set f h) = hc_mask h;
  hc_sum_set f h :
    Z.land f (Z.lnot (hc_mask h)) = Z.land (hc_flag h) (Z.lnot (hc_mask h)) → hc_sum (hc_set f h) = hc_sum h;
  hc_sum_mask h :
    hc_known h → Z.land (hc_sum h) (Z.lnot (hc_mask h)) = 0 ∧ Z.land (hc_sum h) (hc_mask h) = hc_sum h
}.

(** Clear the bits, then store the checksum in them. *)
Definition hc_update {H} `{HeaderChecksum H} (h : H) : H :=
  let h1 := hc_set (Z.land (hc_flag h) (Z.lnot (hc_mask h))) h in hc_set (Z.lor (hc_flag h1) (hc_sum h1)) h1.

Section header_checksum.
Context {H : Type} {HC : HeaderChecksum H} {HL : HeaderChecksumLaws H}.
Implicit Type h : H.

Lemma hc_update_flag h :
  hc_update h = hc_set (Z.lor (Z.land (hc_flag h) (Z.lnot (hc_mask h))) (hc_sum h)) h.
Proof.
  unfold hc_update. cbv zeta. rewrite hc_flag_set, hc_sum_set, hc_set_set; [done|].
  by rewrite <- Z.land_assoc, Z.land_diag.
Qed.

(** After an update the stored checksum is the checksum. *)
Lemma hc_update_stored h :
  hc_known h → hc_sum (hc_update h) = hc_sum h ∧ Z.land (hc_flag (hc_update h)) (hc_mask h) = hc_sum h.
Proof.
  intros Hk. destruct (hc_sum_mask h Hk) as [H1 H2]. rewrite hc_update_flag, hc_flag_set.
  destruct (land_lor_mask (hc_flag h) _ _ H1 H2) as [F1 F2]. split; [by apply hc_sum_set|done].
Qed.

(** The other bits of the flag are kept. *)
Lemma hc_update_land h m :
  hc_known h → Z.land m (hc_mask h) = 0 → Z.land (hc_flag (hc_update h)) m = Z.land (hc_flag h) m.
Proof.
  intros Hk H0'. destruct (hc_sum_mask h Hk) as [_ Hs]. rewrite hc_update_flag, hc_flag_set.
  assert (Z.land (hc_sum h) m = 0) as Hc
    by (rewrite <- Hs, <- Z.land_assoc, (Z.land_comm (hc_mask h)), H0'; apply Z.land_0_r).
  rewrite Z.land_lor_distr_l, Hc, Z.lor_0_r, <- Z.land_assoc. f_equal.
  rewrite Z.land_comm, <- Z.ldiff_land. apply Z.bits_inj'. intros i Hi. rewrite Z.ldiff_spec.
  pose proof (f_equal (fun z => Z.testbit z i) H0') as Hb. cbv beta in Hb. rewrite Z.land_spec, Z.bits_0 in Hb.
  destruct (Z.testbit m i); [|done]. cbn in *. by rewrite Hb.
Qed.
End header_checksum.

(** * Reading arbitrary bytes *)

(** [m] reads within [l], and a success consumes [n] bytes. *)
Definition steps {A} (n : Z) (m : M Z (Z * A)) : Prop :=
  ∀ pos, 0 <= pos → ∃ rc a pos', m pos = Some ((rc, a), pos') ∧ 0 <= pos'
    ∧ (rc = OB_SUCCESS → pos' = pos + n).

Lemma get_bytes_within l n pos :
  0 <= pos → pos + Z.of_nat n <= Z.of_nat (length l) →
  ∃ bs, get_bytes (Some l) n pos = Some (bs, pos + Z.of_nat n).
Proof.
  intros Hp Hl. assert (length (slice l pos n) = n) as Hlen
    by (unfold slice; rewrite length_take, length_drop; lia).
  pose proof (get_bytes_run l pos (slice l pos n) Hp) as Hr. rewrite Hlen in Hr. eauto.
Qed.

Lemma decode_int_steps n l :
  n = 1 ∨ n = 2 ∨ n = 4 ∨ n = 8 → steps n (decode_int n (Some l) (Z.of_nat (length l))).
Proof.
  intros Hn pos Hp.
  assert (∃ val_of, decode_int n (Some l) (Z.of_nat (length l))
                    = decode_with (Some l) (Z.of_nat (length l)) (Z.to_nat n) val_of) as [val_of ->]
    by (destruct Hn as [-> |[-> |[-> | ->]]]; by eexists).
  unfold decode_with. rewrite (bind_run _ _ _ _ _ eq_refl).
  destruct (Z.leb_spec (Z.of_nat (Z.to_nat n)) (Z.of_nat (length l) - pos)).
  - destruct (get_bytes_within l (Z.to_nat n) pos Hp ltac:(lia)) as [bs Hb].
    rewrite (bind_run _ _ _ _ _ Hb). eexists _, _, _. split; [reflexivity|]. split; lia.
  - eexists _, _, _. split; [reflexivity|]. split; [done|discriminate].
Qed.

Lemma commit_steps {A} n (m : M Z (Z * A)) : steps n m → steps n (Scn.commit_rpos m).
Proof.
  intros Hm pos Hp. destruct (Hm pos Hp) as (rc & a & pos' & E & H1 & H2). unfold Scn.commit_rpos. rewrite E.
  eexists _, _, _. split; [reflexivity|]. destruct (ob_failed rc) eqn:Hf; [|done].
  split; [done|]. intros ->. discriminate.
Qed.

Lemma map_steps {A B} n (m : M Z (Z * A)) (f : Z * A → Z * B) :
  (∀ r, (f r).1 = OB_SUCCESS → r.1 = OB_SUCCESS) → steps n m → steps n (let! r := m in ret (f r)).
Proof.
  intros Hf Hm pos Hp. destruct (Hm pos Hp) as (rc & a & pos' & E & H1 & H2).
  rewrite (bind_run _ _ _ _ _ E). unfold ret. exists (f (rc, a)).1, (f (rc, a)).2, pos'.
  split; [by destruct (f (rc, a))|]. split; [done|]. intros Hs. by apply H2, (Hf (rc, a)).
Qed.

Lemma field_steps {A B} n1 n2 (m : M Z (Z * A)) kept (k : A → M Z (Z * B)) :
  steps n1 m → (∀ a, steps n2 (k a)) → steps (n1 + n2) (field m kept k).
Proof.
  intros H1 H2 pos Hp. destruct (H1 pos Hp) as (rc & a & pos' & E & Hp' & Hs). unfold field.
  rewrite (bind_run _ _ _ _ _ E). cbn [fst snd]. destruct (ob_failed rc) eqn:Hf.
  { eexists _, _, _. split; [reflexivity|]. split; [done|discriminate]. }
  apply ob_failed_false in Hf. destruct (H2 a pos' Hp') as (rc2 & b & pos2 & E2 & Hp2 & Hs2).
  rewrite E2. eexists _, _, _. split; [reflexivity|]. split; [done|]. intros Hr.
  rewrite Hs2, Hs by done. lia.
Qed.

Lemma scn_fixed_steps l s : l ≠ [] → steps 8 (Scn.fixed_deserialize (Some l) (Z.of_nat (length l)) s).
Proof.
  intros Hl. unfold Scn.fixed_deserialize. apply map_steps.
  { intros [rc a]. cbn. by destruct (ob_failed rc). }
  unfold Scn.fixed_deserialize_without_transform, Scn.bad_buf.
  destruct (Z.leb_spec (Z.of_nat (length l)) 0); [destruct l; [done|cbn in *; lia]|].
  apply map_steps; [|apply commit_steps, (decode_int_steps 8); auto].
  intros [rc a]. cbn. destruct (ob_failed rc) eqn:Hf; [done|]. by apply ob_failed_false in Hf.
Qed.


(** Decode, then check: [deserialize] of the headers. *)
Definition checked {A} (ok : A → bool) (m : M Z (Z * A)) : M Z (Z * A) :=
  let! r := m in
  ret (if ob_failed r.1 then r else if negb (ok r.2) then (OB_INVALID_DATA, r.2) else r).

Lemma checked_safe {A} n (ok : A → bool) (m : M Z (Z * A)) pos :
  steps n m → 0 <= pos →
  ∃ rc a pos', Scn.commit_rpos (checked ok m) pos = Some ((rc, a), pos')
    ∧ (rc = OB_SUCCESS ∧ ok a = true ∧ pos' = pos + n ∨ rc ≠ OB_SUCCESS ∧ pos' = pos).
Proof.
  intros Hm Hp. destruct (Hm pos Hp) as (rc & a & pos' & E & _ & Hs). unfold Scn.commit_rpos, checked.
  rewrite (bind_run _ _ _ _ _ E). unfold ret. cbn [fst snd]. destruct (ob_failed rc) eqn:Hf.
  { rewrite Hf. eexists _, _, _. split; [reflexivity|]. right. split; [|done]. intros ->. discriminate. }
  apply ob_failed_false in Hf. subst rc. destruct (ok a) eqn:Hc; cbn [negb].
  - eexists _, _, _. split; [reflexivity|]. left. split_and!; [done|done|]. by apply Hs.
  - eexists _, _, _. split; [reflexivity|]. by right.
Qed.

Lemma checked_reads {A} l data_len (ok : A → bool) (m : M Z (Z * A)) bs a :
  ok a = true → reads l data_len m bs a → reads l data_len (checked ok m) bs a.
Proof.
  intros Ho Hm pos Hp Hd Hs. unfold checked. rewrite (bind_run _ _ _ _ _ (Hm pos Hp Hd Hs)).
  unfold ret. cbn [fst snd]. change (ob_failed OB_SUCCESS) with false. cbv iota. by rewrite Ho.
Qed.
End Codec.
