(* ===== verification/LogBaseHeader.v ===== *)
(** [ObLogBaseHeader] of [src/logservice/ob_log_base_header.cpp]: the first bytes of
    the data of every log entry, which tell the replay service whom the entry is
    for and which replay barriers it needs. *)
From S2P Require Import Prelude Serialization Scn Codec.
Import Ser Codec.

Module LogBaseHeader.
Inductive ObReplayBarrierType : Set := INVALID_BARRIER | STRICT_BARRIER | PRE_BARRIER | NO_NEED_BARRIER.
#[global] Instance ObReplayBarrierType_eq_dec : EqDecision ObReplayBarrierType.
Proof. solve_decision. Defined.

(** The values of [ObLogBaseType] used here. *)
Definition INVALID_LOG_BASE_TYPE : Z := 0.
Definition PADDING_LOG_BASE_TYPE : Z := 25.

Definition BASE_HEADER_VERSION : Z := 1.
Definition NEED_POST_REPLAY_BARRIER_FLAG : Z := 2 ^ 31.   (* uint32_t *)
Definition NEED_PRE_REPLAY_BARRIER_FLAG : Z := Z.shiftl 1 30.
Definition PAYLOAD_IS_COMPRESSED : Z := Z.shiftl 1 29.

Record ObLogBaseHeader : Set := mkBase {
  version_ : Z;        (* int16_t *)
  log_type_ : Z;       (* int16_t *)
  flag_ : Z;           (* int32_t *)
  replay_hint_ : Z     (* int64_t *)
}.
Implicit Type h : ObLogBaseHeader.

Record wf h : Prop := {
  wf_version : in_s 16 (version_ h);
  wf_log_type : in_s 16 (log_type_ h);
  wf_flag : in_s 32 (flag_ h);
  wf_hint : in_s 64 (replay_hint_ h)
}.

(** [flag_ | m] and [flag_ & m] with an unsigned mask. *)
Definition or_flag (flag m : Z) : Z := s32 (Z.lor (u32 flag) m).
Definition has_flag (flag m : Z) : bool := negb (Z.land (u32 flag) m =? 0).

Definition reset h : ObLogBaseHeader := mkBase 0 INVALID_LOG_BASE_TYPE 0 0.

Definition make (log_type : Z) (barrier : ObReplayBarrierType) (replay_hint : Z) : ObLogBaseHeader :=
  mkBase BASE_HEADER_VERSION (s16 log_type)
    match barrier with
    | NO_NEED_BARRIER => 0
    | PRE_BARRIER => or_flag 0 NEED_PRE_REPLAY_BARRIER_FLAG
    | _ => or_flag (or_flag 0 NEED_POST_REPLAY_BARRIER_FLAG) NEED_PRE_REPLAY_BARRIER_FLAG
    end
    replay_hint.

Definition set_compressed h : ObLogBaseHeader :=
  mkBase (version_ h) (log_type_ h) (or_flag (flag_ h) PAYLOAD_IS_COMPRESSED) (replay_hint_ h).
Definition is_compressed h : bool := has_flag (flag_ h) PAYLOAD_IS_COMPRESSED.
Definition need_pre_replay_barrier h : bool := has_flag (flag_ h) NEED_PRE_REPLAY_BARRIER_FLAG.
Definition need_post_replay_barrier h : bool := has_flag (flag_ h) NEED_POST_REPLAY_BARRIER_FLAG.

(** The position is moved by each encoder, also when a later one fails. *)
Definition serialize h (buf_len : Z) : M Wr Z :=
  let! bad := gets (fun w => Scn.bad_buf (w_buf w) buf_len) in
  if bad then ret OB_INVALID_ARGUMENT
  else (chk! encode_i16 buf_len (version_ h) else
        chk! encode_i16 buf_len (log_type_ h) else
        chk! encode_i32 buf_len (flag_ h) else
        encode_i64 buf_len (replay_hint_ h)).

Definition deserialize (buf : buf_t) (data_len : Z) h : M Z (Z * ObLogBaseHeader) :=
  if Scn.bad_buf buf data_len then ret (OB_INVALID_ARGUMENT, h)
  else
    field_rc (decode_i16 buf data_len) h (fun version =>
    field_rc (decode_i16 buf data_len) (mkBase version (log_type_ h) (flag_ h) (replay_hint_ h)) (fun log_type =>
    field_rc (decode_i32 buf data_len) (mkBase version log_type (flag_ h) (replay_hint_ h)) (fun flag =>
    field_rc (decode_i64 buf data_len) (mkBase version log_type flag (replay_hint_ h)) (fun replay_hint =>
    ret (OB_SUCCESS, mkBase version log_type flag replay_hint))))).

Definition get_serialize_size h : Z :=
  encoded_length_i16 (version_ h) + encoded_length_i16 (log_type_ h) + encoded_length_i32 (flag_ h)
  + encoded_length_i64 (replay_hint_ h).

Definition ser_bytes h : list Z :=
  be_bytes 2 (version_ h) ++ be_bytes 2 (log_type_ h) ++ be_bytes 4 (flag_ h) ++ be_bytes 8 (replay_hint_ h).

(** * Lemmas *)
Lemma base_length_ser_bytes h : length (ser_bytes h) = 16%nat.
Proof. unfold ser_bytes. by rewrite !length_app, !length_be_bytes. Qed.

Lemma base_serialize_writes h buf_len : writes buf_len (serialize h buf_len) (ser_bytes h).
Proof.
  apply Scn.guard_writes; [by rewrite base_length_ser_bytes|]. unfold ser_bytes.
  repeat apply writes_seq; [apply (int_writes 2)|apply (int_writes 2)|apply (int_writes 4)|apply (int_writes 8)]; auto.
Qed.

Lemma base_deserialize_reads l data_len h h0 :
  wf h → reads l data_len (deserialize (Some l) data_len h0) (ser_bytes h) h.
Proof.
  intros [H1 H2 H3 H4]. apply guard_reads; [by rewrite base_length_ser_bytes|].
  unfold ser_bytes. rewrite <- (app_nil_r (be_bytes 8 (replay_hint_ h))).
  eapply field_rc_reads; [apply (int_reads 2); auto|]. eapply field_rc_reads; [apply (int_reads 2); auto|].
  eapply field_rc_reads; [apply (int_reads 4); auto|]. eapply field_rc_reads; [apply (int_reads 8); auto|].
  destruct h. apply ret_reads.
Qed.

Lemma make_wf log_type barrier hint : in_s 64 hint → wf (make log_type barrier hint).
Proof.
  intros Hh. constructor; cbn; [vm_compute; split; congruence|apply wraps_range; lia| |done].
  destruct barrier; vm_compute; split; congruence.
Qed.

(** Round trip of the base header, and what the flag word says: a barrier type
    survives the encoding, an unknown one counts as strict, and the mark of a
    compressed payload changes neither the barriers nor the type. *)
Theorem base_header_roundtrip log_type barrier hint compressed h0 l pos :
  let h1 := make log_type barrier hint in
  let h := if compressed : bool then set_compressed h1 else h1 in
  in_s 16 log_type → in_s 64 hint → 0 <= pos → pos + get_serialize_size h <= Z.of_nat (length l) →
  ∃ l', serialize h (Z.of_nat (length l)) (mkWr (Some l) pos) = Some (OB_SUCCESS, mkWr (Some l') (pos + 16))
    ∧ deserialize (Some l') (Z.of_nat (length l)) h0 pos = Some ((OB_SUCCESS, h), pos + 16)
    ∧ log_type_ h = log_type ∧ replay_hint_ h = hint ∧ is_compressed h = compressed
    ∧ need_pre_replay_barrier h = bool_decide (barrier ≠ NO_NEED_BARRIER)
    ∧ need_post_replay_barrier h = bool_decide (barrier = STRICT_BARRIER ∨ barrier = INVALID_BARRIER).
Proof.
  intros h1 h Ht Hh Hp Hl. assert (wf h) as Hw.
  { subst h h1. destruct compressed; [|by apply make_wf]. destruct (make_wf log_type barrier hint Hh).
    constructor; cbn; try done. by apply wraps_range. }
  change (get_serialize_size h) with 16 in Hl. pose proof (base_length_ser_bytes h) as Hlen.
  destruct (write_read (serialize h (Z.of_nat (length l)))
    (fun b => deserialize b (Z.of_nat (length l)) h0) (ser_bytes h) h l pos)
    as (l' & H1 & H2 & _ & _); [apply base_serialize_writes|intros; by apply base_deserialize_reads|done|lia|].
  rewrite Hlen in *. exists l'. split; [exact H1|]. split; [exact H2|].
  assert (s16 log_type = log_type) as E by (apply wraps_small; [lia|done]).
  subst h h1. destruct compressed, barrier; cbn; rewrite ?E; repeat split; reflexivity.
Qed.

Lemma base_header_roundtrip_witness :
  ∃ l', deserialize (Some l') 20 (reset (make 0 NO_NEED_BARRIER 0)) 3
        = Some ((OB_SUCCESS, set_compressed (make 6 PRE_BARRIER 77)), 19).
Proof.
  destruct (base_header_roundtrip 6 PRE_BARRIER 77 true (reset (make 0 NO_NEED_BARRIER 0)) (replicate 20 0) 3)
    as (l' & _ & H & _); [split; vm_compute; congruence|split; vm_compute; congruence|lia|vm_compute; congruence|].
  exists l'. exact H.
Defined.
End LogBaseHeader.
