(* ===== verification/LogEntryHeader.v ===== *)
(** [LogEntryHeader] of [src/logservice/palf/log_entry_header.cpp], the header in
    front of every log entry.

    [XXH64] (of the xxHash library) and [ob_crc64] (which dispatches to the
    instruction or library of the machine) are parameters: functions of a start
    value and a string of bytes.  Nothing is assumed of them. *)
From S2P Require Import Prelude Serialization Scn Parity Codec LogBaseHeader.
Import Ser Codec.

Module LogEntryHeader.
Definition HEADER_SER_SIZE : Z := 32.
Definition BASE_HEADER_SIZE : Z := 16.   (* sizeof(ObLogBaseHeader) *)
Definition PADDING_LOG_ENTRY_SIZE : Z := HEADER_SER_SIZE + BASE_HEADER_SIZE.
Definition MAGIC : Z := 0x4C48.
Definition LOG_ENTRY_HEADER_VERSION : Z := 1.
Definition PADDING_TYPE_MASK : Z := Z.shiftl 1 1.
Definition LOG_ENTRY_HEADER_VERSION2 : Z := 2.
Definition PADDING_TYPE_MASK_VERSION2 : Z := Z.shiftl 1 62.
Definition CRC16_MASK : Z := 0xffff.
Definition PARITY_MASK : Z := 1.

Record LogEntryHeader : Set := mkLEH {
  magic_ : Z;             (* int16_t *)
  version_ : Z;           (* int16_t *)
  log_size_ : Z;          (* int32_t *)
  scn_ : Scn.SCN;
  data_checksum_ : Z;     (* int64_t *)
  flag_ : Z               (* int64_t *)
}.

Implicit Type h : LogEntryHeader.

Record wf h : Prop := {
  wf_magic : in_s 16 (magic_ h);
  wf_version : in_s 16 (version_ h);
  wf_size : in_s 32 (log_size_ h);
  wf_scn : Scn.wf (scn_ h);
  wf_checksum : in_s 64 (data_checksum_ h);
  wf_flag : in_s 64 (flag_ h)
}.

Definition set_flag (f : Z) h : LogEntryHeader :=
  mkLEH (magic_ h) (version_ h) (log_size_ h) (scn_ h) (data_checksum_ h) f.

(** The default constructor and [reset]. *)
Definition empty : LogEntryHeader := mkLEH 0 0 0 Scn.invalid_scn 0 0.
Definition reset h : LogEntryHeader := mkLEH 0 0 (-1) (Scn.reset (scn_ h)) 0 0.

Definition is_valid h : bool := (magic_ h =? MAGIC) && (0 <? log_size_ h) && Scn.is_valid (scn_ h).

Definition get_version_ : Z := LOG_ENTRY_HEADER_VERSION2.
Definition get_padding_mask_ h : Z :=
  if LOG_ENTRY_HEADER_VERSION2 =? version_ h then PADDING_TYPE_MASK_VERSION2
  else if LOG_ENTRY_HEADER_VERSION =? version_ h then PADDING_TYPE_MASK else 0.
Definition get_header_checksum_mask_ h : Z :=
  if LOG_ENTRY_HEADER_VERSION2 =? version_ h then CRC16_MASK
  else if LOG_ENTRY_HEADER_VERSION =? version_ h then PARITY_MASK else 0.
Definition reset_header_checksum_ h : LogEntryHeader :=
  if LOG_ENTRY_HEADER_VERSION2 =? version_ h then set_flag (Z.land (flag_ h) (Z.lnot CRC16_MASK)) h
  else if LOG_ENTRY_HEADER_VERSION =? version_ h then set_flag (Z.land (flag_ h) (Z.lnot PARITY_MASK)) h
  else h.
Definition is_padding_log_ h : bool := 0 <? Z.land (flag_ h) (get_padding_mask_ h).

(** The members as they lie in memory, least significant byte first; there is no
    padding between them. *)
Definition memory h : list Z :=
  le_bytes 2 (magic_ h) ++ le_bytes 2 (version_ h) ++ le_bytes 4 (log_size_ h)
  ++ le_bytes 8 (Scn.val_ (scn_ h)) ++ le_bytes 8 (data_checksum_ h) ++ le_bytes 8 (flag_ h).

(** The bytes [serialize] writes, most significant first. *)
Definition ser_bytes h : list Z :=
  be_bytes 2 (magic_ h) ++ be_bytes 2 (version_ h) ++ be_bytes 4 (log_size_ h)
  ++ be_bytes 8 (s64 (Scn.val_ (scn_ h))) ++ be_bytes 8 (data_checksum_ h) ++ be_bytes 8 (flag_ h).

(** ** Serialization *)

Definition serialize h (buf_len : Z) : M Wr Z :=
  guarded buf_len
    (chk! encode_i16 buf_len (magic_ h) else
     chk! encode_i16 buf_len (version_ h) else
     chk! encode_i32 buf_len (log_size_ h) else
     chk! Scn.fixed_serialize (scn_ h) buf_len else
     chk! encode_i64 buf_len (data_checksum_ h) else
     encode_i64 buf_len (flag_ h)).

Definition get_serialize_size h : Z :=
  encoded_length_i16 (magic_ h) + encoded_length_i16 (version_ h) + encoded_length_i32 (log_size_ h)
  + Scn.get_fixed_serialize_size (scn_ h) + encoded_length_i64 (data_checksum_ h)
  + encoded_length_i64 (flag_ h).

Definition decode_fields (buf : buf_t) (data_len : Z) h : M Z (Z * LogEntryHeader) :=
  field (decode_i16 buf data_len) h (fun magic =>
  field (decode_i16 buf data_len)
    (mkLEH magic (version_ h) (log_size_ h) (scn_ h) (data_checksum_ h) (flag_ h)) (fun version =>
  field (decode_i32 buf data_len)
    (mkLEH magic version (log_size_ h) (scn_ h) (data_checksum_ h) (flag_ h)) (fun log_size =>
  field (Scn.fixed_deserialize buf data_len (scn_ h))
    (mkLEH magic version log_size (scn_ h) (data_checksum_ h) (flag_ h)) (fun scn =>
  field (decode_i64 buf data_len)
    (mkLEH magic version log_size scn (data_checksum_ h) (flag_ h)) (fun data_checksum =>
  field (decode_i64 buf data_len)
    (mkLEH magic version log_size scn data_checksum (flag_ h)) (fun flag =>
  ret (OB_SUCCESS, mkLEH magic version log_size scn data_checksum flag))))))).

Section checksums.
Context (XXH64 : list Z → Z → Z) (ob_crc64 : Z → list Z → Z).

(** [xxhash_16] returns an [int16_t] that its callers keep in a [uint16_t]. *)
Definition xxhash_16 (checksum : Z) (data : list Z) : Z := s16 (Z.land (XXH64 data checksum) 0xffff).

Definition calculate_header_checksum_ h : Z :=
  if LOG_ENTRY_HEADER_VERSION =? version_ h then
    let bit := Parity.parity_check16 (u16 (magic_ h)) in
    let bit := xorb bit (Parity.parity_check16 (u16 (version_ h))) in
    let bit := xorb bit (Parity.parity_check32 (u32 (log_size_ h))) in
    let bit := xorb bit (Parity.parity_check64 (Scn.get_val_for_logservice (scn_ h))) in
    let bit := xorb bit (Parity.parity_check64 (u64 (data_checksum_ h))) in
    let tmp_flag := Z.land (flag_ h) (Z.lnot PARITY_MASK) in
    let bit := xorb bit (Parity.parity_check64 (u64 tmp_flag)) in
    if bit then 1 else 0
  else if LOG_ENTRY_HEADER_VERSION2 =? version_ h then
    u16 (xxhash_16 0 (memory (set_flag (Z.land (flag_ h) (Z.lnot CRC16_MASK)) h)))
  else 0.

Definition update_header_checksum_ h : LogEntryHeader :=
  let h := reset_header_checksum_ h in set_flag (Z.lor (flag_ h) (calculate_header_checksum_ h)) h.

Definition check_header_checksum_ h : bool :=
  let header_checksum := calculate_header_checksum_ h in
  if negb (LOG_ENTRY_HEADER_VERSION2 =? version_ h) && negb (LOG_ENTRY_HEADER_VERSION =? version_ h)
  then false
  else header_checksum =? u16 (Z.land (flag_ h) (get_header_checksum_mask_ h)).

Definition check_header_integrity h : bool := is_valid h && check_header_checksum_ h.

(** [ob_crc64(buf, len)]; [None] when it would read outside of the buffer. *)
Definition crc64_of (buf : buf_t) (len : Z) : option Z :=
  match buf with
  | Some l => if (0 <=? len) && (len <=? Z.of_nat (length l))
              then Some (s64 (ob_crc64 0 (take (Z.to_nat len) l))) else None
  | None => None
  end.

Definition generate_header (log_data : buf_t) (data_len : Z) (scn : Scn.SCN) h : option (Z * LogEntryHeader) :=
  if bool_decide (log_data = None) || (data_len <=? 0) || negb (Scn.is_valid scn)
  then Some (OB_INVALID_ARGUMENT, h)
  else
    match crc64_of log_data data_len with
    | None => None
    | Some crc =>
        Some (OB_SUCCESS,
              update_header_checksum_ (mkLEH MAGIC get_version_ (s32 data_len) scn crc (flag_ h)))
    end.

(** [generate_padding_header_]: the data checksum covers the base header only. *)
Definition generate_padding_header_ (log_data : buf_t) (base_header_len padding_data_len : Z)
    (scn : Scn.SCN) h : option (Z * LogEntryHeader) :=
  if bool_decide (log_data = None) || (base_header_len <=? 0) || (padding_data_len <=? 0)
     || negb (Scn.is_valid scn)
  then Some (OB_INVALID_ARGUMENT, h)
  else
    match crc64_of log_data base_header_len with
    | None => None
    | Some crc =>
        let h1 := mkLEH MAGIC get_version_ (s32 padding_data_len) scn crc (flag_ h) in
        Some (OB_SUCCESS, update_header_checksum_ (set_flag (Z.lor (flag_ h1) (get_padding_mask_ h1)) h1))
    end.

(** [generate_padding_log_buf]: the buffer gets a header and a base header only,
    however long the padding it announces. *)
Definition padding_base : LogBaseHeader.ObLogBaseHeader :=
  LogBaseHeader.make LogBaseHeader.PADDING_LOG_BASE_TYPE LogBaseHeader.NO_NEED_BARRIER 0.

Definition generate_padding_log_buf (padding_data_len : Z) (scn : Scn.SCN) (out_buf : buf_t)
    (padding_valid_data_len : Z) : option (Z * buf_t) :=
  let base_header_len := LogBaseHeader.get_serialize_size padding_base in
  let header_len := get_serialize_size empty in
  let serialize_len := base_header_len + header_len in
  if (padding_data_len <=? 0) || negb (Scn.is_valid scn) || bool_decide (out_buf = None)
     || (padding_valid_data_len <? serialize_len) || (padding_data_len <? padding_valid_data_len)
  then Some (OB_INVALID_ARGUMENT, out_buf)
  else
    match LogBaseHeader.serialize padding_base padding_valid_data_len (mkWr out_buf header_len) with
    | None => None
    | Some (rc, w) =>
        if ob_failed rc then Some (rc, w_buf w)
        else
          match generate_padding_header_ (drop (Z.to_nat header_len) <$> w_buf w) base_header_len
                  padding_data_len scn empty with
          | None => None
          | Some (rc, header) =>
              if ob_failed rc then Some (rc, w_buf w)
              else match serialize header header_len (mkWr (w_buf w) 0) with
                   | None => None
                   | Some (rc, w') => Some (rc, w_buf w')
                   end
          end
    end.

Definition check_integrity (buf : buf_t) (data_len : Z) h : option bool :=
  let valid_data_len := if is_padding_log_ h then BASE_HEADER_SIZE else data_len in
  if bool_decide (buf = None) || (data_len <=? 0) then Some false
  else if negb (MAGIC =? magic_ h) then Some false
  else if negb (check_header_checksum_ h) then Some false
  else match crc64_of buf valid_data_len with
       | None => None
       | Some crc => Some (data_checksum_ h =? crc)
       end.

Definition deserialize (buf : buf_t) (data_len : Z) h : M Z (Z * LogEntryHeader) :=
  if Scn.bad_buf buf data_len then ret (OB_INVALID_ARGUMENT, h)
  else Scn.commit_rpos (checked check_header_integrity (decode_fields buf data_len h)).
End checksums.

(** * Chains of encoders and decoders *)
Lemma leh_length_ser_bytes h : length (ser_bytes h) = 32%nat.
Proof. unfold ser_bytes. by rewrite !length_app, !length_be_bytes. Qed.

Lemma leh_serialize_writes h buf_len : writes buf_len (serialize h buf_len) (ser_bytes h).
Proof.
  apply guarded_writes; [by rewrite leh_length_ser_bytes|]. unfold ser_bytes.
  repeat apply writes_seq; [apply (int_writes 2)|apply (int_writes 2)|apply (int_writes 4)
    |apply Scn.scn_fixed_writes|apply (int_writes 8)|apply (int_writes 8)]; auto.
Qed.

Lemma leh_decode_fields_reads l data_len h h0 :
  wf h → reads l data_len (decode_fields (Some l) data_len h0) (ser_bytes h)
           (mkLEH (magic_ h) (version_ h) (log_size_ h) (Scn.transform_max_ (scn_ h)) (data_checksum_ h) (flag_ h)).
Proof.
  intros [H1 H2 H3 H4 H5 H6]. unfold decode_fields, ser_bytes. rewrite <- (app_nil_r (be_bytes 8 (flag_ h))).
  eapply field_reads; [apply (int_reads 2); auto|]. eapply field_reads; [apply (int_reads 2); auto|].
  eapply field_reads; [apply (int_reads 4); auto|]. eapply field_reads; [by apply Scn.scn_fixed_reads|].
  eapply field_reads; [apply (int_reads 8); auto|]. eapply field_reads; [apply (int_reads 8); auto|].
  apply ret_reads.
Qed.

Lemma leh_decode_fields_steps l h : l ≠ [] → steps 32 (decode_fields (Some l) (Z.of_nat (length l)) h).
Proof.
  intros Hl. unfold decode_fields.
  apply (field_steps 2 30); [apply (decode_int_steps 2); auto|intros magic].
  apply (field_steps 2 28); [apply (decode_int_steps 2); auto|intros version].
  apply (field_steps 4 24); [apply (decode_int_steps 4); auto|intros log_size].
  apply (field_steps 8 16); [by apply scn_fixed_steps|intros scn].
  apply (field_steps 8 8); [apply (decode_int_steps 8); auto|intros data_checksum].
  apply (field_steps 8 0); [apply (decode_int_steps 8); auto|intros flag].
  intros pos Hp. eexists _, _, _. split; [reflexivity|]. split; lia.
Qed.

Section proofs.
Context (XXH64 : list Z → Z → Z) (ob_crc64 : Z → list Z → Z).
Abbreviation checksum := (calculate_header_checksum_ XXH64).
Abbreviation update := (update_header_checksum_ XXH64).
Abbreviation check := (check_header_checksum_ XXH64).

Lemma leh_checksum_range h : 0 <= checksum h < 2 ^ 16.
Proof.
  unfold calculate_header_checksum_. destruct (_ =? _).
  - cbv zeta. destruct (xorb _ _); lia.
  - destruct (_ =? _); [apply (wrapu_range 16); lia|lia].
Qed.

(** The checksum does not depend on the bits of the flag that hold it. *)
Lemma leh_checksum_flag h f :
  Z.land f (Z.lnot (get_header_checksum_mask_ h)) = Z.land (flag_ h) (Z.lnot (get_header_checksum_mask_ h)) →
  checksum (set_flag f h) = checksum h.
Proof.
  unfold calculate_header_checksum_, get_header_checksum_mask_. cbn [version_ set_flag].
  destruct (Z.eqb_spec LOG_ENTRY_HEADER_VERSION (version_ h)) as [E|E].
  - rewrite <- E. cbn [Z.eqb Pos.eqb LOG_ENTRY_HEADER_VERSION2 LOG_ENTRY_HEADER_VERSION].
    cbv zeta. cbn [magic_ log_size_ scn_ data_checksum_ flag_ set_flag]. by intros ->.
  - destruct (Z.eqb_spec LOG_ENTRY_HEADER_VERSION2 (version_ h)) as [E2|E2]; [|done].
    cbn [flag_ set_flag]. by intros ->.
Qed.

Definition known_version h : Prop :=
  version_ h = LOG_ENTRY_HEADER_VERSION ∨ version_ h = LOG_ENTRY_HEADER_VERSION2.

#[local] Instance leh_checksum : HeaderChecksum LogEntryHeader := {
  hc_flag := flag_; hc_set := set_flag; hc_mask := get_header_checksum_mask_; hc_sum := checksum; hc_known := known_version
}.

#[local] Instance leh_checksum_laws : HeaderChecksumLaws LogEntryHeader.
Proof.
  constructor; [done|done|done|intros f h; apply leh_checksum_flag|].
  intros h [E|E]; cbn [hc_sum hc_mask leh_checksum]; unfold get_header_checksum_mask_; rewrite E; cbn [Z.eqb Pos.eqb
    LOG_ENTRY_HEADER_VERSION2 LOG_ENTRY_HEADER_VERSION].
  - assert (0 <= checksum h < 2 ^ 1) as Hc.
    { unfold calculate_header_checksum_. rewrite E, Z.eqb_refl. cbv zeta. destruct (xorb _ _); lia. }
    by apply (mask_small _ 1).
  - apply (mask_small _ 16); [lia|]. apply leh_checksum_range.
Qed.

Lemma leh_update_hc h : known_version h → update h = hc_update h.
Proof.
  intros [E|E]; unfold update_header_checksum_, reset_header_checksum_, hc_update;
    cbn [hc_mask leh_checksum]; unfold get_header_checksum_mask_; by rewrite E.
Qed.

Lemma leh_update_flag h :
  known_version h →
  update h = set_flag (Z.lor (Z.land (flag_ h) (Z.lnot (get_header_checksum_mask_ h))) (checksum h)) h.
Proof. intros Hv. rewrite leh_update_hc by done. exact (hc_update_flag h). Qed.

Lemma leh_update_checks h : known_version h → check (update h) = true.
Proof.
  intros Hv. destruct (hc_update_stored (HC := leh_checksum) h Hv) as [E1 E2]. rewrite <- leh_update_hc in E1, E2 by done.
  cbn [hc_sum hc_flag hc_mask leh_checksum] in E1, E2. unfold check_header_checksum_. rewrite E1.
  rewrite leh_update_flag in * by done.
  change (get_header_checksum_mask_ (set_flag ?f h)) with (get_header_checksum_mask_ h).
  rewrite E2, wrapu_small by apply leh_checksum_range. cbn [version_ set_flag]. rewrite Z.eqb_refl.
  by destruct Hv as [-> | ->].
Qed.

Lemma leh_update_wf h : known_version h → wf h → wf (update h).
Proof.
  intros Hv [H1 H2 H3 H4 H5 H6]. rewrite leh_update_flag by done. constructor; try done.
  cbn. apply lor_in_s; [lia| |].
  - apply land_in_s; [lia|done|]. unfold get_header_checksum_mask_, in_s, Z.lnot.
    destruct Hv as [-> | ->]; vm_compute; split; congruence.
  - pose proof (leh_checksum_range h). unfold in_s. change (2 ^ (64 - 1)) with (2 ^ 63). lia.
Qed.

Lemma leh_deserialize_reads l data_len h h0 :
  wf h → check_header_integrity XXH64 h = true →
  reads l data_len (deserialize XXH64 (Some l) data_len h0) (ser_bytes h) h.
Proof.
  intros Hw Hc. apply guard_reads; [by rewrite leh_length_ser_bytes|].
  apply Scn.commit_reads, checked_reads; [done|].
  assert (Scn.transform_max_ (scn_ h) = scn_ h) as E.
  { apply Scn.transform_id; [by apply wf_scn|]. unfold check_header_integrity, is_valid in Hc. by bool_to_prop. }
  pose proof (leh_decode_fields_reads l data_len h h0 Hw) as Hr. rewrite E in Hr. by destruct h.
Qed.

(** Round trip of an entry header that passes its check, with the rest of the
    buffer kept; on arbitrary bytes [deserialize] stays inside the buffer, succeeds
    only with a header that passes its check, and a failure does not move. *)
Theorem leh_codec h h0 l pos :
  0 <= pos →
  (wf h → check_header_integrity XXH64 h = true → pos + get_serialize_size h <= Z.of_nat (length l) →
   ∃ l', serialize h (Z.of_nat (length l)) (mkWr (Some l) pos)
         = Some (OB_SUCCESS, mkWr (Some l') (pos + HEADER_SER_SIZE))
     ∧ deserialize XXH64 (Some l') (Z.of_nat (length l)) h0 pos = Some ((OB_SUCCESS, h), pos + HEADER_SER_SIZE)
     ∧ length l' = length l
     ∧ ∀ i, (i < Z.to_nat pos)%nat ∨ (Z.to_nat (pos + HEADER_SER_SIZE) <= i)%nat → l' !! i = l !! i)
  ∧ (∃ rc h' pos', deserialize XXH64 (Some l) (Z.of_nat (length l)) h0 pos = Some ((rc, h'), pos')
     ∧ (rc = OB_SUCCESS ∧ check_header_integrity XXH64 h' = true ∧ pos' = pos + HEADER_SER_SIZE
        ∨ rc ≠ OB_SUCCESS ∧ pos' = pos)).
Proof.
  intros Hp. split.
  - intros Hw Hc Hl. change (get_serialize_size h) with 32 in Hl. pose proof (leh_length_ser_bytes h) as Hlen.
    destruct (write_read (serialize h (Z.of_nat (length l)))
      (fun b => deserialize XXH64 b (Z.of_nat (length l)) h0) (ser_bytes h) h l pos)
      as (l' & H1 & H2 & H3 & H4); [apply leh_serialize_writes|intros; by apply leh_deserialize_reads|done|lia|].
    rewrite Hlen in *. exists l'. split_and!; try done. intros i Hi. apply H4. unfold HEADER_SER_SIZE in Hi. lia.
  - unfold deserialize, Scn.bad_buf. destruct (Z.leb_spec (Z.of_nat (length l)) 0).
    { eexists _, _, _. split; [reflexivity|]. by right. }
    assert (l ≠ []) as Hl by (intros ->; cbn in *; lia).
    by apply (checked_safe 32), Hp; apply leh_decode_fields_steps.
Qed.

(** ** Generated headers *)
Lemma leh_update_mask h m :
  version_ h = LOG_ENTRY_HEADER_VERSION2 → Z.land m CRC16_MASK = 0 →
  Z.land (flag_ (update h)) m = Z.land (flag_ h) m.
Proof.
  intros Hv Hm. rewrite leh_update_hc by (by right). apply (hc_update_land (HC := leh_checksum)); [by right|].
  cbn [hc_mask leh_checksum]. unfold get_header_checksum_mask_. by rewrite Hv.
Qed.

Lemma crc64_within l len :
  0 <= len <= Z.of_nat (length l) → crc64_of ob_crc64 (Some l) len = Some (s64 (ob_crc64 0 (take (Z.to_nat len) l))).
Proof. intros Hl. unfold crc64_of. by rewrite !(proj2 (Z.leb_le _ _)) by lia. Qed.

(** What [check_integrity] sees of a header that has just been made. *)
Lemma made_checks h data len n crc :
  version_ h = LOG_ENTRY_HEADER_VERSION2 → magic_ h = MAGIC → 0 < log_size_ h → Scn.is_valid (scn_ h) = true →
  data_checksum_ h = crc → 0 < len → 0 <= n <= Z.of_nat (length data) →
  n = (if 0 <? Z.land (flag_ h) PADDING_TYPE_MASK_VERSION2 then BASE_HEADER_SIZE else len) →
  crc = s64 (ob_crc64 0 (take (Z.to_nat n) data)) →
  check_header_integrity XXH64 (update h) = true
  ∧ check_integrity XXH64 ob_crc64 (Some data) len (update h) = Some true
  ∧ is_padding_log_ (update h) = (0 <? Z.land (flag_ h) PADDING_TYPE_MASK_VERSION2).
Proof.
  intros Hv Hm Hs Hscn Hd Hl Hn En Ec.
  assert (is_padding_log_ (update h) = (0 <? Z.land (flag_ h) PADDING_TYPE_MASK_VERSION2)) as Hp.
  { unfold is_padding_log_. replace (get_padding_mask_ (update h)) with PADDING_TYPE_MASK_VERSION2.
    - by rewrite leh_update_mask.
    - rewrite leh_update_flag by (by right). unfold get_padding_mask_. cbn [version_ set_flag]. by rewrite Hv. }
  pose proof (leh_update_checks h (or_intror Hv)) as Hc. split_and!; [| |exact Hp].
  - unfold check_header_integrity. rewrite Hc, leh_update_flag by (by right). unfold is_valid.
    cbn [magic_ log_size_ scn_ set_flag]. by rewrite Hm, Z.eqb_refl, Hscn, (proj2 (Z.ltb_lt _ _) Hs).
  - unfold check_integrity. rewrite Hp, <- En, Hc.
    destruct (Z.leb_spec len 0); [lia|]. rewrite bool_decide_eq_false_2 by done. cbn [orb negb].
    rewrite crc64_within by done. rewrite leh_update_flag by (by right). cbn [magic_ data_checksum_ set_flag].
    by rewrite Hm, Z.eqb_refl, Hd, Ec, Z.eqb_refl.
Qed.

Lemma made_wf size scn crc f :
  in_s 32 size → Scn.wf scn → in_s 64 crc → in_s 64 f → wf (mkLEH MAGIC get_version_ size scn crc f).
Proof. intros. constructor; try done; vm_compute; split; congruence. Qed.

Lemma generate_padding_header_made h0 data plen scn :
  in_s 64 (flag_ h0) → Z.land (flag_ h0) PADDING_TYPE_MASK_VERSION2 = 0 →
  BASE_HEADER_SIZE <= Z.of_nat (length data) → 0 < plen < 2 ^ 31 → Scn.wf scn → Scn.is_valid scn = true →
  ∃ h, generate_padding_header_ XXH64 ob_crc64 (Some data) BASE_HEADER_SIZE plen scn h0 = Some (OB_SUCCESS, h)
    ∧ wf h ∧ check_header_integrity XXH64 h = true ∧ log_size_ h = plen ∧ scn_ h = scn
    ∧ check_integrity XXH64 ob_crc64 (Some data) plen h = Some true ∧ is_padding_log_ h = true.
Proof.
  intros Hf Hp Hd Hl Hs Hv. unfold generate_padding_header_. rewrite bool_decide_eq_false_2 by done.
  rewrite (proj2 (Z.leb_gt plen 0)), Hv, crc64_within by (unfold BASE_HEADER_SIZE in *; lia).
  cbn [orb negb]. change (BASE_HEADER_SIZE <=? 0) with false. cbn [orb].
  assert (in_s 32 plen) as Hin by (unfold in_s; lia). rewrite (wraps_small 32 plen) by (lia || done).
  eexists. split; [reflexivity|]. cbv zeta. set (crc := s64 _). set (h1 := mkLEH _ _ _ _ _ _).
  change (get_padding_mask_ h1) with PADDING_TYPE_MASK_VERSION2. set (h := set_flag _ h1).
  assert (wf h) as Hw.
  { apply made_wf; [done|done|apply wraps_range; lia|].
    apply lor_in_s; [lia|done|]. vm_compute. split; congruence. }
  assert ((0 <? Z.land (flag_ h) PADDING_TYPE_MASK_VERSION2) = true) as Hyes
    by (cbn [flag_ h set_flag h1]; by rewrite Z.land_lor_distr_l, Hp).
  destruct (made_checks h data plen BASE_HEADER_SIZE crc eq_refl eq_refl ltac:(cbn; lia) Hv eq_refl)
    as (H1 & H2 & H3); [lia|done|by rewrite Hyes|reflexivity|]. rewrite Hyes in H3.
  split; [by apply leh_update_wf; [right|]|]. split; [done|].
  split; [by rewrite leh_update_flag by (by right)|]. split; [by rewrite leh_update_flag by (by right)|]. done.
Qed.

(** A header made by [generate_header] from data and a valid timestamp passes
    both checks on this data, and a padding header made by
    [generate_padding_header_] passes them on any data that starts with the base
    header it covers; both keep to the widths of their members. *)
Theorem leh_generate_checks h0 data len scn :
  0 < len <= Z.of_nat (length data) → len < 2 ^ 31 → Scn.wf scn → Scn.is_valid scn = true →
  in_s 64 (flag_ h0) → Z.land (flag_ h0) PADDING_TYPE_MASK_VERSION2 = 0 →
  (∃ h, generate_header XXH64 ob_crc64 (Some data) len scn h0 = Some (OB_SUCCESS, h) ∧ wf h
     ∧ check_header_integrity XXH64 h = true
     ∧ check_integrity XXH64 ob_crc64 (Some data) len h = Some true
     ∧ is_padding_log_ h = false)
  ∧ (BASE_HEADER_SIZE <= Z.of_nat (length data) →
     ∃ h, generate_padding_header_ XXH64 ob_crc64 (Some data) BASE_HEADER_SIZE len scn h0 = Some (OB_SUCCESS, h)
       ∧ wf h ∧ check_header_integrity XXH64 h = true
       ∧ check_integrity XXH64 ob_crc64 (Some data) len h = Some true
       ∧ is_padding_log_ h = true).
Proof.
  intros Hl Hl2 Hs Hv Hf Hp.
  assert (s32 len = len) as E32 by (apply wraps_small; unfold in_s; lia).
  assert (in_s 32 len) as Hin by (unfold in_s; lia). split.
  - unfold generate_header. rewrite bool_decide_eq_false_2 by done.
    rewrite (proj2 (Z.leb_gt len 0)), Hv, crc64_within by lia. cbn [orb negb]. rewrite E32.
    eexists. split; [reflexivity|]. split.
    { apply leh_update_wf; [by right|]. apply made_wf; try done. apply wraps_range. lia. }
    set (h := mkLEH _ _ _ _ _ _). assert ((0 <? Z.land (flag_ h) PADDING_TYPE_MASK_VERSION2) = false) as Hno
      by (cbn [flag_ h]; by rewrite Hp).
    rewrite <- Hno. eapply (made_checks h data len len); [reflexivity|reflexivity|cbn; lia|exact Hv|reflexivity|lia|lia|by rewrite Hno|reflexivity].
  - intros Hb. destruct (generate_padding_header_made h0 data len scn Hf Hp Hb ltac:(lia) Hs Hv)
      as (h & H1 & H2 & H3 & _ & _ & H4 & H5). by exists h.
Qed.

(** The two headers written by [generate_padding_log_buf]. *)
Lemma splice_two l hb bb :
  length hb = 32%nat → length bb = 16%nat → (48 <= length l)%nat →
  splice (splice l 32 bb) 0 hb = hb ++ bb ++ drop 48 l.
Proof.
  intros Hh Hb Hl. unfold splice. change (Z.to_nat 0) with 0%nat. change (Z.to_nat 32) with 32%nat.
  rewrite take_0, Hh, Hb. cbn [app Nat.add]. f_equal. by rewrite drop_app_length' by (rewrite length_take; lia).
Qed.

(** : a padding entry.  [generate_padding_log_buf] writes 48 bytes: a header
    that announces the whole padding and passes both its checks, although only the
    base header behind it is there, and a base header of the padding type; the
    rest of the buffer is kept. *)
Theorem leh_padding_log_buf plen scn l vlen h0 b0 :
  PADDING_LOG_ENTRY_SIZE <= vlen <= Z.of_nat (length l) → vlen <= plen < 2 ^ 31 →
  Scn.wf scn → Scn.is_valid scn = true →
  ∃ l' h, generate_padding_log_buf XXH64 ob_crc64 plen scn (Some l) vlen = Some (OB_SUCCESS, Some l')
    ∧ deserialize XXH64 (Some l') (Z.of_nat (length l)) h0 0 = Some ((OB_SUCCESS, h), HEADER_SER_SIZE)
    ∧ log_size_ h = plen ∧ scn_ h = scn ∧ is_padding_log_ h = true
    ∧ check_integrity XXH64 ob_crc64 (Some (drop 32 l')) plen h = Some true
    ∧ LogBaseHeader.deserialize (Some l') (Z.of_nat (length l)) b0 HEADER_SER_SIZE
      = Some ((OB_SUCCESS, padding_base), PADDING_LOG_ENTRY_SIZE)
    ∧ drop 48 l' = drop 48 l ∧ length l' = length l.
Proof.
  change PADDING_LOG_ENTRY_SIZE with 48. unfold HEADER_SER_SIZE. intros Hv Hp Hs Hvalid.
  set (bb := LogBaseHeader.ser_bytes padding_base).
  assert (length bb = 16%nat) as Hbb by apply LogBaseHeader.base_length_ser_bytes.
  pose proof (LogBaseHeader.base_serialize_writes padding_base vlen l 32 ltac:(lia)
    ltac:(fold bb; lia)) as Hw. fold bb in Hw.
  assert (drop 32 (splice l 32 bb) = bb ++ drop 48 l) as Hd.
  { unfold splice. change (Z.to_nat 32) with 32%nat. rewrite Hbb.
    by rewrite drop_app_length' by (rewrite length_take; lia). }
  destruct (generate_padding_header_made empty (bb ++ drop 48 l) plen scn)
    as (h & Hg & Hwf & Hc & E1 & E2 & Hi & Hpad);
    [vm_compute; split; congruence|done|rewrite length_app; unfold BASE_HEADER_SIZE; lia|lia|done|done|].
  pose proof (leh_length_ser_bytes h) as Hlh.
  pose proof (leh_serialize_writes h 32 (splice l 32 bb) 0 ltac:(lia)
    ltac:(rewrite length_splice; lia)) as Hw2.
  rewrite splice_two in Hw2 by lia. set (l' := ser_bytes h ++ bb ++ drop 48 l) in *.
  assert (length l' = length l) as Hl' by (unfold l'; rewrite !length_app, length_drop; lia).
  exists l', h. split.
  { unfold generate_padding_log_buf. rewrite Hvalid, bool_decide_eq_false_2 by done.
    change (LogBaseHeader.get_serialize_size padding_base) with 16. change (get_serialize_size empty) with 32.
    rewrite (proj2 (Z.leb_gt plen 0)), (proj2 (Z.ltb_ge vlen (16 + 32))), (proj2 (Z.ltb_ge plen vlen)) by lia.
    cbn [orb negb]. rewrite Hw. cbn [w_buf fmap option_fmap option_map].
    change (ob_failed OB_SUCCESS) with false. cbv iota. change (Z.to_nat 32) with 32%nat. rewrite Hd.
    change 16 with BASE_HEADER_SIZE. rewrite Hg, Hw2. done. }
  split.
  { pose proof (leh_deserialize_reads l' (Z.of_nat (length l)) h h0 Hwf Hc 0) as Hr. rewrite Hlh in Hr.
    apply Hr; [lia|lia|]. unfold slice, l'. rewrite drop_0, <- Hlh. apply take_app_length. }
  assert (drop 32 l' = bb ++ drop 48 l) as Hd' by (unfold l'; rewrite <- Hlh; apply drop_app_length).
  split_and!; [done|done|done|by rewrite Hd'| | |done].
  - assert (LogBaseHeader.wf padding_base) as Hwb by (apply LogBaseHeader.make_wf; vm_compute; split; congruence).
    pose proof (LogBaseHeader.base_deserialize_reads l' (Z.of_nat (length l)) padding_base b0 Hwb 32) as Hr. fold bb in Hr.
    rewrite Hbb in Hr. apply Hr; [lia|lia|]. unfold slice. change (Z.to_nat 32) with 32%nat.
    rewrite Hd', <- Hbb. apply take_app_length.
  - change 48%nat with (32 + 16)%nat. rewrite <- drop_drop, Hd', <- Hbb. apply drop_app_length.
Qed.

(** ** The parity bit of the first version *)
Inductive Field : Set := FMagic | FSize | FScn | FChecksum | FFlag.
Definition width (f : Field) : nat :=
  match f with FMagic => 16 | FSize => 32 | _ => 64 end.

(** The header with one bit of one member flipped. *)
Definition flip (f : Field) (k : nat) h : LogEntryHeader :=
  let x v := Z.lxor v (2 ^ Z.of_nat k) in
  match f with
  | FMagic => mkLEH (s16 (x (magic_ h))) (version_ h) (log_size_ h) (scn_ h) (data_checksum_ h) (flag_ h)
  | FSize => mkLEH (magic_ h) (version_ h) (s32 (x (log_size_ h))) (scn_ h) (data_checksum_ h) (flag_ h)
  | FScn => mkLEH (magic_ h) (version_ h) (log_size_ h) (Scn.mkSCN (x (Scn.val_ (scn_ h)))) (data_checksum_ h) (flag_ h)
  | FChecksum => mkLEH (magic_ h) (version_ h) (log_size_ h) (scn_ h) (s64 (x (data_checksum_ h))) (flag_ h)
  | FFlag => mkLEH (magic_ h) (version_ h) (log_size_ h) (scn_ h) (data_checksum_ h) (s64 (x (flag_ h)))
  end.

Definition total_parity h : bool :=
  xorb (Parity.parity 16 (magic_ h)) (xorb (Parity.parity 16 (version_ h)) (xorb (Parity.parity 32 (log_size_ h))
    (xorb (Parity.parity 64 (Scn.val_ (scn_ h))) (xorb (Parity.parity 64 (data_checksum_ h))
      (Parity.parity 64 (flag_ h)))))).

Lemma parity_wrapu n v : Parity.parity n (wrapu (Z.of_nat n) v) = Parity.parity n v.
Proof. apply Parity.parity_ext. intros i Hi. unfold wrapu. by rewrite Z.mod_pow2_bits_low by lia. Qed.

Lemma parity_wraps n v : (0 < n)%nat → Parity.parity n (wraps (Z.of_nat n) v) = Parity.parity n v.
Proof.
  intros Hn. rewrite <- parity_wrapu, <- (parity_wrapu n v). f_equal.
  unfold wrapu, wraps. rewrite Zminus_mod_idemp_l. f_equal. lia.
Qed.

Lemma parity_flip n k v : (k < n)%nat → Parity.parity n (Z.lxor v (2 ^ Z.of_nat k)) = negb (Parity.parity n v).
Proof. intros Hk. rewrite Parity.parity_lxor, Parity.parity_bit by done. apply xorb_true_r. Qed.

Lemma parity_flag f :
  Parity.parity 64 (Z.land f (Z.lnot PARITY_MASK)) = xorb (Z.testbit f 0) (Parity.parity 64 f).
Proof.
  change 64%nat with (1 + 63)%nat. rewrite !Parity.parity_add.
  assert (∀ v, Parity.parity 1 v = Z.testbit v 0) as H1 by (intros v; apply xorb_false_r).
  rewrite !H1, Z.land_spec. change (Z.testbit (Z.lnot PARITY_MASK) 0) with false.
  rewrite andb_false_r, xorb_false_l, <- xorb_assoc, xorb_nilpotent, xorb_false_l.
  apply Parity.parity_ext. intros i Hi. rewrite !Z.shiftr_spec, Z.land_spec, Z.lnot_spec by lia.
  change PARITY_MASK with (2 ^ 0). by rewrite Z.pow2_bits_false, andb_true_r by lia.
Qed.

Lemma check_parity h : version_ h = LOG_ENTRY_HEADER_VERSION → check h = negb (total_parity h).
Proof.
  intros Hv. unfold check_header_checksum_, get_header_checksum_mask_, calculate_header_checksum_.
  rewrite Hv. cbn [Z.eqb Pos.eqb LOG_ENTRY_HEADER_VERSION LOG_ENTRY_HEADER_VERSION2 negb andb].
  cbv zeta. rewrite !Parity.check16, Parity.check32, !Parity.check64.
  rewrite !(parity_wrapu 16), (parity_wrapu 32), !(parity_wrapu 64), parity_flag.
  change PARITY_MASK with (Z.ones 1). rewrite Z.land_ones by lia. change (2 ^ 1) with 2.
  unfold total_parity, Scn.get_val_for_logservice. rewrite <- Z.bit0_mod, Hv.
  destruct (Z.testbit (flag_ h) 0), (Parity.parity 16 (magic_ h)), (Parity.parity 16 LOG_ENTRY_HEADER_VERSION),
    (Parity.parity 32 (log_size_ h)), (Parity.parity 64 (Scn.val_ (scn_ h))),
    (Parity.parity 64 (data_checksum_ h)), (Parity.parity 64 (flag_ h)); reflexivity.
Qed.

(** The parity bit of a header of the first version detects every flipped bit:
    a header that passes the check does not pass it after any one bit of any
    member (but the version) has changed. *)
Theorem leh_parity_detects_flip h f k :
  version_ h = LOG_ENTRY_HEADER_VERSION → (k < width f)%nat → check h = true → check (flip f k h) = false.
Proof.
  intros Hv Hk. assert (version_ (flip f k h) = LOG_ENTRY_HEADER_VERSION) as Hv' by (by destruct f).
  rewrite !check_parity, negb_true_iff, negb_false_iff by done. intros Ht.
  assert (total_parity (flip f k h) = negb (total_parity h)) as ->; [|by rewrite Ht].
  destruct f; cbn [width] in Hk; unfold total_parity, flip;
    cbn [magic_ version_ log_size_ scn_ data_checksum_ flag_ Scn.val_];
    rewrite ?(parity_wraps 16), ?(parity_wraps 32), ?(parity_wraps 64) by lia;
    rewrite parity_flip by done;
    rewrite ?negb_xorb_l, ?negb_xorb_r; try done.
  all: by rewrite <- ?negb_xorb_l, <- ?negb_xorb_r.
Qed.
End proofs.

(** * Witnesses, with sums of bytes for the two hash functions *)
Definition sum_hash (data : list Z) (seed : Z) : Z := foldl Z.add seed data.
Definition sum_crc (crc : Z) (data : list Z) : Z := foldl Z.add crc data.

Definition sample : LogEntryHeader :=
  match generate_header sum_hash sum_crc (Some [1; 2; 3]) 3 (Scn.mkSCN 9) empty with
  | Some (_, h) => h
  | None => empty
  end.
Definition sample1 : LogEntryHeader :=
  update_header_checksum_ sum_hash (mkLEH MAGIC LOG_ENTRY_HEADER_VERSION 3 (Scn.mkSCN 9) 6 0).

Lemma leh_sample_wf : wf sample.
Proof. constructor; vm_compute; split; congruence. Qed.

Lemma leh_codec_witness :
  (∃ l', serialize sample 34 (mkWr (Some (replicate 34 0)) 1) = Some (OB_SUCCESS, mkWr (Some l') 33)
    ∧ deserialize sum_hash (Some l') 34 empty 1 = Some ((OB_SUCCESS, sample), 33))
  ∧ ∃ h, deserialize sum_hash (Some [1; 2; 3]) 3 empty 0 = Some ((OB_BUF_NOT_ENOUGH, h), 0).
Proof.
  split.
  - destruct (leh_codec sum_hash sample empty (replicate 34 0) 1 ltac:(lia)) as [H _].
    destruct H as (l' & H1 & H2 & _); [exact leh_sample_wf|vm_compute; reflexivity|vm_compute; congruence|].
    exists l'. split; [exact H1|exact H2].
  - destruct (leh_codec sum_hash sample empty [1; 2; 3] 0 ltac:(lia)) as [_ (rc & h & pos' & E & _)].
    exists h. vm_compute in E. injection E as <- <- <-. vm_compute. reflexivity.
Defined.

Lemma leh_padding_log_buf_witness :
  ∃ l' h, generate_padding_log_buf sum_hash sum_crc 4000 (Scn.mkSCN 9) (Some (replicate 50 0)) 48
          = Some (OB_SUCCESS, Some l')
    ∧ check_integrity sum_hash sum_crc (Some (drop 32 l')) 4000 h = Some true.
Proof.
  destruct (leh_padding_log_buf sum_hash sum_crc 4000 (Scn.mkSCN 9) (replicate 50 0) 48 empty
    (LogBaseHeader.mkBase 0 0 0 0)) as (l' & h & H1 & _ & _ & _ & _ & H2 & _);
    [split; vm_compute; congruence|split; [lia|reflexivity]|split; vm_compute; congruence|reflexivity|].
  exists l', h. split; [exact H1|exact H2].
Defined.

Lemma leh_generate_checks_witness :
  ∃ h, generate_header sum_hash sum_crc (Some [1; 2; 3]) 3 (Scn.mkSCN 9) empty = Some (OB_SUCCESS, h)
    ∧ check_integrity sum_hash sum_crc (Some [1; 2; 3]) 3 h = Some true.
Proof.
  destruct (leh_generate_checks sum_hash sum_crc empty [1; 2; 3] 3 (Scn.mkSCN 9)) as [(h & E & _ & _ & Hc & _) _];
    [cbn; lia|lia|split; vm_compute; congruence|reflexivity|split; vm_compute; congruence|reflexivity|].
  exists h. split; [exact E|exact Hc].
Defined.

Lemma leh_parity_detects_flip_witness :
  check_header_checksum_ sum_hash sample1 = true ∧ check_header_checksum_ sum_hash (flip FScn 3 sample1) = false.
Proof.
  split; [vm_compute; reflexivity|].
  apply (leh_parity_detects_flip sum_hash sample1 FScn 3); [reflexivity|cbn; lia|vm_compute; reflexivity].
Defined.
End LogEntryHeader.
