(* ===== verification/LogEntry.v ===== *)
(** [LogEntry] of [src/logservice/palf/log_entry.cpp]: a header and its data.  A
    [char *] into a buffer is the list of the bytes from it to the end of the
    buffer. *)
From S2P Require Import Prelude Serialization Scn Parity Codec LogEntryHeader.
Import Ser Codec.

Module LogEntry.
Import LogEntryHeader.

Record LogEntry : Type := mkLE { header_ : LogEntryHeader; buf_ : buf_t }.
Implicit Type e input : LogEntry.

Definition empty_entry : LogEntry := mkLE empty None.
Definition entry_reset e : LogEntry := mkLE (LogEntryHeader.reset (header_ e)) None.
Definition entry_is_valid e : bool := is_valid (header_ e) && negb (bool_decide (buf_ e = None)).

(** [shallow_copy] into [e]: an invalid input is ignored, and reported as a success. *)
Definition entry_shallow_copy input e : Z * LogEntry :=
  if entry_is_valid input then (OB_SUCCESS, input) else (OB_SUCCESS, e).

Definition entry_serialize e (buf_len : Z) : M Wr Z :=
  let data_len := log_size_ (header_ e) in
  let! bad := gets (fun w => Scn.bad_buf (w_buf w) buf_len) in
  if bad then ret OB_INVALID_ARGUMENT
  else Scn.commit_pos
    (chk! LogEntryHeader.serialize (header_ e) buf_len else
     let! new_pos := gets w_pos in
     if buf_len - new_pos <? data_len then ret OB_BUF_NOT_ENOUGH
     else (memcpy (buf_ e) data_len ;;; ret OB_SUCCESS)).

Definition entry_serialize_size e : Z := LogEntryHeader.get_serialize_size (header_ e) + log_size_ (header_ e).

Section checksums.
Context (XXH64 : list Z → Z → Z) (ob_crc64 : Z → list Z → Z).

Definition entry_check_integrity e : option bool :=
  LogEntryHeader.check_integrity XXH64 ob_crc64 (buf_ e) (log_size_ (header_ e)) (header_ e).

(** On a failure the header may have been replaced, the position has not moved. *)
Definition entry_deserialize (buf : buf_t) (data_len : Z) e : M Z (Z * LogEntry) :=
  if Scn.bad_buf buf data_len then ret (OB_INVALID_ARGUMENT, e)
  else Scn.commit_rpos
    (let! r := LogEntryHeader.deserialize XXH64 buf data_len (header_ e) in
     if ob_failed r.1 then ret (r.1, mkLE r.2 (buf_ e))
     else fun new_pos =>
       let len := log_size_ r.2 in
       if data_len - new_pos <? len then Some ((OB_BUF_NOT_ENOUGH, mkLE r.2 (buf_ e)), new_pos)
       else Some ((OB_SUCCESS, mkLE r.2 (if 0 <? len then pointer buf new_pos else None)), new_pos + len)).
End checksums.

(** * The bytes of an entry *)
Definition entry_bytes (h : LogEntryHeader) (data : list Z) : list Z := ser_bytes h ++ data.

(** A header and the data it announces. *)
Definition announces (h : LogEntryHeader) (data : list Z) : Prop :=
  wf h ∧ 0 < log_size_ h ∧ Z.of_nat (length data) = log_size_ h.

Lemma length_entry_bytes h data : length (entry_bytes h data) = (32 + length data)%nat.
Proof. unfold entry_bytes. by rewrite length_app, leh_length_ser_bytes. Qed.

Lemma entry_writes h data rest buf_len :
  announces h data → writes buf_len (entry_serialize (mkLE h (Some (data ++ rest))) buf_len) (entry_bytes h data).
Proof.
  intros (Hw & Hs & Hl). apply Scn.guard_writes; [rewrite length_entry_bytes; lia|]. apply Scn.commit_writes.
  intros l pos Hp [H1 H2]. rewrite length_entry_bytes in H1. cbn [header_ buf_].
  pose proof (leh_length_ser_bytes h) as Hsb.
  rewrite (bind_run _ _ _ _ _ (leh_serialize_writes h buf_len l pos Hp ltac:(lia))).
  change (ob_failed OB_SUCCESS) with false. cbv iota. rewrite (bind_run _ _ _ _ _ eq_refl). cbn [w_pos].
  destruct (Z.ltb_spec (buf_len - (pos + Z.of_nat (length (ser_bytes h)))) (log_size_ h)); [lia|].
  assert (take (Z.to_nat (log_size_ h)) (data ++ rest) = data) as Htk
    by (rewrite <- Hl, Nat2Z.id; apply take_app_length).
  pose proof (memcpy_writes buf_len (data ++ rest) (log_size_ h)) as Hm. rewrite Htk, length_app in Hm.
  rewrite Hm; [|lia|lia|rewrite length_splice; lia].
  unfold entry_bytes. rewrite splice_app by lia. rewrite length_app. do 3 f_equal. lia.
Qed.

Section proofs.
Context (XXH64 : list Z → Z → Z) (ob_crc64 : Z → list Z → Z).

(** Reading an entry back: the data pointer is where the header ends. *)
Lemma entry_reads l data_len h data e0 pos :
  announces h data → check_header_integrity XXH64 h = true → 0 <= pos →
  pos + Z.of_nat (length (entry_bytes h data)) <= data_len →
  slice l pos (length (entry_bytes h data)) = entry_bytes h data →
  entry_deserialize XXH64 (Some l) data_len e0 pos
  = Some ((OB_SUCCESS, mkLE h (Some (drop (Z.to_nat (pos + 32)) l))), pos + 32 + log_size_ h)
  ∧ slice l (pos + 32) (length data) = data.
Proof.
  intros (Hw & Hs & Hl) Hc Hp Hd Hsl. rewrite length_entry_bytes in Hd.
  destruct (slice_app_inv l pos (ser_bytes h) data Hp Hsl) as [S1 S2]. rewrite leh_length_ser_bytes in *.
  split; [|exact S2]. unfold entry_deserialize, Scn.bad_buf. destruct (Z.leb_spec data_len 0); [lia|].
  unfold Scn.commit_rpos.
  assert (slice l pos (length (ser_bytes h)) = ser_bytes h) as S1' by (by rewrite leh_length_ser_bytes).
  rewrite (bind_run _ _ _ _ _ (leh_deserialize_reads XXH64 l data_len h (header_ e0) Hw Hc pos Hp
    ltac:(rewrite leh_length_ser_bytes; lia) S1')).
  rewrite leh_length_ser_bytes. cbn [fst snd]. change (ob_failed OB_SUCCESS) with false. cbv iota. cbv zeta.
  rewrite (proj2 (Z.ltb_lt _ _) Hs), (proj2 (Z.ltb_ge (data_len - (pos + Z.of_nat 32)) (log_size_ h))) by lia.
  reflexivity.
Qed.

(** A read entry whose header carries the checksum of its data passes its check. *)
Lemma entry_checks h data l pos :
  announces h data → check_header_integrity XXH64 h = true → is_padding_log_ h = false →
  data_checksum_ h = s64 (ob_crc64 0 data) → slice l pos (length data) = data →
  entry_check_integrity XXH64 ob_crc64 (mkLE h (Some (drop (Z.to_nat pos) l))) = Some true.
Proof.
  intros (Hw & Hs & Hlen) Hc Hpad Hcrc Hdata.
  assert (Z.of_nat (length data) <= Z.of_nat (length (drop (Z.to_nat pos) l))) as Hl
    by (rewrite <- Hdata at 1; unfold slice; rewrite length_take; lia).
  unfold entry_check_integrity, check_integrity. cbn [buf_ header_]. rewrite Hpad.
  unfold check_header_integrity, is_valid in Hc. bool_to_prop.
  rewrite bool_decide_eq_false_2 by done. destruct (Z.leb_spec (log_size_ h) 0); [lia|]. cbn [orb].
  replace (MAGIC =? magic_ h) with true by (symmetry; apply Z.eqb_eq; done).
  match goal with H : check_header_checksum_ _ _ = true |- _ => rewrite H end. cbn [negb].
  rewrite crc64_within by lia. rewrite <- Hlen, Nat2Z.id. unfold slice in Hdata. rewrite Hdata, Hcrc.
  by rewrite Z.eqb_refl.
Qed.

(** A log entry with its data, written at a position with room and read back,
    gives the header and a pointer to the data, and the read entry passes its
    integrity check when the header announces the checksum of the data. *)
Theorem log_entry_roundtrip h data rest e0 l pos :
  announces h data → check_header_integrity XXH64 h = true → is_padding_log_ h = false →
  data_checksum_ h = s64 (ob_crc64 0 data) → 0 <= pos →
  pos + entry_serialize_size (mkLE h (Some (data ++ rest))) <= Z.of_nat (length l) →
  ∃ l' e, entry_serialize (mkLE h (Some (data ++ rest))) (Z.of_nat (length l)) (mkWr (Some l) pos)
          = Some (OB_SUCCESS, mkWr (Some l') (pos + HEADER_SER_SIZE + log_size_ h))
    ∧ entry_deserialize XXH64 (Some l') (Z.of_nat (length l)) e0 pos
      = Some ((OB_SUCCESS, e), pos + HEADER_SER_SIZE + log_size_ h)
    ∧ header_ e = h ∧ (∃ tl, buf_ e = Some (data ++ tl))
    ∧ entry_check_integrity XXH64 ob_crc64 e = Some true.
Proof.
  intros Ha Hc Hpad Hcrc Hp Hl. pose proof Ha as (Hw & Hs & Hlen).
  change (entry_serialize_size _) with (32 + log_size_ h) in Hl. unfold HEADER_SER_SIZE.
  pose proof (length_entry_bytes h data) as Hle.
  pose proof (entry_writes h data rest (Z.of_nat (length l)) Ha l pos Hp ltac:(lia)) as Hwr.
  set (l' := splice l pos (entry_bytes h data)) in *.
  assert (slice l' pos (length (entry_bytes h data)) = entry_bytes h data) as Hsl by (apply slice_splice; lia).
  destruct (entry_reads l' (Z.of_nat (length l)) h data e0 pos Ha Hc Hp ltac:(lia) Hsl) as [Hrd Hdata].
  exists l'. eexists. split; [rewrite Hwr; do 3 f_equal; lia|]. split; [exact Hrd|].
  assert (drop (Z.to_nat (pos + 32)) l' = data ++ drop (length data) (drop (Z.to_nat (pos + 32)) l')) as Htl.
  { rewrite <- Hdata at 1. unfold slice. by rewrite take_drop. }
  split; [done|]. split; [cbn; rewrite Htl; eauto|].
  by apply (entry_checks h data).
Qed.
End proofs.

(** * Witness *)
Lemma log_entry_roundtrip_witness :
  ∃ l' e, entry_deserialize sum_hash (Some l') 40 empty_entry 2 = Some ((OB_SUCCESS, e), 37)
    ∧ entry_check_integrity sum_hash sum_crc e = Some true.
Proof.
  destruct (log_entry_roundtrip sum_hash sum_crc sample [1; 2; 3] [] empty_entry (replicate 40 0) 2)
    as (l' & e & _ & H1 & _ & _ & H2);
    [split; [exact leh_sample_wf|split; vm_compute; congruence]|vm_compute; reflexivity|vm_compute; reflexivity
    |vm_compute; reflexivity|lia|vm_compute; congruence|].
  exists l', e. split; [exact H1|exact H2].
Defined.
End LogEntry.
