(* ===== verification/LogWriteBuf.v ===== *)
(** [LogWriteBuf] of [src/logservice/palf/log_writer_utils.cpp]: the pieces of memory
    that make up a write to the log; two when the ring buffer wraps around.

    Pointers are addresses, 0 is [NULL], and the memory they point into is a
    function from addresses to bytes, undefined where nothing is allocated. *)
From S2P Require Import Prelude Serialization Scn Lsn Codec.
Import Ser Codec.

Module LogWriteBuf.
Definition memory : Type := Z → option Z.

(** The [n] bytes from address [p] on. *)
Fixpoint load (mem : memory) (p : Z) (n : nat) : option (list Z) :=
  match n with
  | O => Some []
  | S n' => match mem p, load mem (p + 1) n' with Some b, Some l => Some (b :: l) | _, _ => None end
  end.

Record InnerStruct : Set := mkInner { buf_ : Z; buf_len_ : Z }.
#[global] Instance InnerStruct_eq_dec : EqDecision InnerStruct.
Proof. solve_decision. Defined.

Definition LogWriteBuf : Set := list InnerStruct.
Implicit Type w rhs : LogWriteBuf.

Definition reset w : LogWriteBuf := [].
Definition get_buf_count w : Z := Z.of_nat (length w).
Definition is_valid w : bool := 0 <? get_buf_count w.

Fixpoint get_total_size w : Z :=
  match w with [] => 0 | s :: t => buf_len_ s + get_total_size t end.

(** The caller's variables are [out]; a negative index is outside of the array. *)
Definition get_write_buf (idx : Z) (out : InnerStruct) w : option (Z * InnerStruct) :=
  if get_buf_count w <=? idx then Some (OB_ARRAY_OUT_OF_RANGE, out)
  else if idx <? 0 then None
  else match w !! Z.to_nat idx with Some s => Some (OB_SUCCESS, s) | None => None end.

(** [merge]: the code, [has_merged] and the buffer; [None] for [write_buf_[0]] of an empty array. *)
Definition merge rhs w : option (Z * bool * LogWriteBuf) :=
  let lhs_size := get_total_size w in
  let rhs_size := get_total_size rhs in
  if (2 <=? get_buf_count w) || (2 <=? get_buf_count rhs) then Some (OB_SUCCESS, false, w)
  else if (Lsn.MAX_LOG_BUFFER_SIZE <? lhs_size) || (Lsn.MAX_LOG_BUFFER_SIZE <? rhs_size)
  then Some (OB_ERR_UNEXPECTED, false, w)
  else if Lsn.MAX_LOG_BUFFER_SIZE <? lhs_size + rhs_size then Some (OB_SUCCESS, false, w)
  else
    match w, rhs with
    | a :: t, b :: _ =>
        if buf_ a =? buf_ b then Some (OB_ERR_UNEXPECTED, false, w)
        else if negb (buf_ a + lhs_size =? buf_ b) then Some (OB_SUCCESS, false, w)
        else Some (OB_SUCCESS, true, mkInner (buf_ a) (buf_len_ a + rhs_size) :: t)
    | _, _ => None
    end.

(** The loop of [push_back]; [alloc n] tells whether the array can grow beyond [n]
    elements.  Each round takes a byte at least, and a full piece but for the last. *)
Fixpoint push_loop (fuel : nat) (alloc : nat → bool) (buf buf_len remain_buf_len : Z) w : Z * LogWriteBuf :=
  match fuel with
  | O => (OB_SUCCESS, w)
  | S f =>
      if 0 <? remain_buf_len then
        let limit_buf_len := Z.min remain_buf_len Lsn.MAX_LOG_BUFFER_SIZE in
        if alloc (length w) then
          push_loop f alloc buf buf_len (remain_buf_len - limit_buf_len)
            (w ++ [mkInner (buf + buf_len - remain_buf_len) limit_buf_len])
        else (OB_ALLOCATE_MEMORY_FAILED, w)
      else (OB_SUCCESS, w)
  end.
Definition push_rounds (buf_len : Z) : nat := Z.to_nat (buf_len / Lsn.MAX_LOG_BUFFER_SIZE + 1).

Definition push_back (alloc : nat → bool) (buf buf_len : Z) w : Z * LogWriteBuf :=
  if (buf =? 0) || (buf_len <=? 0) then (OB_INVALID_ARGUMENT, w)
  else push_loop (push_rounds buf_len) alloc buf buf_len buf_len w.

Fixpoint check_memory_is_continous w : bool :=
  match w with
  | a :: ((b :: _) as t) => if buf_ a + buf_len_ a =? buf_ b then check_memory_is_continous t else false
  | _ => true
  end.

Definition bytes_of (mem : memory) (s : InnerStruct) : buf_t := load mem (buf_ s) (Z.to_nat (buf_len_ s)).

(** The copying loop of [memcpy_to_continous_memory] and [serialize]. *)
Fixpoint copy_all (mem : memory) w : M Wr unit :=
  match w with
  | [] => ret tt
  | s :: t => memcpy (bytes_of mem s) (buf_len_ s) ;;; copy_all mem t
  end.

Definition memcpy_to_continous_memory (mem : memory) (dest_buf : buf_t) w : option buf_t :=
  match copy_all mem w (mkWr dest_buf 0) with Some (_, wr) => Some (w_buf wr) | None => None end.

Definition serialize (mem : memory) w (buf_len : Z) : M Wr Z :=
  let! bad := gets (fun wr => Scn.bad_buf (w_buf wr) buf_len || (w_pos wr <? 0)) in
  if bad then ret OB_INVALID_ARGUMENT
  else Scn.commit_pos
    (chk! encode_i64 buf_len (get_total_size w) else (copy_all mem w ;;; ret OB_SUCCESS)).

(** [deserialize] from the [data_len] bytes at address [buf]. *)
Definition deserialize (mem : memory) (alloc : nat → bool) (buf data_len : Z) w : M Z (Z * LogWriteBuf) :=
  let! bad := gets (fun pos => (buf =? 0) || (data_len <=? 0) || (pos <? 0)) in
  if bad then ret (OB_INVALID_ARGUMENT, w)
  else Scn.commit_rpos
    (let! r := decode_i64 (load mem buf (Z.to_nat data_len)) data_len in
     if ob_failed r.1 then ret (r.1, w)
     else fun new_pos =>
       if alloc (length w)
       then Some ((OB_SUCCESS, w ++ [mkInner (buf + new_pos) r.2]), new_pos + r.2)
       else Some ((OB_ALLOCATE_MEMORY_FAILED, w), new_pos)).

Definition get_serialize_size w : Z := encoded_length_i64 (get_total_size w) + get_total_size w.

(** * The bytes of a buffer *)
Fixpoint contents (mem : memory) w : option (list Z) :=
  match w with
  | [] => Some []
  | s :: t => match bytes_of mem s, contents mem t with Some a, Some b => Some (a ++ b) | _, _ => None end
  end.

Definition wf w : Prop := Forall (fun s => 0 < buf_len_ s) w.

Lemma load_app mem p n m :
  load mem p (n + m)
  = match load mem p n, load mem (p + Z.of_nat n) m with Some a, Some b => Some (a ++ b) | _, _ => None end.
Proof.
  revert p. induction n as [|n IH]; intros p; cbn [load Nat.add].
  { rewrite Z.add_0_r. by destruct (load mem p m). }
  rewrite IH. replace (p + 1 + Z.of_nat n) with (p + Z.of_nat (S n)) by lia.
  destruct (mem p), (load mem (p + 1) n), (load mem (p + Z.of_nat (S n)) m); done.
Qed.

Lemma load_length mem p n l : load mem p n = Some l → length l = n.
Proof.
  revert p l. induction n as [|n IH]; intros p l; cbn [load]; [by intros [= <-]|].
  destruct (mem p); [|done]. destruct (load mem (p + 1) n) eqn:E; [|done]. intros [= <-].
  cbn. by rewrite (IH _ _ E).
Qed.

(** A part of the bytes at an address. *)
Lemma load_slice mem p n l pos m :
  load mem p n = Some l → 0 <= pos → pos + Z.of_nat m <= Z.of_nat n → load mem (p + pos) m = Some (slice l pos m).
Proof.
  intros Hl Hp Hm. replace n with (Z.to_nat pos + (m + (n - m - Z.to_nat pos)))%nat in Hl by lia.
  rewrite !load_app, Z2Nat.id in Hl by lia.
  destruct (load mem p (Z.to_nat pos)) as [a|] eqn:Ea; [|done].
  destruct (load mem (p + pos) m) as [b|] eqn:Eb; [|done].
  destruct (load mem (p + pos + Z.of_nat m) _) as [c|]; [|done]. injection Hl as <-.
  unfold slice. rewrite <- (load_length _ _ _ _ Ea), drop_app_length, <- (load_length _ _ _ _ Eb), take_app_length. done.
Qed.

Lemma contents_app mem w rhs :
  contents mem (w ++ rhs)
  = match contents mem w, contents mem rhs with Some a, Some b => Some (a ++ b) | _, _ => None end.
Proof.
  induction w as [|s w IH]; cbn [contents app]; [by destruct (contents mem rhs)|].
  rewrite IH. destruct (bytes_of mem s), (contents mem w), (contents mem rhs); try done. by rewrite app_assoc.
Qed.

Lemma total_app w rhs : get_total_size (w ++ rhs) = get_total_size w + get_total_size rhs.
Proof. induction w as [|s w IH]; cbn [get_total_size app]; lia. Qed.

Lemma contents_length mem w bs : wf w → contents mem w = Some bs → Z.of_nat (length bs) = get_total_size w.
Proof.
  intros Hw. revert bs. induction Hw as [|s w Hs Hw IH]; intros bs; cbn [contents get_total_size]; [by intros [= <-]|].
  destruct (bytes_of mem s) as [a|] eqn:Ea; [|done]. destruct (contents mem w) as [b|]; [|done].
  intros [= <-]. apply load_length in Ea. rewrite length_app. specialize (IH b eq_refl). lia.
Qed.

Lemma copy_all_run mem w bs l pos :
  wf w → contents mem w = Some bs → 0 <= pos → pos + Z.of_nat (length bs) <= Z.of_nat (length l) →
  copy_all mem w (mkWr (Some l) pos) = Some (tt, mkWr (Some (splice l pos bs)) (pos + Z.of_nat (length bs))).
Proof.
  intros Hw. revert bs l pos. induction Hw as [|s w Hs Hw IH]; intros bs l pos; cbn [contents copy_all].
  { intros [= <-] Hp Hl. unfold ret, splice. cbn. by rewrite Nat.add_0_r, take_drop, Z.add_0_r. }
  destruct (bytes_of mem s) as [a|] eqn:Ea; [|done]. destruct (contents mem w) as [b|]; [|done].
  intros [= <-] Hp. rewrite length_app. intros Hl. pose proof (load_length _ _ _ _ Ea) as Hla.
  pose proof (memcpy_run a (buf_len_ s) l pos ltac:(lia) Hp) as Hm.
  rewrite take_ge in Hm by lia. rewrite (bind_run _ _ _ _ _ (Hm ltac:(lia))).
  rewrite (IH b) by (rewrite ?length_splice; lia || done). rewrite splice_app by lia. do 3 f_equal. lia.
Qed.

(** ** Pieces of one region *)

(** [w] covers the [len] bytes from [p] on, in order and without gaps. *)
Fixpoint tiles (p len : Z) w : Prop :=
  match w with
  | [] => len = 0
  | s :: t => buf_ s = p ∧ 0 < buf_len_ s <= Lsn.MAX_LOG_BUFFER_SIZE ∧ tiles (p + buf_len_ s) (len - buf_len_ s) t
  end.

Lemma tiles_total p len w : tiles p len w → get_total_size w = len ∧ wf w ∧ 0 <= len.
Proof.
  revert p len. induction w as [|s w IH]; intros p len; cbn [tiles get_total_size].
  { intros ->. by split; [|split; [constructor|]]. }
  intros (_ & Hs & Ht). destruct (IH _ _ Ht) as (? & ? & ?). split; [lia|].
  split; [constructor; [lia|done]|lia].
Qed.

Lemma tiles_contents mem p len w : tiles p len w → contents mem w = load mem p (Z.to_nat len).
Proof.
  revert p len. induction w as [|s w IH]; intros p len; cbn [tiles contents]; [by intros ->|].
  intros (<- & Hs & Ht). pose proof (tiles_total _ _ _ Ht) as (_ & _ & Hl).
  replace (Z.to_nat len) with (Z.to_nat (buf_len_ s) + Z.to_nat (len - buf_len_ s))%nat by lia.
  rewrite load_app, Z2Nat.id, <- (IH _ _ Ht) by lia. done.
Qed.

Lemma tiles_continous p len w : tiles p len w → check_memory_is_continous w = true.
Proof.
  revert p len. induction w as [|a [|b w] IH]; intros p len; [done|done|].
  cbn [tiles]. intros (<- & _ & Ht). cbn [check_memory_is_continous].
  rewrite (proj2 (Z.eqb_eq _ _)) by (destruct Ht as (-> & _); done). by apply (IH _ _ Ht).
Qed.

Lemma tiles_pieces p len w :
  tiles p len w → Forall (fun s => 0 < buf_len_ s <= Lsn.MAX_LOG_BUFFER_SIZE) w.
Proof.
  revert p len. induction w as [|s w IH]; intros p len; [constructor|].
  intros (_ & Hs & Ht). constructor; eauto.
Qed.

Lemma push_loop_tiles fuel alloc buf buf_len r w :
  0 <= r <= Z.of_nat fuel * Lsn.MAX_LOG_BUFFER_SIZE →
  ∃ rc w', push_loop fuel alloc buf buf_len r w = (rc, w ++ w')
    ∧ (rc = OB_SUCCESS ∧ tiles (buf + buf_len - r) r w'
       ∨ rc = OB_ALLOCATE_MEMORY_FAILED ∧ ∃ n, alloc n = false).
Proof.
  revert r w. assert (0 < Lsn.MAX_LOG_BUFFER_SIZE) as HM by done.
  induction fuel as [|f IH]; intros r w Hr; cbn [push_loop].
  { exists OB_SUCCESS, []. rewrite app_nil_r. split; [done|]. left. split; [done|]. cbn. lia. }
  rewrite Nat2Z.inj_succ, Z.mul_succ_l in Hr. destruct (Z.ltb_spec 0 r).
  - set (k := Z.min r Lsn.MAX_LOG_BUFFER_SIZE). destruct (alloc (length w)) eqn:Ha.
    + destruct (IH (r - k) (w ++ [mkInner (buf + buf_len - r) k]) ltac:(lia)) as (rc & w' & E & Hw).
      rewrite E, <- app_assoc. eexists rc, (_ :: w'). split; [reflexivity|].
      destruct Hw as [(-> & Ht)|Hw]; [left|by right]. split; [done|]. cbn [tiles buf_ buf_len_].
      split; [done|]. split; [lia|]. by replace (buf + buf_len - r + k) with (buf + buf_len - (r - k)) by lia.
    + exists OB_ALLOCATE_MEMORY_FAILED, []. rewrite app_nil_r. split; [done|]. right. eauto.
  - exists OB_SUCCESS, []. rewrite app_nil_r. split; [done|]. left. split; [done|]. cbn. lia.
Qed.

(** : [push_back] appends pieces of at most [MAX_LOG_BUFFER_SIZE] that cover the
    region in order, so that the bytes of the buffer are those of the old one
    followed by the region, unless the array cannot grow; and a [merge] that
    reports [has_merged] leaves one piece with the bytes of both buffers, one that
    does not leaves the buffer alone. *)
Theorem lwb_contents mem alloc buf buf_len w rhs :
  buf ≠ 0 → 0 < buf_len →
  (∃ rc w', push_back alloc buf buf_len w = (rc, w ++ w')
     ∧ (rc = OB_SUCCESS
        ∧ contents mem (w ++ w')
          = match contents mem w, load mem buf (Z.to_nat buf_len) with Some a, Some b => Some (a ++ b) | _, _ => None end
        ∧ get_total_size (w ++ w') = get_total_size w + buf_len
        ∧ check_memory_is_continous w' = true
        ∧ Forall (fun s => 0 < buf_len_ s <= Lsn.MAX_LOG_BUFFER_SIZE) w'
        ∨ rc = OB_ALLOCATE_MEMORY_FAILED ∧ ∃ n, alloc n = false))
  ∧ (wf w → wf rhs → w ≠ [] → rhs ≠ [] →
     ∃ rc merged w', merge rhs w = Some (rc, merged, w')
       ∧ (merged = true ∧ rc = OB_SUCCESS ∧ length w' = 1%nat
          ∧ get_total_size w' = get_total_size w + get_total_size rhs
          ∧ contents mem w' = contents mem (w ++ rhs)
          ∨ merged = false ∧ w' = w)).
Proof.
  intros Hb Hl. split.
  - unfold push_back. rewrite (proj2 (Z.eqb_neq _ _)), (proj2 (Z.leb_gt _ _)) by done. cbn [orb].
    destruct (push_loop_tiles (push_rounds buf_len) alloc buf buf_len buf_len w) as (rc & w' & E & Hw).
    { unfold push_rounds. assert (0 < Lsn.MAX_LOG_BUFFER_SIZE) as HM by done.
      pose proof (Z.div_mod buf_len Lsn.MAX_LOG_BUFFER_SIZE ltac:(lia)).
      pose proof (Z.mod_pos_bound buf_len Lsn.MAX_LOG_BUFFER_SIZE HM).
      pose proof (Z.div_pos buf_len Lsn.MAX_LOG_BUFFER_SIZE ltac:(lia) HM). rewrite Z2Nat.id by lia. nia. }
    exists rc, w'. split; [done|]. destruct Hw as [(-> & Ht)|Hw]; [left|by right].
    replace (buf + buf_len - buf_len) with buf in Ht by lia. split; [done|].
    rewrite contents_app, (tiles_contents mem _ _ _ Ht), total_app, (proj1 (tiles_total _ _ _ Ht)).
    split; [done|]. split; [done|]. split; [by apply (tiles_continous _ _ _ Ht)|].
    by apply (tiles_pieces _ _ _ Ht).
  - intros Hw Hr Hn1 Hn2. unfold merge. repeat (case_match; [eexists _, _, _; split; [reflexivity|]; by right|]).
    destruct w as [|a [|a' t]]; [done| |unfold get_buf_count in *; cbn [length] in *; bool_to_prop; lia].
    destruct rhs as [|b [|b' t]]; [done| |unfold get_buf_count in *; cbn [length] in *; bool_to_prop; lia].
    repeat (case_match; [eexists _, _, _; split; [reflexivity|]; by right|]).
    eexists _, _, _. split; [reflexivity|]. left. cbn [get_total_size] in *. bool_to_prop.
    apply Forall_inv in Hw, Hr. cbn [get_total_size contents app length buf_len_]. split_and!; try done; [lia|].
    unfold bytes_of. cbn [buf_ buf_len_]. rewrite Z.add_0_r, Z2Nat.inj_add, load_app, Z2Nat.id by lia.
    replace (buf_ b) with (buf_ a + buf_len_ a) by lia.
    destruct (load mem (buf_ a) (Z.to_nat (buf_len_ a))), (load mem (buf_ a + buf_len_ a) (Z.to_nat (buf_len_ b)));
      try done. by rewrite !app_nil_r.
Qed.

(** ** Serialization *)
Lemma lwb_serialize_writes mem w bs buf_len :
  wf w → contents mem w = Some bs →
  writes buf_len (serialize mem w buf_len) (be_bytes 8 (get_total_size w) ++ bs).
Proof.
  intros Hw Hc l pos Hp Hl. unfold serialize. rewrite (bind_run _ _ _ _ _ eq_refl). cbn [w_buf w_pos Scn.bad_buf].
  pose proof Hl as [H1 H2]. rewrite length_app, length_be_bytes in H1.
  rewrite (proj2 (Z.leb_gt _ _)), (proj2 (Z.ltb_ge _ _)) by lia. cbn [orb].
  revert l pos Hp Hl H1 H2. cut (writes buf_len (Scn.commit_pos (chk! encode_i64 buf_len (get_total_size w)
    else (copy_all mem w ;;; ret OB_SUCCESS))) (be_bytes 8 (get_total_size w) ++ bs)).
  { intros Hcut l pos Hp Hl _ _. by apply Hcut. }
  apply Scn.commit_writes, writes_seq; [apply (int_writes 8); auto|].
  intros l' pos' Hp' [H1' H2']. rewrite (bind_run _ _ _ _ _ (copy_all_run mem w bs l' pos' Hw Hc Hp' ltac:(lia))). done.
Qed.

Lemma roundtrip_with_room mem w bs l pos mem' alloc p :
  wf w → contents mem w = Some bs → get_total_size w <= INT64_MAX → 0 <= pos →
  pos + get_serialize_size w <= Z.of_nat (length l) → p ≠ 0 → alloc 0%nat = true →
  ∃ l', serialize mem w (Z.of_nat (length l)) (mkWr (Some l) pos)
        = Some (OB_SUCCESS, mkWr (Some l') (pos + get_serialize_size w))
    ∧ (load mem' p (length l) = Some l' →
       ∃ w', deserialize mem' alloc p (Z.of_nat (length l)) [] pos
             = Some ((OB_SUCCESS, w'), pos + get_serialize_size w)
         ∧ contents mem' w' = Some bs ∧ get_buf_count w' = 1).
Proof.
  intros Hw Hc Ht Hp Hl Hp0 Ha. pose proof (contents_length _ _ _ Hw Hc) as Hlen.
  unfold get_serialize_size, encoded_length_i64 in *. set (bytes := be_bytes 8 (get_total_size w) ++ bs).
  assert (Z.of_nat (length bytes) = 8 + get_total_size w) as Hb
    by (unfold bytes; rewrite length_app, length_be_bytes; lia).
  pose proof (lwb_serialize_writes mem w bs (Z.of_nat (length l)) Hw Hc l pos Hp) as Hwr. fold bytes in Hwr.
  rewrite Hb in Hwr. exists (splice l pos bytes). split; [apply Hwr; lia|].
  intros Hmem. set (l' := splice l pos bytes) in *.
  assert (slice l' pos (length bytes) = bytes) as Hs by (apply slice_splice; lia).
  destruct (slice_app_inv _ _ _ _ Hp Hs) as [S1 S2].
  unfold deserialize. rewrite (bind_run _ _ _ _ _ eq_refl).
  rewrite (proj2 (Z.eqb_neq _ _)), (proj2 (Z.leb_gt _ _)), (proj2 (Z.ltb_ge _ _)) by lia. cbn [orb].
  rewrite Nat2Z.id, Hmem. unfold Scn.commit_rpos.
  assert (in_s 64 (get_total_size w)) as Hin by (unfold in_s, INT64_MAX in *; lia).
  rewrite (bind_run _ _ _ _ _ (int_reads 8 l' (Z.of_nat (length l)) _ ltac:(auto) Hin pos Hp
    ltac:(rewrite length_be_bytes; lia) S1)).
  cbn [fst snd]. change (ob_failed OB_SUCCESS) with false. cbv iota. cbn [length]. rewrite Ha, length_be_bytes.
  eexists. split; [change (ob_failed OB_SUCCESS) with false; do 2 f_equal; lia|]. split; [|done].
  cbn [app contents]. unfold bytes_of. cbn [buf_ buf_len_]. rewrite length_be_bytes in S2.
  replace (Z.to_nat (get_total_size w)) with (length bs) by lia. rewrite (load_slice _ _ _ _ _ _ Hmem) by lia.
  change (Z.to_nat 8) with 8%nat. by rewrite S2, app_nil_r.
Qed.

Lemma copy_all_overrun mem w bs l pos :
  wf w → contents mem w = Some bs → 0 <= pos <= Z.of_nat (length l) →
  Z.of_nat (length l) < pos + Z.of_nat (length bs) → copy_all mem w (mkWr (Some l) pos) = None.
Proof.
  intros Hw. revert bs l pos. induction Hw as [|s w Hs Hw IH]; intros bs l pos; cbn [contents copy_all].
  { intros [= <-]. cbn. lia. }
  destruct (bytes_of mem s) as [a|] eqn:Ea; [|done]. destruct (contents mem w) as [b|]; [|done].
  intros [= <-] Hp. rewrite length_app. intros Hl. pose proof (load_length _ _ _ _ Ea) as Hla.
  destruct (decide (pos + buf_len_ s <= Z.of_nat (length l))) as [Hr|Hr].
  - rewrite (bind_run _ _ _ _ _ (memcpy_run a (buf_len_ s) l pos ltac:(lia) ltac:(lia) Hr)).
    rewrite take_ge by lia. apply (IH b); [done|rewrite length_splice; lia|rewrite length_splice; lia].
  - unfold memcpy, bind. cbn [w_buf w_pos]. rewrite (proj2 (Z.leb_gt (pos + _) _)) by lia. by rewrite andb_false_r.
Qed.

Lemma overrun_without_room mem w bs l pos :
  wf w → contents mem w = Some bs → 0 <= pos → pos + 8 <= Z.of_nat (length l) →
  Z.of_nat (length l) < pos + get_serialize_size w →
  serialize mem w (Z.of_nat (length l)) (mkWr (Some l) pos) = None.
Proof.
  intros Hw Hc Hp Hl Hs. pose proof (contents_length _ _ _ Hw Hc) as Hlen.
  unfold get_serialize_size, encoded_length_i64 in Hs.
  unfold serialize. rewrite (bind_run _ _ _ _ _ eq_refl). cbn [w_buf w_pos Scn.bad_buf].
  rewrite (proj2 (Z.leb_gt _ _)), (proj2 (Z.ltb_ge _ _)) by lia. cbn [orb]. unfold Scn.commit_pos.
  rewrite (bind_run _ _ _ _ _ (int_writes 8 (Z.of_nat (length l)) (get_total_size w) ltac:(auto) l pos Hp
    ltac:(rewrite length_be_bytes; lia))).
  change (ob_failed OB_SUCCESS) with false. cbv iota. rewrite length_be_bytes. unfold bind.
  rewrite (copy_all_overrun mem w bs); [done|done|done| |];
    rewrite length_splice; rewrite ?length_be_bytes; lia.
Qed.

(** C40: a buffer serialized with room for [get_serialize_size] and read back from
    memory is one piece with the same bytes, and copying it to continuous memory
    gives these bytes.  The check of [serialize] covers the length only: with room
    for that but not for the bytes it writes behind the end of the destination. *)
Theorem lwb_serialize mem w bs l pos mem' alloc p :
  wf w → contents mem w = Some bs → get_total_size w <= INT64_MAX → 0 <= pos →
  pos + 8 <= Z.of_nat (length l) → p ≠ 0 → alloc 0%nat = true →
  memcpy_to_continous_memory mem (Some bs) w = Some (Some bs)
  ∧ if decide (pos + get_serialize_size w <= Z.of_nat (length l)) then
      ∃ l', serialize mem w (Z.of_nat (length l)) (mkWr (Some l) pos)
            = Some (OB_SUCCESS, mkWr (Some l') (pos + get_serialize_size w))
        ∧ (load mem' p (length l) = Some l' →
           ∃ w', deserialize mem' alloc p (Z.of_nat (length l)) [] pos
                 = Some ((OB_SUCCESS, w'), pos + get_serialize_size w)
             ∧ contents mem' w' = Some bs ∧ get_buf_count w' = 1)
    else serialize mem w (Z.of_nat (length l)) (mkWr (Some l) pos) = None.
Proof.
  intros Hw Hc Ht Hp Hl Hp0 Ha. split.
  { pose proof (contents_length _ _ _ Hw Hc). unfold memcpy_to_continous_memory.
    rewrite (copy_all_run mem w bs) by (lia || done). unfold splice. cbn [w_buf]. change (Z.to_nat 0) with 0%nat.
    by rewrite take_0, Nat.add_0_l, drop_all, app_nil_r. }
  destruct (decide _); [by apply roundtrip_with_room|]. apply (overrun_without_room mem w bs); (done || lia).
Qed.

(** * Witnesses: a memory where the byte at an address is the address *)
Definition idmem : memory := fun a => if (0 <? a) && (a <? 256) then Some a else None.
Definition wrapped : LogWriteBuf := [mkInner 20 3; mkInner 10 2].

Lemma lwb_contents_witness :
  ∃ w', push_back (fun _ => true) 30 2 wrapped = (OB_SUCCESS, wrapped ++ w')
    ∧ contents idmem (wrapped ++ w') = Some [20; 21; 22; 10; 11; 30; 31].
Proof.
  destruct (lwb_contents idmem (fun _ => true) 30 2 wrapped [] ltac:(lia) ltac:(lia))
    as [(rc & w' & E & [(-> & Hc & _)|(_ & n & Hn)]) _]; [|discriminate].
  exists w'. split; [exact E|]. rewrite Hc. reflexivity.
Defined.

Lemma lwb_serialize_witness :
  (∃ l', serialize idmem wrapped 14 (mkWr (Some (replicate 14 0)) 1) = Some (OB_SUCCESS, mkWr (Some l') 14))
  ∧ serialize idmem wrapped 12 (mkWr (Some (replicate 12 0)) 0) = None.
Proof.
  split.
  - destruct (lwb_serialize idmem wrapped [20; 21; 22; 10; 11] (replicate 14 0) 1 idmem (fun _ => true) 1)
      as [_ H]; [repeat constructor|reflexivity|vm_compute; congruence|lia|vm_compute; congruence|lia|reflexivity|].
    rewrite decide_True in H by (vm_compute; congruence). destruct H as (l' & H & _). exists l'. exact H.
  - destruct (lwb_serialize idmem wrapped [20; 21; 22; 10; 11] (replicate 12 0) 0 idmem (fun _ => true) 1)
      as [_ H]; [repeat constructor|reflexivity|vm_compute; congruence|lia|vm_compute; congruence|lia|reflexivity|].
    rewrite decide_False in H by (vm_compute; congruence). exact H.
Defined.
End LogWriteBuf.
