(* ===== verification/LogGroupEntryHeader.v ===== *)
(** [LogGroupEntryHeader] of [src/logservice/palf/log_group_entry_header.cpp]: the
    header of a group of log entries, its checksum over the entries of the group,
    which on the writing side may lie in two pieces of the ring buffer, and the
    truncation of a group at a timestamp. *)
From S2P Require Import Prelude Serialization Scn Lsn Parity Codec LogBaseHeader LogEntryHeader LogEntry LogWriteBuf.
Import Ser Codec.

Module LogGroupEntryHeader.
Definition HEADER_SER_SIZE : Z := 56.
Definition MAGIC : Z := 0x4752.
Definition LOG_GROUP_ENTRY_HEADER_VERSION : Z := 1.
Definition PADDING_TYPE_MASK : Z := Z.shiftl 1 1.
Definition RAW_WRITE_MASK : Z := Z.shiftl 1 2.
Definition PADDING_LOG_DATA_CHECKSUM : Z := 0.
Definition LOG_GROUP_ENTRY_HEADER_VERSION2 : Z := 2.
Definition PADDING_TYPE_MASK_VERSION2 : Z := Z.shiftl 1 62.
Definition RAW_WRITE_MASK_VERSION2 : Z := Z.shiftl 1 61.
Definition CRC16_MASK : Z := 0xffff.
Definition PARITY_MASK : Z := 1.

Record LogGroupEntryHeader : Set := mkGEH {
  magic_ : Z;                    (* int16_t *)
  version_ : Z;                  (* int16_t *)
  group_size_ : Z;               (* int32_t *)
  proposal_id_ : Z;              (* int64_t *)
  committed_end_lsn_ : Lsn.LSN;
  max_scn_ : Scn.SCN;
  accumulated_checksum_ : Z;     (* int64_t *)
  log_id_ : Z;                   (* int64_t *)
  flag_ : Z                      (* int64_t *)
}.
Implicit Type h : LogGroupEntryHeader.

#[global] Instance LogGroupEntryHeader_eq_dec : EqDecision LogGroupEntryHeader.
Proof. solve_decision. Defined.

Record wf h : Prop := {
  wf_magic : in_s 16 (magic_ h);
  wf_version : in_s 16 (version_ h);
  wf_size : in_s 32 (group_size_ h);
  wf_proposal : in_s 64 (proposal_id_ h);
  wf_lsn : Lsn.wf (committed_end_lsn_ h);
  wf_scn : Scn.wf (max_scn_ h);
  wf_accum : in_s 64 (accumulated_checksum_ h);
  wf_log_id : in_s 64 (log_id_ h);
  wf_flag : in_s 64 (flag_ h)
}.

Definition set_flag (f : Z) h : LogGroupEntryHeader :=
  mkGEH (magic_ h) (version_ h) (group_size_ h) (proposal_id_ h) (committed_end_lsn_ h) (max_scn_ h)
    (accumulated_checksum_ h) (log_id_ h) f.

(** [reset], which is also the default constructor. *)
Definition empty : LogGroupEntryHeader :=
  mkGEH 0 0 0 Lsn.INVALID_PROPOSAL_ID (Lsn.mkLSN Lsn.LOG_INVALID_LSN_VAL) Scn.invalid_scn 0 0 0.
Definition reset h : LogGroupEntryHeader := empty.

Definition is_valid h : bool :=
  (MAGIC =? magic_ h)
  && ((LOG_GROUP_ENTRY_HEADER_VERSION =? version_ h) || (LOG_GROUP_ENTRY_HEADER_VERSION2 =? version_ h))
  && negb (Lsn.INVALID_PROPOSAL_ID =? proposal_id_ h) && Lsn.is_valid (committed_end_lsn_ h)
  && Scn.is_valid (max_scn_ h) && Lsn.is_valid_log_id (log_id_ h).

Definition get_version_ : Z := LOG_GROUP_ENTRY_HEADER_VERSION2.
Definition get_padding_mask_ h : Z :=
  if LOG_GROUP_ENTRY_HEADER_VERSION2 =? version_ h then PADDING_TYPE_MASK_VERSION2 else PADDING_TYPE_MASK.
Definition get_raw_write_mask_ h : Z :=
  if LOG_GROUP_ENTRY_HEADER_VERSION2 =? version_ h then RAW_WRITE_MASK_VERSION2 else RAW_WRITE_MASK.
Definition get_header_checksum_mask_ h : Z :=
  if LOG_GROUP_ENTRY_HEADER_VERSION2 =? version_ h then CRC16_MASK
  else if LOG_GROUP_ENTRY_HEADER_VERSION =? version_ h then PARITY_MASK else 0.
Definition reset_header_checksum_ h : LogGroupEntryHeader :=
  if LOG_GROUP_ENTRY_HEADER_VERSION2 =? version_ h then set_flag (Z.land (flag_ h) (Z.lnot CRC16_MASK)) h
  else if LOG_GROUP_ENTRY_HEADER_VERSION =? version_ h then set_flag (Z.land (flag_ h) (Z.lnot PARITY_MASK)) h
  else h.
Definition is_padding_log h : bool := 0 <? Z.land (flag_ h) (get_padding_mask_ h).
Definition is_raw_write h : bool := 0 <? Z.land (flag_ h) (get_raw_write_mask_ h).

Definition geh_eqb h h' : bool :=
  (magic_ h =? magic_ h') && (version_ h =? version_ h') && (group_size_ h =? group_size_ h')
  && (proposal_id_ h =? proposal_id_ h') && Lsn.lsn_eqb (committed_end_lsn_ h) (committed_end_lsn_ h')
  && Scn.scn_eqb (max_scn_ h) (max_scn_ h') && (accumulated_checksum_ h =? accumulated_checksum_ h')
  && (log_id_ h =? log_id_ h') && (flag_ h =? flag_ h').

Definition update_accumulated_checksum (accumulated_checksum : Z) h : LogGroupEntryHeader :=
  mkGEH (magic_ h) (version_ h) (group_size_ h) (proposal_id_ h) (committed_end_lsn_ h) (max_scn_ h)
    accumulated_checksum (log_id_ h) (flag_ h).
Definition update_write_mode (raw_write : bool) h : LogGroupEntryHeader :=
  if raw_write then set_flag (Z.lor (flag_ h) (get_raw_write_mask_ h)) h else h.
Definition check_compatibility h : bool :=
  if negb (is_valid h) then false
  else negb ((LOG_GROUP_ENTRY_HEADER_VERSION2 =? version_ h)
             && negb (LOG_GROUP_ENTRY_HEADER_VERSION2 =? get_version_)).

(** The members in memory, without padding between them. *)
Definition memory h : list Z :=
  le_bytes 2 (magic_ h) ++ le_bytes 2 (version_ h) ++ le_bytes 4 (group_size_ h) ++ le_bytes 8 (proposal_id_ h)
  ++ le_bytes 8 (Lsn.val_ (committed_end_lsn_ h)) ++ le_bytes 8 (Scn.val_ (max_scn_ h))
  ++ le_bytes 8 (accumulated_checksum_ h) ++ le_bytes 8 (log_id_ h) ++ le_bytes 8 (flag_ h).

(** ** Serialization *)
Definition ser_bytes h : list Z :=
  be_bytes 2 (magic_ h) ++ be_bytes 2 (version_ h) ++ be_bytes 4 (group_size_ h) ++ be_bytes 8 (proposal_id_ h)
  ++ be_bytes 8 (s64 (Lsn.val_ (committed_end_lsn_ h))) ++ be_bytes 8 (s64 (Scn.val_ (max_scn_ h)))
  ++ be_bytes 8 (accumulated_checksum_ h) ++ be_bytes 8 (log_id_ h) ++ be_bytes 8 (flag_ h).

Definition serialize h (buf_len : Z) : M Wr Z :=
  guarded buf_len
    (chk! encode_i16 buf_len (magic_ h) else
     chk! encode_i16 buf_len (version_ h) else
     chk! encode_i32 buf_len (group_size_ h) else
     chk! encode_i64 buf_len (proposal_id_ h) else
     chk! Lsn.serialize (committed_end_lsn_ h) buf_len else
     chk! Scn.fixed_serialize (max_scn_ h) buf_len else
     chk! encode_i64 buf_len (accumulated_checksum_ h) else
     chk! encode_i64 buf_len (log_id_ h) else
     encode_i64 buf_len (flag_ h)).

Definition get_serialize_size h : Z :=
  encoded_length_i16 (magic_ h) + encoded_length_i16 (version_ h) + encoded_length_i32 (group_size_ h)
  + encoded_length_i64 (proposal_id_ h) + Lsn.get_serialize_size (committed_end_lsn_ h)
  + Scn.get_fixed_serialize_size (max_scn_ h) + encoded_length_i64 (accumulated_checksum_ h)
  + encoded_length_i64 (log_id_ h) + encoded_length_i64 (flag_ h).

Definition decode_fields (buf : buf_t) (data_len : Z) h : M Z (Z * LogGroupEntryHeader) :=
  let upd a b c d e f g i := mkGEH a b c d e f g i (flag_ h) in
  field (decode_i16 buf data_len) h (fun magic =>
  let upd := upd magic in
  field (decode_i16 buf data_len)
    (upd (version_ h) (group_size_ h) (proposal_id_ h) (committed_end_lsn_ h) (max_scn_ h)
       (accumulated_checksum_ h) (log_id_ h)) (fun version =>
  let upd := upd version in
  field (decode_i32 buf data_len)
    (upd (group_size_ h) (proposal_id_ h) (committed_end_lsn_ h) (max_scn_ h)
       (accumulated_checksum_ h) (log_id_ h)) (fun group_size =>
  let upd := upd group_size in
  field (decode_i64 buf data_len)
    (upd (proposal_id_ h) (committed_end_lsn_ h) (max_scn_ h) (accumulated_checksum_ h) (log_id_ h)) (fun proposal_id =>
  let upd := upd proposal_id in
  field (Lsn.deserialize buf data_len (committed_end_lsn_ h))
    (upd (committed_end_lsn_ h) (max_scn_ h) (accumulated_checksum_ h) (log_id_ h)) (fun lsn =>
  let upd := upd lsn in
  field (Scn.fixed_deserialize buf data_len (max_scn_ h))
    (upd (max_scn_ h) (accumulated_checksum_ h) (log_id_ h)) (fun scn =>
  let upd := upd scn in
  field (decode_i64 buf data_len) (upd (accumulated_checksum_ h) (log_id_ h)) (fun accum =>
  let upd := upd accum in
  field (decode_i64 buf data_len) (upd (log_id_ h)) (fun log_id =>
  field (decode_i64 buf data_len) (upd log_id) (fun flag =>
  ret (OB_SUCCESS, mkGEH magic version group_size proposal_id lsn scn accum log_id flag)))))))))).

Section checksums.
Context (XXH64 : list Z → Z → Z) (ob_crc64 : Z → list Z → Z).

(** [ob_crc64(crc, &v, sizeof(v))] of an [int64_t]. *)
Definition crc_i64 (crc v : Z) : Z := s64 (ob_crc64 (u64 crc) (le_bytes 8 v)).

Definition calculate_header_checksum_ h : Z :=
  if LOG_GROUP_ENTRY_HEADER_VERSION =? version_ h then
    let bit := Parity.parity_check16 (u16 (magic_ h)) in
    let bit := xorb bit (Parity.parity_check16 (u16 (version_ h))) in
    let bit := xorb bit (Parity.parity_check32 (u32 (group_size_ h))) in
    let bit := xorb bit (Parity.parity_check64 (u64 (proposal_id_ h))) in
    let bit := xorb bit (Parity.parity_check64 (Lsn.val_ (committed_end_lsn_ h))) in
    let bit := xorb bit (Parity.parity_check64 (Scn.get_val_for_logservice (max_scn_ h))) in
    let bit := xorb bit (Parity.parity_check64 (u64 (accumulated_checksum_ h))) in
    let bit := xorb bit (Parity.parity_check64 (u64 (log_id_ h))) in
    let tmp_flag := Z.land (flag_ h) (Z.lnot PARITY_MASK) in
    let bit := xorb bit (Parity.parity_check64 (u64 tmp_flag)) in
    if bit then 1 else 0
  else if LOG_GROUP_ENTRY_HEADER_VERSION2 =? version_ h then
    u16 (LogEntryHeader.xxhash_16 XXH64 0 (memory (set_flag (Z.land (flag_ h) (Z.lnot CRC16_MASK)) h)))
  else 0.

Definition update_header_checksum_ h : LogGroupEntryHeader :=
  let h := reset_header_checksum_ h in set_flag (Z.lor (flag_ h) (calculate_header_checksum_ h)) h.
Definition update_header_checksum h : LogGroupEntryHeader := update_header_checksum_ h.

Definition check_header_checksum_ h : bool :=
  let header_checksum := calculate_header_checksum_ h in
  if negb (LOG_GROUP_ENTRY_HEADER_VERSION2 =? version_ h) && negb (LOG_GROUP_ENTRY_HEADER_VERSION =? version_ h)
  then false
  else header_checksum =? u16 (Z.land (flag_ h) (get_header_checksum_mask_ h)).

Definition check_header_integrity h : bool := is_valid h && check_header_checksum_ h.

Definition deserialize (buf : buf_t) (data_len : Z) h : M Z (Z * LogGroupEntryHeader) :=
  if Scn.bad_buf buf data_len then ret (OB_INVALID_ARGUMENT, h)
  else Scn.commit_rpos (checked check_header_integrity (decode_fields buf data_len h)).

Definition update_log_proposal_id (log_proposal_id : Z) h : Z * LogGroupEntryHeader :=
  if Lsn.INVALID_PROPOSAL_ID =? log_proposal_id then (OB_INVALID_ARGUMENT, h)
  else (OB_SUCCESS,
        update_header_checksum_
          (mkGEH (magic_ h) (version_ h) (group_size_ h) log_proposal_id (committed_end_lsn_ h) (max_scn_ h)
             (accumulated_checksum_ h) (log_id_ h) (flag_ h))).

Definition update_committed_end_lsn (lsn : Lsn.LSN) h : Z * LogGroupEntryHeader :=
  if negb (Lsn.is_valid lsn) then (OB_INVALID_ARGUMENT, h)
  else (OB_SUCCESS,
        update_header_checksum_
          (mkGEH (magic_ h) (version_ h) (group_size_ h) (proposal_id_ h) lsn (max_scn_ h)
             (accumulated_checksum_ h) (log_id_ h) (flag_ h))).

(** ** The checksum of the entries, on the writing side

    The loop of [calculate_log_checksum_] over the pieces of the write buffer: the
    piece [curr] with index [buf_idx], the position in it, the header object the
    entries are read into and the checksum so far.  A failed [ob_assert] and an
    access outside of the buffers are [None]. *)
Section writer.
Context (mem : LogWriteBuf.memory) (w : LogWriteBuf.LogWriteBuf).

(** The bytes a piece points to, [Some None] for the null pointer. *)
Definition piece (s : LogWriteBuf.InnerStruct) : option buf_t :=
  if LogWriteBuf.buf_ s =? 0 then Some None
  else match LogWriteBuf.bytes_of mem s with Some l => Some (Some l) | None => None end.

(** [entry] is what a round does with the header it has found: at position [rpos]
    of the [len] bytes [buf], which are the piece itself or, with [tmp], the array
    the two halves of a header have been copied to; then [pos] is behind it. *)
Fixpoint checksum_loop (fuel : nat) (buf_idx : Z) (curr : LogWriteBuf.InnerStruct) (pos : Z)
    (hdr : LogEntryHeader.LogEntryHeader) (acc : Z) : option (Z * Z) :=
  match fuel with
  | O => None
  | S f =>
      let entry buf_idx curr (buf : option buf_t) (len rpos : Z) (tmp : bool) (pos : Z) :=
        match buf with
        | None => None
        | Some buf =>
            match LogEntryHeader.deserialize XXH64 buf len hdr rpos with
            | None => None
            | Some ((rc, hdr), rpos') =>
                if ob_failed rc then Some (rc, acc)
                else if negb (LogEntryHeader.check_header_integrity XXH64 hdr) then Some (OB_ERR_UNEXPECTED, acc)
                else
                  checksum_loop f buf_idx curr
                    ((if tmp then pos else rpos') + LogEntryHeader.log_size_ hdr) hdr
                    (crc_i64 acc (LogEntryHeader.data_checksum_ hdr))
            end
        end in
      let curr_buf_len := LogWriteBuf.buf_len_ curr in
      if curr_buf_len - pos <=? 0 then
        if LogWriteBuf.get_buf_count w <=? buf_idx + 1 then Some (OB_SUCCESS, acc)
        else
          let pos := pos - curr_buf_len in
          let buf_idx := buf_idx + 1 in
          match LogWriteBuf.get_write_buf buf_idx curr w with
          | None => None
          | Some (rc, curr) =>
              if pos =? LogWriteBuf.buf_len_ curr then Some (rc, acc)
              else if negb (pos <? LogWriteBuf.buf_len_ curr) then None
              else if ob_failed rc then Some (rc, acc)
              else entry buf_idx curr (piece curr) (LogWriteBuf.buf_len_ curr) pos false pos
          end
      else if curr_buf_len - pos <? LogEntryHeader.HEADER_SER_SIZE then
        let curr_copy_size := curr_buf_len - pos in
        let rest := LogEntryHeader.HEADER_SER_SIZE - curr_copy_size in
        let buf_idx := buf_idx + 1 in
        if negb (buf_idx <? LogWriteBuf.get_buf_count w) then None
        else
          match LogWriteBuf.get_write_buf buf_idx curr w with
          | None => None
          | Some (rc, next) =>
              if ob_failed rc then Some (rc, acc)
              else
                match piece curr, piece next with
                | Some (Some a), Some (Some b) =>
                    if LogWriteBuf.buf_len_ next <? rest then None
                    else entry buf_idx next
                           (Some (Some (slice a pos (Z.to_nat curr_copy_size) ++ take (Z.to_nat rest) b)))
                           LogEntryHeader.HEADER_SER_SIZE 0 true rest
                | _, _ => None
                end
          end
      else entry buf_idx curr (piece curr) curr_buf_len pos false pos
  end.

(** Each round consumes a header, so more than the total size rounds are never needed. *)
Definition checksum_fuel : nat := S (Z.to_nat (LogWriteBuf.get_total_size w)).

(** The code and [data_checksum], which is assigned on success only. *)
Definition calculate_log_checksum_ (padding_log : bool) (data_len data_checksum : Z) : option (Z * Z) :=
  if negb (LogWriteBuf.is_valid w) then Some (OB_INVALID_ARGUMENT, data_checksum)
  else if padding_log then Some (OB_SUCCESS, PADDING_LOG_DATA_CHECKSUM)
  else if negb (data_len + HEADER_SER_SIZE =? LogWriteBuf.get_total_size w) then None
  else
    match LogWriteBuf.get_write_buf 0 (LogWriteBuf.mkInner 0 0) w with
    | None => None
    | Some (rc, curr) =>
        if ob_failed rc then Some (rc, data_checksum)
        else
          match checksum_loop checksum_fuel 0 curr HEADER_SER_SIZE LogEntryHeader.empty 0 with
          | None => None
          | Some (rc, acc) => Some (rc, if ob_failed rc then data_checksum else acc)
          end
    end.

Definition generate (raw_write padding_log : bool) (data_len : Z) (max_scn : Scn.SCN) (log_id : Z)
    (committed_end_lsn : Lsn.LSN) (log_proposal_id data_checksum : Z) h : option (Z * Z * LogGroupEntryHeader) :=
  if negb (Scn.is_valid max_scn) || negb (Lsn.is_valid_log_id log_id) || negb (Lsn.is_valid committed_end_lsn)
     || (Lsn.INVALID_PROPOSAL_ID =? log_proposal_id)
  then Some (OB_INVALID_ARGUMENT, data_checksum, h)
  else
    let h := mkGEH MAGIC get_version_ (s32 data_len) log_proposal_id committed_end_lsn max_scn
               (accumulated_checksum_ h) log_id (flag_ h) in
    let h := if padding_log then set_flag (Z.lor (flag_ h) (get_padding_mask_ h)) h else h in
    let h := if raw_write then set_flag (Z.lor (flag_ h) (get_raw_write_mask_ h)) h else h in
    match calculate_log_checksum_ padding_log data_len data_checksum with
    | None => None
    | Some (rc, data_checksum) => Some (rc, data_checksum, h)
    end.
End writer.

(** ** The checksum of the entries, on the reading side *)
Fixpoint check_loop (fuel : nat) (buf : buf_t) (data_len pos : Z) (e : LogEntry.LogEntry) (acc : Z)
    : option (bool * Z) :=
  match fuel with
  | O => None
  | S f =>
      if pos <? data_len then
        match LogEntry.entry_deserialize XXH64 buf data_len e pos with
        | None => None
        | Some ((rc, e), pos) =>
            if ob_failed rc then Some (false, acc)
            else
              match LogEntry.entry_check_integrity XXH64 ob_crc64 e with
              | None => None
              | Some ok =>
                  let acc := crc_i64 acc (LogEntryHeader.data_checksum_ (LogEntry.header_ e)) in
                  if ok then check_loop f buf data_len pos e acc else Some (false, acc)
              end
        end
      else Some (true, acc)
  end.

(** The answer and [group_data_checksum], which is assigned on success only. *)
Definition check_log_checksum_ (buf : buf_t) (data_len group_data_checksum : Z) h : option (bool * Z) :=
  if bool_decide (buf = None) || (data_len <? 0) then Some (false, group_data_checksum)
  else if is_padding_log h then Some (true, PADDING_LOG_DATA_CHECKSUM)
  else
    match check_loop (S (Z.to_nat data_len)) buf data_len 0 LogEntry.empty_entry 0 with
    | None => None
    | Some (ok, acc) => Some (ok, if ok then acc else group_data_checksum)
    end.

Definition check_integrity (buf : buf_t) (buf_len group_log_checksum : Z) h : option (bool * Z) :=
  if negb (MAGIC =? magic_ h) then Some (false, group_log_checksum)
  else if negb (check_header_checksum_ h) then Some (false, group_log_checksum)
  else check_log_checksum_ buf buf_len group_log_checksum h.

(** ** Truncation: the longest prefix of entries up to [cut_scn] *)
Fixpoint truncate_loop (fuel : nat) (buf : buf_t) (data_len : Z) (cut_scn : Scn.SCN) (pos cut_pos : Z)
    (hdr : LogEntryHeader.LogEntryHeader) (tmp_max_scn : Scn.SCN) (acc : Z)
    : option (Z * (Z * Scn.SCN * Z)) :=
  match fuel with
  | O => None
  | S f =>
      if pos <? data_len then
        match LogEntryHeader.deserialize XXH64 buf data_len hdr pos with
        | None => None
        | Some ((rc, hdr), pos) =>
            if ob_failed rc then Some (rc, (cut_pos, tmp_max_scn, acc))
            else if Scn.scn_gtb (LogEntryHeader.scn_ hdr) cut_scn then Some (OB_SUCCESS, (cut_pos, tmp_max_scn, acc))
            else
              let pos := pos + LogEntryHeader.log_size_ hdr in
              truncate_loop f buf data_len cut_scn pos pos hdr
                (if negb (Scn.is_valid tmp_max_scn) || Scn.scn_gtb (LogEntryHeader.scn_ hdr) tmp_max_scn
                 then LogEntryHeader.scn_ hdr else tmp_max_scn)
                (crc_i64 acc (LogEntryHeader.data_checksum_ hdr))
        end
      else Some (OB_SUCCESS, (cut_pos, tmp_max_scn, acc))
  end.

Definition truncate (buf : buf_t) (data_len : Z) (cut_scn : Scn.SCN) (pre_accum_checksum : Z) h
    : option (Z * LogGroupEntryHeader) :=
  if bool_decide (buf = None) || (data_len <=? 0) || negb (Scn.is_valid cut_scn)
  then Some (OB_INVALID_ARGUMENT, h)
  else if is_padding_log h then
    Some (OB_SUCCESS,
          if Scn.scn_gtb (max_scn_ h) cut_scn then
            update_header_checksum
              (mkGEH (magic_ h) (version_ h) 0 (proposal_id_ h) (committed_end_lsn_ h) (max_scn_ h)
                 (accumulated_checksum_ h) (log_id_ h) (flag_ h))
          else h)
  else
    match truncate_loop (S (Z.to_nat data_len)) buf data_len cut_scn 0 0 LogEntryHeader.empty Scn.invalid_scn 0 with
    | None => None
    | Some (rc, (cut_pos, tmp_max_scn, tmp_log_checksum)) =>
        if ob_failed rc then Some (rc, h)
        else
          Some (OB_SUCCESS,
                update_header_checksum
                  (mkGEH (magic_ h) (version_ h) (s32 cut_pos) (proposal_id_ h) (committed_end_lsn_ h) tmp_max_scn
                     (crc_i64 pre_accum_checksum tmp_log_checksum) (log_id_ h) (flag_ h)))
    end.
End checksums.

(** * Serialization *)
Lemma geh_length_ser_bytes h : length (ser_bytes h) = 56%nat.
Proof. unfold ser_bytes. by rewrite !length_app, !length_be_bytes. Qed.

Lemma geh_serialize_writes h buf_len : writes buf_len (serialize h buf_len) (ser_bytes h).
Proof.
  apply guarded_writes; [by rewrite geh_length_ser_bytes|]. unfold ser_bytes.
  repeat apply writes_seq; [apply (int_writes 2)|apply (int_writes 2)|apply (int_writes 4)|apply (int_writes 8)
    |apply Lsn.lsn_writes|apply Scn.scn_fixed_writes|apply (int_writes 8)|apply (int_writes 8)|apply (int_writes 8)]; auto.
Qed.

Lemma geh_decode_fields_reads l data_len h h0 :
  wf h → Scn.is_valid (max_scn_ h) = true → reads l data_len (decode_fields (Some l) data_len h0) (ser_bytes h) h.
Proof.
  intros [H1 H2 H3 H4 H5 H6 H7 H8 H9] Hv. unfold decode_fields, ser_bytes.
  rewrite <- (app_nil_r (be_bytes 8 (flag_ h))). cbv zeta.
  eapply field_reads; [apply (int_reads 2); auto|]. eapply field_reads; [apply (int_reads 2); auto|].
  eapply field_reads; [apply (int_reads 4); auto|]. eapply field_reads; [apply (int_reads 8); auto|].
  eapply field_reads; [by apply Lsn.lsn_reads|]. eapply field_reads; [by apply Scn.scn_fixed_reads|].
  eapply field_reads; [apply (int_reads 8); auto|]. eapply field_reads; [apply (int_reads 8); auto|].
  eapply field_reads; [apply (int_reads 8); auto|]. rewrite Scn.transform_id by done. destruct h. apply ret_reads.
Qed.

Lemma lsn_steps l s : steps 8 (Lsn.deserialize (Some l) (Z.of_nat (length l)) s).
Proof.
  unfold Lsn.deserialize. cbn [Lsn.null_and_empty]. apply map_steps; [|apply commit_steps, (decode_int_steps 8); auto].
  intros [rc a]. cbn. destruct (ob_failed rc) eqn:Hf; [done|]. by apply ob_failed_false in Hf.
Qed.

Lemma geh_decode_fields_steps l h : l ≠ [] → steps 56 (decode_fields (Some l) (Z.of_nat (length l)) h).
Proof.
  intros Hl. unfold decode_fields. cbv zeta.
  apply (field_steps 2 54); [apply (decode_int_steps 2); auto|intros magic].
  apply (field_steps 2 52); [apply (decode_int_steps 2); auto|intros version].
  apply (field_steps 4 48); [apply (decode_int_steps 4); auto|intros group_size].
  apply (field_steps 8 40); [apply (decode_int_steps 8); auto|intros proposal_id].
  apply (field_steps 8 32); [apply lsn_steps|intros lsn].
  apply (field_steps 8 24); [by apply scn_fixed_steps|intros scn].
  apply (field_steps 8 16); [apply (decode_int_steps 8); auto|intros accum].
  apply (field_steps 8 8); [apply (decode_int_steps 8); auto|intros log_id].
  apply (field_steps 8 0); [apply (decode_int_steps 8); auto|intros flag].
  intros pos Hp. eexists _, _, _. split; [reflexivity|]. split; lia.
Qed.

(** * The checksum of the header *)
Section proofs.
Context (XXH64 : list Z → Z → Z).
Abbreviation checksum := (calculate_header_checksum_ XXH64).
Abbreviation update := (update_header_checksum XXH64).
Abbreviation check := (check_header_checksum_ XXH64).

Definition known_version h : Prop :=
  version_ h = LOG_GROUP_ENTRY_HEADER_VERSION ∨ version_ h = LOG_GROUP_ENTRY_HEADER_VERSION2.

Lemma geh_checksum_range h : 0 <= checksum h < 2 ^ 16.
Proof.
  unfold calculate_header_checksum_. destruct (_ =? _).
  - cbv zeta. destruct (xorb _ _); lia.
  - destruct (_ =? _); [apply (wrapu_range 16); lia|lia].
Qed.

Lemma geh_checksum_flag f h :
  Z.land f (Z.lnot (get_header_checksum_mask_ h)) = Z.land (flag_ h) (Z.lnot (get_header_checksum_mask_ h)) →
  checksum (set_flag f h) = checksum h.
Proof.
  unfold calculate_header_checksum_, get_header_checksum_mask_. cbn [version_ set_flag].
  destruct (Z.eqb_spec LOG_GROUP_ENTRY_HEADER_VERSION (version_ h)) as [E|E].
  - rewrite <- E. cbn [Z.eqb Pos.eqb LOG_GROUP_ENTRY_HEADER_VERSION2 LOG_GROUP_ENTRY_HEADER_VERSION].
    cbv zeta. cbn [magic_ group_size_ proposal_id_ committed_end_lsn_ max_scn_ accumulated_checksum_ log_id_ flag_
      set_flag]. by intros ->.
  - destruct (Z.eqb_spec LOG_GROUP_ENTRY_HEADER_VERSION2 (version_ h)) as [E2|E2]; [|done].
    cbn [flag_ set_flag]. by intros ->.
Qed.

#[local] Instance geh_checksum : HeaderChecksum LogGroupEntryHeader := {
  hc_flag := flag_; hc_set := set_flag; hc_mask := get_header_checksum_mask_; hc_sum := checksum; hc_known := known_version
}.

#[local] Instance geh_checksum_laws : HeaderChecksumLaws LogGroupEntryHeader.
Proof.
  constructor; [done|done|done|apply geh_checksum_flag|].
  intros h [E|E]; cbn [hc_sum hc_mask geh_checksum]; unfold get_header_checksum_mask_; rewrite E; cbn [Z.eqb Pos.eqb
    LOG_GROUP_ENTRY_HEADER_VERSION2 LOG_GROUP_ENTRY_HEADER_VERSION].
  - assert (0 <= checksum h < 2 ^ 1) as Hc.
    { unfold calculate_header_checksum_. rewrite E, Z.eqb_refl. cbv zeta. destruct (xorb _ _); lia. }
    by apply (mask_small _ 1).
  - apply (mask_small _ 16); [lia|]. apply geh_checksum_range.
Qed.

Lemma geh_update_hc h : known_version h → update h = hc_update h.
Proof.
  intros [E|E]; unfold update_header_checksum, update_header_checksum_, reset_header_checksum_, hc_update;
    cbn [hc_mask geh_checksum]; unfold get_header_checksum_mask_; by rewrite E.
Qed.

Lemma geh_update_flag h :
  known_version h →
  update h = set_flag (Z.lor (Z.land (flag_ h) (Z.lnot (get_header_checksum_mask_ h))) (checksum h)) h.
Proof. intros Hv. rewrite geh_update_hc by done. exact (hc_update_flag h). Qed.

Lemma geh_update_checks h : known_version h → check (update h) = true.
Proof.
  intros Hv. destruct (hc_update_stored (HC := geh_checksum) h Hv) as [E1 E2]. rewrite <- geh_update_hc in E1, E2 by done.
  cbn [hc_sum hc_flag hc_mask geh_checksum] in E1, E2. unfold check_header_checksum_. rewrite E1.
  rewrite geh_update_flag in * by done.
  change (get_header_checksum_mask_ (set_flag ?f h)) with (get_header_checksum_mask_ h).
  rewrite E2, wrapu_small by apply geh_checksum_range. cbn [version_ set_flag]. rewrite Z.eqb_refl.
  by destruct Hv as [-> | ->].
Qed.

Lemma geh_update_mask h m :
  known_version h → Z.land m (get_header_checksum_mask_ h) = 0 → Z.land (flag_ (update h)) m = Z.land (flag_ h) m.
Proof.
  intros Hv Hm. rewrite geh_update_hc by done. by apply (hc_update_land (HC := geh_checksum)).
Qed.

Lemma update_padding h : known_version h → is_padding_log (update h) = is_padding_log h.
Proof.
  intros Hv. unfold is_padding_log.
  replace (get_padding_mask_ (update h)) with (get_padding_mask_ h) by (by rewrite geh_update_flag).
  rewrite geh_update_mask; [done|done|]. unfold get_padding_mask_, get_header_checksum_mask_.
  by destruct Hv as [-> | ->].
Qed.

Lemma geh_update_wf h : known_version h → wf h → wf (update h).
Proof.
  intros Hv [H1 H2 H3 H4 H5 H6 H7 H8 H9]. rewrite geh_update_flag by done. constructor; try done.
  cbn [flag_ set_flag]. apply lor_in_s; [lia| |].
  - apply land_in_s; [lia|done|]. unfold get_header_checksum_mask_, in_s, Z.lnot.
    destruct Hv as [-> | ->]; vm_compute; split; congruence.
  - pose proof (geh_checksum_range h). unfold in_s. change (2 ^ (64 - 1)) with (2 ^ 63). lia.
Qed.

Lemma update_valid h : is_valid (update h) = is_valid h.
Proof.
  unfold update_header_checksum, update_header_checksum_, reset_header_checksum_.
  destruct (_ =? _); [done|]. by destruct (_ =? _).
Qed.

Lemma geh_deserialize_reads l data_len h h0 :
  wf h → check_header_integrity XXH64 h = true →
  reads l data_len (deserialize XXH64 (Some l) data_len h0) (ser_bytes h) h.
Proof.
  intros Hw Hc. apply guard_reads; [by rewrite geh_length_ser_bytes|].
  apply Scn.commit_reads, checked_reads; [done|]. apply geh_decode_fields_reads; [done|].
  unfold check_header_integrity, is_valid in Hc. by bool_to_prop.
Qed.

(** C39: round trip of a group header that passes its check, with the rest of the
    buffer kept; on arbitrary bytes [deserialize] stays inside the buffer, succeeds
    only with a header that passes its check, and a failure does not move. *)
Theorem geh_codec h h0 l pos :
  0 <= pos →
  (wf h → check_header_integrity XXH64 h = true → pos + get_serialize_size h <= Z.of_nat (length l) →
   ∃ l', serialize h (Z.of_nat (length l)) (mkWr (Some l) pos)
         = Some (OB_SUCCESS, mkWr (Some l') (pos + HEADER_SER_SIZE))
     ∧ deserialize XXH64 (Some l') (Z.of_nat (length l)) h0 pos = Some ((OB_SUCCESS, h), pos + HEADER_SER_SIZE)
     ∧ length l' = length l
     ∧ ∀ i, (i < Z.to_nat pos)%nat ∨ (Z.to_nat (pos + HEADER_SER_SIZE) <= i)%nat → l' !! i = l !! i)
  ∧ (∃ rc h' pos', deserialize XXH64 (Some l) (Z.of_nat (length l)) h0 pos = Some ((rc, h'), pos')
     ∧ (rc = OB_SUCCESS ∧ check_header_integrity XXH64 h' = true ∧ pos' = pos + HEADER_SER_SIZE
        ∨ rc ≠ OB_SUCCESS ∧ pos' = pos)).
Proof.
  intros Hp. split.
  - intros Hw Hc Hl. change (get_serialize_size h) with 56 in Hl. pose proof (geh_length_ser_bytes h) as Hlen.
    destruct (write_read (serialize h (Z.of_nat (length l)))
      (fun b => deserialize XXH64 b (Z.of_nat (length l)) h0) (ser_bytes h) h l pos)
      as (l' & H1 & H2 & H3 & H4); [apply geh_serialize_writes|intros; by apply geh_deserialize_reads|done|lia|].
    rewrite Hlen in *. exists l'. split_and!; try done. intros i Hi. apply H4. unfold HEADER_SER_SIZE in Hi. lia.
  - unfold deserialize, Scn.bad_buf. destruct (Z.leb_spec (Z.of_nat (length l)) 0).
    { eexists _, _, _. split; [reflexivity|]. by right. }
    assert (l ≠ []) as Hl by (intros ->; cbn in *; lia).
    by apply (checked_safe 56), Hp; apply geh_decode_fields_steps.
Qed.
End proofs.

(** * Witness *)
Definition sample : LogGroupEntryHeader :=
  update_header_checksum LogEntryHeader.sum_hash
    (mkGEH MAGIC LOG_GROUP_ENTRY_HEADER_VERSION2 35 1 (Lsn.mkLSN 0) (Scn.mkSCN 9) 7 1 0).

Lemma geh_codec_witness :
  ∃ l', serialize sample 60 (mkWr (Some (replicate 60 0)) 2) = Some (OB_SUCCESS, mkWr (Some l') 58)
    ∧ deserialize LogEntryHeader.sum_hash (Some l') 60 empty 2 = Some ((OB_SUCCESS, sample), 58).
Proof.
  destruct (geh_codec LogEntryHeader.sum_hash sample empty (replicate 60 0) 2 ltac:(lia)) as [H _].
  destruct H as (l' & H1 & H2 & _); [constructor; vm_compute; split; congruence|vm_compute; reflexivity
    |vm_compute; congruence|].
  exists l'. split; [exact H1|exact H2].
Defined.
End LogGroupEntryHeader.
