(* ===== verification/LogGroupChecksum.v ===== *)
(** The checksum of a group of entries: the writing side, which walks over the pieces
    of the ring buffer, and the reading side, which walks over the group as it has
    been received, compute the same value; truncation of a group. *)
From S2P Require Import Prelude Serialization Scn Lsn Parity Codec LogBaseHeader LogEntryHeader LogEntry LogWriteBuf LogGroupEntryHeader.
Import Ser Codec.

Module LogGroupChecksum.
Import LogGroupEntryHeader.
Abbreviation EH := LogEntryHeader.LogEntryHeader.

(** * Groups as lists of entries *)
Definition Entry : Set := (EH * list Z)%type.
Implicit Type (e : Entry) (es : list Entry).

Fixpoint body es : list Z :=
  match es with [] => [] | e :: es => LogEntry.entry_bytes e.1 e.2 ++ body es end.

Lemma length_body e es :
  length (body (e :: es)) = (32 + length e.2 + length (body es))%nat.
Proof. cbn [body]. by rewrite length_app, LogEntry.length_entry_bytes. Qed.

Lemma body_app es es' : body (es ++ es') = body es ++ body es'.
Proof. induction es as [|e es IH]; cbn [body app]; [done|]. by rewrite IH, app_assoc. Qed.

Lemma length_entries es : (length es <= length (body es))%nat.
Proof. induction es as [|e es IH]; [done|]. rewrite length_body. cbn [length]. lia. Qed.

Section checksums.
Context (XXH64 : list Z → Z → Z) (ob_crc64 : Z → list Z → Z).

(** An entry the allocator and the writer have put into the group: the header
    announces the data and passes its check. *)
Definition good e : Prop := LogEntry.announces e.1 e.2 ∧ LogEntryHeader.check_header_integrity XXH64 e.1 = true.

(** The header also carries the checksum of the data. *)
Definition sealed e : Prop :=
  good e ∧ LogEntryHeader.is_padding_log_ e.1 = false
  ∧ LogEntryHeader.data_checksum_ e.1 = s64 (ob_crc64 0 e.2).

Fixpoint checksum (acc : Z) es : Z :=
  match es with
  | [] => acc
  | e :: es => checksum (crc_i64 ob_crc64 acc (LogEntryHeader.data_checksum_ e.1)) es
  end.

Lemma good_size e : good e → LogEntryHeader.log_size_ e.1 = Z.of_nat (length e.2) ∧ 0 < Z.of_nat (length e.2).
Proof. intros [(_ & H1 & H2) _]. lia. Qed.

(** Reading the header of the first entry of a group. *)
Lemma header_reads l data_len e es pos hdr :
  good e → 0 <= pos → pos + 32 <= data_len →
  slice l pos 32 = LogEntryHeader.ser_bytes e.1 →
  LogEntryHeader.deserialize XXH64 (Some l) data_len hdr pos = Some ((OB_SUCCESS, e.1), pos + 32).
Proof.
  intros [(Hw & _) Hc] Hp Hd Hs. pose proof (LogEntryHeader.leh_length_ser_bytes e.1) as Hlen.
  pose proof (LogEntryHeader.leh_deserialize_reads XXH64 l data_len e.1 hdr Hw Hc pos Hp) as Hr.
  rewrite Hlen in Hr. by apply Hr.
Qed.

Lemma body_slices l pos e es :
  0 <= pos → slice l pos (length (body (e :: es))) = body (e :: es) →
  slice l pos 32 = LogEntryHeader.ser_bytes e.1
  ∧ slice l (pos + 32 + Z.of_nat (length e.2)) (length (body es)) = body es.
Proof.
  intros Hp Hs. cbn [body] in Hs. destruct (slice_app_inv _ _ _ _ Hp Hs) as [S1 S2].
  rewrite LogEntry.length_entry_bytes in S2.
  destruct (slice_app_inv l pos (LogEntryHeader.ser_bytes e.1) e.2 Hp S1) as [S3 _].
  rewrite LogEntryHeader.leh_length_ser_bytes in S3. split; [done|].
  by replace (pos + 32 + Z.of_nat (length e.2)) with (pos + Z.of_nat (32 + length e.2)) by lia.
Qed.

(** * The reading side *)
Lemma check_loop_checksum es l data_len pos le0 acc fuel :
  Forall sealed es → 0 <= pos → pos + Z.of_nat (length (body es)) = data_len →
  data_len <= Z.of_nat (length l) →
  slice l pos (length (body es)) = body es → (length es < fuel)%nat →
  check_loop XXH64 ob_crc64 fuel (Some l) data_len pos le0 acc = Some (true, checksum acc es).
Proof.
  intros Hes. revert pos le0 acc fuel. induction Hes as [|e es He Hes IH]; intros pos le0 acc fuel Hp Hd Hl Hs Hf;
    (destruct fuel as [|fuel]; [cbn in Hf; lia|]); cbn [check_loop].
  { rewrite (proj2 (Z.ltb_ge _ _)); [done|]. cbn in Hd. lia. }
  destruct He as (Hg & Hpad & Hcrc). pose proof (good_size e Hg) as [Hsz Hpos]. destruct Hg as [Ha Hc].
  rewrite length_body in Hd. rewrite (proj2 (Z.ltb_lt _ _)) by lia.
  pose proof Hs as Hs'. cbn [body] in Hs'. destruct (slice_app_inv _ _ _ _ Hp Hs') as [S1 S2].
  pose proof (LogEntry.length_entry_bytes e.1 e.2) as Hle.
  destruct (LogEntry.entry_reads XXH64 l data_len e.1 e.2 le0 pos Ha Hc Hp ltac:(lia) S1) as [Hr Hdata].
  rewrite Hr. change (ob_failed OB_SUCCESS) with false. cbv iota.
  rewrite (LogEntry.entry_checks XXH64 ob_crc64 e.1 e.2 l (pos + 32) Ha Hc Hpad Hcrc Hdata).
  cbv zeta. cbn [LogEntry.header_ checksum]. cbn [length] in Hf.
  rewrite IH; [done|lia|lia|done| |lia]. rewrite Hle in S2.
  by replace (pos + 32 + LogEntryHeader.log_size_ e.1) with (pos + Z.of_nat (32 + length e.2)) by lia.
Qed.

(** * The writing side *)
Section writer.
Context (mem : LogWriteBuf.memory).

(** The piece [p] holds the bytes [l]. *)
Definition holds (p : LogWriteBuf.InnerStruct) (l : list Z) : Prop :=
  piece mem p = Some (Some l) ∧ Z.of_nat (length l) = LogWriteBuf.buf_len_ p.

(** A round that finds the whole header of the next entry in the current piece. *)
Lemma loop_header w f buf_idx p l pos hdr acc e es :
  good e → holds p l → 0 <= pos → pos + 32 <= Z.of_nat (length l) → slice l pos 32 = LogEntryHeader.ser_bytes e.1 →
  checksum_loop XXH64 ob_crc64 mem w (S f) buf_idx p pos hdr acc
  = checksum_loop XXH64 ob_crc64 mem w f buf_idx p (pos + 32 + Z.of_nat (length e.2)) e.1
      (crc_i64 ob_crc64 acc (LogEntryHeader.data_checksum_ e.1)).
Proof.
  intros Hg [Hp1 Hp2] Hp Hl Hs. cbn [checksum_loop]. cbv zeta. unfold LogEntryHeader.HEADER_SER_SIZE.
  rewrite (proj2 (Z.leb_gt _ _)), (proj2 (Z.ltb_ge _ _)) by lia. rewrite Hp1.
  rewrite (header_reads l _ e es pos hdr) by (done || lia).
  change (ob_failed OB_SUCCESS) with false. cbv iota. pose proof Hg as [_ Hc]. rewrite Hc. cbn [negb].
  by rewrite (proj1 (good_size e Hg)).
Qed.

(** The loop in the last piece. *)
Lemma loop_last es w fuel buf_idx p l pos hdr acc :
  Forall good es → holds p l → LogWriteBuf.get_buf_count w <= buf_idx + 1 →
  0 <= pos → pos + Z.of_nat (length (body es)) = Z.of_nat (length l) →
  slice l pos (length (body es)) = body es → (length es < fuel)%nat →
  checksum_loop XXH64 ob_crc64 mem w fuel buf_idx p pos hdr acc = Some (OB_SUCCESS, checksum acc es).
Proof.
  intros Hes Hh Hc. revert pos hdr acc fuel.
  induction Hes as [|e es He Hes IH]; intros pos hdr acc fuel Hp Hl Hs Hf;
    (destruct fuel as [|fuel]; [cbn in Hf; lia|]).
  { cbn [checksum_loop]. cbv zeta. cbn in Hl. destruct Hh as [_ Hlen].
    by rewrite !(proj2 (Z.leb_le _ _)) by lia. }
  destruct (body_slices l pos e es Hp Hs) as [S1 S2]. rewrite length_body in Hl.
  rewrite (loop_header w fuel buf_idx p l pos hdr acc e es) by (done || lia).
  cbn [checksum]. cbn [length] in Hf. apply IH; [lia|lia|done|lia].
Qed.

(** Two pieces: the position counts from the start of the first one and may lie in
    the second. *)
Section two_pieces.
Context (p1 p2 : LogWriteBuf.InnerStruct) (l1 l2 : list Z).
Context (Hl1 : holds p1 l1) (Hl2 : holds p2 l2) (Hne : l2 ≠ []).
Abbreviation w := [p1; p2].
Abbreviation loop := (checksum_loop XXH64 ob_crc64 mem w).

Lemma slice_right pos n :
  Z.of_nat (length l1) <= pos → slice (l1 ++ l2) pos n = slice l2 (pos - Z.of_nat (length l1)) n.
Proof.
  intros Hp. unfold slice. rewrite drop_app_ge by lia. do 2 f_equal. lia.
Qed.

(** Switching to the second piece. *)
Lemma loop_switch f pos hdr acc :
  Z.of_nat (length l1) <= pos → pos - Z.of_nat (length l1) + 32 <= Z.of_nat (length l2) →
  loop (S f) 0 p1 pos hdr acc = loop (S f) 1 p2 (pos - Z.of_nat (length l1)) hdr acc.
Proof.
  destruct Hl1 as [_ E1], Hl2 as [_ E2]. intros Ha Hb. cbn [checksum_loop]. cbv zeta.
  rewrite <- E1, <- E2. rewrite (proj2 (Z.leb_le (_ - pos) 0)) by lia.
  change (LogWriteBuf.get_buf_count w <=? 0 + 1) with false. cbv iota.
  change (LogWriteBuf.get_write_buf (0 + 1) p1 w) with (Some (OB_SUCCESS, p2)). cbv iota.
  rewrite <- E2. rewrite (proj2 (Z.eqb_neq _ _)), (proj2 (Z.ltb_lt (pos - _) _)) by lia.
  change (ob_failed OB_SUCCESS) with false. cbn [negb].
  rewrite (proj2 (Z.leb_gt (Z.of_nat (length l2) - _) 0)) by lia.
  unfold LogEntryHeader.HEADER_SER_SIZE.
  by rewrite (proj2 (Z.ltb_ge (Z.of_nat (length l2) - (pos - Z.of_nat (length l1))) 32)) by lia.
Qed.

(** A header cut by the end of the first piece. *)
Lemma loop_cut f pos hdr acc e es :
  good e → 0 <= pos < Z.of_nat (length l1) → Z.of_nat (length l1) < pos + 32 →
  pos + 32 <= Z.of_nat (length l1 + length l2) → slice (l1 ++ l2) pos 32 = LogEntryHeader.ser_bytes e.1 →
  loop (S f) 0 p1 pos hdr acc
  = loop f 1 p2 (pos + 32 - Z.of_nat (length l1) + Z.of_nat (length e.2)) e.1
      (crc_i64 ob_crc64 acc (LogEntryHeader.data_checksum_ e.1)).
Proof.
  destruct Hl1 as [E1 L1], Hl2 as [E2 L2]. intros Hg Hp Hc Hr Hs. cbn [checksum_loop]. cbv zeta.
  rewrite <- L1. unfold LogEntryHeader.HEADER_SER_SIZE.
  rewrite (proj2 (Z.leb_gt _ _)), (proj2 (Z.ltb_lt _ _)) by lia.
  change (negb (0 + 1 <? LogWriteBuf.get_buf_count w)) with false. cbv iota.
  change (LogWriteBuf.get_write_buf (0 + 1) p1 w) with (Some (OB_SUCCESS, p2)). cbv iota.
  change (ob_failed OB_SUCCESS) with false. cbv iota. rewrite E1, E2, <- L2.
  rewrite (proj2 (Z.ltb_ge _ _)) by lia. set (tmp := slice l1 _ _ ++ take _ l2).
  assert (tmp = slice (l1 ++ l2) pos 32) as Htmp.
  { unfold tmp, slice. rewrite drop_app_le by lia. rewrite take_app, length_drop.
    rewrite (take_ge (drop _ l1) 32) by (rewrite length_drop; lia).
    rewrite take_ge by (rewrite length_drop; lia). f_equal. f_equal. lia. }
  assert (length tmp = 32%nat) as Hlen by (rewrite Htmp, Hs; apply LogEntryHeader.leh_length_ser_bytes).
  rewrite (header_reads tmp 32 e es 0 hdr); [|done|lia|lia|].
  2: { rewrite <- Hs, <- Htmp. unfold slice. rewrite drop_0. apply take_ge. lia. }
  cbv iota. change (ob_failed OB_SUCCESS) with false. cbv iota. pose proof Hg as [_ Hck]. rewrite Hck. cbn [negb].
  rewrite (proj1 (good_size e Hg)). f_equal. lia.
Qed.

Lemma loop_two es pos hdr acc fuel :
  Forall good es → 0 <= pos → pos + Z.of_nat (length (body es)) = Z.of_nat (length (l1 ++ l2)) →
  slice (l1 ++ l2) pos (length (body es)) = body es → (length es < fuel)%nat →
  loop fuel 0 p1 pos hdr acc = Some (OB_SUCCESS, checksum acc es).
Proof.
  intros Hes. revert pos hdr acc fuel. assert (0 < length l2)%nat as Hn by (destruct l2; [done|cbn; lia]).
  induction Hes as [|e es He Hes IH]; intros pos hdr acc fuel Hp Hl Hs Hf;
    (destruct fuel as [|fuel]; [cbn in Hf; lia|]); rewrite length_app in Hl.
  { destruct Hl1 as [_ E1], Hl2 as [_ E2]. cbn [checksum_loop]. cbv zeta. cbn in Hl. rewrite <- E1.
    rewrite (proj2 (Z.leb_le _ _)) by lia. change (LogWriteBuf.get_buf_count w <=? 0 + 1) with false. cbv iota.
    change (LogWriteBuf.get_write_buf (0 + 1) p1 w) with (Some (OB_SUCCESS, p2)). cbv iota.
    by rewrite (proj2 (Z.eqb_eq _ _)) by lia. }
  destruct (body_slices (l1 ++ l2) pos e es Hp Hs) as [S1 S2]. pose proof Hl as Hl'. rewrite length_body in Hl'.
  pose proof (good_size e He) as [_ Hpos].
  destruct (decide (Z.of_nat (length l1) <= pos)) as [Hsw|Hsw].
  { rewrite loop_switch by lia. apply (loop_last (e :: es) w (S fuel) 1 p2 l2); [by constructor|done|done|lia|lia| |done].
    by rewrite <- slice_right. }
  cbn [checksum]. cbn [length] in Hf. destruct (decide (Z.of_nat (length l1) < pos + 32)) as [Hcut|Hcut].
  - rewrite (loop_cut fuel pos hdr acc e es) by (done || lia).
    apply (loop_last es w fuel 1 p2 l2); [done|done|done|lia|lia| |lia].
    rewrite slice_right in S2 by lia. rewrite <- S2 at 2. f_equal. lia.
  - rewrite (loop_header w fuel 0 p1 l1 pos hdr acc e es); [|done|done|lia|lia|].
    + apply IH; [lia|rewrite length_app; lia|done|lia].
    + rewrite <- S1. unfold slice. rewrite drop_app_le by lia. by rewrite take_app_le by (rewrite length_drop; lia).
Qed.
End two_pieces.

(** The pieces of a buffer that holds the group. *)
Lemma pieces_hold w bs :
  LogWriteBuf.wf w → Forall (fun p => LogWriteBuf.buf_ p ≠ 0) w → LogWriteBuf.contents mem w = Some bs →
  ∃ ls, Forall2 holds w ls ∧ bs = concat ls ∧ Forall (fun l => l ≠ []) ls.
Proof.
  intros Hw. revert bs. induction Hw as [|p w Hp Hw IH]; intros bs Hn; cbn [LogWriteBuf.contents].
  { intros [= <-]. exists []. by split_and!. }
  inversion Hn as [|? ? Hn1 Hn2]; subst. destruct (LogWriteBuf.bytes_of mem p) as [a|] eqn:Ea; [|done].
  destruct (LogWriteBuf.contents mem w) as [b|]; [|done]. intros [= <-].
  destruct (IH b Hn2 eq_refl) as (ls & H1 & -> & H3). exists (a :: ls).
  pose proof (LogWriteBuf.load_length _ _ _ _ Ea) as Hla. split_and!; [constructor; [|done]|done|constructor; [|done]].
  - split; [|lia]. unfold piece. by rewrite (proj2 (Z.eqb_neq _ _)), Ea.
  - intros ->. cbn in Hla. lia.
Qed.

(** The writing side: in one piece or in two, cut anywhere. *)
Lemma calculate_checksum w gh es d :
  LogWriteBuf.wf w → Forall (fun p => LogWriteBuf.buf_ p ≠ 0) w → (1 <= length w <= 2)%nat →
  length gh = 56%nat → LogWriteBuf.contents mem w = Some (gh ++ body es) → Forall good es →
  calculate_log_checksum_ XXH64 ob_crc64 mem w false (Z.of_nat (length (body es))) d
  = Some (OB_SUCCESS, checksum 0 es).
Proof.
  intros Hw Hn Hc Hg Hb Hes. pose proof (LogWriteBuf.contents_length _ _ _ Hw Hb) as Ht.
  rewrite length_app, Hg in Ht. destruct (pieces_hold w _ Hw Hn Hb) as (ls & Hh & Hcat & Hne).
  assert (slice (gh ++ body es) 56 (length (body es)) = body es) as Hs.
  { unfold slice. change (Z.to_nat 56) with 56%nat. rewrite <- Hg, drop_app_length. by apply take_ge. }
  pose proof (length_entries es). unfold calculate_log_checksum_, checksum_fuel, HEADER_SER_SIZE.
  destruct w as [|p1 [|p2 [|]]]; [cbn in Hc; lia| | |cbn in Hc; lia];
    inversion Hh as [|? l1 ? ? Hl1 Hh']; subst; cbn [LogWriteBuf.is_valid LogWriteBuf.get_buf_count length Z.ltb negb];
    rewrite (proj2 (Z.eqb_eq _ _)) by lia; cbn [negb].
  - inversion Hh'; subst. cbn [concat] in Hcat. rewrite app_nil_r in Hcat.
    change (LogWriteBuf.get_write_buf 0 _ [p1]) with (Some (OB_SUCCESS, p1)). cbv iota.
    change (ob_failed OB_SUCCESS) with false. cbv iota.
    rewrite (loop_last es [p1] _ 0 p1 (gh ++ body es)); [done|done|by rewrite Hcat|done|lia| |done|lia].
    rewrite length_app. lia.
  - inversion Hh' as [|? l2 ? ? Hl2 Hh'']; subst. inversion Hh''; subst. cbn [concat] in Hcat. rewrite app_nil_r in Hcat.
    inversion Hne as [|? ? Hne1 Hne']; subst. inversion Hne' as [|? ? Hne2 _]; subst.
    change (LogWriteBuf.get_write_buf 0 _ [p1; p2]) with (Some (OB_SUCCESS, p1)). cbv iota.
    change (ob_failed OB_SUCCESS) with false. cbv iota.
    rewrite (loop_two p1 p2 l1 l2 Hl1 Hl2 Hne2 es); rewrite <- ?Hcat; [done|done|lia| |done|lia].
    rewrite length_app. lia.
Qed.
End writer.

Lemma check_checksum l es d h :
  is_padding_log h = false → Forall sealed es → take (length (body es)) l = body es →
  check_log_checksum_ XXH64 ob_crc64 (Some l) (Z.of_nat (length (body es))) d h = Some (true, checksum 0 es).
Proof.
  intros Hp Hes Hl. unfold check_log_checksum_. rewrite bool_decide_eq_false_2, Hp by done.
  rewrite (proj2 (Z.ltb_ge _ _)) by lia. cbn [orb]. pose proof (length_entries es).
  assert (length (body es) <= length l)%nat by (rewrite <- Hl at 1; rewrite length_take; lia).
  rewrite (check_loop_checksum es l); [done|done|lia|lia|lia|done|lia].
Qed.

Lemma sealed_good es : Forall sealed es → Forall good es.
Proof. intros Hes. eapply Forall_impl; [exact Hes|]. by intros e [H _]. Qed.

(** both sides agree.  For a group that lies in one piece of memory or in two,
    cut at any byte (also inside of the group header or of the header of an entry),
    [calculate_log_checksum_] on the pieces and [check_log_checksum_] on the bytes of
    the entries succeed and give the same value, the fold of the entries'
    checksums. *)
Theorem group_checksum_split mem w gh es l d d' h :
  LogWriteBuf.wf w → Forall (fun p => LogWriteBuf.buf_ p ≠ 0) w → (1 <= length w <= 2)%nat →
  length gh = 56%nat → LogWriteBuf.contents mem w = Some (gh ++ body es) → Forall sealed es →
  is_padding_log h = false → take (length (body es)) l = body es →
  calculate_log_checksum_ XXH64 ob_crc64 mem w false (Z.of_nat (length (body es))) d = Some (OB_SUCCESS, checksum 0 es)
  ∧ check_log_checksum_ XXH64 ob_crc64 (Some l) (Z.of_nat (length (body es))) d' h = Some (true, checksum 0 es).
Proof.
  intros. split; [|by apply check_checksum]. by apply (calculate_checksum mem w gh); [..|apply sealed_good].
Qed.

(** * Truncation *)

(** The entries before the first one later than [cut]. *)
Fixpoint kept (cut : Scn.SCN) es : list Entry :=
  match es with
  | [] => []
  | e :: es => if Scn.scn_gtb (LogEntryHeader.scn_ e.1) cut then [] else e :: kept cut es
  end.

Definition later (m : Scn.SCN) e : Scn.SCN :=
  if negb (Scn.is_valid m) || Scn.scn_gtb (LogEntryHeader.scn_ e.1) m then LogEntryHeader.scn_ e.1 else m.

Lemma truncate_loop_kept es l data_len cut pos hdr m acc fuel :
  Forall good es → 0 <= pos → pos + Z.of_nat (length (body es)) = data_len →
  slice l pos (length (body es)) = body es → (length es < fuel)%nat →
  truncate_loop XXH64 ob_crc64 fuel (Some l) data_len cut pos pos hdr m acc
  = Some (OB_SUCCESS, (pos + Z.of_nat (length (body (kept cut es))), foldl later m (kept cut es),
                       checksum acc (kept cut es))).
Proof.
  intros Hes. revert pos hdr m acc fuel. induction Hes as [|e es He Hes IH]; intros pos hdr m acc fuel Hp Hd Hs Hf;
    (destruct fuel as [|fuel]; [cbn in Hf; lia|]); cbn [truncate_loop].
  { cbn in Hd. rewrite (proj2 (Z.ltb_ge _ _)) by lia. cbn. by rewrite Z.add_0_r. }
  destruct (body_slices l pos e es Hp Hs) as [S1 S2]. pose proof (good_size e He) as [Hsz Hpos].
  rewrite length_body in Hd. rewrite (proj2 (Z.ltb_lt _ _)) by lia.
  rewrite (header_reads l data_len e es pos hdr) by (done || lia). change (ob_failed OB_SUCCESS) with false.
  cbv iota zeta. cbn [kept]. destruct (Scn.scn_gtb _ cut).
  { cbn. by rewrite Z.add_0_r. }
  cbn [length] in Hf. rewrite Hsz, IH; [|lia|lia|done|lia]. rewrite length_body. cbn [foldl checksum].
  do 4 f_equal. lia.
Qed.

Lemma later_rank m e : Scn.rank (later m e) = Z.max (Scn.rank m) (Scn.rank (LogEntryHeader.scn_ e.1))
  ∨ Scn.is_valid m = false ∧ later m e = LogEntryHeader.scn_ e.1.
Proof.
  unfold later. rewrite Scn.gtb_ltb, Scn.ltb_rank. destruct (Scn.is_valid m); [left|by right].
  cbn [negb orb]. destruct (Z.ltb_spec (Scn.rank m) (Scn.rank (LogEntryHeader.scn_ e.1))); lia.
Qed.

(** The timestamp of the kept part is the latest of its entries. *)
Lemma later_latest es m :
  Forall (fun e => Scn.is_valid (LogEntryHeader.scn_ e.1) = true) es → es ≠ [] ∨ Scn.is_valid m = true →
  let r := foldl later m es in
  Scn.is_valid r = true
  ∧ (r = m ∨ ∃ e, e ∈ es ∧ r = LogEntryHeader.scn_ e.1)
  ∧ (∀ e, e ∈ es → Scn.scn_leb (LogEntryHeader.scn_ e.1) r = true)
  ∧ (Scn.is_valid m = true → Scn.scn_leb m r = true).
Proof.
  intros Hes. revert m. induction Hes as [|e es He Hes IH]; intros m Hm; cbn [foldl].
  { destruct Hm as [|Hm]; [done|]. split_and!; [done|by left|intros e He; by apply elem_of_nil in He|].
    intros _. rewrite Scn.leb_rank. apply Z.leb_le. lia. }
  assert (Scn.is_valid (later m e) = true) as Hv.
  { unfold later. destruct (Scn.is_valid m) eqn:E; cbn [negb orb]; [|done]. by destruct (Scn.scn_gtb _ m). }
  destruct (IH (later m e) (or_intror Hv)) as (H1 & H2 & H3 & H4). specialize (H4 Hv).
  rewrite Scn.leb_rank in H4. apply Z.leb_le in H4.
  assert (Scn.rank (LogEntryHeader.scn_ e.1) <= Scn.rank (later m e)
          ∧ (Scn.is_valid m = true → Scn.rank m <= Scn.rank (later m e))) as [R1 R2].
  { destruct (later_rank m e) as [->|[Hi ->]]; split; try lia. by rewrite Hi. }
  split_and!; [done| | |].
  - destruct H2 as [-> |(e' & He' & ->)]; [|right; exists e'; split; [by right|done]].
    unfold later. destruct (negb _ || _); [right; exists e; split; [by left|done]|by left].
  - intros e' [-> |He']%elem_of_cons; [|by apply H3]. rewrite Scn.leb_rank. apply Z.leb_le. lia.
  - intros Hm'. specialize (R2 Hm'). rewrite Scn.leb_rank. apply Z.leb_le. lia.
Qed.

Lemma kept_prefix cut es : ∃ rest, es = kept cut es ++ rest.
Proof.
  induction es as [|e es [rest IH]]; cbn [kept]; [by exists []|].
  destruct (Scn.scn_gtb _ cut); [by exists (e :: es)|]. exists rest. cbn. by rewrite <- IH.
Qed.

Lemma kept_cut cut es e : e ∈ kept cut es → Scn.scn_leb (LogEntryHeader.scn_ e.1) cut = true.
Proof.
  induction es as [|e' es IH]; cbn [kept]; [by intros ?%elem_of_nil|].
  destruct (Scn.scn_gtb _ cut) eqn:E; [by intros ?%elem_of_nil|]. intros [-> |He]%elem_of_cons; [|auto].
  rewrite Scn.gtb_ltb, Scn.ltb_rank in E. apply Z.ltb_ge in E. rewrite Scn.leb_rank. by apply Z.leb_le.
Qed.

Lemma good_scn es : Forall good es → Forall (fun e => Scn.is_valid (LogEntryHeader.scn_ e.1) = true) es.
Proof.
  intros Hes. eapply Forall_impl; [exact Hes|]. intros e [_ Hc].
  unfold LogEntryHeader.check_header_integrity, LogEntryHeader.is_valid in Hc. by bool_to_prop.
Qed.

(** Truncation of a group at a timestamp keeps the entries before the first
    later one: size, accumulated checksum and header checksum are those of the
    kept part, which passes the integrity check in place; its timestamp is the
    latest of the kept entries and not later than the cut.  When nothing is left
    the header is not valid any more. *)
Theorem truncate_keeps_prefix es l cut pre d h :
  magic_ h = MAGIC → known_version h → is_padding_log h = false → Forall sealed es → es ≠ [] →
  take (length (body es)) l = body es → Z.of_nat (length (body es)) < 2 ^ 31 → Scn.is_valid cut = true →
  let ks := kept cut es in
  ∃ h', truncate XXH64 ob_crc64 (Some l) (Z.of_nat (length (body es))) cut pre h = Some (OB_SUCCESS, h')
    ∧ group_size_ h' = Z.of_nat (length (body ks))
    ∧ accumulated_checksum_ h' = crc_i64 ob_crc64 pre (checksum 0 ks)
    ∧ check_integrity XXH64 ob_crc64 (Some l) (group_size_ h') d h' = Some (true, checksum 0 ks)
    ∧ (ks = [] → is_valid h' = false)
    ∧ (ks ≠ [] → is_valid h = true →
       is_valid h' = true ∧ Scn.scn_leb (max_scn_ h') cut = true
       ∧ (∃ e, e ∈ ks ∧ max_scn_ h' = LogEntryHeader.scn_ e.1)
       ∧ ∀ e, e ∈ ks → Scn.scn_leb (LogEntryHeader.scn_ e.1) (max_scn_ h') = true).
Proof.
  intros Hm Hv Hp Hes Hne Hl Hsz Hcut ks. destruct (kept_prefix cut es) as [rest Hrest]. fold ks in Hrest.
  pose proof (f_equal body Hrest) as Hb. rewrite body_app in Hb. pose proof (f_equal length Hb) as Hlb.
  rewrite length_app in Hlb. assert (Forall sealed ks) as Hks by (rewrite Hrest in Hes; by apply Forall_app in Hes as [? _]).
  assert (0 < length (body es))%nat as Hpos by (destruct es as [|e es']; [done|rewrite length_body; lia]).
  unfold truncate. rewrite bool_decide_eq_false_2, Hcut, Hp by done.
  rewrite (proj2 (Z.leb_gt _ _)) by lia. cbn [orb negb]. pose proof (length_entries es).
  rewrite (truncate_loop_kept es l) by (lia || done || by apply sealed_good). fold ks.
  change (ob_failed OB_SUCCESS) with false. cbv iota. rewrite Z.add_0_l.
  rewrite (wraps_small 32) by (unfold in_s; lia). set (h1 := mkGEH _ _ _ _ _ _ _ _ _).
  assert (known_version h1) as Hv1 by exact Hv. eexists. split; [reflexivity|].
  pose proof (geh_update_flag XXH64 h1 Hv1) as Hu. pose proof (geh_update_checks XXH64 h1 Hv1) as Hck.
  pose proof (update_padding XXH64 h1 Hv1) as Hpad. pose proof (update_valid XXH64 h1) as Hvalid.
  change (is_padding_log h1) with (is_padding_log h) in Hpad. rewrite Hp in Hpad.
  split; [by rewrite Hu|]. split; [by rewrite Hu|].
  assert (group_size_ (update_header_checksum XXH64 h1) = Z.of_nat (length (body ks))) as -> by (by rewrite Hu).
  assert (max_scn_ (update_header_checksum XXH64 h1) = foldl later Scn.invalid_scn ks) as -> by (by rewrite Hu).
  assert (magic_ (update_header_checksum XXH64 h1) = MAGIC) as Hmag by (by rewrite Hu).
  split_and!.
  - unfold check_integrity. rewrite Hmag, Hck. change (negb (MAGIC =? MAGIC)) with false. cbn [negb].
    apply check_checksum; [done|done|]. rewrite Hb in Hl. apply (f_equal (take (length (body ks)))) in Hl.
    rewrite length_app, take_take, take_app_length in Hl. rewrite <- Hl at 2. f_equal. lia.
  - intros E. rewrite Hvalid. unfold is_valid. cbn [max_scn_ h1]. rewrite E. cbn [foldl].
    rewrite Scn.invalid_not_valid. by rewrite andb_false_r.
  - intros Hk Hvh. destruct (later_latest ks Scn.invalid_scn (good_scn _ (sealed_good _ Hks)) (or_introl Hk))
      as (L1 & L2 & L3 & _). split.
    { rewrite Hvalid. unfold is_valid in *. cbn [magic_ version_ proposal_id_ committed_end_lsn_ max_scn_ log_id_ h1].
      rewrite L1. destruct (Scn.is_valid (max_scn_ h)); [exact Hvh|]. by rewrite andb_false_r in Hvh. }
    destruct L2 as [E|(e & He & E)]; [by rewrite E, Scn.invalid_not_valid in L1|].
    split; [rewrite E; by apply (kept_cut cut es)|]. split; [by exists e|done].
Qed.
End checksums.

(** * Witnesses: one entry, in a memory where the group wraps around *)
Definition one : Entry := (LogEntryHeader.sample, [1; 2; 3]).

Lemma one_sealed : sealed LogEntryHeader.sum_hash LogEntryHeader.sum_crc one.
Proof.
  split; [|split; vm_compute; reflexivity]. split; [|vm_compute; reflexivity].
  split; [exact LogEntryHeader.leh_sample_wf|split; vm_compute; reflexivity].
Qed.

Definition group_memory : LogWriteBuf.memory :=
  let bs := replicate 56 0 ++ body [one] in
  fun a => if 0 <? a then (drop 60 bs ++ take 60 bs) !! Z.to_nat (a - 1) else None.
Definition group_pieces : LogWriteBuf.LogWriteBuf := [LogWriteBuf.mkInner 32 60; LogWriteBuf.mkInner 1 31].
Definition one_checksum : Z := checksum LogEntryHeader.sum_crc 0 [one].

Lemma group_checksum_split_witness :
  calculate_log_checksum_ LogEntryHeader.sum_hash LogEntryHeader.sum_crc group_memory group_pieces false 35 0
  = Some (OB_SUCCESS, one_checksum)
  ∧ check_log_checksum_ LogEntryHeader.sum_hash LogEntryHeader.sum_crc (Some (body [one])) 35 0 empty
    = Some (true, one_checksum).
Proof.
  apply (group_checksum_split LogEntryHeader.sum_hash LogEntryHeader.sum_crc group_memory group_pieces
    (replicate 56 0) [one] (body [one]) 0 0 empty);
    [repeat constructor|repeat constructor; discriminate|cbn; lia|reflexivity|vm_compute; reflexivity
    |constructor; [exact one_sealed|constructor]|reflexivity|by apply take_ge].
Defined.

Lemma truncate_keeps_prefix_witness :
  ∃ h', truncate LogEntryHeader.sum_hash LogEntryHeader.sum_crc (Some (body [one])) 35 (Scn.mkSCN 5) 7
          LogGroupEntryHeader.sample = Some (OB_SUCCESS, h')
    ∧ group_size_ h' = 0 ∧ is_valid h' = false.
Proof.
  destruct (truncate_keeps_prefix LogEntryHeader.sum_hash LogEntryHeader.sum_crc [one] (body [one]) (Scn.mkSCN 5) 7 0
    LogGroupEntryHeader.sample) as (h' & E & Hs & _ & _ & Hv & _);
    [reflexivity|right; vm_compute; reflexivity|vm_compute; reflexivity|constructor; [exact one_sealed|constructor]|discriminate
    |by apply take_ge|vm_compute; reflexivity|vm_compute; reflexivity|].
  exists h'. split; [exact E|]. split; [exact Hs|apply Hv; vm_compute; reflexivity].
Defined.
End LogGroupChecksum.
