(* ===== verification/LogGroupEntry.v ===== *)
(** [LogGroupEntry] of [src/logservice/palf/log_group_entry.cpp]: a group header and
    the bytes of its entries. *)
From S2P Require Import Prelude Serialization Scn Lsn Codec LogEntryHeader LogEntry LogWriteBuf LogGroupEntryHeader.
Import Ser Codec.

Module LogGroupEntry.
Import LogGroupEntryHeader.

Record LogGroupEntry : Type := mkGE { header_ : LogGroupEntryHeader; buf_ : buf_t }.
Implicit Type g entry : LogGroupEntry.

Definition empty_group : LogGroupEntry := mkGE empty None.
Definition group_reset g : LogGroupEntry := mkGE (LogGroupEntryHeader.reset (header_ g)) None.
Definition group_is_valid g : bool := LogGroupEntryHeader.is_valid (header_ g) && negb (bool_decide (buf_ g = None)).

Definition group_generate (header : LogGroupEntryHeader) (buf : buf_t) g : Z * LogGroupEntry :=
  if negb (LogGroupEntryHeader.is_valid header) || bool_decide (buf = None) then (OB_INVALID_ARGUMENT, g)
  else (OB_SUCCESS, mkGE header buf).

Definition group_shallow_copy entry g : Z * LogGroupEntry :=
  if negb (group_is_valid entry) then (OB_INVALID_ARGUMENT, g) else (OB_SUCCESS, entry).

Definition group_serialize g (buf_len : Z) : M Wr Z :=
  let data_len := group_size_ (header_ g) in
  let! bad := gets (fun w => Scn.bad_buf (w_buf w) buf_len) in
  if bad then ret OB_INVALID_ARGUMENT
  else Scn.commit_pos
    (chk! LogGroupEntryHeader.serialize (header_ g) buf_len else
     let! new_pos := gets w_pos in
     if buf_len - new_pos <? data_len then ret OB_BUF_NOT_ENOUGH
     else (memcpy (buf_ g) data_len ;;; ret OB_SUCCESS)).

Definition group_serialize_size g : Z := LogGroupEntryHeader.get_serialize_size (header_ g) + group_size_ (header_ g).
Definition group_check_compatibility g : bool := LogGroupEntryHeader.check_compatibility (header_ g).

Section checksums.
Context (XXH64 : list Z → Z → Z) (ob_crc64 : Z → list Z → Z).

Definition group_check_integrity (data_checksum : Z) g : option (bool * Z) :=
  LogGroupEntryHeader.check_integrity XXH64 ob_crc64 (buf_ g) (group_size_ (header_ g)) data_checksum (header_ g).

Definition group_truncate (upper_limit_scn : Scn.SCN) (pre_accum_checksum : Z) g : option (Z * LogGroupEntry) :=
  match LogGroupEntryHeader.truncate XXH64 ob_crc64 (buf_ g) (group_size_ (header_ g)) upper_limit_scn
          pre_accum_checksum (header_ g) with
  | Some (rc, h) => Some (rc, mkGE h (buf_ g))
  | None => None
  end.

(** On a failure the header may have been replaced, the position has not moved.  The
    size of the group is not checked to be positive. *)
Definition group_deserialize (buf : buf_t) (data_len : Z) g : M Z (Z * LogGroupEntry) :=
  if Scn.bad_buf buf data_len then ret (OB_INVALID_ARGUMENT, g)
  else Scn.commit_rpos
    (let! r := LogGroupEntryHeader.deserialize XXH64 buf data_len (header_ g) in
     if ob_failed r.1 then ret (r.1, mkGE r.2 (buf_ g))
     else fun new_pos =>
       let len := group_size_ r.2 in
       if data_len - new_pos <? len then Some ((OB_BUF_NOT_ENOUGH, mkGE r.2 (buf_ g)), new_pos)
       else Some ((OB_SUCCESS, mkGE r.2 (if 0 <=? len then pointer buf new_pos else None)), new_pos + len)).

(** The code and [min_scn]: the timestamp of the first entry, or of the padding. *)
Definition get_log_min_scn (min_scn : Scn.SCN) g : option (Z * Scn.SCN) :=
  if is_padding_log (header_ g) then Some (OB_SUCCESS, max_scn_ (header_ g))
  else
    match LogEntryHeader.deserialize XXH64 (buf_ g) (group_size_ (header_ g)) LogEntryHeader.empty 0 with
    | None => None
    | Some ((rc, header), _) =>
        if ob_failed rc then Some (rc, min_scn) else Some (OB_SUCCESS, LogEntryHeader.scn_ header)
    end.
End checksums.

(** * Writing and reading a group *)
Definition group_bytes (h : LogGroupEntryHeader) (data : list Z) : list Z := ser_bytes h ++ data.

Lemma length_group_bytes h data : length (group_bytes h data) = (56 + length data)%nat.
Proof. unfold group_bytes. by rewrite length_app, geh_length_ser_bytes. Qed.

Lemma group_writes h data rest buf_len :
  group_size_ h = Z.of_nat (length data) →
  writes buf_len (group_serialize (mkGE h (Some (data ++ rest))) buf_len) (group_bytes h data).
Proof.
  intros Hl. apply Scn.guard_writes; [rewrite length_group_bytes; lia|]. apply Scn.commit_writes.
  intros l pos Hp [H1 H2]. rewrite length_group_bytes in H1. cbn [header_ buf_].
  pose proof (geh_length_ser_bytes h) as Hsb.
  rewrite (bind_run _ _ _ _ _ (geh_serialize_writes h buf_len l pos Hp ltac:(lia))).
  change (ob_failed OB_SUCCESS) with false. cbv iota. rewrite (bind_run _ _ _ _ _ eq_refl). cbn [w_pos].
  rewrite (proj2 (Z.ltb_ge _ _)) by lia.
  pose proof (memcpy_writes buf_len (data ++ rest) (group_size_ h)) as Hm.
  rewrite Hl, Nat2Z.id, take_app_length, length_app in Hm. rewrite Hl.
  rewrite Hm; [|lia|lia|rewrite length_splice; lia].
  unfold group_bytes. rewrite splice_app by lia. rewrite length_app. do 3 f_equal. lia.
Qed.

Lemma group_reads XXH64 l data_len h data g0 pos :
  wf h → check_header_integrity XXH64 h = true → group_size_ h = Z.of_nat (length data) → 0 <= pos →
  pos + Z.of_nat (length (group_bytes h data)) <= data_len →
  slice l pos (length (group_bytes h data)) = group_bytes h data →
  group_deserialize XXH64 (Some l) data_len g0 pos
  = Some ((OB_SUCCESS, mkGE h (Some (drop (Z.to_nat (pos + 56)) l))), pos + 56 + group_size_ h)
  ∧ slice l (pos + 56) (length data) = data.
Proof.
  intros Hw Hc Hl Hp Hd Hsl. rewrite length_group_bytes in Hd.
  destruct (slice_app_inv l pos (ser_bytes h) data Hp Hsl) as [S1 S2].
  rewrite geh_length_ser_bytes in *. split; [|exact S2]. unfold group_deserialize, Scn.bad_buf.
  rewrite (proj2 (Z.leb_gt _ _)) by lia. unfold Scn.commit_rpos.
  assert (slice l pos (length (ser_bytes h)) = ser_bytes h) as S1' by (by rewrite geh_length_ser_bytes).
  rewrite (bind_run _ _ _ _ _ (geh_deserialize_reads XXH64 l data_len h (header_ g0) Hw Hc pos Hp
    ltac:(rewrite geh_length_ser_bytes; lia) S1')).
  rewrite geh_length_ser_bytes. cbn [fst snd]. change (ob_failed OB_SUCCESS) with false. cbv iota. cbv zeta.
  rewrite (proj2 (Z.leb_le 0 _)), (proj2 (Z.ltb_ge (data_len - (pos + Z.of_nat 56)) (group_size_ h))) by lia.
  reflexivity.
Qed.

(** A group whose header announces a negative size is accepted, without data, and
    the position of the reader moves back. *)
Definition negative : LogGroupEntryHeader :=
  update_header_checksum LogEntryHeader.sum_hash
    (mkGEH MAGIC LOG_GROUP_ENTRY_HEADER_VERSION2 (-56) 1 (Lsn.mkLSN 0) (Scn.mkSCN 9) 7 1 0).
Example group_negative_size :
  ∃ g, group_deserialize LogEntryHeader.sum_hash (Some (ser_bytes negative)) 56 empty_group 0
       = Some ((OB_SUCCESS, g), 0).
Proof. eexists. vm_compute. reflexivity. Qed.
End LogGroupEntry.
