(* ===== verification/LogChecksum.v ===== *)
(** [LogChecksum] of [src/logservice/palf/log_checksum.cpp]: the checksum that is
    accumulated over all groups of a log, on the side that writes them
    ([acquire_accum_checksum]) and on the side that receives or replays them
    ([verify_accum_checksum]). *)
From S2P Require Import Prelude Serialization Codec Lsn Parity LogEntryHeader LogEntry LogWriteBuf LogGroupEntryHeader.

Module LogChecksum.
Definition INVALID_PALF_ID : Z := -1.

Record LogChecksum : Set := mkCS {
  is_inited_ : bool;
  palf_id_ : Z;
  prev_accum_checksum_ : Z;
  accum_checksum_ : Z;
  verify_checksum_ : Z
}.
Implicit Type c : LogChecksum.

Definition init (palf_id accum_checksum : Z) c : Z * LogChecksum :=
  if is_inited_ c then (OB_INIT_TWICE, c)
  else (OB_SUCCESS, mkCS true palf_id (prev_accum_checksum_ c) accum_checksum accum_checksum).

Definition destroy c : LogChecksum := mkCS false INVALID_PALF_ID (prev_accum_checksum_ c) 0 0.

Definition set_accum_checksum (accum_checksum : Z) c : LogChecksum :=
  mkCS (is_inited_ c) (palf_id_ c) (prev_accum_checksum_ c) accum_checksum (verify_checksum_ c).
Definition set_verify_checksum (verify_checksum : Z) c : LogChecksum :=
  mkCS (is_inited_ c) (palf_id_ c) (prev_accum_checksum_ c) (accum_checksum_ c) verify_checksum.

Definition rollback_accum_checksum (curr_accum_checksum : Z) c : Z * LogChecksum :=
  if negb (curr_accum_checksum =? accum_checksum_ c) then (OB_STATE_NOT_MATCH, c)
  else (OB_SUCCESS, mkCS (is_inited_ c) (palf_id_ c) 0 (prev_accum_checksum_ c) (verify_checksum_ c)).

Section checksum.
Context (ob_crc64 : Z → list Z → Z).
Abbreviation crc := (LogGroupEntryHeader.crc_i64 ob_crc64).

(** The code, the accumulated checksum handed out (or the caller's old value), the object. *)
Definition acquire_accum_checksum (data_checksum accum_checksum : Z) c : Z * Z * LogChecksum :=
  if negb (is_inited_ c) then (OB_NOT_INIT, accum_checksum, c)
  else
    let accum := crc (accum_checksum_ c) data_checksum in
    (OB_SUCCESS, accum, mkCS (is_inited_ c) (palf_id_ c) (accum_checksum_ c) accum (verify_checksum_ c)).

(** The static [verify_accum_checksum]: the code and the new checksum. *)
Definition verify_accum (old_accum_checksum data_checksum expected_accum_checksum : Z) : Z * Z :=
  let new_accum_checksum := crc old_accum_checksum data_checksum in
  (if negb (new_accum_checksum =? expected_accum_checksum) then OB_CHECKSUM_ERROR else OB_SUCCESS,
   new_accum_checksum).

Definition verify_accum_checksum (data_checksum accum_checksum : Z) c : Z * LogChecksum :=
  if negb (is_inited_ c) then (OB_NOT_INIT, c)
  else
    let r := verify_accum (verify_checksum_ c) data_checksum accum_checksum in
    if ob_failed r.1 then (r.1, c)
    else (OB_SUCCESS, mkCS (is_inited_ c) (palf_id_ c) (prev_accum_checksum_ c) (accum_checksum_ c) r.2).

(** * A log on both sides *)

(** The accumulated checksums of a sequence of groups, and their verification. *)
Fixpoint acquire_all (ds : list Z) c : list Z * LogChecksum :=
  match ds with
  | [] => ([], c)
  | d :: ds =>
      let '(_, a, c) := acquire_accum_checksum d 0 c in
      let r := acquire_all ds c in (a :: r.1, r.2)
  end.
Fixpoint verify_all (gs : list (Z * Z)) c : Z * LogChecksum :=
  match gs with
  | [] => (OB_SUCCESS, c)
  | g :: gs =>
      let r := verify_accum_checksum g.1 g.2 c in
      if ob_failed r.1 then r else verify_all gs r.2
  end.

Lemma verify_acquired d c f :
  is_inited_ c = true → is_inited_ f = true → verify_checksum_ f = accum_checksum_ c →
  let '(rc, a, c') := acquire_accum_checksum d 0 c in
  rc = OB_SUCCESS ∧ is_inited_ c' = true
  ∧ ∃ f', verify_accum_checksum d a f = (OB_SUCCESS, f') ∧ is_inited_ f' = true
    ∧ verify_checksum_ f' = accum_checksum_ c'.
Proof.
  intros Hc Hf Hv. unfold acquire_accum_checksum. rewrite Hc. cbn [negb]. split; [done|]. split; [done|].
  unfold verify_accum_checksum, verify_accum. rewrite Hf, Hv, Z.eqb_refl. cbn. by eexists.
Qed.

(** C38: a follower whose checksum is that of the leader accepts exactly the groups
    of the leader in their order and ends with the leader's checksum; a group
    whose accumulated checksum does not continue the follower's is refused with
    [OB_CHECKSUM_ERROR] and changes nothing; and a group given up by the leader is
    taken back by [rollback_accum_checksum]. *)
Theorem accum_checksum_chain ds d a c f :
  is_inited_ c = true → is_inited_ f = true → verify_checksum_ f = accum_checksum_ c →
  (∃ f', verify_all (zip ds (acquire_all ds c).1) f = (OB_SUCCESS, f')
     ∧ verify_checksum_ f' = accum_checksum_ (acquire_all ds c).2)
  ∧ (a ≠ crc (verify_checksum_ f) d → verify_accum_checksum d a f = (OB_CHECKSUM_ERROR, f))
  ∧ (let '(_, a, c') := acquire_accum_checksum d 0 c in
     ∃ c'', rollback_accum_checksum a c' = (OB_SUCCESS, c'') ∧ accum_checksum_ c'' = accum_checksum_ c).
Proof.
  intros Hc Hf Hv. split_and!.
  - revert c f Hc Hf Hv. induction ds as [|d' ds IH]; intros c f Hc Hf Hv; cbn [acquire_all]; [by exists f|].
    pose proof (verify_acquired d' c f Hc Hf Hv) as H. destruct (acquire_accum_checksum d' 0 c) as [[rc a'] c'].
    destruct H as (_ & Hc' & f' & Hver & Hf' & Hv'). cbn [fst snd zip zip_with verify_all]. rewrite Hver.
    change (ob_failed (OB_SUCCESS, f').1) with false. cbv iota. by apply IH.
  - intros Ha. unfold verify_accum_checksum, verify_accum. rewrite Hf. cbn [negb fst snd].
    by rewrite (proj2 (Z.eqb_neq _ _)) by done.
  - unfold acquire_accum_checksum. rewrite Hc. cbn [negb]. unfold rollback_accum_checksum. cbn [accum_checksum_].
    rewrite Z.eqb_refl. by eexists.
Qed.
End checksum.

Definition sample : LogChecksum := mkCS true 1 0 5 5.
Lemma accum_checksum_chain_witness :
  ∃ f', verify_all LogEntryHeader.sum_crc
          (zip [3; 4] (acquire_all LogEntryHeader.sum_crc [3; 4] sample).1) sample = (OB_SUCCESS, f').
Proof.
  destruct (accum_checksum_chain LogEntryHeader.sum_crc [3; 4] 0 0 sample sample) as [(f' & H & _) _];
    [reflexivity|reflexivity|reflexivity|]. exists f'. exact H.
Defined.
End LogChecksum.
