(* ===== verification/LogGroupBuffer.v ===== *)
(** [LogGroupBuffer] of [src/logservice/palf/log_group_buffer.cpp]: the ring buffer
    between the allocation of log positions and the disk.  The byte of log position
    [lsn] lies at [(lsn - start_lsn_) % reserved_buffer_size_]; [reuse_lsn_] is the
    position up to which the log has been flushed, so that [available_buffer_size_]
    bytes from there on may be filled, and [readable_begin_lsn_] the position from
    which on the buffer still holds the log.

    [mtl_malloc] may fail: [alloc] is the address it returns, 0 for [NULL]. *)
From S2P Require Import Prelude Serialization Scn Lsn Codec LogWriteBuf.
Import Ser Codec.

Module LogGroupBuffer.
Import Lsn.
Definition LEADER_DEFAULT_GROUP_BUFFER_SIZE : Z := Z.shiftl 1 23.
Definition FOLLOWER_DEFAULT_GROUP_BUFFER_SIZE : Z := LEADER_DEFAULT_GROUP_BUFFER_SIZE + 0.
Definition LOG_MAX_LSN_VAL : Z := LOG_INVALID_LSN_VAL - 1.
Definition PADDING_LOG_CONTENT_CHAR : Z := 0.

(** [ring] are the bytes at [data_buf_]. *)
Record LogGroupBuffer : Set := mkGB {
  start_lsn_ : LSN;
  reuse_lsn_ : LSN;
  readable_begin_lsn_ : LSN;
  reserved_buffer_size_ : Z;
  available_buffer_size_ : Z;
  data_buf_ : Z;
  ring : list Z;
  is_inited_ : bool
}.
Implicit Type b : LogGroupBuffer.

Definition no_lsn : LSN := mkLSN LOG_INVALID_LSN_VAL.
Definition reset b : LogGroupBuffer := mkGB no_lsn no_lsn no_lsn 0 0 0 [] false.
Definition destroy b : LogGroupBuffer := mkGB no_lsn no_lsn no_lsn 0 0 0 [] false.

Definition init (alloc : Z) (start_lsn : LSN) b : Z * LogGroupBuffer :=
  if is_inited_ b then (OB_INIT_TWICE, b)
  else if negb (is_valid start_lsn) then (OB_INVALID_ARGUMENT, b)
  else
    let group_buffer_size := FOLLOWER_DEFAULT_GROUP_BUFFER_SIZE in
    if alloc =? 0 then
      (OB_ALLOCATE_MEMORY_FAILED,
       mkGB (start_lsn_ b) (reuse_lsn_ b) (readable_begin_lsn_ b) (reserved_buffer_size_ b)
         (available_buffer_size_ b) 0 [] (is_inited_ b))
    else
      (OB_SUCCESS, mkGB start_lsn start_lsn start_lsn group_buffer_size group_buffer_size alloc
                     (replicate (Z.to_nat group_buffer_size) 0) true).

(** ** Updates of the members *)
Definition set_ring (l : list Z) b : LogGroupBuffer :=
  mkGB (start_lsn_ b) (reuse_lsn_ b) (readable_begin_lsn_ b) (reserved_buffer_size_ b) (available_buffer_size_ b)
    (data_buf_ b) l (is_inited_ b).
Definition set_readable (lsn : LSN) b : LogGroupBuffer :=
  mkGB (start_lsn_ b) (reuse_lsn_ b) lsn (reserved_buffer_size_ b) (available_buffer_size_ b)
    (data_buf_ b) (ring b) (is_inited_ b).
Definition set_reuse (lsn : LSN) b : LogGroupBuffer :=
  mkGB (start_lsn_ b) lsn (readable_begin_lsn_ b) (reserved_buffer_size_ b) (available_buffer_size_ b)
    (data_buf_ b) (ring b) (is_inited_ b).
Definition set_available (size : Z) b : LogGroupBuffer :=
  mkGB (start_lsn_ b) (reuse_lsn_ b) (readable_begin_lsn_ b) (reserved_buffer_size_ b) size
    (data_buf_ b) (ring b) (is_inited_ b).

(** ** Positions *)

(** The code and [start_pos]; [None] for a failed [assert] or a division by zero. *)
Definition get_buffer_pos_ (lsn : LSN) (start_pos : Z) b : option (Z * Z) :=
  let start_lsn := start_lsn_ b in
  if negb (is_inited_ b) then Some (OB_NOT_INIT, start_pos)
  else if negb (is_valid lsn) then Some (OB_INVALID_ARGUMENT, start_pos)
  else if lsn_ltb lsn start_lsn then Some (OB_ERR_OUT_OF_LOWER_BOUND, start_pos)
  else
    let diff_len := s64 (lsn_diff lsn start_lsn) in
    if (diff_len <? 0) || (reserved_buffer_size_ b =? 0) then None
    else Some (OB_SUCCESS, diff_len mod reserved_buffer_size_ b).

Definition lsn_min (x y : LSN) : LSN := if lsn_ltb x y then x else y.

Definition can_handle_new_log_ref (lsn : LSN) (total_len : Z) (ref_reuse_lsn : LSN) b : bool :=
  let end_lsn := lsn_add lsn total_len in
  let reuse_lsn := lsn_min (reuse_lsn_ b) ref_reuse_lsn in
  if negb (is_inited_ b) then false
  else if negb (is_valid lsn) || (total_len <=? 0) || negb (is_valid ref_reuse_lsn) then false
  else if lsn_ltb lsn (start_lsn_ b) then false
  else if lsn_gtb end_lsn (lsn_add reuse_lsn (available_buffer_size_ b)) then false
  else true.
Definition can_handle_new_log (lsn : LSN) (total_len : Z) b : bool :=
  if negb (is_inited_ b) then false
  else if negb (is_valid lsn) || (total_len <=? 0) then false
  else can_handle_new_log_ref lsn total_len (mkLSN LOG_MAX_LSN_VAL) b.

(** [get_log_buf]: the pieces of a range of the log; [grow] for the array of pieces. *)
Definition get_log_buf (grow : nat → bool) (lsn : LSN) (total_len : Z) (log_buf : LogWriteBuf.LogWriteBuf) b
    : option (Z * LogWriteBuf.LogWriteBuf) :=
  if negb (is_inited_ b) then Some (OB_NOT_INIT, log_buf)
  else if negb (is_valid lsn) || (total_len <=? 0) then Some (OB_INVALID_ARGUMENT, log_buf)
  else if lsn_ltb lsn (start_lsn_ b) then Some (OB_INVALID_ARGUMENT, log_buf)
  else
    match get_buffer_pos_ lsn 0 b with
    | None => None
    | Some (rc, start_pos) =>
        if ob_failed rc then Some (rc, log_buf)
        else
          let group_buf_tail_len := reserved_buffer_size_ b - start_pos in
          let first_part_len := Z.min group_buf_tail_len total_len in
          let r := LogWriteBuf.push_back grow (data_buf_ b + start_pos) first_part_len log_buf in
          if ob_failed r.1 then Some r
          else if first_part_len <? total_len then
            Some (LogWriteBuf.push_back grow (data_buf_ b) (total_len - first_part_len) r.2)
          else Some r
    end.

(** ** Filling *)

(** [memcpy(data_buf_ + pos, data + from, len)]; [None] outside of either. *)
Definition copy_in (pos : Z) (data : list Z) (from len : Z) b : option LogGroupBuffer :=
  if (0 <=? pos) && (0 <=? len) && (pos + len <=? Z.of_nat (length (ring b)))
     && (from + len <=? Z.of_nat (length data))
  then Some (set_ring (splice (ring b) pos (slice data from (Z.to_nat len))) b)
  else None.

Definition fill_ (start_pos : Z) (data : list Z) (data_len : Z) b : option LogGroupBuffer :=
  let group_buf_tail_len := reserved_buffer_size_ b - start_pos in
  let first_part_len := Z.min group_buf_tail_len data_len in
  match copy_in start_pos data 0 first_part_len b with
  | None => None
  | Some b => if first_part_len <? data_len then copy_in 0 data first_part_len (data_len - first_part_len) b
              else Some b
  end.

Definition gen_readable_begin_lsn_for_filling_ (lsn : LSN) b : LSN :=
  if u64 (reserved_buffer_size_ b) <=? val_ lsn then lsn_sub lsn (reserved_buffer_size_ b) else mkLSN 0.

(** [inc_update] on the raw value, without another writer. *)
Definition inc_update_readable_begin_lsn_ (new_lsn : LSN) b : LogGroupBuffer :=
  if lsn_ltb (readable_begin_lsn_ b) new_lsn then set_readable new_lsn b else b.
Definition inc_update_readable_begin_lsn (new_lsn : LSN) b : Z * LogGroupBuffer :=
  if negb (is_valid new_lsn) then (OB_INVALID_ARGUMENT, b)
  else (OB_SUCCESS, inc_update_readable_begin_lsn_ new_lsn b).

(** The checks [fill] and [fill_padding_body] share: [OB_SUCCESS] or the error. *)
Definition fill_check (lsn end_lsn : LSN) b : Z :=
  if lsn_ltb lsn (start_lsn_ b) then OB_ERR_UNEXPECTED
  else if lsn_leb end_lsn (reuse_lsn_ b) then OB_ERR_UNEXPECTED
  else if lsn_gtb end_lsn (lsn_add (reuse_lsn_ b) (available_buffer_size_ b)) then OB_EAGAIN
  else OB_SUCCESS.

Definition fill (lsn : LSN) (data : buf_t) (data_len : Z) b : option (Z * LogGroupBuffer) :=
  let end_lsn := lsn_add lsn data_len in
  if negb (is_inited_ b) then Some (OB_NOT_INIT, b)
  else
    match data with
    | None => Some (OB_INVALID_ARGUMENT, b)
    | Some data =>
        if negb (is_valid lsn) || (data_len <=? 0) then Some (OB_INVALID_ARGUMENT, b)
        else if ob_failed (fill_check lsn end_lsn b) then Some (fill_check lsn end_lsn b, b)
        else
          match get_buffer_pos_ lsn 0 b with
          | None => None
          | Some (rc, start_pos) =>
              if ob_failed rc then Some (rc, b)
              else
                let b := inc_update_readable_begin_lsn_ (gen_readable_begin_lsn_for_filling_ end_lsn b) b in
                match fill_ start_pos data data_len b with Some b => Some (OB_SUCCESS, b) | None => None end
          end
    end.

(** [memset(data_buf_ + pos, 0, len)]. *)
Definition zero (pos len : Z) b : option LogGroupBuffer :=
  if (0 <=? pos) && (0 <=? len) && (pos + len <=? Z.of_nat (length (ring b)))
  then Some (set_ring (splice (ring b) pos (replicate (Z.to_nat len) PADDING_LOG_CONTENT_CHAR)) b)
  else None.

(** The data is not checked to be there, nor to be no longer than the body. *)
Definition fill_padding_body (lsn : LSN) (data : list Z) (data_len log_body_size : Z) b : option (Z * LogGroupBuffer) :=
  let end_lsn := lsn_add lsn log_body_size in
  if negb (is_inited_ b) then Some (OB_NOT_INIT, b)
  else if negb (is_valid lsn) || (log_body_size <=? 0) then Some (OB_INVALID_ARGUMENT, b)
  else if ob_failed (fill_check lsn end_lsn b) then Some (fill_check lsn end_lsn b, b)
  else
    match get_buffer_pos_ lsn 0 b with
    | None => None
    | Some (rc, start_pos) =>
        if ob_failed rc then Some (rc, b)
        else
          let b := inc_update_readable_begin_lsn_ (gen_readable_begin_lsn_for_filling_ end_lsn b) b in
          let group_buf_tail_len := reserved_buffer_size_ b - start_pos in
          let first_part_len := Z.min group_buf_tail_len log_body_size in
          match zero start_pos first_part_len b with
          | None => None
          | Some b =>
              match (if first_part_len <? log_body_size then zero 0 (log_body_size - first_part_len) b else Some b) with
              | None => None
              | Some b => match fill_ start_pos data data_len b with Some b => Some (OB_SUCCESS, b) | None => None end
              end
          end
    end.

(** ** The rest *)
Definition check_log_buf_wrapped (lsn : LSN) (log_len : Z) b : option (Z * bool) :=
  if negb (is_inited_ b) then Some (OB_NOT_INIT, false)
  else if negb (is_valid lsn) || (log_len <=? 0) then Some (OB_INVALID_ARGUMENT, false)
  else if lsn_ltb lsn (start_lsn_ b) then Some (OB_SUCCESS, false)
  else
    match get_buffer_pos_ lsn 0 b with
    | None => None
    | Some (rc, start_pos) =>
        if ob_failed rc then Some (rc, false) else Some (OB_SUCCESS, reserved_buffer_size_ b <? start_pos + log_len)
    end.

(** The sizes are constants of the language, not macros: the preprocessor compares 0 with 0 and always leaves the
    check of [to_leader] out. *)
Definition to_leader b : Z * LogGroupBuffer :=
  if negb (is_inited_ b) then (OB_NOT_INIT, b) else (OB_SUCCESS, set_available LEADER_DEFAULT_GROUP_BUFFER_SIZE b).
Definition to_follower b : Z * LogGroupBuffer :=
  if negb (is_inited_ b) then (OB_NOT_INIT, b)
  else if FOLLOWER_DEFAULT_GROUP_BUFFER_SIZE =? available_buffer_size_ b then (OB_SUCCESS, b)
  else (OB_SUCCESS, set_available FOLLOWER_DEFAULT_GROUP_BUFFER_SIZE b).

(** The compare-and-swap loop, without another writer. *)
Definition inc_update_reuse_lsn (new_reuse_lsn : LSN) b : Z * LogGroupBuffer :=
  if negb (is_valid new_reuse_lsn) then (OB_INVALID_ARGUMENT, b)
  else (OB_SUCCESS, if lsn_gtb new_reuse_lsn (reuse_lsn_ b) then set_reuse new_reuse_lsn b else b).

Definition truncate (new_lsn : LSN) b : Z * LogGroupBuffer :=
  if negb (is_valid new_lsn) then (OB_INVALID_ARGUMENT, b)
  else if lsn_ltb new_lsn (start_lsn_ b) then (OB_INVALID_ARGUMENT, b)
  else (OB_SUCCESS, set_reuse new_lsn (inc_update_readable_begin_lsn_ new_lsn b)).

(** The code, the bytes copied to the front of [buf], of size [out_read_size], or
    [None] for an access outside; without a writer during the copy, so that the
    second check of [readable_begin_lsn_] is the first one. *)
Definition read_data (read_begin_lsn : LSN) (in_read_size : Z) (buf_size : option Z) b : option (Z * list Z) :=
  if negb (is_valid read_begin_lsn) || (in_read_size <=? 0) || bool_decide (buf_size = None)
  then Some (OB_INVALID_ARGUMENT, [])
  else
    match get_buffer_pos_ read_begin_lsn (-1) b with
    | None => None
    | Some (rc, start_pos) =>
        if ob_failed rc then Some (rc, [])
        else if lsn_ltb read_begin_lsn (readable_begin_lsn_ b) then Some (OB_ERR_OUT_OF_LOWER_BOUND, [])
        else if lsn_gtb (reuse_lsn_ b) read_begin_lsn then
          let readable_size := s64 (lsn_diff (reuse_lsn_ b) read_begin_lsn) in
          let real_read_size := Z.min readable_size in_read_size in
          let group_buf_tail_len := reserved_buffer_size_ b - start_pos in
          let first_part_len := Z.min group_buf_tail_len real_read_size in
          if (real_read_size <? 0) || (default 0 buf_size <? real_read_size)
             || (Z.of_nat (length (ring b)) <? start_pos + first_part_len)
             || (Z.of_nat (length (ring b)) <? real_read_size - first_part_len)
          then None
          else
            Some (OB_SUCCESS,
                  slice (ring b) start_pos (Z.to_nat first_part_len)
                  ++ (if first_part_len <? real_read_size
                      then slice (ring b) 0 (Z.to_nat (real_read_size - first_part_len)) else []))
        else Some (OB_SUCCESS, [])
    end.

(** * Lemmas on the ring *)
Lemma splice_lookup l pos bs (j : nat) :
  0 <= pos → pos + Z.of_nat (length bs) <= Z.of_nat (length l) →
  splice l pos bs !! j
  = if decide (Z.to_nat pos <= j < Z.to_nat pos + length bs)%nat then bs !! (j - Z.to_nat pos)%nat else l !! j.
Proof.
  intros Hp Hl. unfold splice. assert (length (take (Z.to_nat pos) l) = Z.to_nat pos) as Ht by (rewrite length_take; lia).
  destruct (decide _) as [Hj|Hj].
  - rewrite lookup_app_r, Ht by lia. by rewrite lookup_app_l by lia.
  - destruct (decide (j < Z.to_nat pos)%nat).
    + rewrite lookup_app_l by lia. by rewrite lookup_take_lt by lia.
    + rewrite lookup_app_r, Ht by lia. rewrite lookup_app_r by lia. rewrite lookup_drop. f_equal. lia.
Qed.

Lemma slice_lookup l pos n (i : nat) : (i < n)%nat → slice l pos n !! i = l !! (Z.to_nat pos + i)%nat.
Proof. intros Hi. unfold slice. by rewrite lookup_take_lt, lookup_drop by lia. Qed.

Lemma slice_length l pos n : 0 <= pos → pos + Z.of_nat n <= Z.of_nat (length l) → length (slice l pos n) = n.
Proof. intros. unfold slice. rewrite length_take, length_drop. lia. Qed.

(** The index in the ring of the [i]-th byte from [pos] on. *)
Definition at_ (size pos i : Z) : nat := Z.to_nat ((pos + i) mod size).

Lemma at_cases size pos i :
  0 <= pos < size → 0 <= i <= size →
  (pos + i < size ∧ at_ size pos i = Z.to_nat (pos + i)) ∨ (size <= pos + i ∧ at_ size pos i = Z.to_nat (pos + i - size)).
Proof.
  intros Hp Hi. unfold at_. destruct (Z.lt_ge_cases (pos + i) size) as [H|H]; [left|right]; split; try done; f_equal.
  - apply Z.mod_small. lia.
  - destruct (decide (pos + i - size < size)).
    + rewrite <- (Z.mod_small (pos + i - size) size) by lia. rewrite <- (Z.mod_add (pos + i - size) 1 size) by lia.
      f_equal. lia.
    + lia.
Qed.

(** [fill_] writes the data from [pos] on, wrapping around, and nothing else. *)
Lemma fill_lookup pos data n b :
  0 <= pos < reserved_buffer_size_ b → Z.of_nat (length (ring b)) = reserved_buffer_size_ b →
  0 < n <= reserved_buffer_size_ b → n <= Z.of_nat (length data) →
  ∃ l, fill_ pos data n b = Some (set_ring l b) ∧ length l = length (ring b)
    ∧ (∀ i, 0 <= i < n → l !! at_ (reserved_buffer_size_ b) pos i = data !! Z.to_nat i)
    ∧ (∀ j, (∀ i, 0 <= i < n → at_ (reserved_buffer_size_ b) pos i ≠ j) → l !! j = ring b !! j).
Proof.
  intros Hp Hr Hn Hd. set (size := reserved_buffer_size_ b) in *. unfold fill_. fold size.
  set (k := Z.min (size - pos) n). unfold copy_in at 1.
  rewrite !(proj2 (Z.leb_le _ _)) by lia. cbn [andb].
  assert (length (slice data 0 (Z.to_nat k)) = Z.to_nat k) as L1 by (apply slice_length; lia).
  set (l1 := splice (ring b) pos (slice data 0 (Z.to_nat k))).
  assert (length l1 = length (ring b)) as HL1 by (apply length_splice; lia).
  assert (∀ j : nat, l1 !! j = if decide (Z.to_nat pos <= j < Z.to_nat pos + Z.to_nat k)%nat
                               then data !! (j - Z.to_nat pos)%nat else ring b !! j) as E1.
  { intros j. unfold l1. rewrite splice_lookup, L1 by lia. destruct (decide _) as [Hj|]; [|done].
    rewrite slice_lookup by lia. done. }
  destruct (Z.ltb_spec k n) as [Hk|Hk].
  - unfold copy_in. cbn [ring set_ring]. rewrite !(proj2 (Z.leb_le _ _)) by lia. cbn [andb].
    assert (length (slice data k (Z.to_nat (n - k))) = Z.to_nat (n - k)) as L2 by (apply slice_length; lia).
    eexists. split; [reflexivity|]. split; [rewrite length_splice; lia|].
    assert (k = size - pos) as Ek by lia. split.
    + intros i Hi. rewrite splice_lookup, L2 by lia. destruct (at_cases size pos i Hp ltac:(lia)) as [[H ->]|[H ->]].
      * rewrite decide_False, E1, decide_True by lia. f_equal. lia.
      * rewrite decide_True by lia. rewrite slice_lookup by lia. f_equal. lia.
    + intros j Hj. rewrite splice_lookup, L2 by lia. rewrite decide_False; [rewrite E1, decide_False; [done|]|].
      * intros [H1 H2]. apply (Hj (Z.of_nat j - pos) ltac:(lia)).
        destruct (at_cases size pos (Z.of_nat j - pos) Hp ltac:(lia)) as [[? ->]|[? ->]]; lia.
      * intros [H1 H2]. apply (Hj (Z.of_nat j + size - pos) ltac:(lia)).
        destruct (at_cases size pos (Z.of_nat j + size - pos) Hp ltac:(lia)) as [[? ->]|[? ->]]; lia.
  - assert (n <= size - pos) as Hns by lia. assert (k = n) as -> by lia. exists l1. split; [done|]. split; [done|]. split.
    + intros i Hi. rewrite E1. destruct (at_cases size pos i Hp ltac:(lia)) as [[H ->]|[H ->]]; [|lia].
      rewrite decide_True by lia. f_equal. lia.
    + intros j Hj. rewrite E1, decide_False; [done|]. intros [H1 H2].
      apply (Hj (Z.of_nat j - pos) ltac:(lia)).
      destruct (at_cases size pos (Z.of_nat j - pos) Hp ltac:(lia)) as [[? ->]|[? ->]]; lia.
Qed.

(** * Refinement: the ring holds the recent part of the log

    The abstract log gives the byte of each position that has been filled. *)
Definition Log : Type := Z → option Z.
Implicit Type log : Log.

Definition write_log (lsn : Z) (data : list Z) (n : Z) log : Log :=
  fun x => if decide (lsn <= x < lsn + n) then data !! Z.to_nat (x - lsn) else log x.
Definition cut_log (lsn : Z) log : Log := fun x => if decide (x < lsn) then log x else None.

(** The index in the ring of a position. *)
Definition index b (x : Z) : nat := Z.to_nat ((x - val_ (start_lsn_ b)) mod reserved_buffer_size_ b).

(** [b] holds the bytes of [log] that are readable or not flushed yet. *)
Record repr b log : Prop := {
  r_init : is_inited_ b = true;
  r_buf : 0 < data_buf_ b;
  r_size : 0 < reserved_buffer_size_ b < 2 ^ 62;
  r_ring : Z.of_nat (length (ring b)) = reserved_buffer_size_ b;
  r_avail : 0 <= available_buffer_size_ b <= reserved_buffer_size_ b;
  r_start : 0 <= val_ (start_lsn_ b) <= val_ (reuse_lsn_ b);
  r_readable : val_ (start_lsn_ b) <= val_ (readable_begin_lsn_ b);
  r_reuse : val_ (reuse_lsn_ b) + reserved_buffer_size_ b < 2 ^ 63;
  r_range x v : log x = Some v → val_ (start_lsn_ b) <= x < val_ (reuse_lsn_ b) + reserved_buffer_size_ b;
  r_window : val_ (reuse_lsn_ b) <= val_ (readable_begin_lsn_ b) + reserved_buffer_size_ b;
  r_top x v : log x = Some v → x < val_ (readable_begin_lsn_ b) + reserved_buffer_size_ b;
  r_bytes x v : log x = Some v → val_ (readable_begin_lsn_ b) <= x ∨ val_ (reuse_lsn_ b) <= x →
                ring b !! index b x = Some v
}.

Lemma lsn_add_val l n : 0 <= val_ l + n < 2 ^ 64 → val_ (lsn_add l n) = val_ l + n.
Proof. intros H. cbn [val_ lsn_add]. by apply wrapu_small. Qed.

Lemma valid_small l : val_ l < 2 ^ 63 → is_valid l = true.
Proof. intros H. unfold is_valid, LOG_INVALID_LSN_VAL, UINT64_MAX. apply negb_true_iff, Z.eqb_neq. lia. Qed.

Lemma get_pos b lsn d :
  is_inited_ b = true → 0 < reserved_buffer_size_ b → 0 <= val_ (start_lsn_ b) <= val_ lsn → val_ lsn < 2 ^ 63 →
  get_buffer_pos_ lsn d b = Some (OB_SUCCESS, (val_ lsn - val_ (start_lsn_ b)) mod reserved_buffer_size_ b).
Proof.
  intros Hi Hs H1 H2. unfold get_buffer_pos_. rewrite Hi, valid_small by done. cbn [negb].
  unfold lsn_ltb. rewrite (proj2 (Z.ltb_ge _ _)) by lia. unfold lsn_diff.
  rewrite (wrapu_small 64), (wraps_small 64) by (unfold in_u, in_s; lia).
  by rewrite (proj2 (Z.ltb_ge _ _)), (proj2 (Z.eqb_neq _ _)) by lia.
Qed.

(** Positions less than a buffer apart have different indices. *)
Lemma index_inj size s x y :
  0 < size → s <= x → s <= y → Z.to_nat ((x - s) mod size) = Z.to_nat ((y - s) mod size) →
  x = y ∨ x + size <= y ∨ y + size <= x.
Proof.
  intros Hs Hx Hy E. apply Z2Nat.inj in E; [|apply Z.mod_pos_bound; lia|apply Z.mod_pos_bound; lia].
  pose proof (Z.div_mod (x - s) size ltac:(lia)). pose proof (Z.div_mod (y - s) size ltac:(lia)).
  rewrite E in *. set (qx := (x - s) / size) in *. set (qy := (y - s) / size) in *.
  destruct (Z.lt_trichotomy qx qy) as [?|[?|?]]; [right; left|left|right; right]; nia.
Qed.

Lemma at_index b x i :
  0 < reserved_buffer_size_ b →
  at_ (reserved_buffer_size_ b) ((x - val_ (start_lsn_ b)) mod reserved_buffer_size_ b) i = index b (x + i).
Proof. intros Hs. unfold at_, index. f_equal. rewrite Z.add_mod_idemp_l by lia. f_equal. lia. Qed.

(** The effect of [fill] on a range that has not been flushed. *)
Lemma fill_repr b log lsn data n l :
  repr b log → val_ (reuse_lsn_ b) <= val_ lsn → 0 < n → n <= Z.of_nat (length data) →
  val_ lsn + n <= val_ (reuse_lsn_ b) + reserved_buffer_size_ b →
  length l = length (ring b) →
  (∀ i, 0 <= i < n → l !! index b (val_ lsn + i) = data !! Z.to_nat i) →
  (∀ j, (∀ i, 0 <= i < n → index b (val_ lsn + i) ≠ j) → l !! j = ring b !! j) →
  repr (set_ring l (inc_update_readable_begin_lsn_ (gen_readable_begin_lsn_for_filling_ (lsn_add lsn n) b) b))
       (write_log (val_ lsn) data n log).
Proof.
  intros [H1 H2 H3 H4 H5 H6 H7 H8 H9 H11 H12 H10] Hlsn Hn Hd Hend Hl Hin Hout.
  set (size := reserved_buffer_size_ b) in *. set (st := val_ (start_lsn_ b)) in *.
  set (b' := inc_update_readable_begin_lsn_ _ b).
  assert (val_ (lsn_add lsn n) = val_ lsn + n) as Eend by (apply lsn_add_val; lia).
  assert (val_ (readable_begin_lsn_ b') >= val_ (readable_begin_lsn_ b)
          ∧ val_ (readable_begin_lsn_ b') >= val_ lsn + n - size) as [R1 R2].
  { unfold b', inc_update_readable_begin_lsn_, gen_readable_begin_lsn_for_filling_. rewrite Eend.
    fold size. rewrite (wrapu_small 64 size) by (unfold in_u; lia). unfold lsn_ltb.
    destruct (Z.leb_spec size (val_ lsn + n)).
    - unfold lsn_sub. rewrite Eend. cbn [val_]. rewrite wrapu_small by (unfold in_u; lia).
      destruct (Z.ltb_spec (val_ (readable_begin_lsn_ b)) (val_ lsn + n - size)); cbn; lia.
    - cbn [val_]. rewrite (proj2 (Z.ltb_ge _ _)) by lia. lia. }
  assert (∀ x, index (set_ring l b') x = index b x) as Eidx.
  { intros x. unfold b', inc_update_readable_begin_lsn_. by destruct (lsn_ltb _ _). }
  assert (reserved_buffer_size_ b' = size ∧ start_lsn_ b' = start_lsn_ b ∧ reuse_lsn_ b' = reuse_lsn_ b
          ∧ is_inited_ b' = is_inited_ b ∧ data_buf_ b' = data_buf_ b
          ∧ available_buffer_size_ b' = available_buffer_size_ b) as (E1 & E2 & E3 & E4 & E5 & E6)
    by (unfold b', inc_update_readable_begin_lsn_; by destruct (lsn_ltb _ _)).
  constructor; cbn [is_inited_ data_buf_ reserved_buffer_size_ available_buffer_size_ ring start_lsn_ reuse_lsn_
    readable_begin_lsn_ set_ring]; rewrite ?E1, ?E2, ?E3, ?E4, ?E5, ?E6; fold st; try done; [lia|lia| |lia| |].
  - intros x v. unfold write_log. destruct (decide _); [lia|]. by apply H9.
  - intros x v. unfold write_log. destruct (decide _); [lia|]. intros Hx. pose proof (H12 x v Hx). lia.
  - intros x v Hx Hr. rewrite Eidx. unfold write_log in Hx. destruct (decide _) as [Hi|Hi].
    + replace x with (val_ lsn + (x - val_ lsn)) by lia. rewrite Hin by lia. done.
    + rewrite Hout; [apply H10; [done|lia]|]. intros i Hi' E.
      pose proof (H9 x v Hx). unfold index in E. fold size st in E.
      apply index_inj in E as [|[|]]; lia.
Qed.

(** What the guards of the filling operations see. *)
Lemma fill_check_range b log lsn n :
  repr b log → val_ (reuse_lsn_ b) <= val_ lsn → 0 < n → val_ lsn + n < 2 ^ 63 →
  fill_check lsn (lsn_add lsn n) b
  = if decide (val_ lsn + n <= val_ (reuse_lsn_ b) + available_buffer_size_ b) then OB_SUCCESS else OB_EAGAIN.
Proof.
  intros [H1 H2 H3 H4 H5 H6 H7 H8 H9 H11 H12 H10] Hlsn Hn Hend. unfold fill_check, lsn_leb, lsn_gtb, lsn_ltb, lsn_eqb.
  rewrite !lsn_add_val by lia.
  rewrite (proj2 (Z.ltb_ge _ _)), (proj2 (Z.ltb_ge _ _)), (proj2 (Z.eqb_neq _ _)) by lia. cbn [orb].
  destruct (decide _); [by rewrite (proj2 (Z.ltb_ge _ _)) by lia|by rewrite (proj2 (Z.ltb_lt _ _)) by lia].
Qed.

Lemma flushed_refused b lsn n :
  0 <= val_ lsn → 0 < n → val_ lsn + n < 2 ^ 63 → val_ lsn + n <= val_ (reuse_lsn_ b) →
  fill_check lsn (lsn_add lsn n) b = OB_ERR_UNEXPECTED.
Proof.
  intros Hl Hn Hm Hr. unfold fill_check. destruct (lsn_ltb lsn _); [done|].
  unfold lsn_leb, lsn_gtb, lsn_ltb, lsn_eqb. rewrite lsn_add_val by lia.
  destruct (Z.ltb_spec (val_ lsn + n) (val_ (reuse_lsn_ b))); [done|]. by rewrite (proj2 (Z.eqb_eq (val_ (reuse_lsn_ b)) _)) by lia.
Qed.

Lemma readable_kept lsn b :
  let b' := inc_update_readable_begin_lsn_ lsn b in
  ring b' = ring b ∧ reserved_buffer_size_ b' = reserved_buffer_size_ b ∧ (∀ x, index b' x = index b x).
Proof. unfold inc_update_readable_begin_lsn_. by destruct (lsn_ltb _ _). Qed.

(** [fill_] at the place of a range, on the object whose readable position has moved. *)
Lemma fill_at lsn data n b b' :
  ring b' = ring b → reserved_buffer_size_ b' = reserved_buffer_size_ b → 0 < reserved_buffer_size_ b →
  Z.of_nat (length (ring b)) = reserved_buffer_size_ b → 0 < n <= reserved_buffer_size_ b → n <= Z.of_nat (length data) →
  ∃ l, fill_ ((val_ lsn - val_ (start_lsn_ b)) mod reserved_buffer_size_ b) data n b' = Some (set_ring l b')
    ∧ length l = length (ring b)
    ∧ (∀ i, 0 <= i < n → l !! index b (val_ lsn + i) = data !! Z.to_nat i)
    ∧ (∀ j, (∀ i, 0 <= i < n → index b (val_ lsn + i) ≠ j) → l !! j = ring b !! j).
Proof.
  intros Er Es Hs Hr Hn Hd. pose proof (Z.mod_pos_bound (val_ lsn - val_ (start_lsn_ b)) _ Hs) as Hp.
  destruct (fill_lookup ((val_ lsn - val_ (start_lsn_ b)) mod reserved_buffer_size_ b) data n b')
    as (l & E & Hl & Hin & Hout); rewrite ?Er, ?Es; try done.
  exists l. rewrite E. split; [done|]. rewrite Er, Es in *. split; [done|]. split.
  - intros i Hi. rewrite <- at_index by done. by apply Hin.
  - intros j Hj. apply Hout. intros i Hi. rewrite at_index by done. by apply Hj.
Qed.

Lemma fill_refines b log lsn data n :
  repr b log → val_ (reuse_lsn_ b) <= val_ lsn → 0 < n <= Z.of_nat (length data) → val_ lsn + n < 2 ^ 63 →
  if decide (val_ lsn + n <= val_ (reuse_lsn_ b) + available_buffer_size_ b)
  then ∃ b', fill lsn (Some data) n b = Some (OB_SUCCESS, b') ∧ repr b' (write_log (val_ lsn) data n log)
             ∧ reuse_lsn_ b' = reuse_lsn_ b ∧ reserved_buffer_size_ b' = reserved_buffer_size_ b
  else fill lsn (Some data) n b = Some (OB_EAGAIN, b).
Proof.
  intros Hr Hlsn Hn Hend. pose proof Hr as [H1 H2 H3 H4 H5 H6 H7 H8 H9 H11 H12 H10]. unfold fill.
  rewrite H1, valid_small, (proj2 (Z.leb_gt _ _)) by lia. cbn [negb orb].
  rewrite (fill_check_range b log lsn n) by (done || lia). destruct (decide _) as [Hfit|]; [|done].
  change (ob_failed OB_SUCCESS) with false. cbv iota. rewrite get_pos by (done || lia).
  change (ob_failed OB_SUCCESS) with false. cbv iota zeta.
  set (b1 := inc_update_readable_begin_lsn_ _ b).
  destruct (readable_kept (gen_readable_begin_lsn_for_filling_ (lsn_add lsn n) b) b) as (Er & Es & _). fold b1 in Er, Es.
  destruct (fill_at lsn data n b b1 Er Es) as (l & E & Hl & Hin & Hout); [lia|done|lia|lia|].
  rewrite E. eexists. split; [reflexivity|]. split; [apply fill_repr; try done; lia|].
  unfold b1, inc_update_readable_begin_lsn_. by destruct (lsn_ltb _ _).
Qed.

(** A [memset] is a copy of zeros. *)
Lemma zero_copy pos n from m b :
  0 <= from → 0 <= n → from + n <= m →
  zero pos n b = copy_in pos (replicate (Z.to_nat m) PADDING_LOG_CONTENT_CHAR) from n b.
Proof.
  intros Hf Hn Hm. unfold zero, copy_in. rewrite length_replicate, (proj2 (Z.leb_le (from + n) _)), andb_true_r by lia.
  destruct (_ && _); [|done]. do 3 f_equal. unfold slice. rewrite drop_replicate, take_replicate. f_equal. lia.
Qed.

(** The body of a padding: the data, and zeros behind it. *)
Definition padded (data : list Z) (n size : Z) : list Z :=
  take (Z.to_nat n) data ++ replicate (Z.to_nat (size - n)) PADDING_LOG_CONTENT_CHAR.

Lemma padded_lookup data n size i :
  0 <= n <= Z.of_nat (length data) → n <= size → 0 <= i < size →
  padded data n size !! Z.to_nat i = if decide (i < n) then data !! Z.to_nat i else Some PADDING_LOG_CONTENT_CHAR.
Proof.
  intros Hn Hs Hi. unfold padded. destruct (decide _).
  - rewrite lookup_app_l by (rewrite length_take; lia). by rewrite lookup_take_lt by lia.
  - rewrite lookup_app_r by (rewrite length_take; lia). rewrite length_take, lookup_replicate_2 by lia. done.
Qed.

Lemma fill_padding_refines b log lsn data n size :
  repr b log → val_ (reuse_lsn_ b) <= val_ lsn → 0 < n <= Z.of_nat (length data) → n <= size → val_ lsn + size < 2 ^ 63 →
  if decide (val_ lsn + size <= val_ (reuse_lsn_ b) + available_buffer_size_ b)
  then ∃ b', fill_padding_body lsn data n size b = Some (OB_SUCCESS, b')
             ∧ repr b' (write_log (val_ lsn) (padded data n size) size log)
  else fill_padding_body lsn data n size b = Some (OB_EAGAIN, b).
Proof.
  intros Hr Hlsn Hn Hsz Hend. pose proof Hr as [H1 H2 H3 H4 H5 H6 H7 H8 H9 H11 H12 H10]. unfold fill_padding_body.
  rewrite H1, valid_small, (proj2 (Z.leb_gt _ _)) by lia. cbn [negb orb].
  rewrite (fill_check_range b log lsn size) by (done || lia). destruct (decide _) as [Hfit|]; [|done].
  change (ob_failed OB_SUCCESS) with false. cbv iota. rewrite get_pos by (done || lia).
  change (ob_failed OB_SUCCESS) with false. cbv iota zeta.
  set (b1 := inc_update_readable_begin_lsn_ _ b).
  destruct (readable_kept (gen_readable_begin_lsn_for_filling_ (lsn_add lsn size) b) b) as (Er & Es & _). fold b1 in Er, Es.
  set (pos := (val_ lsn - val_ (start_lsn_ b)) mod reserved_buffer_size_ b).
  pose proof (Z.mod_pos_bound (val_ lsn - val_ (start_lsn_ b)) (reserved_buffer_size_ b) ltac:(lia)) as Hpos. fold pos in Hpos.
  destruct (fill_at lsn (replicate (Z.to_nat size) PADDING_LOG_CONTENT_CHAR) size b b1 Er Es)
    as (l1 & E1 & Hl1 & Hin1 & Hout1); [lia|done|lia|rewrite length_replicate; lia|]. fold pos in E1.
  unfold fill_ in E1 at 1. cbv zeta in E1. set (k := Z.min (reserved_buffer_size_ b1 - pos) size) in *.
  rewrite (zero_copy pos k 0 size) by lia. destruct (copy_in pos _ 0 k b1) as [b2|]; [|done].
  assert ((if k <? size then zero 0 (size - k) b2 else Some b2) = Some (set_ring l1 b1)) as ->.
  { rewrite <- E1. destruct (k <? size); [|done]. rewrite (zero_copy 0 (size - k) k size) by lia. done. }
  destruct (fill_lookup pos data n (set_ring l1 b1)) as (l & E & Hl & Hin & Hout);
    cbn [reserved_buffer_size_ ring set_ring] in *; rewrite ?Es, ?Hl1 in *; [lia|lia|lia|lia|].
  rewrite E. eexists. split; [reflexivity|].
  change (set_ring l (set_ring l1 b1)) with (set_ring l b1).
  apply fill_repr; [done|lia|lia| |lia|by rewrite Hl| |].
  - unfold padded. rewrite length_app, length_take, length_replicate. lia.
  - intros i Hi. rewrite padded_lookup by lia. destruct (decide (i < n)) as [Hin'|Hin'].
    + rewrite <- at_index by lia. fold pos. by apply Hin; lia.
    + rewrite Hout; [rewrite Hin1 by done; by apply lookup_replicate_2; lia|].
      intros i' Hi' E'. unfold pos in E'. rewrite at_index in E' by lia. unfold index in E'.
      apply index_inj in E' as [|[|]]; lia.
  - intros j Hj. rewrite Hout; [apply Hout1; done|].
    intros i Hi. unfold pos. rewrite at_index by lia. apply Hj. lia.
Qed.

(** ** Reading *)
Lemma window_lookup (l : list Z) size pos n :
  Z.of_nat (length l) = size → 0 <= pos < size → 0 <= n <= size →
  let k := Z.min (size - pos) n in
  let w := slice l pos (Z.to_nat k) ++ (if k <? n then slice l 0 (Z.to_nat (n - k)) else []) in
  Z.of_nat (length w) = n ∧ ∀ i, 0 <= i < n → w !! Z.to_nat i = l !! at_ size pos i.
Proof.
  intros Hl Hp Hn k w. assert (length (slice l pos (Z.to_nat k)) = Z.to_nat k) as L1 by (apply slice_length; lia).
  assert (length (slice l 0 (Z.to_nat (n - k))) = Z.to_nat (n - k)) as L2 by (apply slice_length; lia). split.
  - unfold w. rewrite length_app, L1. destruct (Z.ltb_spec k n); [rewrite L2|cbn]; lia.
  - intros i Hi. unfold w. destruct (at_cases size pos i Hp ltac:(lia)) as [[H ->]|[H ->]].
    + rewrite lookup_app_l by lia. rewrite slice_lookup by lia. f_equal. lia.
    + rewrite lookup_app_r, L1 by lia. rewrite (proj2 (Z.ltb_lt k n)) by lia. rewrite slice_lookup by lia. f_equal. lia.
Qed.

(** The memory the pieces of [get_log_buf] point into. *)
Definition mem_of b : LogWriteBuf.memory :=
  fun a => if data_buf_ b <=? a then ring b !! Z.to_nat (a - data_buf_ b) else None.

Lemma load_ring b pos n :
  0 <= pos → pos + Z.of_nat n <= Z.of_nat (length (ring b)) →
  LogWriteBuf.load (mem_of b) (data_buf_ b + pos) n = Some (slice (ring b) pos n).
Proof.
  revert pos. induction n as [|n IH]; intros pos Hp Hn; cbn [LogWriteBuf.load]; [done|].
  unfold mem_of at 1. rewrite (proj2 (Z.leb_le _ _)) by lia. replace (data_buf_ b + pos - data_buf_ b) with pos by lia.
  destruct (lookup_lt_is_Some_2 (ring b) (Z.to_nat pos) ltac:(lia)) as [v Hv]. rewrite Hv.
  replace (data_buf_ b + pos + 1) with (data_buf_ b + (pos + 1)) by lia. rewrite IH by lia. f_equal. unfold slice.
  replace (Z.to_nat (pos + 1)) with (S (Z.to_nat pos)) by lia. by rewrite (drop_S _ _ _ Hv).
Qed.

Lemma push_small grow buf len w :
  buf ≠ 0 → 0 < len <= MAX_LOG_BUFFER_SIZE → grow (length w) = true →
  LogWriteBuf.push_back grow buf len w = (OB_SUCCESS, w ++ [LogWriteBuf.mkInner buf len]).
Proof.
  intros Hb Hl Hg. unfold LogWriteBuf.push_back. rewrite (proj2 (Z.eqb_neq _ _)), (proj2 (Z.leb_gt _ _)) by lia.
  cbn [orb]. assert (0 <= len / MAX_LOG_BUFFER_SIZE) by (apply Z.div_pos; lia).
  unfold LogWriteBuf.push_rounds. rewrite Z2Nat.inj_add, Nat.add_1_r by lia. cbn [LogWriteBuf.push_loop].
  rewrite (proj2 (Z.ltb_lt _ _)), Z.min_l, Hg, Z.sub_diag by lia. replace (buf + len - len) with buf by lia.
  by destruct (Z.to_nat (len / MAX_LOG_BUFFER_SIZE)).
Qed.

(** The pieces of a range hold the bytes of the ring from its index on. *)
Lemma get_log_buf_window b log grow lsn n :
  repr b log → val_ (start_lsn_ b) <= val_ lsn → val_ lsn < 2 ^ 63 →
  0 < n <= reserved_buffer_size_ b → n <= MAX_LOG_BUFFER_SIZE → grow 0%nat = true → grow 1%nat = true →
  ∃ w bs, get_log_buf grow lsn n [] b = Some (OB_SUCCESS, w)
    ∧ LogWriteBuf.contents (mem_of b) w = Some bs
    ∧ LogWriteBuf.wf w ∧ Forall (fun p => LogWriteBuf.buf_ p ≠ 0) w ∧ (1 <= length w <= 2)%nat
    ∧ Z.of_nat (length bs) = n
    ∧ ∀ i, 0 <= i < n → bs !! Z.to_nat i = ring b !! index b (val_ lsn + i).
Proof.
  intros [H1 H2 H3 H4 H5 H6 H7 H8 H9 H11 H12 H10] Hlsn Hmax Hn Hn2 Hg0 Hg1. unfold get_log_buf.
  rewrite H1, valid_small, (proj2 (Z.leb_gt _ _)) by lia. cbn [negb orb]. unfold lsn_ltb.
  rewrite (proj2 (Z.ltb_ge _ _)) by lia. rewrite get_pos by (done || lia).
  change (ob_failed OB_SUCCESS) with false. cbv iota zeta.
  set (pos := (val_ lsn - val_ (start_lsn_ b)) mod reserved_buffer_size_ b).
  pose proof (Z.mod_pos_bound (val_ lsn - val_ (start_lsn_ b)) (reserved_buffer_size_ b) ltac:(lia)) as Hpos. fold pos in Hpos.
  set (k := Z.min (reserved_buffer_size_ b - pos) n). rewrite push_small by (lia || exact Hg0).
  change (ob_failed (OB_SUCCESS, _).1) with false. cbv iota. cbn [app snd].
  destruct (window_lookup (ring b) _ pos n H4 Hpos ltac:(lia)) as [Hlen Hlook]. cbv zeta in Hlen, Hlook. fold k in Hlen, Hlook.
  assert (∀ i, at_ (reserved_buffer_size_ b) pos i = index b (val_ lsn + i)) as Hat by (intros i; apply at_index; lia).
  assert (LogWriteBuf.bytes_of (mem_of b) (LogWriteBuf.mkInner (data_buf_ b + pos) k)
          = Some (slice (ring b) pos (Z.to_nat k))) as Hfst by (apply load_ring; lia).
  assert (∀ i, 0 <= i < n → (slice (ring b) pos (Z.to_nat k) ++
            (if k <? n then slice (ring b) 0 (Z.to_nat (n - k)) else [])) !! Z.to_nat i
            = ring b !! index b (val_ lsn + i)) as Hidx by (intros i Hi; by rewrite Hlook, Hat).
  destruct (Z.ltb_spec k n).
  - rewrite push_small by (lia || exact Hg1). eexists _, _. split; [reflexivity|]. split.
    + cbn [LogWriteBuf.contents app]. rewrite Hfst. unfold LogWriteBuf.bytes_of. cbn [LogWriteBuf.buf_ LogWriteBuf.buf_len_].
      replace (data_buf_ b) with (data_buf_ b + 0) by lia. by rewrite load_ring, app_nil_r by lia.
    + split; [repeat constructor; cbn; lia|]. split; [repeat constructor; cbn; lia|]. split; [cbn; lia|]. eauto.
  - eexists _, _. split; [reflexivity|]. split; [cbn [LogWriteBuf.contents]; by rewrite Hfst|].
    split; [repeat constructor; cbn; lia|]. split; [repeat constructor; cbn; lia|]. split; [cbn; lia|]. eauto.
Qed.

Lemma read_data_window b log begin in_size buf_size :
  repr b log → val_ (readable_begin_lsn_ b) <= val_ begin → val_ begin < 2 ^ 63 → 0 < in_size <= buf_size →
  let n := Z.max 0 (Z.min (val_ (reuse_lsn_ b) - val_ begin) in_size) in
  ∃ bs, read_data begin in_size (Some buf_size) b = Some (OB_SUCCESS, bs) ∧ Z.of_nat (length bs) = n
    ∧ ∀ i, 0 <= i < n → bs !! Z.to_nat i = ring b !! index b (val_ begin + i).
Proof.
  intros [H1 H2 H3 H4 H5 H6 H7 H8 H9 H11 H12 H10] Hb Hmax Hin n. unfold read_data.
  rewrite valid_small, (proj2 (Z.leb_gt _ _)), bool_decide_eq_false_2 by (done || lia). cbn [negb orb].
  rewrite get_pos by (done || lia). change (ob_failed OB_SUCCESS) with false. cbv iota.
  set (pos := (val_ begin - val_ (start_lsn_ b)) mod reserved_buffer_size_ b).
  pose proof (Z.mod_pos_bound (val_ begin - val_ (start_lsn_ b)) (reserved_buffer_size_ b) ltac:(lia)) as Hpos. fold pos in Hpos.
  unfold lsn_gtb, lsn_ltb. rewrite (proj2 (Z.ltb_ge (val_ begin) _)) by lia.
  destruct (Z.ltb_spec (val_ begin) (val_ (reuse_lsn_ b))) as [Hlt|Hge].
  2: { exists []. split; [done|]. split; [cbn; lia|]. lia. }
  cbv zeta. unfold lsn_diff. rewrite (wrapu_small 64), (wraps_small 64) by (unfold in_u, in_s; lia).
  replace (Z.min (val_ (reuse_lsn_ b) - val_ begin) in_size) with n by lia. cbn [default].
  destruct (window_lookup (ring b) _ pos n H4 Hpos ltac:(lia)) as [Hlen Hlook]. cbv zeta in Hlen, Hlook.
  set (k := Z.min (reserved_buffer_size_ b - pos) n) in *. cbn [from_option id].
  rewrite (proj2 (Z.ltb_ge n 0)), (proj2 (Z.ltb_ge buf_size n)), !(proj2 (Z.ltb_ge (Z.of_nat _) _)) by lia. cbn [orb].
  eexists. split; [reflexivity|]. split; [exact Hlen|]. intros i Hi. rewrite Hlook by done. unfold pos.
  by rewrite at_index by lia.
Qed.

(** ** The operations refine the abstract log *)
Lemma init_repr alloc lsn b :
  is_inited_ b = false → 0 < alloc → 0 <= val_ lsn < 2 ^ 62 →
  ∃ b', init alloc lsn b = (OB_SUCCESS, b') ∧ repr b' (fun _ => None)
    ∧ reuse_lsn_ b' = lsn ∧ available_buffer_size_ b' = FOLLOWER_DEFAULT_GROUP_BUFFER_SIZE.
Proof.
  intros Hi Ha Hl. unfold init. rewrite Hi, valid_small, (proj2 (Z.eqb_neq _ _)) by lia. cbn [negb].
  assert (FOLLOWER_DEFAULT_GROUP_BUFFER_SIZE = 2 ^ 23) as E by reflexivity. revert E.
  generalize FOLLOWER_DEFAULT_GROUP_BUFFER_SIZE as size. intros size E.
  eexists. split; [reflexivity|]. split; [|done].
  constructor; cbn [is_inited_ data_buf_ reserved_buffer_size_ available_buffer_size_ ring start_lsn_ reuse_lsn_
    readable_begin_lsn_]; try done; try lia. rewrite length_replicate. lia.
Qed.

Lemma reuse_repr b log lsn :
  repr b log → 0 <= val_ lsn → val_ lsn + reserved_buffer_size_ b < 2 ^ 63 →
  val_ lsn <= val_ (reuse_lsn_ b) ∨ (∃ v, log (val_ lsn - 1) = Some v) →
  ∃ b', inc_update_reuse_lsn lsn b = (OB_SUCCESS, b') ∧ repr b' log
    ∧ val_ (reuse_lsn_ b') = Z.max (val_ (reuse_lsn_ b)) (val_ lsn).
Proof.
  intros [H1 H2 H3 H4 H5 H6 H7 H8 H9 H11 H12 H10] Hl Hm Hf. unfold inc_update_reuse_lsn.
  rewrite valid_small by lia. cbn [negb]. eexists. split; [reflexivity|]. unfold lsn_gtb, lsn_ltb.
  destruct (Z.ltb_spec (val_ (reuse_lsn_ b)) (val_ lsn)) as [Hlt|Hge]; [|by split; [constructor|lia]].
  split; [|cbn; lia]. destruct Hf as [|[v Hv]]; [lia|]. pose proof (H12 _ _ Hv).
  constructor; cbn [is_inited_ data_buf_ reserved_buffer_size_ available_buffer_size_ ring start_lsn_ reuse_lsn_
    readable_begin_lsn_ set_reuse]; try done; try lia.
  - intros x w Hx. pose proof (H9 x w Hx). lia.
  - intros x w Hx Hr. apply (H10 x w Hx). lia.
Qed.

Lemma truncate_repr b log lsn :
  repr b log → val_ (start_lsn_ b) <= val_ lsn → val_ lsn + reserved_buffer_size_ b < 2 ^ 63 →
  ∃ b', truncate lsn b = (OB_SUCCESS, b') ∧ repr b' (cut_log (val_ lsn) log) ∧ reuse_lsn_ b' = lsn
    ∧ val_ (readable_begin_lsn_ b') = Z.max (val_ (readable_begin_lsn_ b)) (val_ lsn).
Proof.
  intros [H1 H2 H3 H4 H5 H6 H7 H8 H9 H11 H12 H10] Hl Hm. unfold truncate, inc_update_readable_begin_lsn_, lsn_ltb.
  rewrite valid_small by lia. rewrite (proj2 (Z.ltb_ge (val_ lsn) _)) by lia. cbn [negb].
  eexists. split; [reflexivity|].
  destruct (Z.ltb_spec (val_ (readable_begin_lsn_ b)) (val_ lsn)); (split; [|cbn; split; [done|lia]]);
    constructor; cbn [is_inited_ data_buf_ reserved_buffer_size_ available_buffer_size_ ring start_lsn_ reuse_lsn_
      readable_begin_lsn_ set_reuse set_readable]; try done; try lia;
    unfold cut_log; intros x v; destruct (decide _); try done; intros Hx; try lia;
    pose proof (H9 x v Hx); lia.
Qed.

(** C37: the ring buffer refines the log.  From a state that holds the recent part
    of an abstract log: filling a range that begins at or behind [reuse_lsn_] writes
    this range of the log, or is refused with [OB_EAGAIN] when it does not fit; one
    that has been flushed as a whole is refused with [OB_ERR_UNEXPECTED]; a padding
    body is its data followed by zeros.  [inc_update_reuse_lsn], to any position up
    to the flushed end of the log, moves [reuse_lsn_] only forwards and keeps the log;
    [truncate], to any position from [start_lsn_] on, before [reuse_lsn_] or behind
    it, cuts the log, moves [reuse_lsn_] there, and the first readable position only
    forwards.  Each of them leaves a state that holds the recent part of the new log,
    and a refusal leaves the buffer as it was. *)
Theorem group_buffer_refines_log b log lsn data n size pos :
  repr b log → 0 < n <= Z.of_nat (length data) → n <= size →
  0 <= val_ lsn → val_ lsn + size < 2 ^ 63 → 0 <= val_ pos → val_ pos + reserved_buffer_size_ b < 2 ^ 63 →
  (val_ (reuse_lsn_ b) <= val_ lsn →
   if decide (val_ lsn + n <= val_ (reuse_lsn_ b) + available_buffer_size_ b)
   then ∃ b', fill lsn (Some data) n b = Some (OB_SUCCESS, b') ∧ repr b' (write_log (val_ lsn) data n log)
              ∧ reuse_lsn_ b' = reuse_lsn_ b ∧ reserved_buffer_size_ b' = reserved_buffer_size_ b
   else fill lsn (Some data) n b = Some (OB_EAGAIN, b))
  ∧ (val_ (reuse_lsn_ b) <= val_ lsn →
     if decide (val_ lsn + size <= val_ (reuse_lsn_ b) + available_buffer_size_ b)
     then ∃ b', fill_padding_body lsn data n size b = Some (OB_SUCCESS, b')
                ∧ repr b' (write_log (val_ lsn) (padded data n size) size log)
     else fill_padding_body lsn data n size b = Some (OB_EAGAIN, b))
  ∧ (val_ lsn + size <= val_ (reuse_lsn_ b) →
     fill lsn (Some data) n b = Some (OB_ERR_UNEXPECTED, b)
     ∧ fill_padding_body lsn data n size b = Some (OB_ERR_UNEXPECTED, b))
  ∧ (val_ pos <= val_ (reuse_lsn_ b) ∨ (∃ v, log (val_ pos - 1) = Some v) →
     ∃ b', inc_update_reuse_lsn pos b = (OB_SUCCESS, b') ∧ repr b' log
           ∧ val_ (reuse_lsn_ b') = Z.max (val_ (reuse_lsn_ b)) (val_ pos))
  ∧ (if decide (val_ (start_lsn_ b) <= val_ pos)
     then ∃ b', truncate pos b = (OB_SUCCESS, b') ∧ repr b' (cut_log (val_ pos) log) ∧ reuse_lsn_ b' = pos
                ∧ val_ (readable_begin_lsn_ b') = Z.max (val_ (readable_begin_lsn_ b)) (val_ pos)
     else truncate pos b = (OB_INVALID_ARGUMENT, b)).
Proof.
  intros Hr Hn Hs Hl Hm Hp Hpm. pose proof Hr as [H1 H2 H3 H4 H5 H6 H7 H8 H9 H11 H12 H10]. split_and!.
  - intros Hlsn. apply (fill_refines b log); (done || lia).
  - intros Hlsn. apply (fill_padding_refines b log); (done || lia).
  - intros Hfl. assert (∀ k, 0 < k <= size → fill_check lsn (lsn_add lsn k) b = OB_ERR_UNEXPECTED) as Hc
      by (intros; apply flushed_refused; lia).
    unfold fill, fill_padding_body. rewrite H1, valid_small, !(proj2 (Z.leb_gt _ _)), !Hc by lia. done.
  - intros Hf. apply (reuse_repr b log); (done || lia).
  - destruct (decide _); [by apply (truncate_repr b log)|]. unfold truncate, lsn_ltb.
    by rewrite valid_small, (proj2 (Z.ltb_lt _ _)) by lia.
Qed.

(** : reading from the ring.  A range from a readable position on is copied up to
    the flushed position, a range that is not flushed yet is handed out as one or
    two pieces of the buffer, and in both cases the bytes are those of the log. *)
Theorem group_buffer_reads_log b log grow lsn n buf_size :
  repr b log → val_ lsn < 2 ^ 63 → 0 < n <= reserved_buffer_size_ b → n <= MAX_LOG_BUFFER_SIZE → n <= buf_size →
  grow 0%nat = true → grow 1%nat = true →
  (val_ (readable_begin_lsn_ b) <= val_ lsn →
   ∃ bs, read_data lsn n (Some buf_size) b = Some (OB_SUCCESS, bs)
     ∧ Z.of_nat (length bs) = Z.max 0 (Z.min (val_ (reuse_lsn_ b) - val_ lsn) n)
     ∧ ∀ i v, 0 <= i < Z.of_nat (length bs) → log (val_ lsn + i) = Some v → bs !! Z.to_nat i = Some v)
  ∧ (val_ (start_lsn_ b) <= val_ lsn < val_ (readable_begin_lsn_ b) →
     read_data lsn n (Some buf_size) b = Some (OB_ERR_OUT_OF_LOWER_BOUND, []))
  ∧ (val_ (reuse_lsn_ b) <= val_ lsn →
     ∃ w bs, get_log_buf grow lsn n [] b = Some (OB_SUCCESS, w)
       ∧ LogWriteBuf.contents (mem_of b) w = Some bs ∧ Z.of_nat (length bs) = n ∧ (1 <= length w <= 2)%nat
       ∧ ∀ i v, 0 <= i < n → log (val_ lsn + i) = Some v → bs !! Z.to_nat i = Some v).
Proof.
  intros Hr Hl Hn Hmax Hb Hg0 Hg1. pose proof Hr as [H1 H2 H3 H4 H5 H6 H7 H8 H9 H11 H12 H10]. split_and!.
  - intros Hread. destruct (read_data_window b log lsn n buf_size Hr Hread ltac:(lia) ltac:(lia)) as (bs & E & Hlen & Hlook).
    exists bs. split; [done|]. split; [done|]. intros i v Hi Hv. rewrite Hlook by lia. apply H10; [done|lia].
  - intros Hread. unfold read_data.
    rewrite valid_small, (proj2 (Z.leb_gt _ _)), bool_decide_eq_false_2 by (done || lia). cbn [negb orb].
    rewrite get_pos by (done || lia). change (ob_failed OB_SUCCESS) with false. cbv iota. unfold lsn_ltb.
    by rewrite (proj2 (Z.ltb_lt _ _)) by lia.
  - intros Hreuse. destruct (get_log_buf_window b log grow lsn n Hr ltac:(lia) ltac:(lia) Hn Hmax Hg0 Hg1)
      as (w & bs & E & Hc & _ & _ & Hw & Hlen & Hlook).
    exists w, bs. split; [done|]. split; [done|]. split; [done|]. split; [done|]. intros i v Hi Hv. rewrite Hlook by lia. apply H10; [done|lia].
Qed.

(** * Witnesses: a ring of eight bytes *)
Definition small : LogGroupBuffer :=
  mkGB (mkLSN 100) (mkLSN 100) (mkLSN 100) 8 8 1 (replicate 8 0) true.

Lemma small_repr : repr small (fun _ => None).
Proof. constructor; cbn; try done; lia. Qed.

(** Five bytes are written at 103, flushed, and cut off again from 105 on. *)
Definition small_filled : LogGroupBuffer := default small (snd <$> fill (mkLSN 103) (Some [1; 2; 3; 4; 5]) 5 small).
Definition small_flushed : LogGroupBuffer := (inc_update_reuse_lsn (mkLSN 108) small_filled).2.

Lemma group_buffer_refines_log_witness :
  let log := write_log 103 [1; 2; 3; 4; 5] 5 (fun _ => None) in
  fill (mkLSN 103) (Some [1; 2; 3; 4; 5]) 5 small = Some (OB_SUCCESS, small_filled) ∧ repr small_filled log
  ∧ repr small_flushed log ∧ reuse_lsn_ small_flushed = mkLSN 108
  ∧ ∃ b', truncate (mkLSN 105) small_flushed = (OB_SUCCESS, b') ∧ repr b' (cut_log 105 log) ∧ reuse_lsn_ b' = mkLSN 105.
Proof.
  intros log.
  assert (fill (mkLSN 103) (Some [1; 2; 3; 4; 5]) 5 small = Some (OB_SUCCESS, small_filled)) as E1 by (vm_compute; reflexivity).
  destruct (group_buffer_refines_log small (fun _ => None) (mkLSN 103) [1; 2; 3; 4; 5] 5 5 (mkLSN 103) small_repr)
    as (H1 & _); [cbn; lia|lia|cbn; lia|cbn; lia|cbn; lia|cbn; lia|].
  specialize (H1 ltac:(cbn; lia)). rewrite decide_True in H1 by (cbn; lia). destruct H1 as (b1 & E & R1 & _).
  assert (b1 = small_filled) as -> by (unfold small_filled; by rewrite E). split; [exact E1|]. split; [exact R1|].
  destruct (group_buffer_refines_log small_filled log (mkLSN 108) [1; 2; 3; 4; 5] 5 5 (mkLSN 108) R1)
    as (_ & _ & _ & H2 & _); [cbn; lia|lia|cbn; lia|cbn; lia|cbn; lia|vm_compute; reflexivity|].
  destruct H2 as (b2 & E2 & R2 & _); [right; exists 5; reflexivity|].
  assert (b2 = small_flushed) as -> by (unfold small_flushed; by rewrite E2). split; [exact R2|]. split; [reflexivity|].
  destruct (group_buffer_refines_log small_flushed log (mkLSN 108) [1; 2; 3; 4; 5] 5 5 (mkLSN 105) R2)
    as (_ & _ & _ & _ & H3); [cbn; lia|lia|cbn; lia|cbn; lia|cbn; lia|vm_compute; reflexivity|].
  rewrite decide_True in H3 by (vm_compute; congruence). destruct H3 as (b3 & E3 & R3 & El & _).
  exists b3. split; [exact E3|]. split; [exact R3|exact El].
Defined.

Lemma group_buffer_reads_log_witness :
  ∃ w, get_log_buf (fun _ => true) (mkLSN 103) 5 [] small = Some (OB_SUCCESS, w)
    ∧ LogWriteBuf.contents (mem_of small) w = Some [0; 0; 0; 0; 0].
Proof.
  destruct (group_buffer_reads_log small (fun _ => None) (fun _ => true) (mkLSN 103) 5 5 small_repr)
    as (_ & _ & H); [cbn; lia|cbn; lia|vm_compute; congruence|lia|reflexivity|reflexivity|].
  destruct H as (w & bs & E & Hc & _); [cbn; lia|]. exists w. split; [exact E|].
  vm_compute in E. injection E as <-. vm_compute. reflexivity.
Defined.
End LogGroupBuffer.
