(* ===== verification/LogSubmit.v ===== *)
(** A group on its way from the leader to a follower: the header of a frozen log task
    is generated from the ring buffer ([LogSlidingWindow::generate_group_entry_header_])
    and written into it, and the pieces of the group are handed to the network and
    the disk (the part of [LogSlidingWindow::handle_next_submit_log_] between the
    header and the pushing); the follower parses the group, checks it and verifies
    its accumulated checksum. *)
From S2P Require Import Prelude Serialization Scn Lsn Codec LogEntryHeader LogEntry LogWriteBuf LogGroupEntryHeader LogGroupChecksum LogGroupEntry LogChecksum LogGroupBuffer.
Import Ser Codec.

Module LogSubmit.
Import LogGroupEntryHeader.

(** [LogTaskHeaderInfo] of [log_task.h]. *)
Record LogTaskHeaderInfo : Set := mkInfo {
  begin_lsn_ : Lsn.LSN;
  end_lsn_ : Lsn.LSN;
  i_log_id_ : Z;
  min_scn_ : Scn.SCN;
  i_max_scn_ : Scn.SCN;
  data_len_ : Z;
  i_proposal_id_ : Z;
  prev_lsn_ : Lsn.LSN;
  prev_proposal_id_ : Z;
  i_committed_end_lsn_ : Lsn.LSN;
  data_checksum_ : Z;
  accum_checksum_ : Z;
  is_padding_log_ : bool;
  is_raw_write_ : bool
}.

Definition no_lsn : Lsn.LSN := Lsn.mkLSN Lsn.LOG_INVALID_LSN_VAL.
Definition info_reset (i : LogTaskHeaderInfo) : LogTaskHeaderInfo :=
  mkInfo no_lsn no_lsn Lsn.OB_INVALID_LOG_ID Scn.invalid_scn Scn.invalid_scn 0 Lsn.INVALID_PROPOSAL_ID
    no_lsn Lsn.INVALID_PROPOSAL_ID no_lsn (-1) (-1) false false.
Definition info_is_valid (i : LogTaskHeaderInfo) : bool := Lsn.is_valid_log_id (i_log_id_ i) && Lsn.is_valid (begin_lsn_ i).

Section submit.
Context (XXH64 : list Z → Z → Z) (ob_crc64 : Z → list Z → Z) (grow : nat → bool).

(** What [generate_group_entry_header_] leaves: the code, the header, the checksum of
    the data, whether the accumulated checksum has been taken, and its object. *)
Record Generated : Set := mkGen {
  g_ret : Z;
  group_header : LogGroupEntryHeader;
  group_log_data_checksum : Z;
  is_accum_checksum_acquired : bool;
  checksum_ : LogChecksum.LogChecksum
}.

Definition generate_group_entry_header_ (log_id : Z) (log_task : option LogTaskHeaderInfo)
    (global_committed_end_lsn : Lsn.LSN) (group_buffer_ : LogGroupBuffer.LogGroupBuffer) (s : Generated)
    : option Generated :=
  let done rc h d acq c := Some (mkGen rc h d acq c) in
  let fail rc := done rc (group_header s) (group_log_data_checksum s) (is_accum_checksum_acquired s) (checksum_ s) in
  match log_task with
  | None => fail OB_INVALID_ARGUMENT
  | Some info =>
      if Lsn.OB_INVALID_LOG_ID =? log_id then fail OB_INVALID_ARGUMENT
      else
        let log_committed_end_lsn :=
          if negb (Lsn.is_valid (i_committed_end_lsn_ info)) then global_committed_end_lsn
          else i_committed_end_lsn_ info in
        let group_entry_size := HEADER_SER_SIZE + data_len_ info in
        if Lsn.lsn_gtb log_committed_end_lsn (begin_lsn_ info) then fail OB_ERR_UNEXPECTED
        else
          match LogGroupBuffer.get_log_buf grow (begin_lsn_ info) group_entry_size [] group_buffer_ with
          | None => None
          | Some (rc, log_write_buf) =>
              if ob_failed rc then fail rc
              else
                match generate XXH64 ob_crc64 (LogGroupBuffer.mem_of group_buffer_) log_write_buf (is_raw_write_ info)
                        (is_padding_log_ info) (data_len_ info) (i_max_scn_ info) log_id log_committed_end_lsn
                        (i_proposal_id_ info) (group_log_data_checksum s) (group_header s) with
                | None => None
                | Some (rc, data_checksum, h) =>
                    if ob_failed rc then done rc h data_checksum (is_accum_checksum_acquired s) (checksum_ s)
                    else
                      let '(rc, accum_checksum, c) :=
                        LogChecksum.acquire_accum_checksum ob_crc64 data_checksum 0 (checksum_ s) in
                      if ob_failed rc then done rc h data_checksum (is_accum_checksum_acquired s) c
                      else done OB_SUCCESS (update_header_checksum XXH64 (update_accumulated_checksum accum_checksum h))
                             data_checksum true c
                end
          end
  end.

Definition TMP_HEADER_SER_BUF_LEN : Z := 256.

(** Serialize the header into a local array, fill it into the ring buffer unless the
    replica is an active follower, and get the pieces of the whole group.  [OB_FAIL]
    is applied to a conjunction, so that a failure to serialize becomes the code 1. *)
Definition submit_header (follower_active : bool) (begin_lsn : Lsn.LSN) (group_entry_header : LogGroupEntryHeader)
    (group_buffer_ : LogGroupBuffer.LogGroupBuffer)
    : option (Z * LogWriteBuf.LogWriteBuf * LogGroupBuffer.LogGroupBuffer) :=
  let group_entry_size := HEADER_SER_SIZE + group_size_ group_entry_header in
  let need_serialize_header := negb follower_active in
  let get gb :=
    match LogGroupBuffer.get_log_buf grow begin_lsn group_entry_size [] gb with
    | None => None
    | Some (rc, w) => Some (rc, w, gb)
    end in
  if negb need_serialize_header then get group_buffer_
  else
    match serialize group_entry_header TMP_HEADER_SER_BUF_LEN
            (mkWr (Some (replicate (Z.to_nat TMP_HEADER_SER_BUF_LEN) 0)) 0) with
    | None => None
    | Some (rc, wr) =>
        if ob_failed rc then Some (1, [], group_buffer_)
        else
          match LogGroupBuffer.fill begin_lsn (w_buf wr) (w_pos wr) group_buffer_ with
          | None => None
          | Some (rc, gb) => if ob_failed rc then Some (rc, [], gb) else get gb
          end
    end.

(** * The group arrives as it was submitted *)
Implicit Type (es : list LogGroupChecksum.Entry) (gb : LogGroupBuffer.LogGroupBuffer).
Abbreviation body := LogGroupChecksum.body.

(** The bytes [bs] lie in the log at position [x]. *)
Definition in_log (log : LogGroupBuffer.Log) (x : Z) (bs : list Z) : Prop :=
  ∀ i v, bs !! i = Some v → log (x + Z.of_nat i) = Some v.

(** A range of the log that is not flushed, as pieces of the ring. *)
Lemma pieces_of_range gb log lsn n :
  LogGroupBuffer.repr gb log → Lsn.val_ (LogGroupBuffer.reuse_lsn_ gb) <= Lsn.val_ lsn →
  Lsn.val_ lsn < 2 ^ 63 → 0 < n <= LogGroupBuffer.reserved_buffer_size_ gb → n <= Lsn.MAX_LOG_BUFFER_SIZE →
  grow 0%nat = true → grow 1%nat = true →
  ∃ w bs, LogGroupBuffer.get_log_buf grow lsn n [] gb = Some (OB_SUCCESS, w)
    ∧ LogWriteBuf.contents (LogGroupBuffer.mem_of gb) w = Some bs
    ∧ LogWriteBuf.wf w ∧ Forall (fun p => LogWriteBuf.buf_ p ≠ 0) w ∧ (1 <= length w <= 2)%nat
    ∧ length bs = Z.to_nat n
    ∧ ∀ k data, in_log log (Lsn.val_ lsn + Z.of_nat k) data → (k + length data <= Z.to_nat n)%nat →
                take (length data) (drop k bs) = data.
Proof.
  intros Hr Hl Hm Hn Hn2 Hg0 Hg1. pose proof Hr as [_ _ _ _ _ Hst _ _ _ _ _ Hb].
  destruct (LogGroupBuffer.get_log_buf_window gb log grow lsn n Hr ltac:(lia) Hm Hn Hn2 Hg0 Hg1)
    as (w & bs & E & Hc & Hw & Hp & Hcnt & Hlen & Hlook).
  exists w, bs. split_and!; try done; [lia|lia|lia|]. intros k data Hd Hk. apply list_eq. intros i.
  destruct (decide (i < length data)%nat) as [Hi|Hi].
  - destruct (lookup_lt_is_Some_2 data i Hi) as [v Hv]. rewrite Hv, lookup_take_lt, lookup_drop by done.
    pose proof (Hd i v Hv) as Hlog. pose proof (Hlook (Z.of_nat (k + i)) ltac:(lia)) as Hx. rewrite Nat2Z.id in Hx.
    rewrite Hx. apply Hb; [|lia]. by replace (Lsn.val_ lsn + Z.of_nat (k + i)) with (Lsn.val_ lsn + Z.of_nat k + Z.of_nat i) by lia.
  - rewrite lookup_take_ge by lia. symmetry. apply lookup_ge_None_2. lia.
Qed.

(** The committed end that goes into the header: that of the task if it came from a
    leader, and the one of the window for a task this leader has opened itself, which
    has none. *)
Definition committed_of (info : LogTaskHeaderInfo) (global : Lsn.LSN) : Lsn.LSN :=
  if Lsn.is_valid (i_committed_end_lsn_ info) then i_committed_end_lsn_ info else global.

(** A frozen log task whose entries lie in the ring buffer behind the place of the
    group header, and which begins at or behind the committed end. *)
Record ready (log_id : Z) (info : LogTaskHeaderInfo) (global : Lsn.LSN) es (log : LogGroupBuffer.Log) gb : Prop := {
  rd_repr : LogGroupBuffer.repr gb log;
  rd_begin : Lsn.val_ (LogGroupBuffer.reuse_lsn_ gb) <= Lsn.val_ (begin_lsn_ info);
  rd_body : in_log log (Lsn.val_ (begin_lsn_ info) + 56) (body es);
  rd_len : data_len_ info = Z.of_nat (length (body es));
  rd_fit : Lsn.val_ (begin_lsn_ info) + 56 + Z.of_nat (length (body es))
           <= Lsn.val_ (LogGroupBuffer.reuse_lsn_ gb) + LogGroupBuffer.available_buffer_size_ gb;
  rd_max : 56 + Z.of_nat (length (body es)) <= Lsn.MAX_LOG_BUFFER_SIZE;
  rd_sealed : Forall (LogGroupChecksum.sealed XXH64 ob_crc64) es;
  rd_padding : is_padding_log_ info = false;
  rd_scn : Scn.wf (i_max_scn_ info) ∧ Scn.is_valid (i_max_scn_ info) = true;
  rd_proposal : in_s 64 (i_proposal_id_ info) ∧ i_proposal_id_ info ≠ Lsn.INVALID_PROPOSAL_ID;
  rd_id : in_s 64 log_id ∧ 0 < log_id;
  rd_lsn : 0 <= Lsn.val_ (committed_of info global) <= Lsn.val_ (begin_lsn_ info)
}.

(** The header of such a group. *)
Definition header_of (log_id : Z) (info : LogTaskHeaderInfo) (global : Lsn.LSN) (accum : Z) : LogGroupEntryHeader :=
  update_header_checksum XXH64
    (mkGEH MAGIC LOG_GROUP_ENTRY_HEADER_VERSION2 (data_len_ info) (i_proposal_id_ info) (committed_of info global)
       (i_max_scn_ info) accum log_id (if is_raw_write_ info then RAW_WRITE_MASK_VERSION2 else 0)).

Lemma header_of_good log_id info global es log gb accum :
  ready log_id info global es log gb → in_s 64 accum →
  let h := header_of log_id info global accum in
  wf h ∧ check_header_integrity XXH64 h = true ∧ group_size_ h = Z.of_nat (length (body es))
  ∧ is_padding_log h = false ∧ accumulated_checksum_ h = accum
  ∧ (log_id_ h, max_scn_ h, proposal_id_ h, committed_end_lsn_ h)
    = (log_id, i_max_scn_ info, i_proposal_id_ info, committed_of info global).
Proof.
  intros [Hr Hbeg Hbody Hlen Hfit Hmax Hes Hpad [Hs1 Hs2] [Hp1 Hp2] [Hi1 Hi2] Hl] Ha. unfold header_of.
  pose proof Hr as [_ _ _ _ Hav _ _ Hre _ _ _ _]. assert (Lsn.MAX_LOG_BUFFER_SIZE < 2 ^ 31) as Hmb by reflexivity.
  set (h1 := mkGEH _ _ _ _ _ _ _ _ _). assert (known_version h1) as Hv by (by right). cbv zeta. split_and!.
  - apply geh_update_wf; [done|]. constructor; cbn [magic_ version_ group_size_ proposal_id_ committed_end_lsn_ max_scn_
      accumulated_checksum_ log_id_ flag_ h1].
    1, 2: vm_compute; split; congruence.
    1: unfold in_s; lia.
    2: unfold Lsn.wf, in_u; lia.
    5: destruct (is_raw_write_ info); vm_compute; split; congruence.
    all: assumption.
  - unfold check_header_integrity. rewrite geh_update_checks, update_valid, andb_true_r by done. unfold is_valid.
    cbn [magic_ version_ proposal_id_ committed_end_lsn_ max_scn_ log_id_ h1].
    rewrite Hs2, LogGroupBuffer.valid_small, (proj2 (Z.eqb_neq Lsn.INVALID_PROPOSAL_ID _)) by (done || lia).
    unfold Lsn.is_valid_log_id. by rewrite (proj2 (Z.ltb_lt _ _)) by done.
  - by rewrite geh_update_flag.
  - rewrite update_padding by done. unfold is_padding_log. cbn [flag_ h1]. by destruct (is_raw_write_ info).
  - by rewrite geh_update_flag.
  - by rewrite geh_update_flag.
Qed.

Abbreviation group_checksum := (LogGroupChecksum.checksum ob_crc64 0).

Lemma generate_ready log_id info global es log gb c d acq :
  ready log_id info global es log gb → LogChecksum.is_inited_ c = true → grow 0%nat = true → grow 1%nat = true →
  let accum := crc_i64 ob_crc64 (LogChecksum.accum_checksum_ c) (group_checksum es) in
  generate_group_entry_header_ log_id (Some info) global gb (mkGen OB_SUCCESS empty d acq c)
  = Some (mkGen OB_SUCCESS (header_of log_id info global accum) (group_checksum es) true
            (LogChecksum.acquire_accum_checksum ob_crc64 (group_checksum es) 0 c).2).
Proof.
  intros Hrd Hc Hg0 Hg1 accum. pose proof Hrd as [Hr Hbeg Hbody Hlen Hfit Hmax Hes Hpad [Hs1 Hs2] [Hp1 Hp2] [Hi1 Hi2] Hl].
  pose proof Hr as [_ _ _ _ Hav Hst _ Hre _ _ _ _]. assert (Lsn.MAX_LOG_BUFFER_SIZE < 2 ^ 31) as Hmb by reflexivity.
  unfold generate_group_entry_header_. cbn [group_header group_log_data_checksum is_accum_checksum_acquired checksum_].
  unfold Lsn.OB_INVALID_LOG_ID. rewrite (proj2 (Z.eqb_neq _ _)) by lia.
  assert ((if negb (Lsn.is_valid (i_committed_end_lsn_ info)) then global else i_committed_end_lsn_ info)
          = committed_of info global) as -> by (unfold committed_of; by destruct (Lsn.is_valid _)).
  unfold Lsn.lsn_gtb, Lsn.lsn_ltb.
  rewrite (proj2 (Z.ltb_ge _ _)) by lia. rewrite Hlen. unfold HEADER_SER_SIZE.
  destruct (pieces_of_range gb log (begin_lsn_ info) (56 + Z.of_nat (length (body es))) Hr Hbeg)
    as (w & bs & Eget & Hcont & Hw & Hnn & Hcnt & Hbl & Hrange); [lia|lia|lia|done|done|].
  rewrite Eget. change (ob_failed OB_SUCCESS) with false. cbv iota. unfold generate.
  rewrite Hs2, (LogGroupBuffer.valid_small (committed_of info global)) by lia. unfold Lsn.is_valid_log_id.
  rewrite (proj2 (Z.ltb_lt 0 log_id)), (proj2 (Z.eqb_neq Lsn.INVALID_PROPOSAL_ID _)) by (done || lia). cbn [negb orb].
  rewrite Hpad. cbv iota zeta.
  assert (bs = take 56 bs ++ body es) as Hbs.
  { rewrite <- (take_drop 56 bs) at 1. f_equal. rewrite <- (Hrange 56%nat (body es)) by (done || lia).
    symmetry. apply take_ge. rewrite length_drop. lia. }
  rewrite Hbs in Hcont.
  rewrite (LogGroupChecksum.calculate_checksum XXH64 ob_crc64 (LogGroupBuffer.mem_of gb) w (take 56 bs) es d);
    [|done|done|done|rewrite length_take; lia|done|by apply (LogGroupChecksum.sealed_good XXH64 ob_crc64)].
  change (ob_failed OB_SUCCESS) with false. cbv iota. unfold LogChecksum.acquire_accum_checksum. rewrite Hc. cbn [negb].
  change (ob_failed OB_SUCCESS) with false. cbv iota. f_equal. f_equal. unfold header_of. f_equal. rewrite Hlen.
  rewrite (wraps_small 32) by (unfold in_s; lia). unfold update_accumulated_checksum, empty.
  by destruct (is_raw_write_ info).
Qed.

(** The header goes into the ring in front of the entries, and the pieces of the group
    hold header and entries. *)
Lemma submit_ready log_id info global es log gb accum :
  ready log_id info global es log gb → in_s 64 accum → grow 0%nat = true → grow 1%nat = true →
  let h := header_of log_id info global accum in
  ∃ w gb', submit_header false (begin_lsn_ info) h gb = Some (OB_SUCCESS, w, gb')
    ∧ LogWriteBuf.contents (LogGroupBuffer.mem_of gb') w = Some (LogGroupEntry.group_bytes h (body es)).
Proof.
  intros Hrd Ha Hg0 Hg1 h. destruct (header_of_good log_id info global es log gb accum Hrd Ha) as (Hw & Hck & Hsz & _ & _ & _).
  fold h in Hw, Hck, Hsz. pose proof Hrd as [Hr Hbeg Hbody Hlen Hfit Hmax Hes _ _ _ _ Hl].
  pose proof Hr as [_ _ _ _ Hav Hst _ Hre _ _ _ _]. pose proof (geh_length_ser_bytes h) as Hsb.
  unfold submit_header. cbn [negb]. unfold HEADER_SER_SIZE. rewrite Hsz.
  set (tmp := replicate (Z.to_nat TMP_HEADER_SER_BUF_LEN) 0).
  assert (length tmp = 256%nat) as Htmp by apply length_replicate.
  rewrite (geh_serialize_writes h TMP_HEADER_SER_BUF_LEN tmp 0 ltac:(lia) ltac:(unfold TMP_HEADER_SER_BUF_LEN; lia)).
  change (ob_failed OB_SUCCESS) with false. cbv iota. cbn [w_buf w_pos]. rewrite Hsb.
  set (data := splice tmp 0 (ser_bytes h)).
  assert (length data = 256%nat) as Hdl by (unfold data; rewrite length_splice; lia).
  assert (slice data 0 56 = ser_bytes h) as Hds by (rewrite <- Hsb; apply slice_splice; lia).
  pose proof (LogGroupBuffer.fill_refines gb log (begin_lsn_ info) data 56 Hr Hbeg ltac:(lia) ltac:(lia)) as Hf.
  rewrite decide_True in Hf by lia. destruct Hf as (gb' & Ef & Hr' & Ereuse & Esize).
  change (0 + Z.of_nat 56) with 56. rewrite Ef. change (ob_failed OB_SUCCESS) with false. cbv iota.
  destruct (pieces_of_range gb' _ (begin_lsn_ info) (56 + Z.of_nat (length (body es))) Hr')
    as (w & bs & Eget & Hcont & _ & _ & _ & Hbl & Hrange); rewrite ?Ereuse, ?Esize; [done|lia|lia|done|done|done|].
  rewrite Eget. exists w, gb'. split; [done|]. rewrite Hcont. f_equal. unfold LogGroupEntry.group_bytes.
  rewrite <- (take_drop 56 bs). f_equal.
  - pose proof (Hrange 0%nat (ser_bytes h)) as Hx. rewrite Hsb, drop_0 in Hx. apply Hx; [|lia].
    intros i v Hi. pose proof (lookup_lt_Some _ _ _ Hi). unfold LogGroupBuffer.write_log. rewrite decide_True by lia.
    rewrite <- Hds in Hi. rewrite LogGroupBuffer.slice_lookup in Hi by lia. rewrite <- Hi. f_equal. lia.
  - rewrite <- (Hrange 56%nat (body es)); [symmetry; apply take_ge; rewrite length_drop; lia| |lia].
    intros i v Hi. unfold LogGroupBuffer.write_log. rewrite decide_False by lia. by apply Hbody.
Qed.

(** C36: from the leader to a follower.  For a frozen log task, no padding, whose
    entries lie unflushed in the ring buffer, wrapped around its end or not, and which
    begins at or behind the committed end, the leader generates the group header, with
    id, timestamp and proposal of the task and with the committed end of the window if
    the task has none of its own, fills it into the ring and hands out pieces that hold
    the whole group; a follower that receives these bytes parses this very header,
    finds the same data checksum, the group passes its integrity check, and a follower
    whose accumulated checksum was that of the leader accepts it and ends with the
    leader's. *)
Theorem group_reaches_follower log_id info es log gb global c f d acq g0 :
  ready log_id info global es log gb → LogChecksum.is_inited_ c = true → LogChecksum.is_inited_ f = true →
  LogChecksum.verify_checksum_ f = LogChecksum.accum_checksum_ c → grow 0%nat = true → grow 1%nat = true →
  ∃ h d' c' w gb' bs g f',
    generate_group_entry_header_ log_id (Some info) global gb (mkGen OB_SUCCESS empty d acq c)
      = Some (mkGen OB_SUCCESS h d' true c')
    ∧ submit_header false (begin_lsn_ info) h gb = Some (OB_SUCCESS, w, gb')
    ∧ LogWriteBuf.contents (LogGroupBuffer.mem_of gb') w = Some bs
    ∧ LogGroupEntry.group_deserialize XXH64 (Some bs) (Z.of_nat (length bs)) g0 0
      = Some ((OB_SUCCESS, g), Z.of_nat (length bs))
    ∧ LogGroupEntry.header_ g = h ∧ LogGroupEntry.buf_ g = Some (body es)
    ∧ (log_id_ h, max_scn_ h, proposal_id_ h, committed_end_lsn_ h)
      = (log_id, i_max_scn_ info, i_proposal_id_ info, committed_of info global)
    ∧ LogGroupEntry.group_check_integrity XXH64 ob_crc64 (-1) g = Some (true, d')
    ∧ LogChecksum.verify_accum_checksum ob_crc64 d' (accumulated_checksum_ (LogGroupEntry.header_ g)) f = (OB_SUCCESS, f')
    ∧ LogChecksum.verify_checksum_ f' = LogChecksum.accum_checksum_ c'.
Proof.
  intros Hrd Hc Hf Hv Hg0 Hg1. set (accum := crc_i64 ob_crc64 (LogChecksum.accum_checksum_ c) (group_checksum es)).
  assert (in_s 64 accum) as Ha by (apply wraps_range; lia). set (h := header_of log_id info global accum).
  destruct (header_of_good log_id info global es log gb accum Hrd Ha) as (Hw & Hck & Hsz & Hpad & Hacc & Hfld). fold h in Hw, Hck, Hsz, Hpad, Hacc, Hfld.
  destruct (submit_ready log_id info global es log gb accum Hrd Ha Hg0 Hg1) as (w & gb' & Esub & Hcont). fold h in Esub, Hcont.
  pose proof (rd_sealed _ _ _ _ _ _ Hrd) as Hes. set (bs := LogGroupEntry.group_bytes h (body es)) in *.
  pose proof (LogGroupEntry.length_group_bytes h (body es)) as Hbl. fold bs in Hbl.
  destruct (LogGroupEntry.group_reads XXH64 bs (Z.of_nat (length bs)) h (body es) g0 0 Hw Hck Hsz ltac:(lia))
    as [Erd _]; [fold bs; lia|fold bs; unfold slice; rewrite drop_0; by apply take_ge|].
  assert (drop (Z.to_nat (0 + 56)) bs = body es) as Hdrop
    by (unfold bs, LogGroupEntry.group_bytes; apply drop_app_length'; by rewrite geh_length_ser_bytes).
  rewrite Hdrop in Erd. pose proof (LogChecksum.verify_acquired ob_crc64 (group_checksum es) c f Hc Hf Hv) as Hver.
  destruct (LogChecksum.acquire_accum_checksum ob_crc64 (group_checksum es) 0 c) as [[rc a] c'] eqn:Eacq.
  destruct Hver as (_ & _ & f' & Hver & _ & Hvf).
  assert (a = accum) as -> by (unfold LogChecksum.acquire_accum_checksum in Eacq; rewrite Hc in Eacq; by injection Eacq).
  exists h, (group_checksum es), c', w, gb', bs, (LogGroupEntry.mkGE h (Some (body es))), f'.
  split; [rewrite (generate_ready log_id info global es log gb c d acq Hrd Hc Hg0 Hg1), Eacq; reflexivity|].
  split; [exact Esub|]. split; [exact Hcont|]. split; [rewrite Erd, Hsz, Hbl; do 2 f_equal; lia|].
  split; [reflexivity|]. split; [reflexivity|]. split; [exact Hfld|]. split.
  - unfold LogGroupEntry.group_check_integrity. cbn [LogGroupEntry.buf_ LogGroupEntry.header_]. rewrite Hsz.
    unfold check_header_integrity, is_valid in Hck. bool_to_prop. unfold check_integrity.
    rewrite (proj2 (Z.eqb_eq MAGIC _)) by done.
    match goal with H : check_header_checksum_ _ _ = true |- _ => rewrite H end. cbn [negb].
    apply LogGroupChecksum.check_checksum; [exact Hpad|exact Hes|by apply take_ge].
  - cbn [LogGroupEntry.header_]. rewrite Hacc. split; [exact Hver|exact Hvf].
Qed.
End submit.

(** * Witness: a ring of 128 bytes in which the group wraps around *)
Definition ring128 : LogGroupBuffer.LogGroupBuffer :=
  LogGroupBuffer.mkGB (Lsn.mkLSN 100) (Lsn.mkLSN 150) (Lsn.mkLSN 100) 128 128 1 (replicate 128 0) true.
(** A task as a leader opens it: it has no committed end. *)
Definition info : LogTaskHeaderInfo :=
  mkInfo (Lsn.mkLSN 150) no_lsn 7 (Scn.mkSCN 9) (Scn.mkSCN 9) 35 1 no_lsn 1 no_lsn (-1) (-1) false false.

Lemma ring128_repr : LogGroupBuffer.repr ring128 (fun _ => None).
Proof. constructor; cbn; try done; lia. Qed.

Lemma ring128_ready :
  ∃ log gb, ready LogEntryHeader.sum_hash LogEntryHeader.sum_crc 7 info (Lsn.mkLSN 100) [LogGroupChecksum.one] log gb.
Proof.
  pose proof (LogGroupBuffer.fill_refines ring128 (fun _ => None) (Lsn.mkLSN 206)
    (LogGroupChecksum.body [LogGroupChecksum.one]) 35 ring128_repr) as H.
  rewrite decide_True in H by (cbn; lia). destruct H as (gb & E & Hr & Hreuse & Hsize); [cbn; lia|split; vm_compute; congruence|cbn; lia|].
  exists (LogGroupBuffer.write_log 206 (LogGroupChecksum.body [LogGroupChecksum.one]) 35 (fun _ => None)), gb.
  assert (LogGroupBuffer.available_buffer_size_ gb = 128) as Hav by (vm_compute in E; by injection E as <-).
  constructor; rewrite ?Hreuse, ?Hav.
  - exact Hr.
  - cbn. lia.
  - intros i v Hi. pose proof (lookup_lt_Some _ _ _ Hi) as Hl. change (length _) with 35%nat in Hl.
    change (Lsn.val_ (begin_lsn_ info) + 56) with 206. unfold LogGroupBuffer.write_log.
    rewrite decide_True by lia. rewrite <- Hi. f_equal. lia.
  - reflexivity.
  - vm_compute. congruence.
  - vm_compute. congruence.
  - constructor; [exact LogGroupChecksum.one_sealed|constructor].
  - reflexivity.
  - split; [split; vm_compute; congruence|reflexivity].
  - split; [split; vm_compute; congruence|discriminate].
  - split; [split; vm_compute; congruence|reflexivity].
  - split; vm_compute; congruence.
Qed.

Lemma group_reaches_follower_witness :
  ∃ h w gb gb' bs g,
    Lsn.is_valid (i_committed_end_lsn_ info) = false ∧ committed_end_lsn_ h = Lsn.mkLSN 100
    ∧ submit_header (fun _ => true) false (Lsn.mkLSN 150) h gb = Some (OB_SUCCESS, w, gb')
    ∧ LogWriteBuf.contents (LogGroupBuffer.mem_of gb') w = Some bs
    ∧ LogGroupEntry.group_deserialize LogEntryHeader.sum_hash (Some bs) (Z.of_nat (length bs)) LogGroupEntry.empty_group 0
      = Some ((OB_SUCCESS, g), Z.of_nat (length bs)).
Proof.
  destruct ring128_ready as (log & gb & Hrd).
  destruct (group_reaches_follower LogEntryHeader.sum_hash LogEntryHeader.sum_crc (fun _ => true) 7 info
    [LogGroupChecksum.one] log gb (Lsn.mkLSN 100) LogChecksum.sample LogChecksum.sample 0 false LogGroupEntry.empty_group Hrd)
    as (h & d' & c' & w & gb' & bs & g & f' & _ & H1 & H2 & H3 & _ & _ & H4 & _); [reflexivity|reflexivity|reflexivity|reflexivity|reflexivity|].
  exists h, w, gb, gb', bs, g. split; [reflexivity|]. split; [by injection H4|]. split; [exact H1|]. split; [exact H2|exact H3].
Defined.
End LogSubmit.
