(* ===== verification/FixedSlidingWindow.v ===== *)
(** [FixedSlidingWindow] of [src/logservice/palf/fixed_sliding_window.h]: a ring of
    [size_] slots for the logs with ids [begin_sn_, end_sn_), shared by threads that
    get and give back references to slots, slide the window and truncate it.

    An operation is a sequence of atomic accesses to the shared window.  A thread is
    at one of the points [pc] between them, with the local variables of the code as
    its arguments, and [tstep] is its next access.  What the surroundings decide (the
    return code of a lock or of the callback, whether the deadline has passed) is the
    argument [Env].  [exec] interleaves the threads. *)
From S2P Require Import Prelude Lsn.

Module FixedSlidingWindow.

(** ** The slots *)

(** The virtual methods of [FixedSlidingWindowSlot]. *)
Class SlotOps (T : Type) : Type := {
  slot_new : T;
  can_be_slid : T → bool;
  slot_reset : T → T
}.

Section window.
Context {T : Type} {ops : SlotOps T}.

Record Slot : Type := mkSlot {
  ref_ : Z;
  slot_lock_ : option nat;   (* ObByteLock: the thread that holds it *)
  data : T
}.

(** [lock_], a reader-writer lock, is the writer and the set of readers; [slid] are
    the ids for which [sliding_cb] has returned [OB_SUCCESS], the last one first. *)
Record Window : Type := mkWin {
  is_inited_ : bool;
  begin_sn_ : Z;
  end_sn_ : Z;
  size_ : Z;
  array_ : list Slot;
  writer : option nat;
  readers : gset nat;
  slid : list Z
}.

Implicit Types w : Window.

Definition set_begin (b : Z) w : Window :=
  mkWin (is_inited_ w) b (end_sn_ w) (size_ w) (array_ w) (writer w) (readers w) (slid w).
Definition set_end (e : Z) w : Window :=
  mkWin (is_inited_ w) (begin_sn_ w) e (size_ w) (array_ w) (writer w) (readers w) (slid w).
Definition set_array (a : list Slot) w : Window :=
  mkWin (is_inited_ w) (begin_sn_ w) (end_sn_ w) (size_ w) a (writer w) (readers w) (slid w).
Definition set_rw (o : option nat) (rs : gset nat) w : Window :=
  mkWin (is_inited_ w) (begin_sn_ w) (end_sn_ w) (size_ w) (array_ w) o rs (slid w).
Definition set_slid (l : list Z) w : Window :=
  mkWin (is_inited_ w) (begin_sn_ w) (end_sn_ w) (size_ w) (array_ w) (writer w) (readers w) l.

Definition calc_idx_ (log_id : Z) w : Z := Z.land log_id (size_ w - 1).
Definition slot_at (i : Z) w : option Slot := array_ w !! Z.to_nat i.
Definition on_slot (i : Z) (f : Slot → Slot) w : Window := set_array (alter f (Z.to_nat i) (array_ w)) w.
Definition add_ref (n : Z) (s : Slot) : Slot := mkSlot (ref_ s + n) (slot_lock_ s) (data s).
Definition set_lock (o : option nat) (s : Slot) : Slot := mkSlot (ref_ s) o (data s).
Definition set_data (d : T) (s : Slot) : Slot := mkSlot (ref_ s) (slot_lock_ s) d.
Definition reset_slot (s : Slot) : Slot := set_data (slot_reset (data s)) s.

(** ** Start and end *)

(** The window before [init]. *)
Definition unset : Window := mkWin false Lsn.OB_INVALID_LOG_ID Lsn.OB_INVALID_LOG_ID (-1) [] None ∅ [].

Definition OB_INVALID_SIZE : Z := -1.

(** [alloc] is whether there is an allocator and whether it has memory. *)
Definition init (start_id size : Z) (alloc_mgr alloc_ok : bool) w : Z * Window :=
  if is_inited_ w then (OB_INIT_TWICE, w)
  else if (start_id <? 0) || (size <=? 1) || negb (Z.land size (size - 1) =? 0) || negb alloc_mgr
       then (OB_INVALID_ARGUMENT, w)
  else if negb alloc_ok then (OB_ALLOCATE_MEMORY_FAILED, set_array [] w)
  else (OB_SUCCESS,
        mkWin true start_id (start_id + size) size
          (replicate (Z.to_nat size) (reset_slot (mkSlot 0 None slot_new))) (writer w) (readers w) (slid w)).

(** Reset the slots of the ids from [i] on, [n] of them, in the absence of other
    threads; [None] where the code waits for a reference that nobody gives back. *)
Fixpoint range_truncate_alone (n : nat) (i : Z) w : option Window :=
  match n with
  | O => Some w
  | S n =>
      match slot_at (calc_idx_ i w) w with
      | None => None
      | Some s => if ref_ s =? 0 then range_truncate_alone n (i + 1) (on_slot (calc_idx_ i w) reset_slot w) else None
      end
  end.
Definition range_truncate_ (begin_tid end_tid : Z) w : option (Z * Window) :=
  if negb (is_inited_ w) then Some (OB_NOT_INIT, w)
  else match range_truncate_alone (Z.to_nat (end_tid - begin_tid)) begin_tid w with
       | None => None
       | Some w => Some (OB_SUCCESS, w)
       end.

Definition clear_ w : option (Z * Window) := range_truncate_ (begin_sn_ w) (end_sn_ w) w.

Definition destroy w : option Window :=
  if negb (is_inited_ w) then Some w
  else
    match clear_ w with
    | None => None
    | Some (rc, w) =>
        if ob_failed rc then Some w
        else Some (mkWin false Lsn.OB_INVALID_LOG_ID Lsn.OB_INVALID_LOG_ID OB_INVALID_SIZE [] (writer w) (readers w) (slid w))
    end.

Definition check_id_in_range_ (id : Z) w : Z :=
  if id <? begin_sn_ w then OB_ERR_OUT_OF_LOWER_BOUND
  else if end_sn_ w <=? id then OB_ERR_OUT_OF_UPPER_BOUND
  else OB_SUCCESS.

(** [truncate_and_reset_begin_sn] in the absence of other threads. *)
Definition truncate_and_reset_begin_sn (t_id : Z) w : option (Z * Window) :=
  let move w := set_end (t_id + size_ w) (set_begin t_id w) in
  if negb (is_inited_ w) then Some (OB_SUCCESS, w)
  else if t_id <? begin_sn_ w then Some (OB_INVALID_ARGUMENT, w)
  else if negb (calc_idx_ (begin_sn_ w) w =? calc_idx_ (end_sn_ w) w) then Some (OB_ERR_UNEXPECTED, w)
  else if ob_failed (check_id_in_range_ t_id w) then
    match range_truncate_ (begin_sn_ w) (end_sn_ w) w with
    | None => None
    | Some (rc, w) => if ob_failed rc then Some (rc, w) else Some (rc, move w)
    end
  else
    match range_truncate_ (begin_sn_ w) t_id w with
    | None => None
    | Some (rc, w) => if ob_failed rc then Some (rc, w) else Some (rc, move w)
    end.

(** ** The points of the operations *)

(** In [revert_], [k] tells whether [get] has called it. *)
Inductive pc : Set :=
| Idle
(* get *)
| G_lock (g_id : Z)
| G_begin (g_id : Z)             (* the first check_id_in_range_ *)
| G_end (g_id : Z)
| G_inc (g_id : Z)
| G_begin2 (g_id : Z)            (* the second one *)
| G_end2 (g_id : Z)
| G_got (g_id : Z)               (* unlock, return the slot *)
| G_ret (ret : Z)                (* unlock, return an error *)
(* revert and revert_ *)
| R_begin (r_id : Z)
| R_end (k : bool) (r_id : Z)
| R_sub (k : bool) (r_id : Z)
| R_tmp_end (k : bool) (r_id : Z)
| R_loop (k : bool) (i tmp_end tmp_id : Z)
| R_slot_lock (k : bool) (i tmp_end tmp_id : Z)
| R_end2 (k : bool) (i tmp_end tmp_id : Z)
| R_ref (k : bool) (i tmp_end tmp_id : Z)
| R_reset (k : bool) (i tmp_end tmp_id : Z)
| R_cas (k : bool) (i tmp_end tmp_id : Z)
| R_next (k : bool) (i tmp_end tmp_id : Z)   (* unlock the slot, go on *)
| R_break (k : bool) (i ret : Z)             (* unlock the slot, leave the loop *)
(* slide; [u]: timeout_us is not 0 *)
| S_lock (u : bool)
| S_begin (u : bool)
| S_end (u : bool) (curr_begin : Z)
| S_slot_lock (u : bool) (curr_begin curr_end : Z)
| S_check (u : bool) (curr_begin curr_end : Z)
| S_cond (u : bool) (curr_begin : Z)
| S_next_lock (u : bool) (curr_begin : Z)
| S_cas (u : bool) (curr_begin : Z)
| S_end2 (u : bool) (curr_begin ret : Z)
| S_ref (u : bool) (curr_begin curr_end ret : Z)
| S_reset (u : bool) (curr_begin curr_end ret : Z)
| S_cas_end (u : bool) (curr_begin curr_end ret : Z)
| S_next_unlock (u : bool) (curr_begin ret : Z)
| S_time (u : bool) (curr_begin ret : Z)
| S_unlock (u : bool) (curr_begin : Z) (out : option Z)   (* unlock the slot; [Some ret]: leave *)
| S_ret (ret : Z)                                         (* unlock, return *)
(* truncate *)
| T_lock (t_id : Z)
| T_begin (t_id : Z)
| T_end (t_id : Z)
| T_load (t_id : Z)
| T_wait (i end_tid : Z)
| T_reset (i end_tid : Z)
| T_ret (ret : Z).

Record Env : Set := mkEnv { lock_rc : Z; cb_rc : Z; expired : bool }.

(** A thread: its point, the ids it has got and not given back, and what its last
    operation returned. *)
Record Thread : Set := mkThread { at_ : pc; held : list Z; result : Z }.

Section thread.
Context (x : Env) (t : nat) (w : Window) (th : Thread).

(** Go to [p], or return [rc]; [revert_done]: what the caller of [revert_] does with
    its code. *)
Definition goto w (p : pc) : option (Window * Thread) := Some (w, mkThread p (held th) (result th)).
Definition return_ w (rc : Z) : option (Window * Thread) := Some (w, mkThread Idle (held th) rc).
Definition revert_done (k : bool) w (rc : Z) : option (Window * Thread) :=
  if k then goto w (G_ret (if ob_failed rc then rc else OB_ERR_OUT_OF_LOWER_BOUND)) else return_ w rc.

(** The locks; [None]: the thread waits. *)
Definition rd_lock (p : pc) : option (Window * Thread) :=
  match writer w with None => goto (set_rw None ({[t]} ∪ readers w) w) p | Some _ => None end.
Definition wr_lock (p : pc) : option (Window * Thread) :=
  match writer w with
  | None => if decide (readers w = ∅) then goto (set_rw (Some t) (readers w) w) p else None
  | Some _ => None
  end.
Definition rd_unlock : Window := set_rw (writer w) (readers w ∖ {[t]}) w.
Definition wr_unlock : Window := set_rw None (readers w) w.
Definition slot_lock (i : Z) (p : pc) : option (Window * Thread) :=
  match slot_at i w with
  | Some s => match slot_lock_ s with None => goto (on_slot i (set_lock (Some t)) w) p | Some _ => None end
  | None => None
  end.
Definition slot_unlock (i : Z) : Window := on_slot i (set_lock None) w.

Definition get_step (p : pc) : option (Window * Thread) :=
  match p with
  | G_lock g =>
      if negb (is_inited_ w) then return_ w OB_NOT_INIT
      else if ob_failed (lock_rc x) then return_ w (lock_rc x)
      else rd_lock (G_begin g)
  | G_begin g => if g <? begin_sn_ w then goto w (G_ret OB_ERR_OUT_OF_LOWER_BOUND) else goto w (G_end g)
  | G_end g => if end_sn_ w <=? g then goto w (G_ret OB_ERR_OUT_OF_UPPER_BOUND) else goto w (G_inc g)
  | G_inc g => goto (on_slot (calc_idx_ g w) (add_ref 1) w) (G_begin2 g)
  | G_begin2 g => if g <? begin_sn_ w then goto w (R_end true g) else goto w (G_end2 g)
  | G_end2 g => if end_sn_ w <=? g then goto w (R_end true g) else goto w (G_got g)
  | G_got g => Some (rd_unlock, mkThread Idle (g :: held th) OB_SUCCESS)
  | G_ret rc => return_ rd_unlock rc
  | _ => None
  end.

Definition revert_step (p : pc) : option (Window * Thread) :=
  match p with
  | R_begin r =>
      if negb (is_inited_ w) then return_ w OB_NOT_INIT
      else if r <? begin_sn_ w - size_ w then return_ w OB_ERR_UNEXPECTED
      else goto w (R_end false r)
  | R_end k r => if end_sn_ w <=? r then revert_done k w OB_ERR_UNEXPECTED else goto w (R_sub k r)
  | R_sub k r =>
      let idx := calc_idx_ r w in
      match slot_at idx w with
      | None => None
      | Some s =>
          let curr_ref := ref_ s - 1 in
          let w := on_slot idx (add_ref (-1)) w in
          if curr_ref <? 0 then revert_done k w OB_ERR_UNEXPECTED
          else if 0 =? curr_ref then goto w (R_tmp_end k r)
          else revert_done k w OB_SUCCESS
      end
  | R_tmp_end k r => goto w (R_loop k (calc_idx_ r w) (end_sn_ w) r)
  | R_loop k i tmp_end tmp_id =>
      if (i =? calc_idx_ tmp_end w) && (tmp_id <? begin_sn_ w) then goto w (R_slot_lock k i tmp_end tmp_id)
      else revert_done k w OB_SUCCESS
  | R_slot_lock k i tmp_end tmp_id => slot_lock i (R_end2 k i tmp_end tmp_id)
  | R_end2 k i tmp_end tmp_id =>
      if tmp_end =? end_sn_ w then goto w (R_ref k i tmp_end tmp_id) else goto w (R_break k i OB_SUCCESS)
  | R_ref k i tmp_end tmp_id =>
      match slot_at i w with
      | None => None
      | Some s => if 0 =? ref_ s then goto w (R_reset k i tmp_end tmp_id) else goto w (R_break k i OB_SUCCESS)
      end
  | R_reset k i tmp_end tmp_id => goto (on_slot i reset_slot w) (R_cas k i tmp_end tmp_id)
  | R_cas k i tmp_end tmp_id =>
      if end_sn_ w =? tmp_end then goto (set_end (tmp_end + 1) w) (R_next k i tmp_end tmp_id)
      else goto w (R_break k i OB_ERR_UNEXPECTED)
  | R_next k i tmp_end tmp_id =>
      goto (slot_unlock i) (R_loop k (calc_idx_ (i + 1) w) (tmp_end + 1) (tmp_id + 1))
  | R_break k i rc => revert_done k (slot_unlock i) rc
  | _ => None
  end.

(** [SlidingCond] is in [S_cond]. *)
Definition slide_step (p : pc) : option (Window * Thread) :=
  match p with
  | S_lock u =>
      if ob_failed (lock_rc x) then return_ w (if negb (is_inited_ w) then OB_NOT_INIT else OB_SUCCESS)
      else rd_lock (if negb (is_inited_ w) then S_ret OB_NOT_INIT else S_begin u)
  | S_begin u => goto w (S_end u (begin_sn_ w))
  | S_end u b => goto w (S_slot_lock u b (end_sn_ w))
  | S_slot_lock u b e => slot_lock (calc_idx_ b w) (S_check u b e)
  | S_check u b e =>
      if (e - b <=? 0) || negb (b =? begin_sn_ w) then goto w (S_time u b OB_SUCCESS) else goto w (S_cond u b)
  | S_cond u b =>
      match slot_at (calc_idx_ b w) w with
      | None => None
      | Some s =>
          if negb (can_be_slid (data s)) then goto w (S_unlock u b (Some OB_SUCCESS))
          else if ob_failed (cb_rc x) then goto w (S_unlock u b (Some (cb_rc x)))
          else goto (set_slid (b :: slid w) w) (S_next_lock u b)
      end
  | S_next_lock u b => slot_lock (calc_idx_ (b + 1) w) (S_cas u b)
  | S_cas u b =>
      if begin_sn_ w =? b then goto (set_begin (b + 1) w) (S_end2 u b OB_SUCCESS)
      else goto w (S_end2 u b OB_ERR_UNEXPECTED)
  | S_end2 u b rc => goto w (S_ref u b (end_sn_ w) rc)
  | S_ref u b e rc =>
      match slot_at (calc_idx_ b w) w with
      | None => None
      | Some s =>
          if (0 =? ref_ s) && (calc_idx_ e w =? calc_idx_ b w) then goto w (S_reset u b e rc)
          else goto w (S_next_unlock u b rc)
      end
  | S_reset u b e rc => goto (on_slot (calc_idx_ b w) reset_slot w) (S_cas_end u b e rc)
  | S_cas_end u b e rc =>
      if end_sn_ w =? e then goto (set_end (e + 1) w) (S_next_unlock u b rc)
      else goto w (S_next_unlock u b OB_ERR_UNEXPECTED)
  | S_next_unlock u b rc => goto (slot_unlock (calc_idx_ (b + 1) w)) (S_time u b rc)
  | S_time u b rc =>
      goto w (S_unlock u b (if ob_failed rc then Some rc else if u && expired x then Some OB_SUCCESS else None))
  | S_unlock u b out =>
      goto (slot_unlock (calc_idx_ b w)) (match out with Some rc => S_ret rc | None => S_begin u end)
  | S_ret rc => return_ rd_unlock rc
  | _ => None
  end.

(** [range_truncate_] is [T_wait] and [T_reset]. *)
Definition truncate_step (p : pc) : option (Window * Thread) :=
  match p with
  | T_lock i => wr_lock (if negb (is_inited_ w) then T_ret OB_NOT_INIT else T_begin i)
  | T_begin i => if i <? begin_sn_ w then goto w (T_ret OB_ERR_UNEXPECTED) else goto w (T_end i)
  | T_end i => if end_sn_ w <=? i then goto w (T_ret OB_SUCCESS) else goto w (T_load i)
  | T_load i => goto w (T_wait i (end_sn_ w))
  | T_wait i e =>
      if i <? e then
        match slot_at (calc_idx_ i w) w with
        | None => None
        | Some s => if ref_ s =? 0 then goto w (T_reset i e) else goto w (T_wait i e)
        end
      else goto w (T_ret OB_SUCCESS)
  | T_reset i e => goto (on_slot (calc_idx_ i w) reset_slot w) (T_wait (i + 1) e)
  | T_ret rc => return_ wr_unlock rc
  | _ => None
  end.

Definition tstep : option (Window * Thread) :=
  match at_ th with
  | G_lock _ | G_begin _ | G_end _ | G_inc _ | G_begin2 _ | G_end2 _ | G_got _ | G_ret _ => get_step (at_ th)
  | S_lock _ | S_begin _ | S_end _ _ | S_slot_lock _ _ _ | S_check _ _ _ | S_cond _ _ | S_next_lock _ _
  | S_cas _ _ | S_end2 _ _ _ | S_ref _ _ _ _ | S_reset _ _ _ _ | S_cas_end _ _ _ _ | S_next_unlock _ _ _
  | S_time _ _ _ | S_unlock _ _ _ | S_ret _ => slide_step (at_ th)
  | T_lock _ | T_begin _ | T_end _ | T_load _ | T_wait _ _ | T_reset _ _ | T_ret _ => truncate_step (at_ th)
  | Idle => None
  | p => revert_step p
  end.
End thread.

(** ** Threads together *)

Inductive Op : Set := Get (g_id : Z) | Revert (r_id : Z) | Slide (timed : bool) | Truncate (t_id : Z).

(** Take one occurrence of an id out of those a thread holds. *)
Fixpoint drop_one (r : Z) (l : list Z) : option (list Z) :=
  match l with
  | [] => None
  | g :: l => if r =? g then Some l
              else match drop_one r l with Some l => Some (g :: l) | None => None end
  end.

(** A thread calls an operation; [revert] is called for an id the thread has got. *)
Definition call (o : Op) (th : Thread) : option Thread :=
  match at_ th, o with
  | Idle, Get g => Some (mkThread (G_lock g) (held th) (result th))
  | Idle, Revert r =>
      match drop_one r (held th) with
      | Some rest => Some (mkThread (R_begin r) rest (result th))
      | None => None
      end
  | Idle, Slide u => Some (mkThread (S_lock u) (held th) (result th))
  | Idle, Truncate i => Some (mkThread (T_lock i) (held th) (result th))
  | _, _ => None
  end.

Record System : Type := mkSys { win : Window; threads : list Thread }.
Implicit Types s : System.

(** What can happen: a thread calls an operation, makes its next access, or writes the
    data of a slot it holds; [truncate_and_reset_begin_sn] runs while all others are
    outside of the window's operations. *)
Inductive Event : Type :=
| Call (t : nat) (o : Op)
| Step (t : nat) (x : Env)
| Write (t : nat) (g_id : Z) (d : T)
| Forward (t_id : Z).

Definition idle (th : Thread) : bool := match at_ th with Idle => true | _ => false end.

Definition exec (e : Event) s : option System :=
  match e with
  | Call t o =>
      match threads s !! t with
      | None => None
      | Some th => match call o th with
                   | None => None
                   | Some th' => Some (mkSys (win s) (<[t := th']> (threads s)))
                   end
      end
  | Step t x =>
      match threads s !! t with
      | None => None
      | Some th => match tstep x t (win s) th with
                   | None => None
                   | Some (w', th') => Some (mkSys w' (<[t := th']> (threads s)))
                   end
      end
  | Write t g d =>
      match threads s !! t with
      | None => None
      | Some th => if decide (g ∈ held th)
                   then Some (mkSys (on_slot (calc_idx_ g (win s)) (set_data d) (win s)) (threads s)) else None
      end
  | Forward i =>
      if forallb idle (threads s) then
        match truncate_and_reset_begin_sn i (win s) with
        | None => None
        | Some (_, w') => Some (mkSys w' (threads s))
        end
      else None
  end.

(** The conditions under which the window is used: between the moment a thread gives
    back the last reference to a slot and the moment it reads [end_sn_], the window
    does not go round a whole time; a window without a free slot is not moved. *)
Definition on_time (e : Event) s : bool :=
  match e with
  | Step t _ =>
      match at_ <$> threads s !! t with
      | Some (R_tmp_end _ r) => end_sn_ (win s) <? r + 2 * size_ (win s)
      | _ => true
      end
  | Forward _ => begin_sn_ (win s) <? end_sn_ (win s)
  | _ => true
  end.

(** [n] threads and a window just made. *)
Definition start (start_id size : Z) (n : nat) : System :=
  mkSys (snd (init start_id size true true unset)) (replicate n (mkThread Idle [] OB_SUCCESS)).
Definition start_ok (start_id size : Z) : bool :=
  negb (ob_failed (fst (init start_id size true true unset))).

Inductive reachable (start_id size : Z) (n : nat) : System → Prop :=
| reach_start : start_ok start_id size = true → reachable start_id size n (start start_id size n)
| reach_step s e s' :
    reachable start_id size n s → on_time e s = true → exec e s = Some s' → reachable start_id size n s'.

(** A list of events, and whether they were all on time. *)
Fixpoint run_events (es : list Event) s : option System :=
  match es with
  | [] => Some s
  | e :: es => match exec e s with Some s' => run_events es s' | None => None end
  end.
Fixpoint all_on_time (es : list Event) s : bool :=
  match es with
  | [] => true
  | e :: es => on_time e s && match exec e s with Some s' => all_on_time es s' | None => false end
  end.
End window.
End FixedSlidingWindow.
