(* ===== verification/FixedSlidingWindowInv.v ===== *)
(** The invariant of [FixedSlidingWindow] under interleaving: what every thread may
    assume at each point of its operation, and that no access of another thread
    breaks it. *)
From Stdlib Require Import Sorted.
From S2P Require Import Prelude Lsn FixedSlidingWindow.
Import FixedSlidingWindow.

Module WindowInv.

(** ** Indices *)
Definition idx (sz g : Z) : Z := Z.land g (sz - 1).
Definition pow2 (sz : Z) : Prop := ∃ k, 1 <= k ∧ sz = 2 ^ k.

Lemma pow2_ge sz : pow2 sz → 2 <= sz.
Proof. intros (k & Hk & ->). replace k with (1 + (k - 1)) by lia. rewrite Z.pow_add_r by lia. pose proof (Z.pow_pos_nonneg 2 (k - 1)). lia. Qed.

Lemma idx_mod sz g : pow2 sz → idx sz g = g mod sz.
Proof. intros (k & Hk & ->). unfold idx. rewrite <- Z.land_ones by lia. by rewrite Z.ones_equiv, <- Z.sub_1_r. Qed.

Lemma idx_range sz g : pow2 sz → 0 <= idx sz g < sz.
Proof. intros H. rewrite idx_mod by done. apply Z.mod_pos_bound. pose proof (pow2_ge _ H). lia. Qed.

Lemma idx_diff sz a b : pow2 sz → idx sz a = idx sz b → ∃ q, b = a + q * sz.
Proof.
  intros H E. rewrite !idx_mod in E by done. pose proof (pow2_ge _ H).
  exists (b / sz - a / sz). pose proof (Z.div_mod a sz ltac:(lia)). pose proof (Z.div_mod b sz ltac:(lia)). lia.
Qed.

(** Ids less than a window apart have slots of their own. *)
Lemma idx_inj sz a b : pow2 sz → idx sz a = idx sz b → a - sz < b < a + sz → a = b.
Proof.
  intros H E ?. destruct (idx_diff sz a b H E) as [q ->]. pose proof (pow2_ge _ H).
  assert (q = 0) by nia. lia.
Qed.

Lemma idx_lap sz a b : pow2 sz → idx sz a = idx sz b → a < b < a + 2 * sz → b = a + sz.
Proof.
  intros H E ?. destruct (idx_diff sz a b H E) as [q ->]. pose proof (pow2_ge _ H).
  assert (q = 1) by nia. lia.
Qed.

Lemma idx_add sz a : pow2 sz → idx sz (a + sz) = idx sz a.
Proof. intros H. rewrite !idx_mod by done. pose proof (pow2_ge _ H). rewrite <- (Z.mul_1_l sz) at 1. apply Z_mod_plus_full. Qed.

Lemma idx_succ sz a : pow2 sz → idx sz (idx sz a + 1) = idx sz (a + 1).
Proof. intros H. rewrite !idx_mod by done. pose proof (pow2_ge _ H). apply Zplus_mod_idemp_l. Qed.

Lemma idx_next sz a : pow2 sz → idx sz (a + 1) ≠ idx sz a.
Proof. intros H E. pose proof (pow2_ge _ H). apply (idx_inj sz) in E; [lia|done|lia]. Qed.

(** ** References and locks of a thread *)

(** The ids whose slots a thread counts in [ref_], and those among them that it knows
    to be in the window. *)
Definition pc_refs (p : pc) : list Z :=
  match p with
  | G_begin2 g | G_end2 g | G_got g | R_begin g | R_end _ g | R_sub _ g => [g]
  | _ => []
  end.
Definition pc_conf (p : pc) : list Z :=
  match p with
  | G_end2 g | G_got g | R_begin g | R_end false g | R_sub false g => [g]
  | _ => []
  end.
Definition refs (th : Thread) : list Z := pc_refs (at_ th) ++ held th.
Definition conf (th : Thread) : list Z := pc_conf (at_ th) ++ held th.

Definition owns (sz : Z) (p : pc) : list Z :=
  match p with
  | R_end2 _ i _ _ | R_ref _ i _ _ | R_reset _ i _ _ | R_cas _ i _ _ | R_next _ i _ _ | R_break _ i _ => [i]
  | S_check _ b _ | S_cond _ b | S_next_lock _ b | S_time _ b _ | S_unlock _ b _ => [idx sz b]
  | S_cas _ b | S_end2 _ b _ | S_ref _ b _ _ | S_reset _ b _ _ | S_cas_end _ b _ _ | S_next_unlock _ b _ =>
      [idx sz b; idx sz (b + 1)]
  | _ => []
  end.

Definition reads (p : pc) : bool :=
  match p with
  | G_begin _ | G_end _ | G_inc _ | G_begin2 _ | G_end2 _ | G_got _ | G_ret _ => true
  | R_end k _ | R_sub k _ | R_tmp_end k _ | R_loop k _ _ _ | R_slot_lock k _ _ _ | R_end2 k _ _ _ | R_ref k _ _ _
  | R_reset k _ _ _ | R_cas k _ _ _ | R_next k _ _ _ | R_break k _ _ => k
  | Idle | G_lock _ | R_begin _ | S_lock _ | T_lock _ | T_begin _ | T_end _ | T_load _ | T_wait _ _
  | T_reset _ _ | T_ret _ => false
  | _ => true
  end.
Definition writes (p : pc) : bool :=
  match p with
  | T_begin _ | T_end _ | T_load _ | T_wait _ _ | T_reset _ _ | T_ret _ => true
  | _ => false
  end.

Definition cnt (sz i : Z) (l : list Z) : Z := Z.of_nat (length (filter (λ g, idx sz g = i) l)).

Definition refs_at (sz i : Z) (ts : list Thread) : Z := foldr (λ th n, cnt sz i (refs th) + n) 0 ts.

Lemma cnt_nonneg sz i l : 0 <= cnt sz i l.
Proof. unfold cnt. lia. Qed.

Lemma cnt_app sz i l k : cnt sz i (l ++ k) = cnt sz i l + cnt sz i k.
Proof. unfold cnt. rewrite filter_app, length_app. lia. Qed.

Lemma cnt_cons sz i g l : cnt sz i (g :: l) = (if decide (idx sz g = i) then 1 else 0) + cnt sz i l.
Proof. unfold cnt. rewrite filter_cons. destruct (decide (idx sz g = i)); simpl length; lia. Qed.

Lemma cnt_nil sz i : cnt sz i [] = 0.
Proof. reflexivity. Qed.

Lemma cnt_in sz i l g : g ∈ l → idx sz g = i → 0 < cnt sz i l.
Proof.
  induction l as [|h l IH]; intros Hg Hi; [by apply elem_of_nil in Hg|].
  rewrite cnt_cons. pose proof (cnt_nonneg sz i l).
  apply elem_of_cons in Hg as [<-|Hg]; [rewrite decide_True by done; lia|].
  specialize (IH Hg Hi). destruct (decide _); lia.
Qed.

Lemma refs_at_update sz i ts t th th' :
  ts !! t = Some th → refs_at sz i (<[t := th']> ts) = refs_at sz i ts - cnt sz i (refs th) + cnt sz i (refs th').
Proof.
  revert t. induction ts as [|u ts IH]; intros [|t] H; simpl in *; simplify_eq; [lia|].
  rewrite (IH t H). lia.
Qed.

Lemma refs_at_nonneg sz i ts : 0 <= refs_at sz i ts.
Proof. induction ts as [|u ts IH]; simpl; [lia|]. pose proof (cnt_nonneg sz i (refs u)). lia. Qed.

Lemma refs_at_le sz i ts t th : ts !! t = Some th → cnt sz i (refs th) <= refs_at sz i ts.
Proof.
  revert t. induction ts as [|u ts IH]; intros [|t] H; simpl in *; simplify_eq.
  - pose proof (refs_at_nonneg sz i ts). lia.
  - specialize (IH _ H). pose proof (cnt_nonneg sz i (refs u)). lia.
Qed.

Lemma conf_refs th g : g ∈ conf th → g ∈ refs th.
Proof.
  unfold conf, refs. rewrite !elem_of_app. intros [H|H]; [left|by right].
  destruct (at_ th); simpl in *; try (by apply elem_of_nil in H); try done; by destruct k; [apply elem_of_nil in H|].
Qed.

Lemma drop_one_cnt sz i r l l' : drop_one r l = Some l' → cnt sz i l = cnt sz i (r :: l').
Proof.
  revert l'. induction l as [|g l IH]; simpl; intros l' H; [done|]. case_match eqn:E.
  - apply Z.eqb_eq in E. by simplify_eq.
  - case_match eqn:E2; simplify_eq. specialize (IH _ eq_refl). rewrite !cnt_cons in *. lia.
Qed.

Lemma drop_one_in r l l' g : drop_one r l = Some l' → g ∈ r :: l' ↔ g ∈ l.
Proof.
  revert l'. induction l as [|h l IH]; simpl; intros l' H; [done|]. case_match eqn:E.
  - apply Z.eqb_eq in E. by simplify_eq.
  - case_match eqn:E2; simplify_eq. specialize (IH _ eq_refl). rewrite !elem_of_cons in *. tauto.
Qed.

(** ** Case analysis on an access *)
Ltac fold_idx :=
  repeat match goal with
  | H : context [calc_idx_ ?g ?w] |- _ => change (calc_idx_ g w) with (idx (size_ w) g) in H
  | |- context [calc_idx_ ?g ?w] => change (calc_idx_ g w) with (idx (size_ w) g)
  end.

Ltac step_cases H :=
  unfold tstep, get_step, revert_step, slide_step, truncate_step, revert_done, rd_lock, wr_lock,
    slot_lock, rd_unlock, wr_unlock, slot_unlock, goto, return_ in H;
  match type of H with context [at_ ?th] => destruct th as [p hl rs]; simpl in H; destruct p end; try discriminate H;
  repeat (match type of H with
          | context [match ?y with _ => _ end] =>
              lazymatch y with context [match _ with _ => _ end] => fail | _ => destruct y eqn:? end
          end; try discriminate H); injection H as <- <-; simpl in *; bool_to_prop; fold_idx.

(** The branches for impossible states are not taken. *)
Ltac impossible Hc :=
  exfalso; first [congruence | lia | specialize (Hc _ (list_elem_of_here _ _)); lia].

(** ** The invariant *)
Section inv.
Context {T : Type} {ops : SlotOps T}.
Implicit Types (s : @System T) (w : @Window T).

Definition unheld s (g : Z) : Prop := ∀ t th, threads s !! t = Some th → g ∉ conf th.

(** What holds at a point, whatever the other threads do. *)
Definition pc_ok s (p : pc) : Prop :=
  let w := win s in let b0 := begin_sn_ w in let e0 := end_sn_ w in let sz := size_ w in
  match p with
  | G_inc g | G_begin2 g | G_end2 g | G_got g | R_end _ g | R_sub _ g | R_tmp_end _ g => g < e0
  | R_loop _ i te ti => te <= e0 ∧ (i = idx sz te → ti = te - sz)
  | R_slot_lock _ i te ti | R_end2 _ i te ti => te <= e0 ∧ i = idx sz te ∧ ti = te - sz ∧ ti < b0
  | R_ref _ i te ti => te = e0 ∧ i = idx sz te ∧ ti = te - sz ∧ ti < b0
  | R_reset _ i te ti | R_cas _ i te ti => te = e0 ∧ i = idx sz te ∧ ti = te - sz ∧ ti < b0 ∧ unheld s ti
  | R_next _ i te ti => te + 1 <= e0 ∧ i = idx sz te ∧ ti = te - sz
  | R_break _ i rc => rc = OB_SUCCESS ∧ 0 <= i < sz
  | S_slot_lock _ _ e | S_check _ _ e => e <= e0
  | S_cond _ b => b = b0 ∧ b < e0
  | S_next_lock _ b | S_cas _ b => b = b0 ∧ b < e0 ∧ b ∈ slid w
  | S_end2 _ b rc => b0 = b + 1 ∧ b < e0 ∧ rc = OB_SUCCESS
  | S_ref _ b e rc => b0 = b + 1 ∧ b < e <= e0 ∧ rc = OB_SUCCESS ∧ (idx sz e = idx sz b → e = e0)
  | S_reset _ b e rc | S_cas_end _ b e rc => b0 = b + 1 ∧ e = e0 ∧ e = b + sz ∧ rc = OB_SUCCESS ∧ unheld s b
  | S_next_unlock _ _ rc | S_time _ _ rc => rc = OB_SUCCESS
  | T_end i | T_load i => b0 <= i
  | T_wait i e => b0 <= i ∧ e <= e0
  | T_reset i e => b0 <= i < e ∧ e <= e0 ∧ unheld s i
  | _ => True
  end.

(** A thread that is going to look at the slot of [end_sn_]. *)
Definition responsible w (p : pc) : Prop :=
  let e0 := end_sn_ w in let sz := size_ w in
  match p with
  | R_tmp_end _ r => idx sz r = idx sz e0
  | R_loop _ i te _ => te = e0 ∧ i = idx sz te
  | R_slot_lock _ _ te _ | R_end2 _ _ te _ | R_ref _ _ te _ | R_reset _ _ te _ | R_cas _ _ te _ => te = e0
  | R_next _ _ te _ => te + 1 = e0
  | S_end2 _ b _ => e0 = b + sz
  | S_ref _ b e _ => e = e0 ∧ e0 = b + sz
  | S_reset _ _ _ _ | S_cas_end _ _ _ _ => True
  | _ => False
  end.

Definition called (b : Z) (p : pc) : Prop :=
  match p with S_next_lock _ b' | S_cas _ b' => b' = b | _ => False end.

Record Inv s : Prop := {
  inv_init : is_inited_ (win s) = true;
  inv_size : pow2 (size_ (win s));
  inv_len : Z.of_nat (length (array_ (win s))) = size_ (win s);
  inv_range : begin_sn_ (win s) <= end_sn_ (win s) <= begin_sn_ (win s) + size_ (win s);
  inv_ref i sl : array_ (win s) !! i = Some sl → ref_ sl = refs_at (size_ (win s)) (Z.of_nat i) (threads s);
  inv_lock i sl t : array_ (win s) !! i = Some sl →
    slot_lock_ sl = Some t ↔ ∃ th, threads s !! t = Some th ∧ Z.of_nat i ∈ owns (size_ (win s)) (at_ th);
  inv_readers t : t ∈ readers (win s) ↔ ∃ th, threads s !! t = Some th ∧ reads (at_ th) = true;
  inv_writer t : writer (win s) = Some t ↔ ∃ th, threads s !! t = Some th ∧ writes (at_ th) = true;
  inv_excl : writer (win s) ≠ None → readers (win s) = ∅;
  inv_conf t th g : threads s !! t = Some th → g ∈ conf th →
    g < end_sn_ (win s) <= g + size_ (win s);
  inv_pc t th : threads s !! t = Some th → pc_ok s (at_ th);
  inv_resp : end_sn_ (win s) < begin_sn_ (win s) + size_ (win s) →
    0 < refs_at (size_ (win s)) (idx (size_ (win s)) (end_sn_ (win s))) (threads s)
    ∨ ∃ t th, threads s !! t = Some th ∧ responsible (win s) (at_ th);
  inv_slid : StronglySorted Z.gt (slid (win s));
  inv_called g : g ∈ slid (win s) →
    g < begin_sn_ (win s) ∨ g = begin_sn_ (win s) ∧ ∃ t th, threads s !! t = Some th ∧ called g (at_ th)
}.

(** ** What one access does *)

Lemma tstep_frame x t w th w' th' :
  tstep x t w th = Some (w', th') →
  is_inited_ w' = is_inited_ w ∧ size_ w' = size_ w ∧ length (array_ w') = length (array_ w).
Proof. intros H. step_cases H; rewrite ?length_alter; auto. Qed.

Lemma alter_lookup {A} (l : list A) i j f a' :
  alter f (Z.to_nat i) l !! j = Some a' →
  ∃ a, l !! j = Some a ∧ a' = if decide (j = Z.to_nat i) then f a else a.
Proof.
  destruct (decide (j = Z.to_nat i)) as [->|Hne].
  - rewrite list_lookup_alter_eq. destruct (l !! Z.to_nat i) as [a|]; simpl; intros; simplify_eq. by exists a.
  - rewrite list_lookup_alter_ne by done. eauto.
Qed.

Lemma idx_nat sz i g : pow2 sz → (i = Z.to_nat (idx sz g)) ↔ idx sz g = Z.of_nat i.
Proof. intros H. pose proof (idx_range sz g H). lia. Qed.

(** Slot locks exclude. *)
Lemma owns_range s t th i :
  Inv s → threads s !! t = Some th → i ∈ owns (size_ (win s)) (at_ th) → 0 <= i < size_ (win s).
Proof.
  intros HI Ht Hi. pose proof (inv_pc s HI t th Ht) as Hpc. pose proof (inv_size s HI) as Hp.
  destruct (at_ th); simpl in *; rewrite ?elem_of_cons, ?elem_of_nil in Hi; destruct_and?; destruct_or?;
    subst; try done; by apply idx_range.
Qed.

Lemma owns_excl s t u th thu i :
  Inv s → threads s !! t = Some th → threads s !! u = Some thu →
  i ∈ owns (size_ (win s)) (at_ th) → i ∈ owns (size_ (win s)) (at_ thu) → t = u.
Proof.
  intros HI Ht Hu Hi Hj. pose proof (owns_range s t th i HI Ht Hi). pose proof (inv_len s HI).
  destruct (lookup_lt_is_Some_2 (array_ (win s)) (Z.to_nat i)) as [sl Hsl]; [lia|].
  rewrite <- (Z2Nat.id i) in Hi, Hj by lia.
  assert (slot_lock_ sl = Some t) by (apply (inv_lock s HI _ _ t Hsl); eauto).
  assert (slot_lock_ sl = Some u) by (apply (inv_lock s HI _ _ u Hsl); eauto).
  congruence.
Qed.

(** A slot without references has none of a thread that knows its id in the window. *)
Lemma zero_unheld s g sl :
  Inv s → slot_at (idx (size_ (win s)) g) (win s) = Some sl → ref_ sl = 0 → unheld s g.
Proof.
  intros HI Hsl Hz t th Ht Hg. unfold slot_at in Hsl. pose proof (idx_range _ g (inv_size s HI)).
  rewrite (inv_ref s HI _ _ Hsl), Z2Nat.id in Hz by lia.
  pose proof (refs_at_le (size_ (win s)) (idx (size_ (win s)) g) _ _ _ Ht).
  pose proof (cnt_in (size_ (win s)) _ _ _ (conf_refs _ _ Hg) eq_refl). lia.
Qed.

Section step.
Context (s : @System T) (HI : Inv s) (t : nat) (th : Thread) (Ht : threads s !! t = Some th).
Context (x : Env) (w' : @Window T) (th' : Thread) (H : tstep x t (win s) th = Some (w', th')).
Let w := win s.
Let sz := size_ w.

Lemma conf_at g : g ∈ conf th → g < end_sn_ w <= g + sz.
Proof. intros Hg. exact (inv_conf s HI t th g Ht Hg). Qed.

Lemma conf_pc g : g ∈ pc_conf (at_ th) → g < end_sn_ w <= g + sz.
Proof. intros Hg. apply conf_at, elem_of_app. by left. Qed.

Lemma step_refs i sl' :
  array_ w' !! i = Some sl' →
  ∃ sl, array_ w !! i = Some sl ∧
    ref_ sl' = ref_ sl - cnt sz (Z.of_nat i) (refs th) + cnt sz (Z.of_nat i) (refs th').
Proof.
  intros Hi. unfold refs. pose proof (inv_pc s HI t th Ht) as Hpc. pose proof (inv_range s HI) as Hr.
  pose proof conf_pc as Hc. pose proof (inv_init s HI). subst w sz. generalize (inv_size s HI). intros Hp.
  step_cases H; try (exists sl'; split; [done|lia]); try impossible Hc;
    apply alter_lookup in Hi as (sl & Hi & ->); exists sl; (split; [done|]);
    case_decide as E; simpl; try lia; rewrite idx_nat in E by done;
    rewrite cnt_cons; case_decide; first [lia|done].
Qed.

(** A slot lock is left alone, taken or released. *)
Lemma step_locks i sl' :
  array_ w' !! i = Some sl' →
  ∃ sl, array_ w !! i = Some sl ∧
    (slot_lock_ sl' = slot_lock_ sl ∧ (Z.of_nat i ∈ owns sz (at_ th') ↔ Z.of_nat i ∈ owns sz (at_ th))
     ∨ slot_lock_ sl = None ∧ slot_lock_ sl' = Some t ∧ Z.of_nat i ∈ owns sz (at_ th')
     ∨ Z.of_nat i ∈ owns sz (at_ th) ∧ Z.of_nat i ∉ owns sz (at_ th') ∧ slot_lock_ sl' = None).
Proof.
  intros Hi. pose proof (inv_pc s HI t th Ht) as Hpc. subst w sz. generalize (inv_size s HI). intros Hp.
  assert (∀ g, 0 <= idx (size_ (win s)) g < size_ (win s)) as Hx by (intros; by apply idx_range).
  assert (∀ g, idx (size_ (win s)) (g + 1) ≠ idx (size_ (win s)) g) as Hn by (intros; by apply idx_next).
  step_cases H; try (exists sl'; split; [done|left; split; [done|by rewrite ?elem_of_cons, ?elem_of_nil; lia]]);
    apply alter_lookup in Hi as (sl & Hi & ->); exists sl; (split; [done|]); unfold slot_at in *;
    try (pose proof (Hx curr_begin); pose proof (Hx (curr_begin + 1)); pose proof (Hn curr_begin));
    try pose proof (Hx tmp_end); clear Hx Hn;
    case_decide as E; simpl; rewrite ?elem_of_cons, ?elem_of_nil; simplify_eq;
    first [ left; split; [done|lia] | right; left; split_and!; [done|done|lia] | right; right; split_and!; [lia|lia|done] ].
Qed.

(** So is the lock of the window. *)
Lemma step_rw :
  readers w' = readers w ∧ writer w' = writer w ∧ reads (at_ th') = reads (at_ th) ∧ writes (at_ th') = writes (at_ th)
  ∨ writer w = None ∧ writer w' = None ∧ readers w' = {[t]} ∪ readers w ∧
    reads (at_ th') = true ∧ writes (at_ th) = false ∧ writes (at_ th') = false
  ∨ writer w' = writer w ∧ readers w' = readers w ∖ {[t]} ∧
    reads (at_ th') = false ∧ writes (at_ th) = false ∧ writes (at_ th') = false
  ∨ writer w = None ∧ readers w = ∅ ∧ writer w' = Some t ∧ readers w' = readers w ∧
    reads (at_ th) = false ∧ reads (at_ th') = false ∧ writes (at_ th') = true
  ∨ writes (at_ th) = true ∧ writer w' = None ∧ readers w' = readers w ∧
    reads (at_ th) = false ∧ reads (at_ th') = false ∧ writes (at_ th') = false.
Proof. subst w sz. step_cases H; tauto. Qed.

Lemma step_conf g :
  g ∈ conf th' → g ∈ conf th ∨ at_ th = G_begin2 g ∧ begin_sn_ w <= g.
Proof. unfold conf. subst w sz. step_cases H; set_solver. Qed.

Lemma step_begin :
  begin_sn_ w' = begin_sn_ w
  ∨ begin_sn_ w' = begin_sn_ w + 1 ∧ end_sn_ w' = end_sn_ w ∧ ∃ u, at_ th = S_cas u (begin_sn_ w) ∧ at_ th' = S_end2 u (begin_sn_ w) OB_SUCCESS.
Proof. subst w sz. step_cases H; try (by left). subst. right. eauto. Qed.

Lemma step_end :
  end_sn_ w' = end_sn_ w
  ∨ end_sn_ w' = end_sn_ w + 1 ∧ begin_sn_ w' = begin_sn_ w ∧
    ((∃ k i ti, at_ th = R_cas k i (end_sn_ w) ti ∧ at_ th' = R_next k i (end_sn_ w) ti) ∨ ∃ u b rc, at_ th = S_cas_end u b (end_sn_ w) rc).
Proof. subst w sz. step_cases H; try (by left); subst; right; split_and!; try lia; eauto 10. Qed.

(** ** What the other threads see of it *)
Let s' := mkSys w' (<[t := th']> (threads s)).

Lemma step_size : size_ w' = sz.
Proof. by destruct (tstep_frame _ _ _ _ _ _ H) as (_ & ? & _). Qed.

Lemma begin_mono : begin_sn_ w <= begin_sn_ w'.
Proof. destruct step_begin as [->|(-> & _)]; lia. Qed.

Lemma end_mono : end_sn_ w <= end_sn_ w'.
Proof. destruct step_end as [->|(-> & _)]; lia. Qed.

Lemma begin_locked u thu :
  u ≠ t → threads s !! u = Some thu → idx sz (begin_sn_ w) ∈ owns sz (at_ thu) → begin_sn_ w' = begin_sn_ w.
Proof.
  intros Hne Hu Ho. destruct step_begin as [?|(_ & _ & k & E & _)]; [done|]. destruct Hne.
  apply (owns_excl s u t thu th (idx sz (begin_sn_ w)) HI Hu Ht Ho). rewrite E. simpl. set_solver.
Qed.

Lemma end_locked u thu :
  u ≠ t → threads s !! u = Some thu → idx sz (end_sn_ w) ∈ owns sz (at_ thu) → end_sn_ w' = end_sn_ w.
Proof.
  intros Hne Hu Ho. pose proof (inv_pc s HI t th Ht) as Hpc. pose proof (inv_size s HI) as Hp.
  destruct step_end as [?|(_ & _ & [(k & i & ti & E & _)|(k & b & rc & E)])]; [done| |]; destruct Hne;
    apply (owns_excl s u t thu th (idx sz (end_sn_ w)) HI Hu Ht Ho); rewrite E in *; simpl in *; destruct_and?.
  - subst i. set_solver.
  - subst sz w. replace (end_sn_ (win s)) with (b + size_ (win s)) by lia. rewrite idx_add by done. set_solver.
Qed.

Lemma writer_alone u thu :
  u ≠ t → threads s !! u = Some thu → writes (at_ thu) = true → reads (at_ th) = false.
Proof.
  intros Hne Hu Hw. destruct (reads (at_ th)) eqn:E; [|done].
  assert (writer (win s) = Some u) as Ew by (apply (inv_writer s HI); eauto).
  assert (t ∈ readers (win s)) as Hr by (apply (inv_readers s HI); eauto).
  rewrite (inv_excl s HI) in Hr by congruence. set_solver.
Qed.

Lemma step_unheld g : unheld s g → g < begin_sn_ w ∨ reads (at_ th) = false → unheld s' g.
Proof.
  intros Hg Hor v thv Hv Hin. destruct (decide (v = t)) as [->|Hne]; simpl in Hv.
  - rewrite list_lookup_insert_eq in Hv by (by eapply lookup_lt_Some). injection Hv as <-.
    apply step_conf in Hin as [Hin|[E Hb]]; [by apply (Hg t th Ht)|].
    destruct Hor; [lia|]. by rewrite E in *.
  - rewrite list_lookup_insert_ne in Hv by done. by apply (Hg v thv Hv).
Qed.

Lemma slid_grows g : g ∈ slid w → g ∈ slid w'.
Proof. subst w sz. step_cases H; set_solver. Qed.

Lemma writer_begin u thu :
  u ≠ t → threads s !! u = Some thu → writes (at_ thu) = true → begin_sn_ w' = begin_sn_ w.
Proof.
  intros Hne Hu Hw. pose proof (writer_alone u thu Hne Hu Hw) as Hr.
  destruct step_begin as [?|(_ & _ & k & E & _)]; [done|]. by rewrite E in Hr.
Qed.

Lemma pc_stable u thu : u ≠ t → threads s !! u = Some thu → pc_ok s' (at_ thu).
Proof.
  intros Hne Hu. pose proof (inv_pc s HI u thu Hu) as Hpc. pose proof begin_mono as Hb. pose proof end_mono as He.
  pose proof (begin_locked u thu Hne Hu) as Hbl. pose proof (end_locked u thu Hne Hu) as Hel.
  pose proof (writer_alone u thu Hne Hu) as Hwa. pose proof (writer_begin u thu Hne Hu) as Hwb.
  pose proof step_unheld as Hun. pose proof (inv_size s HI) as Hp. pose proof slid_grows as Hsl.
  unfold pc_ok. subst s'. simpl. rewrite step_size. subst w sz.
  destruct (at_ thu); simpl in *; try done; try lia; try (rewrite Hwb by done; intuition auto; fail);
    rewrite ?elem_of_cons in Hbl, Hel; destruct_and?.
  1-3: rewrite Hel by (left; congruence); split_and!; try done; try lia; (apply Hun; [done|lia]).
  1-3: rewrite Hbl by (left; congruence); split_and?; auto; lia.
  1-4: assert (begin_sn_ w' = begin_sn_ (win s)) as -> by (apply Hbl; right; left; f_equal; lia).
  - lia.
  - split_and!; try done; try lia. intros E.
    match goal with Hi : idx _ _ = idx _ _ → _ |- _ => pose proof (Hi E) end. subst. symmetry. apply Hel. by left.
  - rewrite Hel by (left; replace (end_sn_ (win s)) with (curr_begin + size_ (win s)) by lia; by apply idx_add).
    split_and!; try done. apply Hun; [done|lia].
  - rewrite Hel by (left; replace (end_sn_ (win s)) with (curr_begin + size_ (win s)) by lia; by apply idx_add).
    split_and!; try done. apply Hun; [done|lia].
  - rewrite Hwb by done. split_and!; try lia. apply Hun; [done|]. right. by apply Hwa.
Qed.

Lemma pc_own : on_time (Step t x) s = true → pc_ok s' (at_ th').
Proof.
  intros Hot. simpl in Hot. rewrite Ht in Hot. simpl in Hot.
  pose proof (inv_pc s HI t th Ht) as Hpc. pose proof (inv_range s HI) as Hr. pose proof conf_pc as Hc.
  pose proof step_unheld as Hun. pose proof (inv_size s HI) as Hp. pose proof (inv_init s HI).
  assert (∀ g sl, slot_at (idx (size_ (win s)) g) (win s) = Some sl → ref_ sl = 0 → unheld s g) as Hz
    by (intros; by eapply zero_unheld).
  subst s' w sz.
  pose proof (pow2_ge _ Hp) as Hge. pose proof (λ g, idx_range _ g Hp) as Hx.
  step_cases H; try done; try lia; try impossible Hc; destruct_and?; try (split_and!; [lia|lia|set_solver]).
  - by apply Hc, list_elem_of_here.
  - split; [lia|]. intros E. apply idx_lap in E; [lia|done|lia].
  - split; [done|]. subst i. apply Hx.
  - split_and!; try done. apply Hun; [|lia]. eapply Hz; [|done].
    rewrite <- (idx_add _ tmp_id Hp). replace (tmp_id + size_ (win s)) with tmp_end by lia. by subst i.
  - split; [done|]. subst i. apply Hx.
  - split; [done|]. subst i. apply Hx.
  - split_and!; try done. apply Hun; [done|lia].
  - match goal with Hi : idx _ _ = idx _ _ → _ |- _ => pose proof (Hi ltac:(done)) end.
    assert (curr_end = curr_begin + size_ (win s)) by (apply idx_lap; [done|done|lia]).
    split_and!; try done. apply Hun; [|lia]. by eapply Hz.
  - split_and!; try done. apply Hun; [done|lia].
  - split_and!; try lia. apply Hun; [|by right]. by eapply Hz.
Qed.

(** ** The invariant after the access *)
Lemma lookup_new v thv :
  threads s' !! v = Some thv ↔ v = t ∧ thv = th' ∨ v ≠ t ∧ threads s !! v = Some thv.
Proof.
  simpl. rewrite list_lookup_insert_Some. pose proof (lookup_lt_Some _ _ _ Ht). naive_solver.
Qed.

Lemma step_range : begin_sn_ w' <= end_sn_ w' <= begin_sn_ w' + sz.
Proof.
  pose proof (inv_range s HI). pose proof (inv_pc s HI t th Ht) as Hpc. pose proof (pow2_ge _ (inv_size s HI)).
  pose proof step_begin as Hb. pose proof step_end as He. subst w sz.
  destruct Hb as [->|(-> & -> & k & E & _)].
  - destruct He as [->|(-> & _ & [(k & i & ti & E & _)|(k & b & rc & E)])]; [done| |]; rewrite E in Hpc; simpl in Hpc; lia.
  - rewrite E in Hpc. simpl in Hpc. lia.
Qed.

Lemma step_inv_ref i sl : array_ w' !! i = Some sl → ref_ sl = refs_at sz (Z.of_nat i) (threads s').
Proof.
  intros Hi. destruct (step_refs i sl Hi) as (sl0 & Hi0 & ->). simpl. rewrite (refs_at_update _ _ _ _ _ _ Ht).
  by rewrite (inv_ref s HI _ _ Hi0).
Qed.

Lemma step_inv_lock i sl v :
  array_ w' !! i = Some sl →
  slot_lock_ sl = Some v ↔ ∃ thv, threads s' !! v = Some thv ∧ Z.of_nat i ∈ owns sz (at_ thv).
Proof.
  intros Hi. destruct (step_locks i sl Hi) as (sl0 & Hi0 & Hc). pose proof (λ u, inv_lock s HI _ _ u Hi0) as Hl.
  setoid_rewrite lookup_new. destruct (decide (v = t)) as [->|Hne].
  - specialize (Hl t). split.
    + intros E. exists th'. split; [by left|]. destruct Hc as [(E1 & Ho)|[(_ & _ & ?)|(_ & _ & ?)]]; [|done|congruence].
      apply Ho. rewrite E1 in E. apply Hl in E as (th0 & Ht0 & Hin). by rewrite Ht in Ht0; simplify_eq.
    + intros (th0 & [[_ ->]|[? _]] & Hin); [|done]. destruct Hc as [(-> & Ho)|[(_ & ? & _)|(_ & ? & _)]]; [|done|done].
      apply Hl. exists th. split; [done|]. by apply Ho.
  - transitivity (slot_lock_ sl0 = Some v).
    + destruct Hc as [(-> & _)|[(E1 & E2 & _)|(Ho & _ & E2)]]; [done| |].
      * rewrite E1, E2. split; congruence.
      * assert (slot_lock_ sl0 = Some t) by (apply Hl; eauto). split; congruence.
    + rewrite (Hl v). naive_solver.
Qed.

Lemma ex_new (P : Thread → Prop) v :
  (∃ thv, threads s' !! v = Some thv ∧ P thv) ↔
  if decide (v = t) then P th' else ∃ thv, threads s !! v = Some thv ∧ P thv.
Proof. setoid_rewrite lookup_new. destruct (decide (v = t)); naive_solver. Qed.

Lemma ex_old (P : Thread → Prop) : (∃ thv, threads s !! t = Some thv ∧ P thv) ↔ P th.
Proof. rewrite Ht. naive_solver. Qed.

Lemma step_inv_readers v : v ∈ readers w' ↔ ∃ thv, threads s' !! v = Some thv ∧ reads (at_ thv) = true.
Proof.
  rewrite (ex_new (λ th, reads (at_ th) = true)). pose proof (inv_readers s HI v) as Hv. pose proof step_rw as Hrw.
  pose proof (ex_old (λ th, reads (at_ th) = true)) as Hold. subst w sz.
  destruct Hrw as [(-> & _ & E & _)|[(_ & _ & -> & E & _)|[(_ & -> & E & _)|[(_ & _ & _ & -> & E & E' & _)|(_ & _ & -> & E & E' & _)]]]];
    rewrite ?elem_of_union, ?elem_of_difference, ?elem_of_singleton, Hv; case_decide; subst; rewrite ?Hold, ?E, ?E'; naive_solver.
Qed.

Lemma step_inv_writer v : writer w' = Some v ↔ ∃ thv, threads s' !! v = Some thv ∧ writes (at_ thv) = true.
Proof.
  rewrite (ex_new (λ th, writes (at_ th) = true)). pose proof (inv_writer s HI) as Hv. pose proof step_rw as Hrw.
  pose proof (ex_old (λ th, writes (at_ th) = true)) as Hold. cbn beta in *.
  rewrite <- (Hv t) in Hold. subst w sz.
  destruct Hrw as [(_ & -> & _ & E)|[(E1 & -> & _ & _ & E & E')|[(-> & _ & _ & E & E')|[(E1 & _ & -> & _ & _ & _ & E')|(E & -> & _ & _ & _ & E')]]]];
    (case_decide; [subst v|rewrite <- (Hv v)]); rewrite ?Hold, ?E, ?E', ?E1; rewrite ?E in Hold; naive_solver.
Qed.

Lemma step_inv_excl : writer w' ≠ None → readers w' = ∅.
Proof.
  pose proof (inv_excl s HI) as Hx. pose proof step_rw as Hrw. pose proof (inv_writer s HI t) as Hv.
  pose proof (ex_old (λ th, writes (at_ th) = true)) as Hold. subst w sz.
  destruct Hrw as [(-> & -> & _ & E)|[(E1 & -> & _ & _ & E & E')|[(-> & -> & _ & E & E')|[(E1 & -> & -> & -> & _ & _ & E')|(E & -> & _ & _ & _ & E')]]]]; auto; try done.
  intros Hn. rewrite Hx by done. set_solver.
Qed.

Lemma step_inv_conf v thv g : threads s' !! v = Some thv → g ∈ conf thv → g < end_sn_ w' <= g + sz.
Proof.
  intros Hv Hg. pose proof (inv_pc s HI t th Ht) as Hpc. pose proof (inv_range s HI) as Hr. pose proof step_end as He.
  assert ((∃ u thu, threads s !! u = Some thu ∧ g ∈ conf thu) ∨ at_ th = G_begin2 g ∧ begin_sn_ w <= g) as Ho.
  { apply lookup_new in Hv as [[-> ->]|[_ Hv]]; [|eauto]. apply step_conf in Hg as [Hg|Hg]; eauto. }
  subst w sz. destruct Ho as [(u & thu & Hu & Hgu)|[E Hb]].
  - pose proof (inv_conf s HI _ _ _ Hu Hgu) as Hc.
    destruct He as [->|(-> & _ & [(k & i & ti & E & _)|(k & b & rc & E)])]; [done| |];
      rewrite E in Hpc; simpl in Hpc; destruct_and?; split; try lia;
      (destruct (decide (g = end_sn_ (win s) - size_ (win s))); [|lia]);
      match goal with Hun : unheld _ ?h |- _ => destruct (Hun u thu Hu); replace h with g by lia; done end.
  - rewrite E in Hpc. simpl in Hpc.
    destruct He as [->|(_ & _ & [(k & i & ti & E2 & _)|(k & b & rc & E2)])]; [lia|congruence|congruence].
Qed.

Lemma resp_own :
  0 < refs_at sz (idx sz (end_sn_ w)) (threads s) ∨ responsible w (at_ th) ∨ end_sn_ w = begin_sn_ w + sz →
  end_sn_ w' < begin_sn_ w' + sz →
  0 < refs_at sz (idx sz (end_sn_ w')) (threads s') ∨ responsible w' (at_ th').
Proof.
  intros Ho Hpend. pose proof (inv_pc s HI t th Ht) as Hpc. pose proof (inv_range s HI) as Hr. pose proof conf_pc as Hc.
  pose proof (inv_size s HI) as Hp. pose proof (inv_init s HI). pose proof (λ g, idx_range _ g Hp) as Hx.
  assert (∀ i, refs_at sz i (threads s') = refs_at sz i (threads s) - cnt sz i (refs th) + cnt sz i (refs th')) as HN
    by (intros; simpl; by apply refs_at_update).
  assert (∀ g sl, slot_at (idx sz g) w = Some sl → ref_ sl = refs_at sz (idx sz g) (threads s)) as Href.
  { intros g sl Hs. subst w sz. unfold slot_at in Hs. specialize (Hx g).
    rewrite (inv_ref s HI _ _ Hs), Z2Nat.id by lia. done. }
  assert (∀ i, cnt sz i (refs th) <= refs_at sz i (threads s)) as Hle by (intros; by eapply refs_at_le).
  pose proof (λ i, refs_at_nonneg sz i (threads s)) as Hnn.
  rewrite HN. clear HN. unfold refs in *. subst s' w sz.
  step_cases H; try lia; try impossible Hc; destruct_and?; try lia; rewrite ?cnt_cons;
    try (specialize (Hle (idx (size_ (win s)) r_id)); rewrite cnt_cons, decide_True in Hle by done;
         pose proof (cnt_nonneg (size_ (win s)) (idx (size_ (win s)) r_id) hl)).
  - case_decide; lia.
  - specialize (Href _ _ Heqo). case_decide; lia.
  - specialize (Href _ _ Heqo). case_decide; lia.
  - case_decide; [by right|]. lia.
  - specialize (Href _ _ Heqo). case_decide as E; [rewrite E in Href|]; lia.
  - specialize (Href _ _ Heqo). case_decide as E; [rewrite E in Href|]; lia.
  - subst. specialize (Href _ _ Heqo). lia.
  - subst. specialize (Href _ _ Heqo). specialize (Hnn (idx (size_ (win s)) (end_sn_ (win s)))). lia.
  - subst i. rewrite idx_succ by done. lia.
  - destruct Ho as [|[[E1 E2]|]]; [lia| |lia]. exfalso. rewrite E1, E2, idx_add in * by done. naive_solver.
  - destruct Ho as [|[[E1 E2]|]]; [lia| |lia]. specialize (Href _ _ Heqo). rewrite <- (idx_add _ curr_begin) in Href by done.
    rewrite <- E2 in Href. lia.
  - specialize (Href _ _ Heqo). specialize (Hnn (idx (size_ (win s)) curr_begin)). lia.
Qed.

Lemma step_inv_resp :
  end_sn_ w' < begin_sn_ w' + sz →
  0 < refs_at sz (idx sz (end_sn_ w')) (threads s') ∨ ∃ v thv, threads s' !! v = Some thv ∧ responsible w' (at_ thv).
Proof.
  intros Hpend. pose proof (inv_resp s HI) as Hr. pose proof (inv_range s HI). pose proof step_size as Esz.
  pose proof resp_own as Hown. pose proof step_end as He. pose proof lookup_new as Hnew. subst w sz.
  assert (responsible w' (at_ th') → ∃ v thv, threads s' !! v = Some thv ∧ responsible w' (at_ thv)) as Hex.
  { intros. exists t, th'. split; [apply Hnew; by left|done]. }
  destruct (decide (end_sn_ (win s) = begin_sn_ (win s) + size_ (win s))) as [E|E]; [tauto|].
  destruct Hr as [?|(u & thu & Hu & Hru)]; [lia|tauto|].
  destruct (decide (u = t)) as [->|Hne]; [rewrite Ht in Hu; injection Hu as <-; tauto|].
  destruct He as [E2|(_ & _ & [(k & i & ti & E2 & _)|(k & b & rc & E2)])].
  - right. exists u, thu. split; [apply Hnew; by right|]. unfold responsible in *. by rewrite E2, Esz.
  - destruct Hown as [?|?]; [|done|by left|by right; apply Hex]. right; left. by rewrite E2.
  - destruct Hown as [?|?]; [|done|by left|by right; apply Hex]. right; left. by rewrite E2.
Qed.

Lemma step_slid :
  slid w' = slid w ∨
  slid w' = begin_sn_ w :: slid w ∧ begin_sn_ w' = begin_sn_ w ∧
  ∃ u, at_ th = S_cond u (begin_sn_ w) ∧ at_ th' = S_next_lock u (begin_sn_ w).
Proof.
  pose proof (inv_pc s HI t th Ht) as Hpc. subst w sz.
  step_cases H; try (by left). right. destruct Hpc as [-> _]. eauto.
Qed.

Lemma step_called g :
  called g (at_ th) → called g (at_ th') ∨ begin_sn_ w' = begin_sn_ w + 1.
Proof.
  pose proof (inv_pc s HI t th Ht) as Hpc. subst w sz. step_cases H; try done; intros ->; try (by left); right; lia.
Qed.

Lemma slid_before g : (∃ u, at_ th = S_cond u (begin_sn_ w)) → g ∈ slid w → g < begin_sn_ w.
Proof.
  intros [u E] Hg. destruct (inv_called s HI g Hg) as [?|(Eg & v & thv & Hv & Hc)]; [done|].
  assert (v = t) as ->.
  { apply (owns_excl s v t thv th (idx sz (begin_sn_ w)) HI Hv Ht); rewrite ?E; simpl; [|set_solver].
    destruct (at_ thv); try done; simpl in *; subst; set_solver. }
  rewrite Ht in Hv. injection Hv as <-. by rewrite E in Hc.
Qed.

Lemma step_inv_slid : StronglySorted Z.gt (slid w').
Proof.
  destruct step_slid as [->|(-> & _ & u & E & _)]; [apply (inv_slid s HI)|]. constructor; [apply (inv_slid s HI)|].
  apply Forall_forall. intros g Hg. apply slid_before in Hg; [lia|eauto].
Qed.

Lemma step_inv_called g :
  g ∈ slid w' → g < begin_sn_ w' ∨ g = begin_sn_ w' ∧ ∃ v thv, threads s' !! v = Some thv ∧ called g (at_ thv).
Proof.
  intros Hg. pose proof begin_mono as Hm. pose proof step_called as Hcl.
  destruct step_slid as [E|(E & Eb & u & _ & E')]; rewrite E in Hg.
  - destruct (inv_called s HI g Hg) as [?|(Eg & v & thv & Hv & Hc)]; [left; subst w sz; lia|].
    destruct step_begin as [Eb|(Eb & _)]; [|left; subst w sz; lia]. destruct (decide (v = t)) as [->|Hne].
    + rewrite Ht in Hv. injection Hv as <-. apply Hcl in Hc as [Hc|]; [|left; subst w sz; lia].
      right. split; [subst w sz; lia|]. exists t, th'. split; [apply lookup_new; by left|done].
    + right. split; [subst w sz; lia|]. exists v, thv. split; [apply lookup_new; by right|done].
  - apply elem_of_cons in Hg as [->|Hg].
    + right. split; [done|]. exists t, th'. split; [apply lookup_new; by left|]. by rewrite E'.
    + destruct (inv_called s HI g Hg) as [?|(Eg & v & thv & Hv & Hc)]; [left; subst w sz; lia|].
      destruct (decide (v = t)) as [->|Hne].
      * rewrite Ht in Hv. injection Hv as <-. apply Hcl in Hc as [Hc|]; [|left; subst w sz; lia].
        right. split; [subst w sz; lia|]. exists t, th'. split; [apply lookup_new; by left|done].
      * right. split; [subst w sz; lia|]. exists v, thv. split; [apply lookup_new; by right|done].
Qed.

Lemma step_inv : on_time (Step t x) s = true → Inv s'.
Proof.
  intros Hot. pose proof (tstep_frame _ _ _ _ _ _ H) as (Ei & Es & El).
  assert (size_ (win s') = sz) as Es' by apply step_size.
  split; rewrite ?Es'.
  - simpl. rewrite Ei. apply HI.
  - apply HI.
  - simpl. rewrite El. apply HI.
  - apply step_range.
  - apply step_inv_ref.
  - intros. by apply step_inv_lock.
  - apply step_inv_readers.
  - apply step_inv_writer.
  - apply step_inv_excl.
  - apply step_inv_conf.
  - intros v thv Hv. apply lookup_new in Hv as [[-> ->]|[Hne Hv]]; [by apply pc_own|by apply (pc_stable v)].
  - apply step_inv_resp.
  - apply step_inv_slid.
  - apply step_inv_called.
Qed.
End step.

(** ** The other events *)
Lemma pc_ok_ext s s' p :
  begin_sn_ (win s') = begin_sn_ (win s) → end_sn_ (win s') = end_sn_ (win s) → size_ (win s') = size_ (win s) →
  slid (win s') = slid (win s) → (∀ g, unheld s g → unheld s' g) → pc_ok s p → pc_ok s' p.
Proof. intros Eb Ee Es Ed Hu. unfold pc_ok. rewrite Eb, Ee, Es, Ed. destruct p; naive_solver. Qed.

(** A step of one thread that leaves the window alone and starts or ends nothing. *)
Section quiet.
Context (s : @System T) (HI : Inv s) (t : nat) (th th' : Thread) (Ht : threads s !! t = Some th).
Context (Hcnt : ∀ sz i, cnt sz i (refs th') = cnt sz i (refs th)) (Hconf : ∀ g, g ∈ conf th' → g ∈ conf th).
Context (Hidle : at_ th = Idle).
Context (Hown : ∀ sz, owns sz (at_ th') = []) (Hrd : reads (at_ th') = false) (Hwr : writes (at_ th') = false).
Context (Hpc : ∀ s', pc_ok s' (at_ th')).
Let s' := mkSys (win s) (<[t := th']> (threads s)).

Lemma quiet_lookup v thv :
  threads s' !! v = Some thv ↔ v = t ∧ thv = th' ∨ v ≠ t ∧ threads s !! v = Some thv.
Proof. simpl. rewrite list_lookup_insert_Some. pose proof (lookup_lt_Some _ _ _ Ht). naive_solver. Qed.

Lemma quiet_ex (P : Thread → Prop) v :
  (P th' ↔ P th) → (∃ thv, threads s' !! v = Some thv ∧ P thv) ↔ ∃ thv, threads s !! v = Some thv ∧ P thv.
Proof. intros HP. setoid_rewrite quiet_lookup. destruct (decide (v = t)) as [->|]; rewrite ?Ht; naive_solver. Qed.

Lemma quiet_refs i : refs_at (size_ (win s)) i (threads s') = refs_at (size_ (win s)) i (threads s).
Proof. simpl. rewrite (refs_at_update _ _ _ _ _ _ Ht), Hcnt. lia. Qed.

Lemma quiet_keeps (P : Thread → Prop) :
  ¬ P th → (∃ v thv, threads s !! v = Some thv ∧ P thv) → ∃ v thv, threads s' !! v = Some thv ∧ P thv.
Proof.
  intros Hn (v & thv & Hv & HP). exists v, thv. split; [|done]. apply quiet_lookup. right. split; [|done].
  intros ->. rewrite Ht in Hv. by simplify_eq.
Qed.

Lemma quiet_inv : Inv s'.
Proof.
  assert (∀ g, unheld s g → unheld s' g) as Hu.
  { intros g Hg v thv Hv Hin. apply quiet_lookup in Hv as [[-> ->]|[_ Hv]]; [|by apply (Hg v thv)].
    apply (Hg t th Ht). by apply Hconf. }
  split; try apply HI; change (win s') with (win s).
  - intros i sl Hi. rewrite quiet_refs. by apply HI.
  - intros i sl v Hi. rewrite (inv_lock s HI _ _ v Hi). symmetry.
    apply (quiet_ex (λ th, Z.of_nat i ∈ owns _ (at_ th))). by rewrite Hown, Hidle.
  - intros v. rewrite (inv_readers s HI v). symmetry. apply (quiet_ex (λ th, reads (at_ th) = true)). by rewrite Hrd, Hidle.
  - intros v. rewrite (inv_writer s HI v). symmetry. apply (quiet_ex (λ th, writes (at_ th) = true)). by rewrite Hwr, Hidle.
  - intros v thv g Hv Hg. apply quiet_lookup in Hv as [[-> ->]|[_ Hv]]; [|by apply (inv_conf s HI v thv)].
    apply (inv_conf s HI t th g Ht). by apply Hconf.
  - intros v thv Hv. apply quiet_lookup in Hv as [[-> ->]|[_ Hv]]; [apply Hpc|].
    apply (pc_ok_ext s); [done|done|done|done|exact Hu|]. by apply (inv_pc s HI v).
  - intros Hpend. rewrite quiet_refs. destruct (inv_resp s HI Hpend) as [?|Hr]; [by left|right].
    apply (quiet_keeps (λ th, responsible (win s) (at_ th))); [rewrite Hidle; intros []|done].
  - intros g Hg. destruct (inv_called s HI g Hg) as [?|[? Hr]]; [by left|right]. split; [done|].
    apply (quiet_keeps (λ th, called g (at_ th))); [rewrite Hidle; intros []|done].
Qed.
End quiet.

Lemma call_inv s t o s' : Inv s → exec (Call t o) s = Some s' → Inv s'.
Proof.
  intros HI. simpl. destruct (threads s !! t) as [[p hl rs]|] eqn:Ht; [|done].
  destruct (call o _) as [th'|] eqn:Hc; [|done]. intros [= <-]. unfold call in Hc. simpl in Hc.
  destruct p; try done. destruct o; simplify_eq; try (by eapply (quiet_inv s HI t _ _ Ht)).
  destruct (drop_one r_id hl) as [hl'|] eqn:Eg; [|done]. simplify_eq.
  apply (quiet_inv s HI t _ _ Ht); try done.
  - intros sz i. unfold refs. simpl. symmetry. by apply drop_one_cnt.
  - intros g. unfold conf. simpl. by apply drop_one_in.
Qed.

(** The window with other data in its slots. *)
Definition same_but_data w w' : Prop :=
  is_inited_ w' = is_inited_ w ∧ begin_sn_ w' = begin_sn_ w ∧ end_sn_ w' = end_sn_ w ∧ size_ w' = size_ w ∧
  writer w' = writer w ∧ readers w' = readers w ∧ slid w' = slid w ∧
  length (array_ w') = length (array_ w) ∧
  ∀ i sl', array_ w' !! i = Some sl' → ∃ sl, array_ w !! i = Some sl ∧ ref_ sl' = ref_ sl ∧ slot_lock_ sl' = slot_lock_ sl.

Lemma same_data_refl w : same_but_data w w.
Proof. unfold same_but_data. naive_solver. Qed.

Lemma same_data_trans w1 w2 w3 : same_but_data w1 w2 → same_but_data w2 w3 → same_but_data w1 w3.
Proof.
  intros (?&?&?&?&?&?&?&?&Hs1) (?&?&?&?&?&?&?&?&Hs2). unfold same_but_data. split_and!; try congruence.
  intros i sl' Hi. destruct (Hs2 i sl' Hi) as (sl & Hi2 & ? & ?). destruct (Hs1 i sl Hi2) as (sl0 & ? & ? & ?).
  exists sl0. split_and!; congruence.
Qed.

Lemma same_on_slot w i f :
  (∀ sl, ref_ (f sl) = ref_ sl) → (∀ sl, slot_lock_ (f sl) = slot_lock_ sl) → same_but_data w (on_slot i f w).
Proof.
  intros Hr Hl. unfold same_but_data. simpl. rewrite length_alter. split_and!; try done.
  intros j sl' Hj. apply alter_lookup in Hj as (sl & Hj & ->). exists sl. case_decide; auto.
Qed.

Lemma same_inv s w' : Inv s → same_but_data (win s) w' → Inv (mkSys w' (threads s)).
Proof.
  intros HI (Ei & Eb & Ee & Es & Ew & Er & Ed & El & Hs).
  split; simpl; rewrite ?Ei, ?Eb, ?Ee, ?Es, ?Ew, ?Er, ?Ed, ?El; try apply HI.
  - intros i sl Hi. destruct (Hs i sl Hi) as (sl0 & Hi0 & -> & _). by apply HI.
  - intros i sl t Hi. destruct (Hs i sl Hi) as (sl0 & Hi0 & _ & ->). by apply HI.
  - intros t th Ht. apply (pc_ok_ext s); auto. by apply (inv_pc s HI t).
  - intros Hpend. destruct (inv_resp s HI Hpend) as [?|(t & th & Ht & Hr)]; [by left|right].
    exists t, th. split; [done|]. unfold responsible in *. by rewrite Ee, Es.
Qed.

Lemma write_inv s t g d s' : Inv s → exec (Write t g d) s = Some s' → Inv s'.
Proof.
  intros HI. simpl. destruct (threads s !! t) as [th|]; [|done]. case_decide; [|done]. intros [= <-].
  apply same_inv; [done|]. by apply same_on_slot.
Qed.

Lemma range_truncate_alone_same n i w w' :
  range_truncate_alone n i w = Some w' →
  same_but_data w w' ∧
  ∀ j, i <= j < i + Z.of_nat n → ∃ sl, slot_at (calc_idx_ j w) w = Some sl ∧ ref_ sl = 0.
Proof.
  revert i w. induction n as [|n IH]; simpl; intros i w Hw; [simplify_eq; split; [apply same_data_refl|lia]|].
  destruct (slot_at (calc_idx_ i w) w) as [sl|] eqn:Es; [|done]. destruct (ref_ sl =? 0) eqn:Er; [|done].
  assert (same_but_data w (on_slot (calc_idx_ i w) reset_slot w)) as Hs by (by apply same_on_slot).
  apply IH in Hw as [Hs2 Hz]. split; [by eapply same_data_trans|]. intros j Hj.
  destruct (decide (j = i)) as [->|Hne]; [exists sl; split; [done|lia]|].
  destruct (Hz j) as (sl' & Hsl' & Hr'); [lia|]. unfold slot_at in Hsl'. destruct Hs as (_&_&_&_&_&_&_&_&Hs).
  destruct (Hs _ _ Hsl') as (sl0 & ? & E & _). exists sl0. split; [done|congruence].
Qed.

Lemma all_idle (ts : list Thread) t th : forallb idle ts = true → ts !! t = Some th → at_ th = Idle.
Proof.
  intros Hid Ht. rewrite forallb_forall in Hid. specialize (Hid th). unfold idle in Hid.
  destruct (at_ th); try done; discriminate Hid; apply list_elem_of_In; by eapply list_elem_of_lookup_2.
Qed.

(** Moving a window that lies idle and is not used up. *)
Lemma move_inv s i n w' :
  Inv s → forallb idle (threads s) = true → end_sn_ (win s) = begin_sn_ (win s) + size_ (win s) →
  begin_sn_ (win s) <= i → Z.of_nat n = Z.min i (end_sn_ (win s)) - begin_sn_ (win s) →
  range_truncate_alone n (begin_sn_ (win s)) (win s) = Some w' →
  Inv (mkSys (set_end (i + size_ w') (set_begin i w')) (threads s)).
Proof.
  intros HI Hid Hfull Hi Hn Hw. apply range_truncate_alone_same in Hw as [Hs Hz].
  assert (∀ t th, threads s !! t = Some th → at_ th = Idle) as Hidle.
  { intros t th. by apply all_idle. }
  assert (Inv (mkSys w' (threads s))) as HI' by (by apply same_inv).
  pose proof Hs as (Ei & Eb & Ee & Es & Ew & Er & Ed & El & _). pose proof (pow2_ge _ (inv_size s HI)).
  assert (∀ t th g, threads s !! t = Some th → g ∈ conf th → i <= g < end_sn_ (win s)) as Hconf.
  { intros t th g Ht Hg. pose proof (inv_conf s HI t th g Ht Hg).
    destruct (decide (g < Z.min i (end_sn_ (win s)))); [|lia]. exfalso.
    destruct (Hz g) as (sl & Hsl & Hr); [lia|]. by apply (zero_unheld s g sl HI Hsl Hr t th Ht). }
  split; simpl; try apply HI'; rewrite ?Es.
  - lia.
  - intros t th g Ht Hg. pose proof (Hconf t th g Ht Hg). lia.
  - intros t th Ht. by rewrite (Hidle t th Ht).
  - lia.
  - intros g Hg. simpl in Hg. rewrite Ed in Hg. left.
    destruct (inv_called s HI g Hg) as [?|(_ & t & th & Ht & Hc)]; [lia|]. by rewrite (Hidle t th Ht) in Hc.
Qed.

Lemma forward_inv s i s' : Inv s → on_time (Forward i) s = true → exec (Forward i) s = Some s' → Inv s'.
Proof.
  intros HI Hot. simpl. destruct (forallb idle (threads s)) eqn:Hid; [|done].
  destruct (truncate_and_reset_begin_sn i (win s)) as [[rc w']|] eqn:Ht; [|done]. intros [= <-].
  assert (Inv (mkSys (win s) (threads s))) as HI0 by (by destruct s).
  unfold truncate_and_reset_begin_sn, range_truncate_ in Ht. rewrite (inv_init s HI) in Ht. simpl in Ht, Hot.
  destruct (i <? begin_sn_ (win s)) eqn:Eb; [by simplify_eq|].
  destruct (_ =? _) eqn:Ex; simpl in Ht; [|by simplify_eq]. bool_to_prop. fold_idx.
  pose proof (inv_range s HI). pose proof (pow2_ge _ (inv_size s HI)).
  assert (end_sn_ (win s) = begin_sn_ (win s) + size_ (win s)) by (apply idx_lap; [apply HI|done|lia]).
  unfold check_id_in_range_ in Ht. destruct (i <? begin_sn_ (win s)) eqn:?; [lia|].
  destruct (end_sn_ (win s) <=? i) eqn:Ee; simpl in Ht;
    destruct (range_truncate_alone _ _ _) as [w1|] eqn:Hw; try done; simpl in Ht; simplify_eq; bool_to_prop;
    eapply move_inv; try done; lia.
Qed.

Lemma window_exec_inv s e s' : Inv s → on_time e s = true → exec e s = Some s' → Inv s'.
Proof.
  intros HI Hot He. destruct e as [t o|t x|t g d|i].
  - by eapply call_inv.
  - simpl in He. destruct (threads s !! t) as [th|] eqn:Ht; [|done].
    destruct (tstep x t (win s) th) as [[w' th']|] eqn:Hs; [|done]. simplify_eq. by eapply step_inv.
  - by eapply write_inv.
  - by eapply forward_inv.
Qed.

Lemma land_pred_pow2 n : 1 < n → Z.land n (n - 1) = 0 → pow2 n.
Proof.
  intros Hn Hl. exists (Z.log2 n). pose proof (Z.log2_spec n ltac:(lia)) as [H1 H2].
  assert (1 <= Z.log2 n) by (apply Z.log2_le_pow2; lia). split; [done|].
  destruct (decide (n = 2 ^ Z.log2 n)) as [?|Hne]; [done|]. exfalso.
  assert (Z.log2 (n - 1) = Z.log2 n) as E by (apply Z.log2_unique; lia).
  assert (Z.testbit (Z.land n (n - 1)) (Z.log2 n) = true) as Hb.
  { rewrite Z.land_spec, Z.bit_log2 by lia. rewrite <- E at 1. by rewrite Z.bit_log2 by lia. }
  by rewrite Hl, Z.bits_0 in Hb.
Qed.

Lemma refs_at_idle sz i n : refs_at sz i (replicate n (mkThread Idle [] OB_SUCCESS)) = 0.
Proof. induction n as [|n IH]; simpl; [done|]. rewrite IH. reflexivity. Qed.

Lemma window_start_inv start_id size n : start_ok start_id size = true → Inv (start start_id size n : @System T).
Proof.
  unfold start_ok, start, init. simpl. destruct (_ || _) eqn:E; [done|]. intros _. simpl.
  destruct (negb (Z.land size (size - 1) =? 0)) eqn:El; [by rewrite orb_true_r in E|]. bool_to_prop.
  assert (∀ t th, replicate n (mkThread Idle [] OB_SUCCESS) !! t = Some th → th = mkThread Idle [] OB_SUCCESS) as Hr.
  { intros t th Ht. by apply lookup_replicate in Ht as [-> _]. }
  split; simpl.
  - done.
  - apply land_pred_pow2; [lia|done].
  - rewrite length_replicate. lia.
  - lia.
  - intros i sl Hi. apply lookup_replicate in Hi as [-> _]. by rewrite refs_at_idle.
  - intros i sl t Hi. apply lookup_replicate in Hi as [-> _]. simpl. split; [done|].
    intros (th & Ht & Ho). apply Hr in Ht as ->. simpl in Ho. set_solver.
  - intros t. split; [set_solver|]. intros (th & Ht & Ho). by apply Hr in Ht as ->.
  - intros t. split; [done|]. intros (th & Ht & Ho). by apply Hr in Ht as ->.
  - done.
  - intros t th g Ht Hg. apply Hr in Ht as ->. simpl in Hg. set_solver.
  - intros t th Ht. by apply Hr in Ht as ->.
  - lia.
  - constructor.
  - intros g Hg. set_solver.
Qed.

Lemma window_reachable_inv start_id size n (s : @System T) : reachable start_id size n s → Inv s.
Proof. induction 1 as [Hs|s e s' _ IH Hot He]; [by apply window_start_inv|by eapply window_exec_inv]. Qed.
End inv.
End WindowInv.
