(* ===== verification/WindowSafety.v ===== *)
(** What [FixedSlidingWindow] promises to the threads that use it, in every
    interleaving in which no thread is overtaken by a whole window and the window is not
    moved when it is used up ([on_time]), and what happens in others. *)
From Stdlib Require Import Sorted.
From S2P Require Import Prelude Lsn FixedSlidingWindow FixedSlidingWindowInv.
Import FixedSlidingWindow WindowInv.

Module WindowSafety.
Section safety.
Context {T : Type} {ops : SlotOps T}.
Implicit Types (s : @System T) (w : @Window T).

Definition data_at (g : Z) w : option T := data <$> slot_at (calc_idx_ g w) w.

(** ** The data of held slots *)

(** The slots a thread is about to reset or to hand out. *)
Definition resets (sz : Z) (p : pc) : list Z :=
  match p with
  | R_reset _ i _ _ | R_cas _ i _ _ => [i]
  | S_reset _ b _ _ | S_cas_end _ b _ _ => [idx sz b]
  | T_reset i _ => [idx sz i]
  | _ => []
  end.



Lemma resets_unheld s t th g :
  Inv s → threads s !! t = Some th → (∃ u thu, threads s !! u = Some thu ∧ g ∈ conf thu) →
  idx (size_ (win s)) g ∉ resets (size_ (win s)) (at_ th).
Proof.
  intros HI Ht (u & thu & Hu & Hg) Hin. pose proof (inv_pc s HI t th Ht) as Hpc.
  pose proof (inv_conf s HI u thu g Hu Hg) as Hc. pose proof (inv_size s HI) as Hp. pose proof (inv_range s HI).
  pose proof (pow2_ge _ Hp).
  assert (∀ h, unheld s h → idx (size_ (win s)) g = idx (size_ (win s)) h → end_sn_ (win s) - size_ (win s) <= h < end_sn_ (win s) → False) as Hno.
  { intros h Hh E ?. apply (Hh u thu Hu). by replace h with g by (apply (idx_inj (size_ (win s))); [done|done|lia]). }
  destruct (at_ th); simpl in *; rewrite ?elem_of_cons, ?elem_of_nil in Hin; destruct_or?; try done; destruct_and?;
    subst; (eapply Hno; [eassumption| |lia]); try done;
    (etrans; [eassumption|]); rewrite <- (idx_add _ (end_sn_ (win s) - size_ (win s))) by done; f_equal; lia.
Qed.

Lemma resets_nonneg s t th j :
  Inv s → threads s !! t = Some th → j ∈ resets (size_ (win s)) (at_ th) → 0 <= j.
Proof.
  intros HI Ht Hj. pose proof (inv_pc s HI t th Ht) as Hpc. pose proof (λ g, idx_range _ g (inv_size s HI)) as Hx.
  destruct (at_ th); simpl in *; rewrite ?elem_of_cons, ?elem_of_nil in Hj; destruct_or?; try done; destruct_and?;
    subst; apply Hx.
Qed.


Lemma held_conf th g : g ∈ held th → g ∈ conf th.
Proof. intros. apply elem_of_app. by right. Qed.


(** Slots are there, and count the references of every thread. *)
Lemma slot_there s i : Inv s → 0 <= i < size_ (win s) → ∃ sl, slot_at i (win s) = Some sl.
Proof.
  intros HI Hi. pose proof (inv_len s HI).
  destruct (lookup_lt_is_Some_2 (array_ (win s)) (Z.to_nat i)) as [sl Hsl]; [lia|]. by exists sl.
Qed.

Lemma slot_counts s t th g :
  Inv s → threads s !! t = Some th → g ∈ refs th →
  ∃ sl, slot_at (idx (size_ (win s)) g) (win s) = Some sl ∧ 0 < ref_ sl.
Proof.
  intros HI Ht Hg. pose proof (idx_range _ g (inv_size s HI)).
  destruct (slot_there s (idx (size_ (win s)) g) HI) as [sl Hsl]; [done|]. exists sl. split; [done|].
  rewrite (inv_ref s HI _ _ Hsl), Z2Nat.id by lia.
  pose proof (refs_at_le (size_ (win s)) (idx (size_ (win s)) g) _ _ _ Ht).
  pose proof (cnt_in (size_ (win s)) _ _ _ Hg eq_refl). lia.
Qed.

(** A run whose events are all on time ends in a reachable state. *)
Lemma run_reachable start_id size n es s s' :
  reachable start_id size n s → run_events es s = Some s' → all_on_time es s = true → reachable start_id size n s'.
Proof.
  revert s. induction es as [|e es IH]; simpl; intros s Hs Hr Hot; [by simplify_eq|].
  destruct (exec e s) as [s1|] eqn:He; [|done]. apply andb_prop in Hot as [H1 H2].
  apply (IH s1); [|done|done]. by eapply reach_step.
Qed.

Lemma started_run_inv start_id size n es s :
  start_ok start_id size = true → run_events es (start start_id size n) = Some s →
  all_on_time es (start start_id size n) = true → Inv s.
Proof. intros. eapply window_reachable_inv, run_reachable; [by apply reach_start|done|done]. Qed.


(** ** New slots *)
Definition fresh (i : Z) w : Prop := ∀ sl, slot_at i w = Some sl → ∃ d, data sl = slot_reset d.

(** Steps keep data or reset it. *)
Lemma tstep_fresh x t w th w' th' i :
  tstep x t w th = Some (w', th') → fresh i w → fresh i w'.
Proof.
  intros H Hf sl' Hs. unfold slot_at, fresh in *.
  step_cases H; try (by apply Hf); apply alter_lookup in Hs as (sl & Hs & ->); case_decide; simpl; eauto.
Qed.

Definition hands_out (sz : Z) (p : pc) : list Z :=
  match p with R_cas _ i _ _ => [i] | S_cas_end _ b _ _ => [idx sz b] | _ => [] end.

Lemma tstep_hands_out x t w th w' th' i :
  tstep x t w th = Some (w', th') → pow2 (size_ w) → (∀ j, j ∈ resets (size_ w) (at_ th) → 0 <= j) →
  i ∈ hands_out (size_ w) (at_ th') → fresh i w'.
Proof.
  intros H Hp Hj Hi sl' Hs. unfold slot_at in Hs.
  step_cases H; try (by apply elem_of_nil in Hi); apply elem_of_cons in Hi as [->|Hi]; try (by apply elem_of_nil in Hi);
    apply alter_lookup in Hs as (sl & Hs & ->); rewrite decide_True by done; simpl; eauto.
Qed.

Definition Fresh s : Prop :=
  ∀ t th i, threads s !! t = Some th → i ∈ hands_out (size_ (win s)) (at_ th) → fresh i (win s).

Lemma hands_out_resets sz p i : i ∈ hands_out sz p → i ∈ resets sz p.
Proof. destruct p; simpl; auto; intros Hi; by apply elem_of_nil in Hi. Qed.

Lemma exec_fresh s e s' : Inv s → Fresh s → exec e s = Some s' → Fresh s'.
Proof.
  intros HI HF He. destruct e as [u o|u x|u g d|i]; simpl in He; [..|case_match eqn:Hid; [|done]];
    try (destruct (threads s !! u) as [thu|] eqn:Hu; [|done]).
  - destruct (call o thu) as [th'|] eqn:Hc; [|done]. simplify_eq. intros t th i Ht Hi. simpl in Ht, Hi. simpl.
    apply list_lookup_insert_Some in Ht as [(_ & <- & _)|[_ Ht]]; [|by apply (HF t th)].
    unfold call in Hc. destruct (at_ thu), o; repeat case_match; simplify_eq; by apply elem_of_nil in Hi.
  - destruct (tstep x u (win s) thu) as [[w' th']|] eqn:Hs; [|done]. simplify_eq. intros t th i Ht Hi. simpl in *.
    destruct (tstep_frame _ _ _ _ _ _ Hs) as (_ & Es & _). rewrite Es in Hi.
    apply list_lookup_insert_Some in Ht as [(_ & <- & _)|[_ Ht]].
    + eapply tstep_hands_out; [exact Hs|apply HI| |done]. intros j. by apply (resets_nonneg s u).
    + eapply tstep_fresh; [exact Hs|]. by apply (HF t th).
  - case_decide as Hg; [|done]. simplify_eq. intros t th i Ht Hi sl' Hsl. simpl in *.
    unfold slot_at in Hsl. apply alter_lookup in Hsl as (sl & Hsl & ->). case_decide as E; [|by apply (HF t th i Ht Hi)].
    fold_idx. exfalso. apply hands_out_resets in Hi.
    pose proof (resets_nonneg s t th i HI Ht Hi). pose proof (idx_range _ g (inv_size s HI)).
    apply (resets_unheld s t th g HI Ht); [exists u, thu; split; [done|by apply held_conf]|].
    by replace (idx (size_ (win s)) g) with i by lia.
  - destruct (truncate_and_reset_begin_sn i (win s)) as [[rc w']|]; [|done]. simplify_eq. intros t th j Ht Hj.
    simpl in *. rewrite (all_idle _ _ _ Hid Ht) in Hj. by apply elem_of_nil in Hj.
Qed.

Lemma reachable_fresh start_id size n s : reachable start_id size n s → Fresh s.
Proof.
  induction 1 as [Hs|s e s' Hr IH Hot He].
  - intros t th i Ht Hi. simpl in Ht. apply lookup_replicate in Ht as [-> _]. by apply elem_of_nil in Hi.
  - eapply exec_fresh; [by eapply window_reachable_inv|done|done].
Qed.

(** The window grows by one id at a time, and only by a slot that lies behind its
    beginning, that nobody holds, and that has been reset, unless it is moved as a
    whole. *)
Theorem window_grows_by_fresh_slots start_id size n s e s' :
  reachable start_id size n s → (∀ i, e ≠ Forward i) → exec e s = Some s' → end_sn_ (win s') ≠ end_sn_ (win s) →
  end_sn_ (win s') = end_sn_ (win s) + 1 ∧ end_sn_ (win s) - size_ (win s) < begin_sn_ (win s) ∧
  (∀ t th, threads s !! t = Some th → end_sn_ (win s) - size_ (win s) ∉ held th) ∧
  ∃ d, data_at (end_sn_ (win s)) (win s') = Some (slot_reset d).
Proof.
  intros Hr Hf He Hne. pose proof (window_reachable_inv _ _ _ _ Hr) as HI. pose proof (reachable_fresh _ _ _ _ Hr) as HF.
  destruct e as [u o|u x|u g' d|i]; [..|by destruct (Hf i)]; simpl in He;
    (destruct (threads s !! u) as [thu|] eqn:Hu; [|done]); try (by repeat case_match; simplify_eq).
  destruct (tstep x u (win s) thu) as [[w' th']|] eqn:Hs; [|done]. simplify_eq. simpl in Hne |- *.
  destruct (step_end s u thu Hu x w' th' Hs) as [?|(Ee & _ & Hat)]; [done|]. split; [done|].
  pose proof (inv_pc s HI u thu Hu) as Hpc. pose proof (inv_size s HI) as Hp.
  assert (end_sn_ (win s) - size_ (win s) < begin_sn_ (win s) ∧ unheld s (end_sn_ (win s) - size_ (win s)) ∧
          idx (size_ (win s)) (end_sn_ (win s)) ∈ hands_out (size_ (win s)) (at_ thu)) as (Hb & Hun & Hho).
  { destruct Hat as [(k & i & ti & E & _)|(k & b & rc & E)]; rewrite E in *; simpl in *; destruct_and?; subst.
    - split_and!; [done|done|by apply list_elem_of_here].
    - replace (end_sn_ (win s)) with (b + size_ (win s)) by lia. rewrite idx_add, Z.add_simpl_r by done.
      split_and!; [lia|done|by apply list_elem_of_here]. }
  split_and!; [done| |].
  - intros t th Ht Hin. by apply (Hun t th Ht), held_conf.
  - destruct (tstep_frame _ _ _ _ _ _ Hs) as (_ & Es & El). unfold data_at. fold_idx. rewrite Es.
    pose proof (idx_range _ (end_sn_ (win s)) Hp). pose proof (inv_len s HI).
    destruct (lookup_lt_is_Some_2 (array_ w') (Z.to_nat (idx (size_ (win s)) (end_sn_ (win s))))) as [sl Hsl]; [lia|].
    destruct (tstep_fresh _ _ _ _ _ _ _ Hs (HF u thu _ Hu Hho) sl Hsl) as [d Hd]. exists d. unfold slot_at. by rewrite Hsl, <- Hd.
Qed.

(** ** Reclaiming *)
Lemma refs_at_in sz i ts : 0 < refs_at sz i ts → ∃ t th g, ts !! t = Some th ∧ g ∈ refs th ∧ idx sz g = i.
Proof.
  induction ts as [|th ts IH]; simpl; [lia|]. intros Hc. destruct (decide (0 < cnt sz i (refs th))) as [Hp|].
  - unfold cnt in Hp. destruct (filter _ (refs th)) as [|g l] eqn:E; [simpl in Hp; lia|].
    exists 0%nat, th, g. assert (g ∈ filter (λ g, idx sz g = i) (refs th)) as Hin by (rewrite E; apply list_elem_of_here).
    apply list_elem_of_filter in Hin as [? ?]. done.
  - destruct IH as (t & th' & g & ? & ? & ?); [lia|]. exists (S t), th', g. done.
Qed.

(** C34. Whenever no operation is running, the window has its full size or the slot
    its end waits for is still held: no slot whose references have been given back is
    forgotten, whichever of [slide] and the [revert]s came first; this too in every run
    from a new window whose events are all on time ([on_time]). *)
Theorem window_slots_return start_id size n es s :
  start_ok start_id size = true → run_events es (start start_id size n) = Some s →
  all_on_time es (start start_id size n) = true → forallb idle (threads s) = true →
  end_sn_ (win s) = begin_sn_ (win s) + size_ (win s) ∨
  ∃ t th, threads s !! t = Some th ∧ end_sn_ (win s) - size_ (win s) ∈ held th.
Proof.
  intros Hok Hrun Hot Hid. pose proof (started_run_inv _ _ _ _ _ Hok Hrun Hot) as HI. pose proof (inv_range s HI).
  pose proof (inv_size s HI) as Hp. pose proof (pow2_ge _ Hp).
  destruct (decide (end_sn_ (win s) = begin_sn_ (win s) + size_ (win s))); [by left|right].
  destruct (inv_resp s HI) as [Hc|(t & th & Ht & Hr)]; [lia| |by rewrite (all_idle _ _ _ Hid Ht) in Hr].
  apply refs_at_in in Hc as (t & th & g & Ht & Hg & E). exists t, th. split; [done|].
  unfold refs in Hg. rewrite (all_idle _ _ _ Hid Ht) in Hg. simpl in Hg.
  pose proof (inv_conf s HI t th g Ht (held_conf _ _ Hg)).
  assert (g + size_ (win s) = end_sn_ (win s)) by (apply (idx_inj (size_ (win s))); [done|by rewrite idx_add|lia]).
  by replace (end_sn_ (win s) - size_ (win s)) with g by lia.
Qed.

(** The tests the code keeps against its own errors never fail: a reference that
    is given back lies in the window's range and is counted, and every
    compare-and-swap of [begin_sn_] and [end_sn_] finds the value read before. *)
Theorem window_defensive_branches start_id size n s t th :
  reachable start_id size n s → threads s !! t = Some th →
  match at_ th with
  | G_end2 g => g < end_sn_ (win s)
  | R_begin r => begin_sn_ (win s) - size_ (win s) <= r
  | R_end _ r => r < end_sn_ (win s)
  | R_sub _ r => ∃ sl, slot_at (calc_idx_ r (win s)) (win s) = Some sl ∧ 0 < ref_ sl
  | R_cas _ _ tmp_end _ => end_sn_ (win s) = tmp_end
  | S_cas _ curr_begin => begin_sn_ (win s) = curr_begin
  | S_cas_end _ _ curr_end _ => end_sn_ (win s) = curr_end
  | _ => True
  end.
Proof.
  intros Hreach Ht. pose proof (window_reachable_inv _ _ _ _ Hreach) as HI. pose proof (inv_pc s HI t th Ht) as Hpc.
  pose proof (inv_range s HI). pose proof (inv_conf s HI t th) as Hc. pose proof (slot_counts s t th) as Hs.
  unfold conf, refs in *. destruct (at_ th); simpl in *; try done; destruct_and?; try done.
  - pose proof (Hc r_id Ht (list_elem_of_here _ _)). lia.
  - apply (Hs r_id HI Ht), list_elem_of_here.
Qed.

(** The callback succeeds for the ids in increasing order and at most once for
    each, and an id leaves the window only after its callback has succeeded, unless
    the window is moved as a whole. *)
Theorem slide_callbacks_ordered start_id size n s :
  reachable start_id size n s →
  StronglySorted Z.gt (slid (win s)) ∧ (∀ g, g ∈ slid (win s) → g <= begin_sn_ (win s)) ∧
  ∀ e s', (∀ i, e ≠ Forward i) → exec e s = Some s' → begin_sn_ (win s') ≠ begin_sn_ (win s) →
    begin_sn_ (win s') = begin_sn_ (win s) + 1 ∧ begin_sn_ (win s) ∈ slid (win s).
Proof.
  intros Hreach. pose proof (window_reachable_inv _ _ _ _ Hreach) as HI. split_and!; [apply HI| |].
  - intros g Hg. destruct (inv_called s HI g Hg) as [?|[-> _]]; lia.
  - intros e s' Hf He Hb. destruct e as [u o|u x|u g' d|i]; [..|by destruct (Hf i)]; simpl in He;
      (destruct (threads s !! u) as [thu|] eqn:Hu; [|done]); try (by repeat case_match; simplify_eq).
    destruct (tstep x u (win s) thu) as [[w' th']|] eqn:Hs; [|done]. simplify_eq. simpl in *.
    destruct (step_begin s u thu Hu x w' th' Hs) as [?|(Eb & _ & k & E & _)]; [done|]. split; [done|].
    pose proof (inv_pc s HI u thu Hu) as Hpc. rewrite E in Hpc. apply Hpc.
Qed.

(** ** Operations return *)

(** All threads but [t] are outside of the operations. *)
Definition alone (t : nat) s : Prop := ∀ u thu, u ≠ t → threads s !! u = Some thu → at_ thu = Idle.

Lemma run_app es fs s : run_events (es ++ fs) s = run_events es s ≫= run_events fs.
Proof. revert s. induction es as [|e es IH]; intros s; simpl; [done|]. by destruct (exec e s). Qed.

(** Steps that are left to [revert] once no other thread interferes. *)
Definition left_over w (p : pc) : nat :=
  let rounds ti := Z.to_nat (8 * (begin_sn_ w - ti)) in
  match p with
  | R_begin r => rounds r + 5
  | R_end _ r => rounds r + 4
  | R_sub _ r => rounds r + 3
  | R_tmp_end _ r => rounds r + 2
  | R_loop _ _ _ ti => rounds ti + 1
  | R_slot_lock _ _ _ ti => rounds ti
  | R_end2 _ _ _ ti => rounds ti - 1
  | R_ref _ _ _ ti => rounds ti - 2
  | R_reset _ _ _ ti => rounds ti - 3
  | R_cas _ _ _ ti => rounds ti - 4
  | R_next _ _ _ ti => rounds ti - 5
  | R_break _ _ _ => 1
  | _ => 0
  end%nat.

(** Where [revert] is when nobody else moves the window. *)
Definition in_revert w (p : pc) : Prop :=
  match p with
  | R_begin _ | R_end false _ | R_sub false _ | R_loop false _ _ _ | R_slot_lock false _ _ _ | R_end2 false _ _ _
  | R_ref false _ _ _ | R_reset false _ _ _ | R_cas false _ _ _ | R_break false _ _ => True
  | R_tmp_end false r => end_sn_ w <= r + size_ w
  | R_next false _ _ ti => ti < begin_sn_ w
  | _ => False
  end.

Lemma alone_unlocked s t th i :
  Inv s → alone t s → threads s !! t = Some th → owns (size_ (win s)) (at_ th) = [] → 0 <= i < size_ (win s) →
  ∃ sl, slot_at i (win s) = Some sl ∧ slot_lock_ sl = None.
Proof.
  intros HI Ha Ht Ho Hi. pose proof (inv_len s HI).
  destruct (slot_there s i HI Hi) as [sl Hsl]. exists sl. split; [done|].
  destruct (slot_lock_ sl) as [u|] eqn:E; [|done]. apply (inv_lock s HI _ _ u Hsl) in E as (thu & Hu & Hin).
  destruct (decide (u = t)) as [->|Hne].
  - rewrite Ht in Hu. simplify_eq. rewrite Ho in Hin. set_solver.
  - rewrite (Ha u thu Hne Hu) in Hin. simpl in Hin. set_solver.
Qed.

Lemma revert_progress s t th x :
  Inv s → alone t s → threads s !! t = Some th → in_revert (win s) (at_ th) →
  on_time (Step t x) s = true ∧
  ∃ w' th', tstep x t (win s) th = Some (w', th') ∧ held th' = held th ∧ begin_sn_ w' = begin_sn_ (win s) ∧
    (at_ th' = Idle ∧ result th' = OB_SUCCESS
     ∨ in_revert w' (at_ th') ∧ (left_over w' (at_ th') < left_over (win s) (at_ th))%nat).
Proof.
  intros HI Ha Ht Hin. pose proof (inv_pc s HI t th Ht) as Hpc. pose proof (inv_range s HI) as Hr.
  pose proof (inv_conf s HI t th) as Hc. pose proof (inv_size s HI) as Hp. pose proof (pow2_ge _ Hp) as Hge.
  pose proof (λ g, idx_range _ g Hp) as Hx. pose proof (inv_init s HI) as Hi.
  pose proof (λ i, alone_unlocked s t th i HI Ha Ht) as Hun. pose proof (λ i, slot_there s i HI) as Hsl.
  pose proof (λ g, slot_counts s t th g HI Ht) as Hcnt. specialize (λ g, Hc g Ht).
  simpl on_time. rewrite Ht. unfold tstep, revert_step, revert_done, goto, return_, slot_lock, conf, refs in *. simpl.
  destruct th as [p hl rs]. simpl in *. destruct p; simpl in *; try done; try (destruct k; [done|]); rewrite ?Hi; simpl;
    destruct_and?; fold_idx; try (subst i);
    try pose proof (Hc r_id (list_elem_of_here _ _));
    try (destruct (Hcnt r_id (list_elem_of_here _ _)) as (sl & -> & Hpos));
    try (destruct (Hun (idx (size_ (win s)) tmp_end) eq_refl (Hx _)) as (sl & -> & ->));
    try (destruct (Hsl (idx (size_ (win s)) tmp_end) (Hx _)) as (sl & ->));
    (split; [first [done|lia]|]); clear Hun Hsl Hcnt Hc; unfold goto;
    repeat break_match; bool_to_prop; try (exfalso; lia); do 2 eexists; (split; [reflexivity|]); simpl;
    (split; [reflexivity|]); (split; [reflexivity|]);
    first [left; split; [reflexivity|done] | right; split; [first [exact I|lia]|lia]].
Qed.

Lemma revert_runs m s t th x :
  Inv s → alone t s → threads s !! t = Some th → in_revert (win s) (at_ th) → (left_over (win s) (at_ th) < m)%nat →
  ∃ k s' th', run_events (replicate k (Step t x)) s = Some s' ∧ all_on_time (replicate k (Step t x)) s = true ∧
    threads s' = <[t := th']> (threads s) ∧ at_ th' = Idle ∧ result th' = OB_SUCCESS ∧ held th' = held th ∧
    begin_sn_ (win s') = begin_sn_ (win s).
Proof.
  revert s th. induction m as [|m IH]; intros s th HI Ha Ht Hin Hm; [lia|].
  destruct (revert_progress s t th x HI Ha Ht Hin) as (Hot & w' & th1 & Hs & Hh & Hb & Hd).
  set (s1 := mkSys w' (<[t := th1]> (threads s))).
  assert (exec (Step t x) s = Some s1) as He by (simpl; by rewrite Ht, Hs).
  assert (threads s1 !! t = Some th1) as Ht1 by (apply list_lookup_insert_eq; by eapply lookup_lt_Some).
  destruct Hd as [[Hi Hr]|[Hin1 Hl]].
  - exists 1%nat, s1, th1. cbn [replicate run_events all_on_time]. by rewrite He, Hot.
  - destruct (IH s1 th1) as (k & s' & th' & Hrun & Hall & Ets & ? & ? & Hh' & Hb'); [by eapply window_exec_inv| |done|done|unfold s1; cbn [win]; lia|].
    { intros u thu Hne Hu. simpl in Hu. rewrite list_lookup_insert_ne in Hu by done. by apply (Ha u). }
    exists (S k), s', th'. cbn [replicate run_events all_on_time]. rewrite He, Hot. split_and!; try done.
    + rewrite Ets. simpl. apply list_insert_insert_eq.
    + congruence.
    + simpl in Hb'. congruence.
Qed.

Lemma alone_idle t s : forallb idle (threads s) = true → alone t s.
Proof. intros Hid u thu _. by apply all_idle. Qed.

Lemma drop_one_none r l : drop_one r l = None → r ∉ l.
Proof.
  induction l as [|g l IH]; simpl; [set_solver|]. destruct (r =? g) eqn:E; [done|].
  destruct (drop_one r l); [done|]. bool_to_prop. set_solver.
Qed.

(** [k] steps of one thread that do not pass the point [R_tmp_end]. *)
Fixpoint solo (k : nat) (x : Env) (t : nat) w (th : Thread) : option (@Window T * Thread) :=
  match k with
  | O => Some (w, th)
  | S k =>
      match at_ th, tstep x t w th with
      | R_tmp_end _ _, _ | _, None => None
      | _, Some (w', th') => solo k x t w' th'
      end
  end.

Lemma solo_step k x t w th w1 th1 :
  (match at_ th with R_tmp_end _ _ => true | _ => false end) = false →
  tstep x t w th = Some (w1, th1) → solo (S k) x t w th = solo k x t w1 th1.
Proof. simpl. intros Hp ->. by destruct (at_ th). Qed.

Lemma solo_run k x t s th w' th' :
  threads s !! t = Some th → solo k x t (win s) th = Some (w', th') →
  run_events (replicate k (Step t x)) s = Some (mkSys w' (<[t := th']> (threads s))) ∧
  all_on_time (replicate k (Step t x)) s = true.
Proof.
  revert s th. induction k as [|k IH]; intros s th Ht Hs; simpl in *.
  - simplify_eq. split; [|done]. rewrite list_insert_id by done. by destruct s.
  - rewrite Ht. simpl. destruct (tstep x t (win s) th) as [[w1 th1]|] eqn:E; [|by destruct (at_ th)].
    assert (solo k x t w1 th1 = Some (w', th')) as Hs1 by (by destruct (at_ th)).
    destruct (IH (mkSys w1 (<[t := th1]> (threads s))) th1) as [Hr Hot].
    + simpl. apply list_lookup_insert_eq. by eapply lookup_lt_Some.
    + done.
    + rewrite Hr, Hot. simpl. rewrite list_insert_insert_eq. split; [done|]. rewrite andb_true_r. by destruct (at_ th).
Qed.

Lemma alone_get s t th g x :
  Inv s → forallb idle (threads s) = true → threads s !! t = Some th → lock_rc x = OB_SUCCESS →
  let rc := check_id_in_range_ g (win s) in
  ∃ k s', run_events (Call t (Get g) :: replicate k (Step t x)) s = Some s' ∧
    all_on_time (Call t (Get g) :: replicate k (Step t x)) s = true ∧
    threads s' = <[t := mkThread Idle (if ob_failed rc then held th else g :: held th) rc]> (threads s) ∧
    begin_sn_ (win s') = begin_sn_ (win s) ∧ end_sn_ (win s') = end_sn_ (win s).
Proof.
  intros HI Hid Ht Hx rc. pose proof (all_idle _ _ _ Hid Ht) as Hi. pose proof (lookup_lt_Some _ _ _ Ht) as Hlt.
  assert (writer (win s) = None) as Hw.
  { destruct (writer (win s)) as [u|] eqn:E; [|done]. apply (inv_writer s HI) in E as (thu & Hu & Hw).
    by rewrite (all_idle _ _ _ Hid Hu) in Hw. }
  destruct th as [p hl rs]. simpl in Hi. subst p rc. set (s1 := mkSys (win s) (<[t := mkThread (G_lock g) hl rs]> (threads s))).
  assert (exec (Call t (Get g)) s = Some s1) as He by (simpl; by rewrite Ht).
  assert (∃ k w', solo k x t (win s) (mkThread (G_lock g) hl rs) =
            Some (w', mkThread Idle (if ob_failed (check_id_in_range_ g (win s)) then hl else g :: hl) (check_id_in_range_ g (win s)))
          ∧ begin_sn_ w' = begin_sn_ (win s) ∧ end_sn_ w' = end_sn_ (win s)) as (k & w' & Hs & Hb & Hen).
  { unfold check_id_in_range_. destruct (g <? begin_sn_ (win s)) eqn:E1; [|destruct (end_sn_ (win s) <=? g) eqn:E2].
    1: exists 3%nat. 2: exists 4%nat. 3: exists 7%nat.
    all: eexists; split_and!;
      [ repeat (erewrite solo_step; [|reflexivity|
          unfold tstep, get_step, rd_lock, goto, return_, rd_unlock; simpl; rewrite ?(inv_init s HI), ?Hx, ?Hw; simpl;
          rewrite ?E1, ?E2; reflexivity]); reflexivity | reflexivity | reflexivity]. }
  apply (solo_run k x t s1) in Hs as [Hr Hot]; [|by apply list_lookup_insert_eq].
  exists k. eexists. cbn [run_events all_on_time]. rewrite He. split_and!; [exact Hr|by rewrite Hot| |done|done].
  simpl. by rewrite list_insert_insert_eq.
Qed.

(** [get] and [revert] return when no other operation is running: [get] with the
    slot exactly if the id is in the window, [revert] of a held id with success, the
    reference given back and every slot behind the window that nobody holds
    reclaimed. *)
Theorem window_operations_return start_id size n s t th x :
  reachable start_id size n s → forallb idle (threads s) = true → threads s !! t = Some th →
  lock_rc x = OB_SUCCESS →
  (∀ g, ∃ k s', let es := Call t (Get g) :: replicate k (Step t x) in
    let rc := check_id_in_range_ g (win s) in
    run_events es s = Some s' ∧ all_on_time es s = true ∧
    threads s' = <[t := mkThread Idle (if ob_failed rc then held th else g :: held th) rc]> (threads s) ∧
    begin_sn_ (win s') = begin_sn_ (win s) ∧ end_sn_ (win s') = end_sn_ (win s)) ∧
  (∀ r, r ∈ held th → ∃ k s' rest, let es := Call t (Revert r) :: replicate k (Step t x) in
    run_events es s = Some s' ∧ all_on_time es s = true ∧ drop_one r (held th) = Some rest ∧
    threads s' = <[t := mkThread Idle rest OB_SUCCESS]> (threads s) ∧ begin_sn_ (win s') = begin_sn_ (win s)).
Proof.
  intros Hreach Hid Ht Hx. pose proof (window_reachable_inv _ _ _ _ Hreach) as HI. split.
  - intros g. by apply alone_get.
  - intros r Hr. pose proof (lookup_lt_Some _ _ _ Ht) as Hlt.
    destruct (drop_one r (held th)) as [rest|] eqn:Hg; [|by apply drop_one_none in Hg].
    set (s1 := mkSys (win s) (<[t := mkThread (R_begin r) rest (result th)]> (threads s))).
    assert (exec (Call t (Revert r)) s = Some s1) as He.
    { simpl. rewrite Ht. unfold call. by rewrite (all_idle _ _ _ Hid Ht), Hg. }
    destruct (revert_runs (S (left_over (win s1) (R_begin r))) s1 t (mkThread (R_begin r) rest (result th)) x)
      as (k & s' & [p' h' r'] & Hrun & Hot & Ets & Ep & Er & Eh & Hb);
      [by eapply call_inv| |by apply list_lookup_insert_eq|done|simpl; lia|].
    { intros u thu Hne Hu. simpl in Hu. rewrite list_lookup_insert_ne in Hu by done. by eapply all_idle. }
    exists k, s', rest. cbn [run_events all_on_time]. simpl in Ep, Er, Eh. subst. rewrite He. split_and!; try done.
    simpl in Ets. by rewrite list_insert_insert_eq in Ets.
Qed.
End safety.

(** ** Runs with two slots and two threads *)
(** Slots that hold a number; every log can be slid. *)
Definition number_slot : SlotOps Z := {| slot_new := 0; can_be_slid _ := true; slot_reset _ := 0 |}.
#[local] Existing Instance number_slot.

Definition quick : Env := mkEnv OB_SUCCESS OB_SUCCESS true.
Definition steps (t k : nat) : list (@Event Z) := replicate k (Step t quick).
Definition do_slide (t k : nat) : list (@Event Z) := Call t (Slide true) :: steps t k.
Definition do_get (t : nat) (g : Z) : list (@Event Z) := Call t (Get g) :: steps t 7.
Definition ends_in (es : list (@Event Z)) : @System Z := default (start 0 2 2) (run_events es (start 0 2 2)).

Lemma ends_in_reachable es :
  negb (match run_events es (start 0 2 2) with None => true | _ => false end) && all_on_time es (start 0 2 2) = true →
  reachable 0 2 2 (ends_in es).
Proof.
  intros Hc. apply andb_prop in Hc as [Hr Hot]. unfold ends_in.
  destruct (run_events es (start 0 2 2)) as [s'|] eqn:E; [|done]. simpl.
  eapply run_reachable; [apply reach_start; reflexivity|exact E|exact Hot].
Qed.

(** Thread 0 has passed the first check of [get] for log 0 when thread 1 slides logs 0
    and 1 and fills log 2; then thread 0 takes and gives back a reference. *)
Definition lapped : list (@Event Z) :=
  Call 0%nat (Get 0) :: steps 0 3 ++ do_slide 1 16 ++ do_slide 1 16 ++ do_get 1 2 ++
  [Write 1%nat 2 77; Call 1%nat (Revert 2)] ++ steps 1 5 ++ steps 0 4.

(** Thread 0 holds logs 0 and 1 when both are slid. *)
Definition used_up : list (@Event Z) := do_get 0 0 ++ do_get 0 1 ++ do_slide 1 14 ++ do_slide 1 14.

(** Both conditions of [on_time] are needed.  A thread that is overtaken by a whole
    window between giving back the last reference and reading [end_sn_] resets the slot
    of a log that is still in the window and grows the window past its size; moving a
    window whose slots are all slid but held is accepted, and the references to them
    can no longer be given back. *)
Theorem window_use_conditions_needed :
  (∃ s s', reachable 0 2 2 s ∧ run_events (steps 0 7) s = Some s' ∧
     data_at 2 (win s) = Some 77 ∧ data_at 2 (win s') = Some 0 ∧
     begin_sn_ (win s') <= 2 ∧ begin_sn_ (win s') + size_ (win s') < end_sn_ (win s')) ∧
  (∃ s s', reachable 0 2 2 s ∧
     run_events (Forward 10 :: Call 0%nat (Revert 0) :: steps 0 1) s = Some s' ∧
     (ref_ <$> slot_at 0 (win s')) = Some 1 ∧ result <$> threads s' !! 0%nat = Some OB_ERR_UNEXPECTED).
Proof.
  split.
  - exists (ends_in lapped). eexists. split; [apply ends_in_reachable; by vm_compute|].
    split; [vm_compute; reflexivity|]. by vm_compute.
  - exists (ends_in used_up). eexists. split; [apply ends_in_reachable; by vm_compute|].
    split; [vm_compute; reflexivity|]. by vm_compute.
Qed.


Lemma window_slots_return_witness :
  let s := ends_in (do_get 0 0 ++ do_slide 1 14) in
  end_sn_ (win s) = begin_sn_ (win s) + size_ (win s) ∨
  ∃ t th, threads s !! t = Some th ∧ end_sn_ (win s) - size_ (win s) ∈ held th.
Proof.
  apply (window_slots_return 0 2 2 (do_get 0 0 ++ do_slide 1 14)).
  - reflexivity.
  - by vm_compute.
  - by vm_compute.
  - by vm_compute.
Defined.

Lemma window_defensive_branches_witness :
  ∃ sl, slot_at 0 (win (ends_in (do_get 0 0 ++ [Call 0%nat (Revert 0)] ++ steps 0 2))) = Some sl ∧ 0 < ref_ sl.
Proof.
  apply (window_defensive_branches 0 2 2 (ends_in (do_get 0 0 ++ [Call 0%nat (Revert 0)] ++ steps 0 2))
           0%nat (mkThread (R_sub false 0) [] OB_SUCCESS)).
  - apply ends_in_reachable. by vm_compute.
  - by vm_compute.
Defined.

Lemma slide_callbacks_ordered_witness : StronglySorted Z.gt (slid (win (ends_in (do_slide 1 16 ++ do_slide 1 16)))).
Proof. apply (slide_callbacks_ordered 0 2 2). apply ends_in_reachable. by vm_compute. Defined.

Lemma window_operations_return_witness :
  let s := ends_in (do_get 0 0 ++ do_slide 1 14) in
  ∃ k s' rest, let es := Call 0%nat (Revert 0) :: replicate k (Step 0%nat quick) in
    run_events es s = Some s' ∧ all_on_time es s = true ∧ drop_one 0 [0] = Some rest ∧
    threads s' = <[0%nat := mkThread Idle rest OB_SUCCESS]> (threads s) ∧ begin_sn_ (win s') = begin_sn_ (win s).
Proof.
  apply (window_operations_return 0 2 2 (ends_in (do_get 0 0 ++ do_slide 1 14)) 0%nat (mkThread Idle [0] OB_SUCCESS) quick).
  - apply ends_in_reachable. by vm_compute.
  - by vm_compute.
  - by vm_compute.
  - reflexivity.
  - apply list_elem_of_here.
Defined.

(** Thread 1 slides log 0; its slot is about to become that of log 2. *)
Lemma window_grows_by_fresh_slots_witness :
  let s := ends_in (do_slide 1 11) in let s' := ends_in (do_slide 1 12) in
  end_sn_ (win s') = end_sn_ (win s) + 1 ∧ end_sn_ (win s) - size_ (win s) < begin_sn_ (win s) ∧
  (∀ t th, threads s !! t = Some th → end_sn_ (win s) - size_ (win s) ∉ held th) ∧
  ∃ d, data_at (end_sn_ (win s)) (win s') = Some (slot_reset d).
Proof.
  apply (window_grows_by_fresh_slots 0 2 2 (ends_in (do_slide 1 11)) (Step 1%nat quick) (ends_in (do_slide 1 12))).
  - apply ends_in_reachable. by vm_compute.
  - discriminate.
  - by vm_compute.
  - by vm_compute.
Defined.
End WindowSafety.
