(* ===== verification/LogTask.v ===== *)
(** [LogTask] of [src/logservice/palf/log_task.cpp], the slot of the sliding window in
    which the threads of the leader gather the entries of one group, and the parts of
    [LogSlidingWindow] ([log_sliding_window.cpp]) that update, freeze and submit it.

    The atomic operations on the members are one step each: their loops of
    compare-and-swap repeat until no other thread has come between.  The time is an
    argument. *)
From S2P Require Import Prelude BitSet Scn Lsn LogGroupEntryHeader LogSubmit FixedSlidingWindow.
Import LogSubmit.

Module LogTask.

(** ** [LogSimpleBitMap] *)
Module BitMap.
Definition bit (idx : Z) : Z := u16 (Z.shiftl 1 idx).
Definition reset_all (val_ : Z) : Z := 0.
Definition reset_map (idx val_ : Z) : Z := Z.land val_ (u16 (Z.lnot (Z.shiftl 1 idx))).
Definition set_map (idx val_ : Z) : Z := Z.lor val_ (bit idx).
Definition test_map (idx val_ : Z) : bool := negb (Z.land val_ (Z.shiftl 1 idx) =? 0).
(** The result is whether the bit was free. *)
Definition test_and_set (idx val_ : Z) : bool * Z :=
  ((if negb (Z.land val_ (bit idx) =? 0) then false else true), Z.lor val_ (bit idx)).
End BitMap.

Definition PRE_FILL : Z := 0.
Definition IS_VALID : Z := 1.
Definition SUBMIT_LOG_EXIST : Z := 2.
Definition IS_FREEZED : Z := 3.
Definition PRE_SUBMIT : Z := 4.
Definition PRE_SLIDE : Z := 5.

Definition OB_INVALID_TIMESTAMP : Z := -1.
Inductive PushLogType : Set := PUSH_LOG | FETCH_LOG_RESP | PUSH_LOG_WO_ACK.

Record LogTask : Set := mkTask {
  state_map_ : Z;                  (* uint16_t *)
  header_ : LogTaskHeaderInfo;
  ref_cnt_ : Z;                    (* int64_t *)
  log_cnt_ : Z;
  gen_ts_ : Z;
  freeze_ts_ : Z;
  submit_ts_ : Z;
  flushed_ts_ : Z;
  push_log_type_ : PushLogType
}.
Implicit Types k : LogTask.

Definition set_state (v : Z) k : LogTask :=
  mkTask v (header_ k) (ref_cnt_ k) (log_cnt_ k) (gen_ts_ k) (freeze_ts_ k) (submit_ts_ k) (flushed_ts_ k) (push_log_type_ k).
Definition set_header (h : LogTaskHeaderInfo) k : LogTask :=
  mkTask (state_map_ k) h (ref_cnt_ k) (log_cnt_ k) (gen_ts_ k) (freeze_ts_ k) (submit_ts_ k) (flushed_ts_ k) (push_log_type_ k).
Definition set_cnt (r l : Z) k : LogTask :=
  mkTask (state_map_ k) (header_ k) r l (gen_ts_ k) (freeze_ts_ k) (submit_ts_ k) (flushed_ts_ k) (push_log_type_ k).
Definition set_times (g f s u : Z) k : LogTask :=
  mkTask (state_map_ k) (header_ k) (ref_cnt_ k) (log_cnt_ k) g f s u (push_log_type_ k).

(** The header with some members replaced. *)
Definition with_begin (b : Lsn.LSN) (id : Z) (pad : bool) (pid : Z) (mn : Scn.SCN) (h : LogTaskHeaderInfo) : LogTaskHeaderInfo :=
  mkInfo b (end_lsn_ h) id mn (i_max_scn_ h) (data_len_ h) pid (prev_lsn_ h) (prev_proposal_id_ h)
    (i_committed_end_lsn_ h) (data_checksum_ h) (accum_checksum_ h) pad (is_raw_write_ h).
Definition with_end (e : Lsn.LSN) (h : LogTaskHeaderInfo) : LogTaskHeaderInfo :=
  mkInfo (begin_lsn_ h) e (i_log_id_ h) (min_scn_ h) (i_max_scn_ h) (data_len_ h) (i_proposal_id_ h) (prev_lsn_ h)
    (prev_proposal_id_ h) (i_committed_end_lsn_ h) (data_checksum_ h) (accum_checksum_ h) (is_padding_log_ h) (is_raw_write_ h).
Definition with_size (n : Z) (mx : Scn.SCN) (h : LogTaskHeaderInfo) : LogTaskHeaderInfo :=
  mkInfo (begin_lsn_ h) (end_lsn_ h) (i_log_id_ h) (min_scn_ h) mx n (i_proposal_id_ h) (prev_lsn_ h)
    (prev_proposal_id_ h) (i_committed_end_lsn_ h) (data_checksum_ h) (accum_checksum_ h) (is_padding_log_ h) (is_raw_write_ h).
Definition with_commit (c : Lsn.LSN) (acc : Z) (h : LogTaskHeaderInfo) : LogTaskHeaderInfo :=
  mkInfo (begin_lsn_ h) (end_lsn_ h) (i_log_id_ h) (min_scn_ h) (i_max_scn_ h) (data_len_ h) (i_proposal_id_ h) (prev_lsn_ h)
    (prev_proposal_id_ h) c (data_checksum_ h) acc (is_padding_log_ h) (is_raw_write_ h).
Definition with_prev (l : Lsn.LSN) (pid : Z) (h : LogTaskHeaderInfo) : LogTaskHeaderInfo :=
  mkInfo (begin_lsn_ h) (end_lsn_ h) (i_log_id_ h) (min_scn_ h) (i_max_scn_ h) (data_len_ h) (i_proposal_id_ h) l
    pid (i_committed_end_lsn_ h) (data_checksum_ h) (accum_checksum_ h) (is_padding_log_ h) (is_raw_write_ h).
Definition with_checksum (c : Z) (h : LogTaskHeaderInfo) : LogTaskHeaderInfo :=
  mkInfo (begin_lsn_ h) (end_lsn_ h) (i_log_id_ h) (min_scn_ h) (i_max_scn_ h) (data_len_ h) (i_proposal_id_ h) (prev_lsn_ h)
    (prev_proposal_id_ h) (i_committed_end_lsn_ h) c (accum_checksum_ h) (is_padding_log_ h) (is_raw_write_ h).

(** ** The tags *)
Definition test (b : Z) k : bool := BitMap.test_map b (state_map_ k).
Definition raise (b : Z) k : LogTask := set_state (BitMap.set_map b (state_map_ k)) k.
Definition lower (b : Z) k : LogTask := set_state (BitMap.reset_map b (state_map_ k)) k.
Definition try_raise (b : Z) k : bool * LogTask :=
  let '(r, v) := BitMap.test_and_set b (state_map_ k) in (r, set_state v k).

Definition is_valid k : bool := test IS_VALID k.
Definition set_valid (now : Z) k : LogTask :=
  raise IS_VALID (set_times now (freeze_ts_ k) (submit_ts_ k) (flushed_ts_ k) k).
Definition set_freezed k : LogTask := raise IS_FREEZED k.
Definition is_freezed k : bool := test IS_FREEZED k.
Definition try_pre_fill k : bool * LogTask := try_raise PRE_FILL k.
Definition reset_pre_fill k : LogTask := lower PRE_FILL k.
Definition try_pre_slide k : bool * LogTask := try_raise PRE_SLIDE k.
Definition is_pre_slide k : bool := test PRE_SLIDE k.
Definition reset_pre_slide k : LogTask := lower PRE_SLIDE k.
Definition try_pre_submit k : bool * LogTask :=
  if is_freezed k && (0 =? ref_cnt_ k) then try_raise PRE_SUBMIT k else (false, k).
Definition is_pre_submit k : bool := test PRE_SUBMIT k.
Definition reset_pre_submit k : LogTask := lower PRE_SUBMIT k.
Definition reset_submit_log_exist k : LogTask := lower SUBMIT_LOG_EXIST k.
Definition set_submit_log_exist k : bool * LogTask := try_raise SUBMIT_LOG_EXIST k.
Definition is_submit_log_exist k : bool := test SUBMIT_LOG_EXIST k.

(** ** The members *)
Definition reset k : LogTask :=
  mkTask (BitMap.reset_all (state_map_ k)) (info_reset (header_ k)) 0 0 OB_INVALID_TIMESTAMP OB_INVALID_TIMESTAMP
    OB_INVALID_TIMESTAMP OB_INVALID_TIMESTAMP (push_log_type_ k).
Definition new_task : LogTask :=
  reset (mkTask 0 (mkInfo no_lsn no_lsn Lsn.OB_INVALID_LOG_ID Scn.invalid_scn Scn.invalid_scn 0 Lsn.INVALID_PROPOSAL_ID
                     no_lsn Lsn.INVALID_PROPOSAL_ID no_lsn (-1) (-1) false false)
           0 0 OB_INVALID_TIMESTAMP OB_INVALID_TIMESTAMP OB_INVALID_TIMESTAMP OB_INVALID_TIMESTAMP PUSH_LOG).
Definition can_be_slid k : bool := if is_pre_slide k then true else false.

(** [inc_update] of [SCN] without another writer between its load and its store. *)
Definition inc_update_max_scn (scn : Scn.SCN) k : LogTask :=
  let word := i_max_scn_ (header_ k) in
  match Scn.inc_update 2 (fun _ => word) word scn with
  | Some (_, w) => set_header (with_size (data_len_ (header_ k)) w (header_ k)) k
  | None => k
  end.
Definition update_data_len (data_len : Z) k : LogTask :=
  set_header (with_size (s64 (data_len_ (header_ k) + data_len)) (i_max_scn_ (header_ k)) (header_ k)) k.
Definition set_end_lsn (end_lsn : Lsn.LSN) k : LogTask := set_header (with_end end_lsn (header_ k)) k.
Definition set_prev_lsn (l : Lsn.LSN) k : LogTask :=
  set_header (with_prev l (prev_proposal_id_ (header_ k)) (header_ k)) k.
Definition set_prev_log_proposal_id (pid : Z) k : LogTask :=
  set_header (with_prev (prev_lsn_ (header_ k)) pid (header_ k)) k.
Definition set_group_log_checksum (c : Z) k : LogTask := set_header (with_checksum c (header_ k)) k.

Definition ref (val : Z) (is_append_log : bool) k : Z * LogTask :=
  let r := s64 (ref_cnt_ k + val) in
  (r, set_cnt r (if is_append_log then s64 (log_cnt_ k + 1) else log_cnt_ k) k).

Definition set_initial_header_info (now : Z) (i : LogTaskHeaderInfo) k : Z * LogTask :=
  if is_valid k then (OB_ERR_UNEXPECTED, k)
  else
    let k := set_header (with_begin (begin_lsn_ i) (i_log_id_ i) (is_padding_log_ i) (i_proposal_id_ i) (min_scn_ i) (header_ k)) k in
    (OB_SUCCESS, set_valid now (inc_update_max_scn (i_max_scn_ i) (update_data_len (data_len_ i) k))).

Definition update_header_info (committed_end_lsn : Lsn.LSN) (accum_checksum : Z) k : Z * LogTask :=
  if negb (Lsn.is_valid committed_end_lsn) then (OB_INVALID_ARGUMENT, k)
  else if negb (is_valid k) then (OB_ERR_UNEXPECTED, k)
  else (OB_SUCCESS, set_header (with_commit committed_end_lsn accum_checksum (header_ k)) k).

Definition set_group_header (now : Z) (lsn : Lsn.LSN) (scn : Scn.SCN)
    (h : LogGroupEntryHeader.LogGroupEntryHeader) k : Z * LogTask :=
  if negb (Lsn.is_valid lsn) || negb (LogGroupEntryHeader.is_valid h) then (OB_INVALID_ARGUMENT, k)
  else if is_valid k then (OB_STATE_NOT_MATCH, k)
  else
    let i := header_ k in
    (OB_SUCCESS,
     set_valid now (set_header
       (mkInfo lsn (Lsn.lsn_add (Lsn.lsn_add lsn (LogGroupEntryHeader.get_serialize_size h)) (LogGroupEntryHeader.group_size_ h))
          (LogGroupEntryHeader.log_id_ h) scn (LogGroupEntryHeader.max_scn_ h) (LogGroupEntryHeader.group_size_ h)
          (LogGroupEntryHeader.proposal_id_ h) (prev_lsn_ i) (prev_proposal_id_ i)
          (LogGroupEntryHeader.committed_end_lsn_ h) (data_checksum_ i) (LogGroupEntryHeader.accumulated_checksum_ h)
          (LogGroupEntryHeader.is_padding_log h) (LogGroupEntryHeader.is_raw_write h)) k)).

Definition try_freeze_ (end_lsn : Lsn.LSN) k : Z * LogTask :=
  if is_freezed k then (OB_SUCCESS, k)
  else if negb (Lsn.is_valid end_lsn) then (OB_INVALID_ARGUMENT, k)
  else if negb (is_valid k) then (OB_EAGAIN, k)
  else if Lsn.lsn_geb (begin_lsn_ (header_ k)) end_lsn then (OB_INVALID_ARGUMENT, k)
  else
    let total_len := s64 (Lsn.lsn_diff end_lsn (begin_lsn_ (header_ k))) in
    let ref_val := 0 - (total_len - LogGroupEntryHeader.HEADER_SER_SIZE) in
    let k := snd (ref ref_val false k) in
    (OB_SUCCESS, raise IS_FREEZED (set_header (with_end end_lsn (header_ k)) k)).
Definition try_freeze (end_lsn : Lsn.LSN) k : Z * LogTask := try_freeze_ end_lsn k.
Definition try_freeze_by_myself k : Z * LogTask :=
  if negb (Lsn.is_valid (end_lsn_ (header_ k))) then (OB_EAGAIN, k) else try_freeze_ (end_lsn_ (header_ k)) k.

Definition set_freeze_ts (ts : Z) k : LogTask :=
  if freeze_ts_ k =? OB_INVALID_TIMESTAMP then set_times (gen_ts_ k) ts (submit_ts_ k) (flushed_ts_ k) k else k.
Definition set_submit_ts (ts : Z) k : LogTask := set_times (gen_ts_ k) (freeze_ts_ k) ts (flushed_ts_ k) k.
Definition set_flushed_ts (ts : Z) k : LogTask := set_times (gen_ts_ k) (freeze_ts_ k) (submit_ts_ k) ts k.
Definition set_push_log_type (t : PushLogType) k : LogTask :=
  mkTask (state_map_ k) (header_ k) (ref_cnt_ k) (log_cnt_ k) (gen_ts_ k) (freeze_ts_ k) (submit_ts_ k) (flushed_ts_ k) t.
Definition is_fetch_log_type k : bool := match push_log_type_ k with FETCH_LOG_RESP => true | _ => false end.

(** A log task is a slot of the sliding window. *)
#[export] Instance task_slot : FixedSlidingWindow.SlotOps LogTask :=
  {| FixedSlidingWindow.slot_new := new_task;
     FixedSlidingWindow.can_be_slid := can_be_slid;
     FixedSlidingWindow.slot_reset := reset |}.

(** ** Tags *)
Lemma bit_pow b : 0 <= b < 16 → BitMap.bit b = 2 ^ b.
Proof.
  intros Hb. unfold BitMap.bit. rewrite Z.shiftl_1_l. apply wrapu_small. split; [apply Z.pow_nonneg; lia|].
  apply Z.pow_lt_mono_r; lia.
Qed.

Lemma test_bit b v : 0 <= b → BitMap.test_map b v = Z.testbit v b.
Proof.
  intros Hb. unfold BitMap.test_map. by rewrite Z.shiftl_1_l, BitSet.land_pow2_zero, negb_involutive by done.
Qed.

Lemma set_bit b c v : 0 <= b < 16 → 0 <= c → Z.testbit (BitMap.set_map b v) c = Z.testbit v c || (b =? c).
Proof.
  intros Hb Hc. unfold BitMap.set_map. rewrite bit_pow, Z.lor_spec by done. f_equal. rewrite Z.pow2_bits_eqb by lia. done.
Qed.

Lemma reset_bit b c v : 0 <= b < 16 → 0 <= c < 16 → Z.testbit (BitMap.reset_map b v) c = Z.testbit v c && negb (b =? c).
Proof.
  intros Hb Hc. unfold BitMap.reset_map, wrapu. rewrite Z.land_spec, Z.mod_pow2_bits_low, Z.lnot_spec, Z.shiftl_1_l, Z.pow2_bits_eqb by lia.
  done.
Qed.

(** The tags as they are seen after an operation. *)
Lemma test_raise b c k : 0 <= b < 16 → 0 <= c < 16 → test c (raise b k) = test c k || (b =? c).
Proof. intros. unfold test, raise. simpl. rewrite !test_bit by lia. by apply set_bit; lia. Qed.

Lemma test_lower b c k : 0 <= b < 16 → 0 <= c < 16 → test c (lower b k) = test c k && negb (b =? c).
Proof. intros. unfold test, lower. simpl. rewrite !test_bit by lia. by apply reset_bit. Qed.

Lemma try_raise_is b k : 0 <= b < 16 → try_raise b k = (negb (test b k), raise b k).
Proof.
  intros Hb. unfold try_raise, BitMap.test_and_set, raise, test, BitMap.set_map, BitMap.test_map.
  rewrite Z.shiftl_1_l, bit_pow by done. by destruct (Z.land (state_map_ k) (2 ^ b) =? 0).
Qed.

Lemma test_set_header b h k : test b (set_header h k) = test b k.
Proof. reflexivity. Qed.
Lemma test_set_cnt b r l k : test b (set_cnt r l k) = test b k.
Proof. reflexivity. Qed.
Lemma test_set_times b x y z u k : test b (set_times x y z u k) = test b k.
Proof. reflexivity. Qed.
Lemma header_raise b k : header_ (raise b k) = header_ k.
Proof. reflexivity. Qed.
Lemma ref_cnt_raise b k : ref_cnt_ (raise b k) = ref_cnt_ k.
Proof. reflexivity. Qed.
Lemma header_set_header h k : header_ (set_header h k) = h.
Proof. reflexivity. Qed.
Lemma ref_cnt_set_header h k : ref_cnt_ (set_header h k) = ref_cnt_ k.
Proof. reflexivity. Qed.

Lemma inc_update_max_scn_is scn k :
  inc_update_max_scn scn k =
  set_header (with_size (data_len_ (header_ k)) (if Scn.scn_ltb (i_max_scn_ (header_ k)) scn then scn else i_max_scn_ (header_ k))
                (header_ k)) k.
Proof. unfold inc_update_max_scn. rewrite Scn.inc_update_alone. by destruct (Scn.scn_ltb _ _). Qed.

(** What the first entry of a group leaves in the task. *)
Lemma init_info now i k k' :
  set_initial_header_info now i k = (OB_SUCCESS, k') →
  (∀ b, 0 <= b < 16 → test b k' = test b k || (IS_VALID =? b)) ∧
  begin_lsn_ (header_ k') = begin_lsn_ i ∧ end_lsn_ (header_ k') = end_lsn_ (header_ k) ∧
  data_len_ (header_ k') = s64 (data_len_ (header_ k) + data_len_ i) ∧
  Scn.rank (i_max_scn_ (header_ k')) = Z.max (Scn.rank (i_max_scn_ (header_ k))) (Scn.rank (i_max_scn_ i)) ∧
  ref_cnt_ k' = ref_cnt_ k.
Proof.
  unfold set_initial_header_info. destruct (is_valid k); [discriminate|].
  rewrite inc_update_max_scn_is. intros E. apply (f_equal snd) in E. cbn [snd] in E. subst k'.
  destruct k as [v h r l t1 t2 t3 t4 p]. destruct h, i.
  split_and!; [|reflexivity|reflexivity|reflexivity| |reflexivity].
  - intros b Hb. unfold set_valid. rewrite test_raise by (unfold IS_VALID; lia). reflexivity.
  - cbn [set_valid raise set_state set_times header_ set_header update_data_len with_size with_begin i_max_scn_].
    rewrite Scn.ltb_rank. destruct (_ <? _) eqn:E; bool_to_prop; lia.
Qed.

Create HintDb task.
#[export] Hint Rewrite test_set_header test_set_cnt test_set_times header_raise ref_cnt_raise header_set_header
  ref_cnt_set_header inc_update_max_scn_is : task.
End LogTask.
