(* ===== verification/GroupCollect.v ===== *)
(** The threads that fill one group: each entry of the group announces itself to the
    log task, is filled into the ring buffer and counted ([generate_new_group_log_]
    for the first entry, [append_to_group_log_] for the others); the next group or a
    freezing thread closes the task; and whoever finds it closed and completely
    filled may submit it ([handle_next_submit_log_]).  The steps of all threads
    interleave. *)
From S2P Require Import Prelude Scn Lsn LogGroupEntryHeader LogSubmit LogTask.
Import LogSubmit LogTask.

Module GroupCollect.
Abbreviation HEADER := LogGroupEntryHeader.HEADER_SER_SIZE.

(** An entry: its size with its header, and its timestamp. *)
Record Entry : Set := mkEntry { e_size : Z; e_scn : Scn.SCN }.

(** A group as the allocator hands it out: where it starts, its id, the proposal id of
    the leader and its entries, the first one first. *)
Record Group : Set := mkGroup { g_begin : Lsn.LSN; g_id : Z; g_proposal : Z; g_padding : bool; g_entries : list Entry }.

Definition total (es : list Entry) : Z := foldr (λ e n, e_size e + n) 0 es.
(** Where the next group starts. *)
Definition g_end (g : Group) : Lsn.LSN := Lsn.mkLSN (Lsn.val_ (g_begin g) + HEADER + total (g_entries g)).

(** How far the thread of an entry has come. *)
Inductive Stage : Set := Started | Scn_known | Announced | Filled.

Record Sys : Set := mkSys { task : LogTask; stages : list Stage; owner : bool }.

(** The locked part of [generate_new_group_log_]. *)
Definition open_task (now : Z) (g : Group) (e : Entry) (k : LogTask) : Z * LogTask :=
  if is_valid k then (OB_ERR_UNEXPECTED, k)
  else
    let info := mkInfo (g_begin g) no_lsn (g_id g) (e_scn e) (e_scn e) (e_size e) (g_proposal g) no_lsn
                  Lsn.INVALID_PROPOSAL_ID no_lsn (-1) (-1) (g_padding g) false in
    let '(rc, k) := set_initial_header_info now info k in
    if ob_failed rc then (rc, k) else (rc, snd (try_freeze_by_myself k)).

(** The locked part of [try_freeze_prev_log_]. *)
Definition freeze_prev (lsn : Lsn.LSN) (k : LogTask) : LogTask :=
  if negb (is_valid k) then set_end_lsn lsn k else snd (try_freeze lsn k).

(** The locked part of [try_freeze_last_log_task_]. *)
Definition freeze_last (expected_end_lsn : Lsn.LSN) (k : LogTask) : Z * LogTask :=
  let log_end_lsn := Lsn.lsn_add (Lsn.lsn_add (begin_lsn_ (header_ k)) HEADER) (data_len_ (header_ k)) in
  if negb (is_valid k) then (OB_SUCCESS, k)
  else if Lsn.lsn_gtb log_end_lsn expected_end_lsn then (OB_ERR_UNEXPECTED, k)
  else (OB_SUCCESS, snd (try_freeze expected_end_lsn k)).

Inductive Event : Set :=
| Open (now : Z)        (* the first entry opens the task *)
| Max_scn (i : nat)     (* append_to_group_log_: inc_update_max_scn *)
| Data_len (i : nat)    (* update_data_len *)
| Fill (i : nat)        (* the entry is in the ring buffer: ref *)
| Freeze_prev           (* by the first entry of the next group *)
| Freeze_last           (* by a thread that closes the last group *)
| Pre_submit            (* handle_next_submit_log_ *)
| Reset_pre_submit.     (* its submission has failed *)

Definition exec (g : Group) (ev : Event) (s : Sys) : option Sys :=
  let move i st k := Some (mkSys k (<[i := st]> (stages s)) (owner s)) in
  match ev with
  | Open now =>
      match g_entries g !! 0%nat, stages s !! 0%nat with
      | Some e, Some Started => move 0%nat Announced (snd (open_task now g e (task s)))
      | _, _ => None
      end
  | Max_scn i =>
      match i, g_entries g !! i, stages s !! i with
      | S _, Some e, Some Started => move i Scn_known (inc_update_max_scn (e_scn e) (task s))
      | _, _, _ => None
      end
  | Data_len i =>
      match g_entries g !! i, stages s !! i with
      | Some e, Some Scn_known => move i Announced (update_data_len (e_size e) (task s))
      | _, _ => None
      end
  | Fill i =>
      match g_entries g !! i, stages s !! i with
      | Some e, Some Announced => move i Filled (snd (ref (e_size e) true (task s)))
      | _, _ => None
      end
  | Freeze_prev => Some (mkSys (freeze_prev (g_end g) (task s)) (stages s) (owner s))
  | Freeze_last => Some (mkSys (snd (freeze_last (g_end g) (task s))) (stages s) (owner s))
  | Pre_submit =>
      let '(won, k) := try_pre_submit (task s) in Some (mkSys k (stages s) (owner s || won))
  | Reset_pre_submit =>
      if owner s then Some (mkSys (reset_pre_submit (task s)) (stages s) false) else None
  end.

Definition start (g : Group) : Sys := mkSys new_task (replicate (length (g_entries g)) Started) false.

Inductive reachable (g : Group) : Sys → Prop :=
| reach_start : reachable g (start g)
| reach_step s ev s' : reachable g s → exec g ev s = Some s' → reachable g s'.

(** What the allocator guarantees of a group. *)
Definition group_ok (g : Group) : Prop :=
  g_entries g ≠ [] ∧ Forall (λ e, 0 < e_size e ∧ Scn.is_valid (e_scn e) = true) (g_entries g) ∧
  0 <= Lsn.val_ (g_begin g) ∧ Lsn.val_ (g_begin g) + HEADER + total (g_entries g) < 2 ^ 62.

(** ** Sums over the entries that have come so far *)
Definition known (st : Stage) : bool := match st with Started => false | _ => true end.
Definition announced (st : Stage) : bool := match st with Announced | Filled => true | _ => false end.
Definition filled (st : Stage) : bool := match st with Filled => true | _ => false end.

Fixpoint sum_if (f : Stage → bool) (es : list Entry) (sts : list Stage) : Z :=
  match es, sts with
  | e :: es, st :: sts => (if f st then e_size e else 0) + sum_if f es sts
  | _, _ => 0
  end.
Fixpoint max_if (f : Stage → bool) (es : list Entry) (sts : list Stage) : Z :=
  match es, sts with
  | e :: es, st :: sts => Z.max (if f st then Scn.rank (e_scn e) else -1) (max_if f es sts)
  | _, _ => -1
  end.

Lemma sum_if_update f es sts i e st st' :
  es !! i = Some e → sts !! i = Some st →
  sum_if f es (<[i := st']> sts) = sum_if f es sts - (if f st then e_size e else 0) + (if f st' then e_size e else 0).
Proof.
  revert es i. induction sts as [|s0 sts IH]; intros [|e0 es] [|i] He Hs; simpl in *; simplify_eq; [lia|].
  rewrite (IH es i) by done. lia.
Qed.

Lemma max_if_update f es sts i e st st' :
  es !! i = Some e → sts !! i = Some st → (f st = true → f st' = true) →
  max_if f es (<[i := st']> sts) = Z.max (max_if f es sts) (if f st' then Scn.rank (e_scn e) else -1).
Proof.
  revert es i. induction sts as [|s0 sts IH]; intros [|e0 es] [|i] He Hs Hf; simpl in *; simplify_eq.
  - destruct (f st) eqn:E1; [rewrite Hf by done; lia|]. destruct (f st'); simpl; [|].
    all: assert (-1 <= max_if f es sts) by (clear; revert es; induction sts as [|? sts IH]; intros [|? es]; simpl; try lia; pose proof (IH es); lia); lia.
  - rewrite (IH es i) by done. lia.
Qed.

Lemma max_if_ge f es sts i e st :
  es !! i = Some e → sts !! i = Some st → f st = true → Scn.rank (e_scn e) <= max_if f es sts.
Proof.
  revert es i. induction sts as [|s0 sts IH]; intros [|e0 es] [|i] He Hs Hf; simpl in *; simplify_eq.
  - rewrite Hf. lia.
  - specialize (IH es i He Hs Hf). lia.
Qed.

Lemma sum_if_bounds f es sts : Forall (λ e, 0 < e_size e) es → 0 <= sum_if f es sts <= total es.
Proof.
  intros Hp. revert sts. induction Hp as [|e es He _ IH]; intros [|st sts]; simpl; try lia.
  - assert (0 <= total es) by (clear - IH; pose proof (IH []); simpl in *; destruct es; simpl in *; lia). lia.
  - pose proof (IH sts). destruct (f st); lia.
Qed.

Lemma sum_if_full f es sts :
  Forall (λ e, 0 < e_size e) es → length sts = length es → sum_if f es sts = total es → Forall (λ st, f st = true) sts.
Proof.
  intros Hp. revert sts. induction Hp as [|e es He Hes IH]; intros [|st sts] Hl Hs; simpl in *; try done.
  pose proof (sum_if_bounds f es sts Hes). destruct (f st) eqn:E; [|lia]. constructor; [done|]. apply IH; lia.
Qed.

Lemma sum_if_all f es sts :
  length sts = length es → Forall (λ st, f st = true) sts → sum_if f es sts = total es.
Proof.
  revert es. induction sts as [|st sts IH]; intros [|e es] Hl Hf; simpl in *; try done.
  inversion Hf as [|? ? E ?]; subst. rewrite E, IH by (done || lia). done.
Qed.

Lemma max_if_all f es sts :
  length sts = length es → Forall (λ st, f st = true) sts →
  max_if f es sts = foldr (λ e m, Z.max (Scn.rank (e_scn e)) m) (-1) es.
Proof.
  revert es. induction sts as [|st sts IH]; intros [|e es] Hl Hf; simpl in *; try done.
  inversion Hf as [|? ? E ?]; subst. rewrite E, IH by (done || lia). done.
Qed.

(** ** The invariant *)
Record Inv (g : Group) (s : Sys) : Prop := {
  i_len : length (stages s) = length (g_entries g);
  i_first : stages s !! 0%nat ≠ Some Scn_known;
  i_valid : is_valid (task s) = true ↔ ∃ st, stages s !! 0%nat = Some st ∧ st ≠ Started;
  i_begin : is_valid (task s) = true → begin_lsn_ (header_ (task s)) = g_begin g;
  i_data : data_len_ (header_ (task s)) = sum_if announced (g_entries g) (stages s);
  i_max : Scn.rank (i_max_scn_ (header_ (task s))) = max_if known (g_entries g) (stages s);
  i_ref : ref_cnt_ (task s) = sum_if filled (g_entries g) (stages s) - (if is_freezed (task s) then total (g_entries g) else 0);
  i_frozen : is_freezed (task s) = true → is_valid (task s) = true ∧ end_lsn_ (header_ (task s)) = g_end g;
  i_end : end_lsn_ (header_ (task s)) = g_end g ∨ end_lsn_ (header_ (task s)) = no_lsn;
  i_owner : owner s = is_pre_submit (task s)
}.

Ltac tag := unfold PRE_FILL, IS_VALID, SUBMIT_LOG_EXIST, IS_FREEZED, PRE_SUBMIT, PRE_SLIDE; lia.
Ltac tags :=
  unfold is_valid, is_freezed, is_pre_submit, set_valid, set_freezed, reset_pre_submit in *; simpl task in *; simpl stages in *; simpl owner in *;
  repeat (autorewrite with task; rewrite ?test_raise, ?test_lower by tag).

Section proto.
Context (g : Group) (Hg : group_ok g).

Lemma sizes_pos : Forall (λ e, 0 < e_size e) (g_entries g).
Proof. destruct Hg as (_ & Hf & _). eapply Forall_impl; [exact Hf|]. by intros e [? _]. Qed.

Lemma sum_small f sts z : -2 ^ 62 < z < 2 ^ 62 → s64 (sum_if f (g_entries g) sts + z) = sum_if f (g_entries g) sts + z.
Proof.
  intros Hz. apply wraps_small; [lia|]. pose proof (sum_if_bounds f _ sts sizes_pos). destruct Hg as (_ & _ & ? & ?).
  unfold in_s, HEADER, LogGroupEntryHeader.HEADER_SER_SIZE in *. lia.
Qed.

Lemma total_pos : 0 < total (g_entries g) < 2 ^ 62.
Proof.
  destruct Hg as (Hne & Hf & ? & ?). unfold LogGroupEntryHeader.HEADER_SER_SIZE in *. split; [|lia].
  destruct (g_entries g) as [|e es] eqn:E; [done|]. simpl. pose proof sizes_pos as Hp. rewrite E in Hp.
  inversion Hp as [|? ? He Hes]; subst. pose proof (sum_if_bounds (λ _, false) es [] Hes). destruct es; simpl in *; lia.
Qed.

(** Freezing a valid task at the end of its group. *)
Lemma freeze_counts k :
  is_freezed k = false → is_valid k = true → begin_lsn_ (header_ k) = g_begin g →
  try_freeze_ (g_end g) k =
  (OB_SUCCESS, raise IS_FREEZED (set_header (with_end (g_end g) (header_ k)) (set_cnt (s64 (ref_cnt_ k - total (g_entries g))) (log_cnt_ k) k))).
Proof.
  intros Hf Hv Hb. unfold try_freeze_. rewrite Hf, Hv, Hb. pose proof total_pos. destruct Hg as (_ & _ & Hb0 & Hb1).
  assert (Lsn.is_valid (g_end g) = true) as ->.
  { unfold Lsn.is_valid, g_end, Lsn.LOG_INVALID_LSN_VAL, UINT64_MAX. simpl Lsn.val_. apply negb_true_iff, Z.eqb_neq. lia. }
  assert (Lsn.lsn_geb (g_begin g) (g_end g) = false) as ->.
  { unfold Lsn.lsn_geb, Lsn.lsn_ltb, Lsn.lsn_eqb, g_end. simpl Lsn.val_.
    unfold LogGroupEntryHeader.HEADER_SER_SIZE. apply orb_false_intro; [apply Z.ltb_ge|apply Z.eqb_neq]; lia. }
  cbn [negb]. unfold ref. cbn [snd]. do 4 f_equal. unfold Lsn.lsn_diff, g_end. simpl Lsn.val_.
  rewrite wrapu_small by (unfold in_u; unfold LogGroupEntryHeader.HEADER_SER_SIZE in *; lia).
  rewrite (wraps_small 64 (_ - _)) by (unfold in_s; unfold LogGroupEntryHeader.HEADER_SER_SIZE in *; lia).
  f_equal. lia.
Qed.

Lemma freeze_inv s :
  Inv g s → is_valid (task s) = true → Inv g (mkSys (snd (try_freeze_ (g_end g) (task s))) (stages s) (owner s)).
Proof.
  intros HI Hv. destruct (is_freezed (task s)) eqn:Hf.
  - unfold try_freeze_. rewrite Hf. simpl. by destruct s.
  - rewrite freeze_counts by (done || by apply HI). cbn [snd]. pose proof total_pos.
    destruct HI as [H1 H2 H3 H4 H5 H6 H7 H8 H9 H10]. rewrite Hf in H7.
    assert (s64 (ref_cnt_ (task s) - total (g_entries g)) = sum_if filled (g_entries g) (stages s) - total (g_entries g)) as Er.
    { rewrite H7, Z.sub_0_r. apply (sum_small filled (stages s) (- total (g_entries g))). lia. }
    split; tags; simpl; rewrite ?orb_false_r, ?orb_true_r; auto; tauto.
Qed.

Lemma lookup_entry s i st : Inv g s → stages s !! i = Some st → is_Some (g_entries g !! i).
Proof. intros HI Hi. apply lookup_lt_is_Some. rewrite <- (i_len g s HI). by eapply lookup_lt_Some. Qed.

(** A thread of an entry takes a step; what it does to the task is described by what
    it adds. *)
Lemma advance_inv s i e st st' k :
  Inv g s → g_entries g !! i = Some e → stages s !! i = Some st → st ≠ st' → (i = 0%nat → st ≠ Started ∧ st' = Filled) →
  known st' = true → (announced st = true → announced st' = true) → filled st = false →
  state_map_ k = state_map_ (task s) →
  begin_lsn_ (header_ k) = begin_lsn_ (header_ (task s)) → end_lsn_ (header_ k) = end_lsn_ (header_ (task s)) →
  data_len_ (header_ k) =
    data_len_ (header_ (task s)) + (if announced st then 0 else if announced st' then e_size e else 0) →
  Scn.rank (i_max_scn_ (header_ k)) = Z.max (Scn.rank (i_max_scn_ (header_ (task s)))) (Scn.rank (e_scn e)) →
  ref_cnt_ k = ref_cnt_ (task s) + (if filled st' then e_size e else 0) →
  Inv g (mkSys k (<[i := st']> (stages s)) (owner s)).
Proof.
  intros HI He Hst Hne H0 Hk Ha Hfl Em Eb Ee Ed Ex Er. destruct HI as [H1 H2 H3 H4 H5 H6 H7 H8 H9 H10].
  assert (∀ b, test b k = test b (task s)) as Ht by (intros; unfold test; by rewrite Em).
  assert (0 < length (stages s))%nat as Hlt by (apply lookup_lt_Some in Hst; lia).
  split; simpl; unfold is_valid, is_freezed, is_pre_submit in *; rewrite ?Ht, ?Eb, ?Ee; try done.
  - by rewrite length_insert.
  - destruct (decide (i = 0%nat)) as [->|Hi]; [|by rewrite list_lookup_insert_ne].
    rewrite list_lookup_insert_eq by done. destruct H0 as [_ ->]; done.
  - rewrite H3. destruct (decide (i = 0%nat)) as [->|Hi]; [|by rewrite list_lookup_insert_ne].
    rewrite list_lookup_insert_eq by done. destruct H0 as [? ->]; [done|]. naive_solver.
  - rewrite Ed, H5, (sum_if_update _ _ _ _ _ _ _ He Hst). destruct (announced st) eqn:E1; [rewrite Ha by done|]; lia.
  - rewrite Ex, H6, (max_if_update _ _ _ _ _ _ _ He Hst), Hk by done. done.
  - rewrite Er, H7, (sum_if_update _ _ _ _ _ _ _ He Hst), Hfl. lia.
Qed.

Lemma max_scn_inv s i e :
  Inv g s → g_entries g !! S i = Some e → stages s !! S i = Some Started →
  Inv g (mkSys (inc_update_max_scn (e_scn e) (task s)) (<[S i := Scn_known]> (stages s)) (owner s)).
Proof.
  intros HI He Hst. rewrite inc_update_max_scn_is. apply (advance_inv s (S i) e Started Scn_known); try assumption;
    [congruence|done|reflexivity|done|reflexivity|reflexivity|reflexivity|reflexivity| | | ].
  - simpl. lia.
  - cbn [header_ set_header i_max_scn_ with_size]. rewrite Scn.ltb_rank. destruct (_ <? _) eqn:E; bool_to_prop; lia.
  - simpl. lia.
Qed.

Lemma data_len_inv s i e :
  Inv g s → g_entries g !! i = Some e → stages s !! i = Some Scn_known →
  Inv g (mkSys (update_data_len (e_size e) (task s)) (<[i := Announced]> (stages s)) (owner s)).
Proof.
  intros HI He Hst. apply (advance_inv s i e Scn_known Announced); try assumption;
    [congruence| |reflexivity|done|reflexivity|reflexivity|reflexivity|reflexivity| | | ].
  - intros ->. by destruct (i_first g s HI).
  - cbn [announced update_data_len header_ set_header data_len_ with_size]. rewrite (i_data g s HI). apply sum_small. pose proof total_pos. pose proof sizes_pos as Hp.
    rewrite Forall_lookup in Hp. pose proof (Hp _ _ He). simpl in *.
    pose proof (sum_if_update announced _ _ _ _ _ Announced He Hst) as Hu. simpl in Hu.
    pose proof (sum_if_bounds announced _ (<[i := Announced]> (stages s)) sizes_pos).
    pose proof (sum_if_bounds announced _ (stages s) sizes_pos). lia.
  - change (i_max_scn_ (header_ _)) with (i_max_scn_ (header_ (task s))). rewrite (i_max g s HI). pose proof (max_if_ge known _ _ _ _ _ He Hst eq_refl). lia.
  - simpl. lia.
Qed.

Lemma fill_inv s i e :
  Inv g s → g_entries g !! i = Some e → stages s !! i = Some Announced →
  Inv g (mkSys (snd (ref (e_size e) true (task s))) (<[i := Filled]> (stages s)) (owner s)).
Proof.
  intros HI He Hst. apply (advance_inv s i e Announced Filled); try assumption;
    [congruence|done|reflexivity|done|reflexivity|reflexivity|reflexivity|reflexivity| | | ].
  - simpl. lia.
  - change (i_max_scn_ (header_ _)) with (i_max_scn_ (header_ (task s))). rewrite (i_max g s HI). pose proof (max_if_ge known _ _ _ _ _ He Hst eq_refl). lia.
  - unfold ref. cbn [snd ref_cnt_ set_cnt filled]. rewrite (i_ref g s HI). pose proof total_pos. pose proof sizes_pos as Hp. rewrite Forall_lookup in Hp.
    pose proof (Hp _ _ He). simpl in *.
    pose proof (sum_if_update filled _ _ _ _ _ Filled He Hst) as Hu. simpl in Hu.
    pose proof (sum_if_bounds filled _ (<[i := Filled]> (stages s)) sizes_pos).
    pose proof (sum_if_bounds filled _ (stages s) sizes_pos).
    apply wraps_small; [lia|]. unfold in_s. destruct (is_freezed (task s)); lia.
Qed.

(** The task of the first entry before it tries to freeze itself. *)
Lemma open_valid s now e k :
  Inv g s → g_entries g !! 0%nat = Some e → stages s !! 0%nat = Some Started →
  set_initial_header_info now (mkInfo (g_begin g) no_lsn (g_id g) (e_scn e) (e_scn e) (e_size e) (g_proposal g) no_lsn
                  Lsn.INVALID_PROPOSAL_ID no_lsn (-1) (-1) (g_padding g) false) (task s) = (OB_SUCCESS, k) →
  Inv g (mkSys k (<[0%nat := Announced]> (stages s)) (owner s)) ∧ is_valid k = true.
Proof.
  intros HI He Hst. assert (is_valid (task s) = false) as Hnv.
  { apply not_true_iff_false. rewrite (i_valid g s HI). intros (st & ? & ?). congruence. }
  assert (is_freezed (task s) = false) as Hnf.
  { apply not_true_iff_false. intros Hf. apply (i_frozen g s HI) in Hf as [? _]. congruence. }
  intros (Et & Eb & Ee & Ed & Ex & Er)%init_info. cbn [begin_lsn_ data_len_ i_max_scn_] in Eb, Ed, Ex.
  pose proof total_pos. pose proof sizes_pos as Hp. rewrite Forall_lookup in Hp. pose proof (Hp _ _ He) as Hpe. simpl in Hpe.
  pose proof (sum_if_update announced _ _ _ _ _ Announced He Hst) as Hu. simpl in Hu.
  pose proof (sum_if_update filled _ _ _ _ _ Announced He Hst) as Hu2. simpl in Hu2.
  pose proof (sum_if_bounds announced _ (<[0%nat := Announced]> (stages s)) sizes_pos).
  pose proof (sum_if_bounds announced _ (stages s) sizes_pos).
  assert (0 < length (stages s))%nat as Hlt by (by eapply lookup_lt_Some).
  destruct HI as [I1 I2 I3 I4 I5 I6 I7 I8 I9 I10].
  unfold is_valid, is_freezed, is_pre_submit in *.
  split; [split|]; cbn [task stages owner]; unfold is_valid, is_freezed, is_pre_submit; rewrite ?Et by tag;
    rewrite ?Hnf, ?length_insert, ?list_lookup_insert_eq, ?Eb, ?Ee, ?Ed, ?Ex, ?Er by done;
    change (IS_VALID =? IS_VALID) with true; change (IS_VALID =? IS_FREEZED) with false; change (IS_VALID =? PRE_SUBMIT) with false;
    rewrite ?orb_false_r, ?orb_true_r.
  - exact I1.
  - discriminate.
  - naive_solver.
  - intros _. reflexivity.
  - rewrite I5, Hu, sum_small by lia. lia.
  - by rewrite I6, (max_if_update _ _ _ _ _ _ _ He Hst) by done.
  - rewrite I7, Hnf, Hu2. lia.
  - discriminate.
  - exact I9.
  - exact I10.
  - reflexivity.
Qed.

Lemma open_inv s now e :
  Inv g s → g_entries g !! 0%nat = Some e → stages s !! 0%nat = Some Started →
  Inv g (mkSys (snd (open_task now g e (task s))) (<[0%nat := Announced]> (stages s)) (owner s)).
Proof.
  intros HI He Hst. unfold open_task. destruct (is_valid (task s)) eqn:Hv.
  { apply (i_valid g s HI) in Hv as (st & ? & ?). congruence. }
  destruct (set_initial_header_info _ _ _) as [rc k] eqn:Ei.
  assert (rc = OB_SUCCESS) as ->.
  { revert Ei. unfold set_initial_header_info. rewrite Hv. intros Ei. by apply (f_equal fst) in Ei. }
  cbn [ob_failed negb Z.eqb OB_SUCCESS snd]. destruct (open_valid s now e k HI He Hst Ei) as [HI' Hv'].
  unfold try_freeze_by_myself. destruct (Lsn.is_valid (end_lsn_ (header_ k))) eqn:El; [|exact HI'].
  destruct (i_end g _ HI') as [E|E]; cbn [task] in E; rewrite E in *; [|done].
  exact (freeze_inv _ HI' Hv').
Qed.

Lemma set_end_inv s : Inv g s → is_valid (task s) = false → Inv g (mkSys (set_end_lsn (g_end g) (task s)) (stages s) (owner s)).
Proof.
  intros [I1 I2 I3 I4 I5 I6 I7 I8 I9 I10] Hv. split; try assumption.
  - intros Hf. destruct (I8 Hf) as [? _]. congruence.
  - by left.
Qed.

Lemma pre_submit_inv s :
  Inv g s → Inv g (mkSys (snd (try_pre_submit (task s))) (stages s) (owner s || fst (try_pre_submit (task s)))).
Proof.
  intros HI. unfold try_pre_submit. destruct (_ && _); cbn [fst snd]; [|rewrite orb_false_r; by destruct s].
  rewrite try_raise_is by tag. cbn [fst snd]. destruct HI as [I1 I2 I3 I4 I5 I6 I7 I8 I9 I10].
  split; tags; change (PRE_SUBMIT =? PRE_SUBMIT) with true; change (PRE_SUBMIT =? IS_VALID) with false;
    change (PRE_SUBMIT =? IS_FREEZED) with false; rewrite ?orb_false_r, ?orb_true_r; try assumption.
  rewrite I10. by destruct (test PRE_SUBMIT (task s)).
Qed.

Lemma reset_pre_submit_inv s : Inv g s → Inv g (mkSys (reset_pre_submit (task s)) (stages s) false).
Proof.
  intros [I1 I2 I3 I4 I5 I6 I7 I8 I9 I10].
  split; tags; change (PRE_SUBMIT =? PRE_SUBMIT) with true; change (PRE_SUBMIT =? IS_VALID) with false;
    change (PRE_SUBMIT =? IS_FREEZED) with false; cbn [negb]; rewrite ?andb_true_r, ?andb_false_r; by try assumption.
Qed.

Lemma collect_exec_inv s ev s' : Inv g s → exec g ev s = Some s' → Inv g s'.
Proof.
  intros HI. destruct ev as [now|i|i|i| | | |]; cbn [exec].
  - destruct (g_entries g !! 0%nat) as [e|] eqn:He; [|done]. destruct (stages s !! 0%nat) as [[]|] eqn:Hs; try done.
    intros [= <-]. by apply open_inv.
  - destruct i as [|i]; [done|]. destruct (g_entries g !! S i) as [e|] eqn:He; [|done].
    destruct (stages s !! S i) as [[]|] eqn:Hs; try done. intros [= <-]. by apply max_scn_inv.
  - destruct (g_entries g !! i) as [e|] eqn:He; [|done]. destruct (stages s !! i) as [[]|] eqn:Hs; try done.
    intros [= <-]. by apply data_len_inv.
  - destruct (g_entries g !! i) as [e|] eqn:He; [|done]. destruct (stages s !! i) as [[]|] eqn:Hs; try done.
    intros E. injection E as <-. by apply fill_inv.
  - intros [= <-]. unfold freeze_prev. destruct (is_valid (task s)) eqn:Hv; cbn [negb].
    + by apply freeze_inv.
    + by apply set_end_inv.
  - intros [= <-]. unfold freeze_last. destruct (is_valid (task s)) eqn:Hv; cbn [negb]; [|by destruct s].
    destruct (Lsn.lsn_gtb _ _); [by destruct s|]. by apply freeze_inv.
  - pose proof (pre_submit_inv s HI) as Hi. destruct (try_pre_submit (task s)) as [won k]. by intros [= <-].
  - destruct (owner s); [|done]. intros [= <-]. by apply reset_pre_submit_inv.
Qed.

Lemma collect_start_inv : Inv g (start g).
Proof.
  assert (∀ f es, f Started = false → sum_if f es (replicate (length es) Started) = 0) as Hs.
  { intros f es Hf. induction es as [|e es IH]; [reflexivity|]. simpl. rewrite Hf, IH. reflexivity. }
  assert (∀ es, max_if known es (replicate (length es) Started) = -1) as Hm.
  { induction es as [|e es IH]; [reflexivity|]. simpl. rewrite IH. reflexivity. }
  assert (∀ st, replicate (length (g_entries g)) Started !! 0%nat = Some st → st = Started) as Hr.
  { intros st Hst. by apply lookup_replicate in Hst as [-> _]. }
  split; cbn [start task stages owner].
  - apply length_replicate.
  - intros E. by apply Hr in E.
  - split; [done|]. intros (st & E & Hne). by apply Hr in E.
  - done.
  - by rewrite Hs.
  - by rewrite Hm.
  - by rewrite Hs.
  - done.
  - by right.
  - done.
Qed.

Lemma collect_reachable_inv s : reachable g s → Inv g s.
Proof. induction 1 as [|s ev s' _ IH He]; [apply collect_start_inv|by eapply collect_exec_inv]. Qed.
End proto.

Definition latest (es : list Entry) : Z := foldr (λ e m, Z.max (Scn.rank (e_scn e)) m) (-1) es.

(** C35. In every interleaving of the threads that open, append to, fill and freeze a
    group, [try_pre_submit] succeeds exactly when the group is frozen, every entry has
    been filled and nobody holds the right to submit; the task then has the exact
    start, end, data length and timestamp of the group, and the next try fails. *)
Theorem group_submitted_complete (g : Group) (s : Sys) :
  group_ok g → reachable g s →
  let '(won, k) := try_pre_submit (task s) in
  (won = true ↔ is_freezed (task s) = true ∧ Forall (λ st, st = Filled) (stages s) ∧ owner s = false) ∧
  (won = true →
    begin_lsn_ (header_ k) = g_begin g ∧ end_lsn_ (header_ k) = g_end g ∧
    data_len_ (header_ k) = total (g_entries g) ∧ Scn.rank (i_max_scn_ (header_ k)) = latest (g_entries g) ∧
    fst (try_pre_submit k) = false).
Proof.
  intros Hg Hr. pose proof (collect_reachable_inv g Hg s Hr) as HI. pose proof (sizes_pos g Hg) as Hp.
  pose proof (sum_if_bounds filled _ (stages s) Hp) as Hb. pose proof (i_ref g s HI) as Href.
  assert (∀ st, filled st = true ↔ st = Filled) as Hf by (by intros []).
  unfold try_pre_submit. destruct (is_freezed (task s)) eqn:Efz; cbn [andb]; [|naive_solver].
  assert (0 =? ref_cnt_ (task s) = true ↔ Forall (λ st, st = Filled) (stages s)) as Hz.
  { rewrite Z.eqb_eq, Href. setoid_rewrite <- Hf. split.
    - intros E. apply (sum_if_full filled (g_entries g)); [done|apply HI|lia].
    - intros E. rewrite (sum_if_all filled) by (done || apply HI). lia. }
  destruct (0 =? ref_cnt_ (task s)) eqn:Er; [|naive_solver]. rewrite try_raise_is by tag.
  rewrite (i_owner g s HI). split; [rewrite negb_true_iff; unfold is_pre_submit; naive_solver|]. intros _.
  destruct (i_frozen g s HI Efz) as [Hv He]. autorewrite with task.
  assert (∀ f, f Filled = true → Forall (λ st, f st = true) (stages s)) as Hall.
  { intros f E. eapply Forall_impl; [by apply Hz|]. by intros st ->. }
  split_and!; [by apply HI|done| | |].
  - rewrite (i_data g s HI). apply sum_if_all; [apply HI|by apply Hall].
  - rewrite (i_max g s HI). apply max_if_all; [apply HI|by apply Hall].
  - unfold is_freezed in *. rewrite test_raise, Efz, Er by tag. cbn [andb orb]. rewrite try_raise_is by tag. cbn [fst].
    rewrite test_raise by tag. change (PRE_SUBMIT =? PRE_SUBMIT) with true. by rewrite orb_true_r.
Qed.

(** ** A group of two entries *)
Definition pair : Group :=
  mkGroup (Lsn.mkLSN 1000) 3 1 false [mkEntry 40 (Scn.mkSCN 10); mkEntry 50 (Scn.mkSCN 11)].

(** The next group freezes this one before its first entry is there. *)
Definition late_first : list Event := [Freeze_prev; Max_scn 1; Data_len 1; Fill 1; Open 7; Fill 0].

Fixpoint runs (g : Group) (evs : list Event) (s : Sys) : option Sys :=
  match evs with
  | [] => Some s
  | ev :: evs => match exec g ev s with Some s' => runs g evs s' | None => None end
  end.

Lemma runs_reachable g evs s s' : reachable g s → runs g evs s = Some s' → reachable g s'.
Proof.
  revert s. induction evs as [|ev evs IH]; simpl; intros s Hs Hr; [by simplify_eq|].
  destruct (exec g ev s) as [s1|] eqn:E; [|done]. eapply IH; [|done]. by eapply reach_step.
Qed.

Definition pair_done : Sys := default (start pair) (runs pair late_first (start pair)).

Lemma group_submitted_complete_witness :
  let '(won, k) := try_pre_submit (task pair_done) in
  (won = true ↔ is_freezed (task pair_done) = true ∧ Forall (λ st, st = Filled) (stages pair_done) ∧ owner pair_done = false) ∧
  (won = true →
    begin_lsn_ (header_ k) = g_begin pair ∧ end_lsn_ (header_ k) = g_end pair ∧
    data_len_ (header_ k) = total (g_entries pair) ∧ Scn.rank (i_max_scn_ (header_ k)) = latest (g_entries pair) ∧
    fst (try_pre_submit k) = false).
Proof.
  apply (group_submitted_complete pair pair_done).
  - split_and!; [done| |by vm_compute|by vm_compute]. repeat constructor; by vm_compute.
  - apply (runs_reachable pair late_first (start pair)); [constructor|by vm_compute].
Defined.

Example pair_is_submitted : fst (try_pre_submit (task pair_done)) = true.
Proof. by vm_compute. Qed.
End GroupCollect.
