(* ===== verification/MemberList.v ===== *)
(** The members of a replication group: server addresses ([ObAddr] of
    [deps/oblib/src/lib/net/ob_addr.h]), members ([ObMember] of
    [deps/oblib/src/common/ob_member.h]) and lists of them ([ObMemberListBase] of
    [ob_member_list.ipp]), which are arrays sorted by address. *)
From stdpp Require Import sorting.
From S2P Require Import Prelude.

Module MemberList.

Definition OB_INVALID_TIMESTAMP : Z := -1.
Definition OB_INVALID_INDEX : Z := -1.
Definition OB_MAX_MEMBER_NUMBER : Z := 7.

(** ** Addresses *)

Inductive VER : Set := UNIX | IPV4 | IPV6.
#[export] Instance ver_eq_dec : EqDecision VER := ltac:(solve_decision).
Definition ver_val (v : VER) : Z := match v with UNIX => 1 | IPV4 => 4 | IPV6 => 6 end.

(** [ip_] is a union of 16 bytes; [port_] an [int32_t] that is not negative. *)
Definition IPV6_LEN : nat := 16.
Record ObAddr : Set := mkAddr { version_ : VER; ip_ : list Z; port_ : Z }.
#[export] Instance addr_eq_dec : EqDecision ObAddr := ltac:(solve_decision).

(** [ip_.v4_], the first four bytes as a number. *)
Definition v4_ (a : ObAddr) : Z :=
  nth 0 (ip_ a) 0 + 2 ^ 8 * nth 1 (ip_ a) 0 + 2 ^ 16 * nth 2 (ip_ a) 0 + 2 ^ 24 * nth 3 (ip_ a) 0.
Definition no_addr : ObAddr := mkAddr IPV4 (replicate IPV6_LEN 0) 0.

(** [STRLEN] of [ip_.unix_path_], a path that ends inside the union. *)
Fixpoint strlen (l : list Z) : Z := match l with [] => 0 | c :: l => if c =? 0 then 0 else 1 + strlen l end.
Definition UNIX_PATH_MAX : Z := 16.

Definition addr_is_valid (a : ObAddr) : bool :=
  match version_ a with
  | UNIX => (0 <? strlen (ip_ a)) && (strlen (ip_ a) <? UNIX_PATH_MAX)
  | IPV4 => (0 <? port_ a) && negb (v4_ a =? 0)
  | IPV6 => (0 <? port_ a) && existsb (λ b, negb (b =? 0)) (ip_ a)
  end.

(** The loop over the bytes of an IPv6 address: the first difference. *)
Fixpoint bytes_cmp (l l' : list Z) : Z :=
  match l, l' with
  | b :: l, b' :: l' => if b - b' =? 0 then bytes_cmp l l' else b - b'
  | _, _ => 0
  end.
Definition compare_refactored (a b : ObAddr) : Z :=
  let ipcmp :=
    if negb (ver_val (version_ a) =? ver_val (version_ b)) then ver_val (version_ a) - ver_val (version_ b)
    else match version_ a with
         | IPV4 => v4_ a - v4_ b
         | IPV6 => bytes_cmp (ip_ a) (ip_ b)
         | UNIX => 0
         end in
  let ipcmp := if 0 =? ipcmp then port_ a - port_ b else ipcmp in
  if 0 =? ipcmp then 0 else if 0 <? ipcmp then 1 else -1.
Definition addr_eqb (a b : ObAddr) : bool := 0 =? compare_refactored a b.
Definition addr_ltb (a b : ObAddr) : bool := compare_refactored a b <? 0.
#[global] Arguments addr_eqb : simpl never.
#[global] Arguments addr_ltb : simpl never.
Definition hash (a : ObAddr) : Z :=
  match version_ a with
  | IPV4 => port_ a + v4_ a
  | IPV6 => port_ a + foldr Z.add 0 (ip_ a)
  | UNIX => 0
  end.

(** ** Members *)

Record ObMember : Set := mkMember { server_ : ObAddr; timestamp_ : Z; flag_ : Z }.
Definition new_member (server : ObAddr) (timestamp : Z) : ObMember := mkMember server timestamp 0.
Definition no_member : ObMember := mkMember no_addr OB_INVALID_TIMESTAMP 0.
Definition member_is_valid (m : ObMember) : bool := addr_is_valid (server_ m).
Definition member_eqb (l r : ObMember) : bool :=
  addr_eqb (server_ l) (server_ r) && (timestamp_ l =? timestamp_ r) && (flag_ l =? flag_ r).
Definition member_ltb (l r : ObMember) : bool := addr_ltb (server_ l) (server_ r).

(** ** Lists *)

(** The first [member_number_] elements of the array [member_]. *)
Definition ObMemberList : Set := list ObMember.
Implicit Types ml : ObMemberList.
Definition get_member_number ml : Z := Z.of_nat (length ml).
Definition list_is_valid ml : bool := 0 <? get_member_number ml.
Definition is_empty ml : bool := 0 =? get_member_number ml.

(** The first loop of [add_member]: whether the server is there, and where the member
    belongs; [n] is [member_number_]. *)
Fixpoint add_scan (member : ObMember) (n : Z) (l : list ObMember) (i dst_idx : Z) : Z * Z :=
  match l with
  | [] => (OB_SUCCESS, dst_idx)
  | m :: l =>
      if addr_eqb (server_ m) (server_ member) then (OB_ENTRY_EXIST, dst_idx)
      else if (n =? dst_idx) && member_ltb member m then add_scan member n l (i + 1) i
      else add_scan member n l (i + 1) dst_idx
  end.
Definition add_member (member : ObMember) ml : Z * ObMemberList :=
  if negb (member_is_valid member) then (OB_INVALID_ARGUMENT, ml)
  else if OB_MAX_MEMBER_NUMBER <=? get_member_number ml then (OB_SIZE_OVERFLOW, ml)
  else
    let '(rc, dst_idx) := add_scan member (get_member_number ml) ml 0 (get_member_number ml) in
    if ob_failed rc then (rc, ml)
    else (OB_SUCCESS, take (Z.to_nat dst_idx) ml ++ member :: drop (Z.to_nat dst_idx) ml).
Definition add_server (server : ObAddr) ml : Z * ObMemberList := add_member (new_member server OB_INVALID_TIMESTAMP) ml.

(** Close the gap at [index]. *)
Definition shift_out (index : Z) ml : ObMemberList := take (Z.to_nat index) ml ++ drop (S (Z.to_nat index)) ml.

Fixpoint remove_member_scan (member : ObMember) (l : list ObMember) (i : Z) : Z * Z :=
  match l with
  | [] => (OB_ENTRY_NOT_EXIST, OB_INVALID_INDEX)
  | m :: l =>
      if member_eqb m member then (OB_SUCCESS, i)
      else if addr_eqb (server_ m) (server_ member) then (OB_ITEM_NOT_MATCH, OB_INVALID_INDEX)
      else remove_member_scan member l (i + 1)
  end.
Definition remove_member (member : ObMember) ml : Z * ObMemberList :=
  if negb (member_is_valid member) then (OB_INVALID_ARGUMENT, ml)
  else if get_member_number ml <=? 0 then (OB_ENTRY_NOT_EXIST, ml)
  else
    let '(rc, index) := remove_member_scan member ml 0 in
    if ob_failed rc then (rc, ml) else (OB_SUCCESS, shift_out index ml).

Fixpoint find_server (server : ObAddr) (l : list ObMember) (i : Z) : Z :=
  match l with
  | [] => OB_INVALID_INDEX
  | m :: l => if addr_eqb (server_ m) server then i else find_server server l (i + 1)
  end.
Definition remove_server (server : ObAddr) ml : Z * ObMemberList :=
  if negb (addr_is_valid server) then (OB_INVALID_ARGUMENT, ml)
  else if get_member_number ml <=? 0 then (OB_ENTRY_NOT_EXIST, ml)
  else
    let index := find_server server ml 0 in
    if index =? OB_INVALID_INDEX then (OB_ENTRY_NOT_EXIST, ml) else (OB_SUCCESS, shift_out index ml).

(** The result is the code and the output argument, unchanged on an error. *)
Definition get_member_by_index (index : Z) (member : ObMember) ml : Z * ObMember :=
  if (index <? 0) || (get_member_number ml <=? index) then (OB_SIZE_OVERFLOW, member)
  else (OB_SUCCESS, nth (Z.to_nat index) ml member).
Definition get_server_by_index (index : Z) (server : ObAddr) ml : Z * ObAddr :=
  if (index <? 0) || (get_member_number ml <=? index) then (OB_SIZE_OVERFLOW, server)
  else (OB_SUCCESS, server_ (nth (Z.to_nat index) ml no_member)).
Definition get_member_by_addr (server : ObAddr) ml : Z * ObMember :=
  if negb (addr_is_valid server) then (OB_INVALID_ARGUMENT, no_member)
  else match find (λ m, addr_eqb (server_ m) server) ml with
       | Some m => (OB_SUCCESS, m)
       | None => (OB_ENTRY_NOT_EXIST, no_member)
       end.
Definition contains (server : ObAddr) ml : bool := existsb (λ m, addr_eqb (server_ m) server) ml.
Definition contains_member (member : ObMember) ml : bool := existsb (λ m, member_eqb m member) ml.
Definition member_addr_equal ml' ml : bool :=
  if negb (get_member_number ml =? get_member_number ml') then false
  else forallb (λ m, contains (server_ m) ml') ml.
Definition truncate (count : Z) ml : Z * ObMemberList :=
  if count <=? 0 then (OB_INVALID_ARGUMENT, ml)
  else if get_member_number ml <=? count then (OB_SUCCESS, ml)
  else (OB_SUCCESS, take (Z.to_nat count) ml).

(** * Addresses are ordered *)

(** What of an address the comparison sees. *)
Definition code (a : ObAddr) : list Z :=
  ver_val (version_ a) ::
    match version_ a with IPV4 => [v4_ a] | IPV6 => ip_ a | UNIX => [] end ++ [port_ a].

Definition wf_addr (a : ObAddr) : Prop := length (ip_ a) = IPV6_LEN.

(** Lexicographic comparison of lists, as the sign of the first difference. *)
Fixpoint lex (l l' : list Z) : Z :=
  match l, l' with
  | b :: l, b' :: l' => if b =? b' then lex l l' else b - b'
  | _, _ => 0
  end.

Lemma lex_zero l l' : length l = length l' → lex l l' = 0 ↔ l = l'.
Proof.
  revert l'. induction l as [|b l IH]; intros [|b' l'] Hl; simplify_eq/=; [done|].
  destruct (Z.eqb_spec b b') as [->|]; [rewrite IH by done; split; congruence|].
  split; [intros; lia|intros [= ??]; done].
Qed.

Lemma lex_flip l l' : lex l' l = - lex l l'.
Proof.
  revert l'. induction l as [|b l IH]; intros [|b' l']; simpl; try done.
  rewrite (Z.eqb_sym b'). destruct (b =? b'); [apply IH|lia].
Qed.

Lemma lex_trans l1 l2 l3 :
  length l1 = length l2 → length l2 = length l3 → lex l1 l2 < 0 → lex l2 l3 <= 0 → lex l1 l3 < 0.
Proof.
  revert l2 l3. induction l1 as [|a l1 IH]; intros [|b l2] [|c l3] ??; simplify_eq/=; try lia.
  destruct (Z.eqb_spec a b), (Z.eqb_spec b c), (Z.eqb_spec a c); simplify_eq; try lia. by apply IH.
Qed.

Lemma bytes_cmp_lex l l' k k' :
  length l = length l' → lex (l ++ [k]) (l' ++ [k']) = if 0 =? bytes_cmp l l' then k - k' else bytes_cmp l l'.
Proof.
  revert l'. induction l as [|b l IH]; intros [|b' l'] ?; simplify_eq/=; [by destruct (Z.eqb_spec k k'); [lia|]|].
  destruct (Z.eqb_spec b b'), (Z.eqb_spec (b - b') 0); try lia; [by apply IH|].
  by destruct (b - b') eqn:?; [lia| |].
Qed.

Lemma bytes_cmp_flip l l' : bytes_cmp l' l = - bytes_cmp l l'.
Proof.
  revert l'. induction l as [|b l IH]; intros [|b' l']; simpl; [done..|].
  rewrite IH. destruct (Z.eqb_spec (b - b') 0), (Z.eqb_spec (b' - b) 0); lia.
Qed.

Lemma compare_flip a b : compare_refactored b a = - compare_refactored a b.
Proof.
  unfold compare_refactored. cbv zeta.
  match goal with |- context [if 0 =? (if 0 =? ?x then _ else _) then _ else _] => set (u := x) end.
  match goal with |- context [if 0 =? ?x then port_ a - _ else _] => set (v := x) end.
  assert (u = - v) as ->.
  { unfold u, v. rewrite Z.eqb_sym, (bytes_cmp_flip (ip_ a) (ip_ b)). destruct (version_ a), (version_ b); simpl; lia. }
  clearbody v. destruct (Z.eqb_spec 0 v), (Z.eqb_spec 0 (- v)); try lia;
    repeat match goal with |- context [?u =? ?v] => destruct (Z.eqb_spec u v) | |- context [?u <? ?v] => destruct (Z.ltb_spec u v) end; lia.
Qed.

Lemma addr_eqb_sym a b : addr_eqb a b = addr_eqb b a.
Proof. unfold addr_eqb. rewrite (compare_flip a b). destruct (Z.eqb_spec 0 (compare_refactored a b)), (Z.eqb_spec 0 (- compare_refactored a b)); lia. Qed.

Lemma addr_eqb_refl a : addr_eqb a a = true.
Proof. unfold addr_eqb. pose proof (compare_flip a a). apply Z.eqb_eq. lia. Qed.

Lemma code_length a b : wf_addr a → wf_addr b → version_ a = version_ b → length (code a) = length (code b).
Proof. unfold wf_addr, code. intros Ha Hb E. simpl. rewrite !length_app, E. destruct (version_ b); simpl; congruence. Qed.

Lemma compare_code a b : wf_addr a → wf_addr b → compare_refactored a b = Z.sgn (lex (code a) (code b)).
Proof.
  intros Ha Hb. unfold compare_refactored.
  assert (∀ z, (if 0 =? z then 0 else if 0 <? z then 1 else -1) = Z.sgn z) as Hs.
  { intros z. destruct (Z.eqb_spec 0 z), (Z.ltb_spec 0 z); lia. }
  rewrite Hs. f_equal. unfold code. cbn [lex app].
  destruct (Z.eqb_spec (ver_val (version_ a)) (ver_val (version_ b))) as [E|E]; cbn [negb].
  - assert (version_ b = version_ a) as -> by (by destruct (version_ a), (version_ b)).
    destruct (version_ a); cbn [app lex].
    + destruct (Z.eqb_spec (port_ a) (port_ b)), (Z.eqb_spec 0 0); lia.
    + destruct (Z.eqb_spec (v4_ a) (v4_ b)), (Z.eqb_spec 0 (v4_ a - v4_ b)), (Z.eqb_spec (port_ a) (port_ b)); lia.
    + by rewrite bytes_cmp_lex by (unfold wf_addr in *; congruence).
  - destruct (Z.eqb_spec 0 (ver_val (version_ a) - ver_val (version_ b))); [lia|done].
Qed.

Lemma code_lex_trans a b c :
  wf_addr a → wf_addr b → wf_addr c → lex (code a) (code b) < 0 → lex (code b) (code c) <= 0 → lex (code a) (code c) < 0.
Proof.
  intros Ha Hb Hc H1 H2.
  destruct (decide (version_ a = version_ b)) as [E1|E1], (decide (version_ b = version_ c)) as [E2|E2].
  1: by eapply (lex_trans _ (code b)); eauto using code_length.
  all: unfold code in *; cbn [lex] in *;
    destruct (Z.eqb_spec (ver_val (version_ a)) (ver_val (version_ b))), (Z.eqb_spec (ver_val (version_ b)) (ver_val (version_ c))),
      (Z.eqb_spec (ver_val (version_ a)) (ver_val (version_ c)));
    destruct (version_ a), (version_ b), (version_ c); simpl in *; done || lia.
Qed.

Lemma addr_eqb_code a b : wf_addr a → wf_addr b → addr_eqb a b = true ↔ code a = code b.
Proof.
  intros Ha Hb. unfold addr_eqb. rewrite Z.eqb_eq, compare_code by done.
  destruct (decide (version_ a = version_ b)) as [E|E].
  - rewrite <- lex_zero by (by apply code_length). lia.
  - assert (ver_val (version_ a) ≠ ver_val (version_ b)) as Hv by (by destruct (version_ a), (version_ b)).
    split; [|by intros [= ?]]. unfold code. cbn [lex]. rewrite (proj2 (Z.eqb_neq _ _) Hv). intros; lia.
Qed.

Lemma addr_ltb_code a b : wf_addr a → wf_addr b → addr_ltb a b = true ↔ lex (code a) (code b) < 0.
Proof. intros. unfold addr_ltb. rewrite Z.ltb_lt, compare_code by done. lia. Qed.

Lemma code_hash a b : code a = code b → hash a = hash b.
Proof.
  unfold code, hash. intros [= Hv E].
  assert (version_ b = version_ a) as Hb by (by destruct (version_ a), (version_ b)). rewrite Hb in *.
  destruct (version_ a); [done| |]; apply app_inj_tail in E as [E1 E2]; [|congruence]. injection E1. congruence.
Qed.

(** * Lists refine finite maps *)

Abbreviation AddrMap := (gmap (list Z)).
Definition key (m : ObMember) : list Z := code (server_ m).
Definition members ml : AddrMap ObMember := list_to_map ((λ m, (key m, m)) <$> ml).

Definition before (m m' : ObMember) : Prop := lex (key m) (key m') < 0.
Record wf ml : Prop := {
  wf_sorted : StronglySorted before ml;
  wf_valid : Forall (λ m, wf_addr (server_ m) ∧ member_is_valid m = true) ml;
  wf_count : get_member_number ml <= OB_MAX_MEMBER_NUMBER
}.

Lemma wf_nil : wf [].
Proof. by split; [constructor|constructor|vm_compute]. Qed.

Lemma before_irrefl m : ¬ before m m.
Proof. unfold before. rewrite (proj2 (lex_zero _ _ eq_refl) eq_refl). lia. Qed.

Lemma sorted_nodup ml : StronglySorted before ml → NoDup (key <$> ml).
Proof.
  induction 1 as [|m ml Hs IH Hm]; simpl; constructor; [|done].
  intros (m' & E & Hin)%list_elem_of_fmap. rewrite Forall_forall in Hm. specialize (Hm m' Hin).
  unfold before in Hm. rewrite E, (proj2 (lex_zero _ _ eq_refl) eq_refl) in Hm. lia.
Qed.

Lemma members_nodup ml : StronglySorted before ml → NoDup ((λ m, (key m, m)) <$> ml).*1.
Proof. intros Hs. rewrite <- list_fmap_compose. by apply sorted_nodup. Qed.

Lemma lookup_members ml k m : wf ml → members ml !! k = Some m ↔ m ∈ ml ∧ key m = k.
Proof.
  intros [Hs _ _]. unfold members. rewrite <- elem_of_list_to_map by (by apply members_nodup).
  rewrite list_elem_of_fmap. naive_solver.
Qed.

Lemma lookup_members_none ml k : members ml !! k = None ↔ k ∉ key <$> ml.
Proof.
  unfold members. rewrite <- not_elem_of_list_to_map. by rewrite <- list_fmap_compose.
Qed.

Lemma size_members ml : wf ml → Z.of_nat (size (members ml)) = get_member_number ml.
Proof.
  intros [Hs _ _]. unfold members, get_member_number. f_equal.
  rewrite <- length_map_to_list, map_to_list_to_map by (by apply members_nodup). apply length_fmap.
Qed.

Lemma contains_key server ml :
  wf ml → wf_addr server → contains server ml = true ↔ code server ∈ key <$> ml.
Proof.
  intros [_ Hv _] Hs. unfold contains. rewrite existsb_exists, list_elem_of_fmap. rewrite Forall_forall in Hv.
  split; intros (m & H1 & H2); exists m.
  - apply list_elem_of_In in H1. apply addr_eqb_code in H2; [by split|by apply Hv|done].
  - rewrite <- list_elem_of_In. split; [done|]. apply addr_eqb_code; [naive_solver|done|by symmetry].
Qed.

Lemma members_insert l1 m l2 :
  StronglySorted before (l1 ++ m :: l2) → members (l1 ++ m :: l2) = <[key m := m]> (members (l1 ++ l2)).
Proof.
  intros Hs. change (members (l1 ++ m :: l2) = members (m :: l1 ++ l2)).
  apply list_to_map_proper; [by apply members_nodup|]. apply fmap_Permutation. by rewrite Permutation_middle.
Qed.

Lemma sorted_remove l1 m l2 : StronglySorted before (l1 ++ m :: l2) → StronglySorted before (l1 ++ l2).
Proof.
  rewrite !StronglySorted_app, StronglySorted_cons. intros (H1 & H2 & H3 & H4). split_and!; [|done|done].
  intros x y Hx Hy. apply H1; [done|]. by apply list_elem_of_further.
Qed.

Lemma members_delete l1 m l2 :
  StronglySorted before (l1 ++ m :: l2) → members (l1 ++ l2) = delete (key m) (members (l1 ++ m :: l2)).
Proof.
  intros Hs. rewrite members_insert by done. rewrite delete_insert_id; [done|].
  apply lookup_members_none. pose proof (sorted_nodup _ Hs) as Hn.
  rewrite fmap_app, fmap_cons in Hn. rewrite fmap_app. apply NoDup_app in Hn as (_ & H1 & H2).
  apply NoDup_cons in H2 as [H2 _]. rewrite elem_of_app. intros [H|H]; [|done]. by apply (H1 _ H), list_elem_of_here.
Qed.

(** What [add_member] finds: the members in front of the new one, and those behind. *)
Lemma add_scan_found member n l i :
  n = i + Z.of_nat (length l) → contains (server_ member) l = false →
  ∃ l1 l2, l = l1 ++ l2 ∧ add_scan member n l i n = (OB_SUCCESS, i + Z.of_nat (length l1)) ∧
    Forall (λ m, member_ltb member m = false) l1 ∧ (∀ m, head l2 = Some m → member_ltb member m = true).
Proof.
  assert (∀ l i dst, n ≠ dst → contains (server_ member) l = false → add_scan member n l i dst = (OB_SUCCESS, dst)) as Hrest.
  { clear. intros l. induction l as [|m l IH]; simpl; intros i dst Hn Hc; [done|].
    apply orb_false_iff in Hc as [-> Hc]. rewrite (proj2 (Z.eqb_neq _ _) Hn). simpl. by apply IH. }
  revert i. induction l as [|m l IH]; intros i Hn Hc.
  - exists [], []. simpl in *. split_and!; [done| |done|done]. f_equal. lia.
  - pose proof Hc as Hc0. simpl in Hc. apply orb_false_iff in Hc as [Hc1 Hc].
    cbn [add_scan]. rewrite Hc1, Z.eqb_refl. cbn [andb]. cbn [length] in Hn. destruct (member_ltb member m) eqn:El.
    + exists [], (m :: l). split_and!; [done| |done|intros m0 [= <-]; done].
      rewrite Hrest by (done || lia). f_equal. simpl. lia.
    + destruct (IH (i + 1)) as (l1 & l2 & -> & E & H1 & H2); [lia|done|].
      exists (m :: l1), l2. split_and!; [done| |by constructor|done]. rewrite E. f_equal. cbn [length]. lia.
Qed.

Lemma add_scan_there member n l i dst : contains (server_ member) l = true → fst (add_scan member n l i dst) = OB_ENTRY_EXIST.
Proof.
  revert i dst. induction l as [|m l IH]; simpl; intros i dst Hc; [done|].
  destruct (addr_eqb (server_ m) (server_ member)); [done|]. simpl in Hc. by destruct ((n =? dst) && member_ltb member m); apply IH.
Qed.

Lemma not_before m m' :
  wf_addr (server_ m) → wf_addr (server_ m') → key m ≠ key m' → member_ltb m m' = false → before m' m.
Proof.
  intros Hm Hm' Hk Hl. unfold member_ltb in Hl. unfold before, key in *.
  assert (¬ lex (code (server_ m)) (code (server_ m')) < 0) by (rewrite <- addr_ltb_code, Hl; done).
  assert (addr_eqb (server_ m) (server_ m') = false) as He.
  { apply not_true_iff_false. by rewrite addr_eqb_code. }
  unfold addr_eqb in He. rewrite compare_code in He by done. rewrite lex_flip. bool_to_prop. lia.
Qed.

Lemma before_trans m1 m2 m3 :
  wf_addr (server_ m1) → wf_addr (server_ m2) → wf_addr (server_ m3) → before m1 m2 → before m2 m3 → before m1 m3.
Proof. unfold before. intros ????. intros. eapply code_lex_trans; [..|done|]; [done..|]. unfold key in *. lia. Qed.

Lemma insert_sorted member l1 l2 :
  StronglySorted before (l1 ++ l2) → Forall (λ m, wf_addr (server_ m)) (l1 ++ l2) → wf_addr (server_ member) →
  key member ∉ key <$> (l1 ++ l2) →
  Forall (λ m, member_ltb member m = false) l1 → (∀ m, head l2 = Some m → member_ltb member m = true) →
  StronglySorted before (l1 ++ member :: l2).
Proof.
  intros Hs Hv Hm Hk H1 H2. rewrite Forall_forall in Hv, H1.
  apply StronglySorted_app in Hs as (Hs12 & Hs1 & Hs2).
  assert (Forall (before member) l2) as H3.
  { destruct l2 as [|m2 l2]; [done|]. assert (before member m2) as Hb.
    { unfold before. apply addr_ltb_code; [done|apply Hv; set_solver|]. by apply (H2 m2). }
    apply StronglySorted_cons in Hs2 as [Hf _]. constructor; [done|]. rewrite Forall_forall in *. intros m Hin.
    apply (before_trans _ m2); [done|apply Hv; set_solver|apply Hv; set_solver|done|by apply Hf]. }
  rewrite StronglySorted_app, StronglySorted_cons. split_and!; [|done|done|done].
  assert (∀ x, x ∈ l1 → before x member) as H4.
  { intros x Hx. apply not_before; [done|apply Hv; set_solver| |by apply H1].
    intros E. apply Hk. rewrite E. apply list_elem_of_fmap_2. set_solver. }
  intros x y Hx [->|Hy]%elem_of_cons; [by apply H4|]. by apply Hs12.
Qed.

Lemma find_server_split server l i :
  contains server l = true →
  ∃ l1 m l2, l = l1 ++ m :: l2 ∧ find_server server l i = i + Z.of_nat (length l1) ∧ addr_eqb (server_ m) server = true.
Proof.
  revert i. induction l as [|m l IH]; intros i Hc; [done|]. cbn [find_server]. simpl in Hc.
  destruct (addr_eqb (server_ m) server) eqn:E.
  - exists [], m, l. split_and!; [done|simpl; lia|done].
  - destruct (IH (i + 1) Hc) as (l1 & m' & l2 & -> & -> & ?). exists (m :: l1), m', l2.
    split_and!; [done|cbn [length]; lia|done].
Qed.

Lemma find_server_none server l i : contains server l = false → find_server server l i = OB_INVALID_INDEX.
Proof.
  revert i. induction l as [|m l IH]; intros i Hc; [done|]. simpl in Hc. apply orb_false_iff in Hc as [E Hc].
  simpl. rewrite E. by apply IH.
Qed.

Lemma shift_out_split l1 m l2 : shift_out (0 + Z.of_nat (length l1)) (l1 ++ m :: l2) = l1 ++ l2.
Proof.
  unfold shift_out. rewrite Z.add_0_l, Nat2Z.id, take_app_length. f_equal.
  replace (S (length l1)) with (length l1 + 1)%nat by lia. by rewrite <- drop_drop, drop_app_length.
Qed.

Lemma wf_remove l1 m l2 : wf (l1 ++ m :: l2) → wf (l1 ++ l2).
Proof.
  intros [Hs Hv Hc]. split; [by eapply sorted_remove| |].
  - apply Forall_app in Hv as [? Hv]. apply Forall_cons in Hv as [_ ?]. by apply Forall_app.
  - unfold get_member_number in *. rewrite length_app in *. cbn [length] in Hc. lia.
Qed.

Lemma wf_insert member l1 l2 :
  wf (l1 ++ l2) → wf_addr (server_ member) → member_is_valid member = true →
  get_member_number (l1 ++ l2) < OB_MAX_MEMBER_NUMBER → StronglySorted before (l1 ++ member :: l2) →
  wf (l1 ++ member :: l2).
Proof.
  intros [_ Hv _] Hm Hmv Hc Hs. split; [done| |].
  - apply Forall_app in Hv as [? ?]. apply Forall_app. split; [done|]. by constructor.
  - unfold get_member_number in *. rewrite length_app in *. cbn [length]. lia.
Qed.

Lemma contains_members server ml :
  wf ml → wf_addr server → contains server ml = bool_decide (is_Some (members ml !! code server)).
Proof.
  intros Hw Hs. apply Bool.eq_iff_eq_true. rewrite contains_key, bool_decide_eq_true by done.
  rewrite <- not_eq_None_Some, lookup_members_none. split; [naive_solver|]. intros H.
  destruct (decide (code server ∈ key <$> ml)); [done|]. by destruct H.
Qed.

(** A member with the address of [server] in a list that contains it. *)
Lemma members_at server l1 m l2 :
  wf (l1 ++ m :: l2) → wf_addr server → addr_eqb (server_ m) server = true →
  key m = code server ∧ members (l1 ++ m :: l2) !! code server = Some m.
Proof.
  intros Hw Hs He. pose proof Hw as [_ Hv _]. apply Forall_app in Hv as [_ Hv]. apply Forall_cons in Hv as [[Hm _] _].
  apply addr_eqb_code in He; [|done|done]. split; [done|]. apply lookup_members; [done|]. split; [set_solver|done].
Qed.

(** What a change of the list does to the map of its members. *)
Lemma add_member_spec member ml :
  wf ml → wf_addr (server_ member) →
  let '(rc, ml') := add_member member ml in
  wf ml' ∧
  rc = (if negb (member_is_valid member) then OB_INVALID_ARGUMENT
        else if OB_MAX_MEMBER_NUMBER <=? Z.of_nat (size (members ml)) then OB_SIZE_OVERFLOW
        else if members ml !! key member then OB_ENTRY_EXIST else OB_SUCCESS) ∧
  members ml' = if ob_failed rc then members ml else <[key member := member]> (members ml).
Proof.
  intros Hw Hm. rewrite size_members by done. unfold add_member. destruct (member_is_valid member) eqn:Ev; [|done]. cbn [negb].
  destruct (Z.leb_spec OB_MAX_MEMBER_NUMBER (get_member_number ml)) as [|Hc]; [done|].
  destruct (contains (server_ member) ml) eqn:Ec.
  - pose proof (add_scan_there member (get_member_number ml) ml 0 (get_member_number ml) Ec) as Ea.
    destruct (add_scan _ _ _ _ _) as [rc dst]. simpl in Ea. subst rc.
    rewrite contains_members in Ec by done. apply bool_decide_eq_true in Ec as [m0 Em]. unfold key. by rewrite Em.
  - destruct (add_scan_found member (get_member_number ml) ml 0) as (l1 & l2 & -> & E & H1 & H2); [done|done|].
    rewrite E, Z.add_0_l. cbn [ob_failed Z.eqb negb]. rewrite Nat2Z.id, take_app_length, drop_app_length.
    assert (members (l1 ++ l2) !! key member = None) as En.
    { rewrite contains_members in Ec by done. apply bool_decide_eq_false in Ec. by apply eq_None_not_Some. }
    rewrite En. pose proof Hw as [Hs Hv _].
    assert (StronglySorted before (l1 ++ member :: l2)) as Hs'.
    { apply insert_sorted; [done| |done|by apply lookup_members_none|done|done].
      eapply Forall_impl; [exact Hv|]. by intros m [? _]. }
    split_and!; [by apply wf_insert|done|by rewrite members_insert].
Qed.

Lemma nonempty_number m l1 l2 : (get_member_number (l1 ++ m :: l2) <=? 0) = false.
Proof. apply Z.leb_gt. unfold get_member_number. rewrite length_app. cbn [length]. lia. Qed.

Lemma remove_server_spec server ml :
  wf ml → wf_addr server →
  let '(rc, ml') := remove_server server ml in
  wf ml' ∧
  rc = (if negb (addr_is_valid server) then OB_INVALID_ARGUMENT
        else if members ml !! code server then OB_SUCCESS else OB_ENTRY_NOT_EXIST) ∧
  members ml' = if ob_failed rc then members ml else delete (code server) (members ml).
Proof.
  intros Hw Hs. unfold remove_server. destruct (addr_is_valid server); [|done]. cbn [negb].
  destruct (contains server ml) eqn:Ec.
  - destruct (find_server_split server ml 0 Ec) as (l1 & m & l2 & -> & -> & He).
    destruct (members_at server l1 m l2 Hw Hs He) as [<- ->]. rewrite nonempty_number.
    destruct (Z.eqb_spec (0 + Z.of_nat (length l1)) OB_INVALID_INDEX); [unfold OB_INVALID_INDEX in *; lia|].
    rewrite shift_out_split. cbn [ob_failed Z.eqb negb].
    split_and!; [by eapply wf_remove|done|]. apply members_delete, Hw.
  - rewrite find_server_none by done. rewrite contains_members in Ec by done. apply bool_decide_eq_false in Ec.
    rewrite (proj2 (eq_None_not_Some _) Ec). by destruct (get_member_number ml <=? 0).
Qed.

(** Without one server, a list of at most [n] is smaller than two majorities of [n]. *)
Lemma remove_self ml n self followers :
  wf ml → get_member_number ml ≤ n → wf_addr self → addr_is_valid self = true →
  remove_server self ml = (OB_SUCCESS, followers) →
  wf followers ∧ contains self followers = false ∧ get_member_number followers + 1 < 2 * (Z.quot n 2 + 1).
Proof.
  intros Hw Hn Hs Hv E. pose proof (remove_server_spec self ml Hw Hs) as Hr. rewrite E, Hv in Hr. cbn [negb] in Hr.
  destruct Hr as (Hw' & Hin & Hm). change (ob_failed OB_SUCCESS) with false in Hm. cbn iota in Hm.
  split_and!; [done| |].
  - rewrite contains_members, Hm by done. apply bool_decide_eq_false. rewrite lookup_delete_eq. by intros [].
  - rewrite <- size_members in Hn |- * by done. rewrite Hm.
    revert Hin. destruct (members ml !! code self) as [m|] eqn:Ei; intros Hin; [|discriminate].
    pose proof (map_size_delete_Some (code self) (members ml) (mk_is_Some _ _ Ei)) as Hsz.
    assert (size (members ml) ≠ 0%nat) by (apply map_size_non_empty_iff; intros E0; by rewrite E0 in Ei).
    pose proof (Z.quot_rem n 2). pose proof (Z.rem_bound_pos n 2). lia.
Qed.

(** ** Majorities meet *)
Lemma sets_meet (X Y U : gset (list Z)) : X ⊆ U → Y ⊆ U → (size U < size X + size Y)%nat → ∃ c, c ∈ X ∧ c ∈ Y.
Proof.
  intros HX HY Hs. destruct (set_choose_or_empty (X ∩ Y)) as [[c Hc]|He].
  - exists c. by apply elem_of_intersection.
  - exfalso. assert (X ## Y) as Hd by (intros c H1 H2; apply (not_elem_of_empty (C := gset (list Z)) c), He; by apply elem_of_intersection).
    rewrite <- size_union in Hs by done. assert (X ∪ Y ⊆ U) as Hu by (by apply union_subseteq). apply subseteq_size in Hu. lia.
Qed.

(** A server and its followers. *)
Definition group_of (self : ObAddr) ml : gset (list Z) := {[code self]} ∪ dom (members ml).

Lemma majorities_meet (self : ObAddr) ml (n : Z) (X Y : gset (list Z)) :
  wf ml → get_member_number ml + 1 < 2 * n → X ⊆ group_of self ml → Y ⊆ group_of self ml →
  n ≤ Z.of_nat (size X) → n ≤ Z.of_nat (size Y) → ∃ c, c ∈ X ∧ c ∈ Y.
Proof.
  intros Hw Hn HX HY Hx Hy. apply (sets_meet X Y (group_of self ml)); [done|done|]. unfold group_of.
  rewrite <- size_members, <- size_dom in Hn by done. rewrite size_union_alt, size_singleton.
  assert (dom (members ml) ∖ {[code self]} ⊆ dom (members ml)) as Hu%subseteq_size by apply subseteq_difference_l, reflexivity. lia.
Qed.

Lemma remove_member_scan_split member l i :
  contains (server_ member) l = true →
  ∃ l1 m l2, l = l1 ++ m :: l2 ∧ addr_eqb (server_ m) (server_ member) = true ∧
    remove_member_scan member l i =
      if member_eqb m member then (OB_SUCCESS, i + Z.of_nat (length l1)) else (OB_ITEM_NOT_MATCH, OB_INVALID_INDEX).
Proof.
  revert i. induction l as [|m l IH]; intros i Hc; [done|]. cbn [remove_member_scan]. simpl in Hc.
  destruct (addr_eqb (server_ m) (server_ member)) eqn:E.
  - exists [], m, l. split_and!; [done|done|]. simpl. rewrite Z.add_0_r. by destruct (member_eqb m member).
  - destruct (IH (i + 1) Hc) as (l1 & m' & l2 & -> & ? & ->). exists (m :: l1), m', l2.
    split_and!; [done|done|]. unfold member_eqb at 1. rewrite E. cbn [andb]. cbn [length].
    replace (i + 1 + Z.of_nat (length l1)) with (i + Z.of_nat (S (length l1))) by lia. done.
Qed.

Lemma remove_member_scan_none member l i :
  contains (server_ member) l = false → remove_member_scan member l i = (OB_ENTRY_NOT_EXIST, OB_INVALID_INDEX).
Proof.
  revert i. induction l as [|m l IH]; intros i Hc; [done|]. simpl in Hc. apply orb_false_iff in Hc as [E Hc].
  cbn [remove_member_scan]. unfold member_eqb. rewrite E. by apply IH.
Qed.

Lemma remove_member_spec member ml :
  wf ml → wf_addr (server_ member) →
  let '(rc, ml') := remove_member member ml in
  wf ml' ∧
  rc = (if negb (member_is_valid member) then OB_INVALID_ARGUMENT
        else match members ml !! key member with
             | None => OB_ENTRY_NOT_EXIST
             | Some m => if member_eqb m member then OB_SUCCESS else OB_ITEM_NOT_MATCH
             end) ∧
  members ml' = if ob_failed rc then members ml else delete (key member) (members ml).
Proof.
  intros Hw Hs. unfold remove_member. destruct (member_is_valid member); [|done]. cbn [negb].
  destruct (contains (server_ member) ml) eqn:Ec.
  - destruct (remove_member_scan_split member ml 0 Ec) as (l1 & m & l2 & -> & He & ->).
    destruct (members_at _ l1 m l2 Hw Hs He) as [Ek Hl]. unfold key. rewrite Hl, nonempty_number.
    destruct (member_eqb m member); [|done]. rewrite shift_out_split. cbn [ob_failed Z.eqb negb].
    split_and!; [by eapply wf_remove|done|]. rewrite <- Ek. apply members_delete, Hw.
  - rewrite remove_member_scan_none by done. rewrite contains_members in Ec by done. apply bool_decide_eq_false in Ec.
    unfold key. rewrite (proj2 (eq_None_not_Some _) Ec). by destruct (get_member_number ml <=? 0).
Qed.

Lemma member_addr_equal_spec ml ml' :
  wf ml → wf ml' → member_addr_equal ml' ml = true ↔ dom (members ml) = dom (members ml').
Proof.
  intros Hw Hw'. unfold member_addr_equal. rewrite <- !size_members, <- !size_dom by done.
  pose proof Hw as [_ Hv _]. rewrite Forall_forall in Hv.
  assert (forallb (λ m, contains (server_ m) ml') ml = true ↔ dom (members ml) ⊆ dom (members ml')) as Hf.
  { rewrite forallb_forall. split.
    - intros H k [m Hm]%elem_of_dom. apply lookup_members in Hm as [Hin <-]; [|done].
      apply elem_of_dom. specialize (H m (proj1 (list_elem_of_In _ _) Hin)).
      rewrite contains_members in H; [by apply bool_decide_eq_true in H|done|by apply Hv].
    - intros H m Hin%list_elem_of_In. rewrite contains_members; [|done|by apply Hv]. apply bool_decide_eq_true, elem_of_dom, H.
      apply elem_of_dom. exists m. by apply lookup_members. }
  destruct (Z.eqb_spec (Z.of_nat (size (dom (members ml)))) (Z.of_nat (size (dom (members ml'))))) as [E|E]; cbn [negb].
  - rewrite Hf. split; [|by intros ->]. intros Hsub. apply leibniz_equiv. apply set_subseteq_size_equiv; [done|lia].
  - split; [done|]. intros Hd. rewrite Hd in E. lia.
Qed.

Lemma members_canonical ml ml' : wf ml → wf ml' → members ml = members ml' → ml = ml'.
Proof.
  intros Hw Hw' E. pose proof Hw as [Hs _ _]. pose proof Hw' as [Hs' _ _].
  apply (StronglySorted_unique_strong before); [|done|done|].
  - intros m m' _ _ H1 H2. exfalso. unfold before in *. rewrite lex_flip in H2. lia.
  - apply NoDup_Permutation; [by apply NoDup_fmap_1 with key, sorted_nodup|by apply NoDup_fmap_1 with key, sorted_nodup|].
    intros m. split; intros Hin; [apply (lookup_members ml' (key m) m Hw')|apply (lookup_members ml (key m) m Hw)];
      [rewrite <- E|rewrite E]; by apply lookup_members.
Qed.

(** C30. A member list is a finite map from addresses to members of at most seven
    entries, kept as a sorted array: adding and removing have the effect on the map
    and the error code that the map determines, an error changes nothing, the tests
    are those of the map, and equal maps are equal arrays. *)
Theorem member_list_refines_map ml ml' member server :
  wf ml → wf ml' → wf_addr (server_ member) → wf_addr server →
  (let '(rc, r) := add_member member ml in
   wf r ∧
   rc = (if negb (member_is_valid member) then OB_INVALID_ARGUMENT
         else if OB_MAX_MEMBER_NUMBER <=? Z.of_nat (size (members ml)) then OB_SIZE_OVERFLOW
         else if members ml !! key member then OB_ENTRY_EXIST else OB_SUCCESS) ∧
   members r = if ob_failed rc then members ml else <[key member := member]> (members ml)) ∧
  (let '(rc, r) := remove_member member ml in
   wf r ∧
   rc = (if negb (member_is_valid member) then OB_INVALID_ARGUMENT
         else match members ml !! key member with
              | None => OB_ENTRY_NOT_EXIST
              | Some m => if member_eqb m member then OB_SUCCESS else OB_ITEM_NOT_MATCH
              end) ∧
   members r = if ob_failed rc then members ml else delete (key member) (members ml)) ∧
  (let '(rc, r) := remove_server server ml in
   wf r ∧
   rc = (if negb (addr_is_valid server) then OB_INVALID_ARGUMENT
         else if members ml !! code server then OB_SUCCESS else OB_ENTRY_NOT_EXIST) ∧
   members r = if ob_failed rc then members ml else delete (code server) (members ml)) ∧
  contains server ml = bool_decide (is_Some (members ml !! code server)) ∧
  get_member_number ml = Z.of_nat (size (members ml)) ∧
  (member_addr_equal ml' ml = true ↔ dom (members ml) = dom (members ml')) ∧
  (members ml = members ml' → ml = ml').
Proof.
  intros Hw Hw' Hm Hs. split_and!; [by apply add_member_spec|by apply remove_member_spec|by apply remove_server_spec|
    by apply contains_members|by rewrite size_members|by apply member_addr_equal_spec|by apply members_canonical].
Qed.

Definition ipv4 (a b c d port : Z) : ObAddr := mkAddr IPV4 ([a; b; c; d] ++ replicate 12 0) port.
Definition two_servers : ObMemberList :=
  [new_member (ipv4 10 0 0 1 2882) 5; new_member (ipv4 10 0 0 2 2882) 6].

Lemma two_servers_wf : wf two_servers.
Proof. split; [repeat constructor; by vm_compute|repeat constructor; by vm_compute|by vm_compute]. Qed.

Lemma member_list_refines_map_witness :
  add_member (new_member (ipv4 10 0 0 3 2882) 7) two_servers =
    (OB_SUCCESS, two_servers ++ [new_member (ipv4 10 0 0 3 2882) 7]) ∧
  contains (ipv4 10 0 0 2 2882) two_servers =
    bool_decide (is_Some (members two_servers !! code (ipv4 10 0 0 2 2882))).
Proof.
  split; [by vm_compute|].
  apply (member_list_refines_map two_servers two_servers (new_member (ipv4 10 0 0 3 2882) 7));
    [apply two_servers_wf|apply two_servers_wf|by vm_compute|by vm_compute].
Defined.

(** The comparison does not look at the path of a [UNIX] address: two servers with
    different paths count as one, and the second cannot be added to a list. *)
Theorem unix_paths_not_compared port :
  let a := mkAddr UNIX ([47; 97] ++ replicate 14 0) port in
  let b := mkAddr UNIX ([47; 98] ++ replicate 14 0) port in
  a ≠ b ∧ addr_is_valid a = true ∧ addr_is_valid b = true ∧ addr_eqb a b = true ∧
  fst (add_server b (snd (add_server a []))) = OB_ENTRY_EXIST.
Proof.
  assert (∀ x y, addr_eqb (mkAddr UNIX x port) (mkAddr UNIX y port) = true) as He.
  { intros x y. unfold addr_eqb, compare_refactored. cbn [version_ ver_val port_]. rewrite Z.eqb_refl. cbn [negb Z.eqb].
    by rewrite Z.sub_diag. }
  cbv zeta. split_and!; [intros E; by apply (f_equal (λ x, nth 1 (ip_ x) 0)) in E|done|done|apply He|].
  set (a := mkAddr UNIX ([47; 97] ++ _) port). set (b := mkAddr UNIX ([47; 98] ++ _) port).
  change (snd (add_server a [])) with [new_member a OB_INVALID_TIMESTAMP].
  unfold add_server, add_member. change (member_is_valid _) with true. change (get_member_number _) with 1.
  change (OB_MAX_MEMBER_NUMBER <=? 1) with false. cbn [negb].
  pose proof (add_scan_there (new_member b OB_INVALID_TIMESTAMP) 1 [new_member a OB_INVALID_TIMESTAMP] 0 1) as Hs.
  destruct (add_scan _ _ _ _ _) as [rc dst]. simpl in Hs. rewrite Hs; [done|]. unfold a, b. by rewrite He.
Qed.
End MemberList.
