(* ===== verification/LogStateMgr.v ===== *)
(** [LogStateMgr] of [src/logservice/palf/log_state_mgr.cpp]: the role and the state of
    a replica (follower or leader; init, active, reconfirm or pending), the proposal id
    it has promised to, and the loop that moves it between the states.

    The objects it calls (the sliding window, the election, the log engine and others)
    are the interface [Peers]; a method of theirs is a function of their common state.
    The clock is one of them.  Logging, events and warning timers have no
    counterpart. *)
From S2P Require Import Prelude Lsn MemberList.
Import MemberList.

Module LogStateMgr.

(** ** Roles and states *)
Inductive ObRole : Set := INVALID_ROLE | LEADER | FOLLOWER | STANDBY_LEADER | RESTORE_LEADER.
Inductive ObReplicaState : Set := INVALID_STATE | INIT | ACTIVE | RECONFIRM | PENDING.
#[export] Instance role_eq_dec : EqDecision ObRole := ltac:(solve_decision).
#[export] Instance replica_state_eq_dec : EqDecision ObReplicaState := ltac:(solve_decision).
Definition role_val (r : ObRole) : Z :=
  match r with INVALID_ROLE => 0 | LEADER => 1 | FOLLOWER => 2 | STANDBY_LEADER => 3 | RESTORE_LEADER => 4 end.
Definition state_val (s : ObReplicaState) : Z :=
  match s with INVALID_STATE => 0 | INIT => 1 | ACTIVE => 2 | RECONFIRM => 3 | PENDING => 4 end.
Definition UNION_ROLE_VAL_MASK : Z := Z.shiftl 1 32 - 1.

Inductive LogReplicaType : Set := INVALID_REPLICA | NORMAL_REPLICA | ARBITRATION_REPLICA.

Definition PALF_LEADER_RECONFIRM_SYNC_TIMEOUT_US : Z := 10 * 1000 * 1000.
Definition PALF_FETCH_LOG_INTERVAL_US : Z := 2 * 1000 * 1000.
Definition PALF_BROADCAST_LEADER_INFO_INTERVAL_US : Z := 5 * 1000 * 1000.
Definition OB_INVALID_ID : Z := UINT64_MAX.

(** ** The objects around it *)
Class Peers (P : Type) : Type := {
  current_time : P → Z;
  get_current_leader_likely : P → Z * (ObAddr * Z);
  sw_to_leader_reconfirm : P → Z * P;
  sw_clean_log : P → Z * P;
  sw_to_leader_active : P → Z * P;
  sw_to_follower_pending : P → Z * Lsn.LSN * P;
  sw_get_last_slide_end_lsn : P → Z * Lsn.LSN;
  sw_get_start_id : P → Z;
  sw_is_empty : P → bool;
  sw_try_fetch_log : P → Z * P;
  reconfirm_reset_state : P → P;
  reconfirm_reconfirm : P → Z * P;
  reconfirm_need_wlock : P → bool;
  reconfirm_can_receive_log : P → bool;
  mm_reset_status : P → P;
  mm_get_config_version : P → Z;
  mm_submit_broadcast_leader_info : Z → P → Z * P;
  mode_reset_status : P → P;
  mode_can_append : P → bool;
  mode_can_raw_write : P → bool;
  mode_can_receive_log : P → bool;
  on_role_change : P → Z * P;
  submit_flush_prepare_meta_task : Z → P → Z * P;
  submit_prepare_meta_resp : ObAddr → Z → bool → P → Z * P
}.

Section state_mgr.
Context {P : Type} `{Peers P}.

(** [role_state_val_] is the union of [role_] (low half) and [state_] (high half);
    [log_proposal_id_] is that of [prepare_meta_]. *)
Record LogStateMgr : Type := mkMgr {
  is_inited_ : bool;
  self_ : ObAddr;
  log_proposal_id_ : Z;
  role_state_val_ : Z;
  leader_ : ObAddr;
  leader_epoch_ : Z;
  last_check_start_id_ : Z;
  last_check_start_id_time_us_ : Z;
  reconfirm_start_time_us_ : Z;
  pending_end_lsn_ : Lsn.LSN;
  scan_disk_log_finished_ : bool;
  is_sync_enabled_ : bool;
  allow_vote_ : bool;
  allow_vote_persisted_ : bool;
  replica_type_ : LogReplicaType;
  is_changing_config_with_arb_ : bool;
  last_set_changing_config_with_arb_time_us_ : Z;
  broadcast_leader_ : ObAddr;
  last_recv_leader_broadcast_time_us_ : Z;
  peers : P
}.
Implicit Types m : LogStateMgr.
Abbreviation S := LogStateMgr.

Definition set_peers (p : P) m : S :=
  mkMgr (is_inited_ m) (self_ m) (log_proposal_id_ m) (role_state_val_ m) (leader_ m) (leader_epoch_ m)
    (last_check_start_id_ m) (last_check_start_id_time_us_ m) (reconfirm_start_time_us_ m) (pending_end_lsn_ m)
    (scan_disk_log_finished_ m) (is_sync_enabled_ m) (allow_vote_ m) (allow_vote_persisted_ m) (replica_type_ m)
    (is_changing_config_with_arb_ m) (last_set_changing_config_with_arb_time_us_ m) (broadcast_leader_ m)
    (last_recv_leader_broadcast_time_us_ m) p.
Definition set_proposal (pid : Z) m : S :=
  mkMgr (is_inited_ m) (self_ m) pid (role_state_val_ m) (leader_ m) (leader_epoch_ m)
    (last_check_start_id_ m) (last_check_start_id_time_us_ m) (reconfirm_start_time_us_ m) (pending_end_lsn_ m)
    (scan_disk_log_finished_ m) (is_sync_enabled_ m) (allow_vote_ m) (allow_vote_persisted_ m) (replica_type_ m)
    (is_changing_config_with_arb_ m) (last_set_changing_config_with_arb_time_us_ m) (broadcast_leader_ m)
    (last_recv_leader_broadcast_time_us_ m) (peers m).
Definition set_word (v : Z) m : S :=
  mkMgr (is_inited_ m) (self_ m) (log_proposal_id_ m) v (leader_ m) (leader_epoch_ m)
    (last_check_start_id_ m) (last_check_start_id_time_us_ m) (reconfirm_start_time_us_ m) (pending_end_lsn_ m)
    (scan_disk_log_finished_ m) (is_sync_enabled_ m) (allow_vote_ m) (allow_vote_persisted_ m) (replica_type_ m)
    (is_changing_config_with_arb_ m) (last_set_changing_config_with_arb_time_us_ m) (broadcast_leader_ m)
    (last_recv_leader_broadcast_time_us_ m) (peers m).
Definition set_leader_and_epoch_ (l : ObAddr) (e : Z) m : S :=
  mkMgr (is_inited_ m) (self_ m) (log_proposal_id_ m) (role_state_val_ m) l e
    (last_check_start_id_ m) (last_check_start_id_time_us_ m) (reconfirm_start_time_us_ m) (pending_end_lsn_ m)
    (scan_disk_log_finished_ m) (is_sync_enabled_ m) (allow_vote_ m) (allow_vote_persisted_ m) (replica_type_ m)
    (is_changing_config_with_arb_ m) (last_set_changing_config_with_arb_time_us_ m) (broadcast_leader_ m)
    (last_recv_leader_broadcast_time_us_ m) (peers m).
Definition set_check (id time : Z) m : S :=
  mkMgr (is_inited_ m) (self_ m) (log_proposal_id_ m) (role_state_val_ m) (leader_ m) (leader_epoch_ m)
    id time (reconfirm_start_time_us_ m) (pending_end_lsn_ m)
    (scan_disk_log_finished_ m) (is_sync_enabled_ m) (allow_vote_ m) (allow_vote_persisted_ m) (replica_type_ m)
    (is_changing_config_with_arb_ m) (last_set_changing_config_with_arb_time_us_ m) (broadcast_leader_ m)
    (last_recv_leader_broadcast_time_us_ m) (peers m).
Definition set_reconfirm_start (t : Z) m : S :=
  mkMgr (is_inited_ m) (self_ m) (log_proposal_id_ m) (role_state_val_ m) (leader_ m) (leader_epoch_ m)
    (last_check_start_id_ m) (last_check_start_id_time_us_ m) t (pending_end_lsn_ m)
    (scan_disk_log_finished_ m) (is_sync_enabled_ m) (allow_vote_ m) (allow_vote_persisted_ m) (replica_type_ m)
    (is_changing_config_with_arb_ m) (last_set_changing_config_with_arb_time_us_ m) (broadcast_leader_ m)
    (last_recv_leader_broadcast_time_us_ m) (peers m).
Definition set_pending_end (l : Lsn.LSN) m : S :=
  mkMgr (is_inited_ m) (self_ m) (log_proposal_id_ m) (role_state_val_ m) (leader_ m) (leader_epoch_ m)
    (last_check_start_id_ m) (last_check_start_id_time_us_ m) (reconfirm_start_time_us_ m) l
    (scan_disk_log_finished_ m) (is_sync_enabled_ m) (allow_vote_ m) (allow_vote_persisted_ m) (replica_type_ m)
    (is_changing_config_with_arb_ m) (last_set_changing_config_with_arb_time_us_ m) (broadcast_leader_ m)
    (last_recv_leader_broadcast_time_us_ m) (peers m).
Definition set_flags (scan sync vote persisted : bool) m : S :=
  mkMgr (is_inited_ m) (self_ m) (log_proposal_id_ m) (role_state_val_ m) (leader_ m) (leader_epoch_ m)
    (last_check_start_id_ m) (last_check_start_id_time_us_ m) (reconfirm_start_time_us_ m) (pending_end_lsn_ m)
    scan sync vote persisted (replica_type_ m)
    (is_changing_config_with_arb_ m) (last_set_changing_config_with_arb_time_us_ m) (broadcast_leader_ m)
    (last_recv_leader_broadcast_time_us_ m) (peers m).
Definition set_changing (b : bool) (t : Z) m : S :=
  mkMgr (is_inited_ m) (self_ m) (log_proposal_id_ m) (role_state_val_ m) (leader_ m) (leader_epoch_ m)
    (last_check_start_id_ m) (last_check_start_id_time_us_ m) (reconfirm_start_time_us_ m) (pending_end_lsn_ m)
    (scan_disk_log_finished_ m) (is_sync_enabled_ m) (allow_vote_ m) (allow_vote_persisted_ m) (replica_type_ m)
    b t (broadcast_leader_ m) (last_recv_leader_broadcast_time_us_ m) (peers m).
Definition set_broadcast (a : ObAddr) (t : Z) m : S :=
  mkMgr (is_inited_ m) (self_ m) (log_proposal_id_ m) (role_state_val_ m) (leader_ m) (leader_epoch_ m)
    (last_check_start_id_ m) (last_check_start_id_time_us_ m) (reconfirm_start_time_us_ m) (pending_end_lsn_ m)
    (scan_disk_log_finished_ m) (is_sync_enabled_ m) (allow_vote_ m) (allow_vote_persisted_ m) (replica_type_ m)
    (is_changing_config_with_arb_ m) (last_set_changing_config_with_arb_time_us_ m) a t (peers m).

(** A call of a peer, with its result or without. *)
Definition ask {A} (f : P → A * P) : M S A := fun m => let '(a, p) := f (peers m) in Some (a, set_peers p m).
Definition tell (f : P → P) : M S unit := modify (fun m => set_peers (f (peers m)) m).
Definition see {A} (f : P → A) : M S A := gets (fun m => f (peers m)).

(** ** Tests *)
Definition role_of m : Z := Z.land (role_state_val_ m) UNION_ROLE_VAL_MASK.
Definition state_of m : Z := Z.land (Z.shiftr (role_state_val_ m) 32) UNION_ROLE_VAL_MASK.
Definition check_role_and_state_ (role : ObRole) (state : ObReplicaState) m : bool :=
  if negb (role_of m =? role_val role) then false
  else if negb (state_of m =? state_val state) then false
  else true.
Definition update_role_and_state_ (new_role : ObRole) (new_state : ObReplicaState) m : S :=
  set_word (s64 (Z.shiftl (Z.land (state_val new_state) UNION_ROLE_VAL_MASK) 32
                 + Z.land (role_val new_role) UNION_ROLE_VAL_MASK)) m.
Definition is_follower_init_ m : bool := check_role_and_state_ FOLLOWER INIT m.
Definition is_follower_active_ m : bool := check_role_and_state_ FOLLOWER ACTIVE m.
Definition is_follower_pending_ m : bool := check_role_and_state_ FOLLOWER PENDING m.
Definition is_leader_reconfirm_ m : bool := check_role_and_state_ LEADER RECONFIRM m.
Definition is_leader_active_ m : bool := check_role_and_state_ LEADER ACTIVE m.
Definition role_is_leader m : bool := role_of m =? role_val LEADER.
Definition is_arb_replica m : bool := match replica_type_ m with ARBITRATION_REPLICA => true | _ => false end.
Definition get_proposal_id m : Z := log_proposal_id_ m.

Definition pid_ok (proposal_id : Z) (need_check_proposal_id : bool) m : bool :=
  (need_check_proposal_id && (proposal_id =? get_proposal_id m)) || Bool.eqb false need_check_proposal_id.
Definition can_append (proposal_id : Z) (need_check_proposal_id : bool) m : bool :=
  is_leader_active_ m && pid_ok proposal_id need_check_proposal_id m && mode_can_append (peers m).
Definition can_raw_write (proposal_id : Z) (need_check_proposal_id : bool) m : bool :=
  is_leader_active_ m && pid_ok proposal_id need_check_proposal_id m && mode_can_raw_write (peers m).
Definition can_slide_sw m : bool :=
  is_leader_reconfirm_ m || is_leader_active_ m || is_follower_active_ m || is_follower_init_ m || is_follower_pending_ m.
Definition can_revoke (proposal_id : Z) m : bool := is_leader_active_ m && (get_proposal_id m =? proposal_id).
Definition can_handle_prepare_response (proposal_id : Z) m : bool :=
  if proposal_id =? get_proposal_id m then is_leader_reconfirm_ m || is_leader_active_ m else false.
Definition can_handle_prepare_request (proposal_id : Z) m : bool :=
  if get_proposal_id m <? proposal_id
  then is_leader_active_ m || is_leader_reconfirm_ m || is_follower_active_ m || is_follower_pending_ m else false.
Definition can_handle_leader_broadcast (proposal_id : Z) m : bool :=
  if proposal_id =? get_proposal_id m then is_follower_active_ m else false.
Definition can_handle_committed_info (proposal_id : Z) m : bool :=
  if (proposal_id =? get_proposal_id m) && is_sync_enabled_ m then is_follower_active_ m || is_follower_pending_ m else false.
Definition is_reconfirm_can_receive_log_ m : bool := is_leader_reconfirm_ m && reconfirm_can_receive_log (peers m).
Definition can_receive_log (proposal_id : Z) m : bool :=
  if (proposal_id =? get_proposal_id m) && is_sync_enabled_ m && mode_can_receive_log (peers m)
  then is_follower_active_ m || is_follower_pending_ m || is_reconfirm_can_receive_log_ m else false.
Definition can_receive_config_log (proposal_id : Z) m : bool :=
  if proposal_id =? get_proposal_id m then is_follower_active_ m || is_follower_pending_ m || is_leader_reconfirm_ m else false.
Definition can_send_log_ack (proposal_id : Z) m : bool :=
  if negb (proposal_id =? get_proposal_id m) then false else is_follower_active_ m || is_follower_pending_ m.
Definition can_receive_log_ack (proposal_id : Z) m : bool :=
  if proposal_id =? get_proposal_id m then role_is_leader m && mode_can_receive_log (peers m) else false.
Definition can_truncate_log m : bool := is_follower_active_ m || is_follower_pending_ m.
Definition need_freeze_group_buffer m : bool := is_leader_active_ m.
Definition check_role_leader_and_state m : Z := if negb (check_role_and_state_ LEADER ACTIVE m) then OB_NOT_MASTER else OB_SUCCESS.

(** ** Who is leader *)
Definition get_elect_leader_ m : Z * option (ObAddr * Z) :=
  if negb (is_inited_ m) then (OB_NOT_INIT, None)
  else let '(rc, le) := get_current_leader_likely (peers m) in
       if ob_failed rc then (rc, None) else (rc, Some le).

(** The result and [new_leader]. *)
Definition need_update_leader_ m : bool * ObAddr :=
  match get_elect_leader_ m with
  | (_, None) => (addr_is_valid (leader_ m), no_addr)
  | (_, Some (new_leader, new_leader_epoch)) =>
      (negb (addr_eqb new_leader (leader_ m)) || negb (new_leader_epoch =? leader_epoch_ m), new_leader)
  end.
(** The result, [new_leader] and [new_leader_epoch]. *)
Definition follower_need_update_role_ m : bool * ObAddr * Z :=
  match get_elect_leader_ m with
  | (_, None) => (false, no_addr, OB_INVALID_TIMESTAMP)
  | (_, Some (new_leader, new_leader_epoch)) =>
      let b := addr_eqb (self_ m) new_leader in
      (if b && is_arb_replica m then false else b, new_leader, new_leader_epoch)
  end.
Definition need_reset_broadcast_leader_ m : bool :=
  addr_is_valid (broadcast_leader_ m) &&
  (2 * PALF_BROADCAST_LEADER_INFO_INTERVAL_US <? current_time (peers m) - last_recv_leader_broadcast_time_us_ m).
Definition reset_broadcast_leader_ m : S :=
  if need_reset_broadcast_leader_ m then set_broadcast no_addr (last_recv_leader_broadcast_time_us_ m) m else m.

(** ** Transitions *)
Definition reset_status_ : M S unit :=
  modify (fun m => set_changing false (last_set_changing_config_with_arb_time_us_ m)
                     (set_check (last_check_start_id_ m) OB_INVALID_TIMESTAMP
                        (set_leader_and_epoch_ no_addr OB_INVALID_TIMESTAMP m))) ;;;
  tell mm_reset_status ;;; tell mode_reset_status.
Definition init_to_follower_active_ : M S Z :=
  reset_status_ ;;; modify (update_role_and_state_ FOLLOWER ACTIVE) ;;; ret OB_SUCCESS.
Definition to_follower_active_ : M S Z := ask on_role_change.
Definition pending_to_follower_active_ : M S Z :=
  modify (update_role_and_state_ FOLLOWER ACTIVE) ;;; to_follower_active_.
Definition to_reconfirm_ (new_leader_epoch : Z) : M S Z :=
  chk! ask sw_to_leader_reconfirm else
    (let! now := see current_time in
     modify (set_reconfirm_start now) ;;;
     reset_status_ ;;;
     modify (update_role_and_state_ LEADER RECONFIRM) ;;;
     tell reconfirm_reset_state ;;;
     modify (fun m => set_leader_and_epoch_ (self_ m) new_leader_epoch m) ;;;
     ask sw_clean_log ;;;
     ret OB_SUCCESS).
Definition follower_active_to_reconfirm_ (new_leader_epoch : Z) : M S Z := to_reconfirm_ new_leader_epoch.
Definition follower_pending_to_reconfirm_ (new_leader_epoch : Z) : M S Z := to_reconfirm_ new_leader_epoch.
Definition to_follower_pending_ : M S Z :=
  let! r := ask (fun p => let '(rc, l, p) := sw_to_follower_pending p in ((rc, l), p)) in
  let '(rc, curr_end_lsn) := r in
  if ob_failed rc then ret rc else (modify (set_pending_end curr_end_lsn) ;;; ret OB_SUCCESS).
Definition reconfirm_to_follower_pending_ : M S Z :=
  chk! to_follower_pending_ else
    (reset_status_ ;;; modify (update_role_and_state_ FOLLOWER PENDING) ;;; ret OB_SUCCESS).
Definition to_leader_active_ : M S Z := ask on_role_change.
Definition reconfirm_to_leader_active_ : M S Z :=
  chk! see mm_get_config_version else
  chk! ask sw_to_leader_active else
    (modify (update_role_and_state_ LEADER ACTIVE) ;;;
     chk! to_leader_active_ else
     let! pid := gets get_proposal_id in ask (mm_submit_broadcast_leader_info pid)).
Definition leader_active_to_follower_pending_ : M S Z :=
  let! leader := gets role_is_leader in
  let! rc := (if leader then chk! to_follower_pending_ else (reset_status_ ;;; ret OB_SUCCESS)
              else ret OB_STATE_NOT_MATCH) in
  if ob_failed rc then ret rc else (modify (update_role_and_state_ FOLLOWER PENDING) ;;; ret OB_SUCCESS).

(** ** When to leave a state *)
Definition follower_init_need_switch_ m : bool := scan_disk_log_finished_ m.
Definition is_pending_log_clear_ m : bool :=
  if negb (Lsn.is_valid (pending_end_lsn_ m)) then false
  else let '(rc, last_slide_end_lsn) := sw_get_last_slide_end_lsn (peers m) in
       if ob_failed rc then false else Lsn.lsn_geb last_slide_end_lsn (pending_end_lsn_ m).
Definition follower_pending_need_switch_ m : bool := is_pending_log_clear_ m.
Definition follower_active_need_switch_ m : bool :=
  let '(need, new_leader) := need_update_leader_ m in
  if need then true
  else if addr_is_valid new_leader && addr_eqb (self_ m) new_leader then negb (is_arb_replica m)
  else false.
Definition is_reconfirm_timeout_ : M S bool :=
  let! m := get in
  let now_us := current_time (peers m) in
  let start_id := sw_get_start_id (peers m) in
  if (OB_INVALID_TIMESTAMP =? last_check_start_id_time_us_ m) || negb (last_check_start_id_ m =? start_id)
  then modify (set_check start_id now_us) ;;; ret false
  else ret (PALF_LEADER_RECONFIRM_SYNC_TIMEOUT_US <? now_us - last_check_start_id_time_us_ m).
Definition is_reconfirm_need_wlock_ m : bool := reconfirm_need_wlock (peers m).
(** The result and the code of [reconfirm]. *)
Definition is_reconfirm_state_changed_ : M S (bool * Z) :=
  let! rc := ask reconfirm_reconfirm in ret (negb (OB_EAGAIN =? rc), rc).
Definition leader_reconfirm_need_switch_ : M S bool :=
  let! m := get in
  if is_reconfirm_need_wlock_ m then ret true
  else
    let! timeout := is_reconfirm_timeout_ in
    if (timeout : bool) then ret true
    else
      let! r := is_reconfirm_state_changed_ in
      if (fst r : bool) then ret true else gets (fun m => fst (need_update_leader_ m)).
(** A log that is not synchronized in time is only reported. *)
Definition check_leader_log_sync_state_ : M S bool :=
  let! m := get in
  let start_id := sw_get_start_id (peers m) in
  let now_us := current_time (peers m) in
  if (OB_INVALID_TIMESTAMP =? last_check_start_id_time_us_ m) || negb (last_check_start_id_ m =? start_id)
  then modify (set_check start_id now_us) ;;; ret false
  else if sw_is_empty (peers m) then modify (set_check (last_check_start_id_ m) now_us) ;;; ret false
  else ret false.
Definition leader_active_need_switch_ : M S bool :=
  let! m := get in
  if fst (need_update_leader_ m) then ret true
  else if role_is_leader m then check_leader_log_sync_state_ else ret false.
Definition check_and_try_fetch_log_ : M S Z :=
  let! m := get in
  let now_us := current_time (peers m) in
  let start_id := sw_get_start_id (peers m) in
  if negb (is_sync_enabled_ m) then ret OB_SUCCESS
  else if (OB_INVALID_ID =? u64 (last_check_start_id_ m)) || (OB_INVALID_TIMESTAMP =? last_check_start_id_time_us_ m)
       || ((u64 (last_check_start_id_ m) =? u64 start_id)
           && (PALF_FETCH_LOG_INTERVAL_US <? now_us - last_check_start_id_time_us_ m))
  then chk! ask sw_try_fetch_log else (modify (set_check start_id now_us) ;;; ret OB_SUCCESS)
  else if negb (u64 (last_check_start_id_ m) =? u64 start_id) then modify (set_check start_id now_us) ;;; ret OB_SUCCESS
  else ret OB_SUCCESS.
Definition is_state_changed : M S bool :=
  let! m := get in
  if is_follower_init_ m then ret (follower_init_need_switch_ m)
  else if is_follower_active_ m then
    check_and_try_fetch_log_ ;;; gets (fun m => follower_active_need_switch_ m || need_reset_broadcast_leader_ m)
  else if is_follower_pending_ m then
    check_and_try_fetch_log_ ;;;
    gets (fun m => if follower_pending_need_switch_ m then true else fst (fst (follower_need_update_role_ m)))
  else if is_leader_reconfirm_ m then leader_reconfirm_need_switch_
  else if is_leader_active_ m then leader_active_need_switch_
  else ret false.

(** ** The loop *)

(** One round: the code and [need_next_loop]. *)
Definition switch_once : M S (Z * bool) :=
  let! m := get in
  if is_follower_init_ m then
    if follower_init_need_switch_ m then let! rc := init_to_follower_active_ in ret (rc, true) else ret (OB_SUCCESS, false)
  else if is_follower_pending_ m then
    if follower_pending_need_switch_ m then
      let! rc := pending_to_follower_active_ in
      let! next := gets follower_active_need_switch_ in ret (rc, next)
    else
      let '(update, _, new_leader_epoch) := follower_need_update_role_ m in
      if (update : bool) then let! rc := follower_pending_to_reconfirm_ new_leader_epoch in ret (rc, true)
      else ret (OB_SUCCESS, false)
  else if is_follower_active_ m then
    if follower_active_need_switch_ m then
      let '(update, new_leader, new_leader_epoch) := follower_need_update_role_ m in
      if (update : bool) then
        let! rc := follower_active_to_reconfirm_ new_leader_epoch in
        if ob_failed rc then ret (rc, true) else let! rc := reconfirm_to_leader_active_ in ret (rc, true)
      else (modify (set_leader_and_epoch_ new_leader new_leader_epoch) ;;; ret (OB_SUCCESS, true))
    else if need_reset_broadcast_leader_ m then modify reset_broadcast_leader_ ;;; ret (OB_SUCCESS, false)
    else ret (OB_SUCCESS, false)
  else if is_leader_reconfirm_ m then
    let! timeout := is_reconfirm_timeout_ in
    if (timeout : bool) then let! rc := reconfirm_to_follower_pending_ in ret (rc, false)
    else
      let! update := gets (fun m => fst (need_update_leader_ m)) in
      if (update : bool) then let! rc := reconfirm_to_follower_pending_ in ret (rc, false)
      else
        let! r := is_reconfirm_state_changed_ in
        let '(changed, rc) := r in
        if (changed : bool) then
          if ob_failed rc then let! rc := reconfirm_to_follower_pending_ in ret (rc, false)
          else let! rc := reconfirm_to_leader_active_ in ret (rc, false)
        else ret (rc, false)
  else if is_leader_active_ m then
    let! need := leader_active_need_switch_ in
    if (need : bool) then let! rc := leader_active_to_follower_pending_ in ret (rc, true) else ret (OB_SUCCESS, false)
  else ret (OB_SUCCESS, false).

Fixpoint switch_loop (fuel : nat) : M S Z :=
  match fuel with
  | O => fun _ => None
  | Datatypes.S fuel =>
      let! r := switch_once in
      let '(rc, need_next_loop) := r in
      if (need_next_loop : bool) && negb (ob_failed rc) then switch_loop fuel else ret rc
  end.
Definition switch_state (fuel : nat) : M S Z :=
  let! rc := switch_loop fuel in ret (if OB_EAGAIN =? rc then OB_SUCCESS else rc).

(** ** Proposal ids *)
Definition reject_prepare_request_ (server : ObAddr) (proposal_id : Z) : M S Z :=
  let! m := get in
  if negb (is_inited_ m) then ret OB_NOT_INIT
  else if negb (addr_is_valid server) || (Lsn.INVALID_PROPOSAL_ID =? proposal_id) then ret OB_INVALID_ARGUMENT
  else ask (submit_prepare_meta_resp server proposal_id false).
Definition write_prepare_meta_ (proposal_id : Z) (new_leader : ObAddr) : M S Z :=
  let! m := get in
  if negb (is_inited_ m) then ret OB_NOT_INIT
  else if (Lsn.INVALID_PROPOSAL_ID =? proposal_id) || negb (addr_is_valid new_leader) then ret OB_INVALID_ARGUMENT
  else chk! ask (submit_flush_prepare_meta_task proposal_id) else
         (modify (set_proposal proposal_id) ;;; ret OB_SUCCESS).
Definition handle_prepare_request (server : ObAddr) (proposal_id : Z) : M S Z :=
  let! m := get in
  if negb (is_inited_ m) then ret OB_NOT_INIT
  else if (Lsn.INVALID_PROPOSAL_ID =? proposal_id) || negb (addr_is_valid server) then ret OB_INVALID_ARGUMENT
  else if proposal_id <? get_proposal_id m then reject_prepare_request_ server (get_proposal_id m) ;;; ret OB_SUCCESS
  else if proposal_id =? get_proposal_id m then ret OB_SUCCESS
  else
    let! rc := (if negb (addr_eqb server (self_ m)) && role_is_leader m then
                  if is_leader_reconfirm_ m then reconfirm_to_follower_pending_
                  else if is_leader_active_ m then leader_active_to_follower_pending_
                  else ret OB_SUCCESS
                else ret OB_SUCCESS) in
    if ob_failed rc then ret rc
    else
      (modify (fun m => if negb (addr_eqb server (leader_ m))
                        then set_broadcast server (current_time (peers m)) (set_leader_and_epoch_ server (leader_epoch_ m) m)
                        else m) ;;;
       write_prepare_meta_ proposal_id server).
Definition handle_leader_broadcast (server : ObAddr) : M S Z :=
  modify (fun m => set_broadcast server (current_time (peers m)) m) ;;; ret OB_SUCCESS.

(** ** Members *)
Definition truncate (truncate_begin_lsn : Lsn.LSN) m : Z * S :=
  if negb (Lsn.is_valid truncate_begin_lsn) then (OB_INVALID_ARGUMENT, m)
  else if Lsn.is_valid (pending_end_lsn_ m) && Lsn.lsn_ltb truncate_begin_lsn (pending_end_lsn_ m)
  then (OB_SUCCESS, set_pending_end truncate_begin_lsn m) else (OB_SUCCESS, m).
Definition set_scan_disk_log_finished m : Z * S :=
  if negb (is_inited_ m) then (OB_NOT_INIT, m)
  else (OB_SUCCESS, set_flags true (is_sync_enabled_ m) (allow_vote_ m) (allow_vote_persisted_ m) m).
Definition enable_sync m : Z * S :=
  if negb (is_inited_ m) then (OB_NOT_INIT, m)
  else if is_arb_replica m then (OB_NOT_SUPPORTED, m)
  else (OB_SUCCESS, set_flags (scan_disk_log_finished_ m) true (allow_vote_ m) (allow_vote_persisted_ m) m).
Definition disable_sync m : Z * S :=
  if negb (is_inited_ m) then (OB_NOT_INIT, m)
  else (OB_SUCCESS, set_flags (scan_disk_log_finished_ m) false (allow_vote_ m) (allow_vote_persisted_ m) m).
Definition disable_vote_in_mem m : Z * S :=
  if negb (is_inited_ m) then (OB_NOT_INIT, m)
  else (OB_SUCCESS, set_flags (scan_disk_log_finished_ m) (is_sync_enabled_ m) false (allow_vote_persisted_ m) m).
Definition disable_vote m : Z * S :=
  if negb (is_inited_ m) then (OB_NOT_INIT, m)
  else (OB_SUCCESS, set_flags (scan_disk_log_finished_ m) (is_sync_enabled_ m) false false m).
Definition enable_vote m : Z * S :=
  if negb (is_inited_ m) then (OB_NOT_INIT, m)
  else (OB_SUCCESS, set_flags (scan_disk_log_finished_ m) (is_sync_enabled_ m) true true m).
Definition set_changing_config_with_arb m : Z * S :=
  if negb (is_inited_ m) then (OB_NOT_INIT, m)
  else if negb (is_changing_config_with_arb_ m) then (OB_SUCCESS, set_changing true (current_time (peers m)) m)
  else (OB_SUCCESS, m).
Definition reset_changing_config_with_arb m : Z * S :=
  if negb (is_inited_ m) then (OB_NOT_INIT, m)
  else if is_changing_config_with_arb_ m
  then (OB_SUCCESS, set_changing false (last_set_changing_config_with_arb_time_us_ m) m)
  else (OB_SUCCESS, m).

Definition destroy m : S :=
  let m := update_role_and_state_ FOLLOWER INIT m in
  mkMgr false no_addr (log_proposal_id_ m) (role_state_val_ m) no_addr OB_INVALID_TIMESTAMP
    (last_check_start_id_ m) (last_check_start_id_time_us_ m) (reconfirm_start_time_us_ m)
    (Lsn.reset (pending_end_lsn_ m)) false true (allow_vote_ m) (allow_vote_persisted_ m) (replica_type_ m)
    false (last_set_changing_config_with_arb_time_us_ m) (broadcast_leader_ m)
    (last_recv_leader_broadcast_time_us_ m) (peers m).
(** [args_ok]: the arguments are valid and no pointer is [NULL].  The bit fields
    [role_] and [state_] are written one after the other. *)
Definition init (args_ok : bool) (self : ObAddr) (log_proposal_id : Z) (allow_vote : bool) (replica_type : LogReplicaType) m : Z * S :=
  if is_inited_ m then (OB_INIT_TWICE, m)
  else if negb args_ok then (OB_INVALID_ARGUMENT, destroy m)
  else
    (OB_SUCCESS,
     mkMgr true self log_proposal_id (s64 (Z.shiftl (state_val INIT) 32 + role_val FOLLOWER)) no_addr (leader_epoch_ m)
       (last_check_start_id_ m) (last_check_start_id_time_us_ m) (reconfirm_start_time_us_ m) (pending_end_lsn_ m)
       false (match replica_type with ARBITRATION_REPLICA => false | _ => true end)
       allow_vote allow_vote replica_type (is_changing_config_with_arb_ m)
       (last_set_changing_config_with_arb_time_us_ m) no_addr (last_recv_leader_broadcast_time_us_ m) (peers m)).
End state_mgr.
End LogStateMgr.
