(* ===== verification/StateSwitch.v ===== *)
(** What [LogStateMgr] promises: the word with the role and the state is always one of
    five values, the replica moves between them along the arrows of the diagram above
    [switch_state] and only for the reasons the code tests, the loop of [switch_state]
    ends, and a proposal id is accepted only if it is greater and the replica has
    stopped leading. *)
From S2P Require Import Prelude Lsn MemberList LogStateMgr.
Import MemberList LogStateMgr.

Module StateSwitch.

(** ** The five states of a replica *)
Inductive Mode : Set := Init | Active | Pending | Reconfirm | Leading.
#[export] Instance mode_eq_dec : EqDecision Mode := ltac:(solve_decision).
Definition role_in (d : Mode) : ObRole := match d with Init | Active | Pending => FOLLOWER | Reconfirm | Leading => LEADER end.
Definition state_in (d : Mode) : ObReplicaState :=
  match d with Init => INIT | Active => ACTIVE | Pending => PENDING | Reconfirm => RECONFIRM | Leading => ACTIVE end.
Definition word (d : Mode) : Z := 2 ^ 32 * state_val (state_in d) + role_val (role_in d).
Definition leads (d : Mode) : bool := match d with Reconfirm | Leading => true | _ => false end.

Section switch.
Context {P : Type} `{Peers P}.
Implicit Types m : @LogStateMgr P.
Abbreviation S := (@LogStateMgr P).

Definition mode m (d : Mode) : Prop := role_state_val_ m = word d.

Lemma check_mode m d r s : mode m d → check_role_and_state_ r s m = bool_decide (role_in d = r ∧ state_in d = s).
Proof.
  unfold mode, check_role_and_state_, role_of, state_of. intros ->. by destruct d, r, s.
Qed.

Lemma leader_mode m d : mode m d → role_is_leader m = leads d.
Proof. unfold mode, role_is_leader, role_of. intros ->. by destruct d. Qed.

Lemma mode_set r s d m : role_in d = r → state_in d = s → mode (update_role_and_state_ r s m) d.
Proof. intros <- <-. unfold mode, update_role_and_state_. cbn [role_state_val_ set_word]. by destruct d. Qed.

Definition elected m : option (ObAddr * Z) := snd (get_elect_leader_ m).

(** Election results that the operations of the replica do not change. *)
Record stable : Prop := {
  st_reconfirm p : get_current_leader_likely (snd (sw_to_leader_reconfirm p)) = get_current_leader_likely p;
  st_clean p : get_current_leader_likely (snd (sw_clean_log p)) = get_current_leader_likely p;
  st_active p : get_current_leader_likely (snd (sw_to_leader_active p)) = get_current_leader_likely p;
  st_pending p : get_current_leader_likely (snd (sw_to_follower_pending p)) = get_current_leader_likely p;
  st_reset p : get_current_leader_likely (reconfirm_reset_state p) = get_current_leader_likely p;
  st_run p : get_current_leader_likely (snd (reconfirm_reconfirm p)) = get_current_leader_likely p;
  st_mm p : get_current_leader_likely (mm_reset_status p) = get_current_leader_likely p;
  st_cast z p : get_current_leader_likely (snd (mm_submit_broadcast_leader_info z p)) = get_current_leader_likely p;
  st_mode p : get_current_leader_likely (mode_reset_status p) = get_current_leader_likely p;
  st_cb p : get_current_leader_likely (snd (on_role_change p)) = get_current_leader_likely p
}.

(** What no transition changes. *)
Record kept m m' : Prop := {
  k_init : is_inited_ m' = is_inited_ m;
  k_self : self_ m' = self_ m;
  k_pid : log_proposal_id_ m' = log_proposal_id_ m;
  k_type : replica_type_ m' = replica_type_ m;
  k_elected : stable → elected m' = elected m
}.

#[export] Instance kept_preorder : PreOrder kept.
Proof.
  split; [done|]. intros m1 m2 m3 [] []. split; try congruence. intros Hs. rewrite <- k_elected0 by done. by apply k_elected1.
Qed.

Lemma elected_peers m m' :
  is_inited_ m' = is_inited_ m → get_current_leader_likely (peers m') = get_current_leader_likely (peers m) →
  elected m' = elected m.
Proof. unfold elected, get_elect_leader_. by intros -> ->. Qed.

Lemma kept_intro m m' :
  is_inited_ m' = is_inited_ m → self_ m' = self_ m → log_proposal_id_ m' = log_proposal_id_ m →
  replica_type_ m' = replica_type_ m →
  (stable → get_current_leader_likely (peers m') = get_current_leader_likely (peers m)) → kept m m'.
Proof. intros. split; try done. intros. apply elected_peers; auto. Qed.

(** ** Running the monad *)
Lemma bind_modify {B} (f : S → S) (k : unit → M S B) m : bind (modify f) k m = k tt (f m).
Proof. reflexivity. Qed.
Lemma bind_tell {B} (f : P → P) (k : unit → M S B) m : bind (tell f) k m = k tt (set_peers (f (peers m)) m).
Proof. reflexivity. Qed.
Lemma bind_ask {A B} (f : P → A * P) (k : A → M S B) m :
  bind (ask f) k m = k (fst (f (peers m))) (set_peers (snd (f (peers m))) m).
Proof. unfold bind, ask. by destruct (f (peers m)). Qed.
Lemma ask_run {A} (f : P → A * P) m : ask f m = Some (fst (f (peers m)), set_peers (snd (f (peers m))) m).
Proof. unfold ask. by destruct (f (peers m)). Qed.
Lemma bind_see {A B} (f : P → A) (k : A → M S B) m : bind (see f) k m = k (f (peers m)) m.
Proof. reflexivity. Qed.
Lemma bind_gets' {A B} (f : S → A) (k : A → M S B) m : bind (gets f) k m = k (f m) m.
Proof. reflexivity. Qed.
Lemma bind_get' {B} (k : S → M S B) m : bind get k m = k m m.
Proof. reflexivity. Qed.
Lemma bind_ret {A B} (a : A) (k : A → M S B) m : bind (ret a) k m = k a m.
Proof. reflexivity. Qed.
Lemma run_if {A} (b : bool) (x y : M S A) m : (if b then x else y) m = if b then x m else y m.
Proof. by destruct b. Qed.
Lemma run_bind_if {A B} (b : bool) (x y : M S A) (k : A → M S B) m :
  bind (if b then x else y) k m = if b then bind x k m else bind y k m.
Proof. by destruct b. Qed.

(** ** The transitions *)
Lemma reset_status_run m :
  ∃ m', reset_status_ m = Some (tt, m') ∧ kept m m' ∧ role_state_val_ m' = role_state_val_ m ∧
    leader_ m' = no_addr ∧ leader_epoch_ m' = OB_INVALID_TIMESTAMP ∧ last_check_start_id_time_us_ m' = OB_INVALID_TIMESTAMP.
Proof.
  eexists. split; [reflexivity|]. split_and!; [|done..].
  apply kept_intro; [done..|]. intros Hs. cbn. by rewrite (st_mode Hs), (st_mm Hs).
Qed.

(** [m'] leads in state [d] for the epoch [e]. *)
Definition took_over m m' (d : Mode) (e : Z) : Prop :=
  kept m m' ∧ mode m' d ∧ leader_ m' = self_ m ∧ leader_epoch_ m' = e.

Lemma to_reconfirm_run e m :
  ∃ rc m', to_reconfirm_ e m = Some (rc, m') ∧ kept m m' ∧
    (if ob_failed rc then role_state_val_ m' = role_state_val_ m ∧ leader_ m' = leader_ m ∧ leader_epoch_ m' = leader_epoch_ m
     else took_over m m' Reconfirm e ∧ last_check_start_id_time_us_ m' = OB_INVALID_TIMESTAMP).
Proof.
  unfold to_reconfirm_. rewrite bind_ask, run_if. set (x := sw_to_leader_reconfirm (peers m)). set (m0 := set_peers (snd x) m).
  assert (kept m m0) as Hk.
  { apply kept_intro; [done..|]. intros Hs. apply (st_reconfirm Hs). }
  destruct (ob_failed (fst x)) eqn:Er; [exists (fst x), m0; rewrite Er; done|].
  rewrite bind_see, bind_modify. set (m1 := set_reconfirm_start _ m0).
  assert (kept m m1) as Hk1 by (etrans; [exact Hk|by apply kept_intro]).
  destruct (reset_status_run m1) as (m2 & E2 & Hk2 & Hw & Hl & He & Hc). rewrite (bind_run _ _ _ _ _ E2).
  rewrite bind_modify, bind_tell, bind_modify, bind_ask. eexists OB_SUCCESS, _. split; [reflexivity|].
  match goal with |- kept _ ?x ∧ _ => assert (kept m x) as Hk3 end.
  { etrans; [exact Hk1|]. etrans; [exact Hk2|]. apply kept_intro; [done..|]. intros Hs. cbn [peers set_peers set_leader_and_epoch_].
    by rewrite (st_clean Hs), (st_reset Hs). }
  split; [exact Hk3|]. cbn [ob_failed Z.eqb negb]. split; [|exact Hc]. split_and!; [exact Hk3|by apply mode_set| |done].
  apply (k_self _ _ Hk2).
Qed.

(** Stepping down: only the window can make it fail, and then the role stays. *)
Definition stepped_down m m' (d : Mode) : Prop :=
  kept m m' ∧ mode m' d ∧ leader_ m' = no_addr ∧ leader_epoch_ m' = OB_INVALID_TIMESTAMP.
Definition unchanged m m' : Prop :=
  kept m m' ∧ role_state_val_ m' = role_state_val_ m ∧ leader_ m' = leader_ m ∧ leader_epoch_ m' = leader_epoch_ m.

Lemma to_pending_run m :
  ∃ rc m', to_follower_pending_ m = Some (rc, m') ∧ unchanged m m' ∧ rc = fst (fst (sw_to_follower_pending (peers m))) ∧
    (ob_failed rc = false → pending_end_lsn_ m' = snd (fst (sw_to_follower_pending (peers m)))).
Proof.
  unfold to_follower_pending_. rewrite bind_ask. pose proof (λ Hs, st_pending Hs (peers m)) as Hp.
  destruct (sw_to_follower_pending (peers m)) as [[rc l] p]. cbn [fst snd] in *. rewrite run_if.
  assert (∀ m', is_inited_ m' = is_inited_ m → self_ m' = self_ m → log_proposal_id_ m' = log_proposal_id_ m →
    replica_type_ m' = replica_type_ m → peers m' = p → kept m m') as Hk.
  { intros m' ???? E. apply kept_intro; [done..|]. intros Hs. rewrite E. by apply Hp. }
  destruct (ob_failed rc) eqn:Er.
  - exists rc, (set_peers p m). split; [done|]. split; [split; [by apply Hk|done]|]. split; [done|congruence].
  - apply ob_failed_false in Er as ->. exists OB_SUCCESS, (set_pending_end l (set_peers p m)). split; [reflexivity|].
    split; [split; [by apply Hk|done]|done].
Qed.

Lemma reconfirm_to_pending_run m :
  ∃ rc m', reconfirm_to_follower_pending_ m = Some (rc, m') ∧ rc = fst (fst (sw_to_follower_pending (peers m))) ∧
    (if ob_failed rc then unchanged m m' else stepped_down m m' Pending).
Proof.
  unfold reconfirm_to_follower_pending_. destruct (to_pending_run m) as (rc & m1 & E & [Hk Hu] & Hrc & _).
  rewrite (bind_run _ _ _ _ _ E), run_if. destruct (ob_failed rc) eqn:Er; [exists rc, m1; rewrite Er; done|].
  destruct (reset_status_run m1) as (m2 & E2 & Hk2 & Hw & Hl & He & Hc). rewrite (bind_run _ _ _ _ _ E2), bind_modify.
  apply ob_failed_false in Er as ->. eexists OB_SUCCESS, _. split; [reflexivity|]. split; [done|].
  cbn [ob_failed Z.eqb negb]. split_and!; [|by apply mode_set|done|done].
  etrans; [exact Hk|]. etrans; [exact Hk2|]. by apply kept_intro.
Qed.

Lemma leading_to_pending_run m :
  mode m Leading →
  ∃ rc m', leader_active_to_follower_pending_ m = Some (rc, m') ∧ rc = fst (fst (sw_to_follower_pending (peers m))) ∧
    (if ob_failed rc then unchanged m m' else stepped_down m m' Pending).
Proof.
  intros Hm. unfold leader_active_to_follower_pending_. rewrite bind_gets', (leader_mode _ _ Hm). cbn [leads].
  destruct (to_pending_run m) as (rc & m1 & E & [Hk Hu] & Hrc & _).
  unfold bind at 1. rewrite (bind_run _ _ _ _ _ E), run_if.
  destruct (ob_failed rc) eqn:Er.
  { exists rc, m1. cbn [ret]. rewrite run_if, Er. done. }
  destruct (reset_status_run m1) as (m2 & E2 & Hk2 & Hw & Hl & He & Hc). rewrite (bind_run _ _ _ _ _ E2).
  apply ob_failed_false in Er as ->. eexists OB_SUCCESS, _. split; [reflexivity|]. split; [done|].
  cbn [ob_failed Z.eqb negb]. split_and!; [|by apply mode_set|done|done].
  etrans; [exact Hk|]. etrans; [exact Hk2|]. by apply kept_intro.
Qed.

(** Taking the leadership, from [Reconfirm]: an error of the role change callback or of
    the broadcast comes after the state has changed. *)
Lemma to_leading_run m :
  ∃ rc m', reconfirm_to_leader_active_ m = Some (rc, m') ∧ kept m m' ∧ leader_ m' = leader_ m ∧ leader_epoch_ m' = leader_epoch_ m ∧
    (role_state_val_ m' = role_state_val_ m ∧ ob_failed rc = true ∨
     mode m' Leading ∧ mm_get_config_version (peers m) = OB_SUCCESS ∧ fst (sw_to_leader_active (peers m)) = OB_SUCCESS).
Proof.
  unfold reconfirm_to_leader_active_. rewrite bind_see, run_if. destruct (ob_failed (mm_get_config_version (peers m))) eqn:Ec.
  { exists (mm_get_config_version (peers m)), m. split; [reflexivity|]. split; [done|]. auto. }
  rewrite bind_ask, run_if. set (x := sw_to_leader_active (peers m)). set (m1 := set_peers (snd x) m).
  assert (kept m m1) as Hk1 by (apply kept_intro; [done..|]; intros Hs; apply (st_active Hs)).
  destruct (ob_failed (fst x)) eqn:Ea; [exists (fst x), m1; split; [reflexivity|]; split; [done|]; auto|].
  apply ob_failed_false in Ec, Ea. rewrite bind_modify. set (m2 := update_role_and_state_ LEADER ACTIVE m1).
  unfold to_leader_active_. rewrite bind_ask, run_if. set (y := on_role_change (peers m2)). set (m3 := set_peers (snd y) m2).
  assert (kept m m3) as Hk3.
  { etrans; [exact Hk1|]. apply kept_intro; [done..|]. intros Hs. apply (st_cb Hs). }
  assert (mode m3 Leading) as Hm by (by apply mode_set).
  destruct (ob_failed (fst y)); [exists (fst y), m3; split_and!; [reflexivity|done|done|done|by right]|].
  rewrite bind_gets', ask_run. eexists _, _. split; [reflexivity|]. split_and!; [|done|done|by right].
  etrans; [exact Hk3|]. apply kept_intro; [done..|]. intros Hs. apply (st_cast Hs).
Qed.

Lemma pending_to_active_run m :
  ∃ rc m', pending_to_follower_active_ m = Some (rc, m') ∧ kept m m' ∧ mode m' Active.
Proof.
  unfold pending_to_follower_active_, to_follower_active_. rewrite bind_modify, ask_run. eexists _, _. split; [reflexivity|].
  split; [|by apply mode_set]. apply kept_intro; [done..|]. intros Hs. apply (st_cb Hs).
Qed.

Lemma init_to_active_run m :
  ∃ m', init_to_follower_active_ m = Some (OB_SUCCESS, m') ∧ stepped_down m m' Active.
Proof.
  unfold init_to_follower_active_. destruct (reset_status_run m) as (m1 & E & Hk & Hw & Hl & He & Hc).
  rewrite (bind_run _ _ _ _ _ E), bind_modify. eexists. split; [reflexivity|]. split_and!; [|by apply mode_set|done|done].
  etrans; [exact Hk|by apply kept_intro].
Qed.

(** ** One round *)
Lemma mode_tests m d :
  mode m d →
  is_follower_init_ m = bool_decide (d = Init) ∧ is_follower_active_ m = bool_decide (d = Active) ∧
  is_follower_pending_ m = bool_decide (d = Pending) ∧ is_leader_reconfirm_ m = bool_decide (d = Reconfirm) ∧
  is_leader_active_ m = bool_decide (d = Leading).
Proof.
  intros Hm. unfold is_follower_init_, is_follower_active_, is_follower_pending_, is_leader_reconfirm_, is_leader_active_.
  rewrite !(check_mode _ _ _ _ Hm). by destruct d.
Qed.

(** The election names this replica, and it may lead. *)
Definition elects_self m (e : Z) : Prop :=
  ∃ l, elected m = Some (l, e) ∧ addr_eqb (self_ m) l = true ∧ is_arb_replica m = false.
Definition disagrees m : bool := fst (need_update_leader_ m).
Definition reconfirm_late m : Prop :=
  last_check_start_id_time_us_ m ≠ OB_INVALID_TIMESTAMP ∧ last_check_start_id_ m = sw_get_start_id (peers m) ∧
  PALF_LEADER_RECONFIRM_SYNC_TIMEOUT_US < current_time (peers m) - last_check_start_id_time_us_ m.

Lemma update_role_spec m :
  let '(u, l, e) := follower_need_update_role_ m in
  if u then elects_self m e else (l, e) = default (no_addr, OB_INVALID_TIMESTAMP) (elected m) ∧ ∀ e', ¬ elects_self m e'.
Proof.
  unfold follower_need_update_role_, elects_self, elected. destruct (get_elect_leader_ m) as [rc [[l e]|]]; cbn.
  - destruct (addr_eqb (self_ m) l) eqn:El, (is_arb_replica m) eqn:Ea; cbn; [|by exists l|..].
    all: split; [done|]; intros e' (l' & ? & ? & ?); simplify_eq; congruence.
  - split; [done|]. naive_solver.
Qed.

(** The moves of one round, and their reasons. *)
Definition round m (d d' : Mode) : Prop :=
  d' = d ∨
  match d, d' with
  | Init, Active => scan_disk_log_finished_ m = true
  | Active, Reconfirm | Pending, Reconfirm => ∃ e, elects_self m e
  | Active, Leading => (∃ e, elects_self m e)
  | Pending, Active => is_pending_log_clear_ m = true
  | Reconfirm, Leading => fst (reconfirm_reconfirm (peers m)) = OB_SUCCESS ∧ disagrees m = false
  | Reconfirm, Pending =>
      reconfirm_late m ∨ disagrees m = true ∨ ¬ fst (reconfirm_reconfirm (peers m)) ∈ [OB_SUCCESS; OB_EAGAIN]
  | Leading, Pending => disagrees m = true
  | _, _ => False
  end.

Lemma once_init m :
  mode m Init →
  ∃ m', switch_once m = Some ((OB_SUCCESS, scan_disk_log_finished_ m), m') ∧
    if scan_disk_log_finished_ m then stepped_down m m' Active else m' = m.
Proof.
  intros Hm. unfold switch_once. rewrite bind_get'. destruct (mode_tests _ _ Hm) as (-> & _).
  rewrite (bool_decide_true _ eq_refl). cbn [run_if]. unfold follower_init_need_switch_.
  destruct (scan_disk_log_finished_ m); [|by eexists].
  destruct (init_to_active_run m) as (m' & E & Hd). exists m'. by rewrite (bind_run _ _ _ _ _ E).
Qed.

Lemma once_pending m :
  mode m Pending →
  ∃ rc next m', switch_once m = Some ((rc, next), m') ∧ kept m m' ∧
    if is_pending_log_clear_ m then mode m' Active ∧ next = follower_active_need_switch_ m'
    else (∃ e, elects_self m e ∧ next = true ∧
            (ob_failed rc = true ∧ mode m' Pending ∨
             rc = OB_SUCCESS ∧ took_over m m' Reconfirm e ∧ last_check_start_id_time_us_ m' = OB_INVALID_TIMESTAMP)) ∨
         (∀ e, ¬ elects_self m e) ∧ rc = OB_SUCCESS ∧ next = false ∧ m' = m.
Proof.
  intros Hm. unfold switch_once. rewrite bind_get'. destruct (mode_tests _ _ Hm) as (-> & _ & -> & _).
  cbn [bool_decide decide_rel]. rewrite (bool_decide_true _ eq_refl), bool_decide_false by done. unfold follower_pending_need_switch_.
  destruct (is_pending_log_clear_ m).
  { destruct (pending_to_active_run m) as (rc & m' & E & Hk & Hd). rewrite (bind_run _ _ _ _ _ E), bind_gets'.
    by eexists _, _, _. }
  pose proof (update_role_spec m) as Hu. destruct (follower_need_update_role_ m) as [[u l] e]. destruct u.
  - unfold follower_pending_to_reconfirm_. destruct (to_reconfirm_run e m) as (rc & m' & E & Hk & Ht).
    rewrite (bind_run _ _ _ _ _ E). eexists _, _, _. split; [reflexivity|]. split; [done|]. left. exists e. split; [done|]. split; [done|].
    destruct (ob_failed rc) eqn:Er; [left; split; [done|]; unfold mode; destruct Ht as (-> & _); exact Hm|].
    right. apply ob_failed_false in Er as ->. done.
  - eexists _, _, _. split; [reflexivity|]. split; [done|]. right. split; [apply Hu|done].
Qed.

Lemma once_active m :
  mode m Active →
  ∃ rc next m', switch_once m = Some ((rc, next), m') ∧ kept m m' ∧ next = follower_active_need_switch_ m ∧
    if follower_active_need_switch_ m then
      (∃ e, elects_self m e ∧
         (ob_failed rc = true ∧ (mode m' Active ∨ took_over m m' Reconfirm e) ∨ took_over m m' Leading e)) ∨
      (∀ e, ¬ elects_self m e) ∧ rc = OB_SUCCESS ∧ mode m' Active ∧
        (leader_ m', leader_epoch_ m') = default (no_addr, OB_INVALID_TIMESTAMP) (elected m)
    else rc = OB_SUCCESS ∧ mode m' Active ∧ leader_ m' = leader_ m ∧ leader_epoch_ m' = leader_epoch_ m.
Proof.
  intros Hm. unfold switch_once. rewrite bind_get'. destruct (mode_tests _ _ Hm) as (-> & -> & -> & _).
  rewrite (bool_decide_true _ eq_refl), !bool_decide_false by done. destruct (follower_active_need_switch_ m).
  - pose proof (update_role_spec m) as Hu. destruct (follower_need_update_role_ m) as [[u l] e]. destruct u.
    + unfold follower_active_to_reconfirm_. destruct (to_reconfirm_run e m) as (rc & m1 & E & Hk & Ht).
      rewrite (bind_run _ _ _ _ _ E), run_if. destruct (ob_failed rc) eqn:Er.
      { eexists _, _, _. split; [reflexivity|]. split; [done|]. split; [done|]. left. exists e. split; [done|]. left. split; [done|].
        left. unfold mode. destruct Ht as (-> & _). exact Hm. }
      destruct Ht as [(_ & Hw & Hl & He) _]. destruct (to_leading_run m1) as (rc2 & m2 & E2 & Hk2 & Hl2 & He2 & Hc).
      assert (kept m m2) as Hk12 by (by etrans). rewrite (bind_run _ _ _ _ _ E2). eexists _, _, _. split; [reflexivity|].
      split; [done|]. split; [done|]. left. exists e. split; [done|]. destruct Hc as [[Hw2 Hf]|[Hw2 _]].
      * left. split; [done|]. right. split_and!; [done|unfold mode; by rewrite Hw2|congruence|congruence].
      * right. split_and!; [done|done|congruence|congruence].
    + rewrite bind_modify. eexists _, _, _. split; [reflexivity|]. split; [by apply kept_intro|]. split; [done|]. right.
      destruct Hu as [Hd Hn]. split_and!; [done|done|exact Hm|exact Hd].
  - assert (kept m (reset_broadcast_leader_ m) ∧ mode (reset_broadcast_leader_ m) Active ∧
      leader_ (reset_broadcast_leader_ m) = leader_ m ∧ leader_epoch_ (reset_broadcast_leader_ m) = leader_epoch_ m) as [Hk Hm'].
    { unfold reset_broadcast_leader_. destruct (need_reset_broadcast_leader_ m); [split; [by apply kept_intro|done]|done]. }
    destruct (need_reset_broadcast_leader_ m); [rewrite bind_modify|]; eexists _, _, _; (split; [reflexivity|]); done.
Qed.

(** Looking at the progress of the window changes only what was last seen of it. *)
Lemma timeout_run m :
  ∃ b m', is_reconfirm_timeout_ m = Some (b, m') ∧ unchanged m m' ∧ peers m' = peers m ∧ (b = true → reconfirm_late m).
Proof.
  unfold is_reconfirm_timeout_. rewrite bind_get', run_if.
  destruct (Z.eqb_spec OB_INVALID_TIMESTAMP (last_check_start_id_time_us_ m)) as [E|E]; cbn [orb].
  { rewrite bind_modify. eexists _, _. split; [reflexivity|]. split; [|done]. by split; [apply kept_intro|]. }
  destruct (Z.eqb_spec (last_check_start_id_ m) (sw_get_start_id (peers m))) as [E2|E2]; cbn [negb].
  - eexists _, _. split; [reflexivity|]. split; [done|]. split; [done|]. intros Hl%Z.ltb_lt. split_and!; [congruence|done|done].
  - rewrite bind_modify. eexists _, _. split; [reflexivity|]. split; [|done]. by split; [apply kept_intro|].
Qed.

Lemma once_reconfirm m :
  mode m Reconfirm →
  ∃ rc m', switch_once m = Some ((rc, false), m') ∧ kept m m' ∧
    ((reconfirm_late m ∨ disagrees m = true ∨ ¬ fst (reconfirm_reconfirm (peers m)) ∈ [OB_SUCCESS; OB_EAGAIN]) ∧
       (if ob_failed rc then mode m' Reconfirm ∧ leader_ m' = leader_ m ∧ leader_epoch_ m' = leader_epoch_ m
        else stepped_down m m' Pending) ∨
     disagrees m = false ∧ leader_ m' = leader_ m ∧ leader_epoch_ m' = leader_epoch_ m ∧
       (mode m' Reconfirm ∧ ob_failed rc = true ∨ mode m' Leading ∧ fst (reconfirm_reconfirm (peers m)) = OB_SUCCESS)).
Proof.
  intros Hm. unfold switch_once. rewrite bind_get'. destruct (mode_tests _ _ Hm) as (-> & -> & -> & -> & _).
  rewrite (bool_decide_true _ eq_refl), !bool_decide_false by done.
  destruct (timeout_run m) as (b & m1 & E & (Hk & Hw & Hl & He) & Hp & Hb). rewrite (bind_run _ _ _ _ _ E), run_if.
  assert (∀ m0, kept m m0 → role_state_val_ m0 = role_state_val_ m → leader_ m0 = leader_ m → leader_epoch_ m0 = leader_epoch_ m →
    (reconfirm_late m ∨ disagrees m = true ∨ ¬ fst (reconfirm_reconfirm (peers m)) ∈ [OB_SUCCESS; OB_EAGAIN]) →
    ∃ rc m', (let! rc := reconfirm_to_follower_pending_ in ret (rc, false)) m0 = Some ((rc, false), m') ∧ kept m m' ∧
    ((reconfirm_late m ∨ disagrees m = true ∨ ¬ fst (reconfirm_reconfirm (peers m)) ∈ [OB_SUCCESS; OB_EAGAIN]) ∧
       (if ob_failed rc then mode m' Reconfirm ∧ leader_ m' = leader_ m ∧ leader_epoch_ m' = leader_epoch_ m
        else stepped_down m m' Pending))) as Hdown.
  { intros m0 Hk0 Hw0 Hl0 He0 Hr. destruct (reconfirm_to_pending_run m0) as (rc & m2 & E2 & _ & Hd).
    rewrite (bind_run _ _ _ _ _ E2). exists rc, m2. split; [done|]. destruct (ob_failed rc).
    - destruct Hd as (Hk2 & Hw2 & Hl2 & He2). split; [by etrans|]. split; [done|]. unfold mode. split_and!; congruence.
    - destruct Hd as (Hk2 & Hd). split; [by etrans|]. split; [done|]. split; [by etrans|done]. }
  destruct b.
  { destruct (Hdown m1) as (rc & m' & ? & ? & ?); eauto. exists rc, m'. split_and!; [done|done|by left]. }
  rewrite bind_gets', run_if. assert (fst (need_update_leader_ m1) = disagrees m) as ->.
  { unfold disagrees, need_update_leader_, get_elect_leader_. by rewrite Hp, Hl, He, (k_init _ _ Hk). }
  destruct (disagrees m) eqn:Ed.
  { destruct (Hdown m1) as (rc & m' & ? & ? & ?); eauto. exists rc, m'. split_and!; [done|done|by left]. }
  unfold is_reconfirm_state_changed_. unfold bind at 1. rewrite bind_ask, Hp. cbn [ret].
  set (x := reconfirm_reconfirm (peers m)). set (m2 := set_peers (snd x) m1).
  assert (kept m m2) as Hk2 by (etrans; [exact Hk|]; apply kept_intro; [done..|]; intros Hs; cbn; rewrite Hp; apply (st_run Hs)).
  destruct (Z.eqb_spec OB_EAGAIN (fst x)) as [Ex|Ex]; cbn [negb].
  { exists (fst x), m2. split; [done|]. split; [done|]. right. split_and!; [done|done|done|]. left. split; [unfold mode; cbn; congruence|].
    by rewrite <- Ex. }
  rewrite run_if. destruct (ob_failed (fst x)) eqn:Ef.
  { destruct (Hdown m2) as (rc & m' & ? & ? & Hq); [done|done|done|done| |exists rc, m'; split_and!; [done|done|by left]].
    right; right. intros Hin. apply elem_of_cons in Hin as [Hx|[Hx|[]%elem_of_nil]%elem_of_cons]; [|by apply Ex].
    fold x in Hx. by rewrite Hx in Ef. }
  apply ob_failed_false in Ef. destruct (to_leading_run m2) as (rc & m3 & E3 & Hk3 & Hl3 & He3 & Hc).
  rewrite (bind_run _ _ _ _ _ E3). exists rc, m3. split; [done|]. split; [by etrans|]. right.
  split_and!; [done|cbn in *; congruence|cbn in *; congruence|]. destruct Hc as [[Hw3 Hf]|[Hw3 _]].
  - left. split; [|done]. unfold mode. rewrite Hw3. cbn. congruence.
  - right. done.
Qed.

Lemma once_leading m :
  mode m Leading →
  ∃ rc m', switch_once m = Some ((rc, disagrees m), m') ∧ kept m m' ∧
    if disagrees m then rc = fst (fst (sw_to_follower_pending (peers m))) ∧ (if ob_failed rc then unchanged m m' else stepped_down m m' Pending)
    else rc = OB_SUCCESS ∧ unchanged m m'.
Proof.
  intros Hm. unfold switch_once. rewrite bind_get'. destruct (mode_tests _ _ Hm) as (-> & -> & -> & -> & ->).
  rewrite (bool_decide_true _ eq_refl), !bool_decide_false by done. unfold leader_active_need_switch_. unfold bind at 1.
  rewrite bind_get', run_if. fold (disagrees m). destruct (disagrees m); cbn [ret].
  - destruct (leading_to_pending_run m Hm) as (rc & m' & E & Hrc & Hd). rewrite (bind_run _ _ _ _ _ E).
    exists rc, m'. split; [done|]. destruct (ob_failed rc) eqn:Er; (split; [by destruct Hd|done]).
  - rewrite (leader_mode _ _ Hm). cbn [leads]. unfold check_leader_log_sync_state_. rewrite bind_get'.
    assert (∀ i t, unchanged m (set_check i t m)) as Hc by (intros; split; [by apply kept_intro|done]).
    destruct (_ || _); [|destruct (sw_is_empty (peers m))]; cbn; eexists _, _; (split; [reflexivity|]).
    all: split; [|split; [done|]]; first [done|apply Hc].
Qed.

(** ** Any round *)

(** What holds of every replica: a legal word, and a replica that leads is its own
    leader and no arbitration replica. *)
Definition sound m (d : Mode) : Prop := mode m d ∧ (leads d = true → leader_ m = self_ m ∧ is_arb_replica m = false).

Lemma arb_kept m m' : kept m m' → is_arb_replica m' = is_arb_replica m.
Proof. intros Hk. unfold is_arb_replica. by rewrite (k_type _ _ Hk). Qed.

Lemma sound_same m m' d : kept m m' → role_state_val_ m' = role_state_val_ m → leader_ m' = leader_ m → sound m d → sound m' d.
Proof.
  intros Hk Hw Hl [Hm Hs]. split; [unfold mode; congruence|]. rewrite (arb_kept _ _ Hk), Hl, (k_self _ _ Hk). exact Hs.
Qed.

Lemma sound_over m m' d e : (∃ e, elects_self m e) → took_over m m' d e → sound m' d.
Proof.
  intros (e' & l & _ & _ & Ha) (Hk & Hm & Hl & He). split; [done|]. rewrite (arb_kept _ _ Hk), Hl, (k_self _ _ Hk). done.
Qed.

Lemma sound_down m d : leads d = false → mode m d → sound m d.
Proof. intros Hd Hm. split; [done|congruence]. Qed.

Lemma disagrees_agree m m' :
  stable → kept m m' → leader_ m' = leader_ m → leader_epoch_ m' = leader_epoch_ m → disagrees m' = disagrees m.
Proof.
  intros Hs Hk Hl He. pose proof (k_elected _ _ Hk Hs) as E. unfold disagrees, need_update_leader_, elected in *.
  rewrite Hl, He. destruct (get_elect_leader_ m) as [? [[]|]], (get_elect_leader_ m') as [? [[]|]]; naive_solver.
Qed.

Lemma disagrees_over m m' d e : stable → elects_self m e → took_over m m' d e → disagrees m' = false.
Proof.
  intros Hs (l & E & El & _) (Hk & _ & Hl & He). pose proof (k_elected _ _ Hk Hs) as E'. rewrite E in E'.
  unfold disagrees, need_update_leader_, elected in *. destruct (get_elect_leader_ m') as [? [[l' e']|]]; [|done].
  injection E' as -> ->. cbn [fst]. rewrite Hl, He, addr_eqb_sym, El, Z.eqb_refl. done.
Qed.

(** One round keeps the replica sound and moves it along the diagram. *)
Lemma once_sound m d rc next m' :
  sound m d → switch_once m = Some ((rc, next), m') → kept m m' ∧ ∃ d', sound m' d' ∧ round m d d'.
Proof.
  intros Hs E. pose proof Hs as [Hm Hl]. destruct d.
  - destruct (once_init m Hm) as (m1 & E1 & H1). rewrite E in E1. simplify_eq. destruct (scan_disk_log_finished_ m) eqn:Es.
    + destruct H1 as (Hk & Hd & _). split; [done|]. exists Active. split; [by apply sound_down|by right].
    + subst m1. split; [done|]. exists Init. split; [done|by left].
  - destruct (once_active m Hm) as (rc1 & n1 & m1 & E1 & Hk & _ & H1). rewrite E in E1. simplify_eq. split; [done|].
    destruct (follower_active_need_switch_ m).
    + destruct H1 as [(e & He & [[_ [Hd|Ht]]|Ht])|(_ & _ & Hd & _)].
      * exists Active. split; [by apply sound_down|by left].
      * exists Reconfirm. split; [eapply sound_over; eauto|right; eauto].
      * exists Leading. split; [eapply sound_over; eauto|right; eauto].
      * exists Active. split; [by apply sound_down|by left].
    + destruct H1 as (_ & Hd & _). exists Active. split; [by apply sound_down|by left].
  - destruct (once_pending m Hm) as (rc1 & n1 & m1 & E1 & Hk & H1). rewrite E in E1. simplify_eq. split; [done|].
    destruct (is_pending_log_clear_ m) eqn:Ec.
    { destruct H1 as [Hd _]. exists Active. split; [by apply sound_down|by right]. }
    destruct H1 as [(e & He & _ & [[_ Hd]|(_ & Ht & _)])|(_ & _ & _ & ->)].
    + exists Pending. split; [by apply sound_down|by left].
    + exists Reconfirm. split; [eapply sound_over; eauto|right; eauto].
    + exists Pending. split; [done|by left].
  - destruct (once_reconfirm m Hm) as (rc1 & m1 & E1 & Hk & H1). rewrite E in E1. simplify_eq. split; [done|].
    assert (∀ d, mode m1 d → leader_ m1 = leader_ m → sound m1 d) as Hsame.
    { intros d Hd El. split; [done|]. rewrite (arb_kept _ _ Hk), El, (k_self _ _ Hk). intros _. by apply Hl. }
    destruct H1 as [[Hr H1]|(Hd & Hl1 & _ & [[Hw _]|[Hw Hok]])].
    + destruct (ob_failed rc1); [exists Reconfirm; destruct H1 as (? & ? & _); split; [by apply Hsame|by left]|]. exists Pending. split; [by apply sound_down, H1|by right].
    + exists Reconfirm. split; [by apply Hsame|by left].
    + exists Leading. split; [by apply Hsame|by right].
  - destruct (once_leading m Hm) as (rc1 & m1 & E1 & Hk & H1). rewrite E in E1. simplify_eq. split; [done|].
    assert (unchanged m m1 → sound m1 Leading) as Hsame by (intros (? & ? & ? & _); by eapply sound_same).
    destruct (disagrees m) eqn:Ed; [destruct H1 as [_ H1]; destruct (ob_failed rc1)|].
    + exists Leading. split; [by apply Hsame|by left].
    + exists Pending. split; [apply sound_down; [done|apply H1]|by right].
    + exists Leading. split; [apply Hsame, H1|by left].
Qed.

Lemma loop_sound n m d rc m' : sound m d → switch_loop n m = Some (rc, m') → kept m m' ∧ ∃ d', sound m' d'.
Proof.
  revert m d. induction n as [|n IH]; intros m d Hs; cbn [switch_loop]; [done|]. unfold bind.
  destruct (switch_once m) as [[[rc1 next] m1]|] eqn:E1; [|done].
  destruct (once_sound _ _ _ _ _ Hs E1) as (Hk & d1 & Hs1 & _). rewrite run_if. destruct (next && _).
  - intros E. destruct (IH _ _ Hs1 E) as [Hk2 Hd]. split; [by etrans|done].
  - intros E. injection E as <- <-. eauto.
Qed.

(** ** The end of the loop *)

(** After a run of the loop that reports success.  A pending replica waits for its logs
    and is not elected, or it has just given up confirming and knows no leader. *)
Definition settled m (d : Mode) : Prop :=
  match d with
  | Init => scan_disk_log_finished_ m = false
  | Active =>
      disagrees m = false ∧
      ∀ l e, elected m = Some (l, e) → addr_is_valid l = true → addr_eqb (self_ m) l = true → is_arb_replica m = true
  | Pending =>
      (is_pending_log_clear_ m = false ∧ ∀ e, ¬ elects_self m e) ∨
      (leader_ m = no_addr ∧ leader_epoch_ m = OB_INVALID_TIMESTAMP)
  | Reconfirm => False
  | Leading => disagrees m = false
  end.
Definition ends (n : nat) m : Prop :=
  ∃ rc m' d, switch_loop n m = Some (rc, m') ∧ mode m' d ∧ (rc = OB_SUCCESS → settled m' d).

Lemma ends_stop n m rc next m' d :
  switch_once m = Some ((rc, next), m') → next = false ∨ ob_failed rc = true → mode m' d → (rc = OB_SUCCESS → settled m' d) →
  ends (Datatypes.S n) m.
Proof.
  intros E Hn Hm Hs. exists rc, m', d. cbn [switch_loop]. rewrite (bind_run _ _ _ _ _ E).
  destruct Hn as [->| ->]; [|destruct next]; done.
Qed.

Lemma ends_next n m m' : switch_once m = Some ((OB_SUCCESS, true), m') → ends n m' → ends (Datatypes.S n) m.
Proof. intros E (rc & m2 & d & E2 & ?). exists rc, m2, d. cbn [switch_loop]. by rewrite (bind_run _ _ _ _ _ E). Qed.

Lemma need_switch_spec m : follower_active_need_switch_ m = false ↔ settled m Active.
Proof.
  unfold follower_active_need_switch_, settled, disagrees, need_update_leader_, elected.
  destruct (get_elect_leader_ m) as [rc [[l e]|]]; cbn [fst snd].
  - destruct (negb _ || negb _); [by split; [|intros []]|]. destruct (addr_is_valid l) eqn:Ev, (addr_eqb (self_ m) l) eqn:El; cbn [andb].
    2-4: split; [intros _; split; [done|]; intros; simplify_eq; congruence|done].
    rewrite negb_false_iff. split; [by intros ->|]. intros [_ Ha]. by apply (Ha l e).
  - destruct (addr_is_valid (leader_ m)); [by split; [|intros []]|]. change (addr_is_valid no_addr) with false. cbn [andb].
    split; [done|done].
Qed.

Lemma leading_ends n m : mode m Leading → disagrees m = false → stable → ends (Datatypes.S n) m.
Proof.
  intros Hm Hd Hs. destruct (once_leading m Hm) as (rc & m' & E & Hk & H1). rewrite Hd in *. destruct H1 as (-> & _ & Hw & Hl & He).
  eapply (ends_stop _ _ _ _ _ Leading); [exact E|by left|unfold mode; congruence|]. intros _. cbn. by erewrite disagrees_agree.
Qed.

Lemma follows_settled m m' :
  stable → kept m m' → (∀ e, ¬ elects_self m e) →
  (leader_ m', leader_epoch_ m') = default (no_addr, OB_INVALID_TIMESTAMP) (elected m) → settled m' Active.
Proof.
  intros Hs Hk Hn Hd. assert (∀ e, ¬ elects_self m' e) as Hn'.
  { intros e (l & E & El & Ha). apply (Hn e). exists l. rewrite <- (k_elected _ _ Hk Hs), <- (k_self _ _ Hk), <- (arb_kept _ _ Hk). done. }
  rewrite <- (k_elected _ _ Hk Hs) in Hd. split.
  - unfold disagrees, need_update_leader_, elected in *. destruct (get_elect_leader_ m') as [? [[l e]|]]; injection Hd as El Ee;
      cbn [fst]; rewrite El; [|done]. by rewrite Ee, addr_eqb_refl, Z.eqb_refl.
  - intros l e E Hv El. destruct (is_arb_replica m') eqn:Ea; [done|]. by destruct (Hn' e); exists l.
Qed.

Lemma active_ends n m : mode m Active → stable → ends (Datatypes.S (Datatypes.S n)) m.
Proof.
  intros Hm Hs. destruct (once_active m Hm) as (rc & next & m' & E & Hk & -> & H1). destruct (follower_active_need_switch_ m) eqn:En.
  - destruct H1 as [(e & He & [[Hf Hw]|Ht])|(Hn & -> & Hd & Hl)].
    + assert (rc ≠ OB_SUCCESS) by (by intros ->). destruct Hw as [Hw|(_ & Hw & _)]; eapply ends_stop; eauto; done.
    + destruct (ob_failed rc) eqn:Er; [eapply ends_stop; [exact E|by right|apply Ht|]; by intros ->|].
      apply ob_failed_false in Er as ->. eapply ends_next; [exact E|]. apply leading_ends; [apply Ht|by eapply disagrees_over|done].
    + pose proof (follows_settled _ _ Hs Hk Hn Hl) as Hq. eapply ends_next; [exact E|].
      destruct (once_active m' Hd) as (rc2 & next2 & m2 & E2 & Hk2 & -> & H2). rewrite (proj2 (need_switch_spec m') Hq) in *.
      destruct H2 as (-> & Hw & Hl2 & He2). eapply ends_stop; [exact E2|by left|exact Hw|]. intros _.
      split; [rewrite (disagrees_agree m' m2 Hs Hk2 Hl2 He2); apply Hq|]. rewrite (k_elected _ _ Hk2 Hs), (k_self _ _ Hk2), (arb_kept _ _ Hk2). apply Hq.
  - destruct H1 as (-> & Hw & Hl2 & He2). apply need_switch_spec in En as Hq. eapply ends_stop; [exact E|by left|exact Hw|]. intros _.
    split; [rewrite (disagrees_agree m m' Hs Hk Hl2 He2); apply Hq|]. rewrite (k_elected _ _ Hk Hs), (k_self _ _ Hk), (arb_kept _ _ Hk). apply Hq.
Qed.

Lemma reconfirm_ends n m : mode m Reconfirm → stable → ends (Datatypes.S n) m.
Proof.
  intros Hm Hs. destruct (once_reconfirm m Hm) as (rc & m' & E & Hk & H1).
  destruct H1 as [[_ H1]|(Hd & Hl & He & [[Hw Hf]|[Hw _]])].
  - destruct (ob_failed rc) eqn:Er; [|eapply ends_stop; [exact E|by left|apply H1|]; intros _; right; apply H1].
    eapply ends_stop; [exact E|by left|apply H1|]. by intros ->.
  - eapply ends_stop; [exact E|by left|exact Hw|]. by intros ->.
  - eapply ends_stop; [exact E|by left|exact Hw|]. intros _. cbn. by rewrite (disagrees_agree m m').
Qed.

Lemma pending_ends n m : mode m Pending → stable → ends (3 + n) m.
Proof.
  intros Hm Hs. destruct (once_pending m Hm) as (rc & next & m' & E & Hk & H1). destruct (is_pending_log_clear_ m) eqn:Ec.
  - destruct H1 as [Hw ->]. destruct (ob_failed rc) eqn:Er; [eapply ends_stop; [exact E|by right|exact Hw|]; by intros ->|].
    apply ob_failed_false in Er as ->. destruct (follower_active_need_switch_ m') eqn:En.
    + eapply ends_next; [exact E|]. by apply active_ends.
    + eapply ends_stop; [exact E|by left|exact Hw|]. intros _. by apply need_switch_spec.
  - destruct H1 as [(e & He & -> & [[Hf Hw]|(-> & Ht & _)])|(Hn & -> & -> & ->)].
    + eapply ends_stop; [exact E|by right|exact Hw|]. by intros ->.
    + eapply ends_next; [exact E|]. by apply reconfirm_ends; [apply Ht|].
    + eapply ends_stop; [exact E|by left|exact Hm|]. intros _. by left.
Qed.

Lemma mode_ends n m d : mode m d → stable → ends (4 + n) m.
Proof.
  intros Hm Hs. destruct d; [|by apply active_ends|by apply pending_ends|by apply reconfirm_ends|].
  - destruct (once_init m Hm) as (m' & E & H1). destruct (scan_disk_log_finished_ m) eqn:Es.
    + eapply ends_next; [exact E|]. apply active_ends; [apply H1|done].
    + subst m'. by eapply ends_stop; [exact E|by left|exact Hm|].
  - destruct (disagrees m) eqn:Ed; [|by apply leading_ends].
    destruct (once_leading m Hm) as (rc & m' & E & Hk & H1). rewrite Ed in *. destruct H1 as [_ H1]. destruct (ob_failed rc) eqn:Er.
    + eapply (ends_stop _ _ _ _ _ Leading); [exact E|by right| |by intros ->]. unfold mode. destruct H1 as (_ & -> & _). exact Hm.
    + apply ob_failed_false in Er as ->. eapply ends_next; [exact E|]. apply pending_ends; [apply H1|done].
Qed.

(** ** Every operation *)

(** A call of one of the operations, or a step of the other objects. *)
Inductive op : S → S → Prop :=
| op_init ok self pid vote ty m : op m (snd (init ok self pid vote ty m))
| op_destroy m : op m (destroy m)
| op_switch fuel rc m m' : switch_state fuel m = Some (rc, m') → op m m'
| op_changed b m m' : is_state_changed m = Some (b, m') → op m m'
| op_prepare server pid rc m m' : handle_prepare_request server pid m = Some (rc, m') → op m m'
| op_broadcast server rc m m' : handle_leader_broadcast server m = Some (rc, m') → op m m'
| op_truncate l m : op m (snd (truncate l m))
| op_scanned m : op m (snd (set_scan_disk_log_finished m))
| op_sync m : op m (snd (enable_sync m))
| op_nosync m : op m (snd (disable_sync m))
| op_novote_mem m : op m (snd (disable_vote_in_mem m))
| op_novote m : op m (snd (disable_vote m))
| op_vote m : op m (snd (enable_vote m))
| op_arb m : op m (snd (set_changing_config_with_arb m))
| op_noarb m : op m (snd (reset_changing_config_with_arb m))
| op_peers p m : op m (set_peers p m).

(** Operations that write neither the role, the leader nor the replica type. *)
Definition same_place m m' : Prop :=
  role_state_val_ m' = role_state_val_ m ∧ leader_ m' = leader_ m ∧ self_ m' = self_ m ∧ replica_type_ m' = replica_type_ m.

Lemma same_sound m m' d : same_place m m' → sound m d → sound m' d.
Proof. intros (Hw & Hl & Hs & Ht) [Hm Hd]. unfold sound, mode, is_arb_replica in *. by rewrite Hw, Hl, Hs, Ht. Qed.

Lemma fetch_run m : ∃ rc m', check_and_try_fetch_log_ m = Some (rc, m') ∧ same_place m m'.
Proof.
  unfold check_and_try_fetch_log_. rewrite bind_get'. repeat case_match; try (eexists _, _; split; [reflexivity|done]).
  rewrite bind_ask. case_match; (eexists _, _; split; [reflexivity|done]).
Qed.

Lemma changed_run m d : mode m d → ∃ b m', is_state_changed m = Some (b, m') ∧ same_place m m'.
Proof.
  intros Hm. unfold is_state_changed. rewrite bind_get'. destruct (mode_tests _ _ Hm) as (-> & -> & -> & -> & ->).
  destruct (fetch_run m) as (rc & m1 & E & H1). destruct d; rewrite (bool_decide_true _ eq_refl), ?bool_decide_false by done.
  - eexists _, _. by split; [reflexivity|].
  - rewrite (bind_run _ _ _ _ _ E). eexists _, _. by split; [reflexivity|].
  - rewrite (bind_run _ _ _ _ _ E). eexists _, _. by split; [reflexivity|].
  - unfold leader_reconfirm_need_switch_. rewrite bind_get'. destruct (is_reconfirm_need_wlock_ m); [eexists _, _; by split; [reflexivity|]|].
    destruct (timeout_run m) as (b & m2 & E2 & (Hk & Hw & Hl & _) & _). rewrite (bind_run _ _ _ _ _ E2).
    assert (same_place m m2) as H2 by (repeat split; [done|done|apply Hk|apply Hk]).
    destruct b; [eexists _, _; by split; [reflexivity|]|]. unfold is_reconfirm_state_changed_. unfold bind at 1. rewrite bind_ask. cbn [ret fst].
    case_match; (eexists _, _; by split; [reflexivity|]).
  - unfold leader_active_need_switch_. rewrite bind_get', (leader_mode _ _ Hm). cbn [leads].
    destruct (fst (need_update_leader_ m)); [eexists _, _; by split; [reflexivity|]|].
    unfold check_leader_log_sync_state_. rewrite bind_get'. repeat case_match; (eexists _, _; by split; [reflexivity|]).
Qed.

(** *** A prepare request *)

(** The leader is taken for [server] before the proposal id is written. *)
Definition take_leader (server : ObAddr) m : S :=
  if negb (addr_eqb server (leader_ m))
  then set_broadcast server (current_time (peers m)) (set_leader_and_epoch_ server (leader_epoch_ m) m) else m.

Lemma take_leader_eq server m : addr_eqb server (leader_ (take_leader server m)) = true.
Proof. unfold take_leader. destruct (addr_eqb server (leader_ m)) eqn:E; cbn; [done|]. apply addr_eqb_refl. Qed.

Lemma take_leader_sound server m d :
  sound m d → leads d = false ∨ addr_eqb server (self_ m) = true → sound (take_leader server m) d.
Proof.
  intros [Hm Hs] Hd. unfold take_leader. destruct (addr_eqb server (leader_ m)) eqn:E; cbn [negb]; [done|]. split; [exact Hm|].
  intros Hl. destruct Hd as [Hd|Hd]; [congruence|]. destruct (Hs Hl) as [El _]. congruence.
Qed.

Lemma reject_run server pid m :
  ∃ rc m', reject_prepare_request_ server pid m = Some (rc, m') ∧ same_place m m' ∧ log_proposal_id_ m' = log_proposal_id_ m.
Proof.
  unfold reject_prepare_request_. rewrite bind_get'. destruct (negb _); [by eexists _, _|]. destruct (_ || _); [by eexists _, _|].
  rewrite ask_run. by eexists _, _.
Qed.

Lemma write_prepare_run pid server m :
  is_inited_ m = true →
  ∃ rc m', write_prepare_meta_ pid server m = Some (rc, m') ∧ same_place m m' ∧
    log_proposal_id_ m' = (if ob_failed rc then log_proposal_id_ m else pid) ∧ is_inited_ m' = true.
Proof.
  intros Hi. unfold write_prepare_meta_. rewrite bind_get', Hi. cbn [negb].
  destruct (_ || _); [eexists OB_INVALID_ARGUMENT, _; by split; [reflexivity|]|]. rewrite bind_ask, run_if.
  destruct (ob_failed _) eqn:Er; [|eexists OB_SUCCESS, _; by split; [reflexivity|]].
  eexists _, _. split; [reflexivity|]. split; [done|]. by rewrite Er.
Qed.

Lemma prepare_down_run server m d :
  sound m d →
  ∃ rc m', (if negb (addr_eqb server (self_ m)) && role_is_leader m then
              if is_leader_reconfirm_ m then reconfirm_to_follower_pending_
              else if is_leader_active_ m then leader_active_to_follower_pending_ else ret OB_SUCCESS
            else ret OB_SUCCESS) m = Some (rc, m') ∧ kept m m' ∧
    ∃ d', sound m' d' ∧ (ob_failed rc = false → leads d' = false ∨ addr_eqb server (self_ m') = true).
Proof.
  intros [Hm Hs]. destruct (mode_tests _ _ Hm) as (_ & _ & _ & -> & ->). rewrite (leader_mode _ _ Hm).
  assert (∀ rc m', (if ob_failed rc then unchanged m m' else stepped_down m m' Pending) → kept m m' ∧
    ∃ d', sound m' d' ∧ (ob_failed rc = false → leads d' = false ∨ addr_eqb server (self_ m') = true)) as Hdown.
  { intros rc m' Hd. destruct (ob_failed rc).
    - destruct Hd as (Hk & Hw & Hl & _). split; [done|]. exists d. split; [by eapply sound_same|done].
    - destruct Hd as (Hk & Hw & _). split; [done|]. exists Pending. split; [by apply sound_down|by left]. }
  assert (∀ b, (b = true → leads d = false ∨ addr_eqb server (self_ m) = true) → b = true →
    ∃ rc m', ret OB_SUCCESS m = Some (rc, m') ∧ kept m m' ∧
    ∃ d', sound m' d' ∧ (ob_failed rc = false → leads d' = false ∨ addr_eqb server (self_ m') = true)) as Hstay.
  { intros b Hb ->. exists OB_SUCCESS, m. split; [done|]. split; [done|]. exists d. split; [done|]. intros _. by apply Hb. }
  destruct (addr_eqb server (self_ m)) eqn:Es; cbn [negb andb]; [apply (Hstay true); auto|].
  destruct d; cbn [leads]; rewrite ?bool_decide_false by done; [apply (Hstay true); by auto..| |].
  - rewrite (bool_decide_true _ eq_refl). destruct (reconfirm_to_pending_run m) as (rc & m' & E & _ & Hd). exists rc, m'. split; [done|]. by apply Hdown.
  - rewrite (bool_decide_true _ eq_refl). destruct (leading_to_pending_run m Hm) as (rc & m' & E & _ & Hd). exists rc, m'. split; [done|]. by apply Hdown.
Qed.

(** The whole request: a proposal id is replaced only by a greater one, and only by a
    replica that does not lead any more (or asks itself). *)
Lemma prepare_run server pid m d :
  sound m d → is_inited_ m = true →
  ∃ rc m' d', handle_prepare_request server pid m = Some (rc, m') ∧ sound m' d' ∧ self_ m' = self_ m ∧
    (log_proposal_id_ m' = log_proposal_id_ m ∨
     log_proposal_id_ m < pid ∧ log_proposal_id_ m' = pid ∧ rc = OB_SUCCESS ∧ addr_eqb server (leader_ m') = true ∧
     (leads d' = false ∨ addr_eqb server (self_ m) = true)) ∧
    (ob_failed rc = false → pid ≤ log_proposal_id_ m').
Proof.
  intros Hs Hi. unfold handle_prepare_request. rewrite bind_get', Hi. cbn [negb].
  destruct (_ || _) eqn:Ea; [exists OB_INVALID_ARGUMENT, m, d; split_and!; [done|done|done|by left|done]|].
  unfold get_proposal_id. destruct (Z.ltb_spec pid (log_proposal_id_ m)).
  { destruct (reject_run server (log_proposal_id_ m) m) as (rc & m' & E & Hsame & Hp). rewrite (bind_run _ _ _ _ _ E).
    exists OB_SUCCESS, m', d. split_and!; [done|by eapply same_sound|apply Hsame|by left|lia]. }
  destruct (Z.eqb_spec pid (log_proposal_id_ m)); [exists OB_SUCCESS, m, d; split_and!; [done|done|done|by left|lia]|].
  destruct (prepare_down_run server m d Hs) as (rc & m1 & E & Hk & d1 & Hs1 & Hd). rewrite (bind_run _ _ _ _ _ E), run_if.
  pose proof (k_self _ _ Hk) as Hself. pose proof (k_pid _ _ Hk) as Hpid.
  destruct (ob_failed rc) eqn:Er; [exists rc, m1, d1; split_and!; [done|done|done|by left|congruence]|].
  rewrite bind_modify. fold (take_leader server m1).
  assert (log_proposal_id_ (take_leader server m1) = log_proposal_id_ m ∧ is_inited_ (take_leader server m1) = true ∧
    self_ (take_leader server m1) = self_ m) as (Hp & Hi1 & Hself1).
  { pose proof (k_init _ _ Hk). unfold take_leader. destruct (negb (addr_eqb server (leader_ m1))); cbn; split_and!; congruence. }
  destruct (write_prepare_run pid server (take_leader server m1) Hi1) as (rc2 & m2 & E2 & Hsame & Hp2 & _).
  exists rc2, m2, d1. split; [exact E2|]. split; [by eapply same_sound, take_leader_sound; auto|].
  destruct Hsame as (_ & Hl2 & Hs2 & _). split; [congruence|]. destruct (ob_failed rc2) eqn:Er2.
  - split; [left; congruence|congruence].
  - apply ob_failed_false in Er2 as ->. split; [right|lia]. split_and!; [lia|done|done|by rewrite Hl2, take_leader_eq|].
    rewrite <- Hself. auto.
Qed.

Lemma op_sound m m' d : op m m' → sound m d → ∃ d', sound m' d'.
Proof.
  intros Hop Hs. destruct Hop;
    try (exists d; revert Hs; apply same_sound; unfold truncate, set_scan_disk_log_finished, enable_sync, disable_sync,
      disable_vote_in_mem, disable_vote, enable_vote, set_changing_config_with_arb, reset_changing_config_with_arb;
      repeat case_match; done).
  - unfold init. destruct (is_inited_ m); [by exists d|]. destruct ok; exists Init; (apply sound_down; [done|]); [done|].
    exact (mode_set FOLLOWER INIT Init m eq_refl eq_refl).
  - exists Init. apply sound_down; [done|]. exact (mode_set FOLLOWER INIT Init m eq_refl eq_refl).
  - unfold switch_state, bind in *. destruct (switch_loop fuel m) as [[rc1 m1]|] eqn:E; [|done]. injection H0 as _ <-.
    by destruct (loop_sound _ _ _ _ _ Hs E) as [_ ?].
  - destruct Hs as [Hm Hs]. destruct (changed_run m d Hm) as (b1 & m1 & E & Hp). assert (m1 = m') as -> by congruence.
    exists d. by eapply same_sound.
  - destruct (is_inited_ m) eqn:Hi.
    + destruct (prepare_run server pid m d Hs Hi) as (rc1 & m1 & d1 & E & Hs1 & _). assert (m1 = m') as -> by congruence. eauto.
    + unfold handle_prepare_request in *. rewrite bind_get', Hi in H0. injection H0 as _ <-. eauto.
  - unfold handle_leader_broadcast in *. rewrite bind_modify in H0. injection H0 as _ <-. exists d. by eapply same_sound.
Qed.

(** A replica after its [init] and any operations since. *)
Inductive reachable : S → Prop :=
| reach_init self pid vote ty m : is_inited_ m = false → reachable (snd (init true self pid vote ty m))
| reach_op m m' : reachable m → op m m' → reachable m'.

Lemma reachable_sound m : reachable m → ∃ d, sound m d.
Proof.
  induction 1 as [self pid vote ty m Hi|m m' _ [d Hd] Hop]; [|by eapply op_sound].
  exists Init. apply sound_down; [done|]. unfold init. by rewrite Hi.
Qed.

(** C28. Whatever operations run, with any behaviour of the objects around it, the word
    that packs the role and the state of a replica is one of five: follower and init,
    active or pending, leader and reconfirm or active; exactly one of the five tests
    of [switch_state] is true, the role test of the leader agrees with it, and the
    window may slide. *)
Theorem role_state_typed m :
  reachable m →
  ∃ d, role_state_val_ m = word d ∧
    is_follower_init_ m = bool_decide (d = Init) ∧ is_follower_active_ m = bool_decide (d = Active) ∧
    is_follower_pending_ m = bool_decide (d = Pending) ∧ is_leader_reconfirm_ m = bool_decide (d = Reconfirm) ∧
    is_leader_active_ m = bool_decide (d = Leading) ∧ role_is_leader m = leads d ∧ can_slide_sw m = true.
Proof.
  intros [d [Hm _]]%reachable_sound. exists d. split; [done|]. destruct (mode_tests _ _ Hm) as (H1 & H2 & H3 & H4 & H5).
  split_and!; [done..|by apply leader_mode|]. unfold can_slide_sw. rewrite H1, H2, H3, H4, H5. by destruct d.
Qed.

(** C26. A replica that leads is its own leader and is no arbitration replica, and it
    moves only along the diagram of [switch_state], each time for the reason the
    state tests: to active after the scan of the disk, to leader when the election
    names it, down when the election names another or another epoch, or when the
    confirmation fails or is late, and out of pending when the pending logs have
    slid. *)
Theorem leader_is_elected m rc next m' :
  reachable m → switch_once m = Some ((rc, next), m') →
  (role_is_leader m' = true → leader_ m' = self_ m' ∧ is_arb_replica m' = false) ∧
  ∃ d d', mode m d ∧ mode m' d' ∧ round m d d'.
Proof.
  intros [d Hd]%reachable_sound E. destruct (once_sound _ _ _ _ _ Hd E) as (_ & d' & [Hm Hs] & Hr).
  rewrite (leader_mode _ _ Hm). split; [exact Hs|]. exists d, d'. split; [apply Hd|done].
Qed.

(** C29. When no call of the objects around it changes what the election says, the loop
    of [switch_state] ends after four rounds at most, whatever state it starts from;
    and if no call failed, a replica that leads afterwards agrees with the election
    on the leader and on the epoch, an active follower knows the elected leader and
    is not itself elected (or is an arbitration replica), a replica still in init has
    not scanned its disk, no replica is left confirming, and a pending one, whose leader
    may still be another than the elected one, is not elected and waits for its logs to
    slide out, or has just given up a confirmation and knows no leader. *)
Theorem switch_state_settles n m :
  stable → reachable m →
  ∃ rc m' d, switch_loop (4 + n) m = Some (rc, m') ∧ mode m' d ∧ (rc = OB_SUCCESS → settled m' d) ∧
    switch_state (4 + n) m = Some (if OB_EAGAIN =? rc then OB_SUCCESS else rc, m').
Proof.
  intros Hs [d [Hm _]]%reachable_sound. destruct (mode_ends n m d Hm Hs) as (rc & m' & d' & E & Hm' & Hd).
  exists rc, m', d'. split_and!; [done..|]. unfold switch_state. by rewrite (bind_run _ _ _ _ _ E).
Qed.

(** C27. The promise of a replica: handling a prepare request always returns, never
    lowers the proposal id, raises it only to the one of the request, when that is
    greater and the meta was submitted, and only with the sender as leader and, if
    the sender is another server, after the replica stopped leading; a request that
    is not answered by an error leaves the proposal id at least as great as its own. *)
Theorem prepare_promise server pid m :
  reachable m → is_inited_ m = true →
  ∃ rc m', handle_prepare_request server pid m = Some (rc, m') ∧
    log_proposal_id_ m ≤ log_proposal_id_ m' ∧
    (log_proposal_id_ m' ≠ log_proposal_id_ m →
      log_proposal_id_ m' = pid ∧ rc = OB_SUCCESS ∧ addr_eqb server (leader_ m') = true ∧
      (addr_eqb server (self_ m) = false → role_is_leader m' = false)) ∧
    (rc = OB_SUCCESS → pid ≤ log_proposal_id_ m').
Proof.
  intros [d Hd]%reachable_sound Hi. destruct (prepare_run server pid m d Hd Hi) as (rc & m' & d' & E & [Hm' _] & _ & Hp & Hle).
  exists rc, m'. rewrite (leader_mode _ _ Hm'). split; [done|]. split; [destruct Hp as [Hp|(? & Hp & _)]; rewrite Hp; lia|].
  split; [|by intros ->; apply Hle]. intros Hne. destruct Hp as [Hp|(? & ? & ? & ? & Hor)]; [congruence|].
  split_and!; [done..|]. intros Hs. destruct Hor; congruence.
Qed.
End switch.

(** ** A replica among three, with peers that succeed *)
Section example.
Definition self0 : ObAddr := ipv4 10 0 0 1 2882.
Definition other0 : ObAddr := ipv4 10 0 0 2 2882.

(** The state of the peers: the elected leader with its epoch. *)
Local Instance quiet_peers : Peers (ObAddr * Z) := {|
  current_time _ := 100;
  get_current_leader_likely p := (OB_SUCCESS, p);
  sw_to_leader_reconfirm p := (OB_SUCCESS, p);
  sw_clean_log p := (OB_SUCCESS, p);
  sw_to_leader_active p := (OB_SUCCESS, p);
  sw_to_follower_pending p := (OB_SUCCESS, Lsn.mkLSN 4096, p);
  sw_get_last_slide_end_lsn _ := (OB_SUCCESS, Lsn.mkLSN 4096);
  sw_get_start_id _ := 7;
  sw_is_empty _ := true;
  sw_try_fetch_log p := (OB_SUCCESS, p);
  reconfirm_reset_state p := p;
  reconfirm_reconfirm p := (OB_SUCCESS, p);
  reconfirm_need_wlock _ := false;
  reconfirm_can_receive_log _ := true;
  mm_reset_status p := p;
  mm_get_config_version _ := OB_SUCCESS;
  mm_submit_broadcast_leader_info _ p := (OB_SUCCESS, p);
  mode_reset_status p := p;
  mode_can_append _ := true;
  mode_can_raw_write _ := false;
  mode_can_receive_log _ := true;
  on_role_change p := (OB_SUCCESS, p);
  submit_flush_prepare_meta_task _ p := (OB_SUCCESS, p);
  submit_prepare_meta_resp _ _ _ p := (OB_SUCCESS, p)
|}.

Lemma quiet_stable : @stable _ quiet_peers.
Proof. by split. Qed.

Definition blank : @LogStateMgr (ObAddr * Z) :=
  mkMgr false no_addr 0 0 no_addr OB_INVALID_TIMESTAMP 0 OB_INVALID_TIMESTAMP OB_INVALID_TIMESTAMP (Lsn.mkLSN Lsn.LOG_INVALID_LSN_VAL)
    false false false false NORMAL_REPLICA false OB_INVALID_TIMESTAMP no_addr OB_INVALID_TIMESTAMP (self0, 3).
Definition started : @LogStateMgr (ObAddr * Z) :=
  snd (set_scan_disk_log_finished (snd (init true self0 5 true NORMAL_REPLICA blank))).

Lemma started_reachable : reachable started.
Proof. eapply reach_op; [|apply op_scanned]. by apply reach_init. Qed.

Lemma role_state_typed_witness : ∃ d, role_state_val_ started = word d ∧ can_slide_sw started = true.
Proof. destruct (role_state_typed started started_reachable) as (d & Hd & Ht). exists d. split; [exact Hd|apply Ht]. Defined.

Lemma leader_is_elected_witness :
  ∃ m', switch_once started = Some ((OB_SUCCESS, true), m') ∧ ∃ d d', mode started d ∧ mode m' d' ∧ round started d d'.
Proof.
  eexists. split; [vm_compute; reflexivity|]. eapply leader_is_elected; [apply started_reachable|]. by vm_compute.
Defined.

Lemma switch_state_settles_witness :
  ∃ rc m' d, switch_loop (4 + 0) started = Some (rc, m') ∧ mode m' d ∧ (rc = OB_SUCCESS → settled m' d).
Proof.
  destruct (switch_state_settles 0 started quiet_stable started_reachable) as (rc & m' & d & ? & ? & ? & _).
  exists rc, m', d. split_and!; assumption.
Defined.

(** The replica takes the leadership in three rounds. *)
Example takes_leadership :
  match switch_loop 4 started with
  | Some (rc, m) => rc = OB_SUCCESS ∧ is_leader_active_ m = true ∧ leader_epoch_ m = 3 ∧ log_proposal_id_ m = 5
  | None => False
  end.
Proof. by vm_compute. Qed.

Lemma prepare_promise_witness :
  ∃ rc m', handle_prepare_request other0 6 started = Some (rc, m') ∧ log_proposal_id_ started ≤ log_proposal_id_ m'.
Proof.
  destruct (prepare_promise other0 6 started started_reachable eq_refl) as (rc & m' & ? & ? & _). by exists rc, m'.
Defined.
End example.
End StateSwitch.
