(* ===== verification/LogCommit.v ===== *)
(** The acknowledgements a leader collects and the end of the committed log: the part
    of [LogSlidingWindow] of [src/logservice/palf/log_sliding_window.cpp] around
    [match_lsn_map_] and [committed_end_lsn_], and what it asks [LogConfigMgr] of
    [log_config_mgr.cpp].

    The hash map from servers to acknowledgements is a finite map whose key is the part
    of an address that [==] and [hash] look at; it never runs out of memory here.
    [handle_committed_log_], [leader_broadcast_committed_info_] and
    [set_sync_to_degraded_learners] are reported as a list of calls. *)
From stdpp Require Import sorting.
From S2P Require Import Prelude Lsn MemberList.
Import MemberList.

Module LogCommit.
Abbreviation LSN := Lsn.LSN.
Definition no_lsn : LSN := Lsn.mkLSN Lsn.LOG_INVALID_LSN_VAL.
Definition PALF_INITIAL_LSN_VAL : Z := 0.
Definition LEADER_DEFAULT_GROUP_BUFFER_SIZE : Z := Z.shiftl 1 23.

(** ** What a server has acknowledged *)
Record LsnTsInfo : Set := mkInfo { lsn_ : LSN; last_ack_time_us_ : Z; last_advance_time_us_ : Z }.
Definition new_info (lsn : LSN) (ack_time_us : Z) : LsnTsInfo := mkInfo lsn ack_time_us ack_time_us.
Definition info_is_valid (v : LsnTsInfo) : bool :=
  Lsn.is_valid (lsn_ v) && negb (OB_INVALID_TIMESTAMP =? last_ack_time_us_ v).

(** [UpdateMatchLsnFunc]: the result and the new value. *)
Definition UpdateMatchLsnFunc (new_end_lsn : LSN) (new_ack_time_us : Z) (value : LsnTsInfo) : bool * LsnTsInfo :=
  if negb (info_is_valid value) then (false, value)
  else if Lsn.lsn_leb (lsn_ value) new_end_lsn then
    (true,
     if Lsn.lsn_ltb (lsn_ value) new_end_lsn then mkInfo new_end_lsn new_ack_time_us new_ack_time_us
     else mkInfo new_end_lsn (last_ack_time_us_ value) (last_advance_time_us_ value))
  else (true, value).
(** [GetLaggedListFunc], called for every entry. *)
Definition GetLaggedListFunc (dst_lsn : LSN) (server : ObAddr) (value : LsnTsInfo) (lagged_list : ObMemberList) : ObMemberList :=
  if negb (info_is_valid value) then lagged_list
  else if Lsn.lsn_geb (lsn_ value) dst_lsn then lagged_list
  else snd (add_server server lagged_list).

(** An entry keeps the address it was inserted with. *)
Abbreviation AckMap := (AddrMap (ObAddr * LsnTsInfo)).
Definition map_get (server : ObAddr) (f : AckMap) : option LsnTsInfo := snd <$> f !! code server.
Definition map_insert (server : ObAddr) (v : LsnTsInfo) (f : AckMap) : Z * AckMap :=
  match f !! code server with
  | Some _ => (OB_ENTRY_EXIST, f)
  | None => (OB_SUCCESS, <[code server := (server, v)]> f)
  end.
Definition map_erase (server : ObAddr) (f : AckMap) : AckMap := delete (code server) f.
Definition map_operate (server : ObAddr) (fn : LsnTsInfo → bool * LsnTsInfo) (f : AckMap) : Z * AckMap :=
  match f !! code server with
  | None => (OB_ENTRY_NOT_EXIST, f)
  | Some (a, v) => let '(b, v') := fn v in (if (b : bool) then OB_SUCCESS else OB_EAGAIN, <[code server := (a, v')]> f)
  end.

(** ** [LogConfigMgr]: the member lists in use *)
Record LogConfigMgr : Type := mkConfig {
  cm_inited : bool;
  curr_memberlist : ObMemberList;
  curr_replica_num : Z;
  prev_memberlist : ObMemberList;
  prev_replica_num : Z;
  degraded_learnerlist : list ObMember;
  barrier_prev_end_lsn : LSN;
  barrier_prev_mode_pid : Z;
  last_submit_mode_pid : Z
}.
Definition get_log_sync_member_list (cm : LogConfigMgr) : Z * (ObMemberList * Z) :=
  if negb (cm_inited cm) then (OB_NOT_INIT, ([], 0)) else (OB_SUCCESS, (curr_memberlist cm, curr_replica_num cm)).
Definition get_degraded_learner_list (cm : LogConfigMgr) : Z * list ObMember :=
  if negb (cm_inited cm) then (OB_NOT_INIT, []) else (OB_SUCCESS, degraded_learnerlist cm).
Definition learners_contain (server : ObAddr) (l : list ObMember) : bool :=
  if negb (addr_is_valid server) then false else existsb (λ m, addr_eqb (server_ m) server) l.

(** The lists, and whether the previous one still counts. *)
Record Lists : Type := mkLists { l_prev : ObMemberList; l_prev_num : Z; l_curr : ObMemberList; l_curr_num : Z; l_before : bool; l_barrier : LSN }.
Definition get_log_sync_member_list_for_generate_committed_lsn (prev_committed_end_lsn : LSN) (cm : LogConfigMgr) : Z * Lists :=
  let init := Lsn.mkLSN PALF_INITIAL_LSN_VAL in
  if negb (cm_inited cm) then (OB_NOT_INIT, mkLists [] 0 [] 0 false init)
  else if Lsn.lsn_ltb prev_committed_end_lsn (barrier_prev_end_lsn cm) && Lsn.is_valid (barrier_prev_end_lsn cm)
          && (last_submit_mode_pid cm =? barrier_prev_mode_pid cm)
  then (OB_SUCCESS, mkLists (prev_memberlist cm) (prev_replica_num cm) (curr_memberlist cm) (curr_replica_num cm) true (barrier_prev_end_lsn cm))
  else (OB_SUCCESS, mkLists [] 0 (curr_memberlist cm) (curr_replica_num cm) false init).

(** ** The state *)
Record Acks : Type := mkAcks {
  sw_self : ObAddr;
  match_lsn_map_ : AckMap;
  committed_end_lsn_ : LSN;
  max_flushed_end_lsn_ : LSN
}.
Implicit Types (a : Acks) (cm : LogConfigMgr) (ml : ObMemberList).
Definition set_map (f : AckMap) a : Acks := mkAcks (sw_self a) f (committed_end_lsn_ a) (max_flushed_end_lsn_ a).
Definition set_committed (l : LSN) a : Acks := mkAcks (sw_self a) (match_lsn_map_ a) l (max_flushed_end_lsn_ a).

Inductive Call : Set := BroadcastCommittedInfo (l : LSN) | SetSyncToDegradedLearners | HandleCommittedLog.

(** ** The committed end *)
Definition try_advance_committed_lsn_ (end_lsn : LSN) a : Z * Acks :=
  if negb (Lsn.is_valid end_lsn) then (OB_INVALID_ARGUMENT, a)
  else (OB_SUCCESS, if Lsn.lsn_gtb end_lsn (committed_end_lsn_ a) then set_committed end_lsn a else a).

(** [LSNCompare] sorts in descending order. *)
Definition lsn_after (x y : LSN) : Prop := Lsn.val_ y ≤ Lsn.val_ x.
#[global] Instance lsn_after_dec x y : Decision (lsn_after x y) := Z_le_dec _ _.
Definition lsn_sort (l : list LSN) : list LSN := merge_sort lsn_after l.

(** The acknowledged ends of the members that have an entry. *)
Definition lsn_array ml (f : AckMap) : list LSN := omap (λ m, lsn_ <$> map_get (server_ m) f) ml.
Definition get_majority_lsn_ ml (replica_num : Z) (f : AckMap) : Z * LSN :=
  let arr := lsn_array ml f in
  if Z.of_nat (length arr) <? Z.quot replica_num 2 + 1 then (OB_SUCCESS, no_lsn)
  else
    let result_lsn := default no_lsn (lsn_sort arr !! Z.to_nat (Z.quot replica_num 2)) in
    (if negb (Lsn.is_valid result_lsn) then OB_ERR_UNEXPECTED else OB_SUCCESS, result_lsn).

Definition lsn_max (x y : LSN) : LSN := if Lsn.lsn_gtb x y then x else y.
Definition lsn_min (x y : LSN) : LSN := if Lsn.lsn_ltb x y then x else y.
(** The code, [new_committed_end_lsn] and the new state. *)
Definition gen_committed_end_lsn_ cm (changing_config_with_arb : bool) a : Z * LSN * Acks :=
  let '(rc, ls) := get_log_sync_member_list_for_generate_committed_lsn (committed_end_lsn_ a) cm in
  if ob_failed rc then (rc, no_lsn, a)
  else
    let '(rc, curr_result_lsn) := get_majority_lsn_ (l_curr ls) (l_curr_num ls) (match_lsn_map_ a) in
    if ob_failed rc then (rc, no_lsn, a)
    else
      let '(rc, prev_result_lsn) :=
        if l_before ls then get_majority_lsn_ (l_prev ls) (l_prev_num ls) (match_lsn_map_ a) else (OB_SUCCESS, no_lsn) in
      if ob_failed rc then (rc, no_lsn, a)
      else
        let result_lsn := if l_before ls then lsn_max prev_result_lsn curr_result_lsn else curr_result_lsn in
        let result_lsn := if l_before ls then lsn_min result_lsn (l_barrier ls) else result_lsn in
        (OB_SUCCESS, result_lsn, if changing_config_with_arb then a else snd (try_advance_committed_lsn_ result_lsn a)).
Definition gen_committed_end_lsn_with_memberlist_ ml (replica_num : Z) a : Z * Acks :=
  if negb (list_is_valid ml) || (replica_num <=? 0) || (replica_num <? get_member_number ml) then (OB_INVALID_ARGUMENT, a)
  else
    let '(rc, result_lsn) := get_majority_lsn_ ml replica_num (match_lsn_map_ a) in
    if ob_failed rc then (rc, a) else (OB_SUCCESS, snd (try_advance_committed_lsn_ result_lsn a)).
Definition get_majority_match_lsn cm a : Z * LSN :=
  let '(rc, (member_list, replica_num)) := get_log_sync_member_list cm in
  if ob_failed rc then (rc, no_lsn)
  else let '(rc, l) := get_majority_lsn_ member_list replica_num (match_lsn_map_ a) in
       if ob_failed rc then (rc, no_lsn) else (OB_SUCCESS, l).

(** ** The acknowledgements *)
Definition try_update_match_lsn_map_ (now_us : Z) (server : ObAddr) (end_lsn : LSN) a : Z * Acks :=
  if negb (addr_is_valid server) || negb (Lsn.is_valid end_lsn) then (OB_INVALID_ARGUMENT, a)
  else match map_get server (match_lsn_map_ a) with
       | None => let '(rc, f) := map_insert server (new_info end_lsn now_us) (match_lsn_map_ a) in (rc, set_map f a)
       | Some _ =>
           let '(rc, f) := map_operate server (UpdateMatchLsnFunc end_lsn now_us) (match_lsn_map_ a) in (rc, set_map f a)
       end.
Fixpoint reset_fill (now_us : Z) (l : list ObMember) a : Z * Acks :=
  match l with
  | [] => (OB_SUCCESS, a)
  | m :: l =>
      let tmp_match_lsn := if addr_eqb (sw_self a) (server_ m) then max_flushed_end_lsn_ a else committed_end_lsn_ a in
      let '(rc, f) := map_insert (server_ m) (new_info tmp_match_lsn now_us) (match_lsn_map_ a) in
      if ob_failed rc then (rc, set_map f a) else reset_fill now_us l (set_map f a)
  end.
Definition reset_match_lsn_map_ (now_us : Z) cm a : Z * Acks :=
  let '(rc, (member_list, _)) := get_log_sync_member_list cm in
  if ob_failed rc then (rc, a) else reset_fill now_us member_list (set_map ∅ a).

(** The code, the calls in order and the new state. *)
Definition ack_log (inited leader_active changing_config_with_arb : bool) (max_lsn : LSN) (now_us : Z) cm
    (src_server : ObAddr) (end_lsn : LSN) a : Z * list Call * Acks :=
  if negb inited then (OB_NOT_INIT, [], a)
  else if negb (addr_is_valid src_server) || negb (Lsn.is_valid end_lsn) then (OB_INVALID_ARGUMENT, [], a)
  else
    let '(rc, (member_list, _)) := get_log_sync_member_list cm in
    if ob_failed rc then (rc, [], a)
    else
      let '(rc, degraded) := get_degraded_learner_list cm in
      if ob_failed rc then (rc, [], a)
      else
        let in_degraded_list := learners_contain src_server degraded in
        if negb (contains src_server member_list) && negb in_degraded_list then (OB_SUCCESS, [], a)
        else
          let '(rc, a1) := try_update_match_lsn_map_ now_us src_server end_lsn a in
          if ob_failed rc then (rc, [], a1)
          else if leader_active then
            let '(_, new_committed_end_lsn, a2) := gen_committed_end_lsn_ cm changing_config_with_arb a1 in
            (OB_SUCCESS,
             (if Lsn.lsn_gtb new_committed_end_lsn (committed_end_lsn_ a1) then [BroadcastCommittedInfo new_committed_end_lsn] else [])
             ++ (if in_degraded_list && Lsn.lsn_geb end_lsn (Lsn.lsn_sub max_lsn (2 * LEADER_DEFAULT_GROUP_BUFFER_SIZE))
                 then [SetSyncToDegradedLearners] else [])
             ++ [HandleCommittedLog], a2)
          else (OB_SUCCESS, [HandleCommittedLog], a1).
(** The leader's own flush: the part of [after_flush_log] under the role tests. *)
Definition leader_flushed (leader leader_active changing_config_with_arb : bool) (now_us : Z) cm (log_end_lsn : LSN) a : Acks :=
  let a := if leader then snd (try_update_match_lsn_map_ now_us (sw_self a) log_end_lsn a) else a in
  if leader_active then snd (gen_committed_end_lsn_ cm changing_config_with_arb a) else a.

Definition config_change_update_match_lsn_map (inited leader_active changing_config_with_arb : bool) (now_us : Z) cm
    (added_memberlist removed_memberlist new_log_sync_memberlist : ObMemberList) (new_replica_num : Z) a : Z * list Call * Acks :=
  if negb inited then (OB_NOT_INIT, [], a)
  else
    let init_lsn := Lsn.mkLSN PALF_INITIAL_LSN_VAL in
    let f := foldl (λ f m, snd (map_insert (server_ m) (new_info init_lsn now_us) f)) (match_lsn_map_ a) added_memberlist in
    let f := foldl (λ f m, map_erase (server_ m) f) f removed_memberlist in
    let '(_, _, a) := gen_committed_end_lsn_ cm changing_config_with_arb (set_map f a) in
    (OB_SUCCESS, [HandleCommittedLog],
     if leader_active then snd (gen_committed_end_lsn_with_memberlist_ new_log_sync_memberlist new_replica_num a) else a).

(** ** Reading them *)
Definition get_server_ack_info (inited : bool) (server : ObAddr) a : Z * option LsnTsInfo :=
  if negb inited then (OB_NOT_INIT, None)
  else if negb (addr_is_valid server) then (OB_INVALID_ARGUMENT, None)
  else match map_get server (match_lsn_map_ a) with None => (OB_ENTRY_NOT_EXIST, None) | Some v => (OB_SUCCESS, Some v) end.
Record LogMemberAckInfo : Set := mkAckInfo { member_ : ObMember; ack_time_us : Z; last_flushed_end_lsn_ : LSN }.
Definition ack_info (m : ObMember) (v : LsnTsInfo) : LogMemberAckInfo := mkAckInfo m (last_ack_time_us_ v) (lsn_ v).
Fixpoint member_acks (f : AckMap) (l : list ObMember) : Z * list LogMemberAckInfo :=
  match l with
  | [] => (OB_SUCCESS, [])
  | m :: l =>
      match map_get (server_ m) f with
      | None => (OB_ENTRY_NOT_EXIST, [])
      | Some v => let '(rc, r) := member_acks f l in (rc, ack_info m v :: r)
      end
  end.
Definition get_ack_info_array (inited : bool) cm a : Z * list LogMemberAckInfo :=
  if negb inited then (OB_NOT_INIT, [])
  else
    let '(rc, (member_list, _)) := get_log_sync_member_list cm in
    if ob_failed rc then (rc, [])
    else
      let '(rc, degraded) := get_degraded_learner_list cm in
      if ob_failed rc then (rc, [])
      else
        let '(rc, r) := member_acks (match_lsn_map_ a) member_list in
        if ob_failed rc then (rc, r)
        else (OB_SUCCESS, r ++ omap (λ m, ack_info m <$> map_get (server_ m) (match_lsn_map_ a)) degraded).
Definition degrade_check (is_degrade : bool) (f : AckMap) (i : LogMemberAckInfo) : Z :=
  match map_get (server_ (member_ i)) f with
  | None => OB_OP_NOT_ALLOW
  | Some v =>
      if is_degrade then (if negb (last_ack_time_us_ v =? ack_time_us i) then OB_OP_NOT_ALLOW else OB_SUCCESS)
      else (if Lsn.lsn_ltb (lsn_ v) (last_flushed_end_lsn_ i) then OB_OP_NOT_ALLOW else OB_SUCCESS)
  end.
Fixpoint degrade_loop (is_degrade : bool) (f : AckMap) (l : list LogMemberAckInfo) : Z :=
  match l with
  | [] => OB_SUCCESS
  | i :: l => let rc := degrade_check is_degrade f i in if ob_failed rc then rc else degrade_loop is_degrade f l
  end.
Definition pre_check_before_degrade_upgrade (inited : bool) (servers : list LogMemberAckInfo) (is_degrade : bool) a : Z :=
  if negb inited then OB_NOT_INIT else degrade_loop is_degrade (match_lsn_map_ a) servers.
(** [order]: the order in which the hash map calls the function. *)
Definition get_lagged_member_list (order : list (ObAddr * LsnTsInfo)) (dst_lsn : LSN) : Z * ObMemberList :=
  if negb (Lsn.is_valid dst_lsn) then (OB_INVALID_ARGUMENT, [])
  else (OB_SUCCESS, foldl (λ l e, GetLaggedListFunc dst_lsn (fst e) (snd e) l) [] order).
End LogCommit.
