(* ===== verification/CommitSafety.v ===== *)
(** Why [committed_end_lsn_] may be trusted: the majority end of [get_majority_lsn_] is
    the greatest LSN a majority has acknowledged, and a leader moves the committed end
    only to an LSN that the servers of a majority of its configuration really
    acknowledged, but for one case at the barrier of a change. *)
From stdpp Require Import sorting.
From S2P Require Import Prelude Lsn MemberList LogCommit.
Import MemberList LogCommit.

Module CommitSafety.
Implicit Types (a : Acks) (cm : LogConfigMgr) (ml : list ObMember) (f : AckMap).

(** ** The greatest LSN of a majority *)
Definition reached f (l : LSN) (m : ObMember) : Prop :=
  match map_get (server_ m) f with Some v => Lsn.val_ l ≤ Lsn.val_ (lsn_ v) | None => False end.
#[export] Instance reached_dec f l m : Decision (reached f l m).
Proof. unfold reached. destruct (map_get _ _); apply _. Defined.
Definition majority f (ml : list ObMember) (n : Z) (l : LSN) : Prop := Z.quot n 2 < Z.of_nat (length (filter (reached f l) ml)).
Definition known f ml (n : Z) : Prop := Z.quot n 2 < Z.of_nat (length (lsn_array ml f)).
#[export] Instance known_dec f ml n : Decision (known f ml n) := Z_lt_dec _ _.
Definition acks_valid f : Prop := map_Forall (λ _ e, Lsn.is_valid (lsn_ (snd e)) = true) f.

#[export] Instance lsn_after_trans : Transitive lsn_after.
Proof. intros ???. unfold lsn_after. lia. Qed.
#[export] Instance lsn_after_total : Total lsn_after.
Proof. intros x y. unfold lsn_after. destruct (Z.le_ge_cases (Lsn.val_ y) (Lsn.val_ x)); [by left|by right]. Qed.

Lemma length_filter_all {A} (Q : A → Prop) `{∀ x, Decision (Q x)} l : Forall Q l → length (filter Q l) = length l.
Proof. induction 1 as [|x l Hx _ IH]; [done|]. rewrite filter_cons, decide_True by done. simpl. lia. Qed.
Lemma length_filter_none {A} (Q : A → Prop) `{∀ x, Decision (Q x)} l : Forall (λ x, ¬ Q x) l → length (filter Q l) = 0%nat.
Proof. induction 1 as [|x l Hx _ IH]; [done|]. by rewrite filter_cons, decide_False. Qed.

(** In a descending list, the [k]-th element bounds what [k+1] elements reach. *)
Lemma sorted_kth (s : list LSN) k x y :
  StronglySorted lsn_after s → s !! k = Some x →
  (k < length (filter (λ z, lsn_after z y) s))%nat ↔ lsn_after x y.
Proof.
  intros Hs Hk. apply list_elem_of_split_length in Hk as (s1 & s2 & -> & ->). rewrite filter_app, length_app.
  apply StronglySorted_app in Hs as (Hb & _ & Hs). apply StronglySorted_inv in Hs as [_ H2]. rewrite Forall_forall in H2.
  rewrite filter_cons. unfold lsn_after in *. case_decide as E; simpl.
  - split; [done|]. intros _. rewrite length_filter_all; [lia|]. apply Forall_forall. intros z Hz.
    specialize (Hb z x Hz (list_elem_of_here _ _)). lia.
  - split; [|done]. rewrite (length_filter_none _ s2).
    + pose proof (length_filter (λ z, Lsn.val_ y ≤ Lsn.val_ z) s1). lia.
    + apply Forall_forall. intros z Hz. specialize (H2 z Hz). lia.
Qed.

Lemma reached_count f ml l : length (filter (reached f l) ml) = length (filter (λ z, lsn_after z l) (lsn_array ml f)).
Proof.
  unfold lsn_array. induction ml as [|m ml IH]; [done|]. cbn [omap list_omap]. rewrite filter_cons.
  assert (reached f l m ↔ ∃ v, map_get (server_ m) f = Some v ∧ lsn_after (lsn_ v) l) as Hr.
  { unfold reached. destruct (map_get (server_ m) f); [naive_solver|naive_solver]. }
  destruct (map_get (server_ m) f) as [v|]; cbn [fmap option_fmap option_map].
  - rewrite filter_cons. destruct (decide (lsn_after (lsn_ v) l)); [rewrite decide_True|rewrite decide_False];
      [simpl; f_equal; apply IH|naive_solver|apply IH|naive_solver].
  - rewrite decide_False by naive_solver. apply IH.
Qed.

Lemma array_valid f ml x : acks_valid f → x ∈ lsn_array ml f → Lsn.is_valid x = true.
Proof.
  intros Hv. unfold lsn_array. rewrite list_elem_of_omap. intros (m & _ & E). unfold map_get in E.
  destruct (f !! code (server_ m)) as [[s v]|] eqn:Ef; [|done]. simplify_eq/=. apply (Hv _ _ Ef).
Qed.

Lemma majority_lsn_spec ml n f :
  0 < n → acks_valid f →
  ∃ r, get_majority_lsn_ ml n f = (OB_SUCCESS, r) ∧
    if decide (known f ml n) then Lsn.is_valid r = true ∧ ∀ l, majority f ml n l ↔ Lsn.val_ l ≤ Lsn.val_ r
    else r = no_lsn ∧ ∀ l, ¬ majority f ml n l.
Proof.
  intros Hn Hv. unfold get_majority_lsn_, majority, known. pose proof (Z.quot_pos n 2) as Hq.
  destruct (Z.ltb_spec (Z.of_nat (length (lsn_array ml f))) (Z.quot n 2 + 1)).
  { exists no_lsn. split; [done|]. rewrite decide_False by lia. split; [done|]. intros l. rewrite reached_count.
    pose proof (length_filter (λ z, lsn_after z l) (lsn_array ml f)). lia. }
  set (s := lsn_sort (lsn_array ml f)).
  assert (s ≡ₚ lsn_array ml f) as Hp by apply merge_sort_Permutation.
  assert (StronglySorted lsn_after s) as Hs by (apply StronglySorted_merge_sort; apply _).
  destruct (lookup_lt_is_Some_2 s (Z.to_nat (Z.quot n 2))) as [x Hx]; [rewrite Hp; lia|]. rewrite Hx. change (default no_lsn (Some x)) with x.
  assert (Lsn.is_valid x = true) as Hvx by (apply (array_valid f ml); [done|]; rewrite <- Hp; by eapply list_elem_of_lookup_2).
  exists x. rewrite decide_True by lia. rewrite Hvx. cbn [negb]. split; [done|]. split; [done|]. intros l. rewrite reached_count.
  pose proof (sorted_kth s _ x l Hs Hx) as Hk. rewrite Hp in Hk. unfold lsn_after at 2 in Hk. rewrite <- Hk. lia.
Qed.

(** ** A leader and what it was told *)

(** Acknowledgements: who has flushed its log up to where. *)
Definition History : Type := list (ObAddr * LSN).
Implicit Types h : History.

Definition told h (l : LSN) (m : ObMember) : Prop :=
  Exists (λ e, code (fst e) = key m ∧ Lsn.val_ l ≤ Lsn.val_ (snd e)) h.
#[export] Instance told_dec h l m : Decision (told h l m) := _.
(** More than half of [n] replicas, members of [ml], have flushed up to [l]. *)
Definition backed h ml (n : Z) (l : LSN) : Prop := Z.quot n 2 < Z.of_nat (length (filter (told h l) ml)).

(** An entry of the map is not ahead of the committed end, or was acknowledged. *)
Record ok a h : Prop := {
  ok_entry k s v : match_lsn_map_ a !! k = Some (s, v) →
    Lsn.val_ (lsn_ v) ≤ Lsn.val_ (committed_end_lsn_ a) ∨ ∃ s' : ObAddr, (s', lsn_ v) ∈ h ∧ code s' = k;
  ok_valid : acks_valid (match_lsn_map_ a);
  ok_committed : 0 ≤ Lsn.val_ (committed_end_lsn_ a);
  ok_self : wf_addr (sw_self a)
}.

(** The operations of a leader.  The history of a leader begins with its own log. *)
Inductive step cm : Acks → History → Acks → History → Prop :=
| step_reset now a h rc a' :
    Lsn.is_valid (max_flushed_end_lsn_ a) = true → Lsn.is_valid (committed_end_lsn_ a) = true →
    reset_match_lsn_map_ now cm a = (rc, a') →
    step cm a h a' ((sw_self a, max_flushed_end_lsn_ a) :: h)
| step_ack inited active changing max now src l a h rc cs a' :
    ack_log inited active changing max now cm src l a = (rc, cs, a') → step cm a h a' ((src, l) :: h)
| step_flush leader active changing now l a h a' :
    leader_flushed leader active changing now cm l a = a' → step cm a h a' ((sw_self a, l) :: h)
| step_config inited active changing now added removed a h rc cs a' :
    config_change_update_match_lsn_map inited active changing now cm added removed (curr_memberlist cm) (curr_replica_num cm) a
      = (rc, cs, a') →
    step cm a h a' h.

Lemma told_mono h h' l m : h ⊆ h' → told h l m → told h' l m.
Proof. unfold told. rewrite !Exists_exists. set_solver. Qed.

Lemma ok_mono a h h' : h ⊆ h' → ok a h → ok a h'.
Proof. intros Hh [He Hv Hc Hs]. split; [|done..]. intros k s v Hk. destruct (He k s v Hk) as [?|(s' & ? & ?)]; [by left|right; exists s'; set_solver]. Qed.

Lemma ok_insert a h k s v :
  ok a h → Lsn.is_valid (lsn_ v) = true →
  Lsn.val_ (lsn_ v) ≤ Lsn.val_ (committed_end_lsn_ a) ∨ (∃ s' : ObAddr, (s', lsn_ v) ∈ h ∧ code s' = k) →
  ok (set_map (<[k := (s, v)]> (match_lsn_map_ a)) a) h.
Proof.
  intros [He Hv Hc Hs] Hl Hor. split; [|by apply map_Forall_insert_2|done..]. intros k' s' v'. cbn [match_lsn_map_ set_map committed_end_lsn_].
  rewrite lookup_insert_Some. intros [[<- ?]|[_ Hk]]; [by simplify_eq|by eapply He].
Qed.

Lemma ok_delete a h k : ok a h → ok (set_map (delete k (match_lsn_map_ a)) a) h.
Proof.
  intros [He Hv Hc Hs]. split; [|by apply map_Forall_delete|done..]. intros k' s' v'. cbn [match_lsn_map_ set_map committed_end_lsn_].
  rewrite lookup_delete_Some. intros [_ Hk]. by eapply He.
Qed.

Lemma ok_advance a h l : ok a h → ok (snd (try_advance_committed_lsn_ l a)) h.
Proof.
  intros [He Hv Hc Hs]. unfold try_advance_committed_lsn_. destruct (negb _); [done|]. unfold Lsn.lsn_gtb, Lsn.lsn_ltb.
  destruct (Z.ltb_spec (Lsn.val_ (committed_end_lsn_ a)) (Lsn.val_ l)); [|done]. split; [|done|simpl; lia|done].
  intros k s v Hk. destruct (He k s v Hk) as [?|?]; [left; simpl; lia|by right].
Qed.

(** An LSN beyond the committed end that a majority of entries reaches was told by a majority. *)
Lemma majority_backed a h ml n l :
  ok a h → Lsn.val_ (committed_end_lsn_ a) < Lsn.val_ l → majority (match_lsn_map_ a) ml n l → backed h ml n l.
Proof.
  intros Hok Hl. unfold majority, backed. intros Hm. eapply Z.lt_le_trans; [exact Hm|]. apply inj_le.
  assert (∀ m, reached (match_lsn_map_ a) l m → told h l m) as Hsub; [|clear Hm].
  { intros m Hr. unfold reached, map_get in Hr. destruct (match_lsn_map_ a !! code (server_ m)) as [[s v]|] eqn:E; [|done].
    destruct (ok_entry _ _ Hok _ _ _ E) as [?|(s' & Hin & Hs')]; [simpl in Hr; lia|]. apply Exists_exists. by exists (s', lsn_ v). }
  induction ml as [|m ml IH]; [done|]. rewrite !filter_cons. repeat case_decide; simpl; [lia|naive_solver|lia|done].
Qed.

(** ** Moving the committed end *)
Definition before cm a : bool :=
  Lsn.lsn_ltb (committed_end_lsn_ a) (barrier_prev_end_lsn cm) && Lsn.is_valid (barrier_prev_end_lsn cm)
  && (last_submit_mode_pid cm =? barrier_prev_mode_pid cm).
(** More than half of the members of both lists have an entry. *)
Definition lists_known cm f : Prop :=
  known f (curr_memberlist cm) (curr_replica_num cm) ∧ known f (prev_memberlist cm) (prev_replica_num cm).
#[export] Instance lists_known_dec cm f : Decision (lists_known cm f) := _.
(** Why the committed end may be [l]: the current list of the configuration has flushed up
    to it; or the barrier of a change is not reached yet, [l] is not beyond it, and the
    previous list has; or the barrier is not reached, one of the two lists lacks entries,
    and [l] is the barrier. *)
Definition justified cm a f h (l : LSN) : Prop :=
  backed h (curr_memberlist cm) (curr_replica_num cm) l ∨
  before cm a = true ∧ Lsn.val_ l ≤ Lsn.val_ (barrier_prev_end_lsn cm) ∧ backed h (prev_memberlist cm) (prev_replica_num cm) l ∨
  before cm a = true ∧ l = barrier_prev_end_lsn cm ∧ ¬ lists_known cm f.
Definition moved cm a h a' : Prop :=
  committed_end_lsn_ a' = committed_end_lsn_ a ∨
  Lsn.val_ (committed_end_lsn_ a) < Lsn.val_ (committed_end_lsn_ a') ∧
  justified cm a (match_lsn_map_ a') h (committed_end_lsn_ a').
Record config_ok cm : Prop := {
  c_curr : 0 < curr_replica_num cm;
  c_prev : 0 < prev_replica_num cm;
  c_wf : Forall (λ m, wf_addr (server_ m)) (curr_memberlist cm)
}.

Lemma advance_cases l a :
  let a' := snd (try_advance_committed_lsn_ l a) in
  match_lsn_map_ a' = match_lsn_map_ a ∧
  (a' = a ∨ Lsn.is_valid l = true ∧ Lsn.val_ (committed_end_lsn_ a) < Lsn.val_ l ∧ committed_end_lsn_ a' = l).
Proof.
  unfold try_advance_committed_lsn_. destruct (Lsn.is_valid l) eqn:Ev; cbn [negb snd]; [|by split; [|left]].
  unfold Lsn.lsn_gtb, Lsn.lsn_ltb. destruct (Z.ltb_spec (Lsn.val_ (committed_end_lsn_ a)) (Lsn.val_ l)); (split; [done|]); [by right|by left].
Qed.

Lemma lsn_min_le x y : Lsn.val_ (lsn_min x y) ≤ Lsn.val_ x ∧ Lsn.val_ (lsn_min x y) ≤ Lsn.val_ y.
Proof. unfold lsn_min, Lsn.lsn_ltb. destruct (Z.ltb_spec (Lsn.val_ x) (Lsn.val_ y)); lia. Qed.

(** Below the invalid LSN, the barrier decides. *)
Lemma barrier_decides b : Lsn.is_valid (lsn_min no_lsn b) = true → lsn_min no_lsn b = b.
Proof. unfold lsn_min. by destruct (Lsn.lsn_ltb no_lsn b). Qed.

(** The result is backed by the entries of the current list, or, before the barrier, of the
    previous one, or it is the barrier because entries are missing. *)
Lemma gen_result cm changing a :
  config_ok cm → acks_valid (match_lsn_map_ a) →
  ∃ rc r, gen_committed_end_lsn_ cm changing a =
      (rc, r, if changing || ob_failed rc then a else snd (try_advance_committed_lsn_ r a)) ∧
    (rc = OB_SUCCESS → Lsn.is_valid r = true →
      majority (match_lsn_map_ a) (curr_memberlist cm) (curr_replica_num cm) r ∨
      before cm a = true ∧ Lsn.val_ r ≤ Lsn.val_ (barrier_prev_end_lsn cm) ∧
      majority (match_lsn_map_ a) (prev_memberlist cm) (prev_replica_num cm) r ∨
      before cm a = true ∧ r = barrier_prev_end_lsn cm ∧ ¬ lists_known cm (match_lsn_map_ a)).
Proof.
  intros [Hc Hp _] Hv. unfold gen_committed_end_lsn_, get_log_sync_member_list_for_generate_committed_lsn.
  fold (before cm a). destruct (cm_inited cm); cbn [negb]; [|eexists OB_NOT_INIT, no_lsn; by rewrite orb_true_r].
  destruct (majority_lsn_spec (curr_memberlist cm) (curr_replica_num cm) (match_lsn_map_ a) Hc Hv) as (rc & Ec & Hr).
  destruct (before cm a) eqn:Eb; cbn [l_curr l_curr_num l_prev l_prev_num l_before l_barrier ob_failed Z.eqb negb]; rewrite Ec; cbn [ob_failed Z.eqb negb].
  - destruct (majority_lsn_spec (prev_memberlist cm) (prev_replica_num cm) (match_lsn_map_ a) Hp Hv) as (rp & Ep & Hrp).
    rewrite Ep. cbn [ob_failed Z.eqb negb]. eexists OB_SUCCESS, _. split; [by destruct changing|]. intros _ Hvr.
    destruct (lsn_min_le (lsn_max rp rc) (barrier_prev_end_lsn cm)) as [Hle Hbar]. unfold lsn_max in *.
    destruct (Lsn.lsn_gtb rp rc).
    + right. destruct (decide (known (match_lsn_map_ a) (prev_memberlist cm) (prev_replica_num cm))) as [K|K].
      * left. destruct Hrp as [_ Mp]. split_and!; [done|done|by apply Mp].
      * right. destruct Hrp as [-> _]. split_and!; [done|by apply barrier_decides|by intros [_ ?]].
    + destruct (decide (known (match_lsn_map_ a) (curr_memberlist cm) (curr_replica_num cm))) as [K|K].
      * left. destruct Hr as [_ Mc]. by apply Mc.
      * right; right. destruct Hr as [-> _]. split_and!; [done|by apply barrier_decides|by intros [? _]].
  - eexists OB_SUCCESS, rc. split; [by destruct changing|]. intros _ Hvr. left.
    case_decide; [destruct Hr as [_ Hr]; by apply Hr|]. destruct Hr as [-> _]. done.
Qed.

Lemma gen_map cm changing a rc r a' : gen_committed_end_lsn_ cm changing a = (rc, r, a') → match_lsn_map_ a' = match_lsn_map_ a.
Proof.
  unfold gen_committed_end_lsn_. repeat (case_match; try (intros; by simplify_eq)).
  all: intros; simplify_eq; apply advance_cases.
Qed.

Lemma gen_moved cm changing a h :
  config_ok cm → ok a h →
  let a' := snd (gen_committed_end_lsn_ cm changing a) in
  ok a' h ∧ match_lsn_map_ a' = match_lsn_map_ a ∧ moved cm a h a'.
Proof.
  intros Hc Hok. destruct (gen_result cm changing a Hc (ok_valid _ _ Hok)) as (rc & r & -> & Hr). cbn [snd].
  destruct (changing || ob_failed rc) eqn:E; [split; [done|]; split; [done|by left]|]. apply orb_false_elim in E as [_ Er].
  apply ob_failed_false in Er. destruct (advance_cases r a) as [Hm Ha]. split; [by apply ok_advance|]. split; [done|].
  destruct Ha as [Ha|(Hv & Hlt & Ha)]; [left; by rewrite Ha|]. right. rewrite Ha, Hm. split; [done|].
  destruct (Hr Er Hv) as [Hm1|[(Hb & Hbar & Hm1)|Hno]]; [left|right; left; split_and!; [done|done|]|by right; right]; by eapply majority_backed.
Qed.

Lemma gen_list_map ml n a : match_lsn_map_ (snd (gen_committed_end_lsn_with_memberlist_ ml n a)) = match_lsn_map_ a.
Proof. unfold gen_committed_end_lsn_with_memberlist_. repeat case_match; try done. apply advance_cases. Qed.

Lemma gen_list_moved cm a h :
  config_ok cm → ok a h →
  let a' := snd (gen_committed_end_lsn_with_memberlist_ (curr_memberlist cm) (curr_replica_num cm) a) in
  ok a' h ∧ match_lsn_map_ a' = match_lsn_map_ a ∧
  (committed_end_lsn_ a' = committed_end_lsn_ a ∨
   Lsn.val_ (committed_end_lsn_ a) < Lsn.val_ (committed_end_lsn_ a') ∧
   backed h (curr_memberlist cm) (curr_replica_num cm) (committed_end_lsn_ a')).
Proof.
  intros [Hc _ _] Hok. unfold gen_committed_end_lsn_with_memberlist_. destruct (negb _ || _ || _); [by split; [|split; [|left]]|].
  destruct (majority_lsn_spec (curr_memberlist cm) (curr_replica_num cm) (match_lsn_map_ a) Hc (ok_valid _ _ Hok)) as (r & -> & Hr).
  change (ob_failed OB_SUCCESS) with false. cbn [snd]. destruct (advance_cases r a) as [Hm Ha]. split; [by apply ok_advance|]. split; [done|].
  destruct Ha as [Ha|(Hv & Hlt & Ha)]; [left; by rewrite Ha|]. right. rewrite Ha. split; [done|]. eapply majority_backed; [done|done|].
  case_decide; [destruct Hr as [_ Hr]; by apply Hr|]. by destruct Hr as [-> _].
Qed.

(** ** Recording an acknowledgement *)
Lemma update_ok now src l a h :
  ok a h →
  let a' := snd (try_update_match_lsn_map_ now src l a) in
  ok a' ((src, l) :: h) ∧ committed_end_lsn_ a' = committed_end_lsn_ a.
Proof.
  intros Hok. assert (ok a ((src, l) :: h)) as Hok' by (eapply ok_mono; [|done]; set_solver).
  unfold try_update_match_lsn_map_. destruct (addr_is_valid src), (Lsn.is_valid l) eqn:Ev; cbn [negb orb snd]; try done.
  assert (∀ s v, lsn_ v = l → ok (set_map (<[code src := (s, v)]> (match_lsn_map_ a)) a) ((src, l) :: h)) as Hnew.
  { intros s v E. apply ok_insert; [done|by rewrite E|]. right. exists src. rewrite E. set_solver. }
  unfold map_get, map_insert, map_operate. destruct (match_lsn_map_ a !! code src) as [[s v]|] eqn:E; cbn [fmap option_fmap option_map snd].
  - assert (ok (set_map (<[code src := (s, v)]> (match_lsn_map_ a)) a) ((src, l) :: h)) as Hold.
    { apply ok_insert; [done|apply (ok_valid _ _ Hok _ _ E)|]. by eapply ok_entry. }
    unfold UpdateMatchLsnFunc. destruct (info_is_valid v), (Lsn.lsn_leb (lsn_ v) l), (Lsn.lsn_ltb (lsn_ v) l); cbn [negb snd]; split; auto.
  - split; [by apply Hnew|done].
Qed.

Lemma fill_ok now l a h :
  Forall (λ m, wf_addr (server_ m)) l → ok a h → (sw_self a, max_flushed_end_lsn_ a) ∈ h →
  Lsn.is_valid (max_flushed_end_lsn_ a) = true → Lsn.is_valid (committed_end_lsn_ a) = true →
  let a' := snd (reset_fill now l a) in ok a' h ∧ committed_end_lsn_ a' = committed_end_lsn_ a.
Proof.
  revert a. induction l as [|m l IH]; intros a Hw Hok Hin Hf Hc; [done|]. apply Forall_cons in Hw as [Hm Hw]. cbn [reset_fill]. unfold map_insert.
  destruct (match_lsn_map_ a !! code (server_ m)) eqn:E; [by destruct a|]. cbn [ob_failed Z.eqb negb].
  apply (IH (set_map _ a)); [done| |done..]. apply ok_insert; [done| |]; destruct (addr_eqb (sw_self a) (server_ m)) eqn:Es; cbn; [done|done| |by left].
  right. exists (sw_self a). split; [done|]. by apply addr_eqb_code; [apply Hok| |].
Qed.

Lemma ok_empty a h : ok a h → ok (set_map ∅ a) h.
Proof. intros [_ _ Hc Hs]. by split; [|apply map_Forall_empty| |]. Qed.

Lemma added_ok now l a h :
  ok a h →
  ok (set_map (foldl (λ f m, snd (map_insert (server_ m) (new_info (Lsn.mkLSN PALF_INITIAL_LSN_VAL) now) f)) (match_lsn_map_ a) l) a) h.
Proof.
  revert a. induction l as [|m l IH]; intros a Hok; [by destruct a|]. cbn [foldl].
  assert (ok (set_map (snd (map_insert (server_ m) (new_info (Lsn.mkLSN PALF_INITIAL_LSN_VAL) now) (match_lsn_map_ a))) a) h) as H1; [|by apply (IH (set_map _ a))].
  unfold map_insert. destruct (match_lsn_map_ a !! _); [by destruct a|]. apply ok_insert; [done|done|]. left. apply Hok.
Qed.

Lemma removed_ok l a h : ok a h → ok (set_map (foldl (λ f m, map_erase (server_ m) f) (match_lsn_map_ a) l) a) h.
Proof.
  revert a. induction l as [|m l IH]; intros a Hok; [by destruct a|]. cbn [foldl].
  apply (IH (set_map (map_erase (server_ m) (match_lsn_map_ a)) a)). by apply ok_delete.
Qed.

Lemma moved_refl cm a h : moved cm a h a.
Proof. by left. Qed.

(** The lists are looked at with the committed end of the start. *)
Lemma moved_from cm a a1 h a2 :
  committed_end_lsn_ a1 = committed_end_lsn_ a → moved cm a1 h a2 → moved cm a h a2.
Proof. unfold moved, justified, before. by intros ->. Qed.

(** [gen_committed_end_lsn_] after a change of the entries: it leaves them, so the
    entries of the end are those it used. *)
Lemma gen_step cm changing a a1 h rc r a2 :
  config_ok cm → ok a1 h → committed_end_lsn_ a1 = committed_end_lsn_ a → gen_committed_end_lsn_ cm changing a1 = (rc, r, a2) →
  ok a2 h ∧ match_lsn_map_ a2 = match_lsn_map_ a1 ∧ moved cm a h a2.
Proof.
  intros Hc Hok Hcm E. destruct (gen_moved cm changing a1 h Hc Hok) as (H1 & H2 & H3).
  rewrite E in *. split_and!; [done..|by eapply moved_from].
Qed.

Lemma step_moved cm a h a' h' :
  config_ok cm → ok a h → step cm a h a' h' → ok a' h' ∧ moved cm a h' a'.
Proof.
  intros Hc Hok Hst. destruct Hst as [now a h rc a' Hf Hv E|inited active changing max now src l a h rc cs a' E|
    leader active changing now l a h a' E|inited active changing now added removed a h rc cs a' E].
  - unfold reset_match_lsn_map_, get_log_sync_member_list in E. destruct (cm_inited cm); cbn [negb] in E.
    + change (ob_failed OB_SUCCESS) with false in E. cbn iota in E.
      destruct (fill_ok now (curr_memberlist cm) (set_map ∅ a) ((sw_self a, max_flushed_end_lsn_ a) :: h)) as [H1 H2];
        [apply Hc|by eapply ok_empty, ok_mono; [|done]; set_solver|set_solver|done|done|]. rewrite E in *. split; [done|by left].
    + change (ob_failed OB_NOT_INIT) with true in E. cbn iota in E. simplify_eq. split; [eapply ok_mono; [|done]; set_solver|by left].
  - assert (ok a ((src, l) :: h)) as Hok' by (eapply ok_mono; [|done]; set_solver). pose proof (moved_refl cm a ((src, l) :: h)) as Hrefl.
    unfold ack_log in E. destruct (negb inited); [by simplify_eq|]. destruct (_ || _); [by simplify_eq|].
    destruct (get_log_sync_member_list cm) as [rc1 [ml n]]. destruct (ob_failed rc1); [by simplify_eq|].
    destruct (get_degraded_learner_list cm) as [rc2 dl]. destruct (ob_failed rc2); [by simplify_eq|].
    destruct (negb _ && _); [by simplify_eq|]. destruct (update_ok now src l a h Hok) as [Hu Hcm].
    destruct (try_update_match_lsn_map_ now src l a) as [rc3 a1]. cbn [snd] in *. destruct (ob_failed rc3); [simplify_eq; by split; [|left]|].
    destruct active; [|simplify_eq; by split; [|left]].
    destruct (gen_committed_end_lsn_ cm changing a1) as [[rc4 r] a2] eqn:Eg. simplify_eq.
    destruct (gen_step _ _ a _ _ _ _ _ Hc Hu Hcm Eg) as (? & _ & ?). done.
  - unfold leader_flushed in E. destruct (update_ok now (sw_self a) l a h Hok) as [Hu Hcm].
    assert (ok a ((sw_self a, l) :: h)) as Hok' by (eapply ok_mono; [|done]; set_solver).
    set (a1 := if leader then _ else a) in E. assert (ok a1 ((sw_self a, l) :: h) ∧ committed_end_lsn_ a1 = committed_end_lsn_ a) as [H1 H2] by (by destruct leader).
    clearbody a1. destruct active; [|subst; by split; [|left]].
    destruct (gen_committed_end_lsn_ cm changing a1) as [[rc4 r] a2] eqn:Eg. cbn [snd] in E. subst a'.
    destruct (gen_step _ _ a _ _ _ _ _ Hc H1 H2 Eg) as (? & _ & ?). done.
  - unfold config_change_update_match_lsn_map in E. destruct (negb inited); [simplify_eq; by split; [|left]|].
    pose proof (removed_ok removed _ h (added_ok now added a h Hok)) as H1. cbn [match_lsn_map_ set_map sw_self committed_end_lsn_ max_flushed_end_lsn_] in H1.
    destruct (gen_committed_end_lsn_ cm changing _) as [[rc4 r] a2] eqn:Eg.
    assert (match_lsn_map_ a' = match_lsn_map_ a2 ∧ (ok a2 h → ok a' h ∧ (committed_end_lsn_ a' = committed_end_lsn_ a2 ∨
      Lsn.val_ (committed_end_lsn_ a2) < Lsn.val_ (committed_end_lsn_ a') ∧
      backed h (curr_memberlist cm) (curr_replica_num cm) (committed_end_lsn_ a')))) as [Hm H2].
    { destruct active; simplify_eq; [|by split; [|split; [|left]]]. split; [apply gen_list_map|].
      intros H2. destruct (gen_list_moved cm a2 h Hc H2) as (? & _ & ?). done. }
    destruct (gen_step _ _ a _ _ _ _ _ Hc H1 eq_refl Eg) as (H3 & _ & H4). destruct (H2 H3) as [H5 H6]. split; [done|].
    destruct H6 as [H6|[H6 H7]]; [destruct H4 as [H4|[H4 H8]]; [left; congruence|right; rewrite H6, Hm; done]|].
    right. split; [|by left]. destruct H4 as [H4|[H4 _]]; [congruence|lia].
Qed.

(** ** A leader over time *)

(** Steps under whatever configuration is in use at each. *)
Inductive run : Acks → History → Acks → History → Prop :=
| run_nil a h : run a h a h
| run_step cm a h a1 h1 a2 h2 : run a h a1 h1 → config_ok cm → step cm a1 h1 a2 h2 → run a h a2 h2.

Lemma run_ok a h a' h' : run a h a' h' → ok a h → ok a' h'.
Proof.
  induction 1 as [a h|cm a h a1 h1 a2 h2 _ IH Hc Hst]; intros Hok; [done|]. by eapply step_moved; [done|apply IH|].
Qed.

(** A leader that has no acknowledgement yet. *)
Definition begins a : Prop := match_lsn_map_ a = ∅ ∧ 0 ≤ Lsn.val_ (committed_end_lsn_ a) ∧ wf_addr (sw_self a).
Lemma begins_ok a : begins a → ok a [].
Proof. intros (Hm & Hc & Hs). split; rewrite ?Hm; [done|by apply map_Forall_empty|done|done]. Qed.

(** C13. [get_majority_lsn_] always succeeds on valid entries; when more than half of the
    replicas have an entry, it returns the greatest LSN that more than half of them
    have acknowledged, and otherwise the invalid LSN, and no LSN is acknowledged by a
    majority. *)
Theorem majority_lsn_greatest ml n f :
  0 < n → acks_valid f →
  ∃ r, get_majority_lsn_ ml n f = (OB_SUCCESS, r) ∧
    if decide (known f ml n)
    then Lsn.is_valid r = true ∧ majority f ml n r ∧ ∀ l, majority f ml n l → Lsn.val_ l ≤ Lsn.val_ r
    else r = no_lsn ∧ ∀ l, ¬ majority f ml n l.
Proof.
  intros Hn Hv. destruct (majority_lsn_spec ml n f Hn Hv) as (r & E & Hr). exists r. split; [done|]. case_decide; [|done].
  destruct Hr as [Hr Hm]. split_and!; [done|by apply Hm|]. intros l. apply Hm.
Qed.

(** C12. Take a leader that began without acknowledgements, after any sequence of resets,
    acknowledgements, flushes and configuration changes ([step]) under well-formed
    configurations ([config_ok]), and one more such step under the configuration [cm].  The committed end does not move
    back, and if it moves to [l], then more than half of the replicas of the current list
    of [cm] have acknowledged the log up to [l] since the leader began; or, when the end
    was before the barrier of the change in [cm], [l] is not beyond the barrier and more
    than half of the previous list have.  One exception remains, before the barrier: when
    half or more of the current or of the previous list have no entry, the end may go to
    the barrier itself ([commit_ahead_of_log] shows that it does). *)
Theorem committed_by_majority a a1 h1 cm a2 h2 :
  begins a → run a [] a1 h1 → config_ok cm → step cm a1 h1 a2 h2 →
  let l := committed_end_lsn_ a2 in
  l = committed_end_lsn_ a1 ∨
  Lsn.val_ (committed_end_lsn_ a1) < Lsn.val_ l ∧
  (backed h2 (curr_memberlist cm) (curr_replica_num cm) l ∨
   before cm a1 = true ∧ Lsn.val_ l ≤ Lsn.val_ (barrier_prev_end_lsn cm) ∧ backed h2 (prev_memberlist cm) (prev_replica_num cm) l ∨
   before cm a1 = true ∧ l = barrier_prev_end_lsn cm ∧ ¬ lists_known cm (match_lsn_map_ a2)).
Proof. intros Hb Hrun Hc Hst. by eapply step_moved; [done|by eapply run_ok, begins_ok|done]. Qed.

(** ** Three servers *)
Section example.
Definition srv (d : Z) : ObAddr := ipv4 10 0 0 d 2882.
Definition lsn (z : Z) : LSN := Lsn.mkLSN z.
Definition three : ObMemberList := [new_member (srv 1) 5; new_member (srv 2) 5; new_member (srv 3) 5].
Definition cm3 : LogConfigMgr := mkConfig true three 3 three 3 [] no_lsn 0 0.
Definition fresh : Acks := mkAcks (srv 1) ∅ (lsn 100) (lsn 100).
Definition led : Acks := snd (reset_match_lsn_map_ 50 cm3 fresh).
Definition flushed : Acks := leader_flushed true true false 60 cm3 (lsn 200) led.
Definition acked : Z * list Call * Acks := ack_log true true false (lsn 200) 70 cm3 (srv 3) (lsn 200) flushed.

Lemma fresh_begins : begins fresh.
Proof. done. Qed.

Lemma cm3_ok : config_ok cm3.
Proof. split; [done|done|]. repeat constructor. Qed.

Lemma majority_lsn_greatest_witness :
  ∃ r, get_majority_lsn_ three 3 (match_lsn_map_ (snd acked)) = (OB_SUCCESS, r) ∧ majority (match_lsn_map_ (snd acked)) three 3 r.
Proof.
  destruct (majority_lsn_greatest three 3 (match_lsn_map_ (snd acked))) as (r & E & Hr); [lia| |].
  - apply map_Forall_to_list. vm_compute. repeat constructor.
  - exists r. split; [exact E|]. rewrite decide_True in Hr by (by vm_compute). apply Hr.
Defined.

Lemma committed_by_majority_witness :
  let h := [(srv 3, lsn 200); (srv 1, lsn 200); (srv 1, lsn 100)] in
  committed_end_lsn_ flushed = lsn 100 ∧ committed_end_lsn_ (snd acked) = lsn 200 ∧ backed h three 3 (lsn 200).
Proof.
  assert (run fresh [] led [(srv 1, lsn 100)]) as H1.
  { apply (run_step cm3 _ _ fresh []); [apply run_nil|apply cm3_ok|]. apply (step_reset cm3 50 fresh [] OB_SUCCESS led); by vm_compute. }
  assert (run fresh [] flushed [(srv 1, lsn 200); (srv 1, lsn 100)]) as H2.
  { apply (run_step cm3 _ _ led [(srv 1, lsn 100)]); [exact H1|apply cm3_ok|]. by apply (step_flush cm3 true true false 60 (lsn 200) led). }
  split; [by vm_compute|]. split; [by vm_compute|].
  destruct (committed_by_majority fresh flushed [(srv 1, lsn 200); (srv 1, lsn 100)] cm3 (snd acked)
    [(srv 3, lsn 200); (srv 1, lsn 200); (srv 1, lsn 100)] fresh_begins H2 cm3_ok) as [E|[_ [Hb|[[E _]|[E _]]]]].
  - apply (step_ack cm3 true true false (lsn 200) 70 (srv 3) (lsn 200) flushed _ (fst (fst acked)) (snd (fst acked))). by vm_compute.
  - vm_compute in E. discriminate E.
  - assert (committed_end_lsn_ (snd acked) = lsn 200) as El by by vm_compute. rewrite El in Hb. exact Hb.
  - vm_compute in E. discriminate E.
  - vm_compute in E. discriminate E.
Defined.
End example.

(** ** The exception, and what is broadcast *)

(** Removing one of two members while logs are not yet flushed: the previous list has no
    majority of entries, its majority end is the invalid LSN, which is the greatest, and
    the committed end becomes the barrier, ahead of every acknowledgement and of what
    the leader itself has flushed. *)
Theorem commit_ahead_of_log :
  let cm := mkConfig true [new_member (srv 1) 5] 1 [new_member (srv 1) 5; new_member (srv 2) 5] 2 [] (lsn 200) 1 1 in
  let a := mkAcks (srv 1) {[ code (srv 1) := (srv 1, new_info (lsn 100) 50); code (srv 2) := (srv 2, new_info (lsn 100) 50) ]} (lsn 100) (lsn 100) in
  let '(rc, _, a') := config_change_update_match_lsn_map true true false 60 cm [] [new_member (srv 2) 5] [new_member (srv 1) 5] 1 a in
  rc = OB_SUCCESS ∧ max_flushed_end_lsn_ a' = lsn 100 ∧ committed_end_lsn_ a' = lsn 200 ∧
  map_get (srv 1) (match_lsn_map_ a') = Some (new_info (lsn 100) 50) ∧ map_get (srv 2) (match_lsn_map_ a') = None.
Proof. by vm_compute. Qed.

(** While a configuration with an arbitration member changes, the committed end does not
    move; the end it would move to is broadcast to the followers all the same. *)
Theorem broadcast_ahead_of_commit :
  let '(rc, cs, a') := ack_log true true true (lsn 200) 70 cm3 (srv 3) (lsn 200) flushed in
  rc = OB_SUCCESS ∧ BroadcastCommittedInfo (lsn 200) ∈ cs ∧ committed_end_lsn_ a' = lsn 100.
Proof. vm_compute. split_and!; [done|by left|done]. Qed.
End CommitSafety.
