(* ===== verification/SimpleMemberList.v ===== *)
(** The two lists of servers that a vote fills, [LogSimpleMemberList] and [LogAckList] of
    [src/logservice/palf/log_simple_member_list.cpp], and the sets they stand for. *)
From S2P Require Import Prelude MemberList.
Import MemberList.

Module SimpleMemberList.

Definition OB_ERROR_OUT_OF_RANGE : Z := -4175.

(** ** [LogSimpleMemberList]

    The first [count_] elements of the array [server_]; the elements behind them are
    never read. *)
Definition LogSimpleMemberList : Set := list ObAddr.
Implicit Types l : LogSimpleMemberList.
Definition get_count l : Z := Z.of_nat (length l).
(** The scans of [add_server] and [contains]. *)
Definition contains (server : ObAddr) l : bool := existsb (λ a, addr_eqb a server) l.
Definition add_server (server : ObAddr) l : Z * LogSimpleMemberList :=
  if contains server l then (OB_SUCCESS, l)
  else if OB_MAX_MEMBER_NUMBER <=? get_count l then (OB_ERROR_OUT_OF_RANGE, l)
  else (OB_SUCCESS, l ++ [server]).

(** The loop of [deep_copy]; [todo] is the number of rounds left. *)
Fixpoint deep_copy_loop (member_list : ObMemberList) (todo : nat) (i : Z) (server : ObAddr) l : Z * LogSimpleMemberList :=
  match todo with
  | O => (OB_SUCCESS, l)
  | Datatypes.S todo =>
      let '(rc, server) := get_server_by_index i server member_list in
      if ob_failed rc then (rc, l)
      else
        let '(rc, l) := add_server server l in
        if ob_failed rc then (rc, l) else deep_copy_loop member_list todo (i + 1) server l
  end.
Definition deep_copy (member_list : ObMemberList) l : Z * LogSimpleMemberList :=
  let '(rc, l) := deep_copy_loop member_list (length member_list) 0 no_addr [] in
  if ob_failed rc then (rc, l)
  else if negb (get_count l =? get_member_number member_list) then (OB_ERR_UNEXPECTED, l)
  else (OB_SUCCESS, l).

(** The code and the argument [member_list]. *)
Fixpoint deep_copy_to_loop l (member_list : ObMemberList) : Z * ObMemberList :=
  match l with
  | [] => (OB_SUCCESS, member_list)
  | server :: l =>
      let '(rc, member_list) := MemberList.add_server server member_list in
      if ob_failed rc then (rc, member_list) else deep_copy_to_loop l member_list
  end.
Definition deep_copy_to l : Z * ObMemberList :=
  let '(rc, member_list) := deep_copy_to_loop l [] in
  if ob_failed rc then (rc, member_list)
  else if negb (get_count l =? get_member_number member_list) then (OB_ERR_UNEXPECTED, member_list)
  else (OB_SUCCESS, member_list).

Fixpoint index_of (server : ObAddr) l (i : Z) : Z :=
  match l with
  | [] => OB_INVALID_INDEX
  | a :: l => if addr_eqb a server then i else index_of server l (i + 1)
  end.
Definition remove_server (server : ObAddr) l : Z * LogSimpleMemberList :=
  if negb (addr_is_valid server) then (OB_INVALID_ARGUMENT, l)
  else if get_count l <=? 0 then (OB_ENTRY_NOT_EXIST, l)
  else
    let index := index_of server l 0 in
    if index =? OB_INVALID_INDEX then (OB_ENTRY_NOT_EXIST, l)
    else (OB_SUCCESS, take (Z.to_nat index) l ++ drop (Datatypes.S (Z.to_nat index)) l).

(** ** [LogAckList]

    The whole array: the entries in use are the valid ones. *)
Definition ACK_LIST_SERVER_NUM : nat := Z.to_nat (OB_MAX_MEMBER_NUMBER / 2).
Definition LogAckList : Set := list ObAddr.
Implicit Types k : list ObAddr.
Definition ack_reset : LogAckList := replicate ACK_LIST_SERVER_NUM no_addr.
Definition ack_count (k : list ObAddr) : nat := length (filter (λ a, addr_is_valid a = true) k).
Definition ack_get_count k : Z := Z.of_nat (ack_count k).
Definition ack_add_server (server : ObAddr) k : Z * list ObAddr :=
  let count := ack_count k in
  if negb (addr_is_valid server) then (OB_ERR_UNEXPECTED, k)
  else if existsb (λ a, addr_eqb a server) (take count k) then (OB_SUCCESS, k)
  else if (ACK_LIST_SERVER_NUM <=? count)%nat then (OB_SUCCESS, k)
  else (OB_SUCCESS, <[count := server]> k).

(** * Both are sets *)

Lemma existsb_code (server : ObAddr) (l : list ObAddr) :
  wf_addr server → Forall wf_addr l → existsb (λ a, addr_eqb a server) l = true ↔ code server ∈ code <$> l.
Proof.
  intros Hs Hl. rewrite existsb_exists, list_elem_of_fmap. rewrite Forall_forall in Hl. split.
  - intros (a & Hin%list_elem_of_In & He). exists a. split; [|done]. symmetry. by apply addr_eqb_code in He; [|by apply Hl|].
  - intros (a & E & Hin). exists a. split; [by apply list_elem_of_In|]. by apply addr_eqb_code; [apply Hl| |].
Qed.

(** The addresses as the comparison sees them. *)
Definition servers (l : list ObAddr) : gset (list Z) := list_to_set (code <$> l).

Lemma elem_of_servers c (l : list ObAddr) : c ∈ servers l ↔ c ∈ code <$> l.
Proof. unfold servers. apply elem_of_list_to_set. Qed.

Lemma size_servers (l : list ObAddr) : NoDup (code <$> l) → size (servers l) = length l.
Proof. intros Hn. unfold servers. by rewrite size_list_to_set, length_fmap by done. Qed.

Lemma servers_snoc (l : list ObAddr) a : servers (l ++ [a]) = {[code a]} ∪ servers l.
Proof. unfold servers. rewrite fmap_app, list_to_set_app_L, (comm_L (∪)). f_equal. cbn [fmap list_fmap list_to_set]. apply union_empty_r_L. Qed.

Record swf l : Prop := {
  swf_nodup : NoDup (code <$> l);
  swf_addr : Forall wf_addr l;
  swf_count : get_count l <= OB_MAX_MEMBER_NUMBER
}.

Lemma swf_nil : swf [].
Proof. split; [constructor|constructor|by vm_compute]. Qed.

Lemma nodup_snoc (l : list ObAddr) a : NoDup (code <$> l) → code a ∉ code <$> l → NoDup (code <$> (l ++ [a])).
Proof. intros Hn Ha. rewrite fmap_app. apply NoDup_app. split_and!; [done| |apply NoDup_singleton].
  intros c Hc ->%list_elem_of_singleton. done. Qed.

Lemma simple_add_spec server l :
  swf l → wf_addr server →
  let '(rc, l') := add_server server l in
  swf l' ∧
  rc = (if decide (code server ∈ servers l) then OB_SUCCESS
        else if OB_MAX_MEMBER_NUMBER <=? Z.of_nat (size (servers l)) then OB_ERROR_OUT_OF_RANGE else OB_SUCCESS) ∧
  servers l' = (if ob_failed rc then servers l else {[code server]} ∪ servers l).
Proof.
  intros [Hn Ha Hc] Hs. unfold add_server, contains. rewrite size_servers by done. fold (get_count l).
  pose proof (existsb_code server l Hs Ha) as He. case_decide as Hin; rewrite elem_of_servers in Hin.
  - rewrite (proj2 He Hin). split_and!; [done|done|]. change (ob_failed OB_SUCCESS) with false. cbn iota.
    symmetry. apply subseteq_union_1_L, singleton_subseteq_l. by apply elem_of_servers.
  - rewrite (proj1 (not_true_iff_false _) (λ E, Hin (proj1 He E))). destruct (Z.leb_spec OB_MAX_MEMBER_NUMBER (get_count l)).
    + split_and!; [done|done|]. done.
    + split_and!; [|done|apply servers_snoc]. split; [by apply nodup_snoc|apply Forall_app; by repeat constructor|].
      unfold get_count in *. rewrite length_app. cbn [length]. lia.
Qed.

(** The entries in use come first and name different servers. *)
Record awf k (q : list ObAddr) : Prop := {
  awf_array : ∃ n, k = q ++ replicate n no_addr ∧ (length q + n = ACK_LIST_SERVER_NUM)%nat;
  awf_nodup : NoDup (code <$> q);
  awf_valid : Forall (λ a, wf_addr a ∧ addr_is_valid a = true) q
}.

Lemma no_addr_invalid : addr_is_valid no_addr = false.
Proof. by vm_compute. Qed.

Lemma awf_count k q : awf k q → ack_count k = length q.
Proof.
  intros [(n & -> & _) _ Hv]. unfold ack_count. rewrite filter_app, length_app.
  assert (filter (λ a, addr_is_valid a = true) q = q) as ->.
  { clear -Hv. induction Hv as [|a q [_ Ha] _ IH]; [done|]. by rewrite filter_cons_True, IH. }
  enough (filter (λ a, addr_is_valid a = true) (replicate n no_addr) = []) as -> by (cbn; lia).
  clear. induction n as [|n IH]; [done|]. cbn [replicate]. by rewrite filter_cons_False by by rewrite no_addr_invalid.
Qed.

Lemma awf_reset : awf ack_reset [].
Proof. split; [by exists ACK_LIST_SERVER_NUM|constructor|constructor]. Qed.

(** What an answer adds; a full list drops a further server without an error. *)
Definition ack_insert (server : ObAddr) (q : list ObAddr) : list ObAddr :=
  if decide (code server ∈ code <$> q) then q else if decide (length q < ACK_LIST_SERVER_NUM)%nat then q ++ [server] else q.

Lemma ack_add_server_spec server k q :
  awf k q → wf_addr server → addr_is_valid server = true →
  ∃ k', ack_add_server server k = (OB_SUCCESS, k') ∧ awf k' (ack_insert server q).
Proof.
  intros Hw Hs Hv. unfold ack_add_server, ack_insert. rewrite (awf_count k q Hw), Hv. cbn [negb].
  pose proof Hw as [(n & Hk & Hn) Hd Hq]. assert (take (length q) k = q) as -> by (subst k; apply take_app_length).
  assert (Forall wf_addr q) as Ha by (eapply Forall_impl; [exact Hq|by intros a []]).
  pose proof (existsb_code server q Hs Ha) as He. case_decide as Hin; [rewrite (proj2 He Hin); by exists k|].
  rewrite (proj1 (not_true_iff_false _) (λ E, Hin (proj1 He E))). destruct (Nat.leb_spec ACK_LIST_SERVER_NUM (length q)) as [H|H].
  - rewrite decide_False by lia. by exists k.
  - rewrite decide_True by lia. eexists. split; [done|]. destruct n as [|n]; [lia|]. split.
    + exists n. subst k. rewrite insert_app_r_alt, Nat.sub_diag by lia. cbn [replicate insert list_insert].
      rewrite <- app_assoc. split; [done|]. rewrite length_app. cbn [length]. lia.
    + by apply nodup_snoc.
    + apply Forall_app. by repeat constructor.
Qed.

Lemma index_of_spec server l i :
  if contains server l
  then ∃ l1 a l2, l = l1 ++ a :: l2 ∧ addr_eqb a server = true ∧ index_of server l i = i + Z.of_nat (length l1)
  else index_of server l i = OB_INVALID_INDEX.
Proof.
  revert i. induction l as [|a l IH]; intros i; [done|]. unfold contains. cbn [existsb index_of].
  destruct (addr_eqb a server) eqn:E; cbn [orb]; [exists [], a, l; split_and!; [done|done|cbn; lia]|].
  specialize (IH (i + 1)). unfold contains in IH. destruct (existsb _ l); [|done].
  destruct IH as (l1 & b & l2 & -> & ? & ->). exists (a :: l1), b, l2. split_and!; [done|done|]. cbn [length]. lia.
Qed.

Lemma simple_remove_spec server l :
  swf l → wf_addr server →
  let '(rc, l') := remove_server server l in
  swf l' ∧
  rc = (if negb (addr_is_valid server) then OB_INVALID_ARGUMENT
        else if decide (code server ∈ servers l) then OB_SUCCESS else OB_ENTRY_NOT_EXIST) ∧
  servers l' = (if ob_failed rc then servers l else servers l ∖ {[code server]}).
Proof.
  intros Hl Hs. unfold remove_server. destruct (addr_is_valid server); [|done]. cbn [negb].
  pose proof Hl as [Hn Ha Hc]. pose proof (existsb_code server l Hs Ha) as He. pose proof (index_of_spec server l 0) as Hi.
  fold (contains server l) in He. destruct (contains server l) eqn:Ec.
  - destruct Hi as (l1 & a & l2 & -> & Heq & ->). rewrite decide_True by (apply elem_of_servers; by apply He).
    destruct (Z.leb_spec (get_count (l1 ++ a :: l2)) 0) as [Hz|_]; [unfold get_count in Hz; rewrite length_app in Hz; cbn [length] in Hz; lia|].
    destruct (Z.eqb_spec (0 + Z.of_nat (length l1)) OB_INVALID_INDEX); [unfold OB_INVALID_INDEX in *; lia|].
    rewrite Z.add_0_l, Nat2Z.id, take_app_length. replace (Datatypes.S (length l1)) with (length l1 + 1)%nat by lia.
    rewrite drop_app_add. change (drop 1 (a :: l2)) with l2. change (ob_failed OB_SUCCESS) with false. cbn iota.
    apply Forall_app in Ha as [Ha1 Ha2]. apply Forall_cons in Ha2 as [Haa Ha2]. apply addr_eqb_code in Heq; [|done|done].
    rewrite fmap_app in Hn. cbn [fmap list_fmap] in Hn. apply NoDup_app in Hn as (Hn1 & Hd & Hn2). apply NoDup_cons in Hn2 as [Hna Hn2].
    split_and!; [split|done|].
    + rewrite fmap_app. apply NoDup_app. split_and!; [done| |done]. intros c H1 H2. apply (Hd c H1). by right.
    + by apply Forall_app.
    + unfold get_count in *. rewrite length_app in Hc |- *. cbn [length] in Hc. unfold OB_MAX_MEMBER_NUMBER in *. lia.
    + apply set_eq. intros c. rewrite elem_of_difference, elem_of_singleton, !elem_of_servers, !fmap_app, !elem_of_app, fmap_cons, elem_of_cons.
      rewrite <- Heq. split; [|tauto]. intros [H1|H1]; (split; [tauto|]); intros ->; [by apply (Hd _ H1); left|done].
  - rewrite Hi. rewrite decide_False by (rewrite elem_of_servers; intros Hin; by apply He in Hin). by destruct (get_count l <=? 0).
Qed.

(** The copy of a member list has its servers; the loop does not fail. *)
Lemma get_server_at ml1 m ml2 server :
  get_server_by_index (Z.of_nat (length ml1)) server (ml1 ++ m :: ml2) = (OB_SUCCESS, server_ m).
Proof.
  unfold get_server_by_index, get_member_number. rewrite length_app. cbn [length].
  destruct (Z.ltb_spec (Z.of_nat (length ml1)) 0); [lia|]. destruct (Z.leb_spec (Z.of_nat (length ml1 + Datatypes.S (length ml2))) (Z.of_nat (length ml1))); [lia|].
  cbn [orb]. by rewrite Nat2Z.id, app_nth2, Nat.sub_diag by lia.
Qed.

Lemma deep_copy_loop_spec ml1 ml2 server :
  MemberList.wf (ml1 ++ ml2) →
  deep_copy_loop (ml1 ++ ml2) (length ml2) (Z.of_nat (length ml1)) server (server_ <$> ml1) = (OB_SUCCESS, server_ <$> (ml1 ++ ml2)).
Proof.
  revert ml1 server. induction ml2 as [|m ml2 IH]; intros ml1 server Hw; cbn [deep_copy_loop length]; [by rewrite app_nil_r|].
  rewrite get_server_at. change (ob_failed OB_SUCCESS) with false. cbn iota. unfold add_server.
  pose proof Hw as [Hs Hv Hc]. pose proof (sorted_nodup _ Hs) as Hn. rewrite fmap_app in Hn. apply NoDup_app in Hn as (_ & Hd & _).
  assert (contains (server_ m) (server_ <$> ml1) = false) as ->.
  { apply not_true_iff_false. unfold contains. rewrite existsb_code.
    - rewrite <- list_fmap_compose. intros Hin. apply (Hd (code (server_ m))); [exact Hin|left].
    - apply Forall_app in Hv as [_ Hv]. by apply Forall_cons in Hv as [[? _] _].
    - apply Forall_app in Hv as [Hv _]. apply Forall_fmap. eapply Forall_impl; [exact Hv|]. by intros x []. }
  unfold get_member_number in Hc. rewrite length_app in Hc. cbn [length] in Hc.
  destruct (Z.leb_spec OB_MAX_MEMBER_NUMBER (get_count (server_ <$> ml1))) as [Hle|_]; [unfold get_count in Hle; rewrite length_fmap in Hle; lia|].
  change (ob_failed OB_SUCCESS) with false. cbn iota.
  specialize (IH (ml1 ++ [m]) (server_ m)). rewrite <- app_assoc in IH. cbn [app] in IH. rewrite length_app, fmap_app in IH. cbn [length fmap list_fmap] in IH.
  replace (Z.of_nat (length ml1) + 1) with (Z.of_nat (length ml1 + 1)) by lia. by apply IH.
Qed.

Lemma deep_copy_spec ml l : MemberList.wf ml → deep_copy ml l = (OB_SUCCESS, server_ <$> ml).
Proof.
  intros Hw. unfold deep_copy. pose proof (deep_copy_loop_spec [] ml no_addr Hw) as E.
  change (deep_copy_loop ml (length ml) 0 no_addr [] = (OB_SUCCESS, server_ <$> ml)) in E. rewrite E. change (ob_failed OB_SUCCESS) with false. cbn iota. unfold get_count, get_member_number. rewrite length_fmap.
  by rewrite Z.eqb_refl.
Qed.

(** A [LogSimpleMemberList] is a set of at most seven addresses and a [LogAckList] one of
    at most three that ignores a fourth; a copy of a member list has its servers. *)
Theorem simple_lists_refine_sets server ml l k q :
  wf_addr server → MemberList.wf ml → swf l → awf k q → addr_is_valid server = true →
  (let '(rc, l') := add_server server l in
   swf l' ∧
   rc = (if decide (code server ∈ servers l) then OB_SUCCESS
         else if OB_MAX_MEMBER_NUMBER <=? Z.of_nat (size (servers l)) then OB_ERROR_OUT_OF_RANGE else OB_SUCCESS) ∧
   servers l' = (if ob_failed rc then servers l else {[code server]} ∪ servers l)) ∧
  (let '(rc, l') := remove_server server l in
   swf l' ∧ rc = (if decide (code server ∈ servers l) then OB_SUCCESS else OB_ENTRY_NOT_EXIST) ∧
   servers l' = (if ob_failed rc then servers l else servers l ∖ {[code server]})) ∧
  (contains server l = true ↔ code server ∈ servers l) ∧ get_count l = Z.of_nat (size (servers l)) ∧
  deep_copy ml l = (OB_SUCCESS, server_ <$> ml) ∧
  (∃ k', ack_add_server server k = (OB_SUCCESS, k') ∧ awf k' (ack_insert server q)) ∧
  ack_get_count k = Z.of_nat (size (servers q)).
Proof.
  intros Hs Hm Hl Hk Hv. split; [by apply simple_add_spec|]. split.
  { pose proof (simple_remove_spec server l Hl Hs) as H. rewrite Hv in H. exact H. }
  destruct Hl as [Hn Ha Hc]. split_and!; [|by rewrite size_servers|by apply deep_copy_spec|by apply ack_add_server_spec|].
  - rewrite elem_of_servers. by apply existsb_code.
  - unfold ack_get_count. rewrite (awf_count k q Hk). destruct Hk as [_ Hq _]. by rewrite size_servers.
Qed.
End SimpleMemberList.
