(* ===== verification/LogReconfirm.v ===== *)
(** [LogReconfirm] of [src/logservice/palf/log_reconfirm.cpp]: how a replica that has been
    elected becomes leader.  It asks a majority for a promise and for the end of their
    logs, fetches the logs it lacks from the server with the newest ones, waits until a
    majority has them and writes a start-working log.

    The objects it calls (the sliding window [sw_], the configuration manager [mm_], the
    mode manager, the state manager and the log engine) are the interface [Peers]; a call
    reads and changes their common state, and so does a reading of the clock.  The lock
    makes every method one step.  Logging and the timers of log messages have no
    counterpart. *)
From S2P Require Import Prelude Lsn MemberList SimpleMemberList.
Import MemberList.
Import SimpleMemberList(ack_reset, ack_add_server, ack_get_count).

Module LogReconfirm.
Abbreviation LSN := Lsn.LSN.
Abbreviation INVALID_PROPOSAL_ID := Lsn.INVALID_PROPOSAL_ID.
Definition no_lsn : LSN := Lsn.mkLSN Lsn.LOG_INVALID_LSN_VAL.
Definition OB_INVALID_LOG_ID : Z := -1.
Definition PALF_FETCH_LOG_INTERVAL_US : Z := 2 * 1000 * 1000.
Definition RECONFIRM_PREPARE_RETRY_INTERVAL_US : Z := 2 * 1000 * 1000.

Inductive State : Set :=
  | INITED | WAITING_LOG_FLUSHED | FETCH_MAX_LOG_LSN | RECONFIRM_MODE_META
  | RECONFIRM_FETCH_LOG | RECONFIRMING | START_WORKING | FINISHED.
#[export] Instance state_eq_dec : EqDecision State := ltac:(solve_decision).
Definition state_val (s : State) : Z :=
  match s with
  | INITED => 0 | WAITING_LOG_FLUSHED => 1 | FETCH_MAX_LOG_LSN => 2 | RECONFIRM_MODE_META => 3
  | RECONFIRM_FETCH_LOG => 4 | RECONFIRMING => 5 | START_WORKING => 6 | FINISHED => 7
  end.

Record LogConfigVersion : Set := mkVersion { proposal_id_ : Z; config_seq_ : Z }.
Definition no_version : LogConfigVersion := mkVersion INVALID_PROPOSAL_ID (-1).

(** [LogMemberAckInfo]; the list is an [ObSEArray] that does not run out of memory. *)
Record LogMemberAckInfo : Set := mkAck { member_ : ObMember; last_ack_time_us_ : Z; last_flushed_end_lsn_ : LSN }.
Fixpoint ack_info_get_index (l : list LogMemberAckInfo) (addr : ObAddr) (i : Z) : Z :=
  match l with
  | [] => -1
  | a :: l => if addr_eqb (server_ (member_ a)) addr then i else ack_info_get_index l addr (i + 1)
  end.
Definition ack_info_list_get_index (list_a : list LogMemberAckInfo) (addr : ObAddr) : Z := ack_info_get_index list_a addr 0.

(** ** The objects around it *)
Class Peers (P : Type) : Type := {
  current_time : P → Z * P;
  getClock : P → Z * P;
  mm_get_alive_member_list_with_arb : P → (Z * (ObMemberList * Z)) * P;
  mm_get_accept_proposal_id : P → Z * P;
  mm_confirm_start_working_log : Z → Z → LogConfigVersion → P → (Z * LogConfigVersion) * P;
  sw_get_max_flushed_log_info : P → (Z * (LSN * LSN * Z)) * P;
  sw_check_all_log_has_flushed : P → bool * P;
  sw_ack_log : ObAddr → LSN → P → Z * P;
  sw_get_max_flushed_end_lsn : P → LSN * P;
  sw_get_max_lsn : P → LSN * P;
  sw_get_start_id : P → Z * P;
  sw_try_fetch_log_for_reconfirm : ObAddr → LSN → P → (Z * bool) * P;
  sw_get_majority_match_lsn : P → (Z * LSN) * P;
  sw_get_lagged_member_list : LSN → P → (Z * ObMemberList) * P;
  sw_try_advance_committed_end_lsn : LSN → P → Z * P;
  sw_is_all_committed_log_slided_out : P → bool * P;
  mode_reconfirm_mode_meta : P → Z * P;
  mode_need_skip_log_barrier : P → bool * P;
  state_get_proposal_id : P → Z * P;
  state_handle_prepare_request : ObAddr → Z → P → Z * P;
  state_get_leader_epoch : P → Z * P;
  engine_submit_prepare_meta_req : ObMemberList → Z → P → Z * P;
  engine_submit_notify_fetch_log_req : ObMemberList → P → Z * P;
  engine_submit_purge_throttling_task : P → Z * P
}.

Section reconfirm.
Context {P : Type} `{Peers P}.

Record LogReconfirm : Type := mkReconfirm {
  state_ : State;
  palf_id_ : Z;
  self_ : ObAddr;
  new_proposal_id_ : Z;
  prepare_log_ack_list_ : list ObAddr;
  curr_paxos_follower_list_ : ObMemberList;
  majority_cnt_ : Z;
  majority_max_log_server_ : ObAddr;
  majority_max_accept_pid_ : Z;
  majority_max_lsn_ : LSN;
  saved_end_lsn_ : LSN;
  follower_end_lsn_list_ : list LogMemberAckInfo;
  sw_config_version_ : LogConfigVersion;
  last_submit_prepare_req_time_us_ : Z;
  last_fetch_log_time_us_ : Z;
  last_record_sw_start_id_ : Z;
  last_notify_fetch_time_us_ : Z;
  last_purge_throttling_time_us_ : Z;
  is_inited_ : bool;
  peers : P
}.
Implicit Types r : LogReconfirm.
Abbreviation S := LogReconfirm.

Definition new_reconfirm (p : P) : S :=
  mkReconfirm INITED 0 no_addr INVALID_PROPOSAL_ID ack_reset [] 0 no_addr INVALID_PROPOSAL_ID no_lsn no_lsn [] no_version
    OB_INVALID_TIMESTAMP OB_INVALID_TIMESTAMP OB_INVALID_LOG_ID OB_INVALID_TIMESTAMP OB_INVALID_TIMESTAMP false p.

Definition set_peers (p : P) r : S :=
  mkReconfirm (state_ r) (palf_id_ r) (self_ r) (new_proposal_id_ r) (prepare_log_ack_list_ r) (curr_paxos_follower_list_ r)
    (majority_cnt_ r) (majority_max_log_server_ r) (majority_max_accept_pid_ r) (majority_max_lsn_ r) (saved_end_lsn_ r)
    (follower_end_lsn_list_ r) (sw_config_version_ r) (last_submit_prepare_req_time_us_ r) (last_fetch_log_time_us_ r)
    (last_record_sw_start_id_ r) (last_notify_fetch_time_us_ r) (last_purge_throttling_time_us_ r) (is_inited_ r) p.
Definition set_state (s : State) r : S :=
  mkReconfirm s (palf_id_ r) (self_ r) (new_proposal_id_ r) (prepare_log_ack_list_ r) (curr_paxos_follower_list_ r)
    (majority_cnt_ r) (majority_max_log_server_ r) (majority_max_accept_pid_ r) (majority_max_lsn_ r) (saved_end_lsn_ r)
    (follower_end_lsn_list_ r) (sw_config_version_ r) (last_submit_prepare_req_time_us_ r) (last_fetch_log_time_us_ r)
    (last_record_sw_start_id_ r) (last_notify_fetch_time_us_ r) (last_purge_throttling_time_us_ r) (is_inited_ r) (peers r).
Definition set_pid (pid : Z) r : S :=
  mkReconfirm (state_ r) (palf_id_ r) (self_ r) pid (prepare_log_ack_list_ r) (curr_paxos_follower_list_ r)
    (majority_cnt_ r) (majority_max_log_server_ r) (majority_max_accept_pid_ r) (majority_max_lsn_ r) (saved_end_lsn_ r)
    (follower_end_lsn_list_ r) (sw_config_version_ r) (last_submit_prepare_req_time_us_ r) (last_fetch_log_time_us_ r)
    (last_record_sw_start_id_ r) (last_notify_fetch_time_us_ r) (last_purge_throttling_time_us_ r) (is_inited_ r) (peers r).
Definition set_acks (acks : list ObAddr) r : S :=
  mkReconfirm (state_ r) (palf_id_ r) (self_ r) (new_proposal_id_ r) acks (curr_paxos_follower_list_ r)
    (majority_cnt_ r) (majority_max_log_server_ r) (majority_max_accept_pid_ r) (majority_max_lsn_ r) (saved_end_lsn_ r)
    (follower_end_lsn_list_ r) (sw_config_version_ r) (last_submit_prepare_req_time_us_ r) (last_fetch_log_time_us_ r)
    (last_record_sw_start_id_ r) (last_notify_fetch_time_us_ r) (last_purge_throttling_time_us_ r) (is_inited_ r) (peers r).
Definition set_followers (ml : ObMemberList) r : S :=
  mkReconfirm (state_ r) (palf_id_ r) (self_ r) (new_proposal_id_ r) (prepare_log_ack_list_ r) ml
    (majority_cnt_ r) (majority_max_log_server_ r) (majority_max_accept_pid_ r) (majority_max_lsn_ r) (saved_end_lsn_ r)
    (follower_end_lsn_list_ r) (sw_config_version_ r) (last_submit_prepare_req_time_us_ r) (last_fetch_log_time_us_ r)
    (last_record_sw_start_id_ r) (last_notify_fetch_time_us_ r) (last_purge_throttling_time_us_ r) (is_inited_ r) (peers r).
Definition set_majority_cnt (n : Z) r : S :=
  mkReconfirm (state_ r) (palf_id_ r) (self_ r) (new_proposal_id_ r) (prepare_log_ack_list_ r) (curr_paxos_follower_list_ r)
    n (majority_max_log_server_ r) (majority_max_accept_pid_ r) (majority_max_lsn_ r) (saved_end_lsn_ r)
    (follower_end_lsn_list_ r) (sw_config_version_ r) (last_submit_prepare_req_time_us_ r) (last_fetch_log_time_us_ r)
    (last_record_sw_start_id_ r) (last_notify_fetch_time_us_ r) (last_purge_throttling_time_us_ r) (is_inited_ r) (peers r).
(** [majority_max_log_server_], [majority_max_accept_pid_] and [majority_max_lsn_]. *)
Definition set_newest (server : ObAddr) (pid : Z) (lsn : LSN) r : S :=
  mkReconfirm (state_ r) (palf_id_ r) (self_ r) (new_proposal_id_ r) (prepare_log_ack_list_ r) (curr_paxos_follower_list_ r)
    (majority_cnt_ r) server pid lsn (saved_end_lsn_ r)
    (follower_end_lsn_list_ r) (sw_config_version_ r) (last_submit_prepare_req_time_us_ r) (last_fetch_log_time_us_ r)
    (last_record_sw_start_id_ r) (last_notify_fetch_time_us_ r) (last_purge_throttling_time_us_ r) (is_inited_ r) (peers r).
Definition set_saved (lsn : LSN) r : S :=
  mkReconfirm (state_ r) (palf_id_ r) (self_ r) (new_proposal_id_ r) (prepare_log_ack_list_ r) (curr_paxos_follower_list_ r)
    (majority_cnt_ r) (majority_max_log_server_ r) (majority_max_accept_pid_ r) (majority_max_lsn_ r) lsn
    (follower_end_lsn_list_ r) (sw_config_version_ r) (last_submit_prepare_req_time_us_ r) (last_fetch_log_time_us_ r)
    (last_record_sw_start_id_ r) (last_notify_fetch_time_us_ r) (last_purge_throttling_time_us_ r) (is_inited_ r) (peers r).
Definition set_ends (l : list LogMemberAckInfo) r : S :=
  mkReconfirm (state_ r) (palf_id_ r) (self_ r) (new_proposal_id_ r) (prepare_log_ack_list_ r) (curr_paxos_follower_list_ r)
    (majority_cnt_ r) (majority_max_log_server_ r) (majority_max_accept_pid_ r) (majority_max_lsn_ r) (saved_end_lsn_ r)
    l (sw_config_version_ r) (last_submit_prepare_req_time_us_ r) (last_fetch_log_time_us_ r)
    (last_record_sw_start_id_ r) (last_notify_fetch_time_us_ r) (last_purge_throttling_time_us_ r) (is_inited_ r) (peers r).
Definition set_version (v : LogConfigVersion) r : S :=
  mkReconfirm (state_ r) (palf_id_ r) (self_ r) (new_proposal_id_ r) (prepare_log_ack_list_ r) (curr_paxos_follower_list_ r)
    (majority_cnt_ r) (majority_max_log_server_ r) (majority_max_accept_pid_ r) (majority_max_lsn_ r) (saved_end_lsn_ r)
    (follower_end_lsn_list_ r) v (last_submit_prepare_req_time_us_ r) (last_fetch_log_time_us_ r)
    (last_record_sw_start_id_ r) (last_notify_fetch_time_us_ r) (last_purge_throttling_time_us_ r) (is_inited_ r) (peers r).
(** The times of the last prepare request, notification and purge, and of the last fetch
    with the start of the window then. *)
Definition set_times (prepare notify purge : Z) r : S :=
  mkReconfirm (state_ r) (palf_id_ r) (self_ r) (new_proposal_id_ r) (prepare_log_ack_list_ r) (curr_paxos_follower_list_ r)
    (majority_cnt_ r) (majority_max_log_server_ r) (majority_max_accept_pid_ r) (majority_max_lsn_ r) (saved_end_lsn_ r)
    (follower_end_lsn_list_ r) (sw_config_version_ r) prepare (last_fetch_log_time_us_ r)
    (last_record_sw_start_id_ r) notify purge (is_inited_ r) (peers r).
Definition set_fetch (time start_id : Z) r : S :=
  mkReconfirm (state_ r) (palf_id_ r) (self_ r) (new_proposal_id_ r) (prepare_log_ack_list_ r) (curr_paxos_follower_list_ r)
    (majority_cnt_ r) (majority_max_log_server_ r) (majority_max_accept_pid_ r) (majority_max_lsn_ r) (saved_end_lsn_ r)
    (follower_end_lsn_list_ r) (sw_config_version_ r) (last_submit_prepare_req_time_us_ r) time
    start_id (last_notify_fetch_time_us_ r) (last_purge_throttling_time_us_ r) (is_inited_ r) (peers r).
Definition set_prepare_time (t : Z) r : S := set_times t (last_notify_fetch_time_us_ r) (last_purge_throttling_time_us_ r) r.
Definition set_notify_time (t : Z) r : S := set_times (last_submit_prepare_req_time_us_ r) t (last_purge_throttling_time_us_ r) r.
Definition set_purge_time (t : Z) r : S := set_times (last_submit_prepare_req_time_us_ r) (last_notify_fetch_time_us_ r) t r.

(** A call of a peer. *)
Definition ask {A} (f : P → A * P) : M S A := fun r => let '(a, p) := f (peers r) in Some (a, set_peers p r).

(** ** Life cycle *)

(** [args_ok]: no pointer is [NULL] and [self] is valid. *)
Definition init (args_ok : bool) (palf_id : Z) (self : ObAddr) r : Z * S :=
  if is_inited_ r then (OB_INIT_TWICE, r)
  else if negb (args_ok && addr_is_valid self) then (OB_INVALID_ARGUMENT, r)
  else
    (OB_SUCCESS,
     mkReconfirm (state_ r) palf_id self (new_proposal_id_ r) (prepare_log_ack_list_ r) (curr_paxos_follower_list_ r)
       (majority_cnt_ r) (majority_max_log_server_ r) (majority_max_accept_pid_ r) (majority_max_lsn_ r) (saved_end_lsn_ r)
       (follower_end_lsn_list_ r) (sw_config_version_ r) (last_submit_prepare_req_time_us_ r) (last_fetch_log_time_us_ r)
       (last_record_sw_start_id_ r) (last_notify_fetch_time_us_ r) (last_purge_throttling_time_us_ r) true (peers r)).
Definition cleared (inited : bool) r : S :=
  mkReconfirm INITED (palf_id_ r) (self_ r) INVALID_PROPOSAL_ID ack_reset [] 0 no_addr INVALID_PROPOSAL_ID no_lsn no_lsn []
    no_version OB_INVALID_TIMESTAMP OB_INVALID_TIMESTAMP OB_INVALID_LOG_ID OB_INVALID_TIMESTAMP OB_INVALID_TIMESTAMP inited (peers r).
Definition reset_state r : S := if decide (state_ r = INITED) then r else cleared (is_inited_ r) r.
Definition destroy r : S := if is_inited_ r then cleared false r else r.

(** ** Tests *)
Definition need_wlock r : bool :=
  match state_ r with
  | INITED | WAITING_LOG_FLUSHED | FETCH_MAX_LOG_LSN | RECONFIRM_MODE_META | RECONFIRMING | START_WORKING => true
  | RECONFIRM_FETCH_LOG | FINISHED => false
  end.
Definition can_receive_log r : bool := bool_decide (RECONFIRM_FETCH_LOG = state_ r).
Definition can_do_degrade r : bool := state_val RECONFIRM_FETCH_LOG <? state_val (state_ r).

(** [palf_reach_time_interval], with [warn_time] read and written through the two
    functions. *)
Definition palf_reach_time_interval (interval : Z) (warn_time : S → Z) (set_warn_time : Z → S → S) : M S bool :=
  let! now := ask getClock in
  let! t := gets warn_time in
  if (interval <=? now - t) || (OB_INVALID_TIMESTAMP =? t)
  then let! now := ask getClock in modify (set_warn_time now) ;;; ret true
  else ret false.
Definition purge_throttling_ : M S Z :=
  let! due := palf_reach_time_interval (100 * 1000) last_purge_throttling_time_us_ set_purge_time in
  if (due : bool) then ask engine_submit_purge_throttling_task else ret OB_SUCCESS.

(** ** Prepare *)
Definition init_reconfirm_ : M S Z :=
  let! a := ask mm_get_alive_member_list_with_arb in
  let '(rc, (member_list, replica_num)) := a in
  if ob_failed rc then ret rc
  else
    let! self := gets self_ in
    if negb (contains self member_list) then ret OB_ERR_UNEXPECTED
    else
      modify (set_followers member_list) ;;;
      (let '(rc, followers) := remove_server self member_list in
       modify (set_followers followers) ;;;
       if ob_failed rc then ret rc
       else modify (set_majority_cnt (Z.quot replica_num 2 + 1)) ;;; ret OB_SUCCESS).

Definition valid_pid (pid : Z) : bool := negb (INVALID_PROPOSAL_ID =? pid).
(** The two updates of [majority_max_accept_pid_]. *)
Definition own_accept_pid (curr max_flushed_log_pid local_accept_proposal_id : Z) : Z :=
  let pid := if valid_pid max_flushed_log_pid then max_flushed_log_pid else curr in
  if valid_pid local_accept_proposal_id && valid_pid pid && (pid <? local_accept_proposal_id)
  then local_accept_proposal_id else pid.
Definition submit_prepare_log_ : M S Z :=
  let! now_us := ask current_time in
  let! a := ask sw_get_max_flushed_log_info in
  let '(rc, (_, max_flushed_end_lsn, max_flushed_log_pid)) := a in
  if ob_failed rc then ret rc
  else
    let! rc := ask mode_reconfirm_mode_meta in
    if negb (OB_EAGAIN =? rc) then ret rc
    else
      modify (set_acks ack_reset) ;;;
      let! local_accept_proposal_id := ask mm_get_accept_proposal_id in
      modify (fun r => set_newest (self_ r)
                         (own_accept_pid (majority_max_accept_pid_ r) max_flushed_log_pid local_accept_proposal_id)
                         max_flushed_end_lsn r) ;;;
      let! old_proposal_id := ask state_get_proposal_id in
      let new_proposal_id := s64 (old_proposal_id + 1) in
      modify (set_pid new_proposal_id) ;;;
      let! r := get in
      chk! ask (state_handle_prepare_request (self_ r) new_proposal_id) else
      let! rc := (if list_is_valid (curr_paxos_follower_list_ r)
                  then ask (engine_submit_prepare_meta_req (curr_paxos_follower_list_ r) new_proposal_id)
                  else ret OB_SUCCESS) in
      if ob_failed rc then ret rc else (modify (set_prepare_time now_us) ;;; ret OB_SUCCESS).
Definition wait_all_log_flushed_ : M S Z :=
  let! b := ask sw_check_all_log_has_flushed in
  ret (if Bool.eqb false b then OB_EAGAIN else OB_SUCCESS).

(** ** Answers *)
Definition update_follower_end_lsn_ (server : ObAddr) (committed_end_lsn : LSN) r : Z * S :=
  if negb (addr_is_valid server) || negb (Lsn.is_valid committed_end_lsn) then (OB_INVALID_ARGUMENT, r)
  else
    let l := follower_end_lsn_list_ r in
    let index := ack_info_list_get_index l server in
    if negb (-1 =? index) then
      (OB_SUCCESS,
       match l !! Z.to_nat index with
       | Some a =>
           if Lsn.lsn_ltb (last_flushed_end_lsn_ a) committed_end_lsn
           then set_ends (<[Z.to_nat index := mkAck (member_ a) (last_ack_time_us_ a) committed_end_lsn]> l) r
           else r
       | None => r
       end)
    else (OB_SUCCESS, set_ends (l ++ [mkAck (new_member server 1) 0 committed_end_lsn]) r).

(** The comparison of an answer with the newest log so far. *)
Definition compare_newest (server : ObAddr) (accept_proposal_id : Z) (last_lsn : LSN) r : S :=
  if accept_proposal_id =? majority_max_accept_pid_ r then
    if Lsn.lsn_gtb last_lsn (majority_max_lsn_ r)
    then set_newest server (majority_max_accept_pid_ r) last_lsn r else r
  else if (INVALID_PROPOSAL_ID =? majority_max_accept_pid_ r) || (majority_max_accept_pid_ r <? accept_proposal_id)
  then set_newest server accept_proposal_id last_lsn r
  else r.
Definition handle_prepare_response (server : ObAddr) (src_proposal_id accept_proposal_id : Z)
    (last_lsn committed_end_lsn : LSN) r : Z * S :=
  if negb (is_inited_ r) then (OB_NOT_INIT, r)
  else if negb (addr_is_valid server) || (INVALID_PROPOSAL_ID =? src_proposal_id)
          || (INVALID_PROPOSAL_ID =? accept_proposal_id) || negb (Lsn.is_valid last_lsn)
  then (OB_INVALID_ARGUMENT, r)
  else if negb (src_proposal_id =? new_proposal_id_ r) || negb (bool_decide (FETCH_MAX_LOG_LSN = state_ r))
  then (OB_STATE_NOT_MATCH, r)
  else if negb (contains server (curr_paxos_follower_list_ r)) then (OB_SUCCESS, r)
  else
    let '(rc, acks) := ack_add_server server (prepare_log_ack_list_ r) in
    let r := set_acks acks r in
    if ob_failed rc then (rc, r)
    else if valid_pid (majority_max_accept_pid_ r) && (accept_proposal_id <? majority_max_accept_pid_ r) then (OB_SUCCESS, r)
    else
      let r := compare_newest server accept_proposal_id last_lsn r in
      (OB_SUCCESS,
       if Lsn.is_valid committed_end_lsn then snd (update_follower_end_lsn_ server committed_end_lsn r) else r).

(** ** Fetching the newest log *)
Fixpoint ack_ends (l : list LogMemberAckInfo) : M S Z :=
  match l with
  | [] => ret OB_SUCCESS
  | a :: l => ask (sw_ack_log (server_ (member_ a)) (last_flushed_end_lsn_ a)) ;;; ack_ends l
  end.
Definition ack_log_with_end_lsn_ : M S Z := let! l := gets follower_end_lsn_list_ in ack_ends l.
Definition is_fetch_log_finished_ : M S bool :=
  let! max_flushed_end_lsn := ask sw_get_max_flushed_end_lsn in
  ask sw_get_max_lsn ;;;
  let! majority_max_lsn := gets majority_max_lsn_ in
  if Lsn.lsn_eqb majority_max_lsn max_flushed_end_lsn then ret true
  else purge_throttling_ ;;; ret false.
Definition try_fetch_log_ : M S Z :=
  let! now_us := ask current_time in
  let! sw_start_id := ask sw_get_start_id in
  let! r := get in
  if (OB_INVALID_TIMESTAMP =? last_fetch_log_time_us_ r) || (OB_INVALID_LOG_ID =? last_record_sw_start_id_ r)
     || ((sw_start_id =? last_record_sw_start_id_ r) && (PALF_FETCH_LOG_INTERVAL_US <=? now_us - last_fetch_log_time_us_ r))
  then
    let! a := ask (sw_try_fetch_log_for_reconfirm (majority_max_log_server_ r) (majority_max_lsn_ r)) in
    let '(rc, is_fetched) := a in
    if ob_failed rc then ret rc
    else if (is_fetched : bool) then modify (set_fetch now_us sw_start_id) ;;; ret OB_SUCCESS
    else ret OB_SUCCESS
  else if negb (sw_start_id =? last_record_sw_start_id_ r) then modify (set_fetch now_us sw_start_id) ;;; ret OB_SUCCESS
  else ret OB_SUCCESS.
Definition is_majority_catch_up_ : M S bool :=
  let! a := ask sw_get_majority_match_lsn in
  let '(rc, majority_match_lsn) := a in
  let! majority_max_lsn := gets majority_max_lsn_ in
  if ob_failed rc then ret false
  else if negb (Lsn.is_valid majority_match_lsn) then ret false
  else if Lsn.lsn_ltb majority_match_lsn majority_max_lsn then
    let! due := palf_reach_time_interval (100 * 1000) last_notify_fetch_time_us_ set_notify_time in
    if (due : bool) then
      let! a := ask (sw_get_lagged_member_list majority_max_lsn) in
      let '(rc, lagged_list) := a in
      if ob_failed rc then ret false
      else ask (engine_submit_notify_fetch_log_req lagged_list) ;;; ret false
    else ret false
  else ret true.

(** ** The state machine

    One definition for each [case] of the [switch], with the next one where the [case]
    falls through. *)
Definition confirm_start_working_log (leader_epoch : Z) : M S Z :=
  let! r := get in
  let! a := ask (mm_confirm_start_working_log (new_proposal_id_ r) leader_epoch (sw_config_version_ r)) in
  modify (set_version (snd a)) ;;; ret (fst a).
Definition case_start_working : M S Z :=
  ask mode_need_skip_log_barrier ;;;
  let! leader_epoch := ask state_get_leader_epoch in
  chk! confirm_start_working_log leader_epoch else
  let! curr_max_lsn := ask sw_get_max_lsn in
  let! saved_end_lsn := gets saved_end_lsn_ in
  if negb (Lsn.lsn_eqb curr_max_lsn saved_end_lsn) then ret OB_ERR_UNEXPECTED
  else
    chk! ask (sw_try_advance_committed_end_lsn saved_end_lsn) else
    let! slided := ask sw_is_all_committed_log_slided_out in
    if negb slided then ret OB_SUCCESS
    else modify (set_state FINISHED) ;;; ret OB_SUCCESS.
Definition case_reconfirming : M S Z :=
  let! need_skip_log_barrier := ask mode_need_skip_log_barrier in
  let! leader_epoch := ask state_get_leader_epoch in
  let! flushed := ask sw_check_all_log_has_flushed in
  if Bool.eqb false flushed then ret OB_SUCCESS
  else
    let! wait := (if Bool.eqb need_skip_log_barrier false
                  then let! b := is_majority_catch_up_ in ret (Bool.eqb false b) else ret false) in
    if (wait : bool) then ret OB_SUCCESS
    else
      let! a := ask sw_get_max_flushed_log_info in
      let '(rc, (_, last_end_lsn, _)) := a in
      if ob_failed rc then ret rc
      else
        let! rc := confirm_start_working_log leader_epoch in
        if ob_failed rc && negb (OB_EAGAIN =? rc) then ret rc
        else modify (set_saved last_end_lsn) ;;; modify (set_state START_WORKING) ;;; case_start_working.
Definition case_fetch_log : M S Z :=
  chk! ack_log_with_end_lsn_ else
  let! r := get in
  let! fetching := (if negb (addr_eqb (majority_max_log_server_ r) (self_ r))
                    then let! b := is_fetch_log_finished_ in ret (negb b) else ret false) in
  if (fetching : bool) then try_fetch_log_
  else modify (set_state RECONFIRMING) ;;; ret OB_SUCCESS.
Definition case_mode_meta : M S Z :=
  chk! ask mode_reconfirm_mode_meta else
  let! need_skip_log_barrier := ask mode_need_skip_log_barrier in
  if Bool.eqb true need_skip_log_barrier then modify (set_state RECONFIRMING) ;;; ret OB_SUCCESS
  else modify (set_state RECONFIRM_FETCH_LOG) ;;; case_fetch_log.
Definition case_fetch_max_log_lsn : M S Z :=
  let! now_us := ask current_time in
  let! r := get in
  let cost_ts := now_us - last_submit_prepare_req_time_us_ r in
  if ack_get_count (prepare_log_ack_list_ r) + 1 <? majority_cnt_ r then
    if RECONFIRM_PREPARE_RETRY_INTERVAL_US <=? cost_ts then submit_prepare_log_ else ret OB_SUCCESS
  else modify (set_state RECONFIRM_MODE_META) ;;; case_mode_meta.
Definition case_waiting_log_flushed : M S Z :=
  chk! purge_throttling_ else
  chk! wait_all_log_flushed_ else
  chk! submit_prepare_log_ else
  (modify (set_state FETCH_MAX_LOG_LSN) ;;; modify (set_purge_time OB_INVALID_TIMESTAMP) ;;; ret OB_SUCCESS).
Definition case_inited : M S Z :=
  chk! init_reconfirm_ else
  (modify (set_state WAITING_LOG_FLUSHED) ;;; case_waiting_log_flushed).

Definition reconfirm : M S Z :=
  let! inited := gets is_inited_ in
  if negb inited then ret OB_NOT_INIT
  else
    ask current_time ;;;
    let! s := gets state_ in
    let! rc :=
      match s with
      | INITED => case_inited
      | WAITING_LOG_FLUSHED => case_waiting_log_flushed
      | FETCH_MAX_LOG_LSN => case_fetch_max_log_lsn
      | RECONFIRM_MODE_META => case_mode_meta
      | RECONFIRM_FETCH_LOG => case_fetch_log
      | RECONFIRMING => case_reconfirming
      | START_WORKING => case_start_working
      | FINISHED => ret OB_SUCCESS
      end in
    let! s := gets state_ in
    if decide (s = FINISHED) then ret OB_SUCCESS
    else if negb (OB_SUCCESS =? rc) && negb (OB_EAGAIN =? rc) then ret rc
    else ret OB_EAGAIN.
End reconfirm.
End LogReconfirm.
