(* ===== verification/ReconfirmSafety.v ===== *)
(** What the confirmation of a new leader ([LogReconfirm]) promises: it goes on only after
    a majority has answered its proposal, the server it takes the log from has the newest
    log of that majority, and it ends only after the whole log has been committed under
    the new proposal.

    The calls of its peers that matter are recorded, newest first, by wrapping any
    implementation of the interface; the recorded calls and the answers received are what
    the theorems speak about. *)
From S2P Require Import Prelude Lsn MemberList SimpleMemberList LogReconfirm.
Import MemberList.
Import SimpleMemberList(ack_reset, ack_add_server, ack_get_count, ack_insert, awf, ack_count, ack_add_server_spec).
Import LogReconfirm.

Module ReconfirmSafety.

(** ** Recorded calls *)
Inductive Ev : Type :=
  | Flushed (end_lsn : LSN) (pid : Z)
  | Promised (pid rc : Z)
  | Answer (server : ObAddr) (src accept : Z) (lsn : LSN)
  | Skip (b : bool)
  | Matched (rc : Z) (lsn : LSN)
  | Working (pid rc : Z)
  | MaxLsn (lsn : LSN)
  | Advanced (lsn : LSN) (rc : Z)
  | Slided (b : bool).

Definition log1 {P A} (es : A → list Ev) (f : P → A * P) (pt : P * list Ev) : A * (P * list Ev) :=
  let '(a, p) := f (fst pt) in (a, (p, es a ++ snd pt)).
Definition quietly {A} (_ : A) : list Ev := [].

#[export] Instance traced P `{Peers P} : Peers (P * list Ev) := {
  current_time := log1 quietly current_time;
  getClock := log1 quietly getClock;
  mm_get_alive_member_list_with_arb := log1 quietly mm_get_alive_member_list_with_arb;
  mm_get_accept_proposal_id := log1 quietly mm_get_accept_proposal_id;
  mm_confirm_start_working_log pid epoch v := log1 (λ a, [Working pid (fst a)]) (mm_confirm_start_working_log pid epoch v);
  sw_get_max_flushed_log_info := log1 (λ a, [Flushed (snd (fst (snd a))) (snd (snd a))]) sw_get_max_flushed_log_info;
  sw_check_all_log_has_flushed := log1 quietly sw_check_all_log_has_flushed;
  sw_ack_log server lsn := log1 quietly (sw_ack_log server lsn);
  sw_get_max_flushed_end_lsn := log1 quietly sw_get_max_flushed_end_lsn;
  sw_get_max_lsn := log1 (λ l, [MaxLsn l]) sw_get_max_lsn;
  sw_get_start_id := log1 quietly sw_get_start_id;
  sw_try_fetch_log_for_reconfirm server lsn := log1 quietly (sw_try_fetch_log_for_reconfirm server lsn);
  sw_get_majority_match_lsn := log1 (λ a, [Matched (fst a) (snd a)]) sw_get_majority_match_lsn;
  sw_get_lagged_member_list lsn := log1 quietly (sw_get_lagged_member_list lsn);
  sw_try_advance_committed_end_lsn lsn := log1 (λ rc, [Advanced lsn rc]) (sw_try_advance_committed_end_lsn lsn);
  sw_is_all_committed_log_slided_out := log1 (λ b, [Slided b]) sw_is_all_committed_log_slided_out;
  mode_reconfirm_mode_meta := log1 quietly mode_reconfirm_mode_meta;
  mode_need_skip_log_barrier := log1 (λ b, [Skip b]) mode_need_skip_log_barrier;
  state_get_proposal_id := log1 quietly state_get_proposal_id;
  state_handle_prepare_request server pid := log1 (λ rc, [Promised pid rc]) (state_handle_prepare_request server pid);
  state_get_leader_epoch := log1 quietly state_get_leader_epoch;
  engine_submit_prepare_meta_req ml pid := log1 quietly (engine_submit_prepare_meta_req ml pid);
  engine_submit_notify_fetch_log_req ml := log1 quietly (engine_submit_notify_fetch_log_req ml);
  engine_submit_purge_throttling_task := log1 quietly engine_submit_purge_throttling_task
}.

(** What is expected of the configuration manager: a well-formed list of members that are
    not more than the replicas counted. *)
Class PeersLaws (P : Type) `{Peers P} : Prop := {
  member_list_law p ml n p' :
    mm_get_alive_member_list_with_arb p = ((OB_SUCCESS, (ml, n)), p') → wf ml ∧ get_member_number ml ≤ n
}.

(** What the events say since the last proposal. *)
Definition is_promise (e : Ev) : bool := match e with Promised _ _ => true | _ => false end.
Fixpoint recent (t : list Ev) : list Ev :=
  match t with
  | [] => []
  | e :: t => if is_promise e then [] else e :: recent t
  end.

Section safety.
Context {P : Type} `{HP : Peers P}.
Abbreviation R := (@LogReconfirm (P * list Ev)).
Implicit Types r : R.
Definition trace r : list Ev := snd (peers r).
Definition note (e : Ev) r : R := set_peers (fst (peers r), e :: trace r) r.

(** The object with everything that may happen to it: a round of the state machine, an
    answer, a reset when the replica starts or stops to lead, and whatever the other
    components do meanwhile. *)
Inductive step : R → R → Prop :=
  | step_reconfirm r rc r' : reconfirm r = Some (rc, r') → step r r'
  | step_answer server src accept lsn committed r :
      wf_addr server →
      step r (snd (handle_prepare_response server src accept lsn committed (note (Answer server src accept lsn) r)))
  | step_reset r : step r (reset_state r)
  | step_others r p : step r (set_peers (p, trace r) r).

Definition started (palf_id : Z) (self : ObAddr) (p : P) : R := snd (init true palf_id self (new_reconfirm (p, []))).

(** The order of logs: by proposal id, then by end. *)
Definition older (pid : Z) (lsn : LSN) (pid' : Z) (lsn' : LSN) : Prop :=
  pid < pid' ∨ pid = pid' ∧ Lsn.val_ lsn ≤ Lsn.val_ lsn'.
(** The log [(pid, lsn)] is not newer than that of the chosen server. *)
Definition covered (pid : Z) (lsn : LSN) r : Prop :=
  valid_pid (majority_max_accept_pid_ r) = true ∧
  older pid lsn (majority_max_accept_pid_ r) (majority_max_lsn_ r).
(** The servers that answered the current proposal. *)
Definition answered (a : ObAddr) r : Prop :=
  contains a (curr_paxos_follower_list_ r) = true ∧
  ∃ accept lsn, Answer a (new_proposal_id_ r) accept lsn ∈ recent (trace r) ∧ valid_pid accept = true ∧ covered accept lsn r.
(** The server that was chosen is the replica itself or has answered so. *)
Definition genuine (end_lsn : LSN) r : Prop :=
  (majority_max_log_server_ r = self_ r ∧ majority_max_lsn_ r = end_lsn) ∨
  Answer (majority_max_log_server_ r) (new_proposal_id_ r) (majority_max_accept_pid_ r) (majority_max_lsn_ r) ∈ recent (trace r).

(** The proposal of this round, what the replica itself had flushed when it was made, and
    the answers to it. *)
Definition proposed r : Prop :=
  ∃ end_lsn pid rc before,
    trace r = recent (trace r) ++ Promised (new_proposal_id_ r) rc :: Flushed end_lsn pid :: before ∧
    (valid_pid pid = true → covered pid end_lsn r ∧ genuine end_lsn r).
Definition voted r (q : list ObAddr) : Prop :=
  awf (prepare_log_ack_list_ r) q ∧ Forall (λ a, answered a r) q ∧
  (proposed r ∨ new_proposal_id_ r = INVALID_PROPOSAL_ID ∧ q = []).

(** Before the start-working log is written, a majority has the newest log, or the mode of
    the log says that it need not. *)
Definition caught_up (lsn : LSN) (e : Ev) : Prop :=
  match e with
  | Skip b => b = true
  | Matched rc l => rc = OB_SUCCESS ∧ Lsn.is_valid l = true ∧ Lsn.val_ lsn ≤ Lsn.val_ l
  | _ => False
  end.
Definition ready r : Prop :=
  ∃ later e pid before, recent (trace r) = later ++ Flushed (saved_end_lsn_ r) pid :: e :: before ∧ caught_up (majority_max_lsn_ r) e.
(** The start-working log of the proposal is committed, the log has not grown, and the end
    of it has been committed and applied. *)
Definition done r : Prop :=
  ∃ later mid e pid before,
    recent (trace r) =
      later ++ Slided true :: Advanced (saved_end_lsn_ r) OB_SUCCESS :: MaxLsn (saved_end_lsn_ r)
        :: Working (new_proposal_id_ r) OB_SUCCESS :: mid ++ Flushed (saved_end_lsn_ r) pid :: e :: before ∧
    caught_up (majority_max_lsn_ r) e.
(** ** The invariant *)
Record base r : Prop := {
  base_inited : is_inited_ r = true;
  base_self : wf_addr (self_ r);
  base_valid : addr_is_valid (self_ r) = true
}.
(** The followers of a majority of [majority_cnt_]: two such majorities meet. *)
Record grouped r : Prop := {
  grouped_wf : wf (curr_paxos_follower_list_ r);
  grouped_self : contains (self_ r) (curr_paxos_follower_list_ r) = false;
  grouped_cnt : get_member_number (curr_paxos_follower_list_ r) + 1 < 2 * majority_cnt_ r
}.
Definition majority r : Prop := majority_cnt_ r ≤ ack_get_count (prepare_log_ack_list_ r) + 1.
Definition stage r : Prop :=
  match state_ r with
  | INITED => prepare_log_ack_list_ r = ack_reset
  | WAITING_LOG_FLUSHED | FETCH_MAX_LOG_LSN => grouped r
  | RECONFIRM_MODE_META | RECONFIRM_FETCH_LOG | RECONFIRMING => grouped r ∧ majority r
  | START_WORKING => grouped r ∧ majority r ∧ ready r
  | FINISHED => grouped r ∧ majority r ∧ done r
  end.
Record inv r : Prop := { inv_base : base r; inv_voted : ∃ q, voted r q; inv_stage : stage r }.

(** ** Calls that change nothing of this *)
Definition core r :=
  (state_ r, self_ r, new_proposal_id_ r, prepare_log_ack_list_ r, curr_paxos_follower_list_ r, majority_cnt_ r,
   (majority_max_log_server_ r, majority_max_accept_pid_ r, majority_max_lsn_ r), saved_end_lsn_ r, is_inited_ r).
Definition silent (es : list Ev) : Prop := Forall (λ e, is_promise e = false) es.
Definition quiet r r' : Prop := core r' = core r ∧ ∃ es, trace r' = es ++ trace r ∧ silent es.

Lemma quiet_refl r : quiet r r.
Proof. split; [done|]. exists []. split; [done|constructor]. Qed.

Lemma quiet_trans r1 r2 r3 : quiet r1 r2 → quiet r2 r3 → quiet r1 r3.
Proof.
  intros [E1 (e1 & T1 & S1)] [E2 (e2 & T2 & S2)]. split; [congruence|]. exists (e2 ++ e1).
  rewrite T2, T1, app_assoc. split; [done|]. by apply Forall_app.
Qed.

Lemma recent_silent es t : silent es → recent (es ++ t) = es ++ recent t.
Proof. induction 1 as [|e es E _ IH]; [done|]. cbn. by rewrite E, IH. Qed.

Lemma twp_log1 {A} (es : A → list Ev) (f : P → A * P) (Q : A → R → Prop) r :
  (∀ a p, Q a (set_peers (p, es a ++ trace r) r)) → twp (ask (log1 es f)) Q r.
Proof. intros HQ. unfold twp, ask, log1. destruct (f (fst (peers r))) as [a p]. apply HQ. Qed.

Lemma twp_log1_eq {A} (es : A → list Ev) (f : P → A * P) (Q : A → R → Prop) r :
  (∀ a p, f (fst (peers r)) = (a, p) → Q a (set_peers (p, es a ++ trace r) r)) → twp (ask (log1 es f)) Q r.
Proof. intros HQ. unfold twp, ask, log1. destruct (f (fst (peers r))) as [a p] eqn:E. by apply HQ. Qed.

Ltac wstep :=
  lazymatch goal with
  | |- twp (bind _ _) _ _ => apply twp_bind
  | |- twp (ret _) _ _ => apply twp_ret
  | |- twp (gets _) _ _ => apply twp_gets
  | |- twp get _ _ => apply twp_get
  | |- twp (modify _) _ _ => apply twp_modify
  | |- twp (ask _) _ _ => apply twp_log1; intros
  | |- twp (if ?b then _ else _) _ _ => destruct b eqn:?
  | |- twp (match ?a with pair _ _ => _ end) _ _ => destruct a eqn:?
  end.

(** One more call without a promise. *)
Lemma quiet_call es p r r' :
  quiet r r' → silent es → quiet r (set_peers (p, es ++ trace r') r').
Proof. intros Hq He. eapply quiet_trans; [exact Hq|]. split; [done|]. by exists es. Qed.

Lemma quiet_set (f : R → R) r r' :
  quiet r r' → (∀ x, core (f x) = core x) → (∀ x, trace (f x) = trace x) → quiet r (f r').
Proof. intros Hq Hc Ht. eapply quiet_trans; [exact Hq|]. split; [done|]. exists []. split; [by rewrite Ht|constructor]. Qed.

Ltac quiet_tac :=
  repeat first
    [ apply quiet_refl | assumption
    | lazymatch goal with |- quiet _ (set_peers (_, ?es ++ _) ?r) => apply (quiet_call es); [|by repeat constructor] end
    | lazymatch goal with
      | |- quiet _ (set_purge_time ?t ?r) => apply (quiet_set (set_purge_time t)); [|done..]
      | |- quiet _ (set_notify_time ?t ?r) => apply (quiet_set (set_notify_time t)); [|done..]
      | |- quiet _ (set_fetch ?t ?u ?r) => apply (quiet_set (set_fetch t u)); [|done..]
      | |- quiet _ (set_version ?v ?r) => apply (quiet_set (set_version v)); [|done..]
      end ].
Ltac calls := repeat wstep; quiet_tac.

Lemma purge_quiet r : twp purge_throttling_ (λ _, quiet r) r.
Proof. unfold purge_throttling_, palf_reach_time_interval. calls. Qed.

Lemma wait_flushed_quiet r : twp wait_all_log_flushed_ (λ _, quiet r) r.
Proof. unfold wait_all_log_flushed_. calls. Qed.

Lemma ack_ends_quiet l r : twp (ack_ends l) (λ _, quiet r) r.
Proof.
  revert r. induction l as [|a l IH]; intros r; cbn [ack_ends]; [calls|]. do 2 wstep.
  eapply twp_mono; [apply IH|]. intros ? r' Hq. eapply quiet_trans; [|exact Hq]. quiet_tac.
Qed.

Lemma fetch_finished_quiet r : twp is_fetch_log_finished_ (λ _, quiet r) r.
Proof.
  unfold is_fetch_log_finished_. repeat wstep; [quiet_tac|].
  eapply twp_mono; [apply purge_quiet|]. intros ? r' Hq. wstep. eapply quiet_trans; [|exact Hq]. quiet_tac.
Qed.

Lemma try_fetch_quiet r : twp try_fetch_log_ (λ _, quiet r) r.
Proof. unfold try_fetch_log_. calls. Qed.

(** ** The invariant under such calls *)
Lemma quiet_fields r r' :
  quiet r r' →
  state_ r' = state_ r ∧ self_ r' = self_ r ∧ new_proposal_id_ r' = new_proposal_id_ r ∧
  prepare_log_ack_list_ r' = prepare_log_ack_list_ r ∧ curr_paxos_follower_list_ r' = curr_paxos_follower_list_ r ∧
  majority_cnt_ r' = majority_cnt_ r ∧ majority_max_log_server_ r' = majority_max_log_server_ r ∧
  majority_max_accept_pid_ r' = majority_max_accept_pid_ r ∧ majority_max_lsn_ r' = majority_max_lsn_ r ∧
  saved_end_lsn_ r' = saved_end_lsn_ r ∧ is_inited_ r' = is_inited_ r.
Proof. intros [E _]. unfold core in E. injection E. intros. by split_and!. Qed.

Ltac use_quiet H :=
  let H' := fresh in
  pose proof (quiet_fields _ _ H) as H';
  destruct H' as (?Es & ?Ef & ?Ep & ?Ea & ?Ew & ?Ec & ?Er & ?Em & ?El & ?Ed & ?Ei).

Lemma quiet_recent r r' : quiet r r' → ∃ es, trace r' = es ++ trace r ∧ recent (trace r') = es ++ recent (trace r).
Proof. intros [_ (es & E & Hs)]. exists es. split; [done|]. rewrite E. by apply recent_silent. Qed.

Lemma base_quiet r r' : quiet r r' → base r → base r'.
Proof. intros Hq [? ? ?]. use_quiet Hq. split; congruence. Qed.

Lemma grouped_quiet r r' : quiet r r' → grouped r → grouped r'.
Proof. intros Hq [? ? ?]. use_quiet Hq. split; rewrite ?Ew, ?Ef, ?Ec; done. Qed.

Lemma majority_quiet r r' : quiet r r' → majority r → majority r'.
Proof. intros Hq. use_quiet Hq. unfold majority. by rewrite Ea, Ec. Qed.

Lemma covered_quiet pid lsn r r' : quiet r r' → covered pid lsn r → covered pid lsn r'.
Proof. intros Hq. use_quiet Hq. unfold covered. by rewrite Em, El. Qed.

Lemma answered_quiet a r r' : quiet r r' → answered a r → answered a r'.
Proof.
  intros Hq (Hc & acc & lsn & Hin & Hv & Hcov). destruct (quiet_recent _ _ Hq) as (es & _ & Hr). split.
  - use_quiet Hq. by rewrite Ew.
  - exists acc, lsn. split_and!; [|done|by eapply covered_quiet]. use_quiet Hq. rewrite Hr, Ep. apply elem_of_app. by right.
Qed.

Lemma proposed_quiet r r' : quiet r r' → proposed r → proposed r'.
Proof.
  intros Hq (l & pid & rc & bef & Ht & Hv). destruct (quiet_recent _ _ Hq) as (es & E & Hr).
  exists l, pid, rc, bef. pose proof Hq as Hq'. use_quiet Hq'. split.
  - rewrite Ep, Hr, E, <- app_assoc. by f_equal.
  - intros Hp. destruct (Hv Hp) as [Hcov Hg]. split; [by eapply covered_quiet|]. unfold genuine in *.
    rewrite Er, Ef, El, Ep, Em, Hr. destruct Hg as [?|?]; [by left|right]. apply elem_of_app. by right.
Qed.

Lemma voted_quiet r r' q : quiet r r' → voted r q → voted r' q.
Proof.
  intros Hq (Ha & Hf & Hp). pose proof Hq as Hq'. use_quiet Hq'. unfold voted. rewrite Ea, Ep. split_and!; [done| |].
  - eapply Forall_impl; [exact Hf|]. intros a. by apply answered_quiet.
  - destruct Hp as [?|?]; [left; by eapply proposed_quiet|by right].
Qed.

Lemma ready_quiet r r' : quiet r r' → ready r → ready r'.
Proof.
  intros Hq (la & e & pid & bef & Ht & Hc). destruct (quiet_recent _ _ Hq) as (es & _ & Hr). use_quiet Hq.
  exists (es ++ la), e, pid, bef. by rewrite Hr, Ht, Ed, El, app_assoc.
Qed.

Lemma done_quiet r r' : quiet r r' → done r → done r'.
Proof.
  intros Hq (la & mid & e & pid & bef & Ht & Hc). destruct (quiet_recent _ _ Hq) as (es & _ & Hr). use_quiet Hq.
  exists (es ++ la), mid, e, pid, bef. by rewrite Hr, Ht, Ed, El, Ep, <- app_assoc.
Qed.

Lemma stage_quiet r r' : quiet r r' → stage r → stage r'.
Proof.
  intros Hq. pose proof Hq as Hq'. use_quiet Hq'. unfold stage. rewrite Es, Ea.
  destruct (state_ r); naive_solver eauto using grouped_quiet, majority_quiet, ready_quiet, done_quiet.
Qed.

Lemma inv_quiet r r' : quiet r r' → inv r → inv r'.
Proof.
  intros Hq [? [q ?] ?]. split; [by eapply base_quiet|exists q; by eapply voted_quiet|by eapply stage_quiet].
Qed.

(** ** Answers *)
Record kept r r' : Prop := {
  kept_self : self_ r' = self_ r;
  kept_state : state_ r' = state_ r;
  kept_inited : is_inited_ r' = is_inited_ r;
  kept_pid : new_proposal_id_ r' = new_proposal_id_ r;
  kept_followers : curr_paxos_follower_list_ r' = curr_paxos_follower_list_ r;
  kept_cnt : majority_cnt_ r' = majority_cnt_ r;
  kept_trace : trace r' = trace r
}.
Lemma kept_trans r1 r2 r3 : kept r1 r2 → kept r2 r3 → kept r1 r3.
Proof. intros [] []. split; congruence. Qed.

Lemma compare_newest_spec server acc lsn r :
  Answer server (new_proposal_id_ r) acc lsn ∈ recent (trace r) → valid_pid acc = true →
  (valid_pid (majority_max_accept_pid_ r) && (acc <? majority_max_accept_pid_ r))%bool = false →
  let r' := compare_newest server acc lsn r in
  kept r r' ∧ prepare_log_ack_list_ r' = prepare_log_ack_list_ r ∧
  covered acc lsn r' ∧ (∀ p l, covered p l r → covered p l r') ∧ (∀ l, genuine l r → genuine l r').
Proof.
  intros Hin Hv Hi r'. unfold r', compare_newest, covered, older, genuine, valid_pid, Lsn.lsn_gtb, Lsn.lsn_ltb in *.
  destruct (Z.eqb_spec acc (majority_max_accept_pid_ r)) as [->|Hn].
  - destruct (Z.ltb_spec (Lsn.val_ (majority_max_lsn_ r)) (Lsn.val_ lsn)); (split; [by split|]; split; [done|]; split; [|split]);
      cbn [set_newest majority_max_accept_pid_ majority_max_lsn_ majority_max_log_server_].
    + split; [done|]. lia.
    + intros p l [? ?]. split; [done|]. lia.
    + by right.
    + split; [done|]. lia.
    + done.
    + done.
  - apply andb_false_iff in Hi. destruct (_ || _)%bool eqn:E.
    + split; [by split|]. split; [done|]. split; [|split]; cbn [set_newest majority_max_accept_pid_ majority_max_lsn_ majority_max_log_server_].
      * split; [done|]. lia.
      * intros p l [Hm ?]. split; [done|]. bool_to_prop. destruct E as [E|E]; bool_to_prop; lia.
      * by right.
    + exfalso. apply orb_false_iff in E as [E1 E2]. apply Z.ltb_ge in E2. destruct Hi as [Hi|Hi]; bool_to_prop; lia.
Qed.

Lemma update_ends_kept server lsn r :
  let r' := snd (update_follower_end_lsn_ server lsn r) in quiet r r' ∧ kept r r'.
Proof.
  cbv zeta. unfold update_follower_end_lsn_. repeat case_match; cbn [snd]; (split; [|by split]);
    try apply quiet_refl; (split; [done|]); exists []; (split; [done|constructor]).
Qed.

Lemma elem_of_ack_insert a server q : a ∈ ack_insert server q → a ∈ q ∨ a = server.
Proof. unfold ack_insert. repeat case_decide; [by left| |by left]. rewrite elem_of_app, list_elem_of_singleton. tauto. Qed.

Lemma voted_add server acc lsn acks r r' q :
  voted r q → kept r r' → prepare_log_ack_list_ r' = acks → awf acks (ack_insert server q) →
  new_proposal_id_ r ≠ INVALID_PROPOSAL_ID → contains server (curr_paxos_follower_list_ r) = true →
  Answer server (new_proposal_id_ r) acc lsn ∈ recent (trace r) → valid_pid acc = true →
  covered acc lsn r' → (∀ p l, covered p l r → covered p l r') → (∀ l, genuine l r → genuine l r') →
  voted r' (ack_insert server q).
Proof.
  intros (_ & Hf & Hp) [Es Et _ Ep Ew _ Htr] <- Ha Hn Hc Hin Hv Hcov Hm Hg. split_and!; [done| |].
  - rewrite Forall_forall in Hf |- *. intros a [Ha'| ->]%elem_of_ack_insert.
    + destruct (Hf a Ha') as (? & acc' & lsn' & ? & ? & ?). unfold answered. rewrite Ew, Ep, Htr. split; [done|]. exists acc', lsn'. auto.
    + unfold answered. rewrite Ew, Ep, Htr. split; [done|]. exists acc, lsn. auto.
  - destruct Hp as [(l & pid & rc & bef & E & Hq)|[? _]]; [left|done]. exists l, pid, rc, bef.
    rewrite Ep, Htr. split; [done|]. intros Hv'. destruct (Hq Hv'). auto.
Qed.

Lemma grouped_kept r r' : kept r r' → grouped r → grouped r'.
Proof. intros [Es Et _ Ep Ew Ec Htr] [? ? ?]. split; rewrite ?Ew, ?Es, ?Ec; done. Qed.
Lemma base_kept r r' : kept r r' → base r → base r'.
Proof. intros [Es Et Ei Ep Ew Ec Htr] [? ? ?]. split; congruence. Qed.
Lemma stage_kept r r' : kept r r' → state_ r = FETCH_MAX_LOG_LSN → stage r → stage r'.
Proof. intros Hk E. unfold stage. rewrite (kept_state _ _ Hk), E. by apply grouped_kept. Qed.

Lemma answer_keeps server src acc lsn committed r :
  wf_addr server → inv r → Answer server src acc lsn ∈ recent (trace r) →
  inv (snd (handle_prepare_response server src acc lsn committed r)).
Proof.
  intros Hs Hi Hin. unfold handle_prepare_response. destruct (negb (is_inited_ r)); [done|].
  destruct (_ || negb (Lsn.is_valid lsn))%bool eqn:Eargs; [done|].
  destruct (_ || negb (bool_decide _))%bool eqn:Est; [done|].
  destruct (contains server _) eqn:Ec; [|done]. cbn [negb].
  apply orb_false_iff in Est as [Esrc Est]. apply negb_false_iff in Esrc, Est. apply Z.eqb_eq in Esrc as ->.
  apply bool_decide_eq_true in Est. symmetry in Est.
  apply orb_false_iff in Eargs as [Eargs _]. apply orb_false_iff in Eargs as [Eargs Eacc].
  apply orb_false_iff in Eargs as [Esv Epid]. apply negb_false_iff in Esv. apply Z.eqb_neq in Eacc, Epid.
  destruct Hi as [Hb [q Hq] Hst]. destruct (ack_add_server_spec server _ q (proj1 Hq) Hs Esv) as (acks & -> & Ha).
  change (ob_failed OB_SUCCESS) with false. cbn iota.
  assert (valid_pid acc = true) as Hv by (unfold valid_pid; by apply negb_true_iff, Z.eqb_neq).
  assert (∀ r', kept r r' → prepare_log_ack_list_ r' = acks → covered acc lsn r' →
            (∀ p l, covered p l r → covered p l r') → (∀ l, genuine l r → genuine l r') → inv r') as Hend.
  { intros r' Hk Hacks Hcov Hm Hg. split; [by eapply base_kept|exists (ack_insert server q)|by eapply stage_kept].
    eapply voted_add; try done. }
  destruct (valid_pid _ && _)%bool eqn:Ei; cbn [snd].
  - apply andb_true_iff in Ei as [Ei1 Ei2]. apply Z.ltb_lt in Ei2.
    apply Hend; [by split|done| |done|done]. split; [done|by left].
  - destruct (compare_newest_spec server acc lsn (set_acks acks r) Hin Hv Ei) as (Hk & Hacks & Hcov & Hm & Hg).
    assert (inv (compare_newest server acc lsn (set_acks acks r))) as Hinv.
    { apply Hend; [|done|done|exact Hm|exact Hg]. eapply kept_trans; [|exact Hk]. by split. }
    destruct (Lsn.is_valid committed); [|done]. eapply inv_quiet; [|exact Hinv]. apply update_ends_kept.
Qed.

(** ** The rounds of the state machine *)
Lemma twp_calls {A} (m : M R A) (Q : A → R → Prop) r :
  twp m (λ _, quiet r) r → (∀ a r', quiet r r' → Q a r') → twp m Q r.
Proof. intros Hm HQ. eapply twp_mono; [exact Hm|]. auto. Qed.

Lemma awf_reset_nil q : awf ack_reset q → q = [].
Proof. intros Ha%SimpleMemberList.awf_count. destruct q; [done|]. by vm_compute in Ha. Qed.

Lemma voted_nil r : 
  prepare_log_ack_list_ r = ack_reset → (proposed r ∨ new_proposal_id_ r = INVALID_PROPOSAL_ID) → voted r [].
Proof. intros Ea Hp. split_and!; [rewrite Ea; apply SimpleMemberList.awf_reset|constructor|tauto]. Qed.

Lemma init_reconfirm_ok `{!PeersLaws P} r :
  inv r → state_ r = INITED → twp init_reconfirm_ (λ rc r', inv r' ∧ state_ r' = INITED ∧ (rc = OB_SUCCESS → grouped r')) r.
Proof.
  intros [Hb [q Hq] Hst] E. unfold stage in Hst. rewrite E in Hst.
  assert (proposed r ∨ new_proposal_id_ r = INVALID_PROPOSAL_ID) as Hp by (destruct Hq as (_ & _ & [?|[? _]]); tauto).
  assert (∀ p ml n, inv (set_majority_cnt n (set_followers ml (set_peers (p, trace r) r)))) as Hi.
  { intros p ml n. split; [by destruct Hb|exists []; by apply voted_nil|]. unfold stage. cbn [set_majority_cnt set_followers set_peers state_]. by rewrite E. }
  unfold init_reconfirm_. wstep. apply twp_log1_eq. intros [rc [ml n]] p El. cbn [quietly app].
  repeat wstep.
  - split_and!; [apply (Hi p (curr_paxos_follower_list_ r) (majority_cnt_ r))|done|by intros ->].
  - split_and!; [apply (Hi p (curr_paxos_follower_list_ r) (majority_cnt_ r))|done|done].
  - split_and!; [apply (Hi p o (majority_cnt_ r))|done|by intros ->].
  - split_and!; [apply Hi|done|]. intros _.
    apply ob_failed_false in Heqb, Heqb1. subst. destruct (member_list_law _ _ _ _ El) as [Hw Hn]. destruct Hb as [_ Hs Hv].
    destruct (remove_self ml n (self_ r) o) as (? & ? & ?); [done..|]. by split.
Qed.

Lemma own_pid_covers curr fp local :
  valid_pid fp = true → valid_pid (own_accept_pid curr fp local) = true ∧ fp ≤ own_accept_pid curr fp local.
Proof.
  intros Hv. unfold own_accept_pid. rewrite Hv. destruct (_ && _)%bool eqn:E; [|split; [done|lia]].
  bool_to_prop. split; [done|lia].
Qed.

(** After a proposal was made, with no answer yet. *)
Lemma proposal_inv r r' rc fp local curr before :
  inv r → state_ r = WAITING_LOG_FLUSHED ∨ state_ r = FETCH_MAX_LOG_LSN →
  (state_ r', self_ r', is_inited_ r', curr_paxos_follower_list_ r', majority_cnt_ r') =
    (state_ r, self_ r, is_inited_ r, curr_paxos_follower_list_ r, majority_cnt_ r) →
  prepare_log_ack_list_ r' = ack_reset → majority_max_log_server_ r' = self_ r' →
  majority_max_accept_pid_ r' = own_accept_pid curr fp local →
  trace r' = Promised (new_proposal_id_ r') rc :: Flushed (majority_max_lsn_ r') fp :: before →
  inv r' ∧ state_ r' = state_ r.
Proof.
  intros [Hb _ Hst] Hs [= Es Ef Ei Ew Ec] Ea Er Em Et. split; [|done].
  assert (grouped r) as [? ? ?] by (unfold stage in Hst; by destruct Hs as [Hs|Hs]; rewrite Hs in Hst).
  split.
  - destruct Hb as [? ? ?]. split; congruence.
  - exists []. apply voted_nil; [done|]. left. exists (majority_max_lsn_ r'), fp, rc, before. rewrite Et. cbn [recent is_promise app].
    split; [done|]. intros Hv. destruct (own_pid_covers curr fp local Hv) as [? ?].
    split; [|by left]. unfold covered, older. rewrite Em. split; [done|]. lia.
  - unfold stage. rewrite Es. destruct Hs as [-> | ->]; split; congruence.
Qed.

Lemma submit_prepare_ok r :
  inv r → state_ r = WAITING_LOG_FLUSHED ∨ state_ r = FETCH_MAX_LOG_LSN →
  twp submit_prepare_log_ (λ _ r', inv r' ∧ state_ r' = state_ r) r.
Proof.
  intros Hi Hs. unfold submit_prepare_log_. repeat wstep; subst.
  1,2: split; [|done]; eapply inv_quiet; [|exact Hi]; quiet_tac.
  all: by eapply proposal_inv.
Qed.

Lemma inv_set_state s r : inv r → stage (set_state s r) → inv (set_state s r).
Proof. intros [Hb [q Hq] _] Hs. split; [by destruct Hb|by exists q|done]. Qed.

Lemma waiting_keeps r :
  inv r → state_ r = WAITING_LOG_FLUSHED → twp case_waiting_log_flushed (λ _, inv) r.
Proof.
  intros Hi E. unfold case_waiting_log_flushed. wstep. apply twp_calls; [apply purge_quiet|]. intros rc r1 Hq1.
  assert (inv r1 ∧ state_ r1 = WAITING_LOG_FLUSHED) as [Hi1 E1] by (split; [by eapply inv_quiet|use_quiet Hq1; congruence]).
  wstep; [by wstep|]. wstep. apply twp_calls; [apply wait_flushed_quiet|]. intros rc2 r2 Hq2.
  assert (inv r2 ∧ state_ r2 = WAITING_LOG_FLUSHED) as [Hi2 E2] by (split; [by eapply inv_quiet|use_quiet Hq2; congruence]).
  wstep; [by wstep|]. wstep. eapply twp_mono; [apply submit_prepare_ok; [done|by left]|]. intros rc3 r3 [Hi3 E3].
  rewrite E2 in E3. repeat wstep; [done|].
  eapply (inv_quiet (set_state FETCH_MAX_LOG_LSN r3)); [quiet_tac|]. apply inv_set_state; [done|].
  destruct Hi3 as [_ _ Hst]. unfold stage in *. rewrite E3 in Hst. by destruct Hst.
Qed.

Lemma inited_keeps `{!PeersLaws P} r : inv r → state_ r = INITED → twp case_inited (λ _, inv) r.
Proof.
  intros Hi E. unfold case_inited. wstep. eapply twp_mono; [by apply init_reconfirm_ok|]. intros rc r1 (Hi1 & E1 & Hg).
  wstep; [by wstep|]. apply ob_failed_false in Heqb. do 2 wstep. apply waiting_keeps; [|done].
  apply inv_set_state; [done|]. by destruct (Hg Heqb).
Qed.

Lemma confirm_logged epoch r :
  twp (confirm_start_working_log epoch) (λ rc r', quiet r r' ∧ trace r' = Working (new_proposal_id_ r) rc :: trace r) r.
Proof. unfold confirm_start_working_log. repeat wstep. split; [quiet_tac|done]. Qed.

Lemma catch_up_logged r :
  twp is_majority_catch_up_ (λ b r', quiet r r' ∧
    (b = true → ∃ m, trace r' = Matched OB_SUCCESS m :: trace r ∧ Lsn.is_valid m = true ∧
                     Lsn.val_ (majority_max_lsn_ r) ≤ Lsn.val_ m)) r.
Proof.
  unfold is_majority_catch_up_, palf_reach_time_interval. repeat wstep; subst; (split; [quiet_tac|]); try done.
  intros _. apply ob_failed_false in Heqb. subst. exists l. split_and!; [done|by apply negb_false_iff in Heqb0|].
  by apply Z.ltb_ge in Heqb1.
Qed.

Lemma recent_cons e t : is_promise e = false → recent (e :: t) = e :: recent t.
Proof. intros E. cbn. by rewrite E. Qed.

(** The last step: nothing but the four calls since the start-working log. *)
Lemma finish_inv r r' p :
  inv r → state_ r = START_WORKING → quiet r r' → trace r' = Working (new_proposal_id_ r) OB_SUCCESS :: trace r →
  inv (set_state FINISHED
         (set_peers (p, Slided true :: Advanced (saved_end_lsn_ r') OB_SUCCESS :: MaxLsn (saved_end_lsn_ r') :: trace r') r')).
Proof.
  intros Hi E Hq Ht. set (es := [Slided true; Advanced (saved_end_lsn_ r') OB_SUCCESS; MaxLsn (saved_end_lsn_ r')]).
  change (inv (set_state FINISHED (set_peers (p, es ++ trace r') r'))).
  assert (inv (set_peers (p, es ++ trace r') r')) as Hi' by (eapply inv_quiet; [|exact Hi]; quiet_tac).
  apply inv_set_state; [done|]. destruct Hi as [_ _ Hst]. unfold stage in Hst. rewrite E in Hst. destruct Hst as (Hg & Hm & Hr).
  assert (quiet r (set_peers (p, es ++ trace r') r')) as Hq' by quiet_tac.
  pose proof (grouped_quiet _ _ Hq' Hg). pose proof (majority_quiet _ _ Hq' Hm). split_and!; [by destruct H|done|].
  destruct Hr as (la & e & pid & bef & Er & Hc). exists [], la, e, pid, bef. use_quiet Hq.
  change (trace (set_state _ _)) with (es ++ trace r'). cbn [set_state set_peers majority_max_lsn_ saved_end_lsn_ new_proposal_id_].
  rewrite recent_silent by (by repeat constructor). rewrite Ht, recent_cons, Er by done.
  unfold es. rewrite El, Ep, Ed. by split.
Qed.

Lemma lsn_eqb_eq a b : Lsn.lsn_eqb a b = true → a = b.
Proof. destruct a, b. unfold Lsn.lsn_eqb. cbn. by intros ->%Z.eqb_eq. Qed.

Lemma start_working_keeps r : inv r → state_ r = START_WORKING → twp case_start_working (λ _, inv) r.
Proof.
  intros Hi E. unfold case_start_working. do 4 wstep.
  match goal with |- twp _ _ ?x => assert (quiet r x) as Hq1 by quiet_tac; revert Hq1; generalize x end.
  intros r1 Hq1. pose proof (inv_quiet _ _ Hq1 Hi) as Hi1. assert (state_ r1 = START_WORKING) as E1 by (use_quiet Hq1; congruence).
  wstep. eapply twp_mono; [apply confirm_logged|]. intros rc r2 [Hq2 Ht].
  repeat wstep; try (eapply inv_quiet; [|exact Hi1]; solve [quiet_tac]).
  apply ob_failed_false in Heqb, Heqb1. apply negb_false_iff in Heqb0, Heqb2. subst.
  apply lsn_eqb_eq in Heqb0. change (saved_end_lsn_ (set_peers _ r2)) with (saved_end_lsn_ r2) in Heqb0. subst a1.
  exact (finish_inv r1 r2 p3 Hi1 E1 Hq2 Ht).
Qed.

(** The start-working log is written right after a majority has the newest log. *)
Lemma ready_inv r r' lsn pid rc e before :
  inv r → state_ r = RECONFIRMING → quiet r r' → is_promise e = false → caught_up (majority_max_lsn_ r) e →
  trace r' = Working (new_proposal_id_ r) rc :: Flushed lsn pid :: e :: before →
  inv (set_state START_WORKING (set_saved lsn r')).
Proof.
  intros Hi E Hq He Hc Ht. pose proof (inv_quiet _ _ Hq Hi) as [Hb' [q Hq'] _].
  destruct Hi as [_ _ Hst]. unfold stage in Hst. rewrite E in Hst. destruct Hst as [Hg Hm].
  split; [by destruct Hb'|by exists q|]. pose proof (grouped_quiet _ _ Hq Hg) as Hg'.
  split; [by destruct Hg'|]. split; [exact (majority_quiet _ _ Hq Hm)|].
  exists [Working (new_proposal_id_ r) rc], e, pid, (recent before). use_quiet Hq.
  change (trace (set_state _ _)) with (trace r'). cbn [set_state set_saved majority_max_lsn_ saved_end_lsn_].
  rewrite Ht, !recent_cons by done. by rewrite El.
Qed.

Lemma barrier_logged b r t :
  trace r = Skip b :: t →
  twp (if Bool.eqb b false then let! c := is_majority_catch_up_ in ret (Bool.eqb false c) else ret false)
    (λ wait r', quiet r r' ∧
       (wait = false → ∃ e before, trace r' = e :: before ∧ is_promise e = false ∧ caught_up (majority_max_lsn_ r) e)) r.
Proof.
  intros Ht. destruct b; cbn [Bool.eqb].
  - wstep. split; [apply quiet_refl|]. intros _. by exists (Skip true), t.
  - wstep. eapply twp_mono; [apply catch_up_logged|]. intros c r' [Hq Hc]. wstep. split; [done|].
    destruct c; [|done]. intros _. destruct (Hc eq_refl) as (m & -> & Hv & Hl). by eexists _, _.
Qed.

Lemma reconfirming_keeps r : inv r → state_ r = RECONFIRMING → twp case_reconfirming (λ _, inv) r.
Proof.
  intros Hi E. unfold case_reconfirming. do 6 wstep. wstep.
  { wstep. eapply inv_quiet; [|exact Hi]. quiet_tac. }
  wstep. match goal with |- twp _ _ ?x => assert (quiet r x) as Hq1 by quiet_tac; assert (trace x = Skip a :: trace r) as Ht1 by done;
    revert Hq1 Ht1; generalize x end.
  intros r1 Hq1 Ht1. eapply twp_mono; [by eapply barrier_logged|]. intros wait r2 [Hq2 Hw].
  assert (quiet r r2) as Hq by (by eapply quiet_trans). wstep; [wstep; by eapply inv_quiet|].
  destruct (Hw eq_refl) as (e & before & Ht2 & He & Hc). do 2 wstep. do 4 wstep; subst.
  { wstep. eapply inv_quiet; [|exact Hi]. quiet_tac. }
  wstep. match goal with |- twp _ _ ?x => assert (quiet r x) as Hq3 by quiet_tac;
    assert (trace x = Flushed l0 z0 :: e :: before) as Ht3 by (rewrite <- Ht2; done); revert Hq3 Ht3; generalize x end.
  intros r3 Hq3 Ht3. eapply twp_mono; [apply confirm_logged|]. intros rc r4 [Hq4 Ht4]. rewrite Ht3 in Ht4.
  assert (quiet r r4) as Hq' by (by eapply quiet_trans).
  wstep; [wstep; by eapply inv_quiet|]. do 4 wstep. apply start_working_keeps; [|done].
  assert (new_proposal_id_ r3 = new_proposal_id_ r) as Ep3 by (by use_quiet Hq3). rewrite Ep3 in Ht4.
  assert (majority_max_lsn_ r1 = majority_max_lsn_ r) as El1 by (by use_quiet Hq1). rewrite El1 in Hc.
  by eapply ready_inv.
Qed.

Lemma fetch_log_keeps r : inv r → state_ r = RECONFIRM_FETCH_LOG → twp case_fetch_log (λ _, inv) r.
Proof.
  intros Hi E. unfold case_fetch_log, ack_log_with_end_lsn_. do 3 wstep. apply twp_calls; [apply ack_ends_quiet|].
  intros rc r1 Hq1. wstep; [wstep; by eapply inv_quiet|]. do 3 wstep.
  apply twp_calls.
  { wstep; [|by wstep; apply quiet_refl]. wstep. apply twp_calls; [apply fetch_finished_quiet|]. intros b r2 Hq. by wstep. }
  intros b r2 Hq2. assert (quiet r r2) as Hq by (by eapply quiet_trans). wstep.
  - apply twp_calls; [apply try_fetch_quiet|]. intros rc' r3 Hq3. eapply inv_quiet; [|exact Hi]. by eapply quiet_trans.
  - repeat wstep. pose proof (inv_quiet _ _ Hq Hi) as Hi2. apply inv_set_state; [done|].
    assert (state_ r2 = RECONFIRM_FETCH_LOG) as E2 by (use_quiet Hq; congruence).
    destruct Hi2 as [_ _ Hst]. unfold stage in *. rewrite E2 in Hst. destruct Hst as [[? ? ?] ?]. by split.
Qed.

Lemma mode_meta_keeps r : inv r → state_ r = RECONFIRM_MODE_META → twp case_mode_meta (λ _, inv) r.
Proof.
  intros Hi E. unfold case_mode_meta. do 3 wstep; [wstep; eapply inv_quiet; [|exact Hi]; quiet_tac|]. do 2 wstep.
  match goal with |- twp _ _ ?x => assert (quiet r x) as Hq by quiet_tac; revert Hq; generalize x end.
  intros r2 Hq. pose proof (inv_quiet _ _ Hq Hi) as Hi2. assert (state_ r2 = RECONFIRM_MODE_META) as E2 by (use_quiet Hq; congruence).
  assert (∀ s, s = RECONFIRMING ∨ s = RECONFIRM_FETCH_LOG → inv (set_state s r2)) as Hs.
  { intros s Hs. apply inv_set_state; [done|]. destruct Hi2 as [_ _ Hst]. unfold stage in *. rewrite E2 in Hst.
    destruct Hst as [[? ? ?] ?]. by destruct Hs as [-> | ->]. }
  wstep; repeat wstep; [apply Hs; by left|]. apply fetch_log_keeps; [apply Hs; by right|done].
Qed.

Lemma fetch_max_keeps r : inv r → state_ r = FETCH_MAX_LOG_LSN → twp case_fetch_max_log_lsn (λ _, inv) r.
Proof.
  intros Hi E. unfold case_fetch_max_log_lsn. do 4 wstep. cbv zeta.
  match goal with |- twp _ _ ?x => assert (quiet r x) as Hq by quiet_tac; revert Hq; generalize x end.
  intros r1 Hq. pose proof (inv_quiet _ _ Hq Hi) as Hi1. assert (state_ r1 = FETCH_MAX_LOG_LSN) as E1 by (use_quiet Hq; congruence).
  wstep; [wstep|].
  - eapply twp_mono; [apply submit_prepare_ok; [done|by right]|]. by intros ? ? [? _].
  - by wstep.
  - do 2 wstep. apply mode_meta_keeps; [|done]. apply inv_set_state; [done|].
    apply Z.ltb_ge in Heqb. destruct Hi1 as [_ _ Hst]. unfold stage in *. rewrite E1 in Hst. split; [by destruct Hst|done].
Qed.

Lemma reconfirm_keeps `{!PeersLaws P} r : inv r → twp reconfirm (λ _, inv) r.
Proof.
  intros Hi. unfold reconfirm. do 3 wstep; [by wstep|].
  do 4 wstep. match goal with |- twp _ _ ?x => assert (quiet r x) as Hq by quiet_tac; revert Hq; generalize x end.
  intros r1 Hq. pose proof (inv_quiet _ _ Hq Hi) as Hi1. wstep.
  eapply twp_mono with (Q := λ _, inv); [|intros rc r2 Hi2; repeat wstep; try case_decide; repeat wstep; done].
  destruct (state_ r1) eqn:E; [by apply inited_keeps|by apply waiting_keeps|by apply fetch_max_keeps|by apply mode_meta_keeps|
    by apply fetch_log_keeps|by apply reconfirming_keeps|by apply start_working_keeps|by wstep].
Qed.

Lemma started_inv palf_id self p : wf_addr self → addr_is_valid self = true → inv (started palf_id self p).
Proof.
  intros Hs Hv. unfold started, init. cbn [new_reconfirm is_inited_ andb]. rewrite Hv. cbn [negb snd]. split; [by split| |done].
  exists []. apply voted_nil; [done|by right].
Qed.

Lemma reset_keeps r : inv r → inv (reset_state r).
Proof.
  intros Hi. unfold reset_state. case_decide; [done|]. destruct Hi as [[? ? ?] _ _]. split; [by split| |done].
  exists []. apply voted_nil; [done|by right].
Qed.

Lemma step_keeps `{!PeersLaws P} r r' : step r r' → inv r → inv r'.
Proof.
  intros [r1 rc r2 E|server src acc lsn cend r1 Hs|r1|r1 p'] Hi.
  - pose proof (reconfirm_keeps r1 Hi) as Ht. unfold twp in Ht. by rewrite E in Ht.
  - apply answer_keeps; [done| |].
    + eapply inv_quiet; [|exact Hi]. unfold note. apply (quiet_call [_]); [apply quiet_refl|by repeat constructor].
    + unfold note. change (trace (set_peers _ _)) with (Answer server src acc lsn :: trace r1). rewrite recent_cons by done. left.
  - by apply reset_keeps.
  - eapply inv_quiet; [|exact Hi]. apply (quiet_call []); [apply quiet_refl|constructor].
Qed.

Lemma reachable_inv `{!PeersLaws P} palf_id self p r :
  wf_addr self → addr_is_valid self = true → rtc step (started palf_id self p) r → inv r.
Proof.
  intros Hs Hv Hr. pose proof (started_inv palf_id self p Hs Hv) as Hi. revert Hi. induction Hr; eauto using step_keeps.
Qed.


(** The states in which the answers are complete. *)
Definition beyond r : Prop := state_val FETCH_MAX_LOG_LSN < state_val (state_ r).
Lemma beyond_stage r : stage r → beyond r → grouped r ∧ majority r.
Proof. unfold stage, beyond. destruct (state_ r); cbn [state_val]; intros; naive_solver lia. Qed.

Lemma inv_quorum r :
  inv r → beyond r →
  ∃ q, NoDup (code <$> q) ∧ code (self_ r) ∉ code <$> q ∧ majority_cnt_ r ≤ Z.of_nat (length q) + 1 ∧
    Forall (λ a, wf_addr a ∧ answered a r) q ∧ (proposed r ∨ new_proposal_id_ r = INVALID_PROPOSAL_ID).
Proof.
  intros [[_ Hs _] [q (Ha & Hf & Hp)] Hst] Hb. destruct (beyond_stage r Hst Hb) as [[Hw Hc _] Hm].
  unfold majority, ack_get_count in Hm. rewrite (SimpleMemberList.awf_count _ _ Ha) in Hm. destruct Ha as [_ Hn Hv].
  assert (Forall (λ a, wf_addr a ∧ answered a r) q) as Hq.
  { rewrite Forall_forall in *. intros a Hin. by split; [apply Hv|apply Hf]. }
  exists q. split_and!; [done| |done|done|tauto].
  intros (a & E & Hin)%list_elem_of_fmap. rewrite Forall_forall in Hq. destruct (Hq a Hin) as [Hwa [Hca _]].
  rewrite contains_members in Hca, Hc by done. by rewrite <- E, Hc in Hca.
Qed.


(** In every reachable state in which the answers to the proposal are taken as
    complete, more than half of the group (the replica and its followers) has taken part:
    the servers counted are different followers, each has answered this very proposal, and
    the log of the chosen server is not older than any of their answers.  If a proposal was
    made, the chosen log is not older than what the replica itself had flushed when it
    made it, and it is the replica's own or one that was answered (when the replica has a
    log at all). *)
Theorem reconfirm_asks_majority `{!PeersLaws P} palf_id self p r :
  wf_addr self → addr_is_valid self = true → rtc step (started palf_id self p) r → beyond r →
  get_member_number (curr_paxos_follower_list_ r) + 1 < 2 * majority_cnt_ r ∧
  ∃ q, NoDup (code <$> q) ∧ code (self_ r) ∉ code <$> q ∧ majority_cnt_ r ≤ Z.of_nat (length q) + 1 ∧
    Forall (λ a, answered a r) q ∧ (new_proposal_id_ r ≠ INVALID_PROPOSAL_ID → proposed r).
Proof.
  intros Hs Hv Hr Hb. pose proof (reachable_inv _ _ _ _ Hs Hv Hr) as Hi.
  destruct (inv_quorum r Hi Hb) as (q & ? & ? & ? & Hf & ?). destruct Hi as [_ _ Hst]. destruct (beyond_stage r Hst Hb) as [[] _].
  split; [done|]. exists q. split_and!; [done..| |tauto]. eapply Forall_impl; [exact Hf|]. by intros a [].
Qed.


Lemma finished_done `{!PeersLaws P} palf_id self p r :
  wf_addr self → addr_is_valid self = true → rtc step (started palf_id self p) r → state_ r = FINISHED → done r.
Proof.
  intros Hs Hv Hr E. destruct (reachable_inv _ _ _ _ Hs Hv Hr) as [_ _ Hst]. unfold stage in Hst. rewrite E in Hst. apply Hst.
Qed.

End safety.

(** ** Every call returns, and the states only go forward *)
Section progress.
Context {P : Type} `{Peers P}.
Abbreviation R := (@LogReconfirm P).
Implicit Types r : R.

Definition vote r :=
  (new_proposal_id_ r, prepare_log_ack_list_ r, majority_max_log_server_ r, majority_max_accept_pid_ r, majority_max_lsn_ r).
Definition same r r' : Prop := state_ r' = state_ r ∧ vote r' = vote r.
Definition forward r r' : Prop :=
  state_val (state_ r) ≤ state_val (state_ r') ∧ (state_val FETCH_MAX_LOG_LSN < state_val (state_ r) → vote r' = vote r).

Lemma twp_ask {A} (f : P → A * P) (Q : A → R → Prop) r : (∀ a p, Q a (set_peers p r)) → twp (ask f) Q r.
Proof. intros HQ. unfold twp, ask. destruct (f (peers r)) as [a p]. apply HQ. Qed.

Ltac pstep :=
  lazymatch goal with
  | |- twp (bind _ _) _ _ => apply twp_bind
  | |- twp (ret _) _ _ => apply twp_ret
  | |- twp (gets _) _ _ => apply twp_gets
  | |- twp get _ _ => apply twp_get
  | |- twp (modify _) _ _ => apply twp_modify
  | |- twp (ask _) _ _ => apply twp_ask; intros
  | |- twp (if ?b then _ else _) _ _ => destruct b eqn:?
  | |- twp (match ?a with pair _ _ => _ end) _ _ => destruct a eqn:?
  end.
Ltac psteps := repeat pstep; try done.

Lemma vote_trans r1 r2 r3 : same r1 r2 → same r2 r3 → same r1 r3.
Proof. intros [] []. split; congruence. Qed.
Lemma same_forward r r' : same r r' → forward r r'.
Proof. intros [E1 E2]. unfold forward. rewrite E1. by split; [lia|]. Qed.
Lemma forward_trans r1 r2 r3 : forward r1 r2 → forward r2 r3 → forward r1 r3.
Proof. intros [H1 H2] [H3 H4]. split; [lia|]. intros Hf. rewrite H4 by lia. by apply H2. Qed.

Lemma twp_same {A} (m : M R A) (Q : A → R → Prop) r :
  (∀ r, twp m (λ _, same r) r) → (∀ a r', same r r' → Q a r') → twp m Q r.
Proof. intros Hm HQ. eapply twp_mono; [apply Hm|]. auto. Qed.

Lemma purge_same r : twp purge_throttling_ (λ _, same r) r.
Proof. unfold purge_throttling_, palf_reach_time_interval. psteps. Qed.
Lemma ack_ends_same l r : twp (ack_ends l) (λ _, same r) r.
Proof.
  revert r. induction l as [|a l IH]; intros r; cbn [ack_ends]; [psteps|]. do 2 pstep.
  eapply twp_mono; [apply IH|]. intros ? r'. by apply vote_trans.
Qed.
Lemma fetch_finished_same r : twp is_fetch_log_finished_ (λ _, same r) r.
Proof. unfold is_fetch_log_finished_. psteps. apply twp_same; [apply purge_same|]. by intros; psteps. Qed.
Lemma try_fetch_same r : twp try_fetch_log_ (λ _, same r) r.
Proof. unfold try_fetch_log_. psteps. Qed.
Lemma catch_up_same r : twp is_majority_catch_up_ (λ _, same r) r.
Proof. unfold is_majority_catch_up_, palf_reach_time_interval. psteps. Qed.
Lemma confirm_same e r : twp (confirm_start_working_log e) (λ _, same r) r.
Proof. unfold confirm_start_working_log. psteps. Qed.
Lemma submit_prepare_state r : twp submit_prepare_log_ (λ _ r', state_ r' = state_ r) r.
Proof. unfold submit_prepare_log_. psteps. Qed.

Lemma start_working_forward r : state_ r = START_WORKING → twp case_start_working (λ _, forward r) r.
Proof.
  intros E. unfold case_start_working. do 5 pstep. apply twp_same; [apply confirm_same|]. intros rc r1 Hs.
  assert (forward r r1) as [? ?] by (apply same_forward, Hs).
  psteps. split; [cbn; rewrite E; cbn; lia|done].
Qed.
Lemma reconfirming_forward r : state_ r = RECONFIRMING → twp case_reconfirming (λ _, forward r) r.
Proof.
  intros E. unfold case_reconfirming. do 7 pstep; [by pstep; apply same_forward|]. pstep.
  apply twp_same; [intros r0; pstep; psteps; apply twp_same; [apply catch_up_same|]; by intros; psteps|]. intros wait r1 Hs1.
  pstep; [by pstep; apply same_forward|]. do 6 pstep; [by pstep; apply same_forward|]. pstep.
  apply twp_same; [apply confirm_same|]. intros rc r2 Hs2. assert (same r r2) as Hs by exact (vote_trans _ _ _ Hs1 Hs2).
  pstep; [by pstep; apply same_forward|]. do 4 pstep. eapply twp_mono; [by apply start_working_forward|].
  intros ? r' Hf. eapply forward_trans; [|exact Hf]. destruct Hs as [Es Ev']. split; [cbn; rewrite E; cbn; lia|done].
Qed.
Lemma fetch_log_forward r : state_ r = RECONFIRM_FETCH_LOG → twp case_fetch_log (λ _, forward r) r.
Proof.
  intros E. unfold case_fetch_log, ack_log_with_end_lsn_. do 3 pstep. apply twp_same; [apply ack_ends_same|]. intros rc r1 Hs1.
  pstep; [by pstep; apply same_forward|]. do 3 pstep.
  apply twp_same; [intros r0; pstep; psteps; apply twp_same; [apply fetch_finished_same|]; by intros; psteps|]. intros b r2 Hs2.
  assert (same r r2) as Hs by (by eapply vote_trans). pstep.
  - apply twp_same; [apply try_fetch_same|]. intros ? r' Hs'. apply same_forward. by eapply vote_trans.
  - psteps. destruct Hs as [_ ?]. split; [cbn; rewrite E; cbn; lia|done].
Qed.
Lemma mode_meta_forward r : state_ r = RECONFIRM_MODE_META → twp case_mode_meta (λ _, forward r) r.
Proof.
  intros E. unfold case_mode_meta. do 3 pstep; [by pstep; apply same_forward|]. do 3 pstep; do 2 pstep.
  - pstep. split; [cbn; rewrite E; cbn; lia|done].
  - eapply twp_mono; [by apply fetch_log_forward|]. intros ? r' Hf. eapply forward_trans; [|exact Hf].
    split; [cbn; rewrite E; cbn; lia|done].
Qed.
Lemma fetch_max_forward r : state_ r = FETCH_MAX_LOG_LSN → twp case_fetch_max_log_lsn (λ _, forward r) r.
Proof.
  intros E. unfold case_fetch_max_log_lsn. do 4 pstep. cbv zeta. pstep; [pstep|].
  - eapply twp_mono; [apply submit_prepare_state|]. intros ? r' Es. unfold forward. cbn [set_peers state_] in Es. rewrite Es, E. cbn [state_val]. split; [lia|intros; lia].
  - pstep. by apply same_forward.
  - do 2 pstep. eapply twp_mono; [by apply mode_meta_forward|]. intros ? r' Hf. eapply forward_trans; [|exact Hf].
    split; [cbn; rewrite E; cbn; lia|done].
Qed.
Lemma waiting_forward r : state_ r = WAITING_LOG_FLUSHED → twp case_waiting_log_flushed (λ _, forward r) r.
Proof.
  intros E. unfold case_waiting_log_flushed, wait_all_log_flushed_. pstep. apply twp_same; [apply purge_same|]. intros rc r1 Hs1.
  pstep; [by pstep; apply same_forward|]. do 3 pstep. pstep. pstep; [by pstep; apply same_forward|]. pstep.
  eapply twp_mono; [apply submit_prepare_state|]. intros rc2 r2 E2.
  assert (state_ r2 = WAITING_LOG_FLUSHED) as Es by (destruct Hs1; cbn in *; congruence).
  psteps; unfold forward; cbn [set_purge_time set_times set_state state_]; rewrite ?Es, E; cbn [state_val]; (split; [lia|intros; lia]).
Qed.
Lemma inited_forward r : state_ r = INITED → twp case_inited (λ _, forward r) r.
Proof.
  intros E. unfold case_inited, init_reconfirm_. pstep. eapply (twp_mono _ (λ _ r', state_ r' = INITED)); [by psteps|].
  intros rc r1 E1. pstep; [pstep; unfold forward; rewrite E, E1; cbn [state_val]; (split; [lia|intros; lia])|]. do 2 pstep.
  eapply twp_mono; [by apply waiting_forward|]. intros ? r' Hf. eapply forward_trans; [|exact Hf].
  unfold forward. rewrite E. cbn [set_state state_ state_val]. split; [lia|intros; lia].
Qed.

Lemma round_spec r :
  is_inited_ r = true → twp reconfirm (λ rc r', (rc = OB_SUCCESS ↔ state_ r' = FINISHED) ∧ forward r r') r.
Proof.
  intros Hin. unfold reconfirm. do 3 pstep; [by rewrite Hin in Heqb|]. do 5 pstep.
  match goal with |- twp _ _ ?x => assert (same r x) as Hs by done; revert Hs; generalize x end. intros r1 Hs.
  eapply (twp_mono _ (λ _, forward r1)).
  - destruct (state_ r1) eqn:E; [by apply inited_forward|by apply waiting_forward|by apply fetch_max_forward|by apply mode_meta_forward|
      by apply fetch_log_forward|by apply reconfirming_forward|by apply start_working_forward|pstep; by apply same_forward].
  - intros rc r2 Hf. assert (forward r r2) by (eapply forward_trans; [by apply same_forward|done]). do 2 pstep. case_decide; [psteps|].
    pstep; pstep; (split; [|done]); split; intros; try done. subst rc. done.
Qed.

(** C16. A round of the state machine always returns; it reports success exactly when the
    confirmation has finished, never goes back to an earlier state, and changes neither the
    proposal nor the chosen log once the answers are complete. *)
Theorem reconfirm_result r :
  is_inited_ r = true →
  ∃ rc r', reconfirm r = Some (rc, r') ∧ (rc = OB_SUCCESS ↔ state_ r' = FINISHED) ∧ forward r r'.
Proof. intros Hin. by apply twp_run, round_spec. Qed.
End progress.

(** ** What a finished confirmation has done *)
Section finished.
Context {P : Type} `{HP : Peers P} `{!PeersLaws P}.
Implicit Types r : @LogReconfirm (P * list Ev).

(** C15. [reconfirm] reports success, and the object is in state FINISHED, only when these
    calls were made, in this order and since its last proposal: a majority had the chosen
    log (or the access mode needs no barrier), the end of the flushed log was taken, the
    start-working log was committed under the proposal, the log had not grown, its end was
    committed, and all of it was applied.  (It is a statement about the confirmation:
    [LogStateMgr] has a path to an active leader that does not run one.) *)
Theorem reconfirm_finished palf_id self p r :
  wf_addr self → addr_is_valid self = true → rtc step (started palf_id self p) r →
  (state_ r = FINISHED → done r) ∧
  ∀ r', reconfirm r = Some (OB_SUCCESS, r') → state_ r' = FINISHED ∧ done r'.
Proof.
  intros Hs Hv Hr. split; [by eapply finished_done|]. intros r' E.
  destruct (reachable_inv _ _ _ _ Hs Hv Hr) as [[Hin _ _] _ _].
  destruct (proj1 (twp_run _ _ _) (round_spec r Hin)) as (rc & r1 & E1 & [Hrc _] & _). rewrite E in E1. injection E1 as <- <-.
  assert (state_ r' = FINISHED) as Hf by by apply Hrc. split; [done|].
  eapply (finished_done palf_id self p); [done|done|by eapply rtc_r, step_reconfirm, E|done].
Qed.
End finished.

(** * Runs *)
Module Run.
(** A group of five servers; the fields are what the peers answer. *)
Record Sim : Type := mkSim { s_time : Z; s_mode : bool; s_flushed : LSN; s_flushed_pid : Z; s_match : LSN; s_promised : Z }.
Definition server (n : Z) : ObAddr := ipv4 10 0 0 n 2882.
Definition five : ObMemberList := (λ n, new_member (server n) 1) <$> [1; 2; 3; 4; 5].
Definition promise (pid : Z) (p : Sim) : Sim := mkSim (s_time p) (s_mode p) (s_flushed p) (s_flushed_pid p) (s_match p) pid.

#[export] Instance sim : Peers Sim := {
  current_time p := (s_time p, p);
  getClock p := (s_time p, p);
  mm_get_alive_member_list_with_arb p := ((OB_SUCCESS, (five, 5)), p);
  mm_get_accept_proposal_id p := (s_flushed_pid p, p);
  mm_confirm_start_working_log pid epoch v p := ((OB_SUCCESS, mkVersion pid 1), p);
  sw_get_max_flushed_log_info p := ((OB_SUCCESS, (Lsn.mkLSN 0, s_flushed p, s_flushed_pid p)), p);
  sw_check_all_log_has_flushed p := (true, p);
  sw_ack_log _ _ p := (OB_SUCCESS, p);
  sw_get_max_flushed_end_lsn p := (s_flushed p, p);
  sw_get_max_lsn p := (s_flushed p, p);
  sw_get_start_id p := (1, p);
  sw_try_fetch_log_for_reconfirm _ _ p := ((OB_SUCCESS, true), p);
  sw_get_majority_match_lsn p := ((OB_SUCCESS, s_match p), p);
  sw_get_lagged_member_list _ p := ((OB_SUCCESS, []), p);
  sw_try_advance_committed_end_lsn _ p := (OB_SUCCESS, p);
  sw_is_all_committed_log_slided_out p := (true, p);
  mode_reconfirm_mode_meta p := (if s_mode p then OB_SUCCESS else OB_EAGAIN, p);
  mode_need_skip_log_barrier p := (false, p);
  state_get_proposal_id p := (s_promised p, p);
  state_handle_prepare_request _ pid p := (OB_SUCCESS, promise pid p);
  state_get_leader_epoch p := (1, p);
  engine_submit_prepare_meta_req _ _ p := (OB_SUCCESS, p);
  engine_submit_notify_fetch_log_req _ p := (OB_SUCCESS, p);
  engine_submit_purge_throttling_task p := (OB_SUCCESS, p)
}.

Lemma five_wf : wf five.
Proof. split; [repeat constructor; by vm_compute|repeat constructor; by vm_compute|by vm_compute]. Qed.
#[export] Instance sim_laws : PeersLaws Sim.
Proof. split. intros p ml n p' [= <- <- _]. split; [apply five_wf|by vm_compute]. Qed.

Abbreviation R := (@LogReconfirm (Sim * list Ev)).
Implicit Types r : R.
Definition again (p : Sim) r : R := set_peers (p, trace r) r.
Definition round r : R := match reconfirm r with Some (_, r') => r' | None => r end.
Definition answer (n src accept lsn : Z) r : R :=
  let l := Lsn.mkLSN lsn in
  snd (handle_prepare_response (server n) src accept l no_lsn (note (Answer (server n) src accept l) r)).

(** The second server has the newest log, up to 200 under proposal 4; the replica fetches
    it and becomes leader under proposal 6. *)
Definition sim0 : Sim := mkSim 0 false (Lsn.mkLSN 100) 3 (Lsn.mkLSN 100) 5.
Definition sim1 : Sim := mkSim 1000 true (Lsn.mkLSN 200) 4 (Lsn.mkLSN 200) 6.
Definition run0 : R := Eval vm_compute in started 1 (server 1) sim0.
Definition run1 : R := Eval vm_compute in round run0.
Definition run2 : R := Eval vm_compute in answer 2 6 4 200 run1.
Definition run3 : R := Eval vm_compute in answer 3 6 3 150 run2.
Definition run4 : R := Eval vm_compute in again sim1 run3.
Definition run5 : R := Eval vm_compute in round run4.
Definition run6 : R := Eval vm_compute in round run5.

Lemma round_step r r' rc : reconfirm r = Some (rc, r') → step r r'.
Proof. apply step_reconfirm. Qed.
Lemma answer_step n src accept lsn r r' : answer n src accept lsn r = r' → step r r'.
Proof. intros <-. apply step_answer. done. Qed.

Lemma runs5 : rtc step (started 1 (server 1) sim0) run5.
Proof.
  apply (rtc_l _ _ run1); [apply (round_step _ _ OB_EAGAIN); vm_compute; reflexivity|].
  apply (rtc_l _ _ run2); [apply (answer_step 2 6 4 200); vm_compute; reflexivity|].
  apply (rtc_l _ _ run3); [apply (answer_step 3 6 3 150); vm_compute; reflexivity|].
  apply (rtc_l _ _ run4); [exact (step_others run3 sim1)|].
  apply rtc_once. apply (round_step _ _ OB_EAGAIN). vm_compute. reflexivity.
Qed.

Lemma runs6 : rtc step (started 1 (server 1) sim0) run6.
Proof. eapply rtc_r; [apply runs5|]. apply (round_step _ _ OB_SUCCESS). vm_compute. reflexivity. Qed.

Lemma server_wf n : wf_addr (server n).
Proof. done. Qed.

Lemma reconfirm_asks_majority_witness :
  (state_ run5, majority_cnt_ run5, majority_max_log_server_ run5) = (RECONFIRMING, 3, server 2) ∧
  get_member_number (curr_paxos_follower_list_ run5) + 1 < 2 * majority_cnt_ run5 ∧
  ∃ q, NoDup (code <$> q) ∧ code (self_ run5) ∉ code <$> q ∧ majority_cnt_ run5 ≤ Z.of_nat (length q) + 1 ∧
    Forall (λ a, answered a run5) q ∧ (new_proposal_id_ run5 ≠ INVALID_PROPOSAL_ID → proposed run5).
Proof.
  split; [by vm_compute|].
  apply (reconfirm_asks_majority 1 (server 1) sim0 run5); [done|by vm_compute|apply runs5|by vm_compute].
Defined.


Lemma reconfirm_finished_witness :
  (state_ run6, saved_end_lsn_ run6, new_proposal_id_ run6) = (FINISHED, Lsn.mkLSN 200, 6) ∧
  reconfirm run5 = Some (OB_SUCCESS, run6) ∧ state_ run6 = FINISHED ∧ done run6.
Proof.
  assert (reconfirm run5 = Some (OB_SUCCESS, run6)) as E by by vm_compute.
  split; [by vm_compute|]. split; [exact E|].
  apply (reconfirm_finished 1 (server 1) sim0 run5); [done|by vm_compute|apply runs5|exact E].
Defined.

Lemma reconfirm_result_witness :
  reconfirm run5 = Some (OB_SUCCESS, run6) ∧
  ∃ rc r', reconfirm run5 = Some (rc, r') ∧ (rc = OB_SUCCESS ↔ state_ r' = FINISHED) ∧ forward run5 r'.
Proof. split; [by vm_compute|]. apply (reconfirm_result run5). by vm_compute. Defined.

(** ** A proposal id that is kept by mistake

    The replica has no log.  The second server answers first, with a log under proposal 5,
    but no majority does in time and the replica asks again.  It then keeps the 5, although
    its own log is empty and the second server does not answer again: the two answers with
    the log up to 200 under proposal 4 count as older, and the replica becomes leader
    without fetching it. *)
Definition stale0 : Sim := mkSim 0 false (Lsn.mkLSN 0) INVALID_PROPOSAL_ID (Lsn.mkLSN 0) 5.
Definition stale1 : Sim := mkSim 3000000 false (Lsn.mkLSN 0) INVALID_PROPOSAL_ID (Lsn.mkLSN 0) 6.
Definition stale2 : Sim := mkSim 3100000 true (Lsn.mkLSN 0) INVALID_PROPOSAL_ID (Lsn.mkLSN 0) 7.
Definition bad1 : R := Eval vm_compute in round (started 1 (server 1) stale0).
Definition bad2 : R := Eval vm_compute in answer 2 6 5 300 bad1.
Definition bad3 : R := Eval vm_compute in again stale1 bad2.
Definition bad4 : R := Eval vm_compute in round bad3.
Definition bad5 : R := Eval vm_compute in answer 3 7 4 200 bad4.
Definition bad6 : R := Eval vm_compute in answer 4 7 4 200 bad5.
Definition bad7 : R := Eval vm_compute in again stale2 bad6.
Definition bad8 : R := Eval vm_compute in round bad7.
Definition bad9 : R := Eval vm_compute in round bad8.

(** The confirmation ends under proposal 7 with an empty log, although both servers of its
    majority have answered with the log up to 200. *)
Theorem stale_accept_pid :
  rtc step (started 1 (server 1) stale0) bad9 ∧ state_ bad9 = FINISHED ∧
  majority_max_log_server_ bad9 = self_ bad9 ∧ majority_max_accept_pid_ bad9 = 5 ∧ saved_end_lsn_ bad9 = Lsn.mkLSN 0 ∧
  List.filter (λ e, match e with Answer _ _ _ _ => true | _ => false end) (recent (trace bad9)) =
    [Answer (server 4) 7 4 (Lsn.mkLSN 200); Answer (server 3) 7 4 (Lsn.mkLSN 200)].
Proof.
  split; [|by vm_compute].
  apply (rtc_l _ _ bad1); [apply (round_step _ _ OB_EAGAIN); vm_compute; reflexivity|].
  apply (rtc_l _ _ bad2); [apply (answer_step 2 6 5 300); vm_compute; reflexivity|].
  apply (rtc_l _ _ bad3); [exact (step_others bad2 stale1)|].
  apply (rtc_l _ _ bad4); [apply (round_step _ _ OB_EAGAIN); vm_compute; reflexivity|].
  apply (rtc_l _ _ bad5); [apply (answer_step 3 7 4 200); vm_compute; reflexivity|].
  apply (rtc_l _ _ bad6); [apply (answer_step 4 7 4 200); vm_compute; reflexivity|].
  apply (rtc_l _ _ bad7); [exact (step_others bad6 stale2)|].
  apply (rtc_l _ _ bad8); [apply (round_step _ _ OB_EAGAIN); vm_compute; reflexivity|].
  apply rtc_once. apply (round_step _ _ OB_SUCCESS). vm_compute. reflexivity.
Qed.
End Run.
End ReconfirmSafety.
