(* ===== verification/LogModeMgr.v ===== *)
(** [LogModeMgr] of [src/logservice/palf/log_mode_mgr.cpp]: how a leader changes the access
    mode of the log ([APPEND], [RAW_WRITE], [FLASHBACK], [PREPARE_FLASHBACK]) and how a new
    leader confirms the mode it finds.  A mode is a [LogModeMeta] under a proposal id; it is
    prepared and accepted by a majority before it is applied.

    The objects it calls are the interface [Peers]; a call reads and changes their common
    state, and so does a reading of the clock.  The lock makes every method one step.
    Logging and its timers have no counterpart. *)
From S2P Require Import Prelude Scn Lsn MemberList SimpleMemberList.
Import MemberList.

Module LogModeMgr.
Abbreviation LSN := Lsn.LSN.
Abbreviation SCN := Scn.SCN.
Abbreviation INVALID_PROPOSAL_ID := Lsn.INVALID_PROPOSAL_ID.
Definition no_lsn : LSN := Lsn.mkLSN Lsn.LOG_INVALID_LSN_VAL.
Definition PREPARE_RETRY_INTERVAL_US : Z := 2 * 1000 * 1000.
Definition OB_MAX_GLOBAL_LEARNER_NUMBER : Z := 2000.

(** ** Access modes *)
Inductive AccessMode : Set := INVALID_ACCESS_MODE | APPEND | RAW_WRITE | FLASHBACK | PREPARE_FLASHBACK.
#[export] Instance access_mode_eq_dec : EqDecision AccessMode := ltac:(solve_decision).
Definition mode_eqb (a b : AccessMode) : bool := bool_decide (a = b).
Definition is_valid_access_mode (a : AccessMode) : bool :=
  mode_eqb APPEND a || mode_eqb RAW_WRITE a || mode_eqb FLASHBACK a || mode_eqb PREPARE_FLASHBACK a.
Definition can_switch_access_mode_ (src dst : AccessMode) : bool :=
  if negb (is_valid_access_mode dst) then false
  else if mode_eqb src dst then false
  else if mode_eqb src APPEND && (mode_eqb dst PREPARE_FLASHBACK || mode_eqb dst FLASHBACK) then false
  else if (mode_eqb src PREPARE_FLASHBACK || mode_eqb src FLASHBACK) && mode_eqb dst RAW_WRITE then false
  else if mode_eqb src FLASHBACK && mode_eqb dst PREPARE_FLASHBACK then false
  else true.

(** ** [LogModeMeta] *)
Definition LOG_MODE_META_VERSION : Z := 1.
Record LogModeMeta : Set := mkMeta {
  version_ : Z; proposal_id_ : Z; mode_version_ : Z; access_mode_ : AccessMode; ref_scn_ : SCN
}.
Definition no_meta : LogModeMeta := mkMeta (-1) INVALID_PROPOSAL_ID INVALID_PROPOSAL_ID INVALID_ACCESS_MODE Scn.invalid_scn.
Definition generate (proposal_id mode_version : Z) (access_mode : AccessMode) (ref_scn : SCN) (meta : LogModeMeta) : Z * LogModeMeta :=
  if (INVALID_PROPOSAL_ID =? mode_version) || (INVALID_PROPOSAL_ID =? proposal_id)
     || negb (is_valid_access_mode access_mode) || negb (Scn.is_valid ref_scn)
  then (OB_INVALID_ARGUMENT, meta)
  else (OB_SUCCESS, mkMeta LOG_MODE_META_VERSION proposal_id mode_version access_mode ref_scn).
Definition meta_is_valid (meta : LogModeMeta) : bool :=
  (LOG_MODE_META_VERSION =? version_ meta) && negb (INVALID_PROPOSAL_ID =? proposal_id_ meta)
  && negb (INVALID_PROPOSAL_ID =? mode_version_ meta) && is_valid_access_mode (access_mode_ meta)
  && Scn.is_valid (ref_scn_ meta).
Definition set_meta_pid (pid : Z) (meta : LogModeMeta) : LogModeMeta :=
  mkMeta (version_ meta) pid (mode_version_ meta) (access_mode_ meta) (ref_scn_ meta).

(** ** [BaseLearnerList]: servers in the order in which they were added *)
Definition LearnerList : Set := list ObMember.
Definition learner_contains (learner : ObMember) (l : list ObMember) : bool :=
  if negb (member_is_valid learner) then false else existsb (λ m, member_eqb m learner) l.
Definition add_learner (max_size : Z) (learner : ObMember) (l : list ObMember) : Z * LearnerList :=
  if negb (member_is_valid learner) then (OB_INVALID_ARGUMENT, l)
  else if max_size <=? Z.of_nat (length l) then (OB_SIZE_OVERFLOW, l)
  else if learner_contains learner l then (OB_ENTRY_EXIST, l)
  else (OB_SUCCESS, l ++ [learner]).
Definition remove_learner (server : ObAddr) (l : list ObMember) : Z * LearnerList :=
  if negb (addr_is_valid server) then (OB_INVALID_ARGUMENT, l)
  else
    let idx := find_server server l 0 in
    if -1 =? idx then (OB_ENTRY_NOT_EXIST, l) else (OB_SUCCESS, shift_out idx l).
Definition RESEND_MAX : Z := OB_MAX_MEMBER_NUMBER + OB_MAX_GLOBAL_LEARNER_NUMBER.
(** The loops that add the servers of a list, each with timestamp 1. *)
Fixpoint add_servers (src : list ObMember) (l : list ObMember) : Z * LearnerList :=
  match src with
  | [] => (OB_SUCCESS, l)
  | m :: src =>
      let '(rc, l) := add_learner RESEND_MAX (new_member (server_ m) 1) l in
      if ob_failed rc then (rc, l) else add_servers src l
  end.

(** ** The objects around it *)
Class Peers (P : Type) : Type := {
  current_time : P → Z * P;
  state_is_leader_active : P → bool * P;
  state_is_leader_reconfirm : P → bool * P;
  state_check_epoch_is_same_with_election : Z → P → bool * P;
  state_get_proposal_id : P → Z * P;
  state_get_leader_epoch : P → Z * P;
  state_get_leader : P → ObAddr * P;
  state_handle_prepare_request : ObAddr → Z → P → Z * P;
  state_can_receive_config_log : Z → P → bool * P;
  mm_get_alive_member_list_with_arb : P → (Z * (ObMemberList * Z)) * P;
  mm_get_global_learner_list : P → (Z * list ObMember) * P;
  sw_get_max_lsn : P → LSN * P;
  sw_get_max_flushed_end_lsn : P → LSN * P;
  sw_is_all_committed_log_slided_out : P → (bool * LSN) * P;
  sw_try_advance_committed_end_lsn : LSN → P → Z * P;
  sw_inc_update_scn_base : SCN → P → Z * P;
  sw_get_max_scn : P → SCN * P;
  engine_submit_prepare_meta_req : ObMemberList → Z → P → Z * P;
  engine_submit_change_mode_meta_req : list ObMember → Z → bool → LogModeMeta → P → Z * P;
  engine_submit_flush_mode_meta_task : Z → bool → LogModeMeta → P → Z * P
}.

Inductive ModeChangeState : Set := MODE_INIT | MODE_PREPARE | MODE_ACCEPT | MODE_DONE.
#[export] Instance mode_change_state_eq_dec : EqDecision ModeChangeState := ltac:(solve_decision).

Section mode_mgr.
Context {P : Type} `{Peers P}.

Record LogModeMgr : Type := mkMgr {
  is_inited_ : bool;
  palf_id_ : Z;
  self_ : ObAddr;
  applied_mode_meta_ : LogModeMeta;
  accepted_mode_meta_ : LogModeMeta;
  last_submit_mode_meta_ : LogModeMeta;
  state_ : ModeChangeState;
  leader_epoch_ : Z;
  new_proposal_id_ : Z;
  ack_list_ : list ObAddr;
  follower_list_ : ObMemberList;
  majority_cnt_ : Z;
  last_submit_req_ts_ : Z;
  max_majority_accepted_mode_meta_ : LogModeMeta;
  local_max_lsn_ : LSN;
  local_max_log_pid_ : Z;
  max_majority_accepted_pid_ : Z;
  max_majority_lsn_ : LSN;
  resend_mode_meta_list_ : list ObMember;
  peers : P
}.
Implicit Types m : LogModeMgr.
Abbreviation S := LogModeMgr.

Definition new_mgr (p : P) : S :=
  mkMgr false (-1) no_addr no_meta no_meta no_meta MODE_INIT (-1) INVALID_PROPOSAL_ID [] [] (-1) OB_INVALID_TIMESTAMP no_meta
    no_lsn INVALID_PROPOSAL_ID INVALID_PROPOSAL_ID no_lsn [] p.

Definition set_peers (p : P) m : S :=
  mkMgr (is_inited_ m) (palf_id_ m) (self_ m) (applied_mode_meta_ m) (accepted_mode_meta_ m)
    (last_submit_mode_meta_ m) (state_ m) (leader_epoch_ m) (new_proposal_id_ m) (ack_list_ m)
    (follower_list_ m) (majority_cnt_ m) (last_submit_req_ts_ m) (max_majority_accepted_mode_meta_ m)
    (local_max_lsn_ m) (local_max_log_pid_ m) (max_majority_accepted_pid_ m) (max_majority_lsn_ m)
    (resend_mode_meta_list_ m) p.
Definition set_metas (applied accepted last_submit : LogModeMeta) m : S :=
  mkMgr (is_inited_ m) (palf_id_ m) (self_ m) applied accepted last_submit (state_ m) (leader_epoch_ m)
    (new_proposal_id_ m) (ack_list_ m) (follower_list_ m) (majority_cnt_ m) (last_submit_req_ts_ m)
    (max_majority_accepted_mode_meta_ m) (local_max_lsn_ m) (local_max_log_pid_ m)
    (max_majority_accepted_pid_ m) (max_majority_lsn_ m) (resend_mode_meta_list_ m) (peers m).
Definition set_state (s : ModeChangeState) m : S :=
  mkMgr (is_inited_ m) (palf_id_ m) (self_ m) (applied_mode_meta_ m) (accepted_mode_meta_ m)
    (last_submit_mode_meta_ m) s (leader_epoch_ m) (new_proposal_id_ m) (ack_list_ m) (follower_list_ m)
    (majority_cnt_ m) (last_submit_req_ts_ m) (max_majority_accepted_mode_meta_ m) (local_max_lsn_ m)
    (local_max_log_pid_ m) (max_majority_accepted_pid_ m) (max_majority_lsn_ m)
    (resend_mode_meta_list_ m) (peers m).
Definition set_pid (pid : Z) m : S :=
  mkMgr (is_inited_ m) (palf_id_ m) (self_ m) (applied_mode_meta_ m) (accepted_mode_meta_ m)
    (last_submit_mode_meta_ m) (state_ m) (leader_epoch_ m) pid (ack_list_ m) (follower_list_ m)
    (majority_cnt_ m) (last_submit_req_ts_ m) (max_majority_accepted_mode_meta_ m) (local_max_lsn_ m)
    (local_max_log_pid_ m) (max_majority_accepted_pid_ m) (max_majority_lsn_ m)
    (resend_mode_meta_list_ m) (peers m).
Definition set_acks (acks : list ObAddr) m : S :=
  mkMgr (is_inited_ m) (palf_id_ m) (self_ m) (applied_mode_meta_ m) (accepted_mode_meta_ m)
    (last_submit_mode_meta_ m) (state_ m) (leader_epoch_ m) (new_proposal_id_ m) acks (follower_list_ m)
    (majority_cnt_ m) (last_submit_req_ts_ m) (max_majority_accepted_mode_meta_ m) (local_max_lsn_ m)
    (local_max_log_pid_ m) (max_majority_accepted_pid_ m) (max_majority_lsn_ m)
    (resend_mode_meta_list_ m) (peers m).
Definition set_followers (ml : ObMemberList) m : S :=
  mkMgr (is_inited_ m) (palf_id_ m) (self_ m) (applied_mode_meta_ m) (accepted_mode_meta_ m)
    (last_submit_mode_meta_ m) (state_ m) (leader_epoch_ m) (new_proposal_id_ m) (ack_list_ m) ml
    (majority_cnt_ m) (last_submit_req_ts_ m) (max_majority_accepted_mode_meta_ m) (local_max_lsn_ m)
    (local_max_log_pid_ m) (max_majority_accepted_pid_ m) (max_majority_lsn_ m)
    (resend_mode_meta_list_ m) (peers m).
Definition set_submit_ts (t : Z) m : S :=
  mkMgr (is_inited_ m) (palf_id_ m) (self_ m) (applied_mode_meta_ m) (accepted_mode_meta_ m)
    (last_submit_mode_meta_ m) (state_ m) (leader_epoch_ m) (new_proposal_id_ m) (ack_list_ m)
    (follower_list_ m) (majority_cnt_ m) t (max_majority_accepted_mode_meta_ m) (local_max_lsn_ m)
    (local_max_log_pid_ m) (max_majority_accepted_pid_ m) (max_majority_lsn_ m)
    (resend_mode_meta_list_ m) (peers m).
(** What a change starts from: the majority, the epoch and the end of the own log. *)
Definition set_start (cnt epoch : Z) (lsn : LSN) (pid : Z) m : S :=
  mkMgr (is_inited_ m) (palf_id_ m) (self_ m) (applied_mode_meta_ m) (accepted_mode_meta_ m)
    (last_submit_mode_meta_ m) (state_ m) epoch (new_proposal_id_ m) (ack_list_ m) (follower_list_ m) cnt
    (last_submit_req_ts_ m) (max_majority_accepted_mode_meta_ m) lsn pid pid lsn
    (resend_mode_meta_list_ m) (peers m).
(** What the answers have told. *)
Definition set_majority (meta : LogModeMeta) (pid : Z) (lsn : LSN) m : S :=
  mkMgr (is_inited_ m) (palf_id_ m) (self_ m) (applied_mode_meta_ m) (accepted_mode_meta_ m)
    (last_submit_mode_meta_ m) (state_ m) (leader_epoch_ m) (new_proposal_id_ m) (ack_list_ m)
    (follower_list_ m) (majority_cnt_ m) (last_submit_req_ts_ m) meta (local_max_lsn_ m)
    (local_max_log_pid_ m) pid lsn (resend_mode_meta_list_ m) (peers m).
Definition set_resend (l : list ObMember) m : S :=
  mkMgr (is_inited_ m) (palf_id_ m) (self_ m) (applied_mode_meta_ m) (accepted_mode_meta_ m)
    (last_submit_mode_meta_ m) (state_ m) (leader_epoch_ m) (new_proposal_id_ m) (ack_list_ m)
    (follower_list_ m) (majority_cnt_ m) (last_submit_req_ts_ m) (max_majority_accepted_mode_meta_ m)
    (local_max_lsn_ m) (local_max_log_pid_ m) (max_majority_accepted_pid_ m) (max_majority_lsn_ m) l
    (peers m).
Definition set_max_meta (meta : LogModeMeta) m : S :=
  mkMgr (is_inited_ m) (palf_id_ m) (self_ m) (applied_mode_meta_ m) (accepted_mode_meta_ m)
    (last_submit_mode_meta_ m) (state_ m) (leader_epoch_ m) (new_proposal_id_ m) (ack_list_ m)
    (follower_list_ m) (majority_cnt_ m) (last_submit_req_ts_ m) meta (local_max_lsn_ m)
    (local_max_log_pid_ m) (max_majority_accepted_pid_ m) (max_majority_lsn_ m)
    (resend_mode_meta_list_ m) (peers m).
Definition reset_status_ m : S :=
  mkMgr (is_inited_ m) (palf_id_ m) (self_ m) (applied_mode_meta_ m) (accepted_mode_meta_ m) (last_submit_mode_meta_ m)
    MODE_INIT (-1) INVALID_PROPOSAL_ID [] [] INT64_MAX OB_INVALID_TIMESTAMP no_meta no_lsn INVALID_PROPOSAL_ID
    INVALID_PROPOSAL_ID no_lsn (resend_mode_meta_list_ m) (peers m).
Definition reset_status m : S := set_resend [] (reset_status_ m).

(** A call of a peer. *)
Definition ask {A} (f : P → A * P) : M S A := fun m => let '(a, p) := f (peers m) in Some (a, set_peers p m).

(** ** Life cycle *)

(** [args_ok]: the palf id is valid and no pointer is [NULL]. *)
Definition init (args_ok : bool) (palf_id : Z) (self : ObAddr) (log_mode_meta : LogModeMeta) m : Z * S :=
  if is_inited_ m then (OB_INIT_TWICE, m)
  else if negb (args_ok && addr_is_valid self && meta_is_valid log_mode_meta) then (OB_INVALID_ARGUMENT, m)
  else
    (OB_SUCCESS,
     mkMgr true palf_id self log_mode_meta log_mode_meta log_mode_meta (state_ m) (leader_epoch_ m) (new_proposal_id_ m)
       (ack_list_ m) (follower_list_ m) (majority_cnt_ m) (last_submit_req_ts_ m) (max_majority_accepted_mode_meta_ m)
       (local_max_lsn_ m) (local_max_log_pid_ m) (max_majority_accepted_pid_ m) (max_majority_lsn_ m)
       (resend_mode_meta_list_ m) (peers m)).
Definition destroy m : S :=
  if is_inited_ m then
    let m := reset_status m in
    mkMgr false (-1) no_addr no_meta no_meta no_meta (state_ m) (leader_epoch_ m) (new_proposal_id_ m)
      (ack_list_ m) (follower_list_ m) (majority_cnt_ m) (last_submit_req_ts_ m) (max_majority_accepted_mode_meta_ m)
      (local_max_lsn_ m) (local_max_log_pid_ m) (max_majority_accepted_pid_ m) (max_majority_lsn_ m)
      (resend_mode_meta_list_ m) (peers m)
  else m.

(** ** Tests *)
Definition applied_mode m : AccessMode := access_mode_ (applied_mode_meta_ m).
Definition get_access_mode m : Z * option AccessMode :=
  if negb (is_inited_ m) then (OB_NOT_INIT, None) else (OB_SUCCESS, Some (applied_mode m)).
Definition get_mode_version m : Z * option Z :=
  if negb (is_inited_ m) then (OB_NOT_INIT, None) else (OB_SUCCESS, Some (mode_version_ (applied_mode_meta_ m))).
Definition get_access_mode_ref_scn m : Z * option (Z * AccessMode * SCN) :=
  if negb (is_inited_ m) then (OB_NOT_INIT, None)
  else (OB_SUCCESS, Some (mode_version_ (applied_mode_meta_ m), applied_mode m, ref_scn_ (applied_mode_meta_ m))).
Definition can_do_paxos_accept m : bool := negb (bool_decide (MODE_PREPARE = state_ m)).
Definition can_append m : bool := mode_eqb (applied_mode m) APPEND && can_do_paxos_accept m.
Definition can_raw_write m : bool := mode_eqb (applied_mode m) RAW_WRITE && can_do_paxos_accept m.
Definition can_receive_log m : bool := negb (mode_eqb (applied_mode m) FLASHBACK).
Definition is_in_pending_state m : bool := negb (bool_decide (MODE_INIT = state_ m)).
Definition need_skip_log_barrier m : bool := mode_eqb (applied_mode m) FLASHBACK && can_do_paxos_accept m.
Definition is_reach_majority_ m : bool := majority_cnt_ m <=? SimpleMemberList.get_count (ack_list_ m).
Definition is_need_retry_ : M S bool :=
  let! ts := gets last_submit_req_ts_ in
  if ts =? OB_INVALID_TIMESTAMP then ret true
  else let! now := ask current_time in ret (PREPARE_RETRY_INTERVAL_US <? now - ts).
Definition can_finish_change_mode_ : M S bool :=
  let! max_lsn := ask sw_get_max_lsn in
  let! a := ask sw_is_all_committed_log_slided_out in
  ret (fst a && Lsn.lsn_geb (snd a) max_lsn).
Definition is_state_changed : M S bool :=
  let! m := get in
  if negb (is_inited_ m) then ret true
  else match state_ m with
       | MODE_INIT => ret true
       | MODE_PREPARE | MODE_ACCEPT =>
           let! is_need_retry := is_need_retry_ in
           let! same := ask (state_check_epoch_is_same_with_election (leader_epoch_ m)) in
           ret (is_reach_majority_ m || is_need_retry || negb same)
       | MODE_DONE => ret false
       end.
Definition can_change_access_mode_ (mode_version : Z) : M S Z :=
  let! m := get in
  let! is_leader_active := ask state_is_leader_active in
  let! same := ask (state_check_epoch_is_same_with_election (leader_epoch_ m)) in
  let is_epoch_changed := negb same in
  let see_newer_mode_meta := meta_is_valid (max_majority_accepted_mode_meta_ m)
    && (proposal_id_ (accepted_mode_meta_ m) <? proposal_id_ (max_majority_accepted_mode_meta_ m)) in
  let see_newer_log :=
    (negb (max_majority_accepted_pid_ m =? INVALID_PROPOSAL_ID) && (local_max_log_pid_ m <? max_majority_accepted_pid_ m))
    || ((max_majority_accepted_pid_ m =? local_max_log_pid_ m) && Lsn.lsn_gtb (max_majority_lsn_ m) (local_max_lsn_ m)) in
  let running := negb (bool_decide (state_ m = MODE_INIT)) in
  ret (if negb is_leader_active || (running && is_epoch_changed) then OB_NOT_MASTER
       else if running && (see_newer_mode_meta || see_newer_log) then OB_NOT_MASTER
       else if negb (mode_version_ (applied_mode_meta_ m) =? mode_version) then OB_STATE_NOT_MATCH
       else OB_SUCCESS).

(** ** A change of mode *)
Definition init_change_mode_ : M S Z :=
  let! a := ask mm_get_alive_member_list_with_arb in
  let '(rc, (member_list, replica_num)) := a in
  if ob_failed rc then ret rc
  else
    let! self := gets self_ in
    let '(rc, followers) := remove_server self member_list in
    modify (set_followers followers) ;;;
    if ob_failed rc then ret rc
    else
      let! leader_epoch := ask state_get_leader_epoch in
      let! local_max_lsn := ask sw_get_max_lsn in
      let! local_max_log_pid := ask state_get_proposal_id in
      modify (set_start (Z.quot replica_num 2 + 1) leader_epoch local_max_lsn local_max_log_pid) ;;; ret OB_SUCCESS.

Definition submit_prepare_req_ (need_inc_pid need_send_and_handle_prepare : bool) : M S Z :=
  modify (set_acks []) ;;;
  (if need_inc_pid then let! pid := ask state_get_proposal_id in modify (set_pid (s64 (pid + 1))) else ret tt) ;;;
  let! m := get in
  chk! (if need_send_and_handle_prepare then ask (state_handle_prepare_request (self_ m) (new_proposal_id_ m)) else ret OB_SUCCESS) else
  chk! (if need_send_and_handle_prepare && list_is_valid (follower_list_ m)
        then ask (engine_submit_prepare_meta_req (follower_list_ m) (new_proposal_id_ m)) else ret OB_SUCCESS) else
  let '(rc, acks) := SimpleMemberList.add_server (self_ m) (ack_list_ m) in
  modify (set_acks acks) ;;;
  if ob_failed rc then ret rc
  else
    let! now := ask current_time in
    modify (fun m => set_max_meta (accepted_mode_meta_ m) (set_submit_ts now m)) ;;; ret OB_SUCCESS.

Definition receive_mode_meta_ (proposal_id : Z) (is_applied_mode_meta : bool) (mode_meta : LogModeMeta) : M S Z :=
  if (proposal_id =? INVALID_PROPOSAL_ID) || negb (meta_is_valid mode_meta) then ret OB_INVALID_ARGUMENT
  else
    chk! ask (engine_submit_flush_mode_meta_task proposal_id is_applied_mode_meta mode_meta) else
    (modify (fun m => set_metas (applied_mode_meta_ m) (accepted_mode_meta_ m) mode_meta m) ;;; ret OB_SUCCESS).

Definition submit_accept_req_ (proposal_id : Z) (is_applied_mode_meta : bool) (mode_meta : LogModeMeta) : M S Z :=
  let! m := get in
  let has_accepted := proposal_id_ (accepted_mode_meta_ m) =? proposal_id_ mode_meta in
  chk! (if negb has_accepted then receive_mode_meta_ proposal_id is_applied_mode_meta mode_meta else ret OB_SUCCESS) else
  chk! (if list_is_valid (follower_list_ m)
        then ask (engine_submit_change_mode_meta_req (follower_list_ m) proposal_id is_applied_mode_meta mode_meta)
        else ret OB_SUCCESS) else
  let! now := ask current_time in modify (set_submit_ts now) ;;; ret OB_SUCCESS.

Definition set_resend_mode_meta_list_ : M S Z :=
  modify (set_resend []) ;;;
  let! a := ask mm_get_alive_member_list_with_arb in
  let '(rc, (member_list, _)) := a in
  if ob_failed rc then ret rc
  else
    let! b := ask mm_get_global_learner_list in
    let '(rc, learner_list) := b in
    if ob_failed rc then ret rc
    else
      let! self := gets self_ in
      let member_list := snd (remove_server self member_list) in
      let '(rc, l) := add_servers member_list (snd (add_servers learner_list [])) in
      modify (set_resend l) ;;; ret rc.
Definition resend_applied_mode_meta_ : M S Z :=
  let! proposal_id := ask state_get_proposal_id in
  let! m := get in
  chk! (if (0 <? Z.of_nat (length (resend_mode_meta_list_ m)))
        then ask (engine_submit_change_mode_meta_req (resend_mode_meta_list_ m) proposal_id true (applied_mode_meta_ m))
        else ret OB_SUCCESS) else
  let! now := ask current_time in modify (set_submit_ts now) ;;; ret OB_SUCCESS.

(** [applied_mode_meta_ = accepted_mode_meta_] and what follows; the result is [ret] and
    [change_done]. *)
Definition apply_mode (ref_scn : SCN) : M S (Z * bool) :=
  modify (fun m => set_metas (accepted_mode_meta_ m) (accepted_mode_meta_ m) (last_submit_mode_meta_ m) m) ;;;
  let! m := get in
  let need_inc_ref_scn := Scn.is_valid (ref_scn_ (applied_mode_meta_ m)) && mode_eqb APPEND (applied_mode m) in
  let! rc := (if need_inc_ref_scn then ask (sw_inc_update_scn_base (ref_scn_ (applied_mode_meta_ m))) else ret OB_SUCCESS) in
  if ob_failed rc then ret (rc, true)
  else
    let! lagging := (if need_inc_ref_scn then let! max := ask sw_get_max_scn in ret (Scn.scn_ltb max ref_scn) else ret false) in
    if (lagging : bool) then ret (OB_ERR_UNEXPECTED, false)
    else
      let! rc := set_resend_mode_meta_list_ in
      if ob_failed rc then ret (rc, true)
      else let! rc := resend_applied_mode_meta_ in ret (rc, true).

(** One definition for each [case] of the [switch], with the next one where the [case]
    falls through; the result is [ret] and [change_done]. *)
Definition case_accept (access_mode : AccessMode) (ref_scn : SCN) (is_reconfirm : bool) : M S (Z * bool) :=
  let! m := get in
  if is_reach_majority_ m then
    if proposal_id_ (accepted_mode_meta_ m) =? new_proposal_id_ m then
      (if negb is_reconfirm && mode_eqb FLASHBACK (applied_mode m) && mode_eqb APPEND (access_mode_ (accepted_mode_meta_ m))
       then let! max_flushed_end_lsn := ask sw_get_max_flushed_end_lsn in
            ask (sw_try_advance_committed_end_lsn max_flushed_end_lsn) ;;; ret tt
       else ret tt) ;;;
      let! change_done := (if is_reconfirm then ret true else can_finish_change_mode_) in
      if (change_done : bool) then apply_mode ref_scn else ret (OB_SUCCESS, false)
    else ret (OB_SUCCESS, false)
  else
    let! retry := is_need_retry_ in
    if (retry : bool) then
      let mode_version := new_proposal_id_ m in
      let mode_meta := set_meta_pid (new_proposal_id_ m) (max_majority_accepted_mode_meta_ m) in
      let '(rc, mode_meta) := if negb is_reconfirm then generate (new_proposal_id_ m) mode_version access_mode ref_scn mode_meta
                              else (OB_SUCCESS, mode_meta) in
      if ob_failed rc then ret (rc, false)
      else let! rc := submit_accept_req_ (new_proposal_id_ m) false mode_meta in ret (rc, false)
    else ret (OB_SUCCESS, false).
Definition case_prepare (access_mode : AccessMode) (ref_scn : SCN) (is_reconfirm : bool) : M S (Z * bool) :=
  let! m := get in
  if is_reach_majority_ m then
    modify (fun m => set_state MODE_ACCEPT (set_submit_ts OB_INVALID_TIMESTAMP (set_acks [] m))) ;;;
    case_accept access_mode ref_scn is_reconfirm
  else
    let! retry := (if is_reconfirm then ret true else is_need_retry_) in
    if (retry : bool) then let! rc := submit_prepare_req_ is_reconfirm (negb is_reconfirm) in ret (rc, false)
    else ret (OB_SUCCESS, false).
Definition case_init (access_mode : AccessMode) (ref_scn : SCN) (is_reconfirm : bool) : M S (Z * bool) :=
  let! rc := init_change_mode_ in
  if ob_failed rc then ret (rc, false)
  else
    let! rc := submit_prepare_req_ true (negb is_reconfirm) in
    if ob_failed rc then ret (rc, false)
    else modify (set_state MODE_PREPARE) ;;; case_prepare access_mode ref_scn is_reconfirm.
Definition switch_state_ (access_mode : AccessMode) (ref_scn : SCN) (is_reconfirm : bool) : M S Z :=
  let! s := gets state_ in
  let! r :=
    match s with
    | MODE_INIT => case_init access_mode ref_scn is_reconfirm
    | MODE_PREPARE => case_prepare access_mode ref_scn is_reconfirm
    | MODE_ACCEPT => case_accept access_mode ref_scn is_reconfirm
    | MODE_DONE => ret (OB_ERR_UNEXPECTED, false)
    end in
  let '(rc, change_done) := r in
  if (change_done : bool) then modify reset_status_ ;;; ret OB_SUCCESS
  else if negb (OB_SUCCESS =? rc) && negb (OB_EAGAIN =? rc) then ret rc
  else ret OB_EAGAIN.

Definition change_access_mode (mode_version : Z) (access_mode : AccessMode) (ref_scn : SCN) : M S Z :=
  let! m := get in
  if negb (is_inited_ m) then ret OB_NOT_INIT
  else if negb (is_valid_access_mode access_mode) || negb (Scn.is_valid ref_scn)
          || (INVALID_PROPOSAL_ID =? mode_version) || (mode_version <? 0)
  then ret OB_INVALID_ARGUMENT
  else
    chk! can_change_access_mode_ mode_version else
    if mode_eqb (applied_mode m) access_mode then ret OB_SUCCESS
    else if negb (can_switch_access_mode_ (applied_mode m) access_mode) then ret OB_STATE_NOT_MATCH
    else switch_state_ access_mode ref_scn false.
Definition reconfirm_mode_meta : M S Z :=
  let! m := get in
  if negb (is_inited_ m) then ret OB_NOT_INIT
  else
    let! leader := ask state_is_leader_reconfirm in
    if Bool.eqb false leader then ret OB_STATE_NOT_MATCH
    else switch_state_ INVALID_ACCESS_MODE Scn.invalid_scn true.

(** ** Messages and callbacks *)
Definition handle_prepare_response (server : ObAddr) (msg_proposal_id accept_log_proposal_id : Z) (last_lsn : LSN)
    (mode_meta : LogModeMeta) m : Z * S :=
  if negb (is_inited_ m) then (OB_NOT_INIT, m)
  else if negb (addr_is_valid server) || (INVALID_PROPOSAL_ID =? msg_proposal_id)
          || (INVALID_PROPOSAL_ID =? accept_log_proposal_id) || negb (Lsn.is_valid last_lsn) || negb (meta_is_valid mode_meta)
  then (OB_INVALID_ARGUMENT, m)
  else if negb (bool_decide (MODE_PREPARE = state_ m)) || negb (new_proposal_id_ m =? msg_proposal_id)
  then (OB_STATE_NOT_MATCH, m)
  else if negb (contains server (follower_list_ m)) then (OB_SUCCESS, m)
  else
    let '(rc, acks) := SimpleMemberList.add_server server (ack_list_ m) in
    let m := set_acks acks m in
    if ob_failed rc then (rc, m)
    else
      let meta :=
        if negb (meta_is_valid (max_majority_accepted_mode_meta_ m))
           || (proposal_id_ (max_majority_accepted_mode_meta_ m) <? proposal_id_ mode_meta)
        then mode_meta else max_majority_accepted_mode_meta_ m in
      (OB_SUCCESS,
       set_majority meta (Lsn.max_proposal_id (max_majority_accepted_pid_ m) accept_log_proposal_id)
         (if Lsn.lsn_gtb last_lsn (max_majority_lsn_ m) then last_lsn else max_majority_lsn_ m) m).

(** The result and [has_accepted]. *)
Definition can_receive_mode_meta (proposal_id : Z) (mode_meta : LogModeMeta) : M S (bool * bool) :=
  let! m := get in
  if negb (is_inited_ m) || (proposal_id =? INVALID_PROPOSAL_ID) || negb (meta_is_valid mode_meta) then ret (false, false)
  else
    let! b := ask (state_can_receive_config_log proposal_id) in
    if Bool.eqb false b then ret (false, false)
    else if proposal_id_ mode_meta <? proposal_id_ (accepted_mode_meta_ m) then ret (false, false)
    else if proposal_id_ (accepted_mode_meta_ m) =? proposal_id_ mode_meta then ret (true, true)
    else ret (true, false).
Definition receive_mode_meta (proposal_id : Z) (is_applied_mode_meta : bool) (mode_meta : LogModeMeta) : M S Z :=
  let! inited := gets is_inited_ in
  if negb inited then ret OB_NOT_INIT else receive_mode_meta_ proposal_id is_applied_mode_meta mode_meta.
Definition newer_meta (mode_meta old : LogModeMeta) : LogModeMeta :=
  if proposal_id_ old <? proposal_id_ mode_meta then mode_meta else old.
Definition after_flush_mode_meta (is_applied_mode_meta : bool) (mode_meta : LogModeMeta) m : Z * S :=
  if negb (is_inited_ m) then (OB_NOT_INIT, m)
  else
    (OB_SUCCESS,
     set_metas (if is_applied_mode_meta then newer_meta mode_meta (applied_mode_meta_ m) else applied_mode_meta_ m)
       (newer_meta mode_meta (accepted_mode_meta_ m)) (last_submit_mode_meta_ m) m).
Definition ack_mode_meta (server : ObAddr) (proposal_id : Z) m : Z * S :=
  let '(rc, m) :=
    if negb (is_inited_ m) then (OB_NOT_INIT, m)
    else if negb (addr_is_valid server) || (INVALID_PROPOSAL_ID =? proposal_id) then (OB_INVALID_ARGUMENT, m)
    else if negb (bool_decide (MODE_ACCEPT = state_ m)) then (OB_SUCCESS, m)
    else if negb (new_proposal_id_ m =? proposal_id) then (OB_STATE_NOT_MATCH, m)
    else let '(rc, acks) := SimpleMemberList.add_server server (ack_list_ m) in (rc, set_acks acks m) in
  (rc, set_resend (snd (remove_learner server (resend_mode_meta_list_ m))) m).
Definition submit_fetch_mode_meta_resp (server : ObAddr) (msg_proposal_id accepted_mode_pid : Z) : M S Z :=
  let member_list := snd (add_server server []) in
  let! m := get in
  let applied := proposal_id_ (accepted_mode_meta_ m) <=? proposal_id_ (applied_mode_meta_ m) in
  let mode_meta := if applied then applied_mode_meta_ m else accepted_mode_meta_ m in
  if (accepted_mode_pid =? INVALID_PROPOSAL_ID) || (accepted_mode_pid <=? proposal_id_ mode_meta)
  then ask (engine_submit_change_mode_meta_req member_list msg_proposal_id applied mode_meta)
  else ret OB_SUCCESS.
Definition leader_do_loop_work : M S Z :=
  let! leader := ask state_get_leader in
  let! m := get in
  if negb (is_inited_ m) then ret OB_NOT_INIT
  else if addr_eqb (self_ m) leader && bool_decide (MODE_INIT = state_ m) && negb (0 =? Z.of_nat (length (resend_mode_meta_list_ m)))
  then let! retry := is_need_retry_ in if (retry : bool) then resend_applied_mode_meta_ else ret OB_SUCCESS
  else ret OB_SUCCESS.
End mode_mgr.
End LogModeMgr.
