(* ===== verification/ModeSafety.v ===== *)
(** What the changes of the access mode ([LogModeMgr]) promise: the proposal ids of the
    accepted and the applied mode never go back, a mode is applied only after as many
    servers as make a majority have acknowledged it under its proposal, and a new leader
    carries on the newest mode that a majority has accepted. *)
From S2P Require Import Prelude Scn Lsn MemberList SimpleMemberList LogModeMgr.
Import MemberList LogModeMgr.

Module ModeSafety.
Abbreviation acks_wf := SimpleMemberList.swf.

(** ** The manager and the messages it has received

    A call of the leader is recorded with the proposal id it ends with and the proposal
    id of the mode the leader had accepted before. *)
Inductive Ev : Type :=
  | Answer (server : ObAddr) (pid : Z) (meta : LogModeMeta)
  | Ack (server : ObAddr) (pid : Z)
  | Called (pid own : Z).

(** What is expected of the configuration manager. *)
Class PeersLaws (P : Type) `{Peers P} : Prop := {
  member_list_law p ml n p' :
    mm_get_alive_member_list_with_arb p = ((OB_SUCCESS, (ml, n)), p') → wf ml ∧ get_member_number ml ≤ n
}.

Section safety.
Context {P : Type} `{HP : Peers P}.
Abbreviation R := (@LogModeMgr P).
Implicit Types m : R.
Implicit Types t : list Ev.

Definition accepted_pid m : Z := proposal_id_ (accepted_mode_meta_ m).
Definition applied_pid m : Z := proposal_id_ (applied_mode_meta_ m).
Definition max_pid m : Z := proposal_id_ (max_majority_accepted_mode_meta_ m).

(** A call of the leader, an answer, an acknowledgement, a mode from the leader, the
    callback of a flush, a reset of the status, a resend, and whatever the other
    components do. *)
Inductive call : R → R → Prop :=
  | call_change version mode scn m rc m' : change_access_mode version mode scn m = Some (rc, m') → call m m'
  | call_reconfirm m rc m' : reconfirm_mode_meta m = Some (rc, m') → call m m'.
Inductive step : R * list Ev → R * list Ev → Prop :=
  | step_call m m' t : call m m' → step (m, t) (m', Called (new_proposal_id_ m') (accepted_pid m) :: t)
  | step_answer server pid acc lsn meta m t :
      wf_addr server →
      step (m, t) (snd (handle_prepare_response server pid acc lsn meta m), Answer server pid meta :: t)
  | step_ack server pid m t : wf_addr server → step (m, t) (snd (ack_mode_meta server pid m), Ack server pid :: t)
  | step_receive pid applied meta m rc m' t : receive_mode_meta pid applied meta m = Some (rc, m') → step (m, t) (m', t)
  | step_flushed applied meta m t : meta_is_valid meta = true → step (m, t) (snd (after_flush_mode_meta applied meta m), t)
  | step_reset m t : step (m, t) (reset_status m, t)
  | step_loop m rc m' t : leader_do_loop_work m = Some (rc, m') → step (m, t) (m', t)
  | step_others p m t : step (m, t) (set_peers p m, t).

Definition started (palf_id : Z) (self : ObAddr) (meta : LogModeMeta) (p : P) : R * list Ev :=
  (snd (init true palf_id self meta (new_mgr p)), []).

(** ** The invariant *)

(** The followers of a majority of [majority_cnt_]: two such majorities meet. *)
Record grouped m : Prop := {
  grouped_wf : wf (follower_list_ m);
  grouped_self : contains (self_ m) (follower_list_ m) = false;
  grouped_cnt : get_member_number (follower_list_ m) + 1 < 2 * majority_cnt_ m
}.
(** A server that took part in the prepare phase: the leader itself, or a follower whose
    accepted mode is not newer than the newest one known. *)
Definition promised t m (a : ObAddr) : Prop :=
  code a = code (self_ m) ∨
  contains a (follower_list_ m) = true ∧ ∃ meta, Answer a (new_proposal_id_ m) meta ∈ t ∧ proposal_id_ meta ≤ max_pid m.
Definition quorum t m (q : list ObAddr) : Prop := acks_wf q ∧ Forall (promised t m) q.
Record base m : Prop := {
  base_inited : is_inited_ m = true;
  base_self : wf_addr (self_ m);
  base_valid : addr_is_valid (self_ m) = true;
  base_accepted : meta_is_valid (accepted_mode_meta_ m) = true;
  base_order : applied_pid m ≤ accepted_pid m;
  base_acks : acks_wf (ack_list_ m)
}.
(** The newest mode known is not older than the one the leader had accepted when it made
    the proposal. *)
Definition owns t m : Prop := ∃ own, Called (new_proposal_id_ m) own ∈ t ∧ own ≤ max_pid m.
Definition phase t m : Prop :=
  match state_ m with
  | MODE_INIT => True
  | MODE_PREPARE => grouped m ∧ meta_is_valid (max_majority_accepted_mode_meta_ m) = true ∧ quorum t m (ack_list_ m)
  | MODE_ACCEPT =>
      grouped m ∧ meta_is_valid (max_majority_accepted_mode_meta_ m) = true ∧
      (∃ q, quorum t m q ∧ majority_cnt_ m ≤ Z.of_nat (length q)) ∧
      Forall (λ a, Ack a (new_proposal_id_ m) ∈ t) (ack_list_ m)
  | MODE_DONE => False
  end.
Definition inv (c : R * list Ev) : Prop := base (fst c) ∧ phase (snd c) (fst c).
Definition safe (c : R * list Ev) : Prop := inv c ∧ (state_ (fst c) ≠ MODE_INIT → owns (snd c) (fst c)).

Lemma mode_twp_ask {A} (f : P → A * P) (Q : A → R → Prop) m :
  (∀ a p, f (peers m) = (a, p) → Q a (set_peers p m)) → twp (ask f) Q m.
Proof. intros HQ. unfold twp, ask. destruct (f (peers m)) as [a p] eqn:E. by apply HQ. Qed.

Ltac mstep :=
  lazymatch goal with
  | |- twp (bind _ _) _ _ => apply twp_bind
  | |- twp (ret _) _ _ => apply twp_ret
  | |- twp (gets _) _ _ => apply twp_gets
  | |- twp get _ _ => apply twp_get
  | |- twp (modify _) _ _ => apply twp_modify
  | |- twp (ask _) _ _ => apply mode_twp_ask; intros
  | |- twp (if ?b then _ else _) _ _ => destruct b eqn:?
  | |- twp (match ?a with pair _ _ => _ end) _ _ => destruct a eqn:?
  end.

(** Calls that change only the times, the resend list and what was submitted. *)
Definition core m :=
  (is_inited_ m, self_ m, (applied_mode_meta_ m, accepted_mode_meta_ m), (state_ m, new_proposal_id_ m, ack_list_ m),
   (follower_list_ m, majority_cnt_ m), max_majority_accepted_mode_meta_ m).
Lemma core_inv t m m' : core m' = core m → inv (m, t) → inv (m', t).
Proof.
  intros E [[] Hp]. unfold core in E. injection E as E1 E2 E3 E4 E5 E6 E7 E8 E9 E10. split.
  - split; unfold applied_pid, accepted_pid in *; cbn [fst] in *; congruence.
  - cbn [fst snd] in *. unfold phase, quorum, promised, max_pid in *. rewrite E5.
    assert (grouped m → grouped m') by (intros []; split; congruence).
    destruct (state_ m); [done| | |done]; rewrite ?E2, ?E6, ?E7, ?E8, ?E9, ?E10; tauto.
Qed.

Ltac core_tac := repeat mstep; reflexivity.
Lemma need_retry_core m : twp is_need_retry_ (λ _ m', core m' = core m) m.
Proof. unfold is_need_retry_. core_tac. Qed.
Lemma can_finish_core m : twp can_finish_change_mode_ (λ _ m', core m' = core m) m.
Proof. unfold can_finish_change_mode_. core_tac. Qed.
Lemma can_change_core v m : twp (can_change_access_mode_ v) (λ _ m', core m' = core m) m.
Proof. unfold can_change_access_mode_. core_tac. Qed.
Lemma receive_core pid b meta m : twp (receive_mode_meta_ pid b meta) (λ _ m', core m' = core m) m.
Proof. unfold receive_mode_meta_. core_tac. Qed.
Lemma accept_req_core pid b meta m : twp (submit_accept_req_ pid b meta) (λ _ m', core m' = core m) m.
Proof.
  unfold submit_accept_req_. do 3 mstep. eapply (twp_mono _ (λ _ m', core m' = core m)).
  { mstep; [apply receive_core|by mstep]. }
  intros rc m1 E1. repeat mstep; exact E1.
Qed.
Lemma set_resend_core m : twp set_resend_mode_meta_list_ (λ _ m', core m' = core m) m.
Proof. unfold set_resend_mode_meta_list_. core_tac. Qed.
Lemma resend_core m : twp resend_applied_mode_meta_ (λ _ m', core m' = core m) m.
Proof. unfold resend_applied_mode_meta_. core_tac. Qed.
Lemma loop_core m : twp leader_do_loop_work (λ _ m', core m' = core m) m.
Proof.
  unfold leader_do_loop_work. do 5 mstep; [by mstep|]. mstep; [|by mstep]. mstep.
  eapply twp_mono; [apply need_retry_core|]. intros b m1 E1. mstep; [|by mstep].
  eapply twp_mono; [apply resend_core|]. intros rc m2 E2. by rewrite E2, E1.
Qed.

(** ** The phases *)
Definition fixed m :=
  (is_inited_ m, self_ m, (applied_mode_meta_ m, accepted_mode_meta_ m), (state_ m, follower_list_ m, majority_cnt_ m)).

Lemma swf_self m : base m → acks_wf [self_ m].
Proof. intros []. split; [apply NoDup_singleton|by repeat constructor|by vm_compute]. Qed.
Lemma base_fixed m m' : fixed m' = fixed m → acks_wf (ack_list_ m') → base m → base m'.
Proof.
  intros E Ha []. unfold fixed in E. injection E as E1 E2 E3 E4 _ _ _.
  split; unfold applied_pid, accepted_pid in *; congruence.
Qed.

Lemma submit_prepare_spec inc send m :
  base m →
  twp (submit_prepare_req_ inc send)
    (λ rc m', fixed m' = fixed m ∧ (send = false → ob_failed rc = false) ∧ (inc = false → new_proposal_id_ m' = new_proposal_id_ m) ∧
       (if ob_failed rc then ack_list_ m' = [] ∧ max_majority_accepted_mode_meta_ m' = max_majority_accepted_mode_meta_ m
        else ack_list_ m' = [self_ m] ∧ max_majority_accepted_mode_meta_ m' = accepted_mode_meta_ m)) m.
Proof.
  intros Hb. assert (∀ m', SimpleMemberList.add_server (self_ m') [] = (OB_SUCCESS, [self_ m'])) as Ha by done.
  set (ok m' := fixed m' = fixed m ∧ (inc = false → new_proposal_id_ m' = new_proposal_id_ m) ∧ ack_list_ m' = [] ∧
                max_majority_accepted_mode_meta_ m' = max_majority_accepted_mode_meta_ m).
  unfold submit_prepare_req_. do 3 mstep. eapply (twp_mono _ (λ _, ok)).
  { destruct inc; repeat mstep; done. }
  intros _ m1 Hok. do 3 mstep. eapply (twp_mono _ (λ rc m', ok m' ∧ (send = false → rc = OB_SUCCESS))).
  { repeat mstep; (split; [exact Hok|done]). }
  intros rc m2 [Hok2 Hrc]. mstep; [mstep; rewrite Heqb; unfold ok in Hok2; split_and!; try tauto; by intros ->%Hrc|]. mstep.
  eapply (twp_mono _ (λ rc m', ok m' ∧ (send = false → rc = OB_SUCCESS))).
  { destruct send; cbn [andb]; repeat mstep; (split; [exact Hok2|done]). }
  intros rc2 m3 [Hok3 Hrc2]. mstep; [mstep; rewrite Heqb0; unfold ok in Hok3; split_and!; try tauto; by intros ->%Hrc2|].
  destruct Hok as (Ef1 & _ & Ea1 & _), Hok3 as (Ef3 & Ep3 & Ea3 & Em3). rewrite Ea1, Ha.
  change (ob_failed OB_SUCCESS) with false. repeat mstep. cbn [set_max_meta set_submit_ts set_peers set_acks ack_list_ max_majority_accepted_mode_meta_ accepted_mode_meta_].
  change (ob_failed OB_SUCCESS) with false. cbn iota. unfold fixed in *. split_and!; [done|done|done|congruence|congruence].
Qed.

Lemma prepare_inv t m m' rc :
  base m → grouped m → meta_is_valid (max_majority_accepted_mode_meta_ m) = true ∨ ob_failed rc = false →
  state_ m' = MODE_PREPARE →
  (is_inited_ m', self_ m', (applied_mode_meta_ m', accepted_mode_meta_ m'), (follower_list_ m', majority_cnt_ m')) =
    (is_inited_ m, self_ m, (applied_mode_meta_ m, accepted_mode_meta_ m), (follower_list_ m, majority_cnt_ m)) →
  (if ob_failed rc then ack_list_ m' = [] ∧ max_majority_accepted_mode_meta_ m' = max_majority_accepted_mode_meta_ m
   else ack_list_ m' = [self_ m] ∧ max_majority_accepted_mode_meta_ m' = accepted_mode_meta_ m) →
  inv (m', t).
Proof.
  intros Hb [Hw Hs Hc] Hmax Es E Ha. injection E as E1 E2 E3 E4 E5 E6. pose proof (swf_self m Hb) as Hself.
  assert (acks_wf (ack_list_ m') ∧ Forall (promised t m') (ack_list_ m') ∧ meta_is_valid (max_majority_accepted_mode_meta_ m') = true) as (Ha1 & Ha2 & Ha3).
  { destruct (ob_failed rc); destruct Ha as [-> ->].
    - split_and!; [apply SimpleMemberList.swf_nil|constructor|by destruct Hmax].
    - split_and!; [done| |by destruct Hb]. constructor; [|constructor]. left. by rewrite E2. }
  split; cbn [fst snd].
  - destruct Hb. split; unfold applied_pid, accepted_pid in *; congruence.
  - unfold phase. rewrite Es. split_and!; [split; congruence|done|by split].
Qed.

Lemma init_change_spec `{!PeersLaws P} m :
  base m → state_ m = MODE_INIT →
  twp init_change_mode_
    (λ rc m', base m' ∧ state_ m' = MODE_INIT ∧ accepted_mode_meta_ m' = accepted_mode_meta_ m ∧
       applied_mode_meta_ m' = applied_mode_meta_ m ∧ (rc = OB_SUCCESS → grouped m')) m.
Proof.
  intros Hb E. unfold init_change_mode_. mstep. apply mode_twp_ask. intros [rc [ml n]] p El.
  assert (∀ p ml, base (set_followers ml (set_peers p m))) as Hf by (intros; by destruct Hb).
  repeat mstep.
  - split_and!; [by destruct Hb|done|done|done|by intros ->].
  - split_and!; [by apply Hf|done|done|done|by intros ->].
  - split_and!; [by destruct Hb|done|done|done|]. intros _. apply ob_failed_false in Heqb, Heqb0. subst.
    destruct (member_list_law _ _ _ _ El) as [Hw Hn]. destruct Hb as [_ Hs Hv _ _ _].
    destruct (remove_self ml n (self_ m) o) as (? & ? & ?); [done..|]. by split.
Qed.

(** What a call of the leader does to the modes: the accepted one stays, the applied one
    becomes the accepted one only when that is the one proposed and enough servers have
    acknowledged it. *)
Definition decides m m' : Prop :=
  accepted_mode_meta_ m' = accepted_mode_meta_ m ∧
  (applied_mode_meta_ m' = applied_mode_meta_ m ∨
   state_ m = MODE_ACCEPT ∧ applied_mode_meta_ m' = accepted_mode_meta_ m ∧ accepted_pid m = new_proposal_id_ m ∧
   majority_cnt_ m ≤ Z.of_nat (length (ack_list_ m))) ∧
  (state_ m' ≠ MODE_INIT →
   accepted_pid m ≤ max_pid m' ∨
   state_ m ≠ MODE_INIT ∧ new_proposal_id_ m' = new_proposal_id_ m ∧ max_pid m' = max_pid m).

Lemma core_decides m m' : core m' = core m → decides m m'.
Proof.
  intros E. unfold core in E. injection E as. split; [done|split; [by left|]]. intros Hs. right. unfold max_pid. split_and!; congruence.
Qed.
Lemma decides_core m m1 m2 : core m1 = core m → decides m1 m2 → decides m m2.
Proof.
  intros E (Ha & Hd & Ho). unfold core in E. injection E as. unfold decides, accepted_pid, max_pid in *. split; [congruence|split].
  - destruct Hd as [?|(?&?&?&?)]; [left; congruence|right; split_and!; congruence].
  - intros Hs. destruct (Ho Hs) as [?|(?&?&?)]; [left|right; split_and!]; congruence.
Qed.
Lemma reset_inv t m : inv (m, t) → inv (reset_status_ m, t).
Proof. intros [[] _]. split; [|done]. by split; [..|apply SimpleMemberList.swf_nil]. Qed.

Lemma inv_applied t m : inv (m, t) → inv (set_metas (accepted_mode_meta_ m) (accepted_mode_meta_ m) (last_submit_mode_meta_ m) m, t).
Proof.
  intros [[] Hp]. split; [split; try done; reflexivity|]. unfold phase in *. cbn [fst snd set_metas state_] in *.
  destruct (state_ m); [done| | |done]; destruct Hp as [[] Hp]; (split; [by split|exact Hp]).
Qed.

Lemma apply_mode_core scn m :
  twp (apply_mode scn)
    (λ _ m', core m' = core (set_metas (accepted_mode_meta_ m) (accepted_mode_meta_ m) (last_submit_mode_meta_ m) m)) m.
Proof.
  unfold apply_mode. do 2 mstep. set (m0 := set_metas _ _ _ m). do 3 mstep.
  eapply (twp_mono _ (λ _ m', core m' = core m0)); [repeat mstep; done|]. intros rc m1 E1. mstep; [by mstep|]. mstep.
  eapply (twp_mono _ (λ _ m', core m' = core m0)); [repeat mstep; done|]. intros lag m2 E2. mstep; [by mstep|]. mstep.
  eapply twp_mono; [apply set_resend_core|]. intros rc3 m3 E3. rewrite E2 in E3. mstep; [by mstep|]. mstep.
  eapply twp_mono; [apply resend_core|]. intros rc4 m4 E4. mstep. by rewrite E4.
Qed.

Lemma case_accept_keeps t mode scn rec m :
  inv (m, t) → state_ m = MODE_ACCEPT → twp (case_accept mode scn rec) (λ _ m', inv (m', t) ∧ decides m m') m.
Proof.
  intros Hi E. assert (∀ m', core m' = core m → inv (m', t) ∧ decides m m') as Hc.
  { intros m' Em. split; [by eapply core_inv|by apply core_decides]. }
  unfold case_accept. do 2 mstep. mstep; [mstep|].
  - mstep. eapply (twp_mono _ (λ _ m', core m' = core m)); [repeat mstep; done|]. intros _ m1 E1. mstep.
    eapply (twp_mono _ (λ _ m', core m' = core m)).
    { mstep; [by mstep|]. eapply twp_mono; [apply can_finish_core|]. intros ? m' Em. by rewrite Em. }
    intros done m2 E2. mstep; [|by mstep; apply Hc].
    eapply twp_mono; [apply apply_mode_core|]. intros r m3 E3. destruct (Hc m2 E2) as [Hi2 _]. split.
    + eapply core_inv; [exact E3|]. by apply inv_applied.
    + unfold core in E2, E3. injection E2 as. injection E3 as. cbn in *. apply Z.leb_le in Heqb. apply Z.eqb_eq in Heqb0.
      split; [congruence|split; [right|intros Hs; right; unfold max_pid]]; split_and!; congruence || done.
  - mstep. by apply Hc.
  - mstep. eapply twp_mono; [apply need_retry_core|]. intros retry m1 E1. mstep; [|by mstep; apply Hc]. cbv zeta. mstep.
    mstep; [by mstep; apply Hc|]. mstep. eapply twp_mono; [apply accept_req_core|]. intros rc m2 E2. mstep. apply Hc. by rewrite E2.
Qed.

Lemma case_prepare_keeps t mode scn rec m :
  inv (m, t) → state_ m = MODE_PREPARE → twp (case_prepare mode scn rec) (λ _ m', inv (m', t) ∧ decides m m') m.
Proof.
  intros Hi E. pose proof Hi as [Hb Hp]. cbn [fst snd] in *. unfold phase in Hp. rewrite E in Hp. destruct Hp as (Hg & Hmax & Hq).
  unfold case_prepare. do 3 mstep.
  - mstep. mstep. set (m1 := set_state MODE_ACCEPT _).
    assert (inv (m1, t)) as Hi1.
    { split; cbn [fst snd].
      - destruct Hb. by split; [..|apply SimpleMemberList.swf_nil].
      - unfold phase. cbn [m1 set_state state_]. split_and!; [by destruct Hg|done| |constructor].
        exists (ack_list_ m). split; [done|]. by apply Z.leb_le in Heqb. }
    eapply twp_mono; [by apply case_accept_keeps|]. intros r m' [Hi' (Ha & Hd & Ho)]. split; [done|]. split; [done|].
    split; [left|intros Hs; destruct (Ho Hs) as [?|(_ & ? & ?)]; [by left|right; by rewrite E]].
    destruct Hd as [?|(_ & _ & _ & Hcnt)]; [done|]. exfalso. destruct Hg as [_ _ Hc]. cbn in Hcnt.
    unfold get_member_number in Hc. lia.
  - mstep. eapply (twp_mono _ (λ _ m', core m' = core m)); [mstep; [by mstep|apply need_retry_core]|]. intros retry m1 E1.
    assert (inv (m1, t) ∧ decides m m1) as Hc by (split; [by eapply core_inv|by apply core_decides]).
    mstep; [|by mstep]. mstep. destruct Hc as [[Hb1 Hp1] _]. cbn [fst snd] in *.
    eapply twp_mono; [by apply submit_prepare_spec|]. intros rc m2 (Ef & Hsend & Hpid & Ha). mstep. unfold core in E1. injection E1 as. unfold fixed in Ef. injection Ef as.
    split; [|split; [congruence|split; [left; congruence|]]].
    2: { intros _. unfold max_pid, accepted_pid. destruct (ob_failed rc) eqn:Erc; destruct Ha as [_ ->]; [right|left; apply Z.eq_le_incl; congruence].
         destruct rec; [by specialize (Hsend eq_refl)|]. split_and!; [congruence|rewrite Hpid by done; congruence|congruence]. }
    eapply (prepare_inv t m m2 rc); [done|done|by left|congruence|congruence|].
    destruct (ob_failed rc); destruct Ha; split; congruence.
Qed.

Lemma case_init_keeps `{!PeersLaws P} t mode scn rec m :
  inv (m, t) → state_ m = MODE_INIT → twp (case_init mode scn rec) (λ _ m', inv (m', t) ∧ decides m m') m.
Proof.
  intros [Hb _] E. cbn [fst snd] in *. unfold case_init. mstep.
  assert (∀ m', base m' → state_ m' = MODE_INIT → accepted_mode_meta_ m' = accepted_mode_meta_ m →
            applied_mode_meta_ m' = applied_mode_meta_ m → inv (m', t) ∧ decides m m') as Hst.
  { intros m' Hb' Es Ea Ep. split; [split; [done|]; unfold phase; cbn [fst]; by rewrite Es|]. split; [done|split; [by left|done]]. }
  eapply twp_mono; [by apply init_change_spec|]. intros rc m1 (Hb1 & E1 & Ea1 & Ep1 & Hg). mstep; [mstep; by apply Hst|].
  apply ob_failed_false in Heqb. specialize (Hg Heqb). mstep.
  eapply twp_mono; [by apply submit_prepare_spec|]. intros rc2 m2 (Ef & _ & _ & Ha). unfold fixed in Ef. injection Ef as. mstep.
  - mstep. apply Hst; [|congruence..]. apply (base_fixed m1); [unfold fixed; congruence| |done].
    destruct Ha as [-> _]. apply SimpleMemberList.swf_nil.
  - mstep. mstep. eapply twp_mono.
    + apply case_prepare_keeps; [|done]. apply (prepare_inv t m1 _ rc2); [done|done|by right|done|cbn; congruence|]. rewrite Heqb0. exact Ha.
    + intros r m3 [Hi3 (Ha3 & Hd3 & Ho3)]. split; [done|]. cbn in Ha3, Hd3. split; [congruence|split].
      * left. destruct Hd3 as [?|[? _]]; [congruence|done].
      * intros Hs. left. unfold accepted_pid, max_pid in *. cbn in Ho3. destruct (Ho3 Hs) as [Hle|(_ & _ & ->)]; destruct Ha as [_ Hmx]; [|rewrite Hmx; apply Z.eq_le_incl]; congruence.
Qed.

Lemma switch_keeps `{!PeersLaws P} t mode scn rec m :
  inv (m, t) → twp (switch_state_ mode scn rec) (λ _ m', inv (m', t) ∧ decides m m') m.
Proof.
  intros Hi. unfold switch_state_. do 3 mstep. eapply (twp_mono _ (λ _ m', inv (m', t) ∧ decides m m')).
  - destruct (state_ m) eqn:E; [by apply case_init_keeps|by apply case_prepare_keeps|by apply case_accept_keeps|].
    mstep. split; [done|]. by apply core_decides.
  - intros [rc done] m' Hm'. repeat mstep; [|exact Hm'..]. destruct Hm' as [Hi' (Ha & Hd & Ho)].
    split; [by apply reset_inv|]. by split_and!.
Qed.

Lemma call_keeps `{!PeersLaws P} t m m' : call m m' → inv (m, t) → inv (m', t) ∧ decides m m'.
Proof.
  intros Hc Hi. assert (∀ rc (f : M R Z), twp f (λ _ m', inv (m', t) ∧ decides m m') m → f m = Some (rc, m') → inv (m', t) ∧ decides m m') as Hr.
  { intros rc f Ht E. unfold twp in Ht. by rewrite E in Ht. }
  assert (∀ m', core m' = core m → inv (m', t) ∧ decides m m') as Hcore.
  { intros m0 Em. split; [by eapply core_inv|by apply core_decides]. }
  destruct Hc as [v mode scn m rc m' E|m rc m' E]; (eapply Hr; [|exact E]).
  - unfold change_access_mode. do 3 mstep; [by mstep; apply Hcore|]. mstep; [by mstep; apply Hcore|]. mstep.
    eapply twp_mono; [apply can_change_core|]. intros rc1 m1 E1. pose proof (Hcore m1 E1) as [Hi1 Hd1].
    mstep; [by mstep|]. mstep; [by mstep|]. mstep; [by mstep|].
    eapply twp_mono; [by apply switch_keeps|]. intros ? m2 [Hi2 Hd2]. split; [done|]. exact (decides_core _ _ _ E1 Hd2).
  - unfold reconfirm_mode_meta. do 3 mstep; [by mstep; apply Hcore|]. do 2 mstep. mstep; [mstep; apply Hcore; reflexivity|].
    eapply twp_mono; [apply switch_keeps; eapply core_inv; [|exact Hi]; reflexivity|]. intros ? m2 [Hi2 Hd2]. done.
Qed.

(** ** Messages and callbacks *)
Lemma promised_mono t t' m m' a :
  t ⊆ t' → self_ m' = self_ m → follower_list_ m' = follower_list_ m → new_proposal_id_ m' = new_proposal_id_ m →
  max_pid m ≤ max_pid m' → promised t m a → promised t' m' a.
Proof.
  intros Ht Es Ef Ep Hm Hp. unfold promised. rewrite Es, Ef, Ep. destruct Hp as [?|(? & meta & ? & ?)]; [by left|right].
  split; [done|]. exists meta. split; [by apply Ht|lia].
Qed.
Lemma phase_mono t t' m : t ⊆ t' → phase t m → phase t' m.
Proof.
  intros Ht. unfold phase, quorum. destruct (state_ m); [done| | |done].
  - intros (? & ? & ? & Hq). split_and!; [done|done|done|]. eapply Forall_impl; [exact Hq|]. intros a. by apply promised_mono.
  - intros (? & ? & (q & [? Hq] & ?) & Ha). split_and!; [done|done| |].
    + exists q. split_and!; [done| |done]. eapply Forall_impl; [exact Hq|]. intros a. by apply promised_mono.
    + eapply Forall_impl; [exact Ha|]. intros a. apply Ht.
Qed.
Lemma inv_cons e t m : inv (m, t) → inv (m, e :: t).
Proof. intros [? Hp]. split; [done|]. eapply phase_mono; [|exact Hp]. intros x Hx. by right. Qed.

Lemma add_server_forall (Q : ObAddr → Prop) server l :
  wf_addr server → acks_wf l → Forall Q l → Q server →
  let l' := snd (SimpleMemberList.add_server server l) in acks_wf l' ∧ Forall Q l'.
Proof.
  intros Hs Hl HQ Hserver. pose proof (SimpleMemberList.simple_add_spec server l Hl Hs) as Ha.
  destruct (SimpleMemberList.add_server server l) as [rc l'] eqn:E. cbn [snd]. split; [apply Ha|]. clear Ha.
  unfold SimpleMemberList.add_server in E. repeat case_match; simplify_eq; try done. apply Forall_app. split; [done|]. by constructor.
Qed.

Lemma add_server_failed server l : ob_failed (fst (SimpleMemberList.add_server server l)) = true → snd (SimpleMemberList.add_server server l) = l.
Proof. unfold SimpleMemberList.add_server. by repeat case_match. Qed.

Lemma mode_answer_keeps server pid acc lsn meta t m :
  wf_addr server → inv (m, t) → Answer server pid meta ∈ t → inv (snd (handle_prepare_response server pid acc lsn meta m), t).
Proof.
  intros Hs Hi Hin. unfold handle_prepare_response. destruct (negb (is_inited_ m)); [done|].
  destruct (_ || negb (meta_is_valid meta))%bool eqn:Eargs; [done|].
  destruct (_ || negb (new_proposal_id_ m =? pid))%bool eqn:Est; [done|]. destruct (contains server _) eqn:Ec; [|done]. cbn [negb].
  apply orb_false_iff in Est as [Est Epid]. apply negb_false_iff in Est, Epid. apply bool_decide_eq_true in Est. symmetry in Est.
  apply Z.eqb_eq in Epid as <-. apply orb_false_iff in Eargs as [_ Evalid]. apply negb_false_iff in Evalid.
  destruct Hi as [Hb Hp]. cbn [fst snd] in *. unfold phase in Hp. rewrite Est in Hp. destruct Hp as (Hg & Hmax & Ha & Hq).
  assert (∀ m', (is_inited_ m', self_ m', applied_mode_meta_ m', accepted_mode_meta_ m', (state_ m', new_proposal_id_ m'), (follower_list_ m', majority_cnt_ m')) =
            (is_inited_ m, self_ m, applied_mode_meta_ m, accepted_mode_meta_ m, (state_ m, new_proposal_id_ m), (follower_list_ m, majority_cnt_ m)) →
            meta_is_valid (max_majority_accepted_mode_meta_ m') = true → acks_wf (ack_list_ m') → Forall (promised t m') (ack_list_ m') → inv (m', t)) as Hend.
  { intros m' E Hv Hw Hf. injection E as. destruct Hb, Hg. split; cbn [fst snd].
    - split; unfold applied_pid, accepted_pid in *; congruence.
    - unfold phase. rewrite H3, Est. split_and!; [split; congruence|done|by split]. }
  pose proof (add_server_failed server (ack_list_ m)) as Hfail. pose proof (λ Q, add_server_forall Q server (ack_list_ m) Hs Ha) as Hall.
  destruct (SimpleMemberList.add_server server (ack_list_ m)) as [rc acks]. cbn [fst snd] in *.
  destruct (ob_failed rc) eqn:Erc; cbn [snd].
  - apply Hend; [done|done| |]; cbn [set_acks ack_list_]; rewrite Hfail by done; [done|exact Hq].
  - set (best := if (_ || _)%bool then meta else _).
    assert (meta_is_valid best = true ∧ max_pid m ≤ proposal_id_ best ∧ proposal_id_ meta ≤ proposal_id_ best) as (Hbv & Hb1 & Hb2).
    { unfold best, max_pid. cbn [set_acks max_majority_accepted_mode_meta_]. rewrite Hmax. cbn [negb orb].
      destruct (Z.ltb_spec (proposal_id_ (max_majority_accepted_mode_meta_ m)) (proposal_id_ meta)); split_and!; try done; lia. }
    destruct (Hall (promised t (set_majority best 0 no_lsn m))) as [Hw Hf].
    + eapply Forall_impl; [exact Hq|]. intros a. by apply promised_mono.
    + right. split; [done|]. by exists meta.
    + apply Hend; [done|done|done|]. eapply Forall_impl; [exact Hf|]. intros a. by apply promised_mono.
Qed.

Lemma ack_keeps server pid t m :
  wf_addr server → inv (m, t) → Ack server pid ∈ t → inv (snd (ack_mode_meta server pid m), t).
Proof.
  intros Hs Hi Hin. unfold ack_mode_meta.
  assert (∀ l m', inv (m', t) → inv (set_resend l m', t)) as Hres by (intros l m'; by apply core_inv).
  destruct (negb (is_inited_ m)); [by apply Hres|].
  destruct (_ || _)%bool; [by apply Hres|]. destruct (bool_decide _) eqn:Est; [|by apply Hres]. cbn [negb].
  destruct (new_proposal_id_ m =? pid) eqn:Epid; [|by apply Hres]. cbn [negb]. apply bool_decide_eq_true in Est. symmetry in Est.
  apply Z.eqb_eq in Epid as <-. destruct Hi as [Hb Hp]. cbn [fst snd] in *. unfold phase in Hp. rewrite Est in Hp. destruct Hp as (Hg & Hmax & Hq & Hacks).
  pose proof (add_server_forall (λ a, Ack a (new_proposal_id_ m) ∈ t) server _ Hs (base_acks _ Hb) Hacks Hin) as [Hw Hf].
  destruct (SimpleMemberList.add_server server (ack_list_ m)) as [rc acks]. cbn [snd] in *. apply Hres. destruct Hb, Hg. split; [by split|].
  unfold phase. cbn [fst snd set_acks state_]. rewrite Est. by split_and!.
Qed.

Lemma newer_meta_pid meta old : proposal_id_ old ≤ proposal_id_ (newer_meta meta old) ∧ proposal_id_ meta ≤ proposal_id_ (newer_meta meta old).
Proof. unfold newer_meta. destruct (Z.ltb_spec (proposal_id_ old) (proposal_id_ meta)); lia. Qed.

Lemma phase_metas t a b c m : phase t m → phase t (set_metas a b c m).
Proof.
  intros Hp. unfold phase in *. cbn [set_metas state_] in *.
  destruct (state_ m); [done| | |done]; destruct Hp as [[] Hp]; (split; [by split|exact Hp]).
Qed.

(** The proposal ids of the modes never go back. *)
Definition grows m m' : Prop := accepted_pid m ≤ accepted_pid m' ∧ applied_pid m ≤ applied_pid m'.

Lemma flushed_keeps applied meta t m :
  meta_is_valid meta = true → inv (m, t) →
  inv (snd (after_flush_mode_meta applied meta m), t) ∧ grows m (snd (after_flush_mode_meta applied meta m)).
Proof.
  intros Hv [Hb Hp]. cbn [fst snd] in *. unfold after_flush_mode_meta. rewrite (base_inited _ Hb). cbn [negb snd].
  pose proof (newer_meta_pid meta (accepted_mode_meta_ m)). pose proof (newer_meta_pid meta (applied_mode_meta_ m)).
  destruct Hb as [? ? ? ? Ho ?]. unfold grows, applied_pid, accepted_pid in *. cbn [set_metas accepted_mode_meta_ applied_mode_meta_].
  split; [split; [split|by apply phase_metas]|]; try done.
  - cbn. unfold newer_meta. by destruct (_ <? _).
  - unfold applied_pid, accepted_pid. cbn. unfold newer_meta. destruct applied; repeat case_match; bool_to_prop; lia.
  - destruct applied; lia.
Qed.

Lemma core_grows m m' : core m' = core m → grows m m'.
Proof. intros E. unfold core in E. injection E as. unfold grows, accepted_pid, applied_pid. split; apply Z.eq_le_incl; congruence. Qed.
Lemma decides_grows t m m' : inv (m, t) → decides m m' → grows m m'.
Proof.
  intros [[? ? ? ? Ho ?] _] (Ea & Hd & _). unfold grows, accepted_pid, applied_pid in *. cbn [fst] in *. rewrite Ea.
  destruct Hd as [->|(_ & -> & _)]; lia.
Qed.

Lemma owns_mono t t' m m' :
  t ⊆ t' → new_proposal_id_ m' = new_proposal_id_ m → max_pid m ≤ max_pid m' → owns t m → owns t' m'.
Proof. intros Ht Ep Hm (own & Hin & Hle). exists own. rewrite Ep. split; [by apply Ht|lia]. Qed.

(** A step that keeps phase and proposal, and the newest mode or raises it. *)
Lemma safe_same t t' m m' :
  t ⊆ t' → state_ m' = state_ m → new_proposal_id_ m' = new_proposal_id_ m → (state_ m ≠ MODE_INIT → max_pid m ≤ max_pid m') →
  safe (m, t) → inv (m', t') → safe (m', t').
Proof.
  intros Ht Es Ep Hm [_ Ho] Hi. split; [done|]. cbn [fst snd] in *. rewrite Es. intros Hs. eapply owns_mono; eauto.
Qed.

Lemma core_safe t m m' : core m' = core m → safe (m, t) → safe (m', t) ∧ grows m m'.
Proof.
  intros E Hs. split; [|by apply core_grows]. apply (safe_same t t m m'); [done|..|done|eapply core_inv; [exact E|apply Hs]];
    unfold core in E; injection E as; [done|done|]. intros _. unfold max_pid. apply Z.eq_le_incl. congruence.
Qed.

Lemma answer_frame server pid acc lsn meta t m :
  inv (m, t) →
  let m' := snd (handle_prepare_response server pid acc lsn meta m) in
  state_ m' = state_ m ∧ new_proposal_id_ m' = new_proposal_id_ m ∧ (state_ m ≠ MODE_INIT → max_pid m ≤ max_pid m') ∧ grows m m'.
Proof.
  intros [_ Hp] m'. unfold m', handle_prepare_response. cbn [fst snd] in Hp.
  assert (∀ m0, m0 = m → state_ m0 = state_ m ∧ new_proposal_id_ m0 = new_proposal_id_ m ∧ (state_ m ≠ MODE_INIT → max_pid m ≤ max_pid m0) ∧ grows m m0) as Hid.
  { intros ? ->. unfold grows. split_and!; try done; try lia. }
  repeat match goal with |- context [if ?b then _ else _] =>
    lazymatch b with context [ob_failed] => fail | _ => destruct b eqn:?; [by apply Hid|] end end.
  destruct (SimpleMemberList.add_server server (ack_list_ m)) as [rc acks].
  destruct (ob_failed rc); cbn [snd]; [unfold grows; split_and!; try done; reflexivity|].
  split; [done|]. split; [done|]. split; [|unfold grows; split; reflexivity]. intros Hs. unfold max_pid, phase in *.
  assert (meta_is_valid (max_majority_accepted_mode_meta_ m) = true) as Hv by (destruct (state_ m); naive_solver).
  cbn [set_majority set_acks max_majority_accepted_mode_meta_]. rewrite Hv. cbn [negb orb].
  destruct (Z.ltb_spec (proposal_id_ (max_majority_accepted_mode_meta_ m)) (proposal_id_ meta)); lia.
Qed.

Lemma mode_step_keeps `{!PeersLaws P} c c' : step c c' → safe c → safe c' ∧ grows (fst c) (fst c').
Proof.
  intros [m m' t Hc|server pid acc lsn meta m t Hs|server pid m t Hs|pid b meta m rc m' t E|b meta m t Hv|m t|m rc m' t E|p m t] Hsafe;
    cbn [fst]; pose proof Hsafe as [Hi Ho].
  - destruct (call_keeps t m m' Hc Hi) as [Hi' Hd]. split; [|by eapply decides_grows]. split; [by apply inv_cons|].
    destruct Hd as (_ & _ & Hown). cbn [fst snd] in *. intros Hst. destruct (Hown Hst) as [Hle|(Hs0 & Ep & Em)].
    + exists (accepted_pid m). split; [left|done].
    + eapply owns_mono; [|exact Ep| |by apply Ho]; [intros x; by right|lia].
  - destruct (answer_frame server pid acc lsn meta t m Hi) as (Es & Ep & Hm & Hg). split; [|done].
    apply (safe_same t _ m); [intros x; by right|done|done|done|done|]. apply mode_answer_keeps; [done|by apply inv_cons|left].
  - split; [|unfold ack_mode_meta, grows; repeat case_match; simplify_eq; split; reflexivity].
    apply (safe_same t _ m); [intros x; by right|unfold ack_mode_meta; by repeat case_match; simplify_eq|
      unfold ack_mode_meta; by repeat case_match; simplify_eq| |done|apply ack_keeps; [done|by apply inv_cons|left]].
    intros _. unfold ack_mode_meta. by repeat case_match; simplify_eq.
  - assert (twp (receive_mode_meta pid b meta) (λ _ m', core m' = core m) m) as Ht
      by (unfold receive_mode_meta; do 3 mstep; [by mstep|apply receive_core]).
    unfold twp in Ht. rewrite E in Ht. by apply core_safe.
  - destruct (flushed_keeps b meta t m Hv Hi) as [Hi' Hg]. split; [|done]. unfold after_flush_mode_meta in *.
    destruct (negb (is_inited_ m)); [done|]. by apply (safe_same t t m).
  - split; [|unfold grows; split; reflexivity]. split; [|done]. destruct Hi as [[] _]. split; [|done]. by split; [..|apply SimpleMemberList.swf_nil].
  - pose proof (loop_core m) as Ht. unfold twp in Ht. rewrite E in Ht. by apply core_safe.
  - by apply core_safe.
Qed.

Lemma mode_started_inv palf_id self meta p :
  wf_addr self → addr_is_valid self = true → meta_is_valid meta = true → safe (started palf_id self meta p).
Proof.
  intros Hs Hv Hm. unfold started, init. cbn [new_mgr is_inited_]. rewrite Hv, Hm. cbn [negb andb snd]. split; [|done].
  split; [|done]. split; try done. apply SimpleMemberList.swf_nil.
Qed.

Lemma mode_reachable_inv `{!PeersLaws P} c c' : rtc step c c' → safe c → safe c' ∧ grows (fst c) (fst c').
Proof.
  induction 1 as [c|c1 c2 c3 Hst _ IH]; intros Hi; [split; [done|unfold grows; lia]|].
  destruct (mode_step_keeps _ _ Hst Hi) as [Hi2 [? ?]]. destruct (IH Hi2) as [? [? ?]]. split; [done|]. unfold grows in *. lia.
Qed.

(** The servers of the group. *)
Definition group m : gset (list Z) := group_of (self_ m) (follower_list_ m).

(** C19. Over any sequence of calls, answers, acknowledgements and callbacks the proposal
    ids of the accepted and of the applied mode never go back, the applied one never passes
    the accepted one, and the accepted mode is valid. *)
Theorem mode_ids_monotone `{!PeersLaws P} palf_id self meta p c c' :
  wf_addr self → addr_is_valid self = true → meta_is_valid meta = true →
  rtc step (started palf_id self meta p) c → rtc step c c' →
  accepted_pid (fst c) ≤ accepted_pid (fst c') ∧ applied_pid (fst c) ≤ applied_pid (fst c') ∧
  applied_pid (fst c') ≤ accepted_pid (fst c') ∧ meta_is_valid (accepted_mode_meta_ (fst c')) = true.
Proof.
  intros Hs Hv Hm H1 H2. destruct (mode_reachable_inv _ _ H1 (mode_started_inv palf_id self meta p Hs Hv Hm)) as [Hc _].
  destruct (mode_reachable_inv _ _ H2 Hc) as [[[[] _] _] [? ?]]. done.
Qed.


(** In the accept phase, no mode that a majority of the group had accepted when it
    answered is newer than the newest one known. *)
Lemma newest_known `{!PeersLaws P} palf_id self meta p m t voters pid :
  wf_addr self → addr_is_valid self = true → meta_is_valid meta = true →
  rtc step (started palf_id self meta p) (m, t) → state_ m = MODE_ACCEPT →
  NoDup (code <$> voters) → majority_cnt_ m ≤ Z.of_nat (length voters) → Forall (λ v, code v ∈ group m) voters →
  (∀ a meta, code a ∈ code <$> voters → Answer a (new_proposal_id_ m) meta ∈ t → pid ≤ proposal_id_ meta) →
  (∀ own, code (self_ m) ∈ code <$> voters → Called (new_proposal_id_ m) own ∈ t → pid ≤ own) →
  pid ≤ max_pid m.
Proof.
  intros Hs Hv Hm Hr E Hn Hcnt Hg Hans Hown.
  destruct (mode_reachable_inv _ _ Hr (mode_started_inv palf_id self meta p Hs Hv Hm)) as [[Hi Ho] _].
  destruct Hi as [Hb Hp]. cbn [fst snd] in *. unfold phase in Hp. rewrite E in Hp, Ho. destruct Hp as ([Hw Hself Hgc] & _ & (q & [[Hnq Haq _] Hq] & Hcq) & _).
  set (X := SimpleMemberList.servers q). set (Y := SimpleMemberList.servers voters).
  assert (size X = length q) as EX by (by apply SimpleMemberList.size_servers).
  assert (size Y = length voters) as EY by (by apply SimpleMemberList.size_servers).
  rewrite Forall_forall in Hq, Haq.
  destruct (majorities_meet (self_ m) (follower_list_ m) (majority_cnt_ m) X Y) as (c & HcX & HcY); [done|done| | |lia|lia|].
  - intros c (a & -> & Hin)%SimpleMemberList.elem_of_servers%list_elem_of_fmap. unfold group_of. apply elem_of_union.
    destruct (Hq a Hin) as [->|[Hc _]]; [left; by apply elem_of_singleton|right].
    rewrite contains_members in Hc by (done || by apply Haq). apply bool_decide_eq_true in Hc. by apply elem_of_dom.
  - intros c (a & -> & Hin)%SimpleMemberList.elem_of_servers%list_elem_of_fmap. rewrite Forall_forall in Hg. by apply Hg.
  - apply SimpleMemberList.elem_of_servers in HcY. apply SimpleMemberList.elem_of_servers in HcX.
    apply list_elem_of_fmap in HcX as (a & -> & Hin). destruct (Hq a Hin) as [Es|(_ & meta' & Hin' & Hle)].
    + destruct (Ho ltac:(done)) as (own & Hc & Hle). rewrite Es in HcY. pose proof (Hown own HcY Hc). lia.
    + pose proof (Hans a meta' HcY Hin'). lia.
Qed.
End safety.

(** ** What a new leader submits

    The log engine with a record of the modes it was given, each with the flag that says
    whether the mode is applied already. *)
Abbreviation Sent := (bool * LogModeMeta)%type.
Section carried.
Context {P : Type} `{HP : Peers P}.

Definition unrecorded {A} (f : P → A * P) (p : P * list Sent) : A * (P * list Sent) :=
  let '(a, q) := f (fst p) in (a, (q, snd p)).
Definition recorded {A} (x : Sent) (f : P → A * P) (p : P * list Sent) : A * (P * list Sent) :=
  let '(a, q) := f (fst p) in (a, (q, snd p ++ [x])).
#[export] Instance recording : Peers (P * list Sent) := {
  current_time := unrecorded current_time;
  state_is_leader_active := unrecorded state_is_leader_active;
  state_is_leader_reconfirm := unrecorded state_is_leader_reconfirm;
  state_check_epoch_is_same_with_election epoch := unrecorded (state_check_epoch_is_same_with_election epoch);
  state_get_proposal_id := unrecorded state_get_proposal_id;
  state_get_leader_epoch := unrecorded state_get_leader_epoch;
  state_get_leader := unrecorded state_get_leader;
  state_handle_prepare_request server pid := unrecorded (state_handle_prepare_request server pid);
  state_can_receive_config_log pid := unrecorded (state_can_receive_config_log pid);
  mm_get_alive_member_list_with_arb := unrecorded mm_get_alive_member_list_with_arb;
  mm_get_global_learner_list := unrecorded mm_get_global_learner_list;
  sw_get_max_lsn := unrecorded sw_get_max_lsn;
  sw_get_max_flushed_end_lsn := unrecorded sw_get_max_flushed_end_lsn;
  sw_is_all_committed_log_slided_out := unrecorded sw_is_all_committed_log_slided_out;
  sw_try_advance_committed_end_lsn lsn := unrecorded (sw_try_advance_committed_end_lsn lsn);
  sw_inc_update_scn_base scn := unrecorded (sw_inc_update_scn_base scn);
  sw_get_max_scn := unrecorded sw_get_max_scn;
  engine_submit_prepare_meta_req members pid := unrecorded (engine_submit_prepare_meta_req members pid);
  engine_submit_change_mode_meta_req members pid applied meta :=
    recorded (applied, meta) (engine_submit_change_mode_meta_req members pid applied meta);
  engine_submit_flush_mode_meta_task pid applied meta :=
    recorded (applied, meta) (engine_submit_flush_mode_meta_task pid applied meta)
}.
#[export] Instance recording_laws `{!PeersLaws P} : PeersLaws (P * list Sent).
Proof.
  split. intros [q l] ml n p'. cbn. unfold unrecorded. cbn.
  destruct (mm_get_alive_member_list_with_arb q) as [a q'] eqn:E. intros [= -> _]. by eapply member_list_law.
Qed.

Abbreviation R := (@LogModeMgr (P * list Sent)).
Implicit Types m : R.
Definition submitted m : list Sent := snd (peers m).

Lemma twp_unrecorded {A} (f : P → A * P) (Q : A → R → Prop) m :
  (∀ a q, Q a (set_peers (q, submitted m) m)) → twp (ask (unrecorded f)) Q m.
Proof. intros HQ. unfold twp, ask, unrecorded. destruct (f _) as [a q]. apply HQ. Qed.
Lemma twp_recorded {A} x (f : P → A * P) (Q : A → R → Prop) m :
  (∀ a q, Q a (set_peers (q, submitted m ++ [x]) m)) → twp (ask (recorded x f)) Q m.
Proof. intros HQ. unfold twp, ask, recorded. destruct (f _) as [a q]. apply HQ. Qed.

Ltac rstep :=
  lazymatch goal with
  | |- twp (bind _ _) _ _ => apply twp_bind
  | |- twp (ret _) _ _ => apply twp_ret
  | |- twp (gets _) _ _ => apply twp_gets
  | |- twp get _ _ => apply twp_get
  | |- twp (modify _) _ _ => apply twp_modify
  | |- twp (ask (engine_submit_change_mode_meta_req _ _ _ _)) _ _ => apply twp_recorded; intros
  | |- twp (ask (engine_submit_flush_mode_meta_task _ _ _)) _ _ => apply twp_recorded; intros
  | |- twp (ask _) _ _ => apply twp_unrecorded; intros
  | |- twp (if ?b then _ else _) _ _ => destruct b eqn:?
  | |- twp (match ?a with pair _ _ => _ end) _ _ => destruct a eqn:?
  end.

(** What a call sends: the accepted mode as applied, or, in the accept phase, the newest
    mode known under the proposal of the leader. *)
Definition carried m : Sent := (false, set_meta_pid (new_proposal_id_ m) (max_majority_accepted_mode_meta_ m)).
Definition sends (done : bool) m m' : Prop :=
  ∃ sent, submitted m' = submitted m ++ sent ∧
    (Forall (λ x, x = (true, accepted_mode_meta_ m)) sent ∨
     done = false ∧ state_ m' = MODE_ACCEPT ∧ Forall (λ x, x = carried m') sent).

(** Nothing is sent. *)
Definition unheard m m' : Prop := submitted m' = submitted m ∧ accepted_mode_meta_ m' = accepted_mode_meta_ m.
Lemma unheard_sends d m m' : unheard m m' → sends d m m'.
Proof. intros [E _]. exists []. rewrite app_nil_r. split; [done|by left]. Qed.
Lemma sends_after d m m1 m' : unheard m m1 → sends d m1 m' → sends d m m'.
Proof. intros [E1 E2] (sent & E & Hs). exists sent. rewrite E, E1, <- E2. done. Qed.

Ltac all_sent :=
  unfold sends, submitted, carried; cbn; rewrite <- ?app_assoc; cbn [app];
  lazymatch goal with
  | |- ∃ sent, ?l = ?l ++ sent ∧ _ => exists []; rewrite app_nil_r
  | |- ∃ sent, ?l ++ ?x = ?l ++ sent ∧ _ => exists x
  end; (split; [done|]); first [left; by repeat constructor|right; by repeat constructor].

Lemma apply_sends scn m : twp (apply_mode scn) (λ r, sends (snd r) m) m.
Proof.
  unfold apply_mode, set_resend_mode_meta_list_, resend_applied_mode_meta_. repeat rstep; all_sent.
Qed.

Lemma accept_sends mode scn m :
  state_ m = MODE_ACCEPT → twp (case_accept mode scn true) (λ r, sends (snd r) m) m.
Proof.
  intros E. unfold case_accept. cbn [negb andb]. do 2 rstep. rstep; [rstep|].
  - do 4 rstep. apply apply_sends.
  - rstep. by apply unheard_sends.
  - rstep. eapply (twp_mono _ (λ _ m', ∃ q, m' = set_peers (q, submitted m) m)).
    { unfold is_need_retry_. repeat rstep; [|by eexists]. exists (fst (peers m)). destruct m as [???????????????????[]]. done. }
    intros retry m1 [q ->]. rstep; [|rstep; by apply unheard_sends].
    cbv zeta. unfold submit_accept_req_, receive_mode_meta_. repeat rstep; all_sent.
Qed.

Lemma prepare_unheard inc m : twp (submit_prepare_req_ inc false) (λ _ m', unheard m m') m.
Proof. unfold submit_prepare_req_. cbn [andb]. destruct inc; repeat rstep; done. Qed.
Lemma init_unheard m : twp init_change_mode_ (λ _ m', unheard m m') m.
Proof. unfold init_change_mode_. repeat rstep; done. Qed.

Lemma prepare_sends mode scn m : twp (case_prepare mode scn true) (λ r, sends (snd r) m) m.
Proof.
  unfold case_prepare. do 2 rstep. rstep.
  - do 2 rstep. eapply twp_mono; [by apply accept_sends|]. intros r m' Hs. by eapply sends_after, Hs.
  - do 2 rstep. cbn iota. rstep. eapply twp_mono; [apply prepare_unheard|]. intros rc m1 Hu. rstep. by apply unheard_sends.
Qed.

Lemma init_sends mode scn m : twp (case_init mode scn true) (λ r, sends (snd r) m) m.
Proof.
  unfold case_init. rstep. eapply twp_mono; [apply init_unheard|]. intros rc m1 Hu1. rstep; [rstep; by apply unheard_sends|]. rstep.
  eapply twp_mono; [apply prepare_unheard|]. intros rc2 m2 Hu2.
  assert (unheard m m2) as Hu by (destruct Hu1, Hu2; split; congruence). rstep; [rstep; by apply unheard_sends|]. do 2 rstep.
  eapply twp_mono; [apply prepare_sends|]. intros r m3 Hs. by eapply sends_after, Hs.
Qed.

Lemma reconfirm_sends m rc m' : reconfirm_mode_meta m = Some (rc, m') → sends false m m'.
Proof.
  intros Hr. assert (twp reconfirm_mode_meta (λ _ m', sends false m m') m) as Ht; [|unfold twp in Ht; by rewrite Hr in Ht].
  clear Hr. unfold reconfirm_mode_meta, switch_state_. do 2 rstep. rstep; [rstep; by apply unheard_sends|]. do 2 rstep.
  rstep; [rstep; by apply unheard_sends|]. do 3 rstep. set (m1 := set_peers _ m). assert (unheard m m1) as Hu by done.
  eapply (twp_mono _ (λ r, sends (snd r) m1)).
  - destruct (state_ m1) eqn:E; [apply init_sends|apply prepare_sends|by apply accept_sends|rstep; by apply unheard_sends].
  - intros [rc0 done] m2 Hs. cbn [snd] in Hs. apply (sends_after _ m) in Hs; [|done]. destruct done.
    + do 2 rstep. rstep. destruct Hs as (sent & Es & [Hf|[? _]]); [|done]. exists sent. split; [done|by left].
    + repeat rstep; done.
Qed.

(** C18. Take a call of [reconfirm_mode_meta] in any reachable state, whatever the phase.
    What it gives the log engine is either only the mode the leader has accepted before,
    marked as applied; or the call ends in the accept phase, and it gives only the newest
    mode known, under the proposal of the leader.  In the second case no mode that a
    majority of the group had accepted before the answers to this proposal is newer: if the
    answers of the members of such a majority, and what the leader itself had accepted
    when called (where it is one of them), are at least [pid], so is the mode it gives. *)
Theorem newest_mode_carried `{!PeersLaws P} palf_id self meta p m t rc m' :
  wf_addr self → addr_is_valid self = true → meta_is_valid meta = true →
  rtc step (started palf_id self meta p) (m, t) → reconfirm_mode_meta m = Some (rc, m') →
  ∃ sent, submitted m' = submitted m ++ sent ∧
    (Forall (λ x, x = (true, accepted_mode_meta_ m)) sent ∨
     state_ m' = MODE_ACCEPT ∧
     Forall (λ x, x = (false, set_meta_pid (new_proposal_id_ m') (max_majority_accepted_mode_meta_ m'))) sent ∧
     let t' := Called (new_proposal_id_ m') (accepted_pid m) :: t in
     ∀ voters pid,
       NoDup (code <$> voters) → majority_cnt_ m' ≤ Z.of_nat (length voters) → Forall (λ v, code v ∈ group m') voters →
       (∀ a meta, code a ∈ code <$> voters → Answer a (new_proposal_id_ m') meta ∈ t' → pid ≤ proposal_id_ meta) →
       (∀ own, code (self_ m') ∈ code <$> voters → Called (new_proposal_id_ m') own ∈ t' → pid ≤ own) →
       pid ≤ proposal_id_ (max_majority_accepted_mode_meta_ m')).
Proof.
  intros Hs Hv Hm Hr E. destruct (reconfirm_sends _ _ _ E) as (sent & Es & Hsent). exists sent. split; [done|].
  destruct Hsent as [?|(_ & Est & Hf)]; [by left|right]. split_and!; [done|done|]. intros t' voters pid Hn Hc Hg Ha Ho.
  eapply (newest_known palf_id self meta p m' t'); try done. eapply rtc_r; [exact Hr|]. by eapply step_call, call_reconfirm.
Qed.
End carried.

(** * Runs *)
Module Run.
(** A group of three servers; the peers keep the time and the proposal id. *)
Record Sim : Type := mkSim { s_time : Z; s_pid : Z }.
Definition server (n : Z) : ObAddr := ipv4 10 0 0 n 2882.
Definition three : ObMemberList := (λ n, new_member (server n) 1) <$> [1; 2; 3].
#[export] Instance sim : Peers Sim := {
  current_time p := (s_time p, p);
  state_is_leader_active p := (true, p);
  state_is_leader_reconfirm p := (true, p);
  state_check_epoch_is_same_with_election _ p := (true, p);
  state_get_proposal_id p := (s_pid p, p);
  state_get_leader_epoch p := (1, p);
  state_get_leader p := (server 1, p);
  state_handle_prepare_request _ pid p := (OB_SUCCESS, mkSim (s_time p) pid);
  state_can_receive_config_log _ p := (true, p);
  mm_get_alive_member_list_with_arb p := ((OB_SUCCESS, (three, 3)), p);
  mm_get_global_learner_list p := ((OB_SUCCESS, [new_member (server 9) 1]), p);
  sw_get_max_lsn p := (Lsn.mkLSN 100, p);
  sw_get_max_flushed_end_lsn p := (Lsn.mkLSN 100, p);
  sw_is_all_committed_log_slided_out p := ((true, Lsn.mkLSN 100), p);
  sw_try_advance_committed_end_lsn _ p := (OB_SUCCESS, p);
  sw_inc_update_scn_base _ p := (OB_SUCCESS, p);
  sw_get_max_scn p := (Scn.mkSCN 200, p);
  engine_submit_prepare_meta_req _ _ p := (OB_SUCCESS, p);
  engine_submit_change_mode_meta_req _ _ _ _ p := (OB_SUCCESS, p);
  engine_submit_flush_mode_meta_task _ _ _ p := (OB_SUCCESS, p)
}.
Lemma three_wf : wf three.
Proof. split; [repeat constructor; by vm_compute|repeat constructor; by vm_compute|by vm_compute]. Qed.
#[export] Instance sim_laws : PeersLaws Sim.
Proof. split. intros p ml n p' [= <- <- _]. split; [apply three_wf|by vm_compute]. Qed.

Abbreviation R := (@LogModeMgr Sim).
Implicit Types c : R * list Ev.
Definition scn : SCN := Scn.mkSCN 100.
Definition meta (pid : Z) (mode : AccessMode) : LogModeMeta := mkMeta LOG_MODE_META_VERSION pid pid mode scn.
Definition change (mode : AccessMode) c : R * list Ev :=
  match change_access_mode 1 mode scn (fst c) with
  | Some (_, m') => (m', Called (new_proposal_id_ m') (accepted_pid (fst c)) :: snd c)
  | None => c
  end.
Definition answer (n pid : Z) (x : LogModeMeta) c : R * list Ev :=
  (snd (handle_prepare_response (server n) pid 5 (Lsn.mkLSN 100) x (fst c)), Answer (server n) pid x :: snd c).
Definition acked (n pid : Z) c : R * list Ev := (snd (ack_mode_meta (server n) pid (fst c)), Ack (server n) pid :: snd c).
Definition flush (x : LogModeMeta) c : R * list Ev := (snd (after_flush_mode_meta false x (fst c)), snd c).

(** From [RAW_WRITE] to [APPEND] under proposal 6; [last] is the second server that
    acknowledges. *)
Definition run0 : R * list Ev := Eval vm_compute in started 1 (server 1) (meta 1 RAW_WRITE) (mkSim 0 5).
Definition run1 : R * list Ev := Eval vm_compute in change APPEND run0.
Definition run2 : R * list Ev := Eval vm_compute in answer 2 6 (meta 1 RAW_WRITE) run1.
Definition run3 : R * list Ev := Eval vm_compute in change APPEND run2.
Definition run4 : R * list Ev := Eval vm_compute in acked 1 6 (flush (meta 6 APPEND) run3).
Definition run5 (last : Z) : R * list Ev := acked last 6 run4.

Lemma change_step mode c c' : change mode c = c' → fst c ≠ fst c' → step c c'.
Proof.
  unfold change. destruct c as [m t]. cbn [fst snd]. destruct (change_access_mode 1 mode scn m) as [[rc m']|] eqn:E; intros <-; [|done].
  intros _. apply step_call. by eapply call_change.
Qed.

Lemma runs4 : rtc step (started 1 (server 1) (meta 1 RAW_WRITE) (mkSim 0 5)) run4.
Proof.
  apply (rtc_l _ _ run1); [apply (change_step APPEND); [by vm_compute|by intros [=]]|].
  apply (rtc_l _ _ run2); [by apply (step_answer (server 2) 6 5 (Lsn.mkLSN 100) (meta 1 RAW_WRITE) (fst run1) (snd run1))|].
  apply (rtc_l _ _ run3); [apply (change_step APPEND); [by vm_compute|by intros [=]]|].
  apply (rtc_l _ _ (flush (meta 6 APPEND) run3)); [by apply (step_flushed false (meta 6 APPEND) (fst run3) (snd run3))|].
  apply rtc_once. by apply (step_ack (server 1) 6 (fst (flush (meta 6 APPEND) run3)) (snd (flush (meta 6 APPEND) run3))).
Qed.
Lemma mode_runs5 n : rtc step (started 1 (server 1) (meta 1 RAW_WRITE) (mkSim 0 5)) (run5 n).
Proof. eapply rtc_r; [apply runs4|]. by apply (step_ack (server n) 6 (fst run4) (snd run4)). Qed.

Definition mgr5 (n : Z) : R := fst (run5 n).
Definition after (mode : AccessMode) (n : Z) : R := match change_access_mode 1 mode scn (mgr5 n) with Some (_, m') => m' | None => mgr5 n end.

Lemma mode_ids_monotone_witness :
  (accepted_pid (fst run0), accepted_pid (fst run4), applied_pid (fst run4)) = (1, 6, 1) ∧
  accepted_pid (fst run0) ≤ accepted_pid (fst run4) ∧ applied_pid (fst run0) ≤ applied_pid (fst run4) ∧
  applied_pid (fst run4) ≤ accepted_pid (fst run4) ∧ meta_is_valid (accepted_mode_meta_ (fst run4)) = true.
Proof.
  split; [by vm_compute|].
  apply (mode_ids_monotone 1 (server 1) (meta 1 RAW_WRITE) (mkSim 0 5) run0 run4);
    [done|by vm_compute|by vm_compute|exact (rtc_refl step run0)|exact runs4].
Defined.


(** A new leader under proposal 6: the second server has accepted the mode of proposal 4,
    and the call that finds the majority of answers submits it. *)
Abbreviation C := (@LogModeMgr (Sim * list Sent) * list Ev)%type.
Definition reconfirmed (c : C) : C :=
  match reconfirm_mode_meta (fst c) with
  | Some (_, m') => (m', Called (new_proposal_id_ m') (accepted_pid (fst c)) :: snd c)
  | None => c
  end.
Definition told_mode (n pid : Z) (x : LogModeMeta) (c : C) : C :=
  (snd (handle_prepare_response (server n) pid 5 (Lsn.mkLSN 100) x (fst c)), Answer (server n) pid x :: snd c).
Definition lead0 : C := Eval vm_compute in started 1 (server 1) (meta 1 RAW_WRITE) (mkSim 0 5, []).
Definition lead1 : C := Eval vm_compute in reconfirmed lead0.
Definition lead2 : C := Eval vm_compute in told_mode 2 6 (meta 4 APPEND) lead1.
Definition lead3 : C := Eval vm_compute in reconfirmed lead2.
Lemma leads2 : rtc step (started 1 (server 1) (meta 1 RAW_WRITE) (mkSim 0 5, [])) lead2.
Proof.
  apply (rtc_l _ _ lead1).
  - apply (step_call (fst lead0) (fst lead1) (snd lead0)), (call_reconfirm _ OB_EAGAIN). vm_compute. reflexivity.
  - apply rtc_once. by apply (step_answer (server 2) 6 5 (Lsn.mkLSN 100) (meta 4 APPEND) (fst lead1) (snd lead1)).
Qed.

Lemma newest_mode_carried_witness :
  let carried := (false, mkMeta LOG_MODE_META_VERSION 6 4 APPEND scn) in
  state_ (fst lead2) = MODE_PREPARE ∧ submitted (fst lead2) = [] ∧ submitted (fst lead3) = [carried; carried] ∧
  4 ≤ proposal_id_ (max_majority_accepted_mode_meta_ (fst lead3)).
Proof.
  split; [by vm_compute|]. split; [by vm_compute|]. split; [by vm_compute|].
  destruct (newest_mode_carried 1 (server 1) (meta 1 RAW_WRITE) (mkSim 0 5, []) (fst lead2) (snd lead2) OB_EAGAIN (fst lead3))
    as (sent & E & Hsent); [done|by vm_compute|by vm_compute|exact leads2|vm_compute; reflexivity|].
  destruct Hsent as [Hf|(_ & _ & Hv)].
  - exfalso. vm_compute in E. subst sent. apply Forall_cons in Hf as [Hf _]. discriminate Hf.
  - apply (Hv [server 2; server 3] 4);
      [apply (bool_decide_unpack _); by vm_compute|by vm_compute|apply (bool_decide_unpack _); by vm_compute| |].
    + intros a x _ Hin. vm_compute in Hin. repeat (apply elem_of_cons in Hin as [Hin|Hin]; [inversion Hin; subst; by vm_compute|]).
      by apply elem_of_nil in Hin.
    + intros own Hin _. vm_compute in Hin. exfalso.
      repeat (apply elem_of_cons in Hin as [Hin|Hin]; [discriminate Hin|]). by apply elem_of_nil in Hin.
Defined.

(** [ack_mode_meta] does not test that the server is a member of the group: the
    acknowledgement of a learner, which has fetched the mode that is being accepted, makes
    the majority. *)
Theorem learner_ack_counts :
  rtc step (started 1 (server 1) (meta 1 RAW_WRITE) (mkSim 0 5)) (run5 9) ∧
  code (server 9) ∉ group (mgr5 9) ∧ ack_list_ (mgr5 9) = [server 1; server 9] ∧
  change_access_mode 1 APPEND scn (mgr5 9) = Some (OB_SUCCESS, after APPEND 9) ∧ applied_mode (after APPEND 9) = APPEND.
Proof. split; [apply mode_runs5|]. split; [apply (bool_decide_unpack _); by vm_compute|by vm_compute]. Qed.

(** A call that asks for another mode than the one being accepted reports success when that
    one is applied. *)
Theorem success_for_another_mode :
  rtc step (started 1 (server 1) (meta 1 RAW_WRITE) (mkSim 0 5)) (run5 2) ∧
  change_access_mode 1 FLASHBACK scn (mgr5 2) = Some (OB_SUCCESS, after FLASHBACK 2) ∧ applied_mode (after FLASHBACK 2) = APPEND.
Proof. split; [apply mode_runs5|by vm_compute]. Qed.
End Run.
End ModeSafety.
