(* ===== verification/ReconfirmMode.v ===== *)
(** The confirmation of a new leader together with the mode manager it calls
    ([LogReconfirm] over [LogModeMgr]): the two keep their proposals apart, and the answers
    to one prepare request are meant for both.  The mode manager is the part of the peers of
    the confirmation that is modelled; the rest of them is shared. *)
From S2P Require Import Prelude Scn Lsn MemberList SimpleMemberList LogReconfirm ReconfirmSafety LogModeMgr ModeSafety.
Import MemberList.

Module ReconfirmMode.

(** ** The mode manager as a peer *)
Section compose.
Context {P : Type} `{LogReconfirm.Peers P, LogModeMgr.Peers P}.
Abbreviation MM := (@LogModeMgr.LogModeMgr P).

Definition below {A} (f : P → A * P) (m : MM) : A * MM := let '(a, p) := f (LogModeMgr.peers m) in (a, LogModeMgr.set_peers p m).
(** [reconfirm_mode_meta] as a call; it does not abort. *)
Definition confirm_mode (m : MM) : Z * MM :=
  match LogModeMgr.reconfirm_mode_meta m with Some (rc, m') => (rc, m') | None => (OB_ERR_UNEXPECTED, m) end.
#[export] Instance with_mode : LogReconfirm.Peers MM := {
  LogReconfirm.current_time := below LogReconfirm.current_time;
  LogReconfirm.getClock := below LogReconfirm.getClock;
  LogReconfirm.mm_get_alive_member_list_with_arb := below LogReconfirm.mm_get_alive_member_list_with_arb;
  LogReconfirm.mm_get_accept_proposal_id := below LogReconfirm.mm_get_accept_proposal_id;
  LogReconfirm.mm_confirm_start_working_log pid epoch v := below (LogReconfirm.mm_confirm_start_working_log pid epoch v);
  LogReconfirm.sw_get_max_flushed_log_info := below LogReconfirm.sw_get_max_flushed_log_info;
  LogReconfirm.sw_check_all_log_has_flushed := below LogReconfirm.sw_check_all_log_has_flushed;
  LogReconfirm.sw_ack_log server lsn := below (LogReconfirm.sw_ack_log server lsn);
  LogReconfirm.sw_get_max_flushed_end_lsn := below LogReconfirm.sw_get_max_flushed_end_lsn;
  LogReconfirm.sw_get_max_lsn := below LogReconfirm.sw_get_max_lsn;
  LogReconfirm.sw_get_start_id := below LogReconfirm.sw_get_start_id;
  LogReconfirm.sw_try_fetch_log_for_reconfirm server lsn := below (LogReconfirm.sw_try_fetch_log_for_reconfirm server lsn);
  LogReconfirm.sw_get_majority_match_lsn := below LogReconfirm.sw_get_majority_match_lsn;
  LogReconfirm.sw_get_lagged_member_list lsn := below (LogReconfirm.sw_get_lagged_member_list lsn);
  LogReconfirm.sw_try_advance_committed_end_lsn lsn := below (LogReconfirm.sw_try_advance_committed_end_lsn lsn);
  LogReconfirm.sw_is_all_committed_log_slided_out := below LogReconfirm.sw_is_all_committed_log_slided_out;
  LogReconfirm.mode_reconfirm_mode_meta := confirm_mode;
  LogReconfirm.mode_need_skip_log_barrier m := (LogModeMgr.need_skip_log_barrier m, m);
  LogReconfirm.state_get_proposal_id := below LogReconfirm.state_get_proposal_id;
  LogReconfirm.state_handle_prepare_request server pid := below (LogReconfirm.state_handle_prepare_request server pid);
  LogReconfirm.state_get_leader_epoch := below LogReconfirm.state_get_leader_epoch;
  LogReconfirm.engine_submit_prepare_meta_req ml pid := below (LogReconfirm.engine_submit_prepare_meta_req ml pid);
  LogReconfirm.engine_submit_notify_fetch_log_req ml := below (LogReconfirm.engine_submit_notify_fetch_log_req ml);
  LogReconfirm.engine_submit_purge_throttling_task := below LogReconfirm.engine_submit_purge_throttling_task
}.
End compose.

(** What both expect of the rest: the proposal id of the state manager is one number, and
    the calls between two readings of it leave it alone. *)
Definition keeps {P A} (pid : P → Z) (f : P → A * P) : Prop := ∀ p, pid (snd (f p)) = pid p.
Class PidLaws (P : Type) `{LogReconfirm.Peers P, LogModeMgr.Peers P} : Type := {
  pid : P → Z;
  rec_pid p : fst (LogReconfirm.state_get_proposal_id p) = pid p;
  mode_pid p : fst (LogModeMgr.state_get_proposal_id p) = pid p;
  rec_time : keeps pid LogReconfirm.current_time;
  rec_flushed : keeps pid LogReconfirm.sw_get_max_flushed_log_info;
  rec_accept : keeps pid LogReconfirm.mm_get_accept_proposal_id;
  mode_time : keeps pid LogModeMgr.current_time;
  mode_leader : keeps pid LogModeMgr.state_is_leader_reconfirm;
  mode_members : keeps pid LogModeMgr.mm_get_alive_member_list_with_arb;
  mode_replicas p : let a := fst (LogModeMgr.mm_get_alive_member_list_with_arb p) in fst a ≠ OB_EAGAIN ∧ 0 <= snd (snd a);
  mode_epoch : keeps pid LogModeMgr.state_get_leader_epoch;
  mode_max_lsn : keeps pid LogModeMgr.sw_get_max_lsn;
  mode_reads : keeps pid LogModeMgr.state_get_proposal_id;
  mode_sends ml i b x : keeps pid (LogModeMgr.engine_submit_change_mode_meta_req ml i b x);
  mode_flush i b x : keeps pid (LogModeMgr.engine_submit_flush_mode_meta_task i b x)
}.

Section agree.
Context {P : Type} `{HR : LogReconfirm.Peers P} `{HM : LogModeMgr.Peers P} `{!PidLaws P}.
Abbreviation MM := (@LogModeMgr.LogModeMgr P).
Implicit Types m : MM.
Definition id_of m : Z := pid (LogModeMgr.peers m).

Lemma twp_keep {A} (f : P → A * P) (Q : A → MM → Prop) m :
  keeps pid f → (∀ p, pid p = id_of m → Q (fst (f (LogModeMgr.peers m))) (LogModeMgr.set_peers p m)) → twp (LogModeMgr.ask f) Q m.
Proof.
  intros Hk HQ. unfold twp, LogModeMgr.ask. specialize (Hk (LogModeMgr.peers m)). destruct (f (LogModeMgr.peers m)) as [a p].
  by apply HQ.
Qed.

Create HintDb keeps.
#[local] Hint Resolve mode_time mode_leader mode_members mode_epoch mode_max_lsn mode_reads mode_sends mode_flush : keeps.
Ltac cstep :=
  lazymatch goal with
  | |- twp (bind _ _) _ _ => apply twp_bind
  | |- twp (ret _) _ _ => apply twp_ret
  | |- twp (gets _) _ _ => apply twp_gets
  | |- twp get _ _ => apply twp_get
  | |- twp (modify _) _ _ => apply twp_modify
  | |- twp (LogModeMgr.ask _) _ _ => apply twp_keep; [by auto with keeps|intros]
  | |- twp (if ?b then _ else _) _ _ => destruct b eqn:?
  | |- twp (match ?a with pair _ _ => _ end) _ _ => destruct a eqn:?
  end.

(** The proposal of the mode manager is the next id. *)
Definition next (i : Z) : Z := s64 (i + 1).
Definition proposes (i : Z) m : Prop := id_of m = i ∧ LogModeMgr.new_proposal_id_ m = next i.

Ltac cdone := unfold proposes, next, id_of in *; cbn -[s64 Z.quot OB_SUCCESS OB_EAGAIN] in *; split_and?; try done; try congruence.
Lemma prepare_req_proposes m :
  twp (LogModeMgr.submit_prepare_req_ true false)
    (λ _ m', proposes (id_of m) m' ∧ LogModeMgr.majority_cnt_ m' = LogModeMgr.majority_cnt_ m) m.
Proof.
  unfold LogModeMgr.submit_prepare_req_. cbn [andb]. repeat cstep; rewrite ?mode_pid; cdone.
Qed.
Lemma remove_server_code server ml : fst (remove_server server ml) ≠ OB_EAGAIN.
Proof. unfold remove_server. by repeat case_match. Qed.
Lemma ob_failed_success rc : ob_failed rc = true → rc ≠ OB_SUCCESS.
Proof. by intros Hf ->. Qed.
Lemma init_keeps m :
  twp LogModeMgr.init_change_mode_
    (λ rc m', rc ≠ OB_EAGAIN ∧ (rc = OB_SUCCESS → id_of m' = id_of m ∧ 0 < LogModeMgr.majority_cnt_ m')) m.
Proof.
  unfold LogModeMgr.init_change_mode_. destruct (mode_replicas (LogModeMgr.peers m)) as [Hc Hr].
  repeat cstep; rewrite ?Heqp0 in Hc, Hr; cbn [fst snd] in Hc, Hr.
  - split; [done|]. by intros ?%ob_failed_success.
  - split; [|by intros ?%ob_failed_success].
    pose proof (remove_server_code (LogModeMgr.self_ (LogModeMgr.set_peers p m)) o) as Hs. by rewrite Heqp2 in Hs.
  - split; [done|]. intros _. split; [cdone|]. cbn. pose proof (Z.quot_pos z0 2). lia.
Qed.

(** A mode that is being prepared again, or for the first time. *)
Lemma prepare_proposes ts scn m :
  LogModeMgr.is_reach_majority_ m = false →
  twp (LogModeMgr.case_prepare ts scn true) (λ r m', proposes (id_of m) m' ∧ snd r = false) m.
Proof.
  intros Hm. unfold LogModeMgr.case_prepare. do 2 cstep. rewrite Hm. cstep. cstep. cstep.
  eapply twp_mono; [apply prepare_req_proposes|]. intros rc m' [??]. by apply twp_ret.
Qed.
Lemma accept_req_proposes i b meta m n : 
  proposes n m → twp (LogModeMgr.submit_accept_req_ i b meta) (λ _ m', proposes n m') m.
Proof.
  intros [Hi Hn]. unfold LogModeMgr.submit_accept_req_, LogModeMgr.receive_mode_meta_. repeat cstep; cdone.
Qed.
Lemma accept_proposes mode scn m n :
  LogModeMgr.is_reach_majority_ m = false → proposes n m →
  twp (LogModeMgr.case_accept mode scn true) (λ r m', proposes n m' ∧ snd r = false) m.
Proof.
  intros Hm [Hi Hn]. unfold LogModeMgr.case_accept, LogModeMgr.is_need_retry_. do 2 cstep. rewrite Hm. cbn [negb].
  repeat cstep; try cdone;
    (eapply twp_mono; [apply (accept_req_proposes _ _ _ _ n); cdone|]; intros rc m' ?; by apply twp_ret).
Qed.
Lemma init_proposes mode scn m :
  twp (LogModeMgr.case_init mode scn true)
    (λ r m', snd r = false ∧ (fst r = OB_SUCCESS ∨ fst r = OB_EAGAIN → proposes (id_of m) m')) m.
Proof.
  unfold LogModeMgr.case_init. apply twp_bind. eapply twp_mono; [apply init_keeps|]. intros rc m1 [Hc Hok]. cbn beta.
  destruct (ob_failed rc) eqn:Hf.
  { apply ob_failed_success in Hf. apply twp_ret. split; [done|]. by intros [?|?]. }
  destruct Hok as [Hi Hpos]; [by apply ob_failed_false|].
  apply twp_bind. eapply twp_mono; [apply prepare_req_proposes|]. intros rc2 m2 [[Hi2 Hn2] Hm2]. cbn beta.
  rewrite Hi in Hi2, Hn2.
  destruct (ob_failed rc2) eqn:Hf2; [by apply twp_ret|].
  apply twp_bind, twp_modify. destruct (LogModeMgr.is_reach_majority_ (LogModeMgr.set_state LogModeMgr.MODE_PREPARE m2)) eqn:Hr.
  - unfold LogModeMgr.case_prepare. do 2 cstep. rewrite Hr. cstep. cstep.
    eapply twp_mono; [apply (accept_proposes _ _ _ (id_of m))|].
    + unfold LogModeMgr.is_reach_majority_. cbn. apply Z.leb_gt. by rewrite Hm2.
    + by split.
    + by intros r m' [??].
  - eapply twp_mono; [by apply prepare_proposes|]. intros r m' [Hp ?]. split; [done|]. intros _. by rewrite <-Hi2.
Qed.

(** The states in which a confirmation may be asked to prepare. *)
Definition preparing m : Prop :=
  LogModeMgr.state_ m = LogModeMgr.MODE_INIT
  ∨ LogModeMgr.state_ m = LogModeMgr.MODE_PREPARE ∧ LogModeMgr.is_reach_majority_ m = false.
Lemma switch_proposes mode scn m :
  preparing m →
  twp (LogModeMgr.switch_state_ mode scn true)
    (λ rc m', rc ≠ OB_SUCCESS ∧ (rc = OB_EAGAIN → proposes (id_of m) m')) m.
Proof.
  intros Hp. unfold LogModeMgr.switch_state_. do 2 cstep. cstep.
  eapply (twp_mono _ (λ r m', snd r = false ∧ (fst r = OB_SUCCESS ∨ fst r = OB_EAGAIN → proposes (id_of m) m'))).
  { destruct Hp as [-> | [-> Hr]]; [apply init_proposes|].
    eapply twp_mono; [by apply prepare_proposes|]. naive_solver. }
  intros [rc done] m' [Hd Hr]. cbn in Hd, Hr. subst done.
  destruct (Z.eqb_spec OB_SUCCESS rc), (Z.eqb_spec OB_EAGAIN rc); cbn [negb andb]; apply twp_ret; (split; [done|]); intros; apply Hr; auto.
Qed.
Lemma confirm_proposes m :
  preparing m → let '(rc, m') := confirm_mode m in rc ≠ OB_SUCCESS ∧ (rc = OB_EAGAIN → proposes (id_of m) m').
Proof.
  intros Hp. assert (twp LogModeMgr.reconfirm_mode_meta (λ rc m', rc ≠ OB_SUCCESS ∧ (rc = OB_EAGAIN → proposes (id_of m) m')) m) as Ht.
  { unfold LogModeMgr.reconfirm_mode_meta. do 3 cstep; [by apply twp_ret|].  cstep. cstep. cstep; [by apply twp_ret|].
    eapply twp_mono; [by apply switch_proposes|]. intros rc m'. change (id_of (LogModeMgr.set_peers p m)) with (pid p). by rewrite H. }
  unfold confirm_mode. unfold twp in Ht. by destruct (LogModeMgr.reconfirm_mode_meta m) as [[rc m']|].
Qed.

(** ** The proposal of the confirmation *)
Abbreviation RR := (@LogReconfirm.LogReconfirm MM).
Implicit Types r : RR.
Definition mode r : MM := LogReconfirm.peers r.
Definition behind r (p : P) : RR := LogReconfirm.set_peers (LogModeMgr.set_peers p (mode r)) r.
Lemma twp_below {A} (f : P → A * P) (Q : A → RR → Prop) r :
  (∀ a p, (keeps pid f → pid p = id_of (mode r)) → Q a (behind r p)) → twp (LogReconfirm.ask (below f)) Q r.
Proof.
  intros HQ. unfold twp, LogReconfirm.ask, below.
  destruct (f (LogModeMgr.peers (LogReconfirm.peers r))) as [a p] eqn:Hf. apply HQ.
  intros Hk. specialize (Hk (LogModeMgr.peers (LogReconfirm.peers r))). by rewrite Hf in Hk.
Qed.
Lemma twp_pid (Q : Z → RR → Prop) r :
  (∀ p, Q (id_of (mode r)) (behind r p)) → twp (LogReconfirm.ask (below LogReconfirm.state_get_proposal_id)) Q r.
Proof.
  intros HQ. unfold twp, LogReconfirm.ask, below. pose proof (rec_pid (LogModeMgr.peers (LogReconfirm.peers r))) as Hp.
  destruct (LogReconfirm.state_get_proposal_id _) as [a p]. cbn in Hp. subst a. apply HQ.
Qed.
Lemma twp_confirm (Q : Z → RR → Prop) r :
  preparing (mode r) →
  (∀ rc m', rc ≠ OB_SUCCESS → (rc = OB_EAGAIN → proposes (id_of (mode r)) m') → Q rc (LogReconfirm.set_peers m' r)) →
  twp (LogReconfirm.ask confirm_mode) Q r.
Proof.
  intros Hp HQ. apply confirm_proposes in Hp. unfold twp, LogReconfirm.ask, mode in *.
  destruct (confirm_mode (LogReconfirm.peers r)) as [rc m']. destruct Hp. by apply HQ.
Qed.

(** ** One answer for both
    The part of [PalfHandleImpl::handle_prepare_response] for an answer that grants the
    vote. *)
Definition handle_granted (server : ObAddr) (proposal_id accept_proposal_id : Z) (last_lsn committed_end_lsn : Lsn.LSN)
    (log_mode_meta : LogModeMgr.LogModeMeta) r : Z * RR :=
  let '(rc, m) := LogModeMgr.handle_prepare_response server proposal_id accept_proposal_id last_lsn log_mode_meta (mode r) in
  let r := LogReconfirm.set_peers m r in
  if ob_failed rc then (rc, r)
  else LogReconfirm.handle_prepare_response server proposal_id accept_proposal_id last_lsn committed_end_lsn r.

(** The mode manager and the confirmation wait for the answers of one request. *)
Record waiting r : Prop := {
  wait_init : LogReconfirm.is_inited_ r = true ∧ LogModeMgr.is_inited_ (mode r) = true;
  wait_state : LogReconfirm.state_ r = LogReconfirm.FETCH_MAX_LOG_LSN ∧ LogModeMgr.state_ (mode r) = LogModeMgr.MODE_PREPARE;
  wait_pid : LogModeMgr.new_proposal_id_ (mode r) = LogReconfirm.new_proposal_id_ r;
  wait_list : LogModeMgr.follower_list_ (mode r) = LogReconfirm.curr_paxos_follower_list_ r
}.
Lemma rec_acks server pid acc last committed r r' :
  LogReconfirm.handle_prepare_response server pid acc last committed r = (OB_SUCCESS, r') →
  mode r' = mode r ∧
  LogReconfirm.prepare_log_ack_list_ r' =
    (if contains server (LogReconfirm.curr_paxos_follower_list_ r)
     then snd (SimpleMemberList.ack_add_server server (LogReconfirm.prepare_log_ack_list_ r))
     else LogReconfirm.prepare_log_ack_list_ r).
Proof.
  unfold LogReconfirm.handle_prepare_response. intros Hh. do 3 (case_match; [done|]). case_match; destruct (contains _ _); try done.
  { by injection Hh as <-. }
  destruct (SimpleMemberList.ack_add_server server _) as [rc acks]. cbn [snd]. case_match; [by injection Hh as -> <-|].
  case_match; injection Hh as <-; [done|]. unfold LogReconfirm.update_follower_end_lsn_, LogReconfirm.compare_newest, mode.
  by repeat case_match.
Qed.
Lemma mode_acks server pid acc last meta m m' :
  LogModeMgr.handle_prepare_response server pid acc last meta m = (OB_SUCCESS, m') →
  LogModeMgr.ack_list_ m' =
    (if contains server (LogModeMgr.follower_list_ m)
     then snd (SimpleMemberList.add_server server (LogModeMgr.ack_list_ m)) else LogModeMgr.ack_list_ m).
Proof.
  unfold LogModeMgr.handle_prepare_response. intros Hh. do 3 (case_match; [done|]). case_match; destruct (contains _ _); try done.
  { by injection Hh as <-. }
  destruct (SimpleMemberList.add_server server _) as [rc acks]. cbn [snd]. case_match; by simplify_eq.
Qed.

(** The answers a replica sends. *)
Definition answer_ok (server : ObAddr) (pid acc : Z) (last : Lsn.LSN) (meta : LogModeMgr.LogModeMeta) : bool :=
  addr_is_valid server && LogReconfirm.valid_pid pid && LogReconfirm.valid_pid acc && Lsn.is_valid last && LogModeMgr.meta_is_valid meta.
Lemma mode_takes server pid acc last meta m :
  answer_ok server pid acc last meta = true → LogModeMgr.is_inited_ m = true →
  LogModeMgr.state_ m = LogModeMgr.MODE_PREPARE → LogModeMgr.new_proposal_id_ m = pid →
  SimpleMemberList.get_count (LogModeMgr.ack_list_ m) < OB_MAX_MEMBER_NUMBER →
  fst (LogModeMgr.handle_prepare_response server pid acc last meta m) = OB_SUCCESS.
Proof.
  unfold answer_ok, LogReconfirm.valid_pid. rewrite !andb_true_iff, !negb_true_iff. intros [[[[Ha Hp] Hc] Hl] Hm] Hi Hs Hpid Hcnt.
  unfold LogModeMgr.handle_prepare_response. rewrite Hi, Hs, Hpid, Ha, Hp, Hc, Hl, Hm, Z.eqb_refl, bool_decide_true by done.
  cbn [negb orb]. destruct (contains _ _); [|done]. unfold SimpleMemberList.add_server.
  destruct (SimpleMemberList.contains _ _); [done|]. by rewrite (proj2 (Z.leb_gt _ _) Hcnt).
Qed.
Lemma rec_takes server pid acc last committed meta r :
  answer_ok server pid acc last meta = true → LogReconfirm.is_inited_ r = true →
  LogReconfirm.state_ r = LogReconfirm.FETCH_MAX_LOG_LSN → LogReconfirm.new_proposal_id_ r = pid →
  fst (LogReconfirm.handle_prepare_response server pid acc last committed r) = OB_SUCCESS.
Proof.
  unfold answer_ok, LogReconfirm.valid_pid. rewrite !andb_true_iff, !negb_true_iff. intros [[[[Ha Hp] Hc] Hl] Hm] Hi Hs Hpid.
  unfold LogReconfirm.handle_prepare_response. rewrite Hi, Hs, Hpid, Ha, Hp, Hc, Hl, Z.eqb_refl, bool_decide_true by done.
  cbn [negb orb]. destruct (contains _ _); [|done]. 
  assert (fst (SimpleMemberList.ack_add_server server (LogReconfirm.prepare_log_ack_list_ r)) = OB_SUCCESS) as Hk.
  { unfold SimpleMemberList.ack_add_server. rewrite Ha. by repeat case_match. }
  destruct (SimpleMemberList.ack_add_server _ _) as [rc k]. cbn in Hk. subst rc. change (ob_failed OB_SUCCESS) with false.
  cbn iota. by destruct (_ && _).
Qed.

(** While the confirmation and the mode manager wait for the answers to one request,
    a well-formed answer succeeds and is counted by both or, if it is not from a follower,
    by neither. *)
Theorem answer_for_both server acc last committed meta r :
  waiting r → answer_ok server (LogReconfirm.new_proposal_id_ r) acc last meta = true →
  SimpleMemberList.get_count (LogModeMgr.ack_list_ (mode r)) < OB_MAX_MEMBER_NUMBER →
  ∃ r', handle_granted server (LogReconfirm.new_proposal_id_ r) acc last committed meta r = (OB_SUCCESS, r') ∧
    if contains server (LogReconfirm.curr_paxos_follower_list_ r) then
      LogReconfirm.prepare_log_ack_list_ r' = snd (SimpleMemberList.ack_add_server server (LogReconfirm.prepare_log_ack_list_ r))
      ∧ LogModeMgr.ack_list_ (mode r') = snd (SimpleMemberList.add_server server (LogModeMgr.ack_list_ (mode r)))
    else
      LogReconfirm.prepare_log_ack_list_ r' = LogReconfirm.prepare_log_ack_list_ r
      ∧ LogModeMgr.ack_list_ (mode r') = LogModeMgr.ack_list_ (mode r).
Proof.
  intros [[Hi1 Hi2] [Hs1 Hs2] Hpid Hl] Hok Hcnt. pose proof (mode_takes _ _ _ _ _ _ Hok Hi2 Hs2 Hpid Hcnt) as Hm.
  unfold handle_granted. destruct (LogModeMgr.handle_prepare_response _ _ _ _ _ (mode r)) as [rc m] eqn:Em.
  cbn in Hm. subst rc. change (ob_failed OB_SUCCESS) with false. cbn iota.
  pose proof (rec_takes _ _ _ _ committed _ (LogReconfirm.set_peers m r) Hok Hi1 Hs1 eq_refl) as Hr.
  destruct (LogReconfirm.handle_prepare_response _ _ _ _ _ _) as [rc r'] eqn:Er. cbn in Hr. subst rc.
  exists r'. split; [done|]. apply mode_acks in Em. apply rec_acks in Er as [-> Er]. rewrite Hl in Em.
  cbn [LogReconfirm.curr_paxos_follower_list_ LogReconfirm.set_peers LogReconfirm.prepare_log_ack_list_] in Er.
  destruct (contains _ _); split; [exact Er|exact Em|exact Er|exact Em].
Qed.

(** C20. The two proposals of a new leader are one: whenever [submit_prepare_log_] of the
    confirmation succeeds with a mode manager that is not yet past its own prepare phase,
    both hold the successor of the current proposal id, so one answer is counted by both. *)
Theorem same_proposal r :
  preparing (mode r) →
  ∃ rc r', LogReconfirm.submit_prepare_log_ r = Some (rc, r')
    ∧ (rc = OB_SUCCESS → LogReconfirm.new_proposal_id_ r' = next (id_of (mode r))
                         ∧ LogModeMgr.new_proposal_id_ (mode r') = next (id_of (mode r))).
Proof.
  intros Hp. apply twp_run. unfold LogReconfirm.submit_prepare_log_. cbn -[s64 OB_EAGAIN].
  apply twp_bind, twp_below. intros now p1 H1. specialize (H1 rec_time).
  apply twp_bind, twp_below. intros [rc0 [[? lsn] lpid]] p2 H2. specialize (H2 rec_flushed).
  destruct (ob_failed rc0) eqn:Hf0; [apply twp_ret; by intros ?%(ob_failed_success _ Hf0)|].
  apply twp_bind, twp_confirm; [done|]. intros rc m' Hne Hm.
  destruct (Z.eqb_spec OB_EAGAIN rc) as [<-|]; [|by apply twp_ret]. destruct (Hm eq_refl) as [Hi Hn]. cbn [negb].
  apply twp_bind, twp_modify, twp_bind, twp_below. intros lid p3 H3. specialize (H3 rec_accept).
  apply twp_bind, twp_modify, twp_bind, twp_pid. intros p4.
  change (pid p2 = pid p1) in H2. change (id_of m' = pid p2) in Hi. change (LogModeMgr.new_proposal_id_ m' = next (pid p2)) in Hn.
  change (pid p3 = id_of m') in H3. rewrite H2, H1 in Hn, Hi. rewrite Hi in H3.
  match goal with |- context [s64 (id_of ?x + 1)] => change (id_of x) with (pid p3) end. rewrite H3.
  do 2 cstep. do 2 cstep. apply twp_bind, twp_below. intros rc5 p5 _.
  destruct (ob_failed rc5) eqn:Hf5; [apply twp_ret; by intros ?%(ob_failed_success _ Hf5)|].
  apply twp_bind. cstep; [apply twp_below; intros rc6 p6 _|cstep]; (cstep; [|repeat cstep; by intros _]).
  - apply twp_ret. by intros ?%(ob_failed_success _ Heqb0).
  - by apply twp_ret.
Qed.
End agree.

(** ** A run: a new leader of three servers under proposal 5 *)
Module Run.
Import ModeSafety.Run.
Abbreviation zero := (Lsn.mkLSN 100).
#[export] Instance sim_rec : LogReconfirm.Peers Sim := {
  LogReconfirm.current_time p := (s_time p, p);
  LogReconfirm.getClock p := (s_time p, p);
  LogReconfirm.mm_get_alive_member_list_with_arb p := ((OB_SUCCESS, (three, 3)), p);
  LogReconfirm.mm_get_accept_proposal_id p := (5, p);
  LogReconfirm.mm_confirm_start_working_log _ _ v p := ((OB_SUCCESS, v), p);
  LogReconfirm.sw_get_max_flushed_log_info p := ((OB_SUCCESS, (zero, zero, 5)), p);
  LogReconfirm.sw_check_all_log_has_flushed p := (true, p);
  LogReconfirm.sw_ack_log _ _ p := (OB_SUCCESS, p);
  LogReconfirm.sw_get_max_flushed_end_lsn p := (zero, p);
  LogReconfirm.sw_get_max_lsn p := (zero, p);
  LogReconfirm.sw_get_start_id p := (1, p);
  LogReconfirm.sw_try_fetch_log_for_reconfirm _ _ p := ((OB_SUCCESS, true), p);
  LogReconfirm.sw_get_majority_match_lsn p := ((OB_SUCCESS, zero), p);
  LogReconfirm.sw_get_lagged_member_list _ p := ((OB_SUCCESS, []), p);
  LogReconfirm.sw_try_advance_committed_end_lsn _ p := (OB_SUCCESS, p);
  LogReconfirm.sw_is_all_committed_log_slided_out p := (true, p);
  LogReconfirm.mode_reconfirm_mode_meta p := (OB_SUCCESS, p);
  LogReconfirm.mode_need_skip_log_barrier p := (false, p);
  LogReconfirm.state_get_proposal_id p := (s_pid p, p);
  LogReconfirm.state_handle_prepare_request _ pid p := (OB_SUCCESS, mkSim (s_time p) pid);
  LogReconfirm.state_get_leader_epoch p := (1, p);
  LogReconfirm.engine_submit_prepare_meta_req _ _ p := (OB_SUCCESS, p);
  LogReconfirm.engine_submit_notify_fetch_log_req _ p := (OB_SUCCESS, p);
  LogReconfirm.engine_submit_purge_throttling_task p := (OB_SUCCESS, p)
}.
#[export] Instance sim_pid : PidLaws Sim.
Proof. by refine {| pid := s_pid |}. Defined.

Definition leader : LogModeMgr.LogModeMgr := Eval vm_compute in fst run0.
Definition fresh : LogReconfirm.LogReconfirm := Eval vm_compute in
  snd (LogReconfirm.init true 1 (server 1) (LogReconfirm.new_reconfirm leader)).
Definition after {A} (r : option (A * LogReconfirm.LogReconfirm)) : LogReconfirm.LogReconfirm :=
  match r with Some (_, r) => r | None => fresh end.
(** The confirmation up to its prepare request. *)
Definition asked : LogReconfirm.LogReconfirm := Eval vm_compute in
  after (LogReconfirm.reconfirm (after (LogReconfirm.reconfirm fresh))).

Lemma same_proposal_witness :
  LogReconfirm.new_proposal_id_ (after (LogReconfirm.submit_prepare_log_ fresh)) = 6.
Proof.
  destruct (same_proposal fresh) as (rc & r' & E & Ha); [by left|].
  change 6 with (next (id_of (mode fresh))). rewrite E. apply Ha.
  assert (fst <$> LogReconfirm.submit_prepare_log_ fresh = Some OB_SUCCESS) as Hs by (by vm_compute).
  rewrite E in Hs. by injection Hs.
Defined.
Lemma waiting_asked : waiting asked.
Proof. by split. Qed.
Lemma answer_for_both_witness :
  waiting asked ∧
  ∃ r', handle_granted (server 2) 6 5 zero zero (meta 1 LogModeMgr.RAW_WRITE) asked = (OB_SUCCESS, r')
    ∧ LogModeMgr.ack_list_ (mode r') = [server 1; server 2].
Proof.
  split; [apply waiting_asked|].
  destruct (answer_for_both (server 2) 5 zero zero (meta 1 LogModeMgr.RAW_WRITE) asked) as (r' & E & Ha);
    [apply waiting_asked|by vm_compute|by vm_compute|].
  exists r'. split; [exact E|]. exact (proj2 Ha).
Defined.
End Run.
End ReconfirmMode.
