(* ===== verification/LogConfigMeta.v ===== *)
(** The configuration of a group of replicas ([src/logservice/palf/log_meta_info.cpp]:
    [LogConfigVersion], [LogConfigInfo], [LogLockMeta], [LogConfigInfoV2], [LogConfigMeta]),
    the kinds of change and their arguments ([log_config_mgr.h]), and how a change turns one
    configuration into the next ([generate_new_config_info_] of [log_config_mgr.cpp]).

    An array that has to grow is taken to grow; comparison by address or by whole member is
    kept apart as in the code. *)
From S2P Require Import Prelude Scn Lsn MemberList SimpleMemberList LogReconfirm LogModeMgr.
Import MemberList.

Module LogConfigMeta.
Abbreviation LSN := Lsn.LSN.
Abbreviation SCN := Scn.SCN.
Abbreviation INVALID_PROPOSAL_ID := Lsn.INVALID_PROPOSAL_ID.
Abbreviation LogConfigVersion := LogReconfirm.LogConfigVersion.
Abbreviation no_version := LogReconfirm.no_version.
Abbreviation v_pid := LogReconfirm.proposal_id_.
Abbreviation v_seq := LogReconfirm.config_seq_.
Definition no_lsn : LSN := Lsn.mkLSN Lsn.LOG_INVALID_LSN_VAL.

(** ** [LogConfigVersion] *)
Definition version_is_valid (v : LogConfigVersion) : bool := negb (v_pid v =? INVALID_PROPOSAL_ID) && (0 <=? v_seq v).
Definition version_generate (proposal_id config_seq : Z) (v : LogConfigVersion) : Z * LogConfigVersion :=
  if (proposal_id =? INVALID_PROPOSAL_ID) || (config_seq <? 0) then (OB_INVALID_ARGUMENT, v)
  else (OB_SUCCESS, LogReconfirm.mkVersion proposal_id config_seq).
Definition inc_update_version (proposal_id : Z) (v : LogConfigVersion) : Z * LogConfigVersion :=
  if (INVALID_PROPOSAL_ID =? v_pid v) || (v_seq v <? 0) then (OB_NOT_INIT, v)
  else if (INVALID_PROPOSAL_ID =? proposal_id) || (proposal_id <? v_pid v) then (OB_INVALID_ARGUMENT, v)
  else (OB_SUCCESS, LogReconfirm.mkVersion proposal_id (s64 (v_seq v + 1))).
Definition version_eqb (v w : LogConfigVersion) : bool := (v_pid v =? v_pid w) && (v_seq v =? v_seq w).
Definition version_gtb (v w : LogConfigVersion) : bool :=
  let cmp_ret := (v_pid w <? v_pid v) || ((v_pid v =? v_pid w) && (v_seq w <? v_seq v)) in
  if version_is_valid v && version_is_valid w then cmp_ret
  else if negb (version_is_valid v) then false else true.
Definition version_ltb (v w : LogConfigVersion) : bool :=
  let cmp_ret := (v_pid v <? v_pid w) || ((v_pid v =? v_pid w) && (v_seq v <? v_seq w)) in
  if version_is_valid v && version_is_valid w then cmp_ret
  else if negb (version_is_valid w) then false else true.

(** ** Learners, further to [LogModeMgr] *)
Definition MAX_LEARNERS : Z := LogModeMgr.OB_MAX_GLOBAL_LEARNER_NUMBER.
Abbreviation learner_contains := LogModeMgr.learner_contains.
Abbreviation LearnerList := LogModeMgr.LearnerList.
Abbreviation add_learner := (LogModeMgr.add_learner MAX_LEARNERS).
Definition learner_contains_addr (server : ObAddr) (l : list ObMember) : bool :=
  if negb (addr_is_valid server) then false else contains server l.
Fixpoint index_of_learner (learner : ObMember) (l : list ObMember) (i : Z) : Z :=
  match l with
  | [] => -1
  | m :: l => if member_eqb m learner then i else index_of_learner learner l (i + 1)
  end.
Definition remove_learner_member (learner : ObMember) (l : list ObMember) : Z * list ObMember :=
  if negb (member_is_valid learner) then (OB_INVALID_ARGUMENT, l)
  else
    let idx := index_of_learner learner l 0 in
    if -1 =? idx then (OB_ENTRY_NOT_EXIST, l) else (OB_SUCCESS, shift_out idx l).
Fixpoint append_learners (src dst : list ObMember) : Z * list ObMember :=
  match src with
  | [] => (OB_SUCCESS, dst)
  | m :: src => let '(rc, dst) := add_learner m dst in if ob_failed rc then (rc, dst) else append_learners src dst
  end.
Definition deep_copy_learners (src : list ObMember) : Z * list ObMember := append_learners src [].

(** ** [LogConfigInfo] *)
Record LogConfigInfo : Set := mkConfig {
  log_sync_memberlist_ : ObMemberList;
  log_sync_replica_num_ : Z;
  arbitration_member_ : ObMember;
  learnerlist_ : list ObMember;
  degraded_learnerlist_ : list ObMember;
  config_version_ : LogConfigVersion
}.
Definition no_config : LogConfigInfo := mkConfig [] 0 no_member [] [] no_version.

Fixpoint check_list_unique (l server_list : list ObMember) : Z * list ObMember :=
  match l with
  | [] => (OB_SUCCESS, server_list)
  | m :: l =>
      if learner_contains_addr (server_ m) server_list then (OB_INVALID_ARGUMENT, server_list)
      else
        let '(rc, server_list) := add_learner m server_list in
        if ob_failed rc then (rc, server_list) else check_list_unique l server_list
  end.
Definition is_all_list_unique (c : LogConfigInfo) : bool :=
  let '(rc, server_list) :=
    if member_is_valid (arbitration_member_ c) then add_learner (arbitration_member_ c) [] else (OB_SUCCESS, []) in
  if ob_failed rc then false
  else
    let '(rc, server_list) := check_list_unique (log_sync_memberlist_ c) server_list in
    if ob_failed rc then false
    else
      let '(rc, server_list) := check_list_unique (degraded_learnerlist_ c) server_list in
      if ob_failed rc then false else negb (ob_failed (fst (check_list_unique (learnerlist_ c) server_list))).
Definition num_ok (replica_num : Z) : bool := (0 <? replica_num) && (replica_num <=? OB_MAX_MEMBER_NUMBER).
Definition config_is_valid (c : LogConfigInfo) : bool :=
  list_is_valid (log_sync_memberlist_ c) && is_all_list_unique c && num_ok (log_sync_replica_num_ c)
  && version_is_valid (config_version_ c).

Fixpoint add_degraded (l : list ObMember) (ml : ObMemberList) (num : Z) : Z * (ObMemberList * Z) :=
  match l with
  | [] => (OB_SUCCESS, (ml, num))
  | m :: l => let '(rc, ml) := add_member m ml in if ob_failed rc then (rc, (ml, num)) else add_degraded l ml (num + 1)
  end.
Definition get_expected_paxos_memberlist (c : LogConfigInfo) : Z * (ObMemberList * Z) :=
  if negb (list_is_valid (log_sync_memberlist_ c)) || negb (num_ok (log_sync_replica_num_ c)) then (OB_SUCCESS, ([], 0))
  else if 0 <? Z.of_nat (length (degraded_learnerlist_ c))
  then add_degraded (degraded_learnerlist_ c) (log_sync_memberlist_ c) (log_sync_replica_num_ c)
  else (OB_SUCCESS, (log_sync_memberlist_ c, log_sync_replica_num_ c)).
(** The code, and the list of the living members with the arbitration member, their number
    and the list of all learners, for output arguments that were empty. *)
Definition convert_to_complete_config (c : LogConfigInfo) : Z * (ObMemberList * Z * list ObMember) :=
  if negb (list_is_valid (log_sync_memberlist_ c)) || negb (num_ok (log_sync_replica_num_ c))
  then (OB_NOT_INIT, ([], 0, []))
  else
    let '(rc, learners) := deep_copy_learners (learnerlist_ c) in
    if ob_failed rc then (rc, ([], 0, learners))
    else
      let '(rc, learners) := append_learners (degraded_learnerlist_ c) learners in
      if ob_failed rc then (rc, ([], 0, learners))
      else if member_is_valid (arbitration_member_ c) then
        let '(rc, ml) := add_member (arbitration_member_ c) (log_sync_memberlist_ c) in
        if ob_failed rc then (rc, (ml, 0, learners)) else (OB_SUCCESS, (ml, log_sync_replica_num_ c + 1, learners))
      else (OB_SUCCESS, (log_sync_memberlist_ c, log_sync_replica_num_ c, learners)).

(** ** [LogLockMeta]; [now] is the reading of the clock *)
Definition OB_INVALID_CONFIG_CHANGE_LOCK_OWNER : Z := -1.
Definition LOCK_NOTHING : Z := 0.
Definition LOCK_PAXOS_MEMBER_CHANGE : Z := 1.
Definition LOG_LOCK_META_VERSION : Z := 1.
Record LogLockMeta : Set := mkLock { lock_version_ : Z; lock_owner_ : Z; lock_type_ : Z; lock_time_ : Z }.
Definition no_lock : LogLockMeta := mkLock (-1) OB_INVALID_CONFIG_CHANGE_LOCK_OWNER LOCK_NOTHING OB_INVALID_TIMESTAMP.
Definition lock_is_valid (k : LogLockMeta) : bool :=
  let is_valid_locked_stat :=
    (0 <? lock_owner_ k) && (LOCK_PAXOS_MEMBER_CHANGE =? lock_type_ k) && negb (OB_INVALID_TIMESTAMP =? lock_time_ k) in
  let no_owner := OB_INVALID_CONFIG_CHANGE_LOCK_OWNER =? lock_owner_ k in
  let no_time := OB_INVALID_TIMESTAMP =? lock_time_ k in
  let is_valid_unlocked_stat :=
    (LOCK_NOTHING =? lock_type_ k) && ((no_owner && no_time) || (negb no_owner && negb no_time)) in
  (LOG_LOCK_META_VERSION =? lock_version_ k) && (is_valid_locked_stat || is_valid_unlocked_stat).
Definition lock_generate (now lock_owner lock_type : Z) (k : LogLockMeta) : Z * LogLockMeta :=
  if negb (LOCK_PAXOS_MEMBER_CHANGE =? lock_type) || (lock_owner <=? 0) then (OB_INVALID_ARGUMENT, k)
  else (OB_SUCCESS, mkLock LOG_LOCK_META_VERSION lock_owner lock_type now).
Definition unlock (now : Z) (k : LogLockMeta) : LogLockMeta := mkLock (lock_version_ k) (lock_owner_ k) LOCK_NOTHING now.
Definition reset_as_unlocked : LogLockMeta :=
  mkLock LOG_LOCK_META_VERSION OB_INVALID_CONFIG_CHANGE_LOCK_OWNER LOCK_NOTHING OB_INVALID_TIMESTAMP.
Definition is_locked (k : LogLockMeta) : bool := LOCK_PAXOS_MEMBER_CHANGE =? lock_type_ k.

(** ** [LogConfigInfoV2] and [LogConfigMeta] *)
Definition LOG_CONFIG_INFO_VERSION : Z := 1.
Record LogConfigInfoV2 : Set := mkInfo { info_version_ : Z; config_ : LogConfigInfo; lock_meta_ : LogLockMeta }.
Definition no_info : LogConfigInfoV2 := mkInfo (-1) no_config no_lock.
Definition info_is_valid (i : LogConfigInfoV2) : bool :=
  (LOG_CONFIG_INFO_VERSION =? info_version_ i) && config_is_valid (config_ i) && lock_is_valid (lock_meta_ i).
Definition version_of (i : LogConfigInfoV2) : LogConfigVersion := config_version_ (config_ i).

Record LogConfigMeta : Set := mkMeta {
  meta_version_ : Z;
  meta_proposal_id_ : Z;
  prev_ : LogConfigInfoV2;
  curr_ : LogConfigInfoV2;
  prev_log_proposal_id_ : Z;
  prev_lsn_ : LSN;
  prev_mode_pid_ : Z
}.
Definition LOG_CONFIG_META_VERSION : Z := 1.
Definition LOG_CONFIG_META_VERSION_INC : Z := 2.
Definition LOG_CONFIG_META_VERSION_42 : Z := 3.
Definition no_meta : LogConfigMeta := mkMeta (-1) INVALID_PROPOSAL_ID no_info no_info INVALID_PROPOSAL_ID no_lsn INVALID_PROPOSAL_ID.
Definition meta_generate (proposal_id : Z) (prev curr : LogConfigInfoV2) (prev_log_proposal_id : Z) (prev_lsn : LSN)
    (prev_mode_pid : Z) (meta : LogConfigMeta) : Z * LogConfigMeta :=
  if (INVALID_PROPOSAL_ID =? proposal_id) || negb (info_is_valid curr) then (OB_INVALID_ARGUMENT, meta)
  else (OB_SUCCESS, mkMeta LOG_CONFIG_META_VERSION_42 proposal_id prev curr prev_log_proposal_id prev_lsn prev_mode_pid).
Definition meta_is_valid (meta : LogConfigMeta) : bool :=
  ((LOG_CONFIG_META_VERSION =? meta_version_ meta) || (LOG_CONFIG_META_VERSION_INC =? meta_version_ meta)
   || (LOG_CONFIG_META_VERSION_42 =? meta_version_ meta))
  && negb (meta_proposal_id_ meta =? INVALID_PROPOSAL_ID).
(** [prev_.config_.learnerlist_.reset()]. *)
Definition drop_prev_learners (meta : LogConfigMeta) : LogConfigMeta :=
  let c := config_ (prev_ meta) in
  mkMeta (meta_version_ meta) (meta_proposal_id_ meta)
    (mkInfo (info_version_ (prev_ meta))
       (mkConfig (log_sync_memberlist_ c) (log_sync_replica_num_ c) (arbitration_member_ c) [] (degraded_learnerlist_ c)
          (config_version_ c)) (lock_meta_ (prev_ meta)))
    (curr_ meta) (prev_log_proposal_id_ meta) (prev_lsn_ meta) (prev_mode_pid_ meta).

(** ** Kinds of change *)
Inductive LogConfigChangeType : Set :=
  | INVALID_LOG_CONFIG_CHANGE_TYPE | CHANGE_REPLICA_NUM | ADD_MEMBER | ADD_ARB_MEMBER | REMOVE_MEMBER | REMOVE_ARB_MEMBER
  | ADD_MEMBER_AND_NUM | REMOVE_MEMBER_AND_NUM | ADD_LEARNER | REMOVE_LEARNER | SWITCH_LEARNER_TO_ACCEPTOR
  | SWITCH_ACCEPTOR_TO_LEARNER | DEGRADE_ACCEPTOR_TO_LEARNER | UPGRADE_LEARNER_TO_ACCEPTOR | STARTWORKING
  | FORCE_SINGLE_MEMBER | TRY_LOCK_CONFIG_CHANGE | UNLOCK_CONFIG_CHANGE | REPLACE_LEARNERS
  | SWITCH_LEARNER_TO_ACCEPTOR_AND_NUM | FORCE_SET_MEMBER_LIST.
#[export] Instance change_type_eq_dec : EqDecision LogConfigChangeType := ltac:(solve_decision).
Definition type_in (t : LogConfigChangeType) (l : list LogConfigChangeType) : bool := bool_decide (t ∈ l).
Definition need_check_config_version t : bool :=
  type_in t [ADD_MEMBER; ADD_MEMBER_AND_NUM; SWITCH_LEARNER_TO_ACCEPTOR; SWITCH_LEARNER_TO_ACCEPTOR_AND_NUM].
Definition is_add_log_sync_member_list t : bool :=
  type_in t [ADD_MEMBER; ADD_MEMBER_AND_NUM; SWITCH_LEARNER_TO_ACCEPTOR; UPGRADE_LEARNER_TO_ACCEPTOR;
             SWITCH_LEARNER_TO_ACCEPTOR_AND_NUM].
Definition is_remove_log_sync_member_list t : bool :=
  type_in t [REMOVE_MEMBER; REMOVE_MEMBER_AND_NUM; SWITCH_ACCEPTOR_TO_LEARNER; DEGRADE_ACCEPTOR_TO_LEARNER].
Definition is_add_member_list t : bool := is_add_log_sync_member_list t || type_in t [ADD_ARB_MEMBER].
Definition is_remove_member_list t : bool := is_remove_log_sync_member_list t || type_in t [REMOVE_ARB_MEMBER].
Definition is_arb_member_change_type t : bool := type_in t [ADD_ARB_MEMBER; REMOVE_ARB_MEMBER].
Definition is_add_learner_list t : bool :=
  type_in t [ADD_LEARNER; SWITCH_ACCEPTOR_TO_LEARNER; DEGRADE_ACCEPTOR_TO_LEARNER; REPLACE_LEARNERS].
Definition is_remove_learner_list t : bool :=
  type_in t [REMOVE_LEARNER; SWITCH_LEARNER_TO_ACCEPTOR; UPGRADE_LEARNER_TO_ACCEPTOR; SWITCH_LEARNER_TO_ACCEPTOR_AND_NUM;
             REPLACE_LEARNERS].
Definition is_use_replica_num_args t : bool :=
  type_in t [ADD_MEMBER; REMOVE_MEMBER; CHANGE_REPLICA_NUM; FORCE_SINGLE_MEMBER; SWITCH_LEARNER_TO_ACCEPTOR;
             SWITCH_ACCEPTOR_TO_LEARNER; FORCE_SET_MEMBER_LIST].
Definition need_exec_on_leader_ t : bool := negb (type_in t [FORCE_SINGLE_MEMBER; FORCE_SET_MEMBER_LIST]).
Definition is_may_change_replica_num t : bool :=
  is_add_member_list t || is_remove_member_list t || type_in t [CHANGE_REPLICA_NUM; FORCE_SINGLE_MEMBER; FORCE_SET_MEMBER_LIST].
Definition is_paxos_member_list_change t : bool :=
  type_in t [ADD_MEMBER; REMOVE_MEMBER; ADD_MEMBER_AND_NUM; REMOVE_MEMBER_AND_NUM; SWITCH_LEARNER_TO_ACCEPTOR;
             SWITCH_ACCEPTOR_TO_LEARNER; CHANGE_REPLICA_NUM; SWITCH_LEARNER_TO_ACCEPTOR_AND_NUM].

Record LogConfigChangeArgs : Set := mkArgs {
  a_server_ : ObMember;
  a_curr_member_list_ : ObMemberList;
  a_curr_replica_num_ : Z;
  a_new_replica_num_ : Z;
  a_config_version_ : LogConfigVersion;
  a_lock_owner_ : Z;
  a_lock_type_ : Z;
  a_type_ : LogConfigChangeType;
  a_added_list_ : ObMemberList;
  a_removed_list_ : ObMemberList;
  a_new_member_list_ : ObMemberList
}.
(** The constructor for a server, a number of replicas and a type; and the reset arguments. *)
Definition server_args (server : ObMember) (new_replica_num : Z) (config_version : LogConfigVersion) (t : LogConfigChangeType) :=
  mkArgs server [] 0 new_replica_num config_version OB_INVALID_CONFIG_CHANGE_LOCK_OWNER LOCK_NOTHING t [] [] [].
Definition no_args : LogConfigChangeArgs := server_args no_member 0 no_version INVALID_LOG_CONFIG_CHANGE_TYPE.
Definition args_is_valid (a : LogConfigChangeArgs) : bool :=
  let t := a_type_ a in
  negb (type_in t [INVALID_LOG_CONFIG_CHANGE_TYPE])
  && (if is_add_member_list t || is_remove_member_list t || is_add_learner_list t || is_remove_learner_list t
      then member_is_valid (a_server_ a) || (list_is_valid (a_added_list_ a) && list_is_valid (a_removed_list_ a)) else true)
  && (if is_use_replica_num_args t then num_ok (a_new_replica_num_ a) else true)
  && (if type_in t [CHANGE_REPLICA_NUM]
      then list_is_valid (a_curr_member_list_ a) && num_ok (a_curr_replica_num_ a) && num_ok (a_new_replica_num_ a) else true)
  && (if type_in t [TRY_LOCK_CONFIG_CHANGE; UNLOCK_CONFIG_CHANGE]
      then negb (OB_INVALID_CONFIG_CHANGE_LOCK_OWNER =? a_lock_owner_ a) else true).

(** ** The next configuration *)

Definition set_members (ml : ObMemberList) (c : LogConfigInfo) : LogConfigInfo :=
  mkConfig ml (log_sync_replica_num_ c) (arbitration_member_ c) (learnerlist_ c) (degraded_learnerlist_ c) (config_version_ c).
Definition set_num (num : Z) (c : LogConfigInfo) : LogConfigInfo :=
  mkConfig (log_sync_memberlist_ c) num (arbitration_member_ c) (learnerlist_ c) (degraded_learnerlist_ c) (config_version_ c).
Definition set_arb (m : ObMember) (c : LogConfigInfo) : LogConfigInfo :=
  mkConfig (log_sync_memberlist_ c) (log_sync_replica_num_ c) m (learnerlist_ c) (degraded_learnerlist_ c) (config_version_ c).
Definition set_learners (l : list ObMember) (c : LogConfigInfo) : LogConfigInfo :=
  mkConfig (log_sync_memberlist_ c) (log_sync_replica_num_ c) (arbitration_member_ c) l (degraded_learnerlist_ c) (config_version_ c).
Definition set_degraded (l : list ObMember) (c : LogConfigInfo) : LogConfigInfo :=
  mkConfig (log_sync_memberlist_ c) (log_sync_replica_num_ c) (arbitration_member_ c) (learnerlist_ c) l (config_version_ c).
Definition set_config_version (v : LogConfigVersion) (c : LogConfigInfo) : LogConfigInfo :=
  mkConfig (log_sync_memberlist_ c) (log_sync_replica_num_ c) (arbitration_member_ c) (learnerlist_ c) (degraded_learnerlist_ c) v.
Definition with_config (f : LogConfigInfo → LogConfigInfo) (i : LogConfigInfoV2) : LogConfigInfoV2 :=
  mkInfo (info_version_ i) (f (config_ i)) (lock_meta_ i).

Definition MIGRATING_FLAG_BIT : Z := 1.
Definition reset_migrating (m : ObMember) : ObMember :=
  mkMember (server_ m) (timestamp_ m) (Z.land (flag_ m) (Z.lnot (Z.shiftl 1 MIGRATING_FLAG_BIT))).

(** The number of log-sync replicas; the code is that of the branch for an unknown type. *)
Definition new_replica_num (a : LogConfigChangeArgs) (c : LogConfigInfo) : Z * Z :=
  let t := a_type_ a in
  let num := log_sync_replica_num_ c in
  if is_may_change_replica_num t then
    let is_remove_degraded_learner := is_remove_log_sync_member_list t && learner_contains (a_server_ a) (degraded_learnerlist_ c) in
    let '(rc, new_num) :=
      if is_use_replica_num_args t then
        let degraded_cnt := Z.of_nat (length (degraded_learnerlist_ c)) in
        (OB_SUCCESS, a_new_replica_num_ a - (if is_remove_degraded_learner then degraded_cnt - 1 else degraded_cnt))
      else if is_add_log_sync_member_list t then (OB_SUCCESS, num + 1)
      else if is_remove_log_sync_member_list t && is_remove_degraded_learner then (OB_SUCCESS, num)
      else if is_remove_log_sync_member_list t && negb is_remove_degraded_learner then (OB_SUCCESS, num - 1)
      else if is_arb_member_change_type t then (OB_SUCCESS, num)
      else (OB_ERR_UNEXPECTED, num) in
    if negb (ob_failed rc) && is_remove_degraded_learner && (get_member_number (log_sync_memberlist_ c) * 2 =? new_num)
    then (rc, num) else (rc, new_num)
  else (OB_SUCCESS, num).

Definition add_to_members (a : LogConfigChangeArgs) (c : LogConfigInfo) : Z * LogConfigInfo :=
  if is_add_member_list (a_type_ a) then
    if is_add_log_sync_member_list (a_type_ a) then
      let '(rc, ml) := add_member (reset_migrating (a_server_ a)) (log_sync_memberlist_ c) in (rc, set_members ml c)
    else (OB_SUCCESS, set_arb (a_server_ a) c)
  else (OB_SUCCESS, c).
Definition remove_from_members (a : LogConfigChangeArgs) (c : LogConfigInfo) : Z * LogConfigInfo :=
  let member := a_server_ a in
  if is_remove_member_list (a_type_ a) then
    if is_remove_log_sync_member_list (a_type_ a) then
      if contains_member member (log_sync_memberlist_ c) then
        let '(rc, ml) := remove_server (server_ member) (log_sync_memberlist_ c) in (rc, set_members ml c)
      else if learner_contains member (degraded_learnerlist_ c) then
        let '(rc, l) := remove_learner_member member (degraded_learnerlist_ c) in (rc, set_degraded l c)
      else (OB_INVALID_ARGUMENT, c)
    else (OB_SUCCESS, set_arb no_member c)
  else (OB_SUCCESS, c).

(** The loops over [added_list_] and [removed_list_]. *)
Fixpoint add_all (src l : list ObMember) : Z * list ObMember :=
  match src with
  | [] => (OB_SUCCESS, l)
  | m :: src =>
      let '(rc, l) := add_learner m l in
      if ob_failed rc && negb (OB_ENTRY_EXIST =? rc) then (rc, l) else add_all src l
  end.
Fixpoint remove_all (src l : list ObMember) : Z * list ObMember :=
  match src with
  | [] => (OB_SUCCESS, l)
  | m :: src =>
      let '(rc, l) := remove_learner_member m l in
      if ob_failed rc && negb (OB_ENTRY_NOT_EXIST =? rc) then (rc, l) else remove_all src l
  end.
Definition add_to_learners (a : LogConfigChangeArgs) (c : LogConfigInfo) : Z * LogConfigInfo :=
  let t := a_type_ a in
  if is_add_learner_list t then
    if type_in t [DEGRADE_ACCEPTOR_TO_LEARNER] then
      let '(rc, l) := add_learner (a_server_ a) (degraded_learnerlist_ c) in (rc, set_degraded l c)
    else
      let '(rc, l) := if type_in t [REPLACE_LEARNERS] then add_all (a_added_list_ a) (learnerlist_ c)
                      else add_learner (a_server_ a) (learnerlist_ c) in
      (rc, set_learners l c)
  else (OB_SUCCESS, c).
Definition remove_from_learners (a : LogConfigChangeArgs) (c : LogConfigInfo) : Z * LogConfigInfo :=
  let t := a_type_ a in
  if is_remove_learner_list t then
    if type_in t [UPGRADE_LEARNER_TO_ACCEPTOR] then
      let '(rc, l) := remove_learner_member (a_server_ a) (degraded_learnerlist_ c) in (rc, set_degraded l c)
    else
      let '(rc, l) := if type_in t [REPLACE_LEARNERS] then remove_all (a_removed_list_ a) (learnerlist_ c)
                      else remove_learner_member (a_server_ a) (learnerlist_ c) in
      (rc, set_learners l c)
  else (OB_SUCCESS, c).
Definition change_lock (now : Z) (a : LogConfigChangeArgs) (k : LogLockMeta) : Z * LogLockMeta :=
  match a_type_ a with
  | TRY_LOCK_CONFIG_CHANGE => lock_generate now (a_lock_owner_ a) (a_lock_type_ a) k
  | UNLOCK_CONFIG_CHANGE => (OB_SUCCESS, unlock now k)
  | _ => (OB_SUCCESS, k)
  end.
Definition force (a : LogConfigChangeArgs) (c : LogConfigInfo) : LogConfigInfo :=
  match a_type_ a with
  | FORCE_SINGLE_MEMBER =>
      mkConfig (snd (add_member (a_server_ a) [])) (a_new_replica_num_ a) no_member (learnerlist_ c) [] (config_version_ c)
  | FORCE_SET_MEMBER_LIST =>
      mkConfig (a_new_member_list_ a) (a_new_replica_num_ a) no_member (learnerlist_ c) [] (config_version_ c)
  | _ => c
  end.

(** [generate_new_config_info_] for the current configuration [curr]; [now] is the clock as
    the lock reads it. *)
Definition generate_new_config_info (now proposal_id : Z) (a : LogConfigChangeArgs) (curr : LogConfigInfoV2) : Z * LogConfigInfoV2 :=
  if (INVALID_PROPOSAL_ID =? proposal_id) || negb (args_is_valid a) then (OB_INVALID_ARGUMENT, curr)
  else
    let '(rc, v) := inc_update_version proposal_id (version_of curr) in
    if ob_failed rc then (rc, curr)
    else
      let i := with_config (set_config_version v) curr in
      if type_in (a_type_ a) [STARTWORKING] then (OB_SUCCESS, i)
      else
        let c0 := config_ i in
        let '(rc, num) := new_replica_num a c0 in
        if ob_failed rc then (rc, i)
        else
          let '(rc, c1) := add_to_members a c0 in
          if ob_failed rc then (rc, with_config (λ _, c1) i)
          else
            let '(rc, c2) := remove_from_members a c1 in
            if ob_failed rc then (rc, with_config (λ _, c2) i)
            else
              let '(rc, c3) := add_to_learners a c2 in
              if ob_failed rc then (rc, with_config (λ _, c3) i)
              else
                let '(rc, c4) := remove_from_learners a c3 in
                if ob_failed rc then (rc, with_config (λ _, c4) i)
                else
                  let '(rc, k) := change_lock now a (lock_meta_ i) in
                  if ob_failed rc then (rc, mkInfo (info_version_ i) c4 k)
                  else
                    let new := mkInfo (info_version_ i) (force a (set_num num c4)) k in
                    (if info_is_valid new then OB_SUCCESS else OB_INVALID_ARGUMENT, new).
(** The constraints on the length of a member list and its number of replicas. *)
Definition can_memberlist_majority_ (new_member_list_len new_replica_num : Z) : bool :=
  if new_replica_num <? new_member_list_len then false
  else negb (new_member_list_len <? Z.quot new_replica_num 2 + 1).
End LogConfigMeta.
