(* ===== verification/ConfigChange.v ===== *)
(** What a change of configuration does to the members ([LogConfigMeta]): the member list,
    the number of replicas and the arbitration member after a change as functions of those
    before it, the living members as a set, and why majorities before and after meet. *)
From S2P Require Import Prelude Scn Lsn MemberList SimpleMemberList LogReconfirm LogModeMgr LogConfigMeta.
Import MemberList LogConfigMeta.

Module ConfigChange.
Implicit Types (a : LogConfigChangeArgs) (c : LogConfigInfo) (i : LogConfigInfoV2).

(** * The effect of a change *)
Definition next_members a c : ObMemberList :=
  let t := a_type_ a in
  if is_add_log_sync_member_list t then snd (add_member (reset_migrating (a_server_ a)) (log_sync_memberlist_ c))
  else if is_remove_log_sync_member_list t then
    if contains_member (a_server_ a) (log_sync_memberlist_ c)
    then snd (remove_server (server_ (a_server_ a)) (log_sync_memberlist_ c)) else log_sync_memberlist_ c
  else if type_in t [FORCE_SINGLE_MEMBER] then snd (add_member (a_server_ a) [])
  else if type_in t [FORCE_SET_MEMBER_LIST] then a_new_member_list_ a
  else log_sync_memberlist_ c.
Definition next_num a c : Z :=
  if need_exec_on_leader_ (a_type_ a) then snd (new_replica_num a c) else a_new_replica_num_ a.
Definition next_arb a c : ObMember :=
  if type_in (a_type_ a) [ADD_ARB_MEMBER] then a_server_ a
  else if type_in (a_type_ a) [REMOVE_ARB_MEMBER] || negb (need_exec_on_leader_ (a_type_ a)) then no_member
  else arbitration_member_ c.

(** Evaluate the tests of a known type. *)
Ltac types :=
  repeat match goal with
    | H : context [type_in ?t ?l] |- _ => let b := eval vm_compute in (type_in t l) in
        lazymatch b with true => idtac | false => idtac end; change (type_in t l) with b in H
    | |- context [type_in ?t ?l] => let b := eval vm_compute in (type_in t l) in
        lazymatch b with true => idtac | false => idtac end; change (type_in t l) with b
    end.
Ltac unfold_types :=
  unfold need_check_config_version, is_may_change_replica_num, is_add_member_list, is_remove_member_list, is_add_log_sync_member_list,
    is_remove_log_sync_member_list, is_arb_member_change_type, is_add_learner_list, is_remove_learner_list,
    is_use_replica_num_args, need_exec_on_leader_, is_paxos_member_list_change in *.

Record effect a c c' : Prop := {
  eff_members : log_sync_memberlist_ c' = next_members a c;
  eff_num : log_sync_replica_num_ c' = next_num a c;
  eff_arb : arbitration_member_ c' = next_arb a c
}.

Lemma add_to_learners_keeps a c c' rc :
  add_to_learners a c = (rc, c') →
  log_sync_memberlist_ c' = log_sync_memberlist_ c ∧ arbitration_member_ c' = arbitration_member_ c ∧ config_version_ c' = config_version_ c.
Proof. unfold add_to_learners. intros Hl. repeat case_match; by simplify_eq. Qed.
Lemma remove_from_learners_keeps a c c' rc :
  remove_from_learners a c = (rc, c') →
  log_sync_memberlist_ c' = log_sync_memberlist_ c ∧ arbitration_member_ c' = arbitration_member_ c ∧ config_version_ c' = config_version_ c.
Proof. unfold remove_from_learners. intros Hl. repeat case_match; by simplify_eq. Qed.

(** The member list before the forced types and the number are set. *)
Lemma member_steps a c c1 c2 :
  need_exec_on_leader_ (a_type_ a) = true →
  add_to_members a c = (OB_SUCCESS, c1) → remove_from_members a c1 = (OB_SUCCESS, c2) →
  log_sync_memberlist_ c2 = next_members a c ∧ arbitration_member_ c2 = next_arb a c ∧ config_version_ c2 = config_version_ c.
Proof.
  unfold add_to_members, remove_from_members, next_members, next_arb. intros Hn H1 H2. unfold_types.
  destruct (a_type_ a); types; cbn [orb negb] in *; simplify_eq; try done; simplify_eq/=; try done.
  all: repeat (case_match; simplify_eq/=; try done).
Qed.

Lemma gen_inv now pid a cur i :
  generate_new_config_info now pid a cur = (OB_SUCCESS, i) →
  effect a (config_ cur) (config_ i) ∧ inc_update_version pid (version_of cur) = (OB_SUCCESS, version_of i).
Proof.
  unfold generate_new_config_info. destruct (_ || _); [done|].
  destruct (inc_update_version pid (version_of cur)) as [rc v] eqn:Ev. destruct (ob_failed rc) eqn:Er; [intros; simplify_eq; done|].
  apply negb_false_iff, Z.eqb_eq in Er as ->.
  destruct (type_in (a_type_ a) [STARTWORKING]) eqn:Es.
  { intros. simplify_eq/=. split; [|done]. apply bool_decide_eq_true, list_elem_of_singleton in Es.
    split; cbn; unfold next_members, next_num, next_arb, new_replica_num; unfold_types; rewrite Es; by types. }
  destruct (new_replica_num a _) as [rc num] eqn:Enum. destruct (ob_failed rc) eqn:?; [intros; simplify_eq; done|].
  destruct (add_to_members a _) as [rc1 c1] eqn:E1. destruct (ob_failed rc1) eqn:Er1; [intros; simplify_eq; done|].
  destruct (remove_from_members a _) as [rc2 c2] eqn:E2. destruct (ob_failed rc2) eqn:Er2; [intros; simplify_eq; done|].
  destruct (add_to_learners a _) as [rc3 c3] eqn:E3. destruct (ob_failed rc3) eqn:Er3; [intros; simplify_eq; done|].
  destruct (remove_from_learners a _) as [rc4 c4] eqn:E4. destruct (ob_failed rc4) eqn:Er4; [intros; simplify_eq; done|].
  destruct (change_lock now a _) as [rc5 k]. destruct (ob_failed rc5) eqn:Er5; [intros; simplify_eq; done|].
  intros Ei. simplify_eq.
  apply negb_false_iff, Z.eqb_eq in Er1 as ->. apply negb_false_iff, Z.eqb_eq in Er2 as ->.
  apply add_to_learners_keeps in E3 as (A1 & A2 & A3). apply remove_from_learners_keeps in E4 as (B1 & B2 & B3).
  destruct (need_exec_on_leader_ (a_type_ a)) eqn:Hn.
  - destruct (member_steps a _ _ _ Hn E1 E2) as (M1 & M2 & M3).
    assert (force a (set_num num c4) = set_num num c4) as Ef.
    { unfold force. unfold need_exec_on_leader_ in Hn. by destruct (a_type_ a). }
    cbn [config_]. unfold version_of in Ev |- *. cbn [config_]. rewrite Ef. split; [|cbn; by rewrite B3, A3, M3].
    split; cbn; [rewrite B1, A1, M1; done| |rewrite B2, A2, M2; done].
    unfold next_num. rewrite Hn. change (new_replica_num a (config_ cur)) with (new_replica_num a (set_config_version v (config_ cur))).
    cbn in Enum. by rewrite Enum.
  - unfold add_to_members, remove_from_members, force, version_of in *.
    unfold_types. destruct (a_type_ a) eqn:Et; types; cbn [negb orb] in *; try done; simplify_eq/=; (split; [|congruence]).
    all: split; cbn; unfold next_members, next_num, next_arb; unfold_types; rewrite Et; by types.
Qed.

(** * The living members *)
Definition living (c : LogConfigInfo) : gset (list Z) :=
  dom (members (log_sync_memberlist_ c))
  ∪ (if member_is_valid (arbitration_member_ c) then {[key (arbitration_member_ c)]} else ∅).
Definition living_num (c : LogConfigInfo) : Z :=
  log_sync_replica_num_ c + (if member_is_valid (arbitration_member_ c) then 1 else 0).

(** A configuration a leader works with. *)
Record good (self : ObAddr) (c : LogConfigInfo) : Prop := {
  good_wf : wf (log_sync_memberlist_ c);
  good_self : contains self (log_sync_memberlist_ c) = true;
  good_num : get_member_number (log_sync_memberlist_ c) ≤ log_sync_replica_num_ c;
  good_arb_wf : wf_addr (server_ (arbitration_member_ c));
  good_arb : member_is_valid (arbitration_member_ c) = true → contains (server_ (arbitration_member_ c)) (log_sync_memberlist_ c) = false
}.

(** More than half. *)
Definition majority_of (U : gset (list Z)) (n : Z) (Q : gset (list Z)) : Prop := Q ⊆ U ∧ Z.quot n 2 < Z.of_nat (size Q).

(** Two sets of which one is the other with at most one server more. *)
Definition near (U V : gset (list Z)) : Prop := ∃ k, (U ⊆ V ∧ V ⊆ {[k]} ∪ U) ∨ (V ⊆ U ∧ U ⊆ {[k]} ∪ V).

Lemma size_one_more (U V : gset (list Z)) k : V ⊆ {[k]} ∪ U → (size V ≤ size U + 1)%nat.
Proof.
  intros Hs%subseteq_size. rewrite size_union_alt, size_singleton in Hs.
  assert (U ∖ {[k]} ⊆ U) as Hd%subseteq_size by apply subseteq_difference_l, reflexivity. lia.
Qed.

Lemma near_meet U V n n' Q Q' :
  near U V → Z.of_nat (size U) ≤ n → Z.of_nat (size V) ≤ n' → majority_of U n Q → majority_of V n' Q' → ∃ s, s ∈ Q ∧ s ∈ Q'.
Proof.
  intros [k Hn] Hu Hv [HQ Hq] [HQ' Hq'].
  assert (0 ≤ Z.rem n 2 < 2) by (apply Z.rem_bound_pos; lia). assert (0 ≤ Z.rem n' 2 < 2) by (apply Z.rem_bound_pos; lia).
  pose proof (Z.quot_rem' n 2). pose proof (Z.quot_rem' n' 2).
  destruct Hn as [[Hs Hz%size_one_more]|[Hs Hz%size_one_more]].
  - apply (sets_meet Q Q' V); [by transitivity U|done|lia].
  - apply (sets_meet Q Q' U); [done|by transitivity V|lia].
Qed.

Lemma near_refl U : near U U.
Proof. exists []. left. split; [done|apply union_subseteq_r]. Qed.
Lemma near_add U k : near U ({[k]} ∪ U).
Proof. exists k. left. split; [apply union_subseteq_r|done]. Qed.
Lemma near_del U k : near U (U ∖ {[k]}).
Proof.
  exists k. right. split; [apply subseteq_difference_l, reflexivity|]. intros x Hx.
  apply elem_of_union. destruct (decide (x = k)) as [->|]; [left; by apply elem_of_singleton|right].
  apply elem_of_difference. by rewrite elem_of_singleton.
Qed.
Lemma near_union (U V A : gset (list Z)) : near U V → near (U ∪ A) (V ∪ A).
Proof.
  intros [k Hn]. exists k. rewrite !(union_assoc_L {[k]}).
  destruct Hn as [[H1 H2]|[H1 H2]]; [left|right]; (split; [by apply union_mono_r|by apply union_mono_r]).
Qed.

(** * One server at a time *)
Lemma contains_dom server ml : wf ml → wf_addr server → contains server ml = true ↔ code server ∈ dom (members ml).
Proof. intros Hw Ha. rewrite contains_members by done. by rewrite bool_decide_eq_true, elem_of_dom. Qed.

Lemma size_living self c : good self c → Z.of_nat (size (living c)) ≤ living_num c.
Proof.
  intros Hg. pose proof (good_num _ _ Hg) as Hn. rewrite <- size_members, <- size_dom in Hn by apply Hg.
  unfold living, living_num. rewrite union_comm_L. destruct (member_is_valid _).
  - pose proof (size_one_more (dom (members (log_sync_memberlist_ c))) _ (key (arbitration_member_ c)) (reflexivity _)). lia.
  - rewrite union_empty_l_L. lia.
Qed.

Lemma next_members_near a self c :
  good self c → need_exec_on_leader_ (a_type_ a) = true → wf_addr (server_ (a_server_ a)) →
  wf (next_members a c) ∧ near (dom (members (log_sync_memberlist_ c))) (dom (members (next_members a c))) ∧
  (is_remove_log_sync_member_list (a_type_ a) && addr_eqb self (server_ (a_server_ a)) = false → wf_addr self →
   contains self (next_members a c) = true).
Proof.
  intros Hg Hn Ha. pose proof (good_wf _ _ Hg) as Hw. pose proof (good_self _ _ Hg) as Hs. unfold next_members.
  destruct (is_add_log_sync_member_list (a_type_ a)) eqn:Ea.
  { pose proof (add_member_spec (reset_migrating (a_server_ a)) _ Hw Ha) as Hm. destruct (add_member _ _) as [rc ml].
    destruct Hm as (Hw' & _ & Hm). cbn [snd]. split; [done|].
    destruct (ob_failed rc); rewrite Hm, ?dom_insert_L; (split; [apply near_refl || apply near_add|]); intros _ Hself.
    all: apply contains_dom; [done|done|]; apply contains_dom in Hs; [|done|done]; rewrite Hm; try done.
    rewrite dom_insert_L. by apply elem_of_union_r. }
  destruct (is_remove_log_sync_member_list (a_type_ a)) eqn:Er.
  { destruct (contains_member _ _); [|split; [done|split; [apply near_refl|done]]].
    pose proof (remove_server_spec (server_ (a_server_ a)) _ Hw Ha) as Hm. destruct (remove_server _ _) as [rc ml].
    destruct Hm as (Hw' & _ & Hm). cbn [snd andb]. split; [done|].
    destruct (ob_failed rc); rewrite Hm, ?dom_delete_L; (split; [apply near_refl || apply near_del|]); intros Hne Hself.
    all: apply contains_dom; [done|done|]; apply contains_dom in Hs; [|done|done]; rewrite Hm; try done.
    rewrite dom_delete_L. apply elem_of_difference. split; [done|]. rewrite elem_of_singleton. intros E.
    apply addr_eqb_code in E; [congruence|done|done]. }
  unfold need_exec_on_leader_ in Hn. destruct (a_type_ a); types; cbn [negb] in Hn; try done; split_and!; try done; apply near_refl.
Qed.

(** The test that lets no second arbitration member in. *)
Definition one_arb a c : Prop := a_type_ a = ADD_ARB_MEMBER → member_is_valid (arbitration_member_ c) = false.

Lemma next_living_near a self c c' :
  good self c → need_exec_on_leader_ (a_type_ a) = true → wf_addr (server_ (a_server_ a)) → one_arb a c → effect a c c' →
  near (living c) (living c').
Proof.
  intros Hg Hn Ha Ho [E1 _ E3]. destruct (next_members_near a self c Hg Hn Ha) as (_ & Hnear & _).
  unfold living. rewrite E1, E3. unfold next_arb. rewrite Hn. cbn [negb]. rewrite orb_false_r.
  destruct (type_in (a_type_ a) [ADD_ARB_MEMBER]) eqn:Et.
  { apply bool_decide_eq_true, list_elem_of_singleton in Et. rewrite (Ho Et).
    unfold next_members. unfold_types. rewrite Et. types. cbn iota. rewrite union_empty_r_L.
    destruct (member_is_valid _); [rewrite union_comm_L; apply near_add|rewrite union_empty_r_L; apply near_refl]. }
  destruct (type_in (a_type_ a) [REMOVE_ARB_MEMBER]) eqn:Et'; [|by apply near_union].
  apply bool_decide_eq_true, list_elem_of_singleton in Et'. unfold next_members. unfold_types. rewrite Et'. types. cbn iota.
  change (member_is_valid no_member) with false. cbn iota. rewrite union_empty_r_L.
  destruct (member_is_valid _); [|rewrite union_empty_r_L; apply near_refl].
  exists (key (arbitration_member_ c)). right. split; [apply union_subseteq_l|by rewrite union_comm_L].
Qed.

(** * The complete configuration *)

(** A list of learners as adding one after the other builds it. *)
Definition built (l : list ObMember) : Prop := ∀ l1 x l2, l = l1 ++ x :: l2 → add_learner x l1 = (OB_SUCCESS, l1 ++ [x]).

Lemma built_nil : built [].
Proof. by intros [|] x l2 E. Qed.
Lemma built_add x l l' : built l → add_learner x l = (OB_SUCCESS, l') → built l'.
Proof.
  intros Hb Ha. assert (l' = l ++ [x]) as ->.
  { unfold LogModeMgr.add_learner in Ha. repeat case_match; by simplify_eq. }
  intros l1 y l2 E. destruct l2 as [|z l2 _] using rev_ind.
  - by apply app_inj_tail in E as [-> ->].
  - rewrite app_comm_cons, app_assoc in E. apply app_inj_tail in E as [-> _]. by eapply Hb.
Qed.
Lemma append_built src dst l : built dst → append_learners src dst = (OB_SUCCESS, l) → built l.
Proof.
  revert dst. induction src as [|x src IH]; intros dst Hb E; simpl in E; [by simplify_eq|].
  destruct (LogModeMgr.add_learner _ x dst) as [rc d] eqn:Ea. destruct (ob_failed rc) eqn:Ef; [simplify_eq; done|].
  apply ob_failed_false in Ef as ->. eapply IH; [by eapply built_add|done].
Qed.
Lemma append_again src dst : built (dst ++ src) → append_learners src dst = (OB_SUCCESS, dst ++ src).
Proof.
  revert dst. induction src as [|x src IH]; intros dst Hb; simpl; [by rewrite app_nil_r|].
  rewrite (Hb dst x src eq_refl). change (ob_failed OB_SUCCESS) with false. cbn iota.
  replace (dst ++ x :: src) with ((dst ++ [x]) ++ src) in Hb |- * by (by rewrite <- app_assoc). by apply IH.
Qed.

Lemma convert_copy c ml num ls :
  convert_to_complete_config c = (OB_SUCCESS, (ml, num, ls)) → deep_copy_learners ls = (OB_SUCCESS, ls).
Proof.
  unfold convert_to_complete_config. destruct (_ || _); [done|].
  destruct (deep_copy_learners _) as [rc l1] eqn:E1. destruct (ob_failed rc) eqn:Er; [intros; simplify_eq; done|].
  apply ob_failed_false in Er as ->. destruct (append_learners _ l1) as [rc l2] eqn:E2.
  destruct (ob_failed rc) eqn:Er; [intros; simplify_eq; done|]. apply ob_failed_false in Er as ->.
  assert (deep_copy_learners l2 = (OB_SUCCESS, l2)) as Hd.
  { apply append_again. eapply append_built; [|exact E2]. eapply append_built; [apply built_nil|exact E1]. }
  destruct (member_is_valid _); [|by intros; simplify_eq]. destruct (add_member _ _) as [rc ml'].
  destruct (ob_failed rc) eqn:Er; intros; by simplify_eq.
Qed.

(** The list of living members is that of the set, its length bounded by their number. *)
Lemma convert_spec c ml num ls :
  wf (log_sync_memberlist_ c) → wf_addr (server_ (arbitration_member_ c)) →
  convert_to_complete_config c = (OB_SUCCESS, (ml, num, ls)) →
  wf ml ∧ dom (members ml) = living c ∧ num = living_num c ∧
  (member_is_valid (arbitration_member_ c) = true → contains (server_ (arbitration_member_ c)) (log_sync_memberlist_ c) = false).
Proof.
  intros Hw Ha. unfold convert_to_complete_config, living, living_num. destruct (_ || _); [done|].
  destruct (deep_copy_learners _) as [rc l1]. destruct (ob_failed rc) eqn:Er; [intros; simplify_eq; done|].
  destruct (append_learners _ l1) as [rc2 l2]. destruct (ob_failed rc2) eqn:Er2; [intros; simplify_eq; done|].
  destruct (member_is_valid _) eqn:Ev.
  - pose proof (add_member_spec _ _ Hw Ha) as Hs. destruct (add_member _ _) as [rc3 ml'].
    destruct Hs as (Hw' & Hrc & Hm). destruct (ob_failed rc3) eqn:Er3.
    { intros [= E]. by rewrite E in Er3. }
    apply ob_failed_false in Er3. rewrite Er3 in Hrc. intros [= <- <- <-]. split_and!; [done| |done|].
    + rewrite Hm, dom_insert_L. apply union_comm_L.
    + intros _. rewrite Ev in Hrc. cbn [negb] in Hrc. rewrite contains_members by done. apply bool_decide_eq_false.
      destruct (_ <=? _); [done|]. unfold key in Hrc. destruct (members _ !! code _); [done|]. by intros [].
  - intros. simplify_eq. split_and!; [done|by rewrite union_empty_r_L|lia|done].
Qed.

Lemma effect_unique a c c1 c2 : effect a c c1 → effect a c c2 →
  log_sync_memberlist_ c1 = log_sync_memberlist_ c2 ∧ log_sync_replica_num_ c1 = log_sync_replica_num_ c2 ∧
  arbitration_member_ c1 = arbitration_member_ c2.
Proof. intros [] []. split_and!; congruence. Qed.

(** * Well-formed data *)
Definition seq_ok (v : LogConfigVersion) : Prop := v_seq v < 2 ^ 63.
Record config_wf (c : LogConfigInfo) : Prop := {
  cwf_members : wf (log_sync_memberlist_ c);
  cwf_arb : wf_addr (server_ (arbitration_member_ c));
  cwf_seq : seq_ok (config_version_ c)
}.
Record args_wf a : Prop := { awf_server : wf_addr (server_ (a_server_ a)); awf_members : wf (a_new_member_list_ a) }.

Lemma member_added_wf x ml : wf ml → wf_addr (server_ x) → wf (snd (add_member x ml)).
Proof. intros Hw Ha. pose proof (add_member_spec x ml Hw Ha) as Hs. destruct (add_member x ml). apply Hs. Qed.
Lemma remove_server_wf x ml : wf ml → wf_addr x → wf (snd (remove_server x ml)).
Proof. intros Hw Ha. pose proof (remove_server_spec x ml Hw Ha) as Hs. destruct (remove_server x ml). apply Hs. Qed.

Lemma gen_wf now pid a cur i :
  args_wf a → config_wf (config_ cur) → generate_new_config_info now pid a cur = (OB_SUCCESS, i) → config_wf (config_ i).
Proof.
  intros [Ha1 Ha2] [Hm Hb _] [[E1 _ E3] Ev]%gen_inv. split.
  - rewrite E1. unfold next_members. repeat case_match; auto using member_added_wf, remove_server_wf, wf_nil.
  - rewrite E3. unfold next_arb. by repeat case_match.
  - revert Ev. unfold inc_update_version. destruct (_ || _); [done|]. destruct (_ || _); [done|]. intros [= Ev].
    unfold version_of in Ev. rewrite <- Ev. apply (Scn.s64_range (v_seq (config_version_ (config_ cur)) + 1)).
Qed.

(** * Versions are ordered *)
Definition version_le (v w : LogConfigVersion) : Prop :=
  version_is_valid v = false ∨
  version_is_valid w = true ∧ (v_pid v < v_pid w ∨ v_pid v = v_pid w ∧ v_seq v ≤ v_seq w).
#[export] Instance version_le_preorder : PreOrder version_le.
Proof.
  split.
  - intros v. destruct (version_is_valid v) eqn:E; [right; split; [done|lia]|by left].
  - intros v w x [?|[Hw ?]] [E|[Hx ?]]; [by left|by left|congruence|right; split; [done|lia]].
Qed.
Lemma not_gtb_le v w : version_is_valid w = true → version_gtb v w = false → version_le v w.
Proof.
  intros Hw. unfold version_gtb. destruct (version_is_valid v) eqn:Hv; [|by left]. rewrite Hw. cbn [andb]. intros Hg. right. split; [done|]. lia.
Qed.
Lemma gtb_le v w : version_gtb v w = true → version_le w v.
Proof.
  unfold version_gtb. destruct (version_is_valid v) eqn:Hv; [|done]. destruct (version_is_valid w) eqn:Hw; [|by left].
  cbn [andb]. intros Hg. right. split; [done|]. lia.
Qed.
Lemma inc_le pid v w : seq_ok v → inc_update_version pid v = (OB_SUCCESS, w) → version_is_valid w = true → version_le v w.
Proof.
  unfold inc_update_version, seq_ok. intros Hs.
  destruct ((INVALID_PROPOSAL_ID =? v_pid v) || (v_seq v <? 0)) eqn:E1; [done|].
  destruct ((INVALID_PROPOSAL_ID =? pid) || (pid <? v_pid v)) eqn:E2; [done|].
  intros [= Ew] Hv. subst w. right. split; [done|]. unfold version_is_valid in Hv. cbn [LogReconfirm.proposal_id_ LogReconfirm.config_seq_] in *.
  destruct (decide (v_seq v + 1 < 2 ^ 63)) as [Hlt|Hge].
  - assert (s64 (v_seq v + 1) = v_seq v + 1) as -> by (apply wraps_small; [lia|]; unfold in_s; change (64 - 1) with 63; lia). lia.
  - assert (s64 (v_seq v + 1) = - 2 ^ 63) as E; [|rewrite E in Hv; lia]. replace (v_seq v + 1) with (2 ^ 63) by lia. by vm_compute.
Qed.
End ConfigChange.
