(* ===== verification/LogConfigMgr.v ===== *)
(** [LogConfigMgr] of [src/logservice/palf/log_config_mgr.cpp]: how a leader changes the
    members, the learners and the number of replicas of a group, how followers take the
    change, and how a new leader writes its start-working log as such a change.  A change is
    appended (state [CHANGING]), sent to the members of the new configuration with the
    position of the log it has to come after, and finished when a majority of them has
    acknowledged it.

    The objects it calls are the interface [Peers]; a call reads and changes their common
    state, and so does a reading of the clock.  The locks make every method one step.  The
    second half of the class, the tree of parents and children that learners form, is behind
    the call [tree_after_flush].  Logging and its timers have no counterpart. *)
From S2P Require Import Prelude Scn Lsn MemberList SimpleMemberList LogStateMgr LogCommit LogReconfirm LogModeMgr LogConfigMeta.
Import MemberList.
Export LogConfigMeta.

Module LogConfigMgr.
Abbreviation LSN := Lsn.LSN.
Abbreviation LogConfigVersion := LogReconfirm.LogConfigVersion.
Abbreviation no_version := LogReconfirm.no_version.
Abbreviation INVALID_PROPOSAL_ID := Lsn.INVALID_PROPOSAL_ID.
#[local] Existing Instance LogStateMgr.role_eq_dec.
Definition OB_LOG_NOT_SYNC : Z := -4065.
Definition OB_NOT_ALLOW_REMOVING_LEADER : Z := -4386.
Definition OB_TRY_LOCK_CONFIG_CHANGE_CONFLICT : Z := -6324.
Definition PALF_INITIAL_LSN_VAL : Z := 0.
Definition PALF_RESEND_CONFIG_LOG_INTERVAL_US : Z := 500 * 1000.
Definition PALF_RESEND_CONFIG_LOG_FOR_ARB_INTERVAL_US : Z := 10 * 1000.
Definition PALF_BROADCAST_LEADER_INFO_INTERVAL_US : Z := 5 * 1000 * 1000.
Definition MAX_WAIT_BARRIER_TIME_US_FOR_RECONFIGURATION : Z := 2 * 1000 * 1000.
Definition MAX_WAIT_BARRIER_TIME_US_FOR_STABLE_LOG : Z := 1 * 1000 * 1000.
Definition conn_timeout_us : Z := 3 * 1000 * 1000.
Definition PALF_LEADER_ACTIVE_SYNC_TIMEOUT_US : Z := 10 * 1000 * 1000.
Definition PALF_SLIDING_WINDOW_SIZE : Z := Z.shiftl 1 11.

(** ** The objects around it *)
Class Peers (P : Type) : Type := {
  current_time : P → Z * P;
  fast_current_time : P → Z * P;
  getClock : P → Z * P;
  state_get_proposal_id : P → Z * P;
  state_get_leader : P → ObAddr * P;
  state_is_leader_active : P → bool * P;
  state_is_leader_reconfirm : P → bool * P;
  state_is_arb_replica : P → bool * P;
  state_is_changing_config_with_arb : P → bool * P;
  state_set_changing_config_with_arb : P → Z * P;
  state_reset_changing_config_with_arb : P → Z * P;
  election_get_role : P → (Z * (LogStateMgr.ObRole * Z)) * P;
  election_get_current_leader_likely : P → (Z * ObAddr) * P;
  election_set_memberlist : list ObAddr → LogConfigVersion → Z → P → Z * P;
  mode_can_do_paxos_accept : P → bool * P;
  mode_need_skip_log_barrier : P → bool * P;
  mode_last_submit_pid : P → Z * P;
  mode_accepted_pid : P → Z * P;
  mode_submit_fetch_mode_meta_resp : ObAddr → Z → Z → P → Z * P;
  reconfirm_can_do_degrade : P → bool * P;
  sw_get_last_submit_log_info : P → (Z * (LSN * LSN * Z)) * P;
  sw_get_max_flushed_log_info : P → (Z * (LSN * Z)) * P;
  sw_get_max_flushed_end_lsn : P → LSN * P;
  sw_get_committed_end_lsn : P → LSN * P;
  sw_get_last_slide_log_id : P → Z * P;
  sw_get_server_ack_info : ObAddr → P → (Z * (LSN * Z)) * P;
  sw_config_change_update_match_lsn_map : ObMemberList → ObMemberList → ObMemberList → Z → P → Z * P;
  engine_submit_flush_change_config_meta_task : Z → LogConfigVersion → LogConfigMeta → P → Z * P;
  engine_submit_change_config_meta_req : list ObMember → Z → Z → LSN → Z → LogConfigMeta → P → Z * P;
  engine_submit_change_config_meta_resp : ObAddr → Z → LogConfigVersion → P → Z * P;
  engine_check_config_meta_size : LogConfigMeta → P → Z * P;
  engine_submit_prepare_meta_req : list ObMember → Z → P → Z * P;
  engine_submit_purge_throttling_task : P → Z * P;
  (** The code, [is_normal_replica_], [need_update_config_meta_], [max_flushed_end_lsn_]
      and [last_slide_log_id_]. *)
  engine_submit_config_change_pre_check_req : ObAddr → LogConfigVersion → bool → Z → P → (Z * (bool * bool * LSN * Z)) * P;
  (** The rest of [after_flush_config_log], for a replica in the member list or not. *)
  tree_after_flush : bool → P → Z * P
}.

Record LogReconfigBarrier : Set := mkBarrier { b_log_pid : Z; b_lsn : LSN; b_end_lsn : LSN; b_mode_pid : Z }.
Definition new_barrier : LogReconfigBarrier :=
  mkBarrier INVALID_PROPOSAL_ID (Lsn.mkLSN PALF_INITIAL_LSN_VAL) (Lsn.mkLSN PALF_INITIAL_LSN_VAL) INVALID_PROPOSAL_ID.
Definition no_barrier : LogReconfigBarrier := mkBarrier INVALID_PROPOSAL_ID no_lsn no_lsn INVALID_PROPOSAL_ID.
Inductive ConfigChangeState : Set := INIT | CHANGING.
#[export] Instance config_state_eq_dec : EqDecision ConfigChangeState := ltac:(solve_decision).

(** The members in three groups: the configuration, the change that is running, and the
    times. *)
Record Config : Set := mkCfg {
  log_ms_meta_ : LogConfigMeta;
  alive_paxos_memberlist_ : ObMemberList;
  alive_paxos_replica_num_ : Z;
  all_learnerlist_ : list ObMember;
  reconfig_barrier_ : LogReconfigBarrier;
  checking_barrier_ : LogReconfigBarrier;
  persistent_config_version_ : LogConfigVersion;
  forwarding_config_proposal_id_ : Z
}.
Record Change : Set := mkChange {
  state_ : ConfigChangeState;
  running_args_ : LogConfigChangeArgs;
  ms_ack_list_ : list ObAddr;
  need_change_config_bkgd_ : bool;
  bkgd_config_version_ : LogConfigVersion;
  resend_config_version_ : LogConfigVersion;
  resend_log_list_ : list ObMember;
  election_leader_epoch_ : Z;
  is_sw_interrupted_by_degrade_ : bool;
  will_upgrade_ : bool
}.
Record Times : Set := mkTimes {
  last_submit_config_log_time_us_ : Z;
  last_start_upgrade_time_us_ : Z;
  last_broadcast_leader_info_time_us_ : Z;
  barrier_print_log_time_ : Z;
  last_check_init_state_time_us_ : Z;
  start_wait_barrier_time_us_ : Z;
  last_wait_barrier_time_us_ : Z;
  last_wait_committed_end_lsn_ : LSN;
  last_sync_meta_for_arb_election_leader_time_us_ : Z
}.
Definition new_config : Config := mkCfg no_meta [] 0 [] new_barrier new_barrier no_version INVALID_PROPOSAL_ID.
Definition new_change : Change := mkChange INIT no_args [] false no_version no_version [] OB_INVALID_TIMESTAMP false false.
Definition new_times : Times :=
  mkTimes OB_INVALID_TIMESTAMP OB_INVALID_TIMESTAMP OB_INVALID_TIMESTAMP OB_INVALID_TIMESTAMP OB_INVALID_TIMESTAMP
    OB_INVALID_TIMESTAMP OB_INVALID_TIMESTAMP no_lsn OB_INVALID_TIMESTAMP.

(** *** Configuration *)
Definition with_meta (x : LogConfigMeta) (c : Config) : Config :=
  mkCfg x (alive_paxos_memberlist_ c) (alive_paxos_replica_num_ c) (all_learnerlist_ c) (reconfig_barrier_ c) (checking_barrier_ c)
    (persistent_config_version_ c) (forwarding_config_proposal_id_ c).
Definition with_alive (ml : ObMemberList) (num : Z) (c : Config) : Config :=
  mkCfg (log_ms_meta_ c) ml num (all_learnerlist_ c) (reconfig_barrier_ c) (checking_barrier_ c)
    (persistent_config_version_ c) (forwarding_config_proposal_id_ c).
Definition with_learners (l : list ObMember) (c : Config) : Config :=
  mkCfg (log_ms_meta_ c) (alive_paxos_memberlist_ c) (alive_paxos_replica_num_ c) l (reconfig_barrier_ c) (checking_barrier_ c)
    (persistent_config_version_ c) (forwarding_config_proposal_id_ c).
Definition with_barriers (reconfig checking : LogReconfigBarrier) (c : Config) : Config :=
  mkCfg (log_ms_meta_ c) (alive_paxos_memberlist_ c) (alive_paxos_replica_num_ c) (all_learnerlist_ c) reconfig checking
    (persistent_config_version_ c) (forwarding_config_proposal_id_ c).
Definition with_checking (b : LogReconfigBarrier) (c : Config) : Config := with_barriers (reconfig_barrier_ c) b c.
Definition with_persistent (v : LogConfigVersion) (c : Config) : Config :=
  mkCfg (log_ms_meta_ c) (alive_paxos_memberlist_ c) (alive_paxos_replica_num_ c) (all_learnerlist_ c) (reconfig_barrier_ c)
    (checking_barrier_ c) v (forwarding_config_proposal_id_ c).
Definition with_forwarding (pid : Z) (c : Config) : Config :=
  mkCfg (log_ms_meta_ c) (alive_paxos_memberlist_ c) (alive_paxos_replica_num_ c) (all_learnerlist_ c) (reconfig_barrier_ c)
    (checking_barrier_ c) (persistent_config_version_ c) pid.

(** *** The change *)
Definition with_acks (acks : list ObAddr) (h : Change) : Change :=
  mkChange (state_ h) (running_args_ h) acks (need_change_config_bkgd_ h) (bkgd_config_version_ h) (resend_config_version_ h)
    (resend_log_list_ h) (election_leader_epoch_ h) (is_sw_interrupted_by_degrade_ h) (will_upgrade_ h).
Definition with_bkgd (need : bool) (v : LogConfigVersion) (h : Change) : Change :=
  mkChange (state_ h) (running_args_ h) (ms_ack_list_ h) need v (resend_config_version_ h) (resend_log_list_ h)
    (election_leader_epoch_ h) (is_sw_interrupted_by_degrade_ h) (will_upgrade_ h).
Definition with_resend (v : LogConfigVersion) (l : list ObMember) (h : Change) : Change :=
  mkChange (state_ h) (running_args_ h) (ms_ack_list_ h) (need_change_config_bkgd_ h) (bkgd_config_version_ h) v l
    (election_leader_epoch_ h) (is_sw_interrupted_by_degrade_ h) (will_upgrade_ h).
Definition with_flags (degrading upgrading : bool) (h : Change) : Change :=
  mkChange (state_ h) (running_args_ h) (ms_ack_list_ h) (need_change_config_bkgd_ h) (bkgd_config_version_ h)
    (resend_config_version_ h) (resend_log_list_ h) (election_leader_epoch_ h) degrading upgrading.
(** The assignments with which a change begins and ends. *)
Definition begin_change (args : LogConfigChangeArgs) (election_epoch : Z) (h : Change) : Change :=
  mkChange CHANGING args [] false no_version (resend_config_version_ h) (resend_log_list_ h) election_epoch
    (is_sw_interrupted_by_degrade_ h) (will_upgrade_ h).
Definition end_change (v : LogConfigVersion) (h : Change) : Change :=
  mkChange INIT (running_args_ h) [] (need_change_config_bkgd_ h) (bkgd_config_version_ h) v (resend_log_list_ h)
    (election_leader_epoch_ h) (is_sw_interrupted_by_degrade_ h) (will_upgrade_ h).

(** *** Times *)
Definition with_submit_time (t : Z) (x : Times) : Times :=
  mkTimes t (last_start_upgrade_time_us_ x) (last_broadcast_leader_info_time_us_ x) (barrier_print_log_time_ x)
    (last_check_init_state_time_us_ x) (start_wait_barrier_time_us_ x) (last_wait_barrier_time_us_ x)
    (last_wait_committed_end_lsn_ x) (last_sync_meta_for_arb_election_leader_time_us_ x).
Definition with_upgrade_time (t : Z) (x : Times) : Times :=
  mkTimes (last_submit_config_log_time_us_ x) t (last_broadcast_leader_info_time_us_ x) (barrier_print_log_time_ x)
    (last_check_init_state_time_us_ x) (start_wait_barrier_time_us_ x) (last_wait_barrier_time_us_ x)
    (last_wait_committed_end_lsn_ x) (last_sync_meta_for_arb_election_leader_time_us_ x).
Definition with_broadcast_time (t : Z) (x : Times) : Times :=
  mkTimes (last_submit_config_log_time_us_ x) (last_start_upgrade_time_us_ x) t (barrier_print_log_time_ x)
    (last_check_init_state_time_us_ x) (start_wait_barrier_time_us_ x) (last_wait_barrier_time_us_ x)
    (last_wait_committed_end_lsn_ x) (last_sync_meta_for_arb_election_leader_time_us_ x).
Definition with_print_time (t : Z) (x : Times) : Times :=
  mkTimes (last_submit_config_log_time_us_ x) (last_start_upgrade_time_us_ x) (last_broadcast_leader_info_time_us_ x) t
    (last_check_init_state_time_us_ x) (start_wait_barrier_time_us_ x) (last_wait_barrier_time_us_ x)
    (last_wait_committed_end_lsn_ x) (last_sync_meta_for_arb_election_leader_time_us_ x).
Definition with_check_time (t : Z) (x : Times) : Times :=
  mkTimes (last_submit_config_log_time_us_ x) (last_start_upgrade_time_us_ x) (last_broadcast_leader_info_time_us_ x)
    (barrier_print_log_time_ x) t (start_wait_barrier_time_us_ x) (last_wait_barrier_time_us_ x)
    (last_wait_committed_end_lsn_ x) (last_sync_meta_for_arb_election_leader_time_us_ x).
Definition with_wait_times (start last : Z) (lsn : LSN) (x : Times) : Times :=
  mkTimes (last_submit_config_log_time_us_ x) (last_start_upgrade_time_us_ x) (last_broadcast_leader_info_time_us_ x)
    (barrier_print_log_time_ x) (last_check_init_state_time_us_ x) start last lsn
    (last_sync_meta_for_arb_election_leader_time_us_ x).
Definition with_sync_time (t : Z) (x : Times) : Times :=
  mkTimes (last_submit_config_log_time_us_ x) (last_start_upgrade_time_us_ x) (last_broadcast_leader_info_time_us_ x)
    (barrier_print_log_time_ x) (last_check_init_state_time_us_ x) (start_wait_barrier_time_us_ x)
    (last_wait_barrier_time_us_ x) (last_wait_committed_end_lsn_ x) t.

Section config_mgr.
Context {P : Type} `{Peers P}.

Record LogConfigMgr : Type := mkMgr {
  is_inited_ : bool;
  palf_id_ : Z;
  self_ : ObAddr;
  cfg : Config;
  chg : Change;
  tms : Times;
  peers : P
}.
Implicit Types m : LogConfigMgr.
Abbreviation S := LogConfigMgr.
Definition new_mgr (p : P) : S := mkMgr false 0 no_addr new_config new_change new_times p.
Definition set_peers (p : P) m : S := mkMgr (is_inited_ m) (palf_id_ m) (self_ m) (cfg m) (chg m) (tms m) p.
Definition set_cfg (f : Config → Config) m : S := mkMgr (is_inited_ m) (palf_id_ m) (self_ m) (f (cfg m)) (chg m) (tms m) (peers m).
Definition set_chg (f : Change → Change) m : S := mkMgr (is_inited_ m) (palf_id_ m) (self_ m) (cfg m) (f (chg m)) (tms m) (peers m).
Definition set_tms (f : Times → Times) m : S := mkMgr (is_inited_ m) (palf_id_ m) (self_ m) (cfg m) (chg m) (f (tms m)) (peers m).
Definition meta m : LogConfigMeta := log_ms_meta_ (cfg m).
Definition curr m : LogConfigInfoV2 := curr_ (meta m).
Definition curr_config m : LogConfigInfo := config_ (curr m).
Definition curr_version m : LogConfigVersion := version_of (curr m).

(** A call of a peer. *)
Definition ask {A} (f : P → A * P) : M S A := fun m => let '(a, p) := f (peers m) in Some (a, set_peers p m).
Definition palf_reach_time_interval (interval : Z) (warn_time : Times → Z) (set_warn_time : Z → Times → Times) : M S bool :=
  let! now := ask getClock in
  let! t := gets (λ m, warn_time (tms m)) in
  if (interval <=? now - t) || (OB_INVALID_TIMESTAMP =? t)
  then let! now := ask getClock in modify (set_tms (set_warn_time now)) ;;; ret true
  else ret false.

(** ** Taking a configuration *)
Definition append_config_info_ (config_info : LogConfigInfoV2) : M S Z :=
  let '(rc, (ml, num, learners)) := convert_to_complete_config (config_ config_info) in
  if ob_failed rc then ret rc
  else
    let '(rc, copy) := deep_copy_learners learners in
    modify (set_cfg (with_learners copy)) ;;;
    if ob_failed rc then ret rc else (modify (set_cfg (with_alive ml num)) ;;; ret OB_SUCCESS).
Definition update_election_meta_ (info : LogConfigInfoV2) : M S Z :=
  let '(rc, (ml, num, _)) := convert_to_complete_config (config_ info) in
  if ob_failed rc then ret rc else ask (election_set_memberlist (server_ <$> ml) (version_of info) num).

(** ** Life cycle *)

(** [args_ok]: the palf id is valid and no pointer is [NULL]. *)
Definition init (args_ok : bool) (palf_id : Z) (self : ObAddr) (log_ms_meta : LogConfigMeta) : M S Z :=
  let! m := get in
  if is_inited_ m then ret OB_INIT_TWICE
  else if negb (args_ok && addr_is_valid self && meta_is_valid log_ms_meta) then ret OB_INVALID_ARGUMENT
  else
    modify (fun m => mkMgr (is_inited_ m) palf_id self (with_meta log_ms_meta (cfg m)) (chg m) (tms m) (peers m)) ;;;
    chk! (if info_is_valid (curr_ log_ms_meta) then append_config_info_ (curr_ log_ms_meta) else ret OB_SUCCESS) else
    chk! (if info_is_valid (curr_ log_ms_meta) then update_election_meta_ (curr_ log_ms_meta) else ret OB_SUCCESS) else
    (modify (fun m => mkMgr true (palf_id_ m) (self_ m) (with_persistent (curr_version m) (cfg m)) (chg m) (tms m) (peers m)) ;;;
     ret OB_SUCCESS).
Definition destroy m : S :=
  if is_inited_ m then
    mkMgr false 0 no_addr
      (mkCfg no_meta [] 0 [] no_barrier no_barrier no_version INVALID_PROPOSAL_ID)
      (mkChange INIT no_args [] (need_change_config_bkgd_ (chg m)) (bkgd_config_version_ (chg m)) no_version []
         (election_leader_epoch_ (chg m)) (is_sw_interrupted_by_degrade_ (chg m)) (will_upgrade_ (chg m)))
      (with_sync_time OB_INVALID_TIMESTAMP (with_print_time OB_INVALID_TIMESTAMP (with_submit_time OB_INVALID_TIMESTAMP (tms m))))
      (peers m)
  else m.
Definition reset_status m : S :=
  set_tms (λ x, with_submit_time OB_INVALID_TIMESTAMP
                 (with_check_time OB_INVALID_TIMESTAMP
                    (with_wait_times OB_INVALID_TIMESTAMP OB_INVALID_TIMESTAMP no_lsn
                       (with_upgrade_time OB_INVALID_TIMESTAMP x))))
    (set_chg (λ h, mkChange INIT no_args [] false no_version no_version [] OB_INVALID_TIMESTAMP
                     (is_sw_interrupted_by_degrade_ h) false) m).

(** ** Reading the configuration *)
Definition get_prev_member_list m : Z * ObMemberList :=
  if negb (is_inited_ m) then (OB_NOT_INIT, [])
  else
    let c := config_ (prev_ (meta m)) in
    if member_is_valid (arbitration_member_ c) then add_member (arbitration_member_ c) (log_sync_memberlist_ c)
    else (OB_SUCCESS, log_sync_memberlist_ c).
Definition get_curr_member_list m : Z * (ObMemberList * Z) :=
  if negb (is_inited_ m) then (OB_NOT_INIT, ([], -1)) else get_expected_paxos_memberlist (curr_config m).
Definition get_alive_member_list_with_arb m : Z * (ObMemberList * Z) :=
  if negb (is_inited_ m) then (OB_NOT_INIT, ([], 0))
  else (OB_SUCCESS, (alive_paxos_memberlist_ (cfg m), alive_paxos_replica_num_ (cfg m))).
Definition get_log_sync_member_list m : Z * (ObMemberList * Z) :=
  if negb (is_inited_ m) then (OB_NOT_INIT, ([], 0))
  else (OB_SUCCESS, (log_sync_memberlist_ (curr_config m), log_sync_replica_num_ (curr_config m))).
Definition get_config_version m : Z * LogConfigVersion :=
  if negb (is_inited_ m) then (OB_NOT_INIT, no_version) else (OB_SUCCESS, curr_version m).
Definition get_replica_num m : Z * Z :=
  if negb (is_inited_ m) then (OB_NOT_INIT, 0)
  else let '(rc, (_, replica_num)) := get_expected_paxos_memberlist (curr_config m) in (rc, replica_num).
Definition get_global_learner_list m : Z * list ObMember :=
  if negb (is_inited_ m) then (OB_NOT_INIT, []) else deep_copy_learners (learnerlist_ (curr_config m)).
Definition get_degraded_learner_list m : Z * list ObMember :=
  if negb (is_inited_ m) then (OB_NOT_INIT, []) else deep_copy_learners (degraded_learnerlist_ (curr_config m)).
Definition get_arbitration_member m : Z * ObMember :=
  if negb (is_inited_ m) then (OB_NOT_INIT, no_member) else (OB_SUCCESS, arbitration_member_ (curr_config m)).
Definition is_sync_to_degraded_learners m : bool := will_upgrade_ (chg m).
(** The test of [wait_config_log_persistence], which a caller repeats for a second. *)
Definition check_need_update_memberlist_without_lock_ (config_version : LogConfigVersion) m : bool :=
  version_ltb (persistent_config_version_ (cfg m)) config_version.
Definition get_accept_proposal_id m : Z := meta_proposal_id_ (meta m).
(** The code, the owner and the answer. *)
Definition get_config_change_lock_stat : M S (Z * option (Z * bool)) :=
  let! m := get in
  if negb (is_inited_ m) then ret (OB_NOT_INIT, None)
  else
    let! active := ask state_is_leader_active in
    if negb active then ret (OB_NOT_MASTER, None)
    else
      let is_curr_locked := is_locked (lock_meta_ (curr m)) in
      if bool_decide (CHANGING = state_ (chg m)) && negb (Bool.eqb is_curr_locked (is_locked (lock_meta_ (prev_ (meta m)))))
      then ret (OB_EAGAIN, None)
      else ret (OB_SUCCESS, Some (lock_owner_ (lock_meta_ (curr m)), is_curr_locked)).

(** ** Tests of a change *)
Definition is_reach_majority_ m : bool :=
  Z.quot (alive_paxos_replica_num_ (cfg m)) 2 <? SimpleMemberList.get_count (ms_ack_list_ (chg m)).
Definition need_resend_config_log_ : M S bool :=
  let! with_arb := ask state_is_changing_config_with_arb in
  let interval := if (with_arb : bool) then PALF_RESEND_CONFIG_LOG_FOR_ARB_INTERVAL_US else PALF_RESEND_CONFIG_LOG_INTERVAL_US in
  let! now := ask current_time in
  let! t := gets (λ m, last_submit_config_log_time_us_ (tms m)) in
  ret ((t =? OB_INVALID_TIMESTAMP) || (interval <? now - t)).
Definition need_recheck_init_state_ : M S bool :=
  let! now := ask current_time in
  let! t := gets (λ m, last_check_init_state_time_us_ (tms m)) in
  ret ((t =? OB_INVALID_TIMESTAMP) || (10 * 1000 <? now - t)).
(** [need_rlock] and [need_wlock]. *)
Definition is_state_changed_ : M S (bool * bool) :=
  let! m := get in
  match state_ (chg m) with
  | INIT => let! b := need_recheck_init_state_ in ret (false, b)
  | CHANGING => if is_reach_majority_ m then ret (false, true) else let! b := need_resend_config_log_ in ret (b, false)
  end.
Definition is_state_changed : M S (Z * (bool * bool)) :=
  let! inited := gets is_inited_ in
  if negb inited then ret (OB_NOT_INIT, (false, false)) else let! b := is_state_changed_ in ret (OB_SUCCESS, b).
Definition check_config_version_matches_state_ (t : LogConfigChangeType) (config_version : LogConfigVersion) m : Z :=
  match state_ (chg m) with
  | INIT => if version_is_valid config_version && negb (type_in t [FORCE_SINGLE_MEMBER]) then OB_ERR_UNEXPECTED else OB_SUCCESS
  | CHANGING => if negb (version_eqb config_version (curr_version m)) then OB_EAGAIN else OB_SUCCESS
  end.
Definition is_leader_for_config_change_ (t : LogConfigChangeType) (proposal_id election_epoch : Z) : M S bool :=
  let! is_leader :=
    match t with
    | DEGRADE_ACCEPTOR_TO_LEARNER =>
        let! a := ask state_is_leader_active in
        if (a : bool) then ret true
        else let! r := ask state_is_leader_reconfirm in if (r : bool) then ask reconfirm_can_do_degrade else ret false
    | STARTWORKING => ask state_is_leader_reconfirm
    | _ => ask state_is_leader_active
    end in
  let! curr_proposal_id := ask state_get_proposal_id in
  let! r := ask election_get_role in
  let '(rc, (ele_role, ele_epoch)) := r in
  let '(is_leader, is_epoch_changed) :=
    if ob_failed rc then (is_leader, true)
    else if negb (bool_decide (LogStateMgr.LEADER = ele_role)) then (false, true)
    else (is_leader, negb (election_epoch =? ele_epoch)) in
  ret (is_leader && (proposal_id =? curr_proposal_id) && negb is_epoch_changed).

(** *** The arguments against the current configuration *)

(** The scans of [REPLACE_LEARNERS]: the code and whether all were found. *)
Fixpoint all_added (l : list ObMember) (curr_member_list : ObMemberList) (learners : list ObMember) : Z * bool :=
  match l with
  | [] => (OB_SUCCESS, true)
  | x :: l =>
      if contains (server_ x) curr_member_list then (OB_INVALID_ARGUMENT, true)
      else if negb (learner_contains x learners) then (OB_SUCCESS, false)
      else all_added l curr_member_list learners
  end.
Definition all_removed (l : list ObMember) (learners : list ObMember) : bool := forallb (λ x, negb (learner_contains x learners)) l.
(** The code and [is_already_finished]. *)
Definition check_config_change_args_by_type_ (args : LogConfigChangeArgs) m : Z * bool :=
  let '(rc, (curr_member_list, curr_replica_num)) := get_curr_member_list m in
  if ob_failed rc then (rc, false)
  else
    let c := curr_config m in
    let member := a_server_ args in
    let t := a_type_ args in
    let num_same := a_new_replica_num_ args =? curr_replica_num in
    let is_in_log_sync_memberlist := contains_member (new_member (server_ member) (timestamp_ member)) (log_sync_memberlist_ c) in
    let is_in_degraded_learnerlist := learner_contains member (degraded_learnerlist_ c) in
    let is_in_learnerlist := learner_contains member (learnerlist_ c) in
    let is_arb_replica := member_eqb (arbitration_member_ c) member in
    let has_arb_replica := member_is_valid (arbitration_member_ c) in
    let curr_lock_owner := lock_owner_ (lock_meta_ (curr m)) in
    let curr_lock_type := lock_type_ (lock_meta_ (curr m)) in
    let finished_if (b : bool) := if b then (OB_SUCCESS, true) else (OB_INVALID_ARGUMENT, false) in
    let bad := (OB_INVALID_ARGUMENT, false) in
    let go_on := (OB_SUCCESS, false) in
    match t with
    | CHANGE_REPLICA_NUM =>
        let same_list := member_addr_equal (a_curr_member_list_ args) curr_member_list in
        if num_same && same_list then (OB_SUCCESS, true)
        else if negb same_list || negb (curr_replica_num =? a_curr_replica_num_ args) then bad
        else go_on
    | ADD_MEMBER | ADD_MEMBER_AND_NUM =>
        if is_in_learnerlist || is_in_degraded_learnerlist || is_arb_replica then bad
        else if is_in_log_sync_memberlist then finished_if (type_in t [ADD_MEMBER_AND_NUM] || num_same)
        else go_on
    | REMOVE_MEMBER | REMOVE_MEMBER_AND_NUM =>
        if is_in_learnerlist || is_arb_replica then bad
        else if negb is_in_log_sync_memberlist then
          if is_in_degraded_learnerlist then go_on
          else finished_if (type_in t [REMOVE_MEMBER_AND_NUM] || num_same
                            || (has_arb_replica && (0 =? Z.of_nat (length (degraded_learnerlist_ c)))
                                && (get_member_number (log_sync_memberlist_ c) * 2 =? a_new_replica_num_ args)))
        else go_on
    | ADD_ARB_MEMBER =>
        if is_in_learnerlist || is_in_degraded_learnerlist || is_in_log_sync_memberlist then bad
        else if is_arb_replica then finished_if num_same
        else if has_arb_replica then bad
        else go_on
    | REMOVE_ARB_MEMBER =>
        if is_in_learnerlist || is_in_degraded_learnerlist || is_in_log_sync_memberlist then bad
        else if negb is_arb_replica then finished_if num_same
        else go_on
    | ADD_LEARNER =>
        if is_in_log_sync_memberlist || is_in_degraded_learnerlist || is_arb_replica then bad
        else if is_in_learnerlist then (OB_SUCCESS, true) else go_on
    | REMOVE_LEARNER =>
        if is_in_log_sync_memberlist || is_in_degraded_learnerlist || is_arb_replica then bad
        else if negb is_in_learnerlist then (OB_SUCCESS, true) else go_on
    | SWITCH_LEARNER_TO_ACCEPTOR | SWITCH_LEARNER_TO_ACCEPTOR_AND_NUM | UPGRADE_LEARNER_TO_ACCEPTOR =>
        let upgrade := type_in t [UPGRADE_LEARNER_TO_ACCEPTOR] in
        if (is_in_degraded_learnerlist || is_in_learnerlist) && is_in_log_sync_memberlist then (OB_ERR_UNEXPECTED, false)
        else if (is_in_learnerlist || is_in_degraded_learnerlist) && negb is_in_log_sync_memberlist then
          if upgrade && is_in_learnerlist then bad
          else if negb upgrade && is_in_degraded_learnerlist then bad
          else go_on
        else if negb is_in_learnerlist && negb is_in_degraded_learnerlist && is_in_log_sync_memberlist
        then finished_if (negb (type_in t [SWITCH_LEARNER_TO_ACCEPTOR]) || num_same)
        else bad
    | SWITCH_ACCEPTOR_TO_LEARNER | DEGRADE_ACCEPTOR_TO_LEARNER =>
        let degrade := type_in t [DEGRADE_ACCEPTOR_TO_LEARNER] in
        if negb has_arb_replica && degrade then bad
        else if (is_in_learnerlist || is_in_degraded_learnerlist) && is_in_log_sync_memberlist then (OB_ERR_UNEXPECTED, false)
        else if (is_in_learnerlist || is_in_degraded_learnerlist) && negb is_in_log_sync_memberlist then
          if degrade && is_in_learnerlist then bad
          else if negb degrade && is_in_degraded_learnerlist then bad
          else finished_if (degrade || num_same)
        else if negb is_in_degraded_learnerlist && is_in_log_sync_memberlist then
          if degrade && negb has_arb_replica then bad else go_on
        else bad
    | STARTWORKING | FORCE_SINGLE_MEMBER | FORCE_SET_MEMBER_LIST => go_on
    | TRY_LOCK_CONFIG_CHANGE =>
        if a_lock_owner_ args =? curr_lock_owner then
          if LOCK_PAXOS_MEMBER_CHANGE =? curr_lock_type then (OB_SUCCESS, true) else (OB_STATE_NOT_MATCH, false)
        else if curr_lock_owner <? a_lock_owner_ args then
          if LOCK_NOTHING =? curr_lock_type then go_on else (OB_TRY_LOCK_CONFIG_CHANGE_CONFLICT, false)
        else (OB_STATE_NOT_MATCH, false)
    | UNLOCK_CONFIG_CHANGE =>
        if a_lock_owner_ args =? curr_lock_owner then
          if LOCK_PAXOS_MEMBER_CHANGE =? curr_lock_type then go_on
          else if LOCK_NOTHING =? curr_lock_type then (OB_SUCCESS, true)
          else (OB_NOT_SUPPORTED, false)
        else (OB_STATE_NOT_MATCH, false)
    | REPLACE_LEARNERS =>
        let '(rc, added) := all_added (a_added_list_ args) curr_member_list (learnerlist_ c) in
        if ob_failed rc then (rc, false)
        else (OB_SUCCESS, added && all_removed (a_removed_list_ args) (learnerlist_ c))
    | INVALID_LOG_CONFIG_CHANGE_TYPE => bad
    end.

Definition generate_new_config_info_ (proposal_id : Z) (args : LogConfigChangeArgs) : M S (Z * LogConfigInfoV2) :=
  let! now := (if type_in (a_type_ args) [TRY_LOCK_CONFIG_CHANGE; UNLOCK_CONFIG_CHANGE] then ask fast_current_time else ret 0) in
  let! m := get in
  ret (generate_new_config_info now proposal_id args (curr m)).

(** The code and [is_already_finished]. *)
Definition check_config_change_args_ (args : LogConfigChangeArgs) : M S (Z * bool) :=
  let! m := get in
  let config_version := curr_version m in
  let t := a_type_ args in
  if negb (args_is_valid args) then ret (OB_INVALID_ARGUMENT, false)
  else if is_remove_member_list t && addr_eqb (self_ m) (server_ (a_server_ args)) then ret (OB_NOT_ALLOW_REMOVING_LEADER, false)
  else if is_locked (lock_meta_ (curr m)) && is_paxos_member_list_change t then ret (OB_EAGAIN, false)
  else if need_check_config_version t && version_gtb (a_config_version_ args) config_version then ret (OB_ERR_UNEXPECTED, false)
  else
    let '(rc, is_already_finished) := check_config_change_args_by_type_ args m in
    if ob_failed rc then ret (rc, is_already_finished)
    else if is_already_finished then ret (OB_SUCCESS, true)
    else if need_check_config_version t && negb (version_eqb (a_config_version_ args) config_version)
    then ret (OB_STATE_NOT_MATCH, false)
    else
      let! proposal_id := ask state_get_proposal_id in
      let! r := generate_new_config_info_ proposal_id args in
      let '(rc, new_config_info) := r in
      if ob_failed rc then ret (rc, false)
      else
        let '(rc, (ml, num, _)) := convert_to_complete_config (config_ new_config_info) in
        if ob_failed rc then ret (rc, false)
        else if negb (contains (self_ m) ml) || negb (contains (self_ m) (log_sync_memberlist_ (config_ new_config_info)))
        then ret (OB_SUCCESS, false)
        else if negb (can_memberlist_majority_ (get_member_number (log_sync_memberlist_ (config_ new_config_info)))
                        (log_sync_replica_num_ (config_ new_config_info)))
                || negb (can_memberlist_majority_ (get_member_number ml) num)
        then ret (OB_INVALID_ARGUMENT, false)
        else
          let! curr_proposal_id := ask state_get_proposal_id in
          let b := checking_barrier_ (cfg m) in
          let '(rc, config_meta) :=
            meta_generate curr_proposal_id (curr m) new_config_info (b_log_pid b) (b_lsn b) (b_mode_pid b) (meta m) in
          if ob_failed rc then ret (rc, false)
          else let! rc := ask (engine_check_config_meta_size (drop_prev_learners config_meta)) in ret (rc, false).

Definition check_args_and_generate_config (args : LogConfigChangeArgs) (proposal_id election_epoch : Z) :
    M S (Z * bool * option LogConfigInfoV2) :=
  let! inited := gets is_inited_ in
  if negb inited then ret (OB_NOT_INIT, false, None)
  else
    let! leads := (if need_exec_on_leader_ (a_type_ args)
                   then is_leader_for_config_change_ (a_type_ args) proposal_id election_epoch else ret true) in
    if negb leads then ret (OB_NOT_MASTER, false, None)
    else
      let! r := check_config_change_args_ args in
      let '(rc, is_already_finished) := r in
      if ob_failed rc then ret (rc, is_already_finished, None)
      else if (is_already_finished : bool) then ret (OB_SUCCESS, true, None)
      else
        let! r := generate_new_config_info_ proposal_id args in
        let '(rc, info) := r in
        ret (rc, false, Some info).

(** ** Appending a change *)
Definition renew_config_change_barrier_ : M S Z :=
  let! a := ask sw_get_last_submit_log_info in
  let '(rc, (prev_log_lsn, prev_log_end_lsn, prev_log_proposal_id)) := a in
  if ob_failed rc then ret rc
  else
    let! pid := ask mode_last_submit_pid in
    modify (set_cfg (with_checking (mkBarrier prev_log_proposal_id prev_log_lsn prev_log_end_lsn pid))) ;;; ret OB_SUCCESS.
Definition renew_config_change_barrier : M S Z :=
  let! inited := gets is_inited_ in if negb inited then ret OB_NOT_INIT else renew_config_change_barrier_.

Definition update_match_lsn_map_ (args : LogConfigChangeArgs) (new_config_info : LogConfigInfoV2) : M S Z :=
  let t := a_type_ args in
  let '(rc, added) := if is_add_log_sync_member_list t then add_member (a_server_ args) [] else (OB_SUCCESS, []) in
  if ob_failed rc then ret rc
  else
    let '(rc, removed) := if is_remove_log_sync_member_list t then add_member (a_server_ args) [] else (OB_SUCCESS, []) in
    if ob_failed rc then ret rc
    else
      let removed := if type_in t [FORCE_SET_MEMBER_LIST] then a_removed_list_ args else removed in
      ask (sw_config_change_update_match_lsn_map added removed (log_sync_memberlist_ (config_ new_config_info))
             (log_sync_replica_num_ (config_ new_config_info))).

(** The code and [is_already_finished]. *)
Definition append_config_meta_ (curr_proposal_id : Z) (args : LogConfigChangeArgs) : M S (Z * bool) :=
  if (INVALID_PROPOSAL_ID =? curr_proposal_id) || negb (args_is_valid args) then ret (OB_INVALID_ARGUMENT, false)
  else
    let! self := gets self_ in
    let! rc :=
      (if need_exec_on_leader_ (a_type_ args) then
         let! leader := ask state_get_leader in
         if negb (addr_eqb leader self) then ret OB_NOT_MASTER
         else let! pid := ask state_get_proposal_id in ret (if pid =? curr_proposal_id then OB_SUCCESS else OB_NOT_MASTER)
       else let! pid := ask state_get_proposal_id in ret (if pid =? curr_proposal_id then OB_SUCCESS else OB_STATE_NOT_MATCH)) in
    if ob_failed rc then ret (rc, false)
    else
      let! r := check_config_change_args_ args in
      let '(rc, is_already_finished) := r in
      if ob_failed rc then ret (rc, is_already_finished)
      else if (is_already_finished : bool) then ret (OB_SUCCESS, true)
      else
        let! r := generate_new_config_info_ curr_proposal_id args in
        let '(rc, new_config_info) := r in
        if ob_failed rc then ret (rc, false)
        else
          let has_arb_member := member_is_valid (arbitration_member_ (config_ new_config_info)) in
          let! rc := update_election_meta_ new_config_info in
          if ob_failed rc then ret (if OB_OP_NOT_ALLOW =? rc then OB_EAGAIN else rc, false)
          else
            let! rc := (if negb has_arb_member then renew_config_change_barrier_ else ret OB_SUCCESS) in
            if ob_failed rc then ret (rc, false)
            else
              let! m := get in
              let b := checking_barrier_ (cfg m) in
              let '(rc, config_meta) :=
                meta_generate curr_proposal_id (curr m) new_config_info (b_log_pid b) (b_lsn b) (b_mode_pid b) (meta m) in
              modify (set_cfg (with_meta config_meta)) ;;;
              if ob_failed rc then ret (rc, false)
              else
                let! rc := append_config_info_ new_config_info in
                if ob_failed rc then ret (rc, false)
                else
                  modify (set_cfg (λ c, with_barriers (checking_barrier_ c) (checking_barrier_ c)
                                          (with_meta (drop_prev_learners (log_ms_meta_ c)) c))) ;;;
                  (if negb has_arb_member then update_match_lsn_map_ args new_config_info ;;; ret tt else ret tt) ;;;
                  ret (OB_SUCCESS, false).

(** The servers a change is sent to again: all learners and all members but this one. *)
Fixpoint resend_members (self : ObAddr) (src l : list ObMember) : list ObMember :=
  match src with
  | [] => l
  | x :: src =>
      if addr_eqb (server_ x) self then resend_members self src l
      else
        let '(rc, l) := LogModeMgr.add_learner LogModeMgr.RESEND_MAX (new_member (server_ x) 1) l in
        if ob_failed rc then l else resend_members self src l
  end.
Definition set_resend_log_info_ m : S :=
  set_chg (with_resend no_version
             (resend_members (self_ m) (alive_paxos_memberlist_ (cfg m)) (snd (LogModeMgr.add_servers (all_learnerlist_ (cfg m)) [])))) m.

(** ** Sending a change *)
Definition check_barrier_condition_ (prev_log_proposal_id : Z) (prev_lsn : LSN) (prev_mode_pid : Z) : M S Z :=
  if negb (Lsn.is_valid prev_lsn) || (INVALID_PROPOSAL_ID =? prev_mode_pid) then ret OB_INVALID_ARGUMENT
  else
    let! a := ask sw_get_max_flushed_log_info in
    let '(rc, (max_flushed_lsn, max_flushed_log_pid)) := a in
    if ob_failed rc then ret rc
    else
      let! max_flushed_mode_pid := ask mode_accepted_pid in
      if ((INVALID_PROPOSAL_ID =? prev_log_proposal_id) || (prev_log_proposal_id <=? max_flushed_log_pid))
         && Lsn.lsn_geb max_flushed_lsn prev_lsn && negb (max_flushed_mode_pid =? INVALID_PROPOSAL_ID)
         && (prev_mode_pid <=? max_flushed_mode_pid)
      then ret OB_SUCCESS
      else
        let! due := palf_reach_time_interval (500 * 1000) barrier_print_log_time_ with_print_time in
        (if (due : bool) then ask engine_submit_purge_throttling_task ;;; ret tt else ret tt) ;;; ret OB_EAGAIN.
Definition submit_config_log_ (paxos_member_list : ObMemberList) (proposal_id prev_log_proposal_id : Z) (prev_lsn : LSN)
    (prev_mode_pid : Z) (config_meta : LogConfigMeta) : M S Z :=
  let! need_skip_log_barrier := ask mode_need_skip_log_barrier in
  if negb (list_is_valid paxos_member_list) || (INVALID_PROPOSAL_ID =? proposal_id) || negb (Lsn.is_valid prev_lsn)
     || (INVALID_PROPOSAL_ID =? prev_mode_pid) || negb (meta_is_valid config_meta)
  then ret OB_INVALID_ARGUMENT
  else
    chk! (if negb need_skip_log_barrier then check_barrier_condition_ prev_log_proposal_id prev_lsn prev_mode_pid
          else ret OB_SUCCESS) else
    (let! m := get in
     let dst_member_list := snd (remove_server (self_ m) paxos_member_list) in
     let send to := ask (engine_submit_change_config_meta_req to proposal_id prev_log_proposal_id prev_lsn prev_mode_pid config_meta) in
     chk! ask (engine_submit_flush_change_config_meta_task proposal_id (version_of (curr_ config_meta)) config_meta) else
     chk! (if list_is_valid dst_member_list then send dst_member_list else ret OB_SUCCESS) else
     chk! (if 0 <? Z.of_nat (length (all_learnerlist_ (cfg m))) then send (all_learnerlist_ (cfg m)) else ret OB_SUCCESS) else
     (let! now := ask current_time in modify (set_tms (with_submit_time now)) ;;; ret OB_SUCCESS)).

Definition after_config_log_majority_ (proposal_id : Z) (config_version : LogConfigVersion) : M S Z :=
  let! m := get in
  if negb (proposal_id =? meta_proposal_id_ (meta m)) || negb (version_eqb config_version (curr_version m)) then ret OB_STATE_NOT_MATCH
  else if is_reach_majority_ m then
    ask state_reset_changing_config_with_arb ;;;
    update_match_lsn_map_ (running_args_ (chg m)) (curr m) ;;; ret OB_SUCCESS
  else ret OB_SUCCESS.
Definition after_config_log_majority (proposal_id : Z) (config_version : LogConfigVersion) : M S Z :=
  let! inited := gets is_inited_ in
  if negb inited then ret OB_NOT_INIT else after_config_log_majority_ proposal_id config_version.

(** The two cases of the [switch]; the result is the code and [config_version]. *)
Definition case_init (curr_proposal_id : Z) (args : LogConfigChangeArgs) (election_epoch : Z) (config_version : LogConfigVersion) :
    M S (Z * LogConfigVersion) :=
  let! now := ask current_time in
  modify (set_tms (with_check_time now)) ;;;
  let! r := append_config_meta_ curr_proposal_id args in
  let '(rc, is_already_finished) := r in
  if ob_failed rc then ret (rc, config_version)
  else if (is_already_finished : bool) then ret (OB_SUCCESS, config_version)
  else
    modify set_resend_log_info_ ;;;
    let! m := get in
    modify (fun m => set_tms (with_submit_time OB_INVALID_TIMESTAMP) (set_chg (begin_change args election_epoch) m)) ;;;
    ret (OB_EAGAIN, curr_version m).
Definition case_changing (curr_proposal_id proposal_id : Z) (config_version : LogConfigVersion) : M S (Z * LogConfigVersion) :=
  let! m := get in
  if is_reach_majority_ m then
    after_config_log_majority_ proposal_id config_version ;;;
    modify (fun m => set_tms (with_submit_time OB_INVALID_TIMESTAMP) (set_chg (end_change (curr_version m)) m)) ;;;
    ret (OB_SUCCESS, config_version)
  else
    let! resend := need_resend_config_log_ in
    if (resend : bool) then
      let! m := get in
      let b := reconfig_barrier_ (cfg m) in
      let! rc := submit_config_log_ (alive_paxos_memberlist_ (cfg m)) curr_proposal_id (b_log_pid b) (b_lsn b) (b_mode_pid b) (meta m) in
      ret (if ob_failed rc then rc else OB_EAGAIN, config_version)
    else ret (OB_EAGAIN, config_version).
Definition change_config_ (args : LogConfigChangeArgs) (proposal_id election_epoch : Z) (config_version : LogConfigVersion) :
    M S (Z * LogConfigVersion) :=
  let! leads := (if need_exec_on_leader_ (a_type_ args)
                 then is_leader_for_config_change_ (a_type_ args) proposal_id election_epoch else ret true) in
  if negb leads then ret (OB_NOT_MASTER, config_version)
  else
    let! accept := ask mode_can_do_paxos_accept in
    if negb accept then ret (OB_ERR_UNEXPECTED, config_version)
    else
      let! m := get in
      let rc := check_config_version_matches_state_ (a_type_ args) config_version m in
      if ob_failed rc then ret (rc, config_version)
      else
        let! curr_proposal_id := ask state_get_proposal_id in
        match state_ (chg m) with
        | INIT => case_init curr_proposal_id args election_epoch config_version
        | CHANGING => case_changing curr_proposal_id proposal_id config_version
        end.
Definition change_config (args : LogConfigChangeArgs) (proposal_id election_epoch : Z) (config_version : LogConfigVersion) :
    M S (Z * LogConfigVersion) :=
  let! inited := gets is_inited_ in
  if negb inited then ret (OB_NOT_INIT, config_version) else change_config_ args proposal_id election_epoch config_version.

Definition after_config_change_timeout (config_version : LogConfigVersion) m : S :=
  if negb (is_inited_ m) then m else set_chg (with_bkgd true config_version) m.
(** The code, the proposal id and the epoch. *)
Definition start_change_config (t : LogConfigChangeType) : M S (Z * option (Z * Z)) :=
  let! m := get in
  if negb (is_inited_ m) then ret (OB_NOT_INIT, None)
  else if bool_decide (CHANGING = state_ (chg m)) then ret (OB_EAGAIN, None)
  else
    let! r := ask election_get_role in
    let '(rc, (_, election_epoch)) := r in
    if ob_failed rc then ret (rc, None)
    else
      let! proposal_id := ask state_get_proposal_id in
      let upgrade := type_in t [UPGRADE_LEARNER_TO_ACCEPTOR] in
      modify (fun m => set_tms (λ x, with_wait_times OB_INVALID_TIMESTAMP OB_INVALID_TIMESTAMP (last_wait_committed_end_lsn_ x) x)
                         (set_chg (with_flags (type_in t [DEGRADE_ACCEPTOR_TO_LEARNER]) upgrade) m)) ;;;
      (if upgrade then let! now := ask current_time in modify (set_tms (with_upgrade_time now)) else ret tt) ;;;
      ret (OB_SUCCESS, Some (proposal_id, election_epoch)).
Definition end_degrade m : Z * S :=
  if negb (is_inited_ m) then (OB_NOT_INIT, m) else (OB_SUCCESS, set_chg (λ h, with_flags false (will_upgrade_ h) h) m).
Definition set_sync_to_degraded_learners : M S unit :=
  modify (set_chg (λ h, with_flags (is_sw_interrupted_by_degrade_ h) true h)) ;;;
  let! now := ask current_time in modify (set_tms (with_upgrade_time now)).

(** ** The first configuration *)
Definition set_initial_config_info_ (config_info : LogConfigInfoV2) (proposal_id : Z) (v : LogConfigVersion) : M S (Z * LogConfigVersion) :=
  let! is_arb := ask state_is_arb_replica in
  let! self := gets self_ in
  let valid_replica_type := if addr_eqb (server_ (arbitration_member_ (config_ config_info))) self then is_arb else true in
  if negb valid_replica_type then ret (OB_NOT_SUPPORTED, v)
  else
    let '(rc, v) := version_generate proposal_id 1 v in
    if ob_failed rc then ret (rc, v)
    else
      let info := with_config (set_config_version v) config_info in
      let! m := get in
      if negb (info_is_valid info) then ret (OB_INVALID_ARGUMENT, v)
      else if version_gtb (curr_version m) v || negb (version_ltb (persistent_config_version_ (cfg m)) v) then ret (OB_SUCCESS, v)
      else
        let '(rc, x) := meta_generate proposal_id info info proposal_id (Lsn.mkLSN PALF_INITIAL_LSN_VAL) proposal_id (meta m) in
        modify (set_cfg (with_meta x)) ;;;
        if ob_failed rc then ret (rc, v)
        else
          let! rc := append_config_info_ info in
          if ob_failed rc then ret (rc, v)
          else
            let! rc := update_election_meta_ info in
            if ob_failed rc then ret (rc, v)
            else let! rc := ask (engine_submit_flush_change_config_meta_task proposal_id (version_of info) x) in ret (rc, v).
(** Without and with an arbitration member. *)
Definition set_initial_member_list (member_list : ObMemberList) (replica_num : Z) (learner_list : list ObMember) (proposal_id : Z)
    (v : LogConfigVersion) : M S (Z * LogConfigVersion) :=
  let! m := get in
  if negb (is_inited_ m) then ret (OB_NOT_INIT, v)
  else if negb (list_is_valid member_list) || negb (num_ok replica_num) || (INVALID_PROPOSAL_ID =? proposal_id)
          || negb (can_memberlist_majority_ (get_member_number member_list) replica_num)
  then ret (OB_INVALID_ARGUMENT, v)
  else
    set_initial_config_info_
      (with_config (λ c, set_learners (snd (deep_copy_learners learner_list)) (set_num replica_num (set_members member_list c))) (curr m))
      proposal_id v.
Definition set_initial_member_list_with_arb (member_list : ObMemberList) (arb_member : ObMember) (replica_num : Z)
    (learner_list : list ObMember) (proposal_id : Z) (v : LogConfigVersion) : M S (Z * LogConfigVersion) :=
  let! m := get in
  if negb (is_inited_ m) then ret (OB_NOT_INIT, v)
  else if negb (list_is_valid member_list) || negb (member_is_valid arb_member) || negb (num_ok replica_num)
          || (INVALID_PROPOSAL_ID =? proposal_id) || negb (can_memberlist_majority_ (get_member_number member_list) replica_num)
  then ret (OB_INVALID_ARGUMENT, v)
  else
    let! r := set_initial_config_info_
                (with_config (λ c, set_learners (snd (deep_copy_learners learner_list))
                                     (set_arb arb_member (set_num replica_num (set_members member_list c)))) (curr m))
                proposal_id v in
    (if ob_failed (fst r) then ret tt else modify (set_cfg (with_forwarding proposal_id))) ;;; ret r.
Definition forward_initial_config_meta_to_arb : M S Z :=
  let! m := get in
  let arb_member := arbitration_member_ (curr_config m) in
  let forwarding := forwarding_config_proposal_id_ (cfg m) in
  if negb (is_inited_ m) then ret OB_NOT_INIT
  else if (INVALID_PROPOSAL_ID =? forwarding) || negb (member_is_valid arb_member) then ret OB_SUCCESS
  else
    let! pid := ask state_get_proposal_id in
    if negb (forwarding =? pid) || negb (forwarding =? meta_proposal_id_ (meta m))
    then modify (set_cfg (with_forwarding INVALID_PROPOSAL_ID)) ;;; ret OB_SUCCESS
    else
      let '(rc, forward_list) := add_member arb_member [] in
      if ob_failed rc then ret rc
      else
        ask (engine_submit_change_config_meta_req forward_list (meta_proposal_id_ (meta m)) (prev_log_proposal_id_ (meta m))
               (prev_lsn_ (meta m)) (prev_mode_pid_ (meta m)) (meta m)).
Definition force_set_member_list (args : LogConfigChangeArgs) (proposal_id : Z) : M S Z :=
  let! inited := gets is_inited_ in
  if negb inited then ret OB_NOT_INIT
  else if negb (args_is_valid args) || (INVALID_PROPOSAL_ID =? proposal_id) then ret OB_INVALID_ARGUMENT
  else
    let! r := append_config_meta_ proposal_id args in
    if ob_failed (fst r) then ret (fst r)
    else let! m := get in ask (engine_submit_flush_change_config_meta_task proposal_id (curr_version m) (meta m)).

(** ** The log barrier *)

(** The code, the end of the flushed log, whether the configuration is the same, and the
    last log that slid, for output arguments as they are before the call; by a request to
    the server, and by the cheapest way. *)
Definition pre_check_server (server : ObAddr) (config_version : LogConfigVersion) (need_purge_throttling : bool) :
    M S (Z * (LSN * bool * Z)) :=
  let! r := ask (engine_submit_config_change_pre_check_req server config_version need_purge_throttling conn_timeout_us) in
  let '(rc, (is_normal_replica, need_update_config_meta, lsn, last_slide)) := r in
  if ob_failed rc then ret (rc, (no_lsn, false, 0))
  else if negb is_normal_replica then ret (OB_EAGAIN, (no_lsn, false, 0))
  else ret (OB_SUCCESS, (lsn, negb need_update_config_meta, last_slide)).
Definition check_servers_lsn_and_version_ (server : ObAddr) (config_version : LogConfigVersion)
    (force_remote_check need_purge_throttling : bool) : M S (Z * (LSN * bool * Z)) :=
  let! self := gets self_ in
  let pre_check := pre_check_server server config_version need_purge_throttling in
  if addr_eqb self server then
    let! lsn := ask sw_get_max_flushed_end_lsn in
    (if need_purge_throttling then ask engine_submit_purge_throttling_task ;;; ret tt else ret tt) ;;;
    ret (OB_SUCCESS, (lsn, false, 0))
  else if force_remote_check then pre_check
  else
    let! r := ask (sw_get_server_ack_info server) in
    let '(rc, (ack_lsn, last_ack_time_us)) := r in
    if ob_failed rc && negb (OB_ENTRY_NOT_EXIST =? rc) then ret (rc, (no_lsn, false, 0))
    else
      let! fresh := (if ob_failed rc then ret false
                     else let! now := ask current_time in ret (now - last_ack_time_us <? conn_timeout_us)) in
      if (fresh : bool) then ret (OB_SUCCESS, (ack_lsn, false, 0)) else pre_check.

(** What the loop of [sync_get_committed_end_lsn_] collects: the ends of the logs in
    [lsn_array], [paxos_resp_cnt], and of the added member whether it has the configuration,
    the end of its log and the last log that slid. *)
Record Sync : Set := mkSync { lsns : list LSN; paxos_resp_cnt : Z; added_ok : bool; added_lsn : LSN; added_slide : Z }.
Fixpoint sync_members (args : LogConfigChangeArgs) (arb : ObAddr) (config_version : LogConfigVersion)
    (need_purge_throttling need_remote_check : bool) (l : list ObMember) (y : Sync) : M S Sync :=
  match l with
  | [] => ret y
  | x :: l =>
      let server := server_ x in
      let is_added_member := is_add_member_list (a_type_ args) && addr_eqb (server_ (a_server_ args)) server in
      let! r := check_servers_lsn_and_version_ server config_version
                  (is_added_member || need_purge_throttling || need_remote_check) need_purge_throttling in
      let '(rc, (lsn, has_same_version, last_slide)) := r in
      let is_arb_member := addr_eqb server arb in
      let y :=
        mkSync (if negb (ob_failed rc) && negb is_arb_member && Lsn.is_valid lsn then lsns y ++ [lsn] else lsns y)
          (if negb (ob_failed rc) && (is_arb_member || Lsn.is_valid lsn) then paxos_resp_cnt y + 1 else paxos_resp_cnt y)
          (if is_added_member then has_same_version else added_ok y)
          (if is_added_member then lsn else added_lsn y) (if is_added_member then last_slide else added_slide y) in
      sync_members args arb config_version need_purge_throttling need_remote_check l y
  end.
(** The code, [committed_end_lsn] and what was collected. *)
Definition sync_get_committed_end_lsn_ (args : LogConfigChangeArgs) (new_config_info : LogConfigInfoV2)
    (need_purge_throttling need_remote_check : bool) : M S (Z * (LSN * Sync)) :=
  let! m := get in
  let c := config_ new_config_info in
  let '(rc, (new_paxos_memberlist, new_paxos_replica_num, _)) := convert_to_complete_config c in
  let! y := sync_members args (server_ (arbitration_member_ c)) (curr_version m) need_purge_throttling need_remote_check
              (if ob_failed rc then [] else new_paxos_memberlist)
              (mkSync [] 0 (negb (is_add_member_list (a_type_ args))) no_lsn 0) in
  ret (if negb (added_ok y) then (OB_EAGAIN, (no_lsn, y))
       else if (paxos_resp_cnt y <? Z.quot new_paxos_replica_num 2 + 1)
               || (Z.of_nat (length (lsns y)) <? Z.quot (log_sync_replica_num_ c) 2 + 1)
       then (OB_EAGAIN, (no_lsn, y))
       else (rc, (default no_lsn (LogCommit.lsn_sort (lsns y) !! Z.to_nat (Z.quot (log_sync_replica_num_ c) 2)), y))).

(** Whether the new members are near enough to the leader, by their positions and by those
    half a second later; the result is the code and [added_member_has_new_version]. *)
Definition catches_up (lsn1 lsn2 leader1 leader2 : LSN) : Z :=
  if Lsn.lsn_geb lsn2 leader2 then OB_SUCCESS
  else
    let sync_speed_gap := s64 (u64 (Lsn.lsn_diff lsn2 lsn1 * 2) - u64 (Lsn.lsn_diff leader2 leader1 * 2)) in
    if sync_speed_gap <=? 0 then OB_EAGAIN
    else
      let expected_sync_time_s := s64 (Z.quot (Lsn.lsn_diff leader2 lsn2) sync_speed_gap) in
      if expected_sync_time_s * 1000000 <=? Z.quot PALF_LEADER_ACTIVE_SYNC_TIMEOUT_US 4 then OB_SUCCESS else OB_EAGAIN.
Definition check_follower_sync_status_ (args : LogConfigChangeArgs) (new_config_info : LogConfigInfoV2) : M S (Z * bool) :=
  let t := a_type_ args in
  let! leader_last_slide_log_id := ask sw_get_last_slide_log_id in
  let! leader1 := ask sw_get_committed_end_lsn in
  let! need_skip_log_barrier := ask mode_need_skip_log_barrier in
  if get_member_number (log_sync_memberlist_ (config_ new_config_info)) =? 0
  then ret (OB_INVALID_ARGUMENT, negb (is_add_member_list t))
  else
    let! r := sync_get_committed_end_lsn_ args new_config_info (type_in t [DEGRADE_ACCEPTOR_TO_LEARNER]) true in
    let '(rc, (lsn1, y)) := r in
    let! m := get in
    if ob_failed rc then ret (rc, added_ok y)
    else if (need_skip_log_barrier : bool) then ret (OB_SUCCESS, added_ok y)
    else if Lsn.lsn_geb lsn1 leader1 then ret (OB_SUCCESS, added_ok y)
    else if is_add_log_sync_member_list t
            && (Z.quot (log_sync_replica_num_ (curr_config m)) 2 <? Z.quot (log_sync_replica_num_ (config_ new_config_info)) 2)
            && member_is_valid (arbitration_member_ (curr_config m))
    then
      ret (if Lsn.is_valid (added_lsn y) && (Lsn.lsn_diff leader1 (added_lsn y) <? LogCommit.LEADER_DEFAULT_GROUP_BUFFER_SIZE)
              && negb (added_slide y =? INT64_MAX) && (leader_last_slide_log_id - added_slide y <? PALF_SLIDING_WINDOW_SIZE)
           then OB_SUCCESS else OB_EAGAIN, added_ok y)
    else
      let! leader2 := ask sw_get_committed_end_lsn in
      let! r := sync_get_committed_end_lsn_ args new_config_info false true in
      let '(rc, (lsn2, y)) := r in
      ret (if ob_failed rc then rc else catches_up lsn1 lsn2 leader1 leader2, added_ok y).
Definition check_follower_sync_status (args : LogConfigChangeArgs) (new_config_info : LogConfigInfoV2) : M S (Z * bool) :=
  check_follower_sync_status_ args new_config_info.
Definition wait_log_barrier_ (args : LogConfigChangeArgs) (new_config_info : LogConfigInfoV2) : M S Z :=
  let! curr_ts_us := ask current_time in
  let! need_skip_log_barrier := ask mode_need_skip_log_barrier in
  let! m := get in
  let x := tms m in
  let prev_log_end_lsn := b_end_lsn (checking_barrier_ (cfg m)) in
  let start := if OB_INVALID_TIMESTAMP =? start_wait_barrier_time_us_ x then curr_ts_us else start_wait_barrier_time_us_ x in
  modify (set_tms (λ x, with_wait_times start (last_wait_barrier_time_us_ x) (last_wait_committed_end_lsn_ x) x)) ;;;
  if get_member_number (log_sync_memberlist_ (config_ new_config_info)) =? 0 then ret OB_INVALID_ARGUMENT
  else if (MAX_WAIT_BARRIER_TIME_US_FOR_RECONFIGURATION <? curr_ts_us - start) && negb (type_in (a_type_ args) [STARTWORKING])
  then
    modify (set_tms (λ x, with_wait_times curr_ts_us (last_wait_barrier_time_us_ x) (last_wait_committed_end_lsn_ x) x)) ;;;
    ret OB_LOG_NOT_SYNC
  else
    let! r := sync_get_committed_end_lsn_ args new_config_info true false in
    let '(rc, (first_committed_end_lsn, _)) := r in
    if ob_failed rc then ret rc
    else if (need_skip_log_barrier : bool) then ret OB_SUCCESS
    else if Lsn.lsn_geb first_committed_end_lsn prev_log_end_lsn then ret OB_SUCCESS
    else
      let! now := ask current_time in
      let! x := gets tms in
      let last := last_wait_barrier_time_us_ x in
      if OB_INVALID_TIMESTAMP =? last
      then modify (set_tms (with_wait_times (start_wait_barrier_time_us_ x) now first_committed_end_lsn)) ;;; ret OB_EAGAIN
      else if MAX_WAIT_BARRIER_TIME_US_FOR_STABLE_LOG <? now - last then
        if Lsn.lsn_eqb (last_wait_committed_end_lsn_ x) first_committed_end_lsn
        then modify (set_tms (with_wait_times (start_wait_barrier_time_us_ x) OB_INVALID_TIMESTAMP no_lsn)) ;;; ret OB_LOG_NOT_SYNC
        else modify (set_tms (with_wait_times (start_wait_barrier_time_us_ x) now first_committed_end_lsn)) ;;; ret OB_EAGAIN
      else ret OB_EAGAIN.
Definition wait_log_barrier_before_start_working_ (args : LogConfigChangeArgs) : M S Z :=
  let! pid := ask state_get_proposal_id in
  let! r := generate_new_config_info_ pid args in
  let '(rc, config_info) := r in
  if ob_failed rc then ret rc
  else if negb (member_is_valid (arbitration_member_ (config_ config_info))) then ret OB_SUCCESS
  else
    chk! ask state_set_changing_config_with_arb else
    chk! renew_config_change_barrier_ else
    (let! rc := wait_log_barrier_ args config_info in
     ret (if ob_failed rc && negb (OB_EAGAIN =? rc) then (if OB_LOG_NOT_SYNC =? rc then OB_EAGAIN else rc) else rc)).
Definition confirm_start_working_log (proposal_id election_epoch : Z) (config_version : LogConfigVersion) : M S (Z * LogConfigVersion) :=
  let! m := get in
  let has_finished :=
    match state_ (chg m) with
    | INIT => version_is_valid config_version
    | CHANGING => version_is_valid config_version && version_gtb (curr_version m) config_version
    end in
  let args := server_args no_member 1 no_version STARTWORKING in
  if negb (is_inited_ m) then ret (OB_NOT_INIT, config_version)
  else if is_sw_interrupted_by_degrade_ (chg m) then ret (OB_EAGAIN, config_version)
  else if has_finished then ret (OB_SUCCESS, config_version)
  else
    let! rc := (if bool_decide (INIT = state_ (chg m)) then wait_log_barrier_before_start_working_ args else ret OB_SUCCESS) in
    if ob_failed rc then ret (rc, config_version) else change_config_ args proposal_id election_epoch config_version.

(** ** Messages and callbacks *)
Definition can_receive_config_log (leader : ObAddr) (x : LogConfigMeta) : M S bool :=
  let! m := get in
  let config_version := version_of (curr_ x) in
  if negb (is_inited_ m) || negb (version_is_valid config_version) then ret false
  else
    (if version_eqb (persistent_config_version_ (cfg m)) config_version
     then ask (engine_submit_change_config_meta_resp leader (meta_proposal_id_ x) config_version) ;;; ret tt else ret tt) ;;;
    ret (version_gtb config_version (curr_version m)).
Definition receive_config_log (x : LogConfigMeta) : M S Z :=
  let! inited := gets is_inited_ in
  if negb inited then ret OB_NOT_INIT
  else if negb (meta_is_valid x) then ret OB_INVALID_ARGUMENT
  else
    chk! ask (engine_submit_flush_change_config_meta_task (meta_proposal_id_ x) (version_of (curr_ x)) x) else
    chk! update_election_meta_ (curr_ x) else
    chk! append_config_info_ (curr_ x) else
    (modify (set_cfg (with_meta x)) ;;; ret OB_SUCCESS).
Definition version_max (v w : LogConfigVersion) : LogConfigVersion := if version_gtb v w then v else w.
Definition after_flush_config_log (config_version : LogConfigVersion) : M S Z :=
  modify (set_cfg (λ c, with_persistent (if version_is_valid (persistent_config_version_ c)
                                          then version_max (persistent_config_version_ c) config_version else config_version) c)) ;;;
  let! m := get in
  ask (tree_after_flush (contains (self_ m) (alive_paxos_memberlist_ (cfg m)))).
(** The code and [is_majority]. *)
Definition ack_config_log (sender : ObAddr) (proposal_id : Z) (config_version : LogConfigVersion) m : Z * bool * S :=
  let is_in_memberlist := contains sender (alive_paxos_memberlist_ (cfg m)) in
  if negb (is_inited_ m) then (OB_NOT_INIT, false, m)
  else if negb (addr_is_valid sender) then (OB_INVALID_ARGUMENT, false, m)
  else if negb (proposal_id =? meta_proposal_id_ (meta m)) || negb (version_eqb config_version (curr_version m))
  then (OB_STATE_NOT_MATCH, false, m)
  else
    let m := set_chg (λ h, with_resend (resend_config_version_ h)
                             (snd (remove_learner_member (new_member sender 1) (resend_log_list_ h))) h) m in
    if is_in_memberlist && negb (bool_decide (INIT = state_ (chg m))) then
      let '(rc, acks) := SimpleMemberList.add_server sender (ms_ack_list_ (chg m)) in
      let m := set_chg (with_acks acks) m in
      if ob_failed rc && negb (rc =? OB_ENTRY_EXIST) then (rc, false, m) else (OB_SUCCESS, is_reach_majority_ m, m)
    else (OB_SUCCESS, false, m).

(** ** Background work of the leader *)
Definition try_resend_config_log_ (proposal_id : Z) : M S Z :=
  let! m := get in
  if bool_decide (INIT = state_ (chg m)) && negb (Z.of_nat (length (resend_log_list_ (chg m))) =? 0)
     && version_is_valid (resend_config_version_ (chg m))
  then
    let! due := palf_reach_time_interval PALF_RESEND_CONFIG_LOG_INTERVAL_US last_submit_config_log_time_us_ with_submit_time in
    if (due : bool) then
      let b := reconfig_barrier_ (cfg m) in
      ask (engine_submit_change_config_meta_req (resend_log_list_ (chg m)) proposal_id (b_log_pid b) (b_lsn b) (b_mode_pid b) (meta m))
    else ret OB_SUCCESS
  else ret OB_SUCCESS.
Definition submit_broadcast_leader_info_ (proposal_id : Z) : M S Z :=
  let! learners := gets (λ m, all_learnerlist_ (cfg m)) in
  if INVALID_PROPOSAL_ID =? proposal_id then ret OB_INVALID_ARGUMENT
  else if negb (0 <? Z.of_nat (length learners)) then ret OB_SUCCESS
  else ask (engine_submit_prepare_meta_req learners proposal_id).
Definition submit_broadcast_leader_info (proposal_id : Z) : M S Z :=
  let! inited := gets is_inited_ in if negb inited then ret OB_NOT_INIT else submit_broadcast_leader_info_ proposal_id.
(** A change that its caller no longer waits for. *)
Definition change_in_background (proposal_id : Z) : M S unit :=
  let! m := get in
  change_config_ (running_args_ (chg m)) proposal_id (election_leader_epoch_ (chg m)) (bkgd_config_version_ (chg m)) ;;; ret tt.
(** The code and [need_change_config]. *)
Definition leader_do_loop_work : M S (Z * bool) :=
  let! proposal_id := ask state_get_proposal_id in
  let! leader := ask state_get_leader in
  let! is_leader_active := ask state_is_leader_active in
  let! m := get in
  let! r :=
    (if addr_eqb (self_ m) leader then
       let! need_change_config :=
         (if bool_decide (state_ (chg m) ≠ INIT) && need_change_config_bkgd_ (chg m) then
            let! b := is_state_changed_ in
            if fst b then change_in_background proposal_id ;;; ret false else ret (snd b)
          else ret false) in
       let! rc := try_resend_config_log_ proposal_id in
       let! h := gets chg in
       let! due := (if will_upgrade_ h
                    then palf_reach_time_interval (5 * 1000 * 1000) last_start_upgrade_time_us_ with_upgrade_time else ret false) in
       (if (due : bool) then modify (set_chg (λ h, with_flags (is_sw_interrupted_by_degrade_ h) false h)) else ret tt) ;;;
       ret (rc, need_change_config)
     else ret (OB_SUCCESS, false)) in
  let '(rc, need_change_config) := r in
  let! due := (if (is_leader_active : bool)
               then palf_reach_time_interval PALF_BROADCAST_LEADER_INFO_INTERVAL_US last_broadcast_leader_info_time_us_ with_broadcast_time
               else ret false) in
  if (due : bool) then let! rc := submit_broadcast_leader_info_ proposal_id in ret (rc, need_change_config)
  else ret (rc, need_change_config).
Definition switch_state : M S Z :=
  let! proposal_id := ask state_get_proposal_id in
  let! leader := ask state_get_leader in
  let! m := get in
  if addr_eqb (self_ m) leader && bool_decide (state_ (chg m) ≠ INIT) && need_change_config_bkgd_ (chg m) then
    let! b := is_state_changed_ in
    (if snd b then change_in_background proposal_id else ret tt) ;;; ret OB_SUCCESS
  else ret OB_SUCCESS.

Definition pre_sync_config_log_and_mode_meta_ (server : ObMember) (proposal_id : Z) (is_arb_replica : bool) : M S Z :=
  let! m := get in
  let b := reconfig_barrier_ (cfg m) in
  let '(pid, lsn, mode_pid) :=
    if is_arb_replica then (prev_log_proposal_id_ (meta m), prev_lsn_ (meta m), prev_mode_pid_ (meta m))
    else (b_log_pid b, b_lsn b, b_mode_pid b) in
  if negb (member_is_valid server) then ret OB_INVALID_ARGUMENT
  else if bool_decide (CHANGING = state_ (chg m)) then ret (if is_arb_replica then OB_ERR_UNEXPECTED else OB_EAGAIN)
  else
    chk! ask (mode_submit_fetch_mode_meta_resp (server_ server) proposal_id mode_pid) else
    ask (engine_submit_change_config_meta_req (snd (add_member server [])) proposal_id pid lsn mode_pid (meta m)).
Definition pre_sync_config_log_and_mode_meta (server : ObMember) (proposal_id : Z) : M S Z :=
  let! inited := gets is_inited_ in
  if negb inited then ret OB_NOT_INIT else pre_sync_config_log_and_mode_meta_ server proposal_id false.
Fixpoint sync_meta_to (l : list ObMember) (proposal_id : Z) : M S Z :=
  match l with
  | [] => ret OB_SUCCESS
  | x :: l =>
      let! self := gets self_ in
      if addr_eqb self (server_ x) then sync_meta_to l proposal_id
      else chk! pre_sync_config_log_and_mode_meta_ x proposal_id true else sync_meta_to l proposal_id
  end.
Definition sync_meta_for_arb_election_leader : M S Z :=
  let! is_arb_replica := ask state_is_arb_replica in
  let! m := get in
  if negb (is_inited_ m) then ret OB_NOT_INIT
  else if negb is_arb_replica then ret OB_SUCCESS
  else
    let! due := palf_reach_time_interval (500 * 1000) last_sync_meta_for_arb_election_leader_time_us_ with_sync_time in
    if negb due then ret OB_SUCCESS
    else
      let! r := ask election_get_current_leader_likely in
      let '(rc, ele_leader) := r in
      if ob_failed rc then ret OB_SUCCESS
      else if addr_eqb (self_ m) ele_leader then
        let! proposal_id := ask state_get_proposal_id in sync_meta_to (alive_paxos_memberlist_ (cfg m)) proposal_id
      else ret OB_SUCCESS.
End config_mgr.
End LogConfigMgr.
