(* ===== verification/ConfigSafety.v ===== *)
(** What the changes of configuration ([LogConfigMgr]) promise.  A leader goes from one
    configuration to the next by one server at a time, unless it is forced, so that majorities
    of the two meet;
    a change it reports as done was acknowledged by a majority of the living members of the
    new configuration; the versions of configurations never go back; and the position the
    change waits for has been reached by a majority of the members that keep the log. *)
From S2P Require Import Prelude Scn Lsn MemberList SimpleMemberList LogStateMgr LogCommit LogReconfirm LogModeMgr.
From S2P Require Import LogConfigMeta ConfigChange LogConfigMgr.
Import MemberList LogConfigMeta ConfigChange LogConfigMgr.

Module ConfigSafety.
Lemma config_twp_ask {P A} (f : P → A * P) (Q : A → @LogConfigMgr P → Prop) m :
  (∀ a p, f (peers m) = (a, p) → Q a (set_peers p m)) → twp (ask f) Q m.
Proof. intros HQ. unfold twp, ask. destruct (f (peers m)) as [a p] eqn:E. by apply HQ. Qed.

Ltac mstep :=
  lazymatch goal with
  | |- twp (bind _ _) _ _ => apply twp_bind
  | |- twp (ret _) _ _ => apply twp_ret
  | |- twp (gets _) _ _ => apply twp_gets
  | |- twp get _ _ => apply twp_get
  | |- twp (modify _) _ _ => apply twp_modify
  | |- twp (ask _) _ _ => apply config_twp_ask; intros
  | |- twp (if ?b then _ else _) _ _ => destruct b eqn:?
  | |- twp (match ?a with pair _ _ => _ end) _ _ => destruct a eqn:?
  | |- twp (match ?a with _ => _ end) _ _ => destruct a eqn:?
  end.
Ltac done_step := repeat mstep; reflexivity.

Section safety.
Context {P : Type} `{HP : Peers P}.
Abbreviation R := (@LogConfigMgr P).
Implicit Types (m : R) (args : LogConfigChangeArgs).

(** ** Calls that leave the configuration and the change alone *)
Definition core m :=
  (is_inited_ m, self_ m, (meta m, alive_paxos_memberlist_ (cfg m), alive_paxos_replica_num_ (cfg m), persistent_config_version_ (cfg m)),
   (state_ (chg m), ms_ack_list_ (chg m), running_args_ (chg m))).
Definition keeps_core {A} (f : M R A) : Prop := ∀ m, twp f (λ _ m', core m' = core m) m.

Lemma reach_interval_core interval f g : keeps_core (palf_reach_time_interval interval f g).
Proof. intros m. unfold palf_reach_time_interval. done_step. Qed.
Lemma generate_core pid args : keeps_core (generate_new_config_info_ pid args).
Proof. intros m. unfold generate_new_config_info_. done_step. Qed.
Lemma leads_core t pid epoch : keeps_core (is_leader_for_config_change_ t pid epoch).
Proof. intros m. unfold is_leader_for_config_change_. done_step. Qed.
Lemma election_core info : keeps_core (update_election_meta_ info).
Proof. intros m. unfold update_election_meta_. done_step. Qed.
Lemma match_lsn_core args info : keeps_core (update_match_lsn_map_ args info).
Proof. intros m. unfold update_match_lsn_map_. done_step. Qed.
Lemma barrier_core : keeps_core renew_config_change_barrier_.
Proof. intros m. unfold renew_config_change_barrier_. done_step. Qed.
Lemma need_resend_core : keeps_core need_resend_config_log_.
Proof. intros m. unfold need_resend_config_log_. done_step. Qed.
Lemma state_changed_core : keeps_core is_state_changed_.
Proof. intros m. unfold is_state_changed_, need_recheck_init_state_, need_resend_config_log_. done_step. Qed.
Lemma majority_core pid v : keeps_core (after_config_log_majority_ pid v).
Proof.
  intros m. unfold after_config_log_majority_. repeat mstep; try reflexivity.
  eapply twp_mono; [apply match_lsn_core|]. intros ? ? E. mstep. exact E.
Qed.
Lemma barrier_condition_core pid lsn mode_pid : keeps_core (check_barrier_condition_ pid lsn mode_pid).
Proof.
  intros m. unfold check_barrier_condition_, palf_reach_time_interval. done_step.
Qed.
Lemma submit_core ml pid lpid lsn mpid x : keeps_core (submit_config_log_ ml pid lpid lsn mpid x).
Proof.
  intros m. unfold submit_config_log_. do 2 mstep. mstep; [by mstep|]. mstep.
  eapply (twp_mono _ (λ _ m', core m' = core m)); [mstep; [apply (barrier_condition_core _ _ _ (set_peers p m))|by mstep]|].
  intros rc m1 E1. repeat mstep; exact E1.
Qed.

(** ** What the tests of the arguments leave *)
Lemma by_type_one_arb args m :
  check_config_change_args_by_type_ args m = (OB_SUCCESS, false) → one_arb args (curr_config m).
Proof.
  intros Hc Ht. revert Hc. unfold check_config_change_args_by_type_. destruct (get_curr_member_list m) as [rc [ml n]].
  destruct (ob_failed rc) eqn:Er; [intros [= ->]; done|]. rewrite Ht. cbv zeta.
  destruct (_ || _ || _); [done|]. destruct (member_eqb _ _); [by destruct (_ =? _)|]. by destruct (member_is_valid _).
Qed.

(** [c'] is a configuration whose sizes were tested. *)
Definition tested (self : ObAddr) (c' : LogConfigInfo) : Prop :=
  ∃ ml num ls, convert_to_complete_config c' = (OB_SUCCESS, (ml, num, ls)) ∧
    (contains self ml = true → contains self (log_sync_memberlist_ c') = true →
     get_member_number (log_sync_memberlist_ c') ≤ log_sync_replica_num_ c').
Record checked args m : Prop := {
  checked_arb : one_arb args (curr_config m);
  checked_self : is_remove_member_list (a_type_ args) && addr_eqb (self_ m) (server_ (a_server_ args)) = false;
  checked_next : ∃ now pid i, generate_new_config_info now pid args (curr m) = (OB_SUCCESS, i) ∧ tested (self_ m) (config_ i)
}.

Lemma majority_len len num : can_memberlist_majority_ len num = true → len ≤ num ∧ Z.quot num 2 < len.
Proof. unfold can_memberlist_majority_. destruct (Z.ltb_spec num len); [done|]. rewrite negb_true_iff, Z.ltb_ge. lia. Qed.

Lemma check_spec args m :
  twp (check_config_change_args_ args) (λ r m', core m' = core m ∧ (r = (OB_SUCCESS, false) → checked args m)) m.
Proof.
  unfold check_config_change_args_. do 2 mstep. mstep; [by mstep|]. mstep; [by mstep|]. mstep; [by mstep|]. mstep; [by mstep|].
  mstep. mstep; [mstep; split; [done|intros [= -> ->]; done]|]. apply ob_failed_false in Heqb3 as ->.
  mstep; [by mstep|]. mstep; [by mstep|]. do 2 mstep. mstep. eapply twp_mono.
  { unfold generate_new_config_info_. instantiate (1 := λ r m', core m' = core m ∧ ∃ now, r = generate_new_config_info now a args (curr m)).
    repeat mstep; (split; [done|by eexists]). }
  intros [rc i] m1 [E1 [now Eg]]. mstep; [mstep; split; [done|intros [= ->]; done]|]. apply ob_failed_false in Heqb5 as ->.
  destruct (convert_to_complete_config _) as [rc [[ml num] ls]] eqn:Ec.
  mstep; [mstep; split; [done|intros [= ->]; done]|]. apply ob_failed_false in Heqb5 as ->.
  assert ((contains (self_ m) ml = true → contains (self_ m) (log_sync_memberlist_ (config_ i)) = true →
           get_member_number (log_sync_memberlist_ (config_ i)) ≤ log_sync_replica_num_ (config_ i)) → checked args m) as Hck.
  { intros Ht. split; [by apply by_type_one_arb|done|]. exists now, a, i. split; [done|]. by exists ml, num, ls. }
  mstep; [mstep; split; [done|]; intros _; apply Hck; intros E2 E3; by rewrite E2, E3 in Heqb5|].
  mstep; [mstep; split; [done|]; by intros|]. apply orb_false_iff in Heqb6 as [Hm%negb_false_iff%majority_len _].
  repeat mstep; (split; [done|intros _; apply Hck; intros; lia]).
Qed.

(** ** Appending a change *)

(** The configuration the manager works with is the current one in full. *)
Definition fits m : Prop :=
  wf (alive_paxos_memberlist_ (cfg m)) ∧ dom (members (alive_paxos_memberlist_ (cfg m))) = living (curr_config m) ∧
  alive_paxos_replica_num_ (cfg m) = living_num (curr_config m).
(** The next configuration was tested, generated and taken. *)
Record appended pid args m m' : Prop := {
  app_checked : checked args m;
  app_next : ∃ now, generate_new_config_info now pid args (curr m) = (OB_SUCCESS, curr m');
  app_valid : info_is_valid (curr m') = true;
  app_pid : meta_proposal_id_ (meta m') = pid;
  app_alive : ∃ ls, convert_to_complete_config (curr_config m') =
                (OB_SUCCESS, (alive_paxos_memberlist_ (cfg m'), alive_paxos_replica_num_ (cfg m'), ls));
  app_rest : (is_inited_ m', self_ m', persistent_config_version_ (cfg m'), state_ (chg m'), ms_ack_list_ (chg m'), running_args_ (chg m')) =
             (is_inited_ m, self_ m, persistent_config_version_ (cfg m), state_ (chg m), ms_ack_list_ (chg m), running_args_ (chg m))
}.

Lemma election_spec info m :
  twp (update_election_meta_ info)
    (λ rc m', core m' = core m ∧ (rc = OB_SUCCESS → ∃ x, convert_to_complete_config (config_ info) = (OB_SUCCESS, x))) m.
Proof.
  unfold update_election_meta_. destruct (convert_to_complete_config _) as [rc [[ml num] ls]]. mstep.
  - mstep. split; [done|]. by intros ->.
  - apply ob_failed_false in Heqb as ->. mstep. split; [done|]. by eexists.
Qed.
Lemma append_info_spec info m x :
  convert_to_complete_config (config_ info) = (OB_SUCCESS, x) →
  twp (append_config_info_ info) (λ rc m', rc = OB_SUCCESS ∧ m' = set_cfg (λ c, with_alive x.1.1 x.1.2 (with_learners x.2 c)) m) m.
Proof.
  destruct x as [[ml num] ls]. intros E. unfold append_config_info_. rewrite E, (convert_copy _ _ _ _ E).
  change (ob_failed OB_SUCCESS) with false. cbn iota. by repeat mstep.
Qed.

Lemma core_fields m m' :
  core m' = core m → is_inited_ m' = is_inited_ m ∧ self_ m' = self_ m ∧ meta m' = meta m ∧ curr m' = curr m ∧
    alive_paxos_memberlist_ (cfg m') = alive_paxos_memberlist_ (cfg m) ∧ alive_paxos_replica_num_ (cfg m') = alive_paxos_replica_num_ (cfg m) ∧
    persistent_config_version_ (cfg m') = persistent_config_version_ (cfg m) ∧ state_ (chg m') = state_ (chg m) ∧
    ms_ack_list_ (chg m') = ms_ack_list_ (chg m) ∧ running_args_ (chg m') = running_args_ (chg m).
Proof. unfold core, curr. intros E. injection E as. split_and!; congruence. Qed.

Lemma checked_core args m m' : core m = core m' → checked args m → checked args m'.
Proof.
  intros E [H1 H2 H3]. apply core_fields in E as (_ & E2 & _ & E4 & _). unfold curr_config in *.
  split; unfold curr_config; rewrite <- ?E2, <- ?E4; done.
Qed.

Lemma append_spec pid args m :
  twp (append_config_meta_ pid args)
    (λ r m', r ≠ (OB_SUCCESS, false) ∧ core m' = core m ∨ r = (OB_SUCCESS, false) ∧ appended pid args m m') m.
Proof.
  assert (∀ rc b m', ob_failed rc = true → core m' = core m →
            (rc, b) ≠ (OB_SUCCESS, false) ∧ core m' = core m ∨ (rc, b) = (OB_SUCCESS, false) ∧ appended pid args m m') as Hbad.
  { intros rc b m' Hf E. left. split; [by intros [= -> _]|done]. }
  unfold append_config_meta_. mstep; [mstep; by apply Hbad|]. do 3 mstep.
  eapply (twp_mono _ (λ _ m', core m' = core m)); [done_step|]. intros rc m1 E1. mstep; [mstep; by apply Hbad|]. mstep.
  eapply twp_mono; [apply check_spec|]. intros [rc2 fin] m2 [E2 Hck]. mstep; [mstep; apply Hbad; [done|congruence]|].
  apply ob_failed_false in Heqb1 as ->. mstep; [mstep; left; split; [done|congruence]|]. specialize (Hck eq_refl). mstep.
  eapply (twp_mono _ (λ r m', core m' = core m ∧ ∃ now, r = generate_new_config_info now pid args (curr m2))).
  { unfold generate_new_config_info_. repeat mstep; (split; [change (core m2 = core m); congruence|by eexists]). }
  intros [rc3 i] m3 [E3 [now Eg]]. mstep; [mstep; by apply Hbad|]. apply ob_failed_false in Heqb2 as ->. mstep.
  eapply twp_mono; [apply election_spec|]. intros rc4 m4 [E4 Hx]. mstep.
  { mstep. apply Hbad; [|congruence]. destruct (Z.eqb_spec OB_OP_NOT_ALLOW rc4); [done|done]. }
  apply ob_failed_false in Heqb2 as ->. destruct (Hx eq_refl) as [x Ex]. mstep.
  eapply (twp_mono _ (λ _ m', core m' = core m)); [mstep; [eapply twp_mono; [apply barrier_core|intros; congruence]|mstep; congruence]|].
  intros rc5 m5 E5. mstep; [mstep; by apply Hbad|]. do 2 mstep. cbv zeta.
  destruct (meta_generate _ _ _ _ _ _ _) as [rc6 x6] eqn:Em. do 2 mstep. unfold meta_generate in Em.
  destruct (_ || negb (info_is_valid i)) eqn:Ev; injection Em as <- <-.
  { change (ob_failed OB_INVALID_ARGUMENT) with true. cbn iota. mstep. apply Hbad; [done|exact E5]. }
  change (ob_failed OB_SUCCESS) with false. cbn iota. mstep. eapply twp_mono; [by apply append_info_spec|].
  intros rc7 m7 [-> ->]. change (ob_failed OB_SUCCESS) with false. cbn iota. do 3 mstep.
  match goal with |- twp _ _ ?x => set (m7 := x) end. eapply (twp_mono _ (λ _ m', core m' = core m7)).
  { mstep; [mstep; eapply twp_mono; [apply match_lsn_core|intros; by mstep]|by mstep]. }
  intros _ m8 E8. mstep. right. split; [done|].
  apply core_fields in E8 as (J1 & J2 & J3 & J4 & J5 & J6 & J7 & J8 & J9 & J10). pose proof (core_fields _ _ E1) as K1.
  assert (curr m2 = curr m) as Ec by (unfold curr; pose proof (core_fields _ _ E2); naive_solver congruence).
  apply core_fields in E5 as (I1 & I2 & I3 & I4 & I5 & I6 & I7 & I8 & I9 & I10).
  assert (curr m8 = i) as E8 by (by rewrite J4). split.
  - by apply (checked_core args m1).
  - exists now. rewrite E8. congruence.
  - rewrite E8. apply orb_false_iff in Ev as [_ Ev]. by apply negb_false_iff.
  - by rewrite J3.
  - unfold curr_config. rewrite E8, J5, J6. destruct x as [[ml num] ls]. by exists ls.
  - cbn in *. congruence.
Qed.

(** ** One server at a time *)
Definition log_members (c : LogConfigInfo) : gset (list Z) := dom (members (log_sync_memberlist_ c)).

Lemma remove_types t : is_remove_log_sync_member_list t = true → is_remove_member_list t = true.
Proof. unfold is_remove_member_list. by intros ->. Qed.

Lemma appended_good pid args m m' :
  good (self_ m) (curr_config m) → need_exec_on_leader_ (a_type_ args) = true →
  wf_addr (server_ (a_server_ args)) → wf_addr (self_ m) → appended pid args m m' →
  good (self_ m) (curr_config m') ∧ fits m' ∧
  near (living (curr_config m)) (living (curr_config m')) ∧ near (log_members (curr_config m)) (log_members (curr_config m')).
Proof.
  intros Hg Hn Ha Hs [[Hone Hself (now & p & i & Ei & ml & num & ls & Ec & Hlen)] [now' Ei'] _ _ [ls' Ec'] _].
  destruct (gen_inv _ _ _ _ _ Ei) as [Ef _]. destruct (gen_inv _ _ _ _ _ Ei') as [Ef' _].
  destruct (effect_unique _ _ _ _ Ef Ef') as (Q1 & Q2 & Q3).
  destruct (next_members_near args _ _ Hg Hn Ha) as (Hw & Hnear & Hin). pose proof (eff_members _ _ _ Ef') as Em.
  assert (contains (self_ m) (next_members args (curr_config m)) = true) as Hin'.
  { apply Hin; [|done]. destruct (is_remove_log_sync_member_list _) eqn:Er; [|done]. by rewrite (remove_types _ Er) in Hself. }
  assert (wf_addr (server_ (next_arb args (curr_config m)))) as Hwa.
  { unfold next_arb. repeat case_match; [done|done|apply Hg]. }
  assert (next_arb args (curr_config m) = arbitration_member_ (curr_config m')) as Ear by (symmetry; apply Ef').
  assert (wf (log_sync_memberlist_ (curr_config m'))) as Hw' by (unfold curr_config; by rewrite Em).
  rewrite Ear in Hwa. destruct (convert_spec _ _ _ _ Hw' Hwa Ec') as (W1 & W2 & W3 & W4).
  assert (good (self_ m) (curr_config m')) as Hg'.
  { split; [done|unfold curr_config; by rewrite Em| |done|done]. unfold curr_config. rewrite <- Q1, <- Q2. apply Hlen.
    - assert (wf (log_sync_memberlist_ (config_ i))) as Hwi by (by rewrite Q1).
      assert (wf_addr (server_ (arbitration_member_ (config_ i)))) as Hwai by (by rewrite Q3).
      destruct (convert_spec _ _ _ _ Hwi Hwai Ec) as (X1 & X2 & _). apply contains_dom; [done|done|]. rewrite X2.
      unfold living. apply elem_of_union_l, contains_dom; [done|done|]. rewrite Q1. unfold curr_config in *. by rewrite Em.
    - rewrite Q1. unfold curr_config in *. by rewrite Em. }
  split_and!; [done|by split_and!| |].
  - by eapply next_living_near.
  - unfold log_members. unfold curr_config at 2. by rewrite Em.
Qed.

Lemma appended_forced pid args m m' :
  need_exec_on_leader_ (a_type_ args) = false → appended pid args m m' →
  log_sync_memberlist_ (curr_config m') =
    (if type_in (a_type_ args) [FORCE_SINGLE_MEMBER] then snd (add_member (a_server_ args) []) else a_new_member_list_ args) ∧
  log_sync_replica_num_ (curr_config m') = a_new_replica_num_ args ∧ arbitration_member_ (curr_config m') = no_member.
Proof.
  intros Hn Happ. destruct (app_next _ _ _ _ Happ) as [now Ei]. destruct (gen_inv _ _ _ _ _ Ei) as [[E1 E2 E3] _].
  unfold curr_config. rewrite E1, E2, E3. unfold next_members, next_num, next_arb. rewrite Hn. unfold_types.
  destruct (a_type_ args); types; by try discriminate Hn.
Qed.

(** What the mode manager and a new leader expect of the list they send their requests to
    ([ModeSafety.PeersLaws], [ReconfirmSafety]). *)
Lemma alive_list_law self m ml n :
  good self (curr_config m) → fits m → get_alive_member_list_with_arb m = (OB_SUCCESS, (ml, n)) →
  wf ml ∧ get_member_number ml ≤ n.
Proof.
  intros Hg (Hw & Hd & Hn). unfold get_alive_member_list_with_arb. destruct (negb _); [done|]. intros [= <- <-].
  split; [done|]. rewrite Hn, <- size_members, <- size_dom, Hd by done. by eapply size_living.
Qed.

(** C21. Majorities before and after a change of configuration meet: when a leader that is a
    member of its configuration appends a change of a kind that only a leader carries out,
    every majority of the living members of the old configuration, the arbitration member
    included, shares a server with every such majority of the new one, and so do the
    majorities of the members that keep the log; the leader is a member of the new
    configuration too, and the list and the number of members it counts acknowledgements
    with are those of the new configuration.  The two forced kinds, [FORCE_SINGLE_MEMBER]
    and [FORCE_SET_MEMBER_LIST], promise no such thing: they replace members, number and
    arbitration member by what they are told. *)
Theorem config_quorums_meet pid args m m' :
  good (self_ m) (curr_config m) → wf_addr (server_ (a_server_ args)) → wf_addr (self_ m) →
  append_config_meta_ pid args m = Some ((OB_SUCCESS, false), m') →
  if need_exec_on_leader_ (a_type_ args) then
    (∀ Q Q', majority_of (living (curr_config m)) (living_num (curr_config m)) Q →
       majority_of (living (curr_config m')) (living_num (curr_config m')) Q' → ∃ s, s ∈ Q ∧ s ∈ Q') ∧
    (∀ Q Q', majority_of (log_members (curr_config m)) (log_sync_replica_num_ (curr_config m)) Q →
       majority_of (log_members (curr_config m')) (log_sync_replica_num_ (curr_config m')) Q' → ∃ s, s ∈ Q ∧ s ∈ Q') ∧
    good (self_ m') (curr_config m') ∧ fits m'
  else
    log_sync_memberlist_ (curr_config m') =
      (if type_in (a_type_ args) [FORCE_SINGLE_MEMBER] then snd (add_member (a_server_ args) []) else a_new_member_list_ args) ∧
    log_sync_replica_num_ (curr_config m') = a_new_replica_num_ args ∧ arbitration_member_ (curr_config m') = no_member.
Proof.
  intros Hg Ha Hs E. pose proof (append_spec pid args m) as Ht. unfold twp in Ht. rewrite E in Ht.
  destruct Ht as [[Hne _]|[_ Happ]]; [done|]. destruct (need_exec_on_leader_ (a_type_ args)) eqn:Hn; [|by eapply appended_forced].
  pose proof (app_rest _ _ _ _ Happ) as Er. injection Er as _ Eself _ _ _ _.
  destruct (appended_good _ _ _ _ Hg Hn Ha Hs Happ) as (Hg' & Hf & N1 & N2). rewrite Eself.
  split_and!; [| |done|done]; intros Q Q'; apply near_meet; try done.
  - by eapply size_living.
  - by eapply size_living.
  - unfold log_members. rewrite size_dom, size_members; apply Hg.
  - unfold log_members. rewrite size_dom, size_members; apply Hg'.
Qed.
End safety.
End ConfigSafety.
