(* ===== verification/ConfigHistory.v ===== *)
(** The life of a configuration manager ([LogConfigMgr]) as a sequence of calls, with the
    acknowledgements it has received: a change that is reported as done was acknowledged by a
    majority of the living members of the new configuration, and the versions of the current
    and of the persistent configuration never go back. *)
From S2P Require Import Prelude Scn Lsn MemberList SimpleMemberList LogStateMgr LogCommit LogReconfirm LogModeMgr.
From S2P Require Import LogConfigMeta ConfigChange LogConfigMgr ConfigSafety.
Import MemberList LogConfigMeta ConfigChange LogConfigMgr ConfigSafety.

Module ConfigHistory.
Section history.
Context {P : Type} `{HP : Peers P}.
Abbreviation R := (@LogConfigMgr P).
Implicit Types (m : R) (args : LogConfigChangeArgs).

(** ** What a call of [change_config] can do *)
Inductive outcome args (v : LogConfigVersion) m : Z * LogConfigVersion → R → Prop :=
  | out_same r m' : core m' = core m → (state_ (chg m) = CHANGING → r.1 ≠ OB_SUCCESS) → outcome args v m r m'
  | out_begin pid m1 m' :
      state_ (chg m) = INIT → appended pid args m m1 → core m' = core (set_chg (begin_change args 0) m1) →
      outcome args v m (OB_EAGAIN, curr_version m1) m'
  | out_end m' :
      state_ (chg m) = CHANGING → is_reach_majority_ m = true → version_eqb v (curr_version m) = true →
      core m' = core (set_chg (end_change (curr_version m)) m) → outcome args v m (OB_SUCCESS, v) m'.

Lemma appended_core pid args m m0 m' : core m = core m0 → appended pid args m m' → appended pid args m0 m'.
Proof.
  intros E [H1 H2 H3 H4 H5 H6]. pose proof (core_fields _ _ E) as (E1 & E2 & E3 & E4 & E5 & E6 & E7 & E8 & E9 & E10).
  split; [by apply (checked_core args m)|by rewrite <- E4|done..|congruence].
Qed.
Lemma outcome_core args v m m0 r m' : core m = core m0 → outcome args v m r m' → outcome args v m0 r m'.
Proof.
  intros E Ho. pose proof (core_fields _ _ E) as (E1 & E2 & E3 & E4 & E5 & E6 & E7 & E8 & E9 & E10).
  destruct Ho as [r m' Ec Hr|pid m1 m' Hs Ha Ec|m' Hs Hr Hv Ec].
  - apply out_same; [congruence|]. by rewrite <- E8.
  - eapply out_begin; [congruence|by eapply appended_core|done].
  - apply out_end; [congruence| | |].
    + unfold is_reach_majority_ in *. congruence.
    + unfold curr_version in *. congruence.
    + rewrite Ec. unfold core, meta, curr_version in *. cbn. congruence.
Qed.

Lemma case_init_outcome pid args epoch v m :
  state_ (chg m) = INIT → twp (case_init pid args epoch v) (outcome args v m) m.
Proof.
  intros Hs. unfold case_init. do 5 mstep. eapply twp_mono; [apply append_spec|]. intros [rc fin] m1 Ha.
  assert (∀ r, core m1 = core m → outcome args v m r m1) as Hsame by (intros; apply out_same; [done|congruence]).
  destruct Ha as [[Hne Hc]|[[= -> ->] Ha]].
  - mstep; [mstep; by apply Hsame|]. mstep; [mstep; by apply Hsame|]. apply ob_failed_false in Heqb. by subst.
  - change (ob_failed OB_SUCCESS) with false. cbn iota. repeat mstep. eapply (out_begin _ _ _ pid m1); [done| |].
    + eapply (appended_core _ _ _ m); [|exact Ha]. reflexivity.
    + reflexivity.
Qed.

Lemma case_changing_outcome cpid pid args v m :
  state_ (chg m) = CHANGING → version_eqb v (curr_version m) = true → twp (case_changing cpid pid v) (outcome args v m) m.
Proof.
  intros Hs Hv. unfold case_changing. do 3 mstep.
  - mstep. eapply twp_mono; [apply majority_core|]. intros rc m1 E1. do 2 mstep. mstep. apply out_end; [done|done|done|].
    pose proof (core_fields _ _ E1) as (K1 & K2 & K3 & K4 & K5 & K6 & K7 & K8 & K9 & K10).
    unfold core, curr_version, meta in *. cbn. congruence.
  - mstep. eapply twp_mono; [apply need_resend_core|]. intros b m1 E1. mstep.
    + do 3 mstep. eapply twp_mono; [apply submit_core|]. intros rc m2 E2. mstep. apply out_same; [congruence|].
      intros _ E. cbn in E. destruct (ob_failed rc) eqn:Er; [by rewrite E in Er|done].
    + mstep. by apply out_same.
Qed.

Lemma change_outcome_ args pid epoch v m : twp (change_config_ args pid epoch v) (outcome args v m) m.
Proof.
  unfold change_config_. mstep. eapply (twp_mono _ (λ _ m', core m' = core m)); [mstep; [apply leads_core|by mstep]|].
  intros leads m1 E1. mstep; [mstep; by apply out_same|]. do 2 mstep. mstep; [mstep; by apply out_same|]. do 2 mstep.
  mstep.
  { mstep. apply out_same; [exact E1|]. intros _ E. cbn in E. by rewrite E in Heqb1. }
  do 2 mstep. pose proof (core_fields _ _ E1) as (_ & _ & _ & _ & _ & _ & _ & E8 & _).
  assert (∀ m0 r m', core m0 = core m1 → outcome args v m0 r m' → outcome args v m r m') as Hout.
  { intros m0 r m' E. apply outcome_core. congruence. }
  destruct (state_ (chg _)) eqn:Es.
  - eapply twp_mono; [by apply case_init_outcome|]. intros r m' Ho. eapply Hout; [|exact Ho]. reflexivity.
  - eapply twp_mono; [apply (case_changing_outcome _ _ args); [done|]|intros r m' Ho; eapply Hout; [|exact Ho]; reflexivity].
    revert Heqb1. unfold check_config_version_matches_state_. cbn [chg set_peers] in *. rewrite Es. by destruct (version_eqb _ _).
Qed.

Lemma change_outcome args pid epoch v m : twp (change_config args pid epoch v) (outcome args v m) m.
Proof. unfold change_config. do 3 mstep; [mstep; by apply out_same|apply change_outcome_]. Qed.

(** ** Calls that change neither the configuration nor the change *)
Lemma check_servers_core server v f n : keeps_core (check_servers_lsn_and_version_ server v f n).
Proof. intros m. unfold check_servers_lsn_and_version_, pre_check_server. done_step. Qed.
Lemma sync_members_core args arb v n f l y : keeps_core (sync_members args arb v n f l y).
Proof.
  revert y. induction l as [|x l IH]; intros y m; cbn [sync_members]; [by mstep|]. mstep.
  eapply twp_mono; [apply check_servers_core|]. intros [rc [[lsn same] k]] m1 E1.
  eapply twp_mono; [apply IH|]. intros ? ? E2. cbn beta in E2. congruence.
Qed.
Lemma committed_core args info n f : keeps_core (sync_get_committed_end_lsn_ args info n f).
Proof.
  intros m. unfold sync_get_committed_end_lsn_. do 2 mstep. destruct (convert_to_complete_config _) as [rc [[ml num] ls]].
  mstep. eapply twp_mono; [apply sync_members_core|]. intros y m1 E1. by mstep.
Qed.
Lemma wait_core args info : keeps_core (wait_log_barrier_ args info).
Proof.
  intros m. unfold wait_log_barrier_. do 8 mstep. mstep; [by mstep|]. mstep; [done_step|]. mstep.
  eapply twp_mono; [apply committed_core|]. intros [rc [lsn y]] m1 E1. repeat mstep; exact E1.
Qed.
Lemma sync_status_core args info : keeps_core (check_follower_sync_status args info).
Proof.
  intros m. unfold check_follower_sync_status, check_follower_sync_status_. do 6 mstep. mstep; [by mstep|]. mstep.
  eapply twp_mono; [apply committed_core|]. intros [rc [lsn y]] m1 E1. do 2 mstep. mstep; [by mstep|]. mstep; [by mstep|].
  mstep; [by mstep|]. mstep; [by mstep|]. do 3 mstep. eapply twp_mono; [apply committed_core|]. intros [rc2 [lsn2 y2]] m2 E2. mstep.
  cbn beta in *. rewrite E2. exact E1.
Qed.
Lemma start_working_core args : keeps_core (wait_log_barrier_before_start_working_ args).
Proof.
  intros m. unfold wait_log_barrier_before_start_working_. do 3 mstep. eapply twp_mono; [apply generate_core|].
  intros [rc info] m1 E1. mstep; [by mstep|]. mstep; [by mstep|]. do 2 mstep. mstep; [by mstep|]. mstep.
  eapply twp_mono; [apply barrier_core|]. intros rc2 m2 E2. mstep; [mstep; by rewrite E2|]. mstep.
  eapply twp_mono; [apply wait_core|]. intros rc3 m3 E3. mstep. cbn beta in E3. by rewrite E3, E2.
Qed.
Lemma check_args_core args pid epoch : keeps_core (check_args_and_generate_config args pid epoch).
Proof.
  intros m. unfold check_args_and_generate_config. do 3 mstep; [by mstep|]. mstep.
  eapply (twp_mono _ (λ _ m', core m' = core m)); [mstep; [apply leads_core|by mstep]|]. intros leads m1 E1. mstep; [by mstep|].
  mstep. eapply twp_mono; [apply check_spec|]. intros [rc fin] m2 [E2 _]. mstep; [mstep; congruence|]. mstep; [mstep; congruence|].
  mstep. eapply twp_mono; [apply generate_core|]. intros [rc2 i] m3 E3. mstep. cbn beta in E3. congruence.
Qed.
Lemma start_core t : keeps_core (start_change_config t).
Proof. intros m. unfold start_change_config. done_step. Qed.
Lemma forward_core : keeps_core forward_initial_config_meta_to_arb.
Proof. intros m. unfold forward_initial_config_meta_to_arb. done_step. Qed.
Lemma presync_core_ x pid b : keeps_core (pre_sync_config_log_and_mode_meta_ x pid b).
Proof. intros m. unfold pre_sync_config_log_and_mode_meta_. destruct b; done_step. Qed.
Lemma sync_meta_core l pid : keeps_core (sync_meta_to l pid).
Proof.
  induction l as [|x l IH]; intros m; cbn [sync_meta_to]; [by mstep|]. do 3 mstep; [apply IH|]. mstep.
  eapply twp_mono; [apply presync_core_|]. intros rc m1 E1. mstep; [by mstep|].
  eapply twp_mono; [apply IH|]. intros ? ? E2. cbn beta in E2. congruence.
Qed.
Lemma arb_leader_core : keeps_core sync_meta_for_arb_election_leader.
Proof.
  intros m. unfold sync_meta_for_arb_election_leader. do 4 mstep. mstep; [by mstep|]. mstep; [by mstep|]. mstep.
  eapply twp_mono; [apply reach_interval_core|]. intros due m1 E1. mstep; [by mstep|]. do 2 mstep. mstep. mstep; [by mstep|].
  mstep; [|by mstep]. do 2 mstep. eapply twp_mono; [apply sync_meta_core|]. intros ? ? E2. cbn beta in E2. rewrite E2. exact E1.
Qed.
Lemma try_resend_core pid : keeps_core (try_resend_config_log_ pid).
Proof. intros m. unfold try_resend_config_log_, palf_reach_time_interval. done_step. Qed.
Lemma broadcast_core pid : keeps_core (submit_broadcast_leader_info_ pid).
Proof. intros m. unfold submit_broadcast_leader_info_. done_step. Qed.
Lemma can_receive_core leader x : keeps_core (can_receive_config_log leader x).
Proof. intros m. unfold can_receive_config_log. done_step. Qed.

Inductive quiet : R → R → Prop :=
  | quiet_check args pid epoch m r m' : check_args_and_generate_config args pid epoch m = Some (r, m') → quiet m m'
  | quiet_start t m r m' : start_change_config t m = Some (r, m') → quiet m m'
  | quiet_sync args info m r m' : check_follower_sync_status args info m = Some (r, m') → quiet m m'
  | quiet_wait args info m r m' : wait_log_barrier_ args info m = Some (r, m') → quiet m m'
  | quiet_renew m r m' : renew_config_change_barrier m = Some (r, m') → quiet m m'
  | quiet_timeout v m : quiet m (after_config_change_timeout v m)
  | quiet_degrade m : quiet m (snd (end_degrade m))
  | quiet_forward m r m' : forward_initial_config_meta_to_arb m = Some (r, m') → quiet m m'
  | quiet_pre_sync x pid m r m' : pre_sync_config_log_and_mode_meta x pid m = Some (r, m') → quiet m m'
  | quiet_arb m r m' : sync_meta_for_arb_election_leader m = Some (r, m') → quiet m m'
  | quiet_majority pid v m r m' : after_config_log_majority pid v m = Some (r, m') → quiet m m'
  | quiet_ask leader x m r m' : can_receive_config_log leader x m = Some (r, m') → quiet m m'
  | quiet_others p m : quiet m (set_peers p m).

Lemma run_core {A} (f : M R A) m r m' : keeps_core f → f m = Some (r, m') → core m' = core m.
Proof. intros Hf E. exact (twp_elim _ _ _ _ _ E (Hf m)). Qed.

Lemma quiet_core m m' : quiet m m' → core m' = core m.
Proof.
  intros Hq.
  destruct Hq as [args pid epoch m r m' E|t m r m' E|args info m r m' E|args info m r m' E|m r m' E|v m|m|m r m' E|x pid m r m' E|m r m' E|pid v m r m' E|leader x m r m' E|p m].
  - eapply run_core; [apply check_args_core|exact E].
  - eapply run_core; [apply start_core|exact E].
  - eapply run_core; [apply sync_status_core|exact E].
  - eapply run_core; [apply wait_core|exact E].
  - eapply run_core; [|exact E]. intros m0. unfold renew_config_change_barrier. do 3 mstep; [by mstep|apply barrier_core].
  - unfold after_config_change_timeout. by destruct (negb _).
  - unfold end_degrade. by destruct (negb _).
  - eapply run_core; [apply forward_core|exact E].
  - eapply run_core; [|exact E]. intros m0. unfold pre_sync_config_log_and_mode_meta. do 3 mstep; [by mstep|apply presync_core_].
  - eapply run_core; [apply arb_leader_core|exact E].
  - eapply run_core; [|exact E]. intros m0. unfold after_config_log_majority. do 3 mstep; [by mstep|apply majority_core].
  - eapply run_core; [apply can_receive_core|exact E].
  - done.
Qed.

(** A change that was running, in the background, may end. *)
Definition ends m m' : Prop :=
  core m' = core m ∨
  state_ (chg m) = CHANGING ∧ is_reach_majority_ m = true ∧ core m' = core (set_chg (end_change (curr_version m)) m).
Lemma ends_core m m0 m1 m' : core m0 = core m → ends m0 m1 → core m' = core m1 → ends m m'.
Proof.
  intros E He E1. pose proof (core_fields _ _ E) as (K1 & K2 & K3 & K4 & K5 & K6 & K7 & K8 & K9 & K10).
  destruct He as [He|(Hs & Hr & Hc)]; [left; congruence|]. right. unfold is_reach_majority_ in *.
  split_and!; [congruence|congruence|]. rewrite E1, Hc. unfold core, meta, curr_version in *. cbn. congruence.
Qed.
Lemma background_ends pid m : state_ (chg m) ≠ INIT → twp (change_in_background pid) (λ _ m', ends m m') m.
Proof.
  intros Hs. unfold change_in_background. do 3 mstep. eapply twp_mono; [apply change_outcome_|]. intros r m' Ho. mstep.
  destruct Ho; [by left|done|]. by right.
Qed.
Lemma loop_ends m : twp leader_do_loop_work (λ _ m', ends m m') m.
Proof.
  unfold leader_do_loop_work. do 8 mstep. mstep. eapply (twp_mono _ (λ _ m', ends m m')).
  - mstep; [|mstep; by left]. mstep. eapply (twp_mono _ (λ _ m', ends m m')).
    + mstep; [|mstep; by left]. apply andb_true_iff in Heqb0 as [Hs%bool_decide_eq_true _]. mstep.
      eapply twp_mono; [apply state_changed_core|]. intros b m1 E1. mstep; [|mstep; left; exact E1]. mstep.
      eapply twp_mono; [apply background_ends|].
      * pose proof (core_fields _ _ E1) as (_ & _ & _ & _ & _ & _ & _ & K8 & _). rewrite K8. exact Hs.
      * intros ? m2 E2. mstep. eapply ends_core; [exact E1|exact E2|done].
    + intros b m1 E1. mstep. eapply twp_mono; [apply try_resend_core|]. intros rc m2 E2. do 3 mstep.
      eapply (twp_mono _ (λ _ m', core m' = core m2)); [mstep; [apply reach_interval_core|by mstep]|]. intros due m3 E3.
      mstep. mstep; repeat mstep; (eapply ends_core; [reflexivity|exact E1|]); cbn beta in E2; rewrite <- E2; exact E3.
  - intros [rc b] m1 E1. mstep.
    eapply (twp_mono _ (λ _ m', core m' = core m1)); [mstep; [apply reach_interval_core|by mstep]|]. intros due m2 E2.
    mstep; [mstep; eapply twp_mono; [apply broadcast_core|intros ? m3 E3; mstep]|mstep].
    all: (eapply ends_core; [reflexivity|exact E1|]); cbn beta in *; congruence.
Qed.
Lemma switch_ends m : twp switch_state (λ _ m', ends m m') m.
Proof.
  unfold switch_state. do 6 mstep. mstep; [|mstep; by left].
  apply andb_true_iff in Heqb as [[_ Hs%bool_decide_eq_true]%andb_true_iff _]. mstep.
  eapply twp_mono; [apply state_changed_core|]. intros b m1 E1. mstep.
  eapply (twp_mono _ (λ _ m', ends m m')); [mstep; [|mstep; by left]|intros; by mstep].
  eapply twp_mono; [apply background_ends|intros ? m2 E2; eapply ends_core; [exact E1|exact E2|done]].
  pose proof (core_fields _ _ E1) as (_ & _ & _ & _ & _ & _ & _ & K8 & _). rewrite K8. exact Hs.
Qed.
Lemma confirm_outcome pid epoch v m :
  twp (confirm_start_working_log pid epoch v)
    (λ r m', core m' = core m ∨ outcome (server_args no_member 1 no_version STARTWORKING) v m r m') m.
Proof.
  unfold confirm_start_working_log. do 2 mstep. mstep; [mstep; by left|]. mstep; [mstep; by left|].
  match goal with |- twp (if ?b then _ else _) _ _ => destruct b end; [mstep; by left|]. mstep.
  eapply (twp_mono _ (λ _ m', core m' = core m)); [mstep; [apply start_working_core|by mstep]|]. intros rc m1 E1.
  mstep; [mstep; by left|]. eapply twp_mono; [apply change_outcome_|]. intros r m' Ho. right. by eapply outcome_core.
Qed.

(** ** Taking a configuration outside a change *)

(** Only the configuration changes, and if it does it is a newer one. *)
Definition renews m m' : Prop :=
  (is_inited_ m', self_ m', persistent_config_version_ (cfg m'), state_ (chg m'), ms_ack_list_ (chg m')) =
  (is_inited_ m, self_ m, persistent_config_version_ (cfg m), state_ (chg m), ms_ack_list_ (chg m)) ∧
  (curr m' = curr m ∨ config_wf (curr_config m') ∧ version_le (curr_version m) (curr_version m')).
Lemma core_renews m m' : core m' = core m → renews m m'.
Proof. intros (E1 & E2 & E3 & E4 & E5 & E6 & E7 & E8 & E9 & E10)%core_fields. split; [congruence|by left]. Qed.
Lemma renews_core m m0 m1 m' : core m0 = core m → renews m0 m1 → core m' = core m1 → renews m m'.
Proof.
  intros (E1 & E2 & E3 & E4 & E5 & E6 & E7 & E8 & E9 & E10)%core_fields [Hf Hc]
    (K1 & K2 & K3 & K4 & K5 & K6 & K7 & K8 & K9 & K10)%core_fields.
  split; [congruence|]. unfold curr_config, curr_version in *. rewrite K4. destruct Hc as [Hc|[H1 H2]]; [left; congruence|right].
  by rewrite <- E4.
Qed.
Lemma append_info_cfg info m :
  twp (append_config_info_ info) (λ _ m', (is_inited_ m', self_ m', chg m', meta m', persistent_config_version_ (cfg m')) =
                                          (is_inited_ m, self_ m, chg m, meta m, persistent_config_version_ (cfg m))) m.
Proof. unfold append_config_info_. destruct (convert_to_complete_config _) as [rc [[ml num] ls]]. done_step. Qed.

Lemma receive_renews x m :
  config_wf (config_ (curr_ x)) → version_gtb (version_of (curr_ x)) (curr_version m) = true →
  twp (receive_config_log x) (λ _ m', renews m m') m.
Proof.
  intros Hw Hv. assert (∀ m', core m' = core m → renews m m') as Hc by apply core_renews.
  unfold receive_config_log. do 3 mstep; [mstep; by apply Hc|]. mstep; [mstep; by apply Hc|]. do 2 mstep. mstep; [mstep; by apply Hc|].
  mstep. eapply twp_mono; [apply election_core|]. intros rc m1 E1. mstep; [mstep; by apply Hc|]. mstep.
  eapply twp_mono; [apply append_info_cfg|]. intros rc2 m2 E2. pose proof (core_fields _ _ E1) as (K1 & K2 & K3 & K4 & K5 & K6 & K7 & K8 & K9 & K10).
  injection E2 as F1 F2 F3 F4 F5. mstep; [mstep; split; [cbn in *; congruence|left; unfold curr; rewrite F4; exact (f_equal curr_ K3)]|]. do 3 mstep.
  split; [cbn in *; congruence|]. right. split; [done|]. by apply gtb_le.
Qed.

Lemma initial_info_renews info pid v m :
  config_wf (config_ info) → twp (set_initial_config_info_ info pid v) (λ _ m', renews m m') m.
Proof.
  intros Hw. assert (∀ m', core m' = core m → renews m m') as Hc by apply core_renews.
  unfold set_initial_config_info_. do 4 mstep. mstep; [mstep; by apply Hc|]. mstep. mstep; [mstep; by apply Hc|]. do 2 mstep.
  mstep; [mstep; by apply Hc|]. mstep; [mstep; by apply Hc|]. destruct (meta_generate _ _ _ _ _ _ _) as [rc x] eqn:Em. do 2 mstep.
  assert (version_is_valid l = true ∧ seq_ok l) as [Hv Hs].
  { apply ob_failed_false in Heqb0. subst z. revert Heqp0. unfold version_generate.
    destruct ((pid =? INVALID_PROPOSAL_ID) || (1 <? 0)) eqn:Eb; [done|]. intros [= El]. subst l.
    unfold version_is_valid, seq_ok. cbn. split; [|lia]. lia. }
  apply orb_false_iff in Heqb2 as [Hg _].
  unfold meta_generate in Em. destruct (_ || negb (info_is_valid _)) eqn:Eb; injection Em as <- <-.
  { change (ob_failed OB_INVALID_ARGUMENT) with true. cbn iota. mstep. by apply Hc. }
  change (ob_failed OB_SUCCESS) with false. cbn iota. mstep. eapply twp_mono; [apply append_info_cfg|].
  intros rc2 m2 E2. injection E2 as F1 F2 F3 F4 F5. assert (renews m m2) as Hr.
  { split; [cbn in *; congruence|]. right. unfold curr_config, curr_version, curr. rewrite F4. cbn.
    split; [destruct Hw; by split|]. by apply not_gtb_le. }
  mstep; [by mstep|]. mstep. eapply twp_mono; [apply election_core|]. intros rc3 m3 E3. mstep; repeat mstep.
  - by apply (renews_core m m m2).
  - by apply (renews_core m m m2).
Qed.

Lemma initial_renews ml num ls pid v m :
  wf ml → config_wf (curr_config m) → twp (set_initial_member_list ml num ls pid v) (λ _ m', renews m m') m.
Proof.
  intros Hw [_ Ha Hs]. unfold set_initial_member_list. do 2 mstep. mstep; [mstep; by apply core_renews|]. mstep; [mstep; by apply core_renews|].
  apply initial_info_renews. by split.
Qed.
Lemma initial_arb_renews ml arb num ls pid v m :
  wf ml → wf_addr (server_ arb) → config_wf (curr_config m) →
  twp (set_initial_member_list_with_arb ml arb num ls pid v) (λ _ m', renews m m') m.
Proof.
  intros Hw Ha [_ _ Hs]. unfold set_initial_member_list_with_arb. do 2 mstep. mstep; [mstep; by apply core_renews|].
  mstep; [mstep; by apply core_renews|]. mstep. eapply twp_mono; [apply initial_info_renews; by split|]. intros r m1 E1.
  repeat mstep; by apply (renews_core m m m1).
Qed.

Lemma appended_wf pid args m m' : args_wf args → config_wf (curr_config m) → appended pid args m m' → config_wf (curr_config m').
Proof. intros Ha Hw [_ [now Eg] _ _ _ _]. by eapply gen_wf. Qed.
Lemma appended_le pid args m m' : config_wf (curr_config m) → appended pid args m m' → version_le (curr_version m) (curr_version m').
Proof.
  intros Hw [_ [now Eg] Hv _ _ _]. apply gen_inv in Eg as [_ Ev]. eapply inc_le; [apply Hw|exact Ev|].
  unfold info_is_valid, config_is_valid in Hv. by apply andb_true_iff in Hv as [[_ [_ Hv]%andb_true_iff]%andb_true_iff _].
Qed.
Lemma appended_fits pid args m m' : args_wf args → config_wf (curr_config m) → appended pid args m m' → fits m'.
Proof.
  intros Ha Hw Happ. destruct (appended_wf _ _ _ _ Ha Hw Happ) as [W1 W2 _]. destruct (app_alive _ _ _ _ Happ) as [ls Ec].
  by destruct (convert_spec _ _ _ _ W1 W2 Ec) as (? & ? & ? & _).
Qed.
Lemma force_renews args pid m :
  args_wf args → config_wf (curr_config m) → twp (force_set_member_list args pid) (λ _ m', renews m m') m.
Proof.
  intros Ha Hw. assert (∀ m', core m' = core m → renews m m') as Hc by apply core_renews.
  unfold force_set_member_list. do 3 mstep; [mstep; by apply Hc|]. mstep; [mstep; by apply Hc|]. mstep.
  eapply twp_mono; [apply append_spec|]. intros r m1 Hr. assert (renews m m1) as Hm.
  { destruct Hr as [[_ E]|[_ Happ]]; [by apply Hc|]. split; [pose proof (app_rest _ _ _ _ Happ) as E; injection E as; congruence|].
    right. split; [by eapply appended_wf|by eapply appended_le]. }
  mstep; [by mstep|]. repeat mstep. by apply (renews_core m m m1).
Qed.

(** ** The manager and the acknowledgements it has received

    Configurations of others and first or forced configurations are taken while no change
    runs: the replica is a follower whose status was reset, or a leader before its first
    change, and [force_set_member_list] comes after [start_change_config]. *)
Definition Ack : Type := ObAddr * Z * LogConfigVersion.
Implicit Types t : list Ack.
Inductive step : R * list Ack → R * list Ack → Prop :=
  | step_change args pid epoch v m r m' t : args_wf args → change_config args pid epoch v m = Some (r, m') → step (m, t) (m', t)
  | step_confirm pid epoch v m r m' t : confirm_start_working_log pid epoch v m = Some (r, m') → step (m, t) (m', t)
  | step_loop m r m' t : leader_do_loop_work m = Some (r, m') → step (m, t) (m', t)
  | step_switch m r m' t : switch_state m = Some (r, m') → step (m, t) (m', t)
  | step_ack sender pid v m t :
      wf_addr sender → step (m, t) (snd (ack_config_log sender pid v m), (sender, pid, v) :: t)
  | step_receive leader x m m1 rc m' t :
      state_ (chg m) = INIT → config_wf (config_ (curr_ x)) → can_receive_config_log leader x m = Some (true, m1) →
      receive_config_log x m1 = Some (rc, m') → step (m, t) (m', t)
  | step_initial ml num ls pid v m r m' t :
      state_ (chg m) = INIT → wf ml → set_initial_member_list ml num ls pid v m = Some (r, m') → step (m, t) (m', t)
  | step_initial_arb ml arb num ls pid v m r m' t :
      state_ (chg m) = INIT → wf ml → wf_addr (server_ arb) →
      set_initial_member_list_with_arb ml arb num ls pid v m = Some (r, m') → step (m, t) (m', t)
  | step_force args pid m rc m' t :
      state_ (chg m) = INIT → args_wf args → force_set_member_list args pid m = Some (rc, m') → step (m, t) (m', t)
  | step_flushed v m rc m' t : after_flush_config_log v m = Some (rc, m') → step (m, t) (m', t)
  | step_reset m t : step (m, t) (reset_status m, t)
  | step_quiet m m' t : quiet m m' → step (m, t) (m', t).
Definition started (c : R * list Ack) : Prop :=
  ∃ palf_id self x p, config_wf (config_ (curr_ x)) ∧ init true palf_id self x (new_mgr p) = Some (OB_SUCCESS, fst c) ∧ snd c = [].

Record inv (c : R * list Ack) : Prop := {
  inv_wf : config_wf (curr_config (fst c));
  inv_acks : SimpleMemberList.swf (ms_ack_list_ (chg (fst c)));
  inv_change : state_ (chg (fst c)) = CHANGING →
    fits (fst c) ∧
    Forall (λ a, contains a (alive_paxos_memberlist_ (cfg (fst c))) = true ∧
                 (a, meta_proposal_id_ (meta (fst c)), curr_version (fst c)) ∈ snd c) (ms_ack_list_ (chg (fst c)))
}.
Definition grows m m' : Prop :=
  version_le (curr_version m) (curr_version m') ∧
  version_le (persistent_config_version_ (cfg m)) (persistent_config_version_ (cfg m')).
Lemma grows_same m m' :
  curr m' = curr m → persistent_config_version_ (cfg m') = persistent_config_version_ (cfg m) → grows m m'.
Proof. unfold grows, curr_version. intros -> ->. by split. Qed.

Lemma core_keeps t m m' : core m' = core m → inv (m, t) → inv (m', t) ∧ grows m m'.
Proof.
  intros (E1 & E2 & E3 & E4 & E5 & E6 & E7 & E8 & E9 & E10)%core_fields [H1 H2 H3]. split; [|by apply grows_same].
  cbn [fst snd] in *. unfold fits, curr_config, curr_version in *.
  split; cbn [fst snd]; unfold fits, curr_config, curr_version; rewrite ?E3, ?E4, ?E5, ?E6, ?E8, ?E9; done.
Qed.
Lemma renews_keeps t m m' : renews m m' → state_ (chg m) = INIT → inv (m, t) → inv (m', t) ∧ grows m m'.
Proof.
  intros [Hf Hc] Hs [H1 H2 _]. injection Hf as E1 E2 E3 E4 E5. cbn [fst snd] in *. split.
  - split; cbn [fst snd]; [|by rewrite E5|congruence]. unfold curr_config in *. destruct Hc as [->|[? _]]; done.
  - unfold grows, curr_version in *. rewrite E3. destruct Hc as [->|[_ ?]]; by split.
Qed.
Lemma ends_keeps t m m' : ends m m' → inv (m, t) → inv (m', t) ∧ grows m m'.
Proof.
  intros [He|(Hs & _ & He)] Hi; [by apply core_keeps|].
  destruct Hi as [H1 H2 _]. apply (core_keeps t (set_chg (end_change (curr_version m)) m) m') in He as [H3 H4].
  - split; [done|]. destruct H4. by split.
  - split; cbn [fst snd]; [exact H1|apply SimpleMemberList.swf_nil|done].
Qed.
Lemma outcome_keeps t args v m r m' : args_wf args → outcome args v m r m' → inv (m, t) → inv (m', t) ∧ grows m m'.
Proof.
  intros Ha Ho Hi. destruct Ho as [r m' E _|pid m1 m' Hs Happ E|m' Hs Hr Hv E].
  - by apply core_keeps.
  - destruct Hi as [H1 H2 _]. cbn [fst snd] in *. pose proof (app_rest _ _ _ _ Happ) as Er. injection Er as.
    assert (inv (m', t) ∧ grows (set_chg (begin_change args 0) m1) m') as [Hi [G1 G2]].
    { apply core_keeps; [done|]. split; cbn [fst snd]; [exact (appended_wf _ _ _ _ Ha H1 Happ)|apply SimpleMemberList.swf_nil|].
      intros _. split; [exact (appended_fits _ _ _ _ Ha H1 Happ)|constructor]. }
    split; [done|]. split; [|cbn in G2; congruence]. transitivity (curr_version m1); [by eapply appended_le|exact G1].
  - apply ends_keeps; [|done]. by right.
Qed.
Lemma version_eqb_eq v w : version_eqb v w = true → v = w.
Proof. destruct v, w. unfold version_eqb. cbn. intros [?%Z.eqb_eq ?%Z.eqb_eq]%andb_true_iff. congruence. Qed.

Lemma config_ack_keeps t sender pid v m :
  wf_addr sender → inv (m, t) → inv (snd (ack_config_log sender pid v m), (sender, pid, v) :: t) ∧ grows m (snd (ack_config_log sender pid v m)).
Proof.
  intros Ha Hi. unfold ack_config_log.
  assert (∀ m', core m' = core m → inv (m', (sender, pid, v) :: t) ∧ grows m m') as Hc.
  { intros m' E. destruct (core_keeps t m m' E Hi) as [[H1 H2 H3] Hg]. split; [|done]. split; [done|done|]. cbn [fst snd] in *.
    intros Hs. destruct (H3 Hs) as [Hf Hall]. split; [done|]. eapply Forall_impl; [exact Hall|]. intros a [? ?]. split; [done|]. by right. }
  destruct (negb (is_inited_ m)); [by apply Hc|]. destruct (negb (addr_is_valid sender)); [by apply Hc|].
  destruct (_ || negb (version_eqb v _)) eqn:Em; [by apply Hc|].
  apply orb_false_iff in Em as [Hp%negb_false_iff%Z.eqb_eq Hv%negb_false_iff%version_eqb_eq].
  destruct (_ && _) eqn:Eb; [|by apply Hc]. apply andb_true_iff in Eb as [Hin Hs]. cbn [chg set_chg ms_ack_list_ with_resend] in *.
  destruct Hi as [H1 H2 H3]. cbn [fst snd] in *. pose proof (SimpleMemberList.simple_add_spec sender _ H2 Ha) as Hadd.
  assert (∀ a, a ∈ snd (SimpleMemberList.add_server sender (ms_ack_list_ (chg m))) → a = sender ∨ a ∈ ms_ack_list_ (chg m)) as Hel.
  { intros a. unfold SimpleMemberList.add_server. destruct (SimpleMemberList.contains _ _); [by right|].
    destruct (OB_MAX_MEMBER_NUMBER <=? SimpleMemberList.get_count _); cbn [snd]; [by right|]. rewrite elem_of_app, list_elem_of_singleton. tauto. }
  destruct (SimpleMemberList.add_server _ _) as [rc acks]. destruct Hadd as (Hw & _ & _). cbn [snd] in Hel.
  match goal with |- context [if ?b then (?x1, ?y1, ?z) else (?x2, ?y2, ?z)] => replace (snd (if b then (x1, y1, z) else (x2, y2, z))) with z by (by destruct b) end.
  split; [|by apply grows_same]. split; cbn [fst snd]; [done|done|]. intros Hch. destruct (H3 Hch) as [Hf Hall].
  split; [exact Hf|]. rewrite Forall_forall in Hall |- *. intros a [->|Hin']%Hel.
  - split; [exact Hin|]. subst pid v. left.
  - destruct (Hall a Hin'). split; [done|]. by right.
Qed.

Lemma config_flushed_keeps t v m rc m' : after_flush_config_log v m = Some (rc, m') → inv (m, t) → inv (m', t) ∧ grows m m'.
Proof.
  intros E [H1 H2 H3]. revert E. unfold after_flush_config_log, bind, modify, get, ask. cbn.
  destruct (tree_after_flush _ _) as [rc0 p]. intros [= _ <-]. split; [by split|]. split; [done|]. cbn.
  destruct (version_is_valid (persistent_config_version_ (cfg m))) eqn:Ev; [|by left]. unfold version_max.
  destruct (version_gtb _ v) eqn:Eg; [done|]. unfold version_gtb in Eg. rewrite Ev in Eg. cbn [andb] in Eg.
  destruct (version_is_valid v) eqn:Ew; [|done]. apply not_gtb_le; [done|]. unfold version_gtb. by rewrite Ev, Ew.
Qed.

Lemma config_step_keeps c c' : step c c' → inv c → inv c' ∧ grows (fst c) (fst c').
Proof.
  intros Hs Hi.
  destruct Hs as [args pid epoch v m r m' t Ha E|pid epoch v m r m' t E|m r m' t E|m r m' t E|sender pid v m t Ha|
    leader x m m1 rc m' t Es Hw E1 E2|ml num ls pid v m r m' t Es Hw E|ml arb num ls pid v m r m' t Es Hw Ha E|
    args pid m rc m' t Es Ha E|v m rc m' t E|m t|m m' t Hq]; cbn [fst].
  - eapply outcome_keeps; [done| |done]. exact (twp_elim _ _ _ _ _ E (change_outcome args pid epoch v m)).
  - destruct (twp_elim _ _ _ _ _ E (confirm_outcome pid epoch v m)) as [Hc|Ho]; [by apply core_keeps|].
    eapply outcome_keeps; [|exact Ho|done]. split; [done|apply wf_nil].
  - apply ends_keeps; [|done]. exact (twp_elim _ _ _ _ _ E (loop_ends m)).
  - apply ends_keeps; [|done]. exact (twp_elim _ _ _ _ _ E (switch_ends m)).
  - by apply config_ack_keeps.
  - assert (core m1 = core m ∧ version_gtb (version_of (curr_ x)) (curr_version m) = true) as [Ec Hv].
    { split; [eapply run_core; [apply can_receive_core|exact E1]|]. revert E1. unfold can_receive_config_log, bind, get, ask, ret.
      destruct (_ || _); [done|]. destruct (version_eqb _ _); [|by intros [= -> _]].
      destruct (engine_submit_change_config_meta_resp _ _ _ _). by intros [= -> _]. }
    pose proof (core_fields _ _ Ec) as (_ & _ & _ & K4 & _).
    assert (renews m1 m') as Hr by (refine (twp_elim _ _ _ _ _ E2 (receive_renews x m1 Hw _)); unfold curr_version in *; by rewrite K4).
    apply renews_keeps; [|done|done]. by apply (renews_core m m1 m').
  - apply renews_keeps; [|done|done]. exact (twp_elim _ _ _ _ _ E (initial_renews ml num ls pid v m Hw (inv_wf _ Hi))).
  - apply renews_keeps; [|done|done]. exact (twp_elim _ _ _ _ _ E (initial_arb_renews ml arb num ls pid v m Hw Ha (inv_wf _ Hi))).
  - apply renews_keeps; [|done|done]. exact (twp_elim _ _ _ _ _ E (force_renews args pid m Ha (inv_wf _ Hi))).
  - by eapply config_flushed_keeps.
  - destruct Hi as [H1 H2 H3]. split; [|by apply grows_same]. split; cbn [fst snd]; [exact H1|apply SimpleMemberList.swf_nil|done].
  - apply core_keeps; [by apply quiet_core|done].
Qed.

Lemma config_started_inv c : started c → inv c.
Proof.
  destruct c as [m t]. intros (palf_id & self & x & p & Hw & E & Et). cbn [fst snd] in *. subst t.
  assert (twp (init true palf_id self x) (λ rc m', rc = OB_SUCCESS → curr m' = curr_ x ∧ chg m' = new_change) (new_mgr p)) as Ht.
  { unfold init. do 3 mstep; [by mstep|]. mstep; [by mstep|]. do 3 mstep.
    eapply (twp_mono _ (λ _ m', curr m' = curr_ x ∧ chg m' = new_change)).
    - mstep; [|by mstep]. eapply twp_mono; [apply append_info_cfg|]. intros rc m1 E1. injection E1 as _ _ F3 F4 _. split; [|done].
      unfold curr. by rewrite F4.
    - intros rc m1 [F1 F2]. mstep; [by mstep; intros ->|]. mstep. eapply (twp_mono _ (λ _ m', curr m' = curr_ x ∧ chg m' = new_change)).
      + mstep; [|by mstep]. unfold update_election_meta_. destruct (convert_to_complete_config _) as [rc2 [[ml num] ls]]. by repeat mstep.
      + intros rc2 m2 [G1 G2]. mstep; [by mstep; intros ->|]. repeat mstep. intros _. by split. }
  unfold twp in Ht. rewrite E in Ht. destruct (Ht eq_refl) as [F1 F2]. split; cbn [fst snd]; rewrite ?F2.
  - unfold curr_config. by rewrite F1.
  - apply SimpleMemberList.swf_nil.
  - done.
Qed.

Lemma config_reachable_inv c c' : rtc step c c' → inv c → inv c' ∧ grows (fst c) (fst c').
Proof.
  induction 1 as [c|c c1 c' Hs _ IH]; intros Hi; [split; [done|by apply grows_same]|].
  destruct (config_step_keeps _ _ Hs Hi) as [Hi1 [G1 G2]]. destruct (IH Hi1) as [Hi2 [G3 G4]].
  split; [done|]. split; by etransitivity.
Qed.

(** C22. A change of configuration that [change_config] reports as done was acknowledged: in
    every state a configuration manager reaches, when a call on behalf of a running change
    returns success, a majority of the living members of the new configuration has sent an
    acknowledgement for its proposal id and its version, which is the version of the call;
    the configuration is kept and the manager can begin the next change. *)
Theorem config_done_by_majority c m t args pid epoch v v' m' :
  started c → rtc step c (m, t) → state_ (chg m) = CHANGING →
  change_config args pid epoch v m = Some ((OB_SUCCESS, v'), m') →
  (∃ Q, majority_of (living (curr_config m)) (living_num (curr_config m)) Q ∧
        ∀ s, s ∈ Q → ∃ a, code a = s ∧ (a, meta_proposal_id_ (meta m), v) ∈ t) ∧
  v = curr_version m ∧ meta m' = meta m ∧ state_ (chg m') = INIT ∧ ms_ack_list_ (chg m') = [].
Proof.
  intros Hc Hr Hs E. destruct (config_reachable_inv _ _ Hr (config_started_inv _ Hc)) as [[H1 H2 H3] _]. cbn [fst snd] in *.
  pose proof (change_outcome args pid epoch v m) as Ho. unfold twp in Ho. rewrite E in Ho.
  inversion Ho as [r m0 Ec Hne| |m0 _ Hmaj Hv Ec]; subst; [by destruct (Hne Hs)|].
  apply version_eqb_eq in Hv as ->. destruct (H3 Hs) as [[Hw [Hd Hn]] Hall].
  pose proof (core_fields _ _ Ec) as (_ & _ & -> & _ & _ & _ & _ & -> & -> & _). split_and!; [|done..].
  exists (SimpleMemberList.servers (ms_ack_list_ (chg m))). rewrite Forall_forall in Hall. split; [split|].
  - intros s (a & -> & Hin)%SimpleMemberList.elem_of_servers%list_elem_of_fmap. rewrite <- Hd. apply contains_dom; [done| |by apply Hall].
    destruct H2 as [_ Ha _]. rewrite Forall_forall in Ha. by apply Ha.
  - rewrite SimpleMemberList.size_servers by apply H2. rewrite <- Hn. unfold is_reach_majority_, SimpleMemberList.get_count in Hmaj. lia.
  - intros s (a & -> & Hin)%SimpleMemberList.elem_of_servers%list_elem_of_fmap. exists a. split; [done|]. by apply Hall.
Qed.

(** C23. The version of a replica's current configuration and that of its persistent one
    never go back, whatever calls, messages, flushes and resets follow each other; a
    version that cannot be increased any more is refused. *)
Theorem config_versions_grow c c1 c2 :
  started c → rtc step c c1 → rtc step c1 c2 →
  version_le (curr_version (fst c1)) (curr_version (fst c2)) ∧
  version_le (persistent_config_version_ (cfg (fst c1))) (persistent_config_version_ (cfg (fst c2))).
Proof.
  intros Hc H1 H2. destruct (config_reachable_inv _ _ H1 (config_started_inv _ Hc)) as [Hi _].
  by destruct (config_reachable_inv _ _ H2 Hi) as [_ Hg].
Qed.

(** C25. A refused change leaves no trace: when [change_config] returns an error other than
    the one that asks to call again, the configuration, the list and the number of members
    that count, the running change with its acknowledgements and the persistent version are
    as they were. *)
Theorem config_refused_keeps args pid epoch v m rc v' m' :
  change_config args pid epoch v m = Some ((rc, v'), m') → rc ≠ OB_SUCCESS → rc ≠ OB_EAGAIN → core m' = core m.
Proof.
  intros E H1 H2. pose proof (twp_elim _ _ _ _ _ E (change_outcome args pid epoch v m)) as Ho. by inversion Ho.
Qed.
End history.

Module Run.
(** A leader of three servers that adds a fourth; the peers keep the time. *)
Definition server (n : Z) : ObAddr := ipv4 10 0 0 n 2882.
Definition three : ObMemberList := (λ n, new_member (server n) 1) <$> [1; 2; 3].
Definition is_server (n : Z) (a : ObAddr) : bool := bool_decide (code a = code (server n)).
#[export] Instance sim : Peers Z := {
  current_time p := (p, p + 1);
  fast_current_time p := (p, p + 1);
  getClock p := (p, p + 1);
  state_get_proposal_id p := (5, p);
  state_get_leader p := (server 1, p);
  state_is_leader_active p := (true, p);
  state_is_leader_reconfirm p := (false, p);
  state_is_arb_replica p := (false, p);
  state_is_changing_config_with_arb p := (false, p);
  state_set_changing_config_with_arb p := (OB_SUCCESS, p);
  state_reset_changing_config_with_arb p := (OB_SUCCESS, p);
  election_get_role p := ((OB_SUCCESS, (LogStateMgr.LEADER, 1)), p);
  election_get_current_leader_likely p := ((OB_SUCCESS, server 1), p);
  election_set_memberlist _ _ _ p := (OB_SUCCESS, p);
  mode_can_do_paxos_accept p := (true, p);
  mode_need_skip_log_barrier p := (false, p);
  mode_last_submit_pid p := (5, p);
  mode_accepted_pid p := (5, p);
  mode_submit_fetch_mode_meta_resp _ _ _ p := (OB_SUCCESS, p);
  reconfirm_can_do_degrade p := (false, p);
  sw_get_last_submit_log_info p := ((OB_SUCCESS, (Lsn.mkLSN 100, Lsn.mkLSN 200, 5)), p);
  sw_get_max_flushed_log_info p := ((OB_SUCCESS, (Lsn.mkLSN 100, 5)), p);
  sw_get_max_flushed_end_lsn p := (Lsn.mkLSN 200, p);
  sw_get_committed_end_lsn p := (Lsn.mkLSN 200, p);
  sw_get_last_slide_log_id p := (7, p);
  sw_get_server_ack_info a p :=
    (if is_server 2 a then ((OB_SUCCESS, (Lsn.mkLSN 200, p)), p) else ((OB_ENTRY_NOT_EXIST, (no_lsn, 0)), p));
  sw_config_change_update_match_lsn_map _ _ _ _ p := (OB_SUCCESS, p);
  engine_submit_flush_change_config_meta_task _ _ _ p := (OB_SUCCESS, p);
  engine_submit_change_config_meta_req _ _ _ _ _ _ p := (OB_SUCCESS, p);
  engine_submit_change_config_meta_resp _ _ _ p := (OB_SUCCESS, p);
  engine_check_config_meta_size _ p := (OB_SUCCESS, p);
  engine_submit_prepare_meta_req _ _ p := (OB_SUCCESS, p);
  engine_submit_purge_throttling_task p := (OB_SUCCESS, p);
  engine_submit_config_change_pre_check_req a _ _ _ p :=
    (if is_server 4 a then ((OB_SUCCESS, (true, false, Lsn.mkLSN 150, 0)), p)
     else if is_server 3 a then ((OB_EAGAIN, (true, false, no_lsn, 0)), p)
     else ((OB_SUCCESS, (true, false, Lsn.mkLSN 200, 0)), p));
  tree_after_flush _ p := (OB_SUCCESS, p)
}.
Lemma config_three_wf : wf three.
Proof. split; [repeat constructor; by vm_compute|repeat constructor; by vm_compute|by vm_compute]. Qed.

Definition version (seq : Z) : LogConfigVersion := LogReconfirm.mkVersion 5 seq.
Definition first : LogConfigInfoV2 :=
  mkInfo LOG_CONFIG_INFO_VERSION (mkConfig three 3 no_member [] [] (version 1)) reset_as_unlocked.
Definition first_meta : LogConfigMeta := mkMeta LOG_CONFIG_META_VERSION_42 5 first first 5 (Lsn.mkLSN 0) 5.
Lemma first_wf : config_wf (config_ first).
Proof. split; [apply config_three_wf|done|by vm_compute]. Qed.
Definition add4 : LogConfigChangeArgs := server_args (new_member (server 4) 1) 4 (version 1) ADD_MEMBER.

Abbreviation St := (@LogConfigMgr Z * list Ack)%type.
Definition fresh : @LogConfigMgr Z := new_mgr 1.
Definition changed (v : LogConfigVersion) (c : St) : St :=
  match change_config add4 5 1 v (fst c) with Some (_, m) => (m, snd c) | None => c end.
Definition acked (n : Z) (c : St) : St := (snd (ack_config_log (server n) 5 (version 2) (fst c)), (server n, 5, version 2) :: snd c).
Definition run0 : St := Eval vm_compute in
  match init true 1 (server 1) first_meta fresh with Some (_, m) => (m, []) | None => (fresh, []) end.
Definition run1 : St := Eval vm_compute in changed no_version run0.
Definition run2 : St := Eval vm_compute in acked 4 (acked 2 (acked 1 run1)).
Definition run3 : St := Eval vm_compute in changed (version 2) run2.

Lemma config_run0 : started run0.
Proof. exists 1, (server 1), first_meta, 1. split_and!; [apply first_wf|by vm_compute|done]. Qed.
Lemma add4_wf : args_wf add4.
Proof. split; [done|apply wf_nil]. Qed.
Lemma changed_step v c : change_config add4 5 1 v (fst c) ≠ None → step c (changed v c).
Proof.
  destruct c as [m t]. unfold changed. cbn [fst snd]. destruct (change_config _ _ _ _ _) as [[r m']|] eqn:E; [|done]. intros _.
  eapply step_change; [apply add4_wf|exact E].
Qed.
Lemma acked_step n c : wf_addr (server n) → step c (acked n c).
Proof. destruct c as [m t]. intros Hw. unfold acked. cbn [fst snd]. by apply step_ack. Qed.
Lemma config_runs2 : rtc step run0 run2.
Proof.
  apply (rtc_l _ _ run1); [change run1 with (changed no_version run0); apply changed_step; by vm_compute|].
  change run2 with (acked 4 (acked 2 (acked 1 run1))).
  eapply rtc_l; [by apply (acked_step 1)|]. eapply rtc_l; [by apply (acked_step 2)|]. apply rtc_once. by apply (acked_step 4).
Qed.

Lemma config_done_by_majority_witness :
  change_config add4 5 1 (version 2) (fst run2) = Some ((OB_SUCCESS, version 2), fst run3) ∧
  (∃ Q, majority_of (living (curr_config (fst run2))) 4 Q ∧ ∀ s, s ∈ Q → ∃ a, code a = s ∧ (a, 5, version 2) ∈ snd run2).
Proof.
  split; [by vm_compute|].
  apply (config_done_by_majority run0 (fst run2) (snd run2) add4 5 1 (version 2) (version 2) (fst run3));
    [apply config_run0|apply config_runs2|by vm_compute|by vm_compute].
Defined.

Lemma config_versions_grow_witness :
  curr_version (fst run0) = version 1 ∧ curr_version (fst run2) = version 2 ∧
  version_le (curr_version (fst run0)) (curr_version (fst run2)).
Proof.
  split_and!; [by vm_compute|by vm_compute|].
  apply (config_versions_grow run0 run0 run2); [apply config_run0|apply rtc_refl|apply config_runs2].
Defined.

Definition remove1 : LogConfigChangeArgs := server_args (new_member (server 1) 1) 2 (version 1) REMOVE_MEMBER.
Definition refused : @LogConfigMgr Z := Eval vm_compute in
  match change_config remove1 5 1 no_version (fst run0) with Some (_, m) => m | None => fst run0 end.
(** A leader does not remove itself. *)
Lemma config_refused_keeps_witness :
  change_config remove1 5 1 no_version (fst run0) = Some ((OB_NOT_ALLOW_REMOVING_LEADER, no_version), refused) ∧
  core refused = core (fst run0).
Proof.
  split; [by vm_compute|].
  apply (config_refused_keeps remove1 5 1 no_version (fst run0) OB_NOT_ALLOW_REMOVING_LEADER no_version); [by vm_compute|done|done].
Defined.

Definition grown : @LogConfigMgr Z := Eval vm_compute in
  match append_config_meta_ 5 add4 (fst run0) with Some (_, m) => m | None => fst run0 end.
Lemma first_good : good (server 1) (config_ first).
Proof. split; [apply config_three_wf|by vm_compute|by vm_compute|done|done]. Qed.
(** Adding the fourth server: two of three against three of four. *)
Lemma config_quorums_meet_witness :
  append_config_meta_ 5 add4 (fst run0) = Some ((OB_SUCCESS, false), grown) ∧
  (∀ Q Q', majority_of (living (curr_config (fst run0))) 3 Q → majority_of (living (curr_config grown)) 4 Q' → ∃ s, s ∈ Q ∧ s ∈ Q').
Proof.
  split; [by vm_compute|].
  apply (config_quorums_meet 5 add4 (fst run0) grown); [apply first_good|done|done|by vm_compute].
Defined.
End Run.
End ConfigHistory.
