(* ===== verification/ConfigBarrier.v ===== *)
(** The log barrier of a change of configuration with an arbitration member
    ([LogConfigMgr.wait_log_barrier_]): when the wait is over, a majority of the members of
    the new configuration that keep the log have it up to the barrier, unless the access
    mode lets the barrier be skipped. *)
From stdpp Require Import sorting.
From S2P Require Import Prelude Scn Lsn MemberList SimpleMemberList LogStateMgr LogCommit CommitSafety LogReconfirm LogModeMgr.
From S2P Require Import LogConfigMeta ConfigChange LogConfigMgr ConfigSafety ConfigHistory.
Import MemberList LogConfigMeta ConfigChange LogConfigMgr ConfigSafety ConfigHistory.

Module ConfigBarrier.
#[local] Existing Instances CommitSafety.lsn_after_trans CommitSafety.lsn_after_total.
(** What the sliding window and the other servers report is so: [has s lsn] says that the
    server with the address [s] has flushed its log up to [lsn]. *)
Class Reports (P : Type) `{Peers P} (self : ObAddr) (has : list Z → LSN → Prop) : Prop := {
  own_report p lsn p' : sw_get_max_flushed_end_lsn p = (lsn, p') → has (code self) lsn;
  ack_report server p lsn time p' : sw_get_server_ack_info server p = ((OB_SUCCESS, (lsn, time)), p') → has (code server) lsn;
  pre_check_report server v purge timeout p normal need lsn last p' :
    engine_submit_config_change_pre_check_req server v purge timeout p = ((OB_SUCCESS, (normal, need, lsn, last)), p') →
    Lsn.is_valid lsn = true → has (code server) lsn
}.

Section barrier.
Context {P : Type} `{HP : Peers P} (self : ObAddr) (has : list Z → LSN → Prop) `{!Reports P self has}.
Abbreviation R := (@LogConfigMgr P).
Implicit Types (m : R) (args : LogConfigChangeArgs).

Definition reported (server : ObAddr) m (r : Z * (LSN * bool * Z)) m' : Prop :=
  core m' = core m ∧ (r.1 = OB_SUCCESS → Lsn.is_valid r.2.1.1 = true → has (code server) r.2.1.1).
Lemma failed_report server m rc x m' : core m' = core m → ob_failed rc = true → reported server m (rc, x) m'.
Proof. intros Hc Hf. split; [done|]. intros E. cbn in E. by subst. Qed.

Lemma pre_check_spec server v n m : twp (pre_check_server server v n) (reported server m) m.
Proof.
  unfold pre_check_server. do 2 mstep. destruct a as [rc [[[normal need] lsn] last]]. mstep; [mstep; by apply failed_report|].
  apply ob_failed_false in Heqb as ->. mstep; mstep; [by apply failed_report|]. split; [done|]. intros _ Hv.
  by eapply pre_check_report.
Qed.
Lemma check_servers_spec server v f n m :
  self_ m = self → wf_addr self → wf_addr server →
  twp (check_servers_lsn_and_version_ server v f n) (reported server m) m.
Proof.
  intros Hself Hws Hw. unfold check_servers_lsn_and_version_. do 3 mstep.
  - do 2 mstep. apply own_report in H. rewrite Hself in Heqb. apply addr_eqb_code in Heqb; [|done|done].
    repeat mstep; (split; [done|]; intros _ _; by rewrite <- Heqb).
  - mstep; [apply pre_check_spec|]. do 2 mstep. destruct a as [rc [lsn time]]. mstep.
    { mstep. apply failed_report; [done|]. by apply andb_true_iff in Heqb1 as [? _]. }
    mstep. destruct (ob_failed rc) eqn:Er; repeat mstep.
    + eapply twp_mono; [apply pre_check_spec|]. intros r m' [Hc Hr]. by split.
    + apply ob_failed_false in Er as ->. apply ack_report in H. split; [done|]. by intros.
    + eapply twp_mono; [apply pre_check_spec|]. intros r m' [Hc Hr]. by split.
Qed.

(** The collected ends, each of another member that is not the arbitration member. *)
Record collected (arb : ObAddr) (seen : list ObMember) (l : list LSN) (w : list (list Z * LSN)) : Prop := {
  col_lsns : l = w.*2;
  col_nodup : NoDup w.*1;
  col_has : Forall (λ e, has e.1 e.2 ∧ e.1 ∈ key <$> seen ∧ e.1 ≠ code arb) w
}.

Lemma sync_members_spec args arb v n f l seen y w m :
  self_ m = self → wf_addr self → wf_addr arb → Forall (λ x, wf_addr (server_ x)) l → NoDup (key <$> (seen ++ l)) →
  collected arb seen (lsns y) w →
  twp (sync_members args arb v n f l y) (λ y' _, ∃ w', collected arb (seen ++ l) (lsns y') w') m.
Proof.
  intros Hself Hws Hwa. revert seen y w m Hself. induction l as [|x l IH]; intros seen y w m Hself Hl Hn Hc; cbn [sync_members].
  { mstep. exists w. by rewrite app_nil_r. }
  apply Forall_cons in Hl as [Hx Hl]. mstep. eapply twp_mono; [by apply check_servers_spec|].
  intros [rc [[lsn same] last]] m1 [Hcore Hrep]. cbn [fst snd] in Hrep. replace (seen ++ x :: l) with ((seen ++ [x]) ++ l) in Hn |- * by (by rewrite <- app_assoc).
  pose proof (core_fields _ _ Hcore) as (_ & Hs1 & _).
  match goal with |- twp (sync_members _ _ _ _ _ _ ?y1) _ _ => set (y' := y1) end.
  assert (∃ w', collected arb (seen ++ [x]) (lsns y') w') as [w' Hw']; [|eapply IH; [congruence|done|done|exact Hw']].
  assert (∀ e, e ∈ w → has e.1 e.2 ∧ e.1 ∈ key <$> (seen ++ [x]) ∧ e.1 ≠ code arb) as Hold.
  { destruct Hc as [_ _ Hh]. rewrite Forall_forall in Hh. intros e He. destruct (Hh e He) as (? & Hin & ?). split_and!; [done| |done].
    rewrite fmap_app. by apply elem_of_app; left. }
  cbn [lsns y']. destruct (_ && Lsn.is_valid lsn) eqn:Eb.
  - apply andb_true_iff in Eb as [[Er Ea]%andb_true_iff Ev]. apply negb_true_iff, ob_failed_false in Er. subst rc.
    exists (w ++ [(key x, lsn)]). destruct Hc as [H1 H2 H3]. split.
    + by rewrite fmap_app, H1.
    + rewrite fmap_app. apply NoDup_app. split_and!; [done| |apply NoDup_singleton]. intros k Hk ->%list_elem_of_singleton. cbn in Hk.
      apply list_elem_of_fmap in Hk as (e & Ee & He). rewrite Forall_forall in H3. destruct (H3 e He) as (_ & Hin & _).
      rewrite <- app_assoc, fmap_app in Hn. apply NoDup_app in Hn as (_ & Hd & _). apply (Hd (key x)); [congruence|]. left.
    + apply Forall_app. split; [by apply Forall_forall|]. constructor; [|constructor]. cbn [fst snd]. split_and!.
      * by apply Hrep.
      * rewrite fmap_app. apply elem_of_app. right. left.
      * intros E. apply negb_true_iff in Ea. apply addr_eqb_code in E; [congruence|done|done].
  - exists w. destruct Hc as [H1 H2 H3]. split; [done|done|by apply Forall_forall].
Qed.

(** The element of a descending order that a majority has reached. *)
Lemma kth_majority arb seen (l : list LSN) w (k : nat) bound :
  collected arb seen l w → (k < length l)%nat → Lsn.val_ bound ≤ Lsn.val_ (default no_lsn (LogCommit.lsn_sort l !! k)) →
  ∃ Q : gset (list Z), (k < size Q)%nat ∧
    ∀ s, s ∈ Q → s ∈ key <$> seen ∧ s ≠ code arb ∧ ∃ lsn, has s lsn ∧ Lsn.val_ bound ≤ Lsn.val_ lsn.
Proof.
  intros [-> Hn Hh] Hk Hb. set (srt := LogCommit.lsn_sort w.*2) in *.
  assert (srt ≡ₚ w.*2) as Hp by apply merge_sort_Permutation.
  assert (StronglySorted LogCommit.lsn_after srt) as Hs by (apply StronglySorted_merge_sort; apply _).
  destruct (lookup_lt_is_Some_2 srt k) as [x Hx]; [by rewrite Hp|]. rewrite Hx in Hb. cbn in Hb.
  pose proof (proj2 (CommitSafety.sorted_kth srt k x bound Hs Hx) Hb) as Hlen. rewrite Hp in Hlen.
  set (good := filter (λ e : list Z * LSN, LogCommit.lsn_after e.2 bound) w).
  assert (length (filter (λ z, LogCommit.lsn_after z bound) w.*2) = length good) as El.
  { unfold good. clear. induction w as [|e w IH]; [done|]. rewrite fmap_cons, !filter_cons. cbn beta. destruct (decide _); cbn [length]; lia. }
  exists (list_to_set good.*1). split.
  - rewrite size_list_to_set, length_fmap; [lia|]. eapply sublist_NoDup; [exact Hn|]. by apply fmap_sublist, sublist_filter.
  - intros s (e & -> & He)%elem_of_list_to_set%list_elem_of_fmap. unfold good in He. apply list_elem_of_filter in He as [Hge He].
    rewrite Forall_forall in Hh. destruct (Hh e He) as (? & ? & ?). split_and!; [done|done|]. by exists e.2.
Qed.

Lemma converted_num c x : convert_to_complete_config c = (OB_SUCCESS, x) → 0 < log_sync_replica_num_ c.
Proof.
  unfold convert_to_complete_config. destruct (_ || negb (num_ok _)) eqn:Eb; [done|]. intros _.
  apply orb_false_iff in Eb as [_ Hn%negb_false_iff]. unfold num_ok in Hn. lia.
Qed.

(** The living members but the arbitration member keep the log. *)
Lemma keeps_log c ml num ls s :
  config_wf c → convert_to_complete_config c = (OB_SUCCESS, (ml, num, ls)) → s ∈ key <$> ml →
  s ≠ code (server_ (arbitration_member_ c)) → s ∈ log_members c.
Proof.
  intros [Hw Ha _] Ec Hin Hne. destruct (convert_spec _ _ _ _ Hw Ha Ec) as (Hwm & Hd & _).
  assert (s ∈ living c) as Hl.
  { rewrite <- Hd. apply elem_of_dom. apply not_eq_None_Some. by intros En%lookup_members_none. }
  unfold living in Hl. apply elem_of_union in Hl as [?|Hl]; [done|]. destruct (member_is_valid _); [|by apply not_elem_of_empty in Hl].
  apply elem_of_singleton in Hl. done.
Qed.

Lemma committed_spec args info n f m :
  self_ m = self → wf_addr self → config_wf (config_ info) →
  twp (sync_get_committed_end_lsn_ args info n f)
    (λ r m', core m' = core m ∧ (r.1 = OB_SUCCESS → ∀ bound, Lsn.val_ bound ≤ Lsn.val_ r.2.1 →
       ∃ Q, majority_of (log_members (config_ info)) (log_sync_replica_num_ (config_ info)) Q ∧
            ∀ s, s ∈ Q → ∃ lsn, has s lsn ∧ Lsn.val_ bound ≤ Lsn.val_ lsn)) m.
Proof.
  intros Hself Hws Hwf. unfold sync_get_committed_end_lsn_. do 2 mstep.
  destruct (convert_to_complete_config _) as [rc [[ml num] ls]] eqn:Ec. mstep. cbv zeta.
  destruct (ob_failed rc) eqn:Er.
  { cbn [sync_members]. do 2 mstep. split; [done|]. intros E. exfalso. revert E. repeat case_match; cbn [fst]; try done. by intros ->. }
  apply ob_failed_false in Er. subst rc. pose proof Hwf as [Hw Ha _]. destruct (convert_spec _ _ _ _ Hw Ha Ec) as (Hwm & _).
  eapply (twp_mono _ (λ y' m', core m' = core m ∧ ∃ w', collected (server_ (arbitration_member_ (config_ info))) ml (lsns y') w')).
  { apply twp_run. pose proof (sync_members_core args (server_ (arbitration_member_ (config_ info))) (curr_version m) n f ml
                                 (mkSync [] 0 (negb (is_add_member_list (a_type_ args))) no_lsn 0) m) as Hcore.
    assert (Forall (λ x, wf_addr (server_ x)) ml) as Hall by (destruct Hwm as [_ Hv _]; eapply Forall_impl; [exact Hv|]; by intros ? [? _]).
    pose proof (sync_members_spec args (server_ (arbitration_member_ (config_ info))) (curr_version m) n f ml []
                  (mkSync [] 0 (negb (is_add_member_list (a_type_ args))) no_lsn 0) [] m Hself Hws Ha Hall) as Hspec.
    unfold twp in Hcore, Hspec. destruct (sync_members _ _ _ _ _ _ _ m) as [[y m1]|]; [|done]. exists y, m1. split; [done|]. split; [done|].
    apply Hspec; [apply sorted_nodup, Hwm|]. split; [done|constructor|constructor]. }
  intros y m1 [E1 [w Hcol]]. mstep. split; [done|]. destruct (negb (added_ok y)); [done|].
  destruct (_ || _) eqn:Eb; [done|]. cbn [fst snd]. intros _ bound Hb. apply orb_false_iff in Eb as [_ Hlen%Z.ltb_ge].
  pose proof (converted_num _ _ Ec) as Hpos. pose proof (Z.quot_pos (log_sync_replica_num_ (config_ info)) 2 ltac:(lia) ltac:(lia)) as Hq.
  destruct (kth_majority _ _ _ _ (Z.to_nat (Z.quot (log_sync_replica_num_ (config_ info)) 2)) bound Hcol) as (Q & Hsz & HQ); [lia|done|].
  exists Q. split; [split; [|lia]|].
  - intros s Hs. destruct (HQ s Hs) as (Hin & Hne & _). by eapply keeps_log.
  - intros s Hs. by destruct (HQ s Hs) as (_ & _ & ?).
Qed.

(** C24. The log barrier holds: when the wait before a change of configuration ends with
    success, a majority of the members of the new configuration that keep the log, which the
    arbitration member does not, have told how far they have flushed it, and, unless the
    access mode lets the barrier be skipped, each of them has flushed it up to the barrier;
    this if the ends that the window and the servers report are those of their logs. *)
Theorem barrier_reached_by_majority args info m m' :
  self_ m = self → wf_addr self → config_wf (config_ info) →
  wait_log_barrier_ args info m = Some (OB_SUCCESS, m') →
  ∃ Q, majority_of (log_members (config_ info)) (log_sync_replica_num_ (config_ info)) Q ∧
       ∀ s, s ∈ Q → ∃ lsn, has s lsn ∧
         (fst (mode_need_skip_log_barrier (snd (current_time (peers m)))) = false →
          Lsn.val_ (b_end_lsn (checking_barrier_ (cfg m))) ≤ Lsn.val_ lsn).
Proof.
  intros Hself Hws Hwf E. refine (twp_elim _ (λ rc _, rc = OB_SUCCESS → _) _ _ _ E _ eq_refl). clear E.
  unfold wait_log_barrier_. do 4 mstep. rewrite H. cbn [snd]. cbn [peers set_peers] in *. rewrite H0. cbn [fst]. do 4 mstep.
  mstep; [by mstep|]. mstep; [by repeat mstep|]. mstep. eapply twp_mono; [by apply committed_spec|].
  intros [rc [lsn y]] m1 [E1 Hmaj]. mstep; [mstep; intros ->; done|]. apply ob_failed_false in Heqb1 as ->. cbn [fst snd] in *.
  assert (∀ b, Lsn.val_ b ≤ Lsn.val_ lsn → (a0 = false → b = b_end_lsn (checking_barrier_ (cfg m))) →
    ∃ Q, majority_of (log_members (config_ info)) (log_sync_replica_num_ (config_ info)) Q ∧
         ∀ s, s ∈ Q → ∃ lsn, has s lsn ∧ (a0 = false → Lsn.val_ (b_end_lsn (checking_barrier_ (cfg m))) ≤ Lsn.val_ lsn)) as Hend.
  { intros b Hb Hab. destruct (Hmaj eq_refl b Hb) as (Q & HQ & Hin). exists Q. split; [done|]. intros s Hs.
    destruct (Hin s Hs) as (l & ? & ?). exists l. split; [done|]. intros Hf. by rewrite <- (Hab Hf). }
  mstep; [subst a0; mstep; intros _; by apply (Hend lsn)|].
  mstep; [|repeat mstep; done]. mstep. intros _. apply (Hend (b_end_lsn (checking_barrier_ (cfg m)))); [|done].
  unfold Lsn.lsn_geb, Lsn.lsn_ltb, Lsn.lsn_eqb in Heqb2. cbn in Heqb2 |- *. lia.
Qed.
End barrier.

Module Run.
Import ConfigHistory.Run.
(** The logs of the servers of [ConfigHistory.Run]: the third has none of it, the fourth a
    part.  The leader of the first three, with an arbitration member, starts to work. *)
Definition log_end (s : list Z) : Z :=
  if bool_decide (s = code (server 4)) then 150 else if bool_decide (s = code (server 3)) then 0 else 200.
Definition has (s : list Z) (lsn : Lsn.LSN) : Prop := Lsn.val_ lsn ≤ log_end s.
#[export] Instance sim_reports : Reports Z (server 1) has.
Proof.
  split; unfold has, log_end.
  - intros p lsn p' [= <- _]. by vm_compute.
  - intros a p lsn time p'. cbn. unfold is_server. case_bool_decide as E; [|done]. intros [= <- _ _]. rewrite E. by vm_compute.
  - intros a v purge timeout p normal need lsn last p'. cbn. unfold is_server. repeat case_bool_decide; intros [=]; subst; cbn; lia.
Qed.
Definition with_arb : LogConfigInfoV2 :=
  with_config (λ c, set_config_version (version 2) (set_arb (new_member (server 9) 1) c)) first.
Lemma with_arb_wf : config_wf (config_ with_arb).
Proof. split; [apply config_three_wf|done|by vm_compute]. Qed.
Definition work : LogConfigChangeArgs := server_args no_member 1 no_version STARTWORKING.
Definition before : @LogConfigMgr Z := Eval vm_compute in
  match renew_config_change_barrier (fst run0) with Some (_, m) => m | None => fst run0 end.
Definition after : @LogConfigMgr Z := Eval vm_compute in
  match wait_log_barrier_ work with_arb before with Some (_, m) => m | None => before end.

(** The barrier is 200, which the first and the second server have reached. *)
Lemma barrier_reached_by_majority_witness :
  wait_log_barrier_ work with_arb before = Some (OB_SUCCESS, after) ∧
  (∃ Q, majority_of (log_members (config_ with_arb)) 3 Q ∧ ∀ s, s ∈ Q → ∃ lsn, has s lsn ∧ 200 ≤ Lsn.val_ lsn).
Proof.
  split; [by vm_compute|].
  destruct (barrier_reached_by_majority (server 1) has work with_arb before after) as (Q & HQ & Hin);
    [by vm_compute|done|apply with_arb_wf|by vm_compute|].
  exists Q. split; [exact HQ|]. intros s Hs. destruct (Hin s Hs) as (lsn & Hl & Hb). exists lsn. split; [exact Hl|].
  apply Hb. by vm_compute.
Defined.
End Run.
End ConfigBarrier.
