(* ===== verification/LogReplica.v ===== *)
(** The log of one replica: the state of [LogSlidingWindow] of
    [src/logservice/palf/log_sliding_window.cpp] and the handlers that receive a group
    of logs, submit it to the log engine, take note of its flush, commit, slide out,
    clean and truncate it.

    A handler runs alone here: the window is seen between the calls of its users, with
    no reference held, as a map from log ids to log tasks (an id without an entry has a
    task that has just been reset).  The log engine, the network and the callback of
    the file system are the list [outbox] of what was submitted to them; whether a
    submission succeeds is part of [Env].  Fetching logs from other replicas,
    statistics and throttling are left out. *)
From S2P Require Import Prelude Serialization Scn Lsn LsnAllocator Codec LogEntryHeader LogEntry LogWriteBuf LogGroupEntryHeader LogGroupEntry LogChecksum LogGroupBuffer LogSubmit LogTask MemberList LogCommit.
Import Ser Codec LogSubmit LogTask.

Module LogReplica.
Abbreviation LSN := Lsn.LSN.
Abbreviation HEADER := LogGroupEntryHeader.HEADER_SER_SIZE.
Definition PALF_SLIDING_WINDOW_SIZE : Z := Z.shiftl 1 11.
Definition FIRST_VALID_LOG_ID : Z := 1.
Definition OB_LOG_OUTOF_DISK_SPACE : Z := -4264.

(** ** What is submitted to others *)
Record FlushLogCbCtx : Set := mkCtx {
  c_log_id : Z; c_scn : Scn.SCN; c_lsn : LSN; c_log_proposal_id : Z; c_total_len : Z; c_curr_proposal_id : Z
}.
Inductive Out : Set :=
| FlushLog (ctx : FlushLogCbCtx)
| TruncateLog (l : LSN)
| PushLog (curr_proposal_id prev_log_pid : Z) (prev_lsn lsn : LSN) (buf : LogWriteBuf.LogWriteBuf)
| PushLogResp (msg_proposal_id : Z) (log_end_lsn : LSN)
| UpdateEndLsn (log_end_lsn : LSN) (scn : Scn.SCN) (proposal_id : Z)
| FillCache (l : LSN) (size : Z).

(** ** The state *)
Record Submitted : Set := mkSub { s_lsn : LSN; s_end : LSN; s_id : Z; s_pid : Z }.
Record Flushed : Set := mkFl { f_lsn : LSN; f_end : LSN; f_pid : Z }.
Record Slid : Set := mkSl { d_id : Z; d_scn : Scn.SCN; d_lsn : LSN; d_end : LSN; d_pid : Z; d_accum : Z }.
(** [last_submit_*], [max_flushed_*] and [last_slide_*] are records of their own. *)
Record Replica : Type := mkRep {
  sw_inited : bool;
  self_ : MemberList.ObAddr;
  start_id : Z;
  tasks : gmap Z LogTask;
  lsn_allocator_ : LsnAllocator.Alloc;
  group_buffer_ : LogGroupBuffer.LogGroupBuffer;
  checksum_ : LogChecksum.LogChecksum;
  last_submit : Submitted;
  max_flushed : Flushed;
  last_slide : Slid;
  committed_end : LSN;
  match_map : LogCommit.AckMap;
  is_truncating_ : bool;
  last_truncate_lsn_ : LSN;
  is_rebuilding_ : bool;
  last_rebuild_lsn_ : LSN;
  feedback_freeze_mode : bool;
  outbox : list Out
}.
Implicit Types (r : Replica) (k : LogTask).

Definition set_window (i : Z) (t : gmap Z LogTask) r : Replica :=
  mkRep (sw_inited r) (self_ r) i t (lsn_allocator_ r) (group_buffer_ r) (checksum_ r) (last_submit r) (max_flushed r) (last_slide r)
    (committed_end r) (match_map r) (is_truncating_ r) (last_truncate_lsn_ r) (is_rebuilding_ r) (last_rebuild_lsn_ r) (feedback_freeze_mode r) (outbox r).
Definition set_buffers (a : LsnAllocator.Alloc) (b : LogGroupBuffer.LogGroupBuffer) (c : LogChecksum.LogChecksum) r : Replica :=
  mkRep (sw_inited r) (self_ r) (start_id r) (tasks r) a b c (last_submit r) (max_flushed r) (last_slide r)
    (committed_end r) (match_map r) (is_truncating_ r) (last_truncate_lsn_ r) (is_rebuilding_ r) (last_rebuild_lsn_ r) (feedback_freeze_mode r) (outbox r).
Definition set_sub (s : Submitted) r : Replica :=
  mkRep (sw_inited r) (self_ r) (start_id r) (tasks r) (lsn_allocator_ r) (group_buffer_ r) (checksum_ r) s (max_flushed r) (last_slide r)
    (committed_end r) (match_map r) (is_truncating_ r) (last_truncate_lsn_ r) (is_rebuilding_ r) (last_rebuild_lsn_ r) (feedback_freeze_mode r) (outbox r).
Definition set_fl (f : Flushed) r : Replica :=
  mkRep (sw_inited r) (self_ r) (start_id r) (tasks r) (lsn_allocator_ r) (group_buffer_ r) (checksum_ r) (last_submit r) f (last_slide r)
    (committed_end r) (match_map r) (is_truncating_ r) (last_truncate_lsn_ r) (is_rebuilding_ r) (last_rebuild_lsn_ r) (feedback_freeze_mode r) (outbox r).
Definition set_sl (d : Slid) r : Replica :=
  mkRep (sw_inited r) (self_ r) (start_id r) (tasks r) (lsn_allocator_ r) (group_buffer_ r) (checksum_ r) (last_submit r) (max_flushed r) d
    (committed_end r) (match_map r) (is_truncating_ r) (last_truncate_lsn_ r) (is_rebuilding_ r) (last_rebuild_lsn_ r) (feedback_freeze_mode r) (outbox r).
Definition set_commit (c : LSN) (f : LogCommit.AckMap) r : Replica :=
  mkRep (sw_inited r) (self_ r) (start_id r) (tasks r) (lsn_allocator_ r) (group_buffer_ r) (checksum_ r) (last_submit r) (max_flushed r) (last_slide r)
    c f (is_truncating_ r) (last_truncate_lsn_ r) (is_rebuilding_ r) (last_rebuild_lsn_ r) (feedback_freeze_mode r) (outbox r).
Definition set_truncating (b : bool) (l : LSN) r : Replica :=
  mkRep (sw_inited r) (self_ r) (start_id r) (tasks r) (lsn_allocator_ r) (group_buffer_ r) (checksum_ r) (last_submit r) (max_flushed r) (last_slide r)
    (committed_end r) (match_map r) b l (is_rebuilding_ r) (last_rebuild_lsn_ r) (feedback_freeze_mode r) (outbox r).
Definition set_rebuilding (b : bool) (l : LSN) r : Replica :=
  mkRep (sw_inited r) (self_ r) (start_id r) (tasks r) (lsn_allocator_ r) (group_buffer_ r) (checksum_ r) (last_submit r) (max_flushed r) (last_slide r)
    (committed_end r) (match_map r) (is_truncating_ r) (last_truncate_lsn_ r) b l (feedback_freeze_mode r) (outbox r).
Definition send (o : Out) r : Replica :=
  mkRep (sw_inited r) (self_ r) (start_id r) (tasks r) (lsn_allocator_ r) (group_buffer_ r) (checksum_ r) (last_submit r) (max_flushed r) (last_slide r)
    (committed_end r) (match_map r) (is_truncating_ r) (last_truncate_lsn_ r) (is_rebuilding_ r) (last_rebuild_lsn_ r) (feedback_freeze_mode r) (outbox r ++ [o]).
Definition set_alloc (a : LsnAllocator.Alloc) r : Replica := set_buffers a (group_buffer_ r) (checksum_ r) r.
Definition set_buf (b : LogGroupBuffer.LogGroupBuffer) r : Replica := set_buffers (lsn_allocator_ r) b (checksum_ r) r.
Definition set_cs (c : LogChecksum.LogChecksum) r : Replica := set_buffers (lsn_allocator_ r) (group_buffer_ r) c r.

(** ** The window *)
Definition task_at (id : Z) r : LogTask := default new_task (tasks r !! id).
Definition put (id : Z) k r : Replica := set_window (start_id r) (<[id := k]> (tasks r)) r.
(** [LogTaskGuard::get_log_task]. *)
Definition get_log_task (id : Z) r : Z :=
  if negb (Lsn.is_valid_log_id id) then OB_INVALID_ARGUMENT
  else if id <? start_id r then OB_ERR_OUT_OF_LOWER_BOUND
  else if start_id r + PALF_SLIDING_WINDOW_SIZE <=? id then OB_ERR_OUT_OF_UPPER_BOUND
  else OB_SUCCESS.
(** Where a group ends. *)
Definition end_of (begin_lsn : LSN) (data_len : Z) : LSN := Lsn.lsn_add (Lsn.lsn_add begin_lsn HEADER) data_len.
Definition task_end k : LSN := end_of (begin_lsn_ (header_ k)) (data_len_ (header_ k)).
Definition task_pid k : Z := i_proposal_id_ (header_ k).
(** The slot is reset and its place reused for the id after the window. *)
Definition slide_out r : Replica := set_window (start_id r + 1) (delete (start_id r) (tasks r)) r.
(** [sw_.truncate]: every slot from [id] on is reset. *)
Definition truncate_window (id : Z) r : Z * Replica :=
  if id <? start_id r then (OB_ERR_UNEXPECTED, r)
  else (OB_SUCCESS, set_window (start_id r) (filter (λ e, fst e < id) (tasks r)) r).

(** ** What the other objects of the replica say *)
Record Env : Type := mkEnv {
  follower_active : bool;
  leader_active : bool;
  leader_reconfirm : bool;
  role_follower : bool;
  role_leader : bool;
  can_slide_sw : bool;
  allow_vote : bool;
  proposal_id : Z;
  leader_known : bool;         (* [get_leader] or [get_broadcast_leader] is valid *)
  initial_config : bool;       (* [config_version.is_initial_version()] *)
  changing_config_with_arb : bool;
  config : LogCommit.LogConfigMgr;
  now : Z;
  lease_rounds : nat;          (* iterations before the thread lease expires *)
  flush_rc : Z;                (* results of the submissions *)
  truncate_rc : Z;
  resp_rc : Z
}.

(** ** Submit, flush and slide positions *)
Definition no_lsn : LSN := LogSubmit.no_lsn.
Definition set_last_submit_log_info_ (lsn end_lsn : LSN) (log_id log_proposal_id : Z) r : Replica :=
  if negb (Lsn.is_valid lsn) || negb (Lsn.is_valid end_lsn) || (Lsn.OB_INVALID_LOG_ID =? log_id)
     || ((Lsn.INVALID_PROPOSAL_ID =? log_proposal_id) && (LogCommit.PALF_INITIAL_LSN_VAL <? Lsn.val_ end_lsn))
  then r else set_sub (mkSub lsn end_lsn log_id log_proposal_id) r.
Definition inc_update_max_flushed_log_info_ (lsn end_lsn : LSN) (pid : Z) r : Replica :=
  if negb (Lsn.is_valid lsn) || negb (Lsn.is_valid end_lsn) || (Lsn.INVALID_PROPOSAL_ID =? pid) then r
  else if Lsn.is_valid (f_end (max_flushed r)) && Lsn.lsn_geb (f_end (max_flushed r)) end_lsn then r
  else set_fl (mkFl lsn end_lsn pid) r.
Definition truncate_max_flushed_log_info_ (lsn end_lsn : LSN) (pid : Z) r : Replica :=
  if negb (Lsn.is_valid lsn) || negb (Lsn.is_valid end_lsn)
     || ((Lsn.INVALID_PROPOSAL_ID =? pid) && (LogCommit.PALF_INITIAL_LSN_VAL <? Lsn.val_ end_lsn))
  then r else set_fl (mkFl lsn end_lsn pid) r.
Definition try_update_last_slide_log_info_ (d : Slid) r : Replica :=
  if negb (Lsn.is_valid (d_lsn d)) || negb (Lsn.is_valid (d_end d)) || (Lsn.INVALID_PROPOSAL_ID =? d_pid d)
     || (Lsn.OB_INVALID_LOG_ID =? d_id d) || negb (Scn.is_valid (d_scn d))
  then r else set_sl d r.

(** The part of the state [LogCommit] works on. *)
Definition acks_of r : LogCommit.Acks := LogCommit.mkAcks (self_ r) (match_map r) (committed_end r) (f_end (max_flushed r)).
Definition with_acks (a : LogCommit.Acks) r : Replica := set_commit (LogCommit.committed_end_lsn_ a) (LogCommit.match_lsn_map_ a) r.
Definition advance_committed (l : LSN) r : Replica := with_acks (snd (LogCommit.try_advance_committed_lsn_ l (acks_of r))) r.

Definition try_update_max_lsn_ (lsn : LSN) (h : LogGroupEntryHeader.LogGroupEntryHeader) r : Z * Replica :=
  let end_lsn := Lsn.lsn_add lsn (LogGroupEntryHeader.get_serialize_size h + LogGroupEntryHeader.group_size_ h) in
  let '(rc, a) := LsnAllocator.inc_update_last_log_info end_lsn (LogGroupEntryHeader.log_id_ h) (LogGroupEntryHeader.max_scn_ h) (lsn_allocator_ r) in
  (rc, set_alloc a r).
Definition truncate_lsn_allocator_ (last_lsn : LSN) (last_log_id : Z) (last_scn : Scn.SCN) r : Z * Replica :=
  if negb (Lsn.is_valid last_lsn) || (Lsn.OB_INVALID_LOG_ID =? last_log_id) || (negb (Scn.is_valid last_scn) && negb (0 =? last_log_id))
  then (OB_INVALID_ARGUMENT, r)
  else let '(rc, a) := LsnAllocator.truncate last_lsn last_log_id last_scn (lsn_allocator_ r) in (rc, set_alloc a r).
Definition get_max_log_id r : Z := LsnAllocator.get_max_log_id (lsn_allocator_ r).
Definition can_receive_larger_log_ (log_id : Z) r : bool :=
  if (PALF_SLIDING_WINDOW_SIZE <=? log_id - start_id r) || (start_id r + PALF_SLIDING_WINDOW_SIZE <=? log_id) then false else true.

Section replica.
Context (XXH64 : list Z → Z → Z) (ob_crc64 : Z → list Z → Z) (grow : nat → bool).

(** ** Committed logs slide out *)

(** [sliding_cb] on the task of the first slot. *)
Definition sliding_cb (e : Env) k r : Z * Replica :=
  if negb (sw_inited r) then (OB_NOT_INIT, r)
  else if negb (can_slide_sw e) then (OB_EAGAIN, r)
  else
    let h := header_ k in
    let '(rc, c) := LogChecksum.verify_accum_checksum ob_crc64 (data_checksum_ h) (accum_checksum_ h) (checksum_ r) in
    let r := set_cs c r in
    if ob_failed rc then (rc, r)
    else
      let log_end_lsn := task_end k in
      let r := send (UpdateEndLsn log_end_lsn (i_max_scn_ h) (task_pid k)) r in
      let r := try_update_last_slide_log_info_
                 (mkSl (start_id r) (i_max_scn_ h) (begin_lsn_ h) log_end_lsn (task_pid k) (accum_checksum_ h)) r in
      (OB_SUCCESS, send (FillCache (begin_lsn_ h) (HEADER + data_len_ h)) r).
(** One round of [handle_committed_log_]: the code and whether to look at the next log.
    Sliding ends at the first task without the tag. *)
Definition commit_once (e : Env) r : Z * bool * Replica :=
  let id := start_id r in
  let rc := get_log_task id r in
  if ob_failed rc then (if OB_ERR_OUT_OF_LOWER_BOUND =? rc then (OB_SUCCESS, true, r) else (rc, false, r))
  else
    let k := task_at id r in
    if negb (is_valid k) then (OB_SUCCESS, false, r)
    else if is_freezed k && Lsn.lsn_geb (f_end (max_flushed r)) (task_end k) && Lsn.lsn_geb (committed_end r) (task_end k)
            && can_slide_sw e
    then
      let '(tagged, k) := try_pre_slide k in
      let r := put id k r in
      if (tagged : bool) then
        let '(rc, r) := sliding_cb e k r in
        if ob_failed rc then (rc, false, put id (reset_pre_slide k) r) else (OB_SUCCESS, true, slide_out r)
      else (OB_SUCCESS, false, r)
    else (OB_SUCCESS, false, r).
Fixpoint commit_loop (fuel : nat) (e : Env) r : Replica :=
  match fuel with
  | O => r
  | S fuel => let '(rc, next, r) := commit_once e r in if (next : bool) && negb (ob_failed rc) then commit_loop fuel e r else r
  end.
Definition is_all_committed_log_slided_out_ r : bool := Lsn.lsn_leb (committed_end r) (d_end (last_slide r)).
(** Every round but the last takes a task out of the window. *)
Definition handle_committed_log_ (e : Env) r : Replica :=
  if is_all_committed_log_slided_out_ r then r else commit_loop (S (size (tasks r))) e r.

(** ** The next log is submitted *)

(** From the tag to the submission: the code, whether the log was submitted, and what
    was generated. *)
Definition no_gen r : Generated := mkGen OB_SUCCESS LogGroupEntryHeader.empty (-1) false (checksum_ r).
(** The checks and the header: the result and the state. *)
Definition submit_prepare (e : Env) (id : Z) k r : option (Generated * Replica) :=
  let s := last_submit r in
  let h := header_ k in
  if negb (Lsn.lsn_eqb (s_end s) (begin_lsn_ h)) then
    Some (mkGen OB_ERR_UNEXPECTED LogGroupEntryHeader.empty (-1) false (checksum_ r), r)
  else if negb (leader_active e) && (FIRST_VALID_LOG_ID <? id)
          && (negb (Lsn.lsn_eqb (s_lsn s) (prev_lsn_ h)) || negb (s_pid s =? prev_proposal_id_ h))
  then Some (mkGen OB_STATE_NOT_MATCH LogGroupEntryHeader.empty (-1) false (checksum_ r), r)
  else
    match generate_group_entry_header_ XXH64 ob_crc64 grow id (Some h) (committed_end r) (group_buffer_ r) (no_gen r) with
    | None => None
    | Some g =>
        let r := set_cs (LogSubmit.checksum_ g) r in
        if ob_failed (g_ret g) then Some (g, r)
        else if negb (follower_active e) then
          let k := set_group_log_checksum (group_log_data_checksum g) k in
          let '(rc, k) := update_header_info (LogGroupEntryHeader.committed_end_lsn_ (group_header g))
                            (LogGroupEntryHeader.accumulated_checksum_ (group_header g)) k in
          Some (mkGen rc (group_header g) (group_log_data_checksum g) (is_accum_checksum_acquired g) (LogSubmit.checksum_ g), put id k r)
        else Some (g, r)
    end.
(** Serializing, pushing and flushing: the code and the state. *)
Definition submit_flush (e : Env) (id : Z) (g : Generated) r : option (Z * Replica) :=
  let s := last_submit r in
  let k := task_at id r in
  let begin_lsn := begin_lsn_ (header_ k) in
  let header := group_header g in
  match submit_header grow (follower_active e) begin_lsn header (group_buffer_ r) with
  | None => None
  | Some (rc, buf, gb) =>
      let r := set_buf gb r in
      let r := if ob_failed rc || negb (leader_active e) then r
               else send (PushLog (proposal_id e) (s_pid s) (s_lsn s) begin_lsn buf) r in
      let r := put id (set_submit_ts (now e) k) r in
      if ob_failed rc then Some (rc, r)
      else if ob_failed (flush_rc e) then Some (flush_rc e, r)
      else
        let r := send (FlushLog (mkCtx id (min_scn_ (header_ k)) begin_lsn (task_pid k)
                                   (HEADER + LogGroupEntryHeader.group_size_ header) (proposal_id e))) r in
        let r := set_last_submit_log_info_ begin_lsn (task_end k) id (LogGroupEntryHeader.proposal_id_ header) r in
        Some (OB_SUCCESS,
              if role_follower e || leader_reconfirm e then advance_committed (LogGroupEntryHeader.committed_end_lsn_ header) r else r)
  end.
(** One round: the code, whether the loop goes on, whether [is_committed_lsn_updated]
    was set, and the state.  A successful rollback of the checksum also ends the error. *)
Definition submit_once (e : Env) r : option (Z * bool * bool * Replica) :=
  let id := s_id (last_submit r) + 1 in
  let rc := get_log_task id r in
  if ob_failed rc then Some (rc, true, false, r)
  else
    let k := task_at id r in
    if negb (is_valid k) then Some (OB_SUCCESS, false, false, r)
    else
      let '(need, k) := try_pre_submit k in
      let r := put id k r in
      if negb need then Some (OB_SUCCESS, false, false, r)
      else
        match submit_prepare e id k r with
        | None => None
        | Some (g, r) =>
            match (if ob_failed (g_ret g) then Some (g_ret g, r) else submit_flush e id g r) with
            | None => None
            | Some (rc, r) =>
                if negb (ob_failed rc) then Some (OB_SUCCESS, true, role_follower e || leader_reconfirm e, r)
                else
                  let r := put id (reset_pre_submit (task_at id r)) r in
                  if is_accum_checksum_acquired g then
                    let '(rc, c) := LogChecksum.rollback_accum_checksum (LogGroupEntryHeader.accumulated_checksum_ (group_header g)) (checksum_ r) in
                    Some (rc, true, false, set_cs c r)
                  else Some (rc, true, false, r)
            end
        end.
Fixpoint submit_loop (rounds : nat) (e : Env) r : option (bool * Replica) :=
  match rounds with
  | O => Some (false, r)
  | S rounds =>
      match submit_once e r with
      | None => None
      | Some (rc, goes_on, updated, r) =>
          if (goes_on : bool) && negb (ob_failed rc) then
            match submit_loop rounds e r with None => None | Some (u, r) => Some (updated || u, r) end
          else Some (updated, r)
      end
  end.
Definition handle_next_submit_log_ (e : Env) r : option (bool * Replica) := submit_loop (lease_rounds e) e r.

(** ** A group of logs is received *)

(** The place, proposal id and checksum of the log before [log_id]. *)
Record PrevLog : Set := mkPrev { p_lsn : LSN; p_end : LSN; p_scn : Scn.SCN; p_pid : Z; p_accum : Z }.
Definition get_prev_log_info_ (log_id : Z) r : Z * option PrevLog :=
  if log_id <? 1 then (OB_INVALID_ARGUMENT, None)
  else if FIRST_VALID_LOG_ID =? log_id then (OB_ENTRY_NOT_EXIST, None)
  else
    let prev := log_id - 1 in
    let rc := get_log_task prev r in
    if ob_failed rc then
      if OB_ERR_OUT_OF_LOWER_BOUND =? rc then
        let d := last_slide r in
        if start_id r =? log_id then (OB_SUCCESS, Some (mkPrev (d_lsn d) (d_end d) (d_scn d) (d_pid d) (d_accum d)))
        else (OB_ENTRY_NOT_EXIST, None)
      else (rc, None)
    else
      let k := task_at prev r in
      if negb (is_valid k) then (OB_ENTRY_NOT_EXIST, None)
      else (OB_SUCCESS, Some (mkPrev (begin_lsn_ (header_ k)) (task_end k) (i_max_scn_ (header_ k)) (task_pid k) (accum_checksum_ (header_ k)))).
(** The result and [is_prev_log_exist]. *)
Definition is_prev_log_pid_match (log_id : Z) (lsn prev_lsn : LSN) (prev_log_pid : Z) r : bool * bool :=
  if (Lsn.OB_INVALID_LOG_ID =? log_id) || negb (Lsn.is_valid lsn) then (false, false)
  else if FIRST_VALID_LOG_ID =? log_id then (true, false)
  else match get_prev_log_info_ log_id r with
       | (rc, Some p) =>
           if ob_failed rc then (false, false)
           else ((p_pid p =? prev_log_pid) && Lsn.lsn_eqb (p_lsn p) prev_lsn && Lsn.lsn_eqb (p_end p) lsn, true)
       | (_, None) => (false, false)
       end.
(** The result, [need_send_ack], [is_local_log_valid], [is_log_pid_match] and the task. *)
Definition need_update_log_task_ (h : LogGroupEntryHeader.LogGroupEntryHeader) k r : bool * bool * bool * bool * LogTask :=
  if negb (sw_inited r) || negb (LogGroupEntryHeader.is_valid h) then (false, false, false, false, k)
  else if negb (is_valid k) then let '(b, k) := try_pre_fill k in (b, false, false, false, k)
  else
    let new_pid := LogGroupEntryHeader.proposal_id_ h in
    if Lsn.INVALID_PROPOSAL_ID =? task_pid k then (false, false, true, false, k)
    else if task_pid k =? new_pid then (false, Lsn.lsn_geb (f_end (max_flushed r)) (task_end k), true, true, k)
    else (false, false, true, false, k).

Definition submit_push_log_resp_ (e : Env) (msg_proposal_id : Z) (log_end_lsn : LSN) r : Z * Replica :=
  if allow_vote e then (resp_rc e, if ob_failed (resp_rc e) then r else send (PushLogResp msg_proposal_id log_end_lsn) r)
  else (OB_SUCCESS, r).
Definition submit_push_log_resp (e : Env) r : Z * Replica :=
  if negb (sw_inited r) then (OB_NOT_INIT, r) else submit_push_log_resp_ e (proposal_id e) (committed_end r) r.

Inductive TruncateType : Set := INVALID_TRUNCATE_TYPE | TRUNCATE_CACHED_LOG_TASK | TRUNCATE_LOG.
Record TruncateLogInfo : Set := mkTrunc { t_type : TruncateType; t_log_id : Z; t_begin_lsn : LSN; t_pid : Z }.
Definition no_truncate : TruncateLogInfo := mkTrunc INVALID_TRUNCATE_TYPE Lsn.OB_INVALID_LOG_ID no_lsn Lsn.INVALID_PROPOSAL_ID.

(** [deserialize] and [check_integrity]: the code, the header and the checksum of the data. *)
Definition parse_group (buf : buf_t) (buf_len : Z) : option (Z * LogGroupEntryHeader.LogGroupEntryHeader * Z) :=
  match LogGroupEntryHeader.deserialize XXH64 buf buf_len LogGroupEntryHeader.empty 0 with
  | None => None
  | Some ((rc, h), _) =>
      if ob_failed rc then Some (rc, h, 0)
      else match LogGroupEntryHeader.check_integrity XXH64 ob_crc64 (drop (Z.to_nat HEADER) <$> buf) (buf_len - HEADER) 0 h with
           | None => None
           | Some (ok, c) => Some (if ok then OB_SUCCESS else OB_INVALID_DATA, h, c)
           end
  end.
Definition get_min_scn_from_buf_ (h : LogGroupEntryHeader.LogGroupEntryHeader) (buf : buf_t) (buf_len : Z) : option (Z * Scn.SCN) :=
  if LogGroupEntryHeader.is_padding_log h then Some (OB_SUCCESS, LogGroupEntryHeader.max_scn_ h)
  else match LogEntryHeader.deserialize XXH64 buf buf_len LogEntryHeader.empty 0 with
       | None => None
       | Some ((rc, eh), _) => Some (rc, if ob_failed rc then Scn.invalid_scn else LogEntryHeader.scn_ eh)
       end.

(** The task has to be filled: the tag [PRE_FILL] is set. *)
Definition receive_fill (e : Env) (log_type : PushLogType) (prev_lsn : LSN) (prev_pid : Z) (lsn : LSN)
    (buf : buf_t) (buf_len : Z) (h : LogGroupEntryHeader.LogGroupEntryHeader) (data_checksum : Z) (id : Z) k r : option (Z * Replica) :=
  let stop rc r := Some (rc, put id (reset_pre_fill (task_at id r)) r) in
  let r := put id k r in
  if Lsn.lsn_ltb lsn (f_end (max_flushed r)) then stop OB_STATE_NOT_MATCH r
  else if Lsn.lsn_ltb lsn (s_end (last_submit r)) then stop OB_ERR_UNEXPECTED r
  else
    match get_min_scn_from_buf_ h (drop (Z.to_nat HEADER) <$> buf) (buf_len - HEADER) with
    | None => None
    | Some (rc, min_scn) =>
        if ob_failed rc then stop rc r
        else
          match LogGroupBuffer.fill lsn buf buf_len (group_buffer_ r) with
          | None => None
          | Some (rc, gb) =>
              let r := set_buf gb r in
              if ob_failed rc then stop rc r
              else
                let '(rc, r) := try_update_max_lsn_ lsn h r in
                if ob_failed rc then stop rc r
                else if is_valid k then stop OB_ERR_UNEXPECTED r
                else
                  let '(rc, k) := set_group_header (now e) lsn min_scn h k in
                  if ob_failed rc then stop rc (put id k r)
                  else
                    let k := set_group_log_checksum data_checksum (set_prev_log_proposal_id prev_pid (set_prev_lsn prev_lsn k)) in
                    let k := set_push_log_type log_type (set_freeze_ts (now e) (set_freezed k)) in
                    stop OB_SUCCESS (put id k r)
          end
    end.

(** The code, [truncate_log_info] and the state. *)
Definition receive_task (e : Env) (log_type : PushLogType) (prev_lsn : LSN) (prev_pid : Z) (lsn : LSN)
    (buf : buf_t) (buf_len : Z) (need_check_clean_log : bool) (h : LogGroupEntryHeader.LogGroupEntryHeader) (data_checksum : Z) r
    : option (Z * TruncateLogInfo * Replica) :=
  let id := LogGroupEntryHeader.log_id_ h in
  let pid := LogGroupEntryHeader.proposal_id_ h in
  let s := last_submit r in
  let k := task_at id r in
  let log_end_lsn := Lsn.lsn_add (Lsn.lsn_add lsn (LogGroupEntryHeader.get_serialize_size h)) (LogGroupEntryHeader.group_size_ h) in
  let '(prev_match, prev_exist) := is_prev_log_pid_match id lsn prev_lsn prev_pid r in
  if (prev_exist : bool) && negb prev_match then Some (OB_STATE_NOT_MATCH, no_truncate, r)
  else if (s_id s + 1 <? id) && negb (pid =? s_pid s) then Some (OB_EAGAIN, no_truncate, r)
  else if (prev_match : bool) && need_check_clean_log && (id =? s_id s + 1) && negb (pid =? s_pid s) then
    if negb (Lsn.INVALID_PROPOSAL_ID =? s_pid s) && (pid <? s_pid s) then Some (OB_ERR_UNEXPECTED, no_truncate, r)
    else Some (OB_EAGAIN, mkTrunc TRUNCATE_CACHED_LOG_TASK id no_lsn Lsn.INVALID_PROPOSAL_ID, r)
  else
    let '(update, need_send_ack, local_valid, pid_match, k) := need_update_log_task_ h k r in
    if (update : bool) then
      match receive_fill e log_type prev_lsn prev_pid lsn buf buf_len h data_checksum id k r with
      | None => None
      | Some (rc, r) => Some (rc, no_truncate, r)
      end
    else
      let r := put id k r in
      if negb local_valid then Some (OB_SUCCESS, no_truncate, r)
      else if negb pid_match then
        let '(rc, t) := if Lsn.lsn_leb lsn (s_end s) then (OB_EAGAIN, mkTrunc TRUNCATE_LOG id lsn (task_pid k))
                        else (OB_ERR_UNEXPECTED, no_truncate) in
        Some (if leader_reconfirm e then OB_ERR_UNEXPECTED else rc, t, r)
      else if (need_send_ack : bool) then
        let '(rc, r) := submit_push_log_resp_ e (proposal_id e) log_end_lsn r in Some (rc, no_truncate, r)
      else Some (OB_SUCCESS, no_truncate, r).

Definition receive_log (e : Env) (src_valid : bool) (log_type : PushLogType) (prev_lsn : LSN) (prev_pid : Z) (lsn : LSN)
    (buf : buf_t) (buf_len : Z) (need_check_clean_log : bool) r : option (Z * TruncateLogInfo * Replica) :=
  if negb (sw_inited r) then Some (OB_NOT_INIT, no_truncate, r)
  else if negb src_valid || negb (Lsn.is_valid lsn) || bool_decide (buf = None) || (buf_len <=? 0) then Some (OB_INVALID_ARGUMENT, no_truncate, r)
  else if is_truncating_ r || is_rebuilding_ r then Some (OB_STATE_NOT_MATCH, no_truncate, r)
  else if negb (LogGroupBuffer.can_handle_new_log lsn buf_len (group_buffer_ r)) then Some (OB_EAGAIN, no_truncate, r)
  else
    match parse_group buf buf_len with
    | None => None
    | Some (rc, h, data_checksum) =>
        let id := LogGroupEntryHeader.log_id_ h in
        if ob_failed rc then Some (rc, no_truncate, r)
        else if negb (can_receive_larger_log_ id r) then Some (OB_EAGAIN, no_truncate, r)
        else if ob_failed (get_log_task id r) then Some (get_log_task id r, no_truncate, r)
        else
          match receive_task e log_type prev_lsn prev_pid lsn buf buf_len need_check_clean_log h data_checksum r with
          | None => None
          | Some (rc, t, r) =>
              if ob_failed rc then Some (rc, t, r)
              else
                match (if id =? s_id (last_submit r) + 1 then handle_next_submit_log_ e r else Some (false, r)) with
                | None => None
                | Some (updated, r) => Some (OB_SUCCESS, t, if (updated : bool) then handle_committed_log_ e r else r)
                end
          end
    end.

(** ** Cleaning and truncating *)

(** One log id of the loop of [clean_log_]: the last log found and the state. *)
Definition clean_one (last_submit_end : LSN) (last_submit_id id : Z) (st : option (Z * Scn.SCN * LSN) * Replica)
    : option (Z * Scn.SCN * LSN) * Replica :=
  let '(found, r) := st in
  let k := task_at id r in
  if negb (is_valid k) then (found, r)
  else
    let found := if Lsn.lsn_eqb (task_end k) last_submit_end then
                   match found with None => Some (id, i_max_scn_ (header_ k), task_end k) | Some f => Some f end
                 else found in
    (found, if negb (Lsn.OB_INVALID_LOG_ID =? last_submit_id) && (last_submit_id <? id) then put id (reset k) r else r).
Fixpoint clean_loop (n : nat) (id : Z) (last_submit_end : LSN) (last_submit_id : Z) (st : option (Z * Scn.SCN * LSN) * Replica)
    : Z * (option (Z * Scn.SCN * LSN) * Replica) :=
  match n with
  | O => (OB_SUCCESS, st)
  | S n =>
      let rc := get_log_task id (snd st) in
      if ob_failed rc then (rc, st)
      else clean_loop n (id + 1) last_submit_end last_submit_id (clean_one last_submit_end last_submit_id id st)
  end.
Definition clean_log_ r : Z * Replica :=
  let s := last_submit r in
  let d := last_slide r in
  let curr_end_lsn := default no_lsn (snd (LsnAllocator.get_curr_end_lsn (lsn_allocator_ r))) in
  let found := if Lsn.lsn_eqb (d_end d) (s_end s) then Some (d_id d, d_scn d, d_end d) else None in
  let '(rc, (found, r)) := clean_loop (Z.to_nat (get_max_log_id r + 1 - start_id r)) (start_id r) (s_end s) (s_id s) (found, r) in
  if ob_failed rc then (rc, r)
  else match found with
       | Some (id, scn, end_lsn) =>
           if (Lsn.OB_INVALID_LOG_ID =? id) || negb (Scn.is_valid scn) || negb (Lsn.is_valid end_lsn) then (OB_ERR_UNEXPECTED, r)
           else if Lsn.lsn_leb end_lsn curr_end_lsn then truncate_lsn_allocator_ end_lsn id scn r else (OB_SUCCESS, r)
       | None => (OB_ERR_UNEXPECTED, r)
       end.
Definition clean_cached_log (begin_log_id : Z) (lsn prev_lsn : LSN) (prev_log_pid : Z) r : Z * Replica :=
  if negb (sw_inited r) then (OB_NOT_INIT, r)
  else if Lsn.OB_INVALID_LOG_ID =? begin_log_id then (OB_INVALID_ARGUMENT, r)
  else if negb (begin_log_id =? s_id (last_submit r) + 1) then (OB_STATE_NOT_MATCH, r)
  else if negb (fst (is_prev_log_pid_match begin_log_id lsn prev_lsn prev_log_pid r)) then (OB_STATE_NOT_MATCH, r)
  else clean_log_ r.

(** The log before the truncated one, and its id. *)
Definition truncate_prev (id : Z) r : Z * option (Z * PrevLog) :=
  if FIRST_VALID_LOG_ID =? id then
    (OB_SUCCESS, Some (0, mkPrev (Lsn.mkLSN LogCommit.PALF_INITIAL_LSN_VAL) no_lsn Scn.min_scn Lsn.INVALID_PROPOSAL_ID (-1)))
  else match get_prev_log_info_ id r with
       | (rc, Some p) => if ob_failed rc then (rc, None) else (OB_SUCCESS, Some (id - 1, p))
       | (rc, None) => (rc, None)
       end.
(** The task is reset before the previous log is looked up and the committed end is checked. *)
Definition truncate (e : Env) (t : TruncateLogInfo) (expected_prev_lsn : LSN) (expected_prev_log_pid : Z) r : Z * Replica :=
  let id := t_log_id t in
  let b := t_begin_lsn t in
  if negb (sw_inited r) then (OB_NOT_INIT, r)
  else if (Lsn.OB_INVALID_LOG_ID =? id) || (Lsn.INVALID_PROPOSAL_ID =? t_pid t) || negb (Lsn.is_valid b) then (OB_INVALID_ARGUMENT, r)
  else if ob_failed (get_log_task id r) then (get_log_task id r, r)
  else
    let k := task_at id r in
    if negb (fst (is_prev_log_pid_match id b expected_prev_lsn expected_prev_log_pid r)) || negb (is_valid k)
       || negb (i_log_id_ (header_ k) =? id) || negb (task_pid k =? t_pid t)
    then (OB_STATE_NOT_MATCH, r)
    else
      let r := put id (reset k) r in
      match truncate_prev id r with
      | (rc, None) => (rc, r)
      | (_, Some (prev_id, p)) =>
          if Lsn.lsn_ltb b (committed_end r) then (OB_ERR_UNEXPECTED, r)
          else if ob_failed (truncate_rc e) then (truncate_rc e, r)
          else
            let r := send (TruncateLog b) r in
            let '(rc, r) := truncate_window id r in
            if ob_failed rc then (rc, r)
            else
              let r := set_truncating true b r in
              let r := snd (truncate_lsn_allocator_ b prev_id (p_scn p) r) in
              let r := if id <=? s_id (last_submit r)
                       then set_cs (LogChecksum.set_accum_checksum (p_accum p) (checksum_ r))
                              (set_last_submit_log_info_ (p_lsn p) b prev_id (p_pid p) r)
                       else r in
              let r := if Lsn.lsn_gtb (f_end (max_flushed r)) b
                       then let r := truncate_max_flushed_log_info_ (p_lsn p) b (p_pid p) r in
                            set_buf (snd (LogGroupBuffer.truncate b (group_buffer_ r))) r
                       else r in
              (OB_SUCCESS, r)
      end.
Definition after_truncate (lsn : LSN) r : Z * Replica :=
  if negb (sw_inited r) then (OB_NOT_INIT, r)
  else if negb (Lsn.is_valid lsn) then (OB_INVALID_ARGUMENT, r)
  else if negb (is_truncating_ r) || negb (Lsn.lsn_eqb (last_truncate_lsn_ r) lsn) then (OB_STATE_NOT_MATCH, r)
  else
    let r := set_buf (snd (LogGroupBuffer.truncate (last_truncate_lsn_ r) (group_buffer_ r))) r in
    (OB_SUCCESS, set_truncating false no_lsn r).
Definition after_rebuild (lsn : LSN) r : Z * Replica :=
  if negb (sw_inited r) then (OB_NOT_INIT, r)
  else if negb (Lsn.is_valid lsn) then (OB_INVALID_ARGUMENT, r)
  else
    let r := set_rebuilding false no_lsn r in
    (OB_SUCCESS, if Lsn.lsn_geb lsn (committed_end r) then advance_committed lsn r else r).

(** ** A flush has ended *)

(** [try_freeze_last_log_task_]: the code, [is_need_handle] and the state. *)
Definition try_freeze_last_log_task_ (e : Env) (expected_log_id : Z) (expected_end_lsn : LSN) r : Z * bool * Replica :=
  if (Lsn.OB_INVALID_LOG_ID =? expected_log_id) || negb (Lsn.is_valid expected_end_lsn) then (OB_INVALID_ARGUMENT, false, r)
  else
    let rc := get_log_task expected_log_id r in
    if ob_failed rc then (if OB_ERR_OUT_OF_LOWER_BOUND =? rc then (OB_SUCCESS, false, r) else (rc, false, r))
    else
      let k := task_at expected_log_id r in
      let '(rc, k) :=
        if negb (is_valid k) then (OB_SUCCESS, k)
        else if Lsn.lsn_gtb (task_end k) expected_end_lsn then (OB_ERR_UNEXPECTED, k)
        else (OB_SUCCESS, snd (try_freeze expected_end_lsn k)) in
      if is_freezed k
      then (rc, ref_cnt_ k =? 0, put expected_log_id (set_freeze_ts (now e) k) r)
      else (rc, false, put expected_log_id k r).
Definition feedback_freeze_last_log_ (e : Env) r : option Replica :=
  if negb (feedback_freeze_mode r) then Some r
  else
    match LsnAllocator.try_freeze (lsn_allocator_ r) with
    | (rc, last, a) =>
        let r := set_alloc a r in
        if ob_failed rc then Some r
        else match last with
             | None => Some r
             | Some (last_log_end_lsn, last_log_id) =>
                 if last_log_id <=? 0 then Some r
                 else
                   let '(rc, _, r) := try_freeze_last_log_task_ e last_log_id last_log_end_lsn r in
                   if ob_failed rc then Some r
                   else match handle_next_submit_log_ e r with
                        | None => None
                        | Some (_, r) => Some (handle_committed_log_ e r)
                        end
             end
    end.
Definition try_feedback_freeze_log_task_ (e : Env) (expected_log_id : Z) r : option Replica :=
  if ob_failed (get_log_task expected_log_id r) then Some r
  else
    let k := task_at expected_log_id r in
    if is_freezed k then Some r
    else if Lsn.is_valid (begin_lsn_ (header_ k)) && Lsn.lsn_geb (f_end (max_flushed r)) (begin_lsn_ (header_ k))
    then feedback_freeze_last_log_ e r else Some r.

(** The code, [can_exec_cb], [need_reply_ack] and the state. *)
Definition flush_check (e : Env) (ctx : FlushLogCbCtx) r : Z * bool * bool * Replica :=
  let id := c_log_id ctx in
  let log_end_lsn := Lsn.lsn_add (c_lsn ctx) (c_total_len ctx) in
  let noted := put id (set_flushed_ts (now e) (task_at id r)) r in
  let reply := match push_log_type_ (task_at id r) with PUSH_LOG_WO_ACK => false | _ => true end in
  if negb (sw_inited r) then (OB_NOT_INIT, false, true, r)
  else if negb (Lsn.is_valid (c_lsn ctx)) || negb (Scn.is_valid (c_scn ctx)) then (OB_INVALID_ARGUMENT, false, true, r)
  else if is_truncating_ r && Lsn.lsn_gtb log_end_lsn (last_truncate_lsn_ r) then (OB_SUCCESS, false, true, r)
  else if is_rebuilding_ r && Lsn.lsn_gtb log_end_lsn (last_rebuild_lsn_ r) then (OB_SUCCESS, false, true, r)
  else if negb (proposal_id e =? c_curr_proposal_id ctx) then
    if ob_failed (get_log_task id r) then (get_log_task id r, false, true, r)
    else if negb (is_valid (task_at id r)) then (OB_SUCCESS, false, true, r)
    else if negb (task_pid (task_at id r) =? c_log_proposal_id ctx) then (OB_STATE_NOT_MATCH, false, true, r)
    else (OB_SUCCESS, true, reply, noted)
  else if ob_failed (get_log_task id r) then (get_log_task id r, true, true, r)
  else (OB_SUCCESS, true, reply, noted).
(** What follows the acknowledgement. *)
Definition flush_next (e : Env) (id : Z) r : option Replica :=
  let last_submit_log_id := s_id (last_submit r) in
  match try_feedback_freeze_log_task_ e (id + 1) r with
  | None => None
  | Some r =>
      match (if id =? last_submit_log_id then handle_next_submit_log_ e r else Some (false, r)) with
      | None => None
      | Some (_, r) => Some (handle_committed_log_ e r)
      end
  end.
Definition after_flush_log (e : Env) (ctx : FlushLogCbCtx) r : option (Z * Replica) :=
  let log_end_lsn := Lsn.lsn_add (c_lsn ctx) (c_total_len ctx) in
  let '(rc, can_exec_cb, need_reply_ack, r) := flush_check e ctx r in
  if ob_failed rc || negb can_exec_cb then Some (rc, r)
  else
    let r := inc_update_max_flushed_log_info_ (c_lsn ctx) log_end_lsn (c_log_proposal_id ctx) r in
    let r := with_acks (LogCommit.leader_flushed (role_leader e) (leader_active e) (changing_config_with_arb e) (now e) (config e) log_end_lsn (acks_of r)) r in
    let '(rc, r) :=
      if leader_active e then (OB_SUCCESS, r)
      else if role_follower e && need_reply_ack && leader_known e && negb (initial_config e)
      then submit_push_log_resp_ e (c_curr_proposal_id ctx) log_end_lsn r
      else (OB_SUCCESS, r) in
    if ob_failed rc then Some (rc, r)
    else match flush_next e (c_log_id ctx) r with None => None | Some r => Some (OB_SUCCESS, r) end.

(** ** A leader says what is committed *)

(** A log that ends elsewhere than where the leader says is a failed assertion. *)
Definition handle_committed_info (e : Env) (server_valid : bool) (prev_log_id prev_log_proposal_id : Z) (l : LSN) r : option (Z * Replica) :=
  if negb (sw_inited r) then Some (OB_NOT_INIT, r)
  else if negb server_valid || negb (Lsn.is_valid l) || (Lsn.OB_INVALID_LOG_ID =? prev_log_id) || (Lsn.INVALID_PROPOSAL_ID =? prev_log_proposal_id)
  then Some (OB_INVALID_ARGUMENT, r)
  else if s_id (last_submit r) <? prev_log_id then Some (OB_SUCCESS, r)
  else if Lsn.lsn_ltb (f_end (max_flushed r)) l then Some (OB_SUCCESS, r)
  else if Lsn.lsn_geb (committed_end r) l then Some (OB_SUCCESS, r)
  else if ob_failed (get_log_task prev_log_id r) then Some (get_log_task prev_log_id r, r)
  else
    let k := task_at prev_log_id r in
    if negb (is_valid k) then Some (OB_ERR_UNEXPECTED, r)
    else if task_pid k =? prev_log_proposal_id then
      if Lsn.lsn_eqb (task_end k) l then Some (OB_SUCCESS, handle_committed_log_ e (advance_committed l r)) else None
    else Some (OB_SUCCESS, r).

(** ** A log found on the disk at restart *)

(** A task that is already valid is reported, but the code stays [OB_SUCCESS]. *)
Definition append_disk_log_to_sw_ (e : Env) (lsn : LSN) (h : LogGroupEntryHeader.LogGroupEntryHeader) (buf : buf_t) (buf_len : Z) r : option (Z * Replica) :=
  let id := LogGroupEntryHeader.log_id_ h in
  match LogGroupEntryHeader.check_integrity XXH64 ob_crc64 buf buf_len 0 h with
  | None => None
  | Some (false, _) => Some (OB_INVALID_DATA, r)
  | Some (true, data_checksum) =>
      if ob_failed (get_log_task id r) then Some (OB_ERR_UNEXPECTED, r)
      else
        let k := task_at id r in
        if is_valid k then Some (OB_SUCCESS, r)
        else
          match get_min_scn_from_buf_ h buf buf_len with
          | None => None
          | Some (rc, min_scn) =>
              if ob_failed rc then Some (rc, r)
              else
                let f := max_flushed r in
                let '(rc, k) := set_group_header (now e) lsn min_scn h k in
                if ob_failed rc then Some (rc, put id k r)
                else
                  let k := set_prev_log_proposal_id (f_pid f) (set_prev_lsn (f_lsn f) (set_group_log_checksum data_checksum k)) in
                  Some (OB_SUCCESS, put id (snd (try_pre_submit (set_freeze_ts (now e) (set_freezed k)))) r)
          end
  end.
Definition append_disk_log (e : Env) (lsn : LSN) (entry_valid : bool) (h : LogGroupEntryHeader.LogGroupEntryHeader) (buf : buf_t) (buf_len : Z) r
    : option (Z * Replica) :=
  let log_end_lsn := Lsn.lsn_add lsn (LogGroupEntryHeader.get_serialize_size h + LogGroupEntryHeader.group_size_ h) in
  let pid := LogGroupEntryHeader.proposal_id_ h in
  if negb (sw_inited r) then Some (OB_NOT_INIT, r)
  else if negb (Lsn.is_valid lsn) || negb entry_valid then Some (OB_INVALID_ARGUMENT, r)
  else
    match append_disk_log_to_sw_ e lsn h buf buf_len r with
    | None => None
    | Some (rc, r) =>
        if ob_failed rc then Some (rc, r)
        else
          let '(rc, r) := try_update_max_lsn_ lsn h r in
          if ob_failed rc then Some (rc, r)
          else
            let '(rc, gb) := LogGroupBuffer.inc_update_readable_begin_lsn log_end_lsn (group_buffer_ r) in
            let r := set_buf gb r in
            if ob_failed rc then Some (rc, r)
            else
              let '(rc, gb) := LogGroupBuffer.inc_update_reuse_lsn log_end_lsn (group_buffer_ r) in
              let r := set_buf gb r in
              if ob_failed rc then Some (rc, r)
              else
                let r := inc_update_max_flushed_log_info_ lsn log_end_lsn pid r in
                let r := set_last_submit_log_info_ lsn log_end_lsn (LogGroupEntryHeader.log_id_ h) pid r in
                let r := set_cs (LogChecksum.set_accum_checksum (LogGroupEntryHeader.accumulated_checksum_ h) (checksum_ r)) r in
                Some (OB_SUCCESS, handle_committed_log_ e (advance_committed (LogGroupEntryHeader.committed_end_lsn_ h) r))
    end.

(** ** The handle above it: [PalfHandleImpl::receive_log_] after the proposal id check *)
Definition palf_receive_log (e : Env) (disk_enough can_receive_log can_receive_again can_truncate_log src_valid : bool)
    (log_type : PushLogType) (prev_lsn : LSN) (prev_pid : Z) (lsn : LSN) (buf : buf_t) (buf_len : Z) r : option (Z * Replica) :=
  if negb disk_enough then Some (OB_LOG_OUTOF_DISK_SPACE, r)
  else if negb can_receive_log then Some (OB_STATE_NOT_MATCH, r)
  else
    match receive_log e src_valid log_type prev_lsn prev_pid lsn buf buf_len true r with
    | None => None
    | Some (rc, t, r) =>
        let rc := if OB_EAGAIN =? rc then OB_SUCCESS else rc in
        if ob_failed rc then Some (rc, r)
        else
          let again r :=
            match receive_log e src_valid log_type prev_lsn prev_pid lsn buf buf_len false r with
            | None => None
            | Some (rc, _, r) => Some (rc, r)
            end in
          match t_type t with
          | INVALID_TRUNCATE_TYPE => Some (OB_SUCCESS, r)
          | TRUNCATE_CACHED_LOG_TASK =>
              if negb can_receive_again then Some (OB_STATE_NOT_MATCH, r)
              else let '(rc, r) := clean_cached_log (t_log_id t) lsn prev_lsn prev_pid r in
                   if ob_failed rc then Some (rc, r) else again r
          | TRUNCATE_LOG =>
              if negb can_receive_again then Some (OB_STATE_NOT_MATCH, r)
              else if negb can_truncate_log then Some (OB_STATE_NOT_MATCH, r)
              else let '(rc, r) := truncate e t prev_lsn prev_pid r in
                   if ob_failed rc then Some (rc, r) else again r
          end
    end.
End replica.
End LogReplica.
