(* ===== verification/ReplicaView.v ===== *)
(** What matters of the log of a replica ([LogReplica]): the window, the positions up to
    which logs are submitted, flushed, committed and slid out, and the log on the disk
    as the log engine makes it from the tasks it is given.  The handlers change this
    view in a few ways only, the steps [vstep]; the invariant of the view is kept by
    each of them. *)
From S2P Require Import Prelude Scn Lsn LogGroupEntryHeader LogSubmit LogTask LogCommit LogReplica.
Import LogSubmit LogTask LogReplica.

Module ReplicaView.
Abbreviation val := Lsn.val_.

Lemma filter_keep {A} (Q : A → Prop) `{∀ x, Decision (Q x)} (l : list A) : (∀ x, x ∈ l → Q x) → filter Q l = l.
Proof. induction l as [|x l IH]; intros Hl; [done|]. rewrite filter_cons, decide_True by set_solver. f_equal. apply IH. set_solver. Qed.
Lemma filter_drop {A} (Q : A → Prop) `{∀ x, Decision (Q x)} (l : list A) : (∀ x, x ∈ l → ¬ Q x) → filter Q l = [].
Proof. induction l as [|x l IH]; intros Hl; [done|]. rewrite filter_cons, decide_False by set_solver. apply IH. set_solver. Qed.

(** ** The log on the disk *)
Record Ent : Set := mkEnt { e_id : Z; e_lsn : LSN; e_end : LSN; e_pid : Z }.
Definition entry_of (c : FlushLogCbCtx) : Ent :=
  mkEnt (c_log_id c) (c_lsn c) (Lsn.lsn_add (c_lsn c) (c_total_len c)) (c_log_proposal_id c).
(** The engine writes groups and cuts the log off, in the order of the tasks. *)
Definition on_disk (l : list Ent) (o : Out) : list Ent :=
  match o with
  | FlushLog c => l ++ [entry_of c]
  | TruncateLog b => filter (λ e, val (e_lsn e) < val b) l
  | _ => l
  end.
Definition disk (os : list Out) : list Ent := foldl on_disk [] os.
(** What the file system was told: ends and proposal ids, in order. *)
Definition told_end (o : Out) : option (LSN * Z) := match o with UpdateEndLsn l _ pid => Some (l, pid) | _ => None end.
Definition applied (os : list Out) : list (LSN * Z) := omap told_end os.

(** ** The view *)
Record View : Type := mkView {
  v_start : Z; v_tasks : gmap Z LogTask; v_sub : Submitted; v_flushed : LSN; v_slid : LSN * LSN * Z;
  v_committed : LSN; v_disk : list Ent; v_applied : list (LSN * Z)
}.
Definition view (r : Replica) : View :=
  mkView (start_id r) (tasks r) (last_submit r) (f_end (max_flushed r)) (d_lsn (last_slide r), d_end (last_slide r), d_pid (last_slide r))
    (committed_end r) (disk (outbox r)) (applied (outbox r)).
Implicit Types v : View.
Definition v_task (id : Z) v : LogTask := default new_task (v_tasks v !! id).
Definition v_put (id : Z) (k : LogTask) v : View :=
  mkView (v_start v) (<[id := k]> (v_tasks v)) (v_sub v) (v_flushed v) (v_slid v) (v_committed v) (v_disk v) (v_applied v).

(** ** Chains *)
Definition sub_of (e : Ent) : Submitted := mkSub (e_lsn e) (e_end e) (e_id e) (e_pid e).
Fixpoint chain (p : Submitted) (l : list Ent) : Prop :=
  match l with
  | [] => True
  | e :: l => e_id e = s_id p + 1 ∧ e_lsn e = s_end p ∧ val (e_lsn e) < val (e_end e) ∧ chain (sub_of e) l
  end.
Fixpoint last_of (p : Submitted) (l : list Ent) : Submitted :=
  match l with [] => p | e :: l => last_of (sub_of e) l end.

Lemma last_app p l e : last_of p (l ++ [e]) = sub_of e.
Proof. revert p. induction l as [|x l IH]; intros p; [done|]. apply IH. Qed.

Lemma last_of_app p l1 l2 : last_of p (l1 ++ l2) = last_of (last_of p l1) l2.
Proof. revert p. induction l1 as [|x l1 IH]; intros p; [done|]. apply IH. Qed.

Lemma chain_app p l1 l2 : chain p (l1 ++ l2) ↔ chain p l1 ∧ chain (last_of p l1) l2.
Proof. revert p. induction l1 as [|e l1 IH]; intros p; simpl; [tauto|]. rewrite IH. tauto. Qed.

Lemma chain_bounds p l e :
  chain p l → e ∈ l →
  s_id p < e_id e ≤ s_id (last_of p l) ∧ val (s_end p) ≤ val (e_lsn e) ∧ val (e_lsn e) < val (e_end e) ≤ val (s_end (last_of p l)).
Proof.
  revert p. induction l as [|x l IH]; intros p Hc; [set_solver|]. destruct Hc as (Hi & Hl & Hx & Hc). simpl.
  assert (s_id (sub_of x) ≤ s_id (last_of (sub_of x) l) ∧ val (s_end (sub_of x)) ≤ val (s_end (last_of (sub_of x) l))) as Hmono.
  { clear -Hc. revert Hc. generalize (sub_of x). induction l as [|y l IH]; intros q Hc; simpl; [lia|].
    destruct Hc as (? & ? & ? & Hc). specialize (IH _ Hc). simpl in *. rewrite H0 in *. lia. }
  rewrite elem_of_cons. intros [->|He]; [simpl in *; rewrite Hl in *; lia|].
  specialize (IH _ Hc He). simpl in *. rewrite Hl in *. lia.
Qed.

Lemma chain_mono p l : chain p l → s_id p ≤ s_id (last_of p l) ∧ val (s_end p) ≤ val (s_end (last_of p l)).
Proof.
  destruct l as [|e l] using rev_ind; [simpl; lia|]. intros Hc.
  destruct (chain_bounds p (l ++ [e]) e Hc) as (? & ? & ?); [set_solver|]. lia.
Qed.

(** Ids determine entries, and entries are in order of their ids. *)
Lemma chain_split p l i :
  chain p l → s_id p < i ≤ s_id (last_of p l) + 1 →
  ∃ l1 l2, l = l1 ++ l2 ∧ s_id (last_of p l1) = i - 1 ∧ (∀ e, e ∈ l1 → e_id e < i) ∧ (∀ e, e ∈ l2 → i ≤ e_id e).
Proof.
  revert p. induction l as [|x l IH]; intros p Hc Hi; simpl in *.
  - exists [], []. split_and!; [done|simpl; lia|set_solver|set_solver].
  - destruct Hc as (Hx & _ & _ & Hc). destruct (decide (e_id x = i)) as [E|E].
    + exists [], (x :: l). split_and!; [done|simpl; lia|set_solver|]. intros e. rewrite elem_of_cons.
      intros [->|He]; [lia|]. pose proof (chain_bounds _ _ _ Hc He). simpl in *. lia.
    + destruct (IH _ Hc) as (l1 & l2 & -> & Hl & H1 & H2); [simpl; lia|]. exists (x :: l1), l2. split_and!; [done|done| |done].
      intros e. rewrite elem_of_cons. intros [->|He]; [lia|by apply H1].
Qed.

Lemma chain_id p l e e' : chain p l → e ∈ l → e' ∈ l → e_id e = e_id e' → e = e'.
Proof.
  revert p. induction l as [|x l IH]; intros p Hc; [set_solver|]. destruct Hc as (_ & _ & _ & Hc). rewrite !elem_of_cons.
  intros [->|He] [->|He'] E; [done| | |by eapply IH].
  - pose proof (chain_bounds _ _ _ Hc He'). simpl in *. lia.
  - pose proof (chain_bounds _ _ _ Hc He). simpl in *. lia.
Qed.

(** ** Messages *)

(** A group of logs as a leader sends it: where it is, and the log before it. *)
Record Msg : Set := mkMsg { m_prev_lsn : LSN; m_prev_pid : Z; m_lsn : LSN; m_id : Z; m_pid : Z; m_len : Z; m_scn : Scn.SCN }.
Definition msg_end (m : Msg) : LSN := end_of (m_lsn m) (m_len m).
Definition msg_ok (m : Msg) : Prop := 0 ≤ val (m_lsn m) ∧ 0 ≤ m_len m < 2 ^ 31 ∧ val (m_lsn m) + 56 + m_len m < 2 ^ 63.
Definition place (k : LogTask) : LSN * Z * Z * LSN * Z * Scn.SCN :=
  (begin_lsn_ (header_ k), data_len_ (header_ k), task_pid k, prev_lsn_ (header_ k), prev_proposal_id_ (header_ k), i_max_scn_ (header_ k)).
Definition msg_place (m : Msg) : LSN * Z * Z * LSN * Z * Scn.SCN := (m_lsn m, m_len m, m_pid m, m_prev_lsn m, m_prev_pid m, m_scn m).
(** What the header of a submitted group has been checked for. *)
Definition good (k : LogTask) : Prop := Scn.is_valid (i_max_scn_ (header_ k)) = true ∧ task_pid k ≠ Lsn.INVALID_PROPOSAL_ID.

Lemma msg_end_val m : msg_ok m → val (msg_end m) = val (m_lsn m) + 56 + m_len m.
Proof.
  intros (H0 & H1 & H2). unfold msg_end, end_of, Lsn.lsn_add. cbn [Lsn.val_]. change HEADER with 56.
  rewrite (wrapu_small 64 (val (m_lsn m) + 56)) by (unfold in_u; lia). apply wrapu_small. unfold in_u. lia.
Qed.

Lemma place_end k k' :
  place k = place k' →
  task_end k = task_end k' ∧ begin_lsn_ (header_ k) = begin_lsn_ (header_ k') ∧ task_pid k = task_pid k' ∧ (good k ↔ good k').
Proof. unfold place, task_end, good. intros [= -> -> -> _ _ ->]. done. Qed.

Lemma place_msg_end k m : place k = msg_place m → task_end k = msg_end m ∧ begin_lsn_ (header_ k) = m_lsn m ∧ task_pid k = m_pid m.
Proof. unfold place, msg_place, task_end, msg_end. intros [= -> -> -> _ _ _]. done. Qed.

Section view_inv.
Context (Msgs : Msg → Prop) (B : Submitted).

(** A valid task beyond the submitted ones, received as [m], is compared with the others. *)
Definition fits v (m : Msg) : Prop :=
  ∀ id, s_id (v_sub v) < id → is_valid (v_task id v) = true →
    (id < m_id m → val (task_end (v_task id v)) ≤ val (m_lsn m)) ∧
    (m_id m < id → val (msg_end m) ≤ val (begin_lsn_ (header_ (v_task id v)))).
(** A message that put the entry [e] after [p]. *)
Definition brought (p : Submitted) (e : Ent) (m : Msg) : Prop :=
  Msgs m ∧ m_id m = e_id e ∧ m_lsn m = e_lsn e ∧ msg_end m = e_end e ∧ m_pid m = e_pid e ∧ e_pid e ≠ Lsn.INVALID_PROPOSAL_ID ∧
  (1 < e_id e → m_prev_lsn m = s_lsn p ∧ m_prev_pid m = s_pid p).
Fixpoint linked (p : Submitted) (l : list Ent) : Prop :=
  match l with [] => True | e :: l => (∃ m, brought p e m) ∧ linked (sub_of e) l end.

Lemma linked_app p l1 l2 : linked p (l1 ++ l2) ↔ linked p l1 ∧ linked (last_of p l1) l2.
Proof. revert p. induction l1 as [|e l1 IH]; intros p; simpl; [tauto|]. rewrite IH. tauto. Qed.

(** ** The steps *)
Inductive vstep : View → View → Prop :=
| vs_put id k v :
    is_valid k = is_valid (v_task id v) → place k = place (v_task id v) →
    (is_pre_submit (v_task id v) = true → id ≤ s_id (v_sub v) → is_pre_submit k = true) → vstep v (v_put id k v)
| vs_clean id k v : s_id (v_sub v) < id → is_valid k = false → vstep v (v_put id k v)
| vs_fill m k v :
    Msgs m → v_start v ≤ m_id m → is_valid (v_task (m_id m) v) = false → is_valid k = true → place k = msg_place m →
    fits v m → val (s_end (v_sub v)) ≤ val (m_lsn m) → vstep v (v_put (m_id m) k v)
| vs_submit e v :
    let k := v_task (e_id e) v in
    e_id e = s_id (v_sub v) + 1 → is_valid k = true → is_pre_submit k = true → good k → e_lsn e = begin_lsn_ (header_ k) →
    e_end e = task_end k → e_pid e = task_pid k → e_lsn e = s_end (v_sub v) →
    (1 < e_id e → prev_lsn_ (header_ k) = s_lsn (v_sub v) ∧ prev_proposal_id_ (header_ k) = s_pid (v_sub v)) →
    vstep v (mkView (v_start v) (v_tasks v) (sub_of e) (v_flushed v) (v_slid v) (v_committed v) (v_disk v ++ [e]) (v_applied v))
| vs_commit l v :
    val (v_committed v) ≤ val l ≤ val (s_end (v_sub v)) →
    vstep v (mkView (v_start v) (v_tasks v) (v_sub v) (v_flushed v) (v_slid v) l (v_disk v) (v_applied v))
| vs_flush l v :
    val (v_flushed v) ≤ val l ≤ val (s_end (v_sub v)) →
    vstep v (mkView (v_start v) (v_tasks v) (v_sub v) l (v_slid v) (v_committed v) (v_disk v) (v_applied v))
| vs_slide v :
    let k := v_task (v_start v) v in
    is_valid k = true → val (task_end k) ≤ val (v_flushed v) → val (task_end k) ≤ val (v_committed v) →
    vstep v (mkView (v_start v + 1) (delete (v_start v) (v_tasks v)) (v_sub v) (v_flushed v)
               (begin_lsn_ (header_ k), task_end k, task_pid k) (v_committed v) (v_disk v) (v_applied v ++ [(task_end k, task_pid k)]))
| vs_truncate id l1 l2 v :
    v_start v ≤ id → v_disk v = l1 ++ l2 → s_id (last_of B l1) = id - 1 → val (v_committed v) ≤ val (s_end (last_of B l1)) →
    vstep v (mkView (v_start v) (filter (λ e, fst e < id) (v_tasks v)) (last_of B l1)
               (if val (s_end (last_of B l1)) <? val (v_flushed v) then s_end (last_of B l1) else v_flushed v)
               (v_slid v) (v_committed v) (filter (λ e, val (e_lsn e) < val (s_end (last_of B l1))) (v_disk v)) (v_applied v)).

(** ** The invariant *)
Definition stored (k : LogTask) (e : Ent) : Prop :=
  is_valid k = true ∧ is_pre_submit k = true ∧ begin_lsn_ (header_ k) = e_lsn e ∧ task_end k = e_end e ∧ task_pid k = e_pid e ∧ good k.
Definition told (e : Ent) : LSN * Z := (e_end e, e_pid e).
Record Inv v : Prop := {
  iv_chain : chain B (v_disk v);
  iv_linked : linked B (v_disk v);
  iv_last : v_sub v = last_of B (v_disk v);
  iv_tasks e : e ∈ v_disk v → v_start v ≤ e_id e → stored (v_task (e_id e) v) e;
  iv_cached id : s_id (v_sub v) < id → is_valid (v_task id v) = true →
    ∃ m, Msgs m ∧ m_id m = id ∧ place (v_task id v) = msg_place m ∧ val (s_end (v_sub v)) ≤ val (m_lsn m);
  iv_order id id' : s_id (v_sub v) < id < id' → is_valid (v_task id v) = true → is_valid (v_task id' v) = true →
    val (task_end (v_task id v)) ≤ val (begin_lsn_ (header_ (v_task id' v)));
  iv_slid : ∃ l1 l2, v_disk v = l1 ++ l2 ∧ s_id (last_of B l1) = v_start v - 1 ∧
    v_slid v = (s_lsn (last_of B l1), s_end (last_of B l1), s_pid (last_of B l1)) ∧ v_applied v = told <$> l1 ∧
    val (s_end (last_of B l1)) ≤ val (v_committed v) ∧ val (s_end (last_of B l1)) ≤ val (v_flushed v);
  iv_committed : val (v_committed v) ≤ val (s_end (v_sub v));
  iv_flushed : val (v_flushed v) ≤ val (s_end (v_sub v))
}.
Hypothesis msgs_ok : ∀ m, Msgs m → msg_ok m.

Lemma v_task_put id k v id' : v_task id' (v_put id k v) = if decide (id = id') then k else v_task id' v.
Proof. unfold v_task, v_put. cbn [v_tasks]. case_decide; [subst; by rewrite lookup_insert_eq|by rewrite lookup_insert_ne]. Qed.

Lemma start_le v : Inv v → v_start v ≤ s_id (v_sub v) + 1.
Proof.
  intros I. destruct (iv_slid _ I) as (l1 & l2 & E & Hs & _). rewrite (iv_last _ I), E.
  pose proof (iv_chain _ I) as Hc. rewrite E in Hc. apply chain_app in Hc as [_ Hc]. apply chain_mono in Hc.
  rewrite last_of_app. lia.
Qed.

(** An entry on the disk with the id of a cached task does not exist. *)
Lemma disk_id v e : Inv v → e ∈ v_disk v → s_id B < e_id e ≤ s_id (v_sub v).
Proof. intros I He. rewrite (iv_last _ I). by apply chain_bounds; [apply I|]. Qed.

Lemma inv_put id k v :
  is_valid k = is_valid (v_task id v) → place k = place (v_task id v) →
  (is_pre_submit (v_task id v) = true → id ≤ s_id (v_sub v) → is_pre_submit k = true) → Inv v → Inv (v_put id k v).
Proof.
  intros Hv Hp Hs I. destruct (place_end _ _ Hp) as (He & Hb & Hpid & Hg). pose proof (disk_id v) as Hid.
  split; try apply I.
  - intros e Hin Hst. rewrite v_task_put. case_decide as E; [|by apply I]. destruct (iv_tasks _ I e Hin Hst) as (H1 & H2 & H3 & H4 & H5 & H6).
    rewrite <- E in *. unfold stored. rewrite Hv, He, Hb, Hpid, Hg. split_and!; try done. apply Hs; [done|]. specialize (Hid e I Hin). lia.
  - intros id' Hlt. cbn [v_sub v_put] in *. rewrite v_task_put. case_decide as E; [|by apply I]. subst id'. rewrite Hv, Hp. by apply I.
  - intros id1 id2 Hlt. cbn [v_sub v_put] in *. rewrite !v_task_put.
    repeat case_decide; subst; rewrite ?Hv, ?He, ?Hb; [lia|by apply I..].
Qed.

Lemma inv_clean id k v : s_id (v_sub v) < id → is_valid k = false → Inv v → Inv (v_put id k v).
Proof.
  intros Hlt Hv I. split; try apply I.
  - intros e Hin Hst. rewrite v_task_put. case_decide as E; [|by apply I]. pose proof (disk_id v e I Hin). lia.
  - intros id' Hl. cbn [v_sub v_put] in *. rewrite v_task_put. case_decide as E; [congruence|by apply I].
  - intros id1 id2 Hl. cbn [v_sub v_put] in *. rewrite !v_task_put. repeat case_decide; try congruence. by apply I.
Qed.

Lemma inv_fill m k v :
  Msgs m → v_start v ≤ m_id m → is_valid (v_task (m_id m) v) = false → is_valid k = true → place k = msg_place m →
  fits v m → val (s_end (v_sub v)) ≤ val (m_lsn m) → Inv v → Inv (v_put (m_id m) k v).
Proof.
  intros Hm Hst Hn Hv Hp Hf Hl I. destruct (place_msg_end _ _ Hp) as (He & Hb & _). split; try apply I.
  - intros e Hin Hs. rewrite v_task_put. case_decide as E; [|by apply I]. destruct (iv_tasks _ I e Hin Hs) as (H1 & _). rewrite <- E in H1. congruence.
  - intros id' Hl'. cbn [v_sub v_put] in *. rewrite v_task_put. case_decide as E; [|by apply I]. intros _. subst id'. by exists m.
  - intros id1 id2 Hl'. cbn [v_sub v_put] in *. rewrite !v_task_put. repeat case_decide; subst; rewrite ?He, ?Hb; [lia| | |by apply I].
    + intros _ H2. apply (Hf id2); [lia|done|lia].
    + intros H1 _. apply (Hf id1); [lia|done|lia].
Qed.

Lemma inv_submit e v :
  let k := v_task (e_id e) v in
  e_id e = s_id (v_sub v) + 1 → is_valid k = true → is_pre_submit k = true → good k → e_lsn e = begin_lsn_ (header_ k) →
  e_end e = task_end k → e_pid e = task_pid k → e_lsn e = s_end (v_sub v) →
  (1 < e_id e → prev_lsn_ (header_ k) = s_lsn (v_sub v) ∧ prev_proposal_id_ (header_ k) = s_pid (v_sub v)) → Inv v →
  Inv (mkView (v_start v) (v_tasks v) (sub_of e) (v_flushed v) (v_slid v) (v_committed v) (v_disk v ++ [e]) (v_applied v)).
Proof.
  intros k Hid Hv Hs Hg Hb He Hp Hc Hprev I. subst k. destruct (iv_cached _ I (e_id e)) as (m & Hm & Hmid & Hpl & Hml); [lia|done|].
  destruct (place_msg_end _ _ Hpl) as (Hme & Hmb & Hmp). pose proof (msg_end_val m (msgs_ok m Hm)) as Hval.
  assert (val (e_lsn e) < val (e_end e)) as Hlt.
  { rewrite Hb, Hmb, He, Hme, Hval. destruct (msgs_ok m Hm) as (? & ? & ?). lia. }
  pose proof (iv_last _ I) as Hlast. split; cbn [v_start v_tasks v_sub v_flushed v_slid v_committed v_disk v_applied].
  - apply chain_app. split; [apply I|]. rewrite <- Hlast. simpl. split_and!; [lia|done|done|done].
  - apply linked_app. split; [apply I|]. rewrite <- Hlast. simpl. split; [|done]. exists m. unfold brought.
    split_and!; [done|done|congruence|congruence|congruence|rewrite Hp; apply Hg|]. unfold place, msg_place in Hpl. injection Hpl as _ _ _ Hx Hy _. rewrite <- Hx, <- Hy. done.
  - by rewrite last_app.
  - intros x [Hx|Hx%list_elem_of_singleton]%elem_of_app Hst; [by apply I|subst x]. unfold stored, v_task in *. cbn [v_tasks] in *. by split_and!.
  - intros id Hl Hval'. unfold v_task in *. cbn [v_tasks] in *. cbn [s_id s_end sub_of] in *.
    destruct (iv_cached _ I id) as (m' & Hm' & Hid' & Hp' & _); [lia|done|]. exists m'. split_and!; [done..|].
    destruct (place_msg_end _ _ Hp') as (_ & Hb' & _). rewrite <- Hb', He. by apply (iv_order _ I (e_id e) id); [lia| |].
  - intros id id' Hl. unfold v_task in *. cbn [v_tasks s_id sub_of] in *. apply I. lia.
  - destruct (iv_slid _ I) as (l1 & l2 & E & H1 & H2 & H3 & H4). exists l1, (l2 ++ [e]). rewrite E, <- app_assoc. done.
  - pose proof (iv_committed _ I). cbn [s_end sub_of]. rewrite Hc in Hlt. lia.
  - pose proof (iv_flushed _ I). cbn [s_end sub_of]. rewrite Hc in Hlt. lia.
Qed.

(** The first task of the window can only slide if it was submitted. *)
Lemma slide_entry v :
  let k := v_task (v_start v) v in
  is_valid k = true → val (task_end k) ≤ val (v_flushed v) → Inv v →
  ∃ e l1 l2, v_disk v = l1 ++ e :: l2 ∧ e_id e = v_start v ∧ stored k e ∧ s_id (last_of B l1) = v_start v - 1 ∧ v_applied v = told <$> l1.
Proof.
  intros k Hv Hf I. destruct (iv_slid _ I) as (l1 & l2 & E & Hs & _ & Ha & _). pose proof (iv_chain _ I) as Hc. rewrite E in Hc.
  apply chain_app in Hc as [_ Hc]. destruct l2 as [|e l2].
  - assert (s_id (v_sub v) < v_start v) as Hlt by (rewrite (iv_last _ I), E, app_nil_r; lia).
    destruct (iv_cached _ I _ Hlt Hv) as (m & Hm & _ & Hp & Hl). destruct (place_msg_end _ _ Hp) as (He & _ & _).
    pose proof (msg_end_val m (msgs_ok m Hm)). destruct (msgs_ok m Hm) as (? & ? & ?). pose proof (iv_flushed _ I).
    subst k. rewrite He in Hf. lia.
  - simpl in Hc. assert (e_id e = v_start v) as Hid by lia. exists e, l1, l2. split_and!; [done|done| |done|done].
    unfold k. rewrite <- Hid. apply I; [|lia]. rewrite E. set_solver.
Qed.

Lemma inv_slide v :
  let k := v_task (v_start v) v in
  is_valid k = true → val (task_end k) ≤ val (v_flushed v) → val (task_end k) ≤ val (v_committed v) → Inv v →
  Inv (mkView (v_start v + 1) (delete (v_start v) (v_tasks v)) (v_sub v) (v_flushed v)
         (begin_lsn_ (header_ k), task_end k, task_pid k) (v_committed v) (v_disk v) (v_applied v ++ [(task_end k, task_pid k)])).
Proof.
  intros k Hv Hf Hc I. destruct (slide_entry v Hv Hf I) as (e & l1 & l2 & E & Hid & (_ & _ & Hb & He & Hp & _) & Hs & Ha).
  assert (∀ id, v_start v < id → default new_task (delete (v_start v) (v_tasks v) !! id) = v_task id v) as Ht.
  { intros id ?. unfold v_task. by rewrite lookup_delete_ne by lia. }
  assert (v_start v ≤ s_id (v_sub v)) as Hle by (pose proof (disk_id v e I); rewrite <- Hid; apply H; rewrite E; set_solver).
  split; try apply I; cbn [v_start v_tasks v_sub v_flushed v_slid v_committed v_disk v_applied].
  - intros x Hx Hst. unfold v_task at 1. cbn [v_tasks]. rewrite Ht by lia. apply I; [done|lia].
  - intros id Hl. unfold v_task at 1 2. cbn [v_tasks]. rewrite Ht by lia. by apply I.
  - intros id id' Hl. unfold v_task at 1 2 3 4. cbn [v_tasks]. rewrite !Ht by lia. by apply I.
  - exists (l1 ++ [e]), l2. rewrite last_app, <- app_assoc, fmap_app, Ha. cbn [s_id s_lsn s_end s_pid sub_of fmap list_fmap]. unfold told.
    subst k. rewrite <- Hb, <- He, <- Hp. split_and!; [done|lia|done|done|done|done].
Qed.

Lemma inv_truncate id l1 l2 v :
  v_start v ≤ id → v_disk v = l1 ++ l2 → s_id (last_of B l1) = id - 1 → val (v_committed v) ≤ val (s_end (last_of B l1)) → Inv v →
  filter (λ e, val (e_lsn e) < val (s_end (last_of B l1))) (v_disk v) = l1 ∧
  Inv (mkView (v_start v) (filter (λ e, fst e < id) (v_tasks v)) (last_of B l1)
         (if val (s_end (last_of B l1)) <? val (v_flushed v) then s_end (last_of B l1) else v_flushed v)
         (v_slid v) (v_committed v) (filter (λ e, val (e_lsn e) < val (s_end (last_of B l1))) (v_disk v)) (v_applied v)).
Proof.
  intros Hst E Hid Hcm I. pose proof (iv_chain _ I) as Hc. rewrite E in Hc. apply chain_app in Hc as [Hc1 Hc2].
  pose proof (iv_linked _ I) as Hl. rewrite E in Hl. apply linked_app in Hl as [Hl1 _].
  assert (filter (λ e, val (e_lsn e) < val (s_end (last_of B l1))) (v_disk v) = l1) as Hf.
  { rewrite E, filter_app. rewrite (filter_keep _ l1), (filter_drop _ l2); [apply app_nil_r| |].
    - intros x Hx. pose proof (chain_bounds _ _ _ Hc2 Hx). lia.
    - intros x Hx. pose proof (chain_bounds _ _ _ Hc1 Hx). lia. }
  split; [exact Hf|]. rewrite Hf.
  assert (∀ i, default new_task (filter (λ e, fst e < id) (v_tasks v) !! i) = if decide (i < id) then v_task i v else new_task) as Ht.
  { intros i. unfold v_task. case_decide as Hi; [destruct (v_tasks v !! i) as [k|] eqn:Ek|].
    - by rewrite (map_lookup_filter_Some_2 _ _ _ _ Ek Hi).
    - rewrite (proj2 (map_lookup_filter_None _ _ _)); [done|by left].
    - rewrite (proj2 (map_lookup_filter_None _ _ _)); [done|by right]. }
  split; cbn [v_start v_tasks v_sub v_flushed v_slid v_committed v_disk v_applied]; [done|done|done| | | | |done|].
  - intros x Hx Hs. unfold v_task at 1. cbn [v_tasks]. rewrite Ht, decide_True by (pose proof (chain_bounds _ _ _ Hc1 Hx); lia).
    apply I; [rewrite E; set_solver|done].
  - intros i Hi. unfold v_task at 1. cbn [v_tasks]. rewrite Ht, decide_False by lia. done.
  - intros i j Hi. unfold v_task at 1. cbn [v_tasks]. rewrite Ht, decide_False by lia. done.
  - destruct (iv_slid _ I) as (d1 & d2 & Ed & H1 & H2 & H3 & H4 & H5).
    destruct (prefix_weak_total d1 l1 (v_disk v)) as [[x ->]|[x ->]]; [by exists d2|by exists l2| |].
    + exists d1, x. split_and!; try done. destruct (Z.ltb_spec (val (s_end (last_of B (d1 ++ x)))) (val (v_flushed v))); [|done].
      by etrans; [|exact Hcm].
    + exists l1, []. rewrite app_nil_r. destruct x as [|e x].
      * rewrite app_nil_r in *. split_and!; try done. case_match; [lia|done].
      * exfalso. rewrite Ed in *. rewrite last_of_app in H1. pose proof (iv_chain _ I) as Hc. rewrite Ed in Hc.
        apply chain_app in Hc as [Hc _]. apply chain_app in Hc as [_ (? & ? & ? & Hc)]. apply chain_mono in Hc. simpl in *. lia.
  - destruct (Z.ltb_spec (val (s_end (last_of B l1))) (val (v_flushed v))); lia.
Qed.

Lemma inv_vstep v v' : vstep v v' → Inv v → Inv v'.
Proof.
  intros [] I; [by apply inv_put|by apply inv_clean|by apply inv_fill|by apply inv_submit| | |by apply inv_slide|by eapply inv_truncate].
  - split; try apply I; cbn; [|lia]. destruct (iv_slid _ I) as (l1 & l2 & ? & ? & ? & ? & ? & ?). exists l1, l2. split_and!; try done. lia.
  - split; try apply I; cbn; [|lia]. destruct (iv_slid _ I) as (l1 & l2 & ? & ? & ? & ? & ? & ?). exists l1, l2. split_and!; try done. lia.
Qed.

Lemma inv_vsteps v v' : rtc vstep v v' → Inv v → Inv v'.
Proof. induction 1; eauto using inv_vstep. Qed.

(** ** What a step never does *)

(** The committed end does not go back, committed entries stay on the disk, and what was
    told to the file system is not taken back. *)
Definition forward v v' : Prop :=
  val (v_committed v) ≤ val (v_committed v') ∧
  (∀ e, e ∈ v_disk v → val (e_end e) ≤ val (v_committed v) → e ∈ v_disk v') ∧ v_applied v `prefix_of` v_applied v'.

#[export] Instance forward_preorder : PreOrder forward.
Proof.
  split; [done|]. intros v1 v2 v3 (H1 & H2 & H3) (H4 & H5 & H6). split_and!; [lia| |by etrans].
  intros e He Hc. apply H5; [by apply H2|lia].
Qed.

Lemma vstep_forward v v' : vstep v v' → Inv v → forward v v'.
Proof.
  intros [] I; try (split_and!; [done|done|done]); unfold forward; cbn.
  - split_and!; [done|set_solver|done].
  - split_and!; [lia|done|done].
  - split_and!; [done|done|by eexists].
  - split_and!; [done| |done]. intros e He Hc. apply list_elem_of_filter. split; [|done].
    pose proof (chain_bounds _ _ _ (iv_chain _ I) He). lia.
Qed.

Lemma vsteps_forward v v' : rtc vstep v v' → Inv v → forward v v'.
Proof. induction 1 as [v|v1 v2 v3 H1 _ IH]; intros I; [done|]. etrans; [by apply vstep_forward|]. apply IH. by eapply inv_vstep. Qed.

(** Entries have LSNs that are far from the greatest one. *)
Lemma linked_valid p l e :
  linked p l → e ∈ l → Lsn.is_valid (e_lsn e) = true ∧ Lsn.is_valid (e_end e) = true ∧ e_pid e ≠ Lsn.INVALID_PROPOSAL_ID.
Proof.
  revert p. induction l as [|x l IH]; intros p Hl; [set_solver|]. destruct Hl as [(m & Hm & _ & E1 & E2 & _ & Ep & _) Hl]. rewrite elem_of_cons.
  intros [->|He]; [|by eapply IH]. pose proof (msg_end_val m (msgs_ok m Hm)) as Hv. destruct (msgs_ok m Hm) as (? & ? & ?).
  rewrite <- E1, <- E2. unfold Lsn.is_valid. rewrite !negb_true_iff, !Z.eqb_neq.
  change Lsn.LOG_INVALID_LSN_VAL with (2 ^ 64 - 1). split_and!; [lia|lia|done].
Qed.

Lemma entry_valid v e :
  Inv v → e ∈ v_disk v → Lsn.is_valid (e_lsn e) = true ∧ Lsn.is_valid (e_end e) = true ∧ e_pid e ≠ Lsn.INVALID_PROPOSAL_ID.
Proof. intros I. apply linked_valid with B, I. Qed.

(** ** Log matching *)

(** In a set of messages the place and the proposal id of a log determine the log. *)
Lemma linked_matching l1 l2 e1 e2 :
  0 ≤ s_id B → (∀ m m', Msgs m → Msgs m' → m_lsn m = m_lsn m' → m_pid m = m_pid m' → m = m') →
  chain B (l1 ++ [e1]) → chain B (l2 ++ [e2]) → linked B (l1 ++ [e1]) → linked B (l2 ++ [e2]) →
  e_lsn e1 = e_lsn e2 → e_pid e1 = e_pid e2 → l1 ++ [e1] = l2 ++ [e2].
Proof.
  intros HB Hf. revert l2 e1 e2. induction l1 as [|x l1 IH] using rev_ind; intros l2 e1 e2 Hc1 Hc2 Hl1 Hl2 El Ep.
  all: apply chain_app in Hc1 as [Hc1 (I1 & _ & _ & _)], Hc2 as [Hc2 (I2 & _ & _ & _)];
    apply linked_app in Hl1 as [Hl1 [(m1 & M1 & A1 & B1 & C1 & D1 & _ & P1) _]], Hl2 as [Hl2 [(m2 & M2 & A2 & B2 & C2 & D2 & _ & P2) _]].
  all: assert (m1 = m2) as Em by (apply Hf; congruence); assert (e1 = e2) as -> by (destruct e1, e2; simpl in *; congruence).
  - destruct l2 as [|y l2 _] using rev_ind; [done|]. exfalso. rewrite last_app in I2. simpl in *.
    assert (y ∈ l2 ++ [y]) as Hy by set_solver. pose proof (chain_bounds _ _ _ Hc2 Hy). lia.
  - rewrite last_app in *. assert (x ∈ l1 ++ [x]) as Hx by set_solver. pose proof (chain_bounds _ _ _ Hc1 Hx).
    destruct l2 as [|y l2 _] using rev_ind; [simpl in *; lia|]. rewrite last_app in *. f_equal.
    cbn [s_id s_lsn s_pid sub_of] in *. destruct P1 as [? ?]; [lia|]. destruct P2 as [? ?]; [lia|]. apply IH; [done..|congruence|congruence].
Qed.
End view_inv.
End ReplicaView.
