(* ===== verification/ReplicaRefine.v ===== *)
(** The handlers of [LogReplica] change the view of the replica ([ReplicaView]) by the
    steps [vstep] only, one or many: each handler of a replica that is not an active
    leader is followed through its branches, errors included. *)
From S2P Require Import Prelude Serialization Scn Lsn LsnAllocator Codec LogGroupEntryHeader LogChecksum LogGroupBuffer LogSubmit LogTask LogCommit LogReplica ReplicaView.
Import Ser Codec LogSubmit LogTask LogReplica ReplicaView.

Module ReplicaRefine.
Implicit Types (r : Replica) (k : LogTask).

(** ** Tags and members of a task *)
Lemma valid_raise b k : 0 ≤ b < 16 → b ≠ IS_VALID → is_valid (raise b k) = is_valid k.
Proof.
  intros Hb Hn. unfold is_valid. rewrite test_raise by (unfold IS_VALID; lia).
  destruct (Z.eqb_spec b IS_VALID); [done|apply orb_false_r].
Qed.

Lemma valid_lower b k : 0 ≤ b < 16 → b ≠ IS_VALID → is_valid (lower b k) = is_valid k.
Proof.
  intros Hb Hn. unfold is_valid. rewrite test_lower by (unfold IS_VALID; lia).
  destruct (Z.eqb_spec b IS_VALID); [done|apply andb_true_r].
Qed.

Lemma submit_raise b k : 0 ≤ b < 16 → is_pre_submit k = true → is_pre_submit (raise b k) = true.
Proof. intros Hb Hs. unfold is_pre_submit in *. rewrite test_raise, Hs by (unfold PRE_SUBMIT; lia). done. Qed.

Lemma submit_lower b k : 0 ≤ b < 16 → b ≠ PRE_SUBMIT → is_pre_submit k = true → is_pre_submit (lower b k) = true.
Proof.
  intros Hb Hn Hs. unfold is_pre_submit in *. rewrite test_lower, Hs by (unfold PRE_SUBMIT; lia).
  destruct (Z.eqb_spec b PRE_SUBMIT); done.
Qed.

(** The same group, and still submitted if it was. *)
Definition same_log k k' : Prop :=
  is_valid k' = is_valid k ∧ place k' = place k ∧ (is_pre_submit k = true → is_pre_submit k' = true).

#[export] Instance same_log_preorder : PreOrder same_log.
Proof. split; [done|]. intros k1 k2 k3 (H1 & H2 & H3) (H4 & H5 & H6). split_and!; [congruence|congruence|auto]. Qed.

Lemma same_raise b k : 0 ≤ b < 16 → b ≠ IS_VALID → same_log k (raise b k).
Proof. intros. split_and!; [by apply valid_raise|done|by apply submit_raise]. Qed.

Lemma same_lower b k : 0 ≤ b < 16 → b ≠ IS_VALID → b ≠ PRE_SUBMIT → same_log k (lower b k).
Proof. intros. split_and!; [by apply valid_lower|done|by apply submit_lower]. Qed.

Lemma same_try_freeze l k : same_log k (snd (try_freeze l k)).
Proof.
  unfold try_freeze, try_freeze_. destruct (is_freezed k); [done|]. destruct (negb (Lsn.is_valid l)); [done|].
  destruct (negb (is_valid k)); [done|]. destruct (Lsn.lsn_geb _ _); [done|]. cbn [snd].
  etrans; [|apply same_raise; unfold IS_FREEZED, IS_VALID; lia]. by destruct k as [? [] ? ? ? ? ? ? ?].
Qed.

Lemma same_set_freeze_ts t k : same_log k (set_freeze_ts t k).
Proof. unfold set_freeze_ts. by destruct (_ =? _). Qed.

Lemma pre_submit_is k : fst (try_pre_submit k) = true → snd (try_pre_submit k) = raise PRE_SUBMIT k.
Proof. unfold try_pre_submit. destruct (_ && _); [|done]. by rewrite try_raise_is by (unfold PRE_SUBMIT; lia). Qed.

Lemma same_pre_submit k : same_log k (snd (try_pre_submit k)).
Proof.
  unfold try_pre_submit. destruct (_ && _); [|done]. rewrite try_raise_is by (unfold PRE_SUBMIT; lia).
  apply same_raise; unfold PRE_SUBMIT, IS_VALID; lia.
Qed.

(** ** What a handler does to the view *)

(** The tasks given to the log engine. *)
Definition io_task (o : Out) : option Out := match o with FlushLog _ | TruncateLog _ => Some o | _ => None end.
Definition io r : list Out := omap io_task (outbox r).

Lemma disk_send o r : disk (outbox (send o r)) = on_disk (disk (outbox r)) o.
Proof. unfold disk. cbn [outbox send]. by rewrite foldl_app. Qed.

Lemma task_put id k r id' : task_at id' (put id k r) = if decide (id = id') then k else task_at id' r.
Proof. apply (v_task_put id k (view r)). Qed.

(** The log before the first one on the disk: none at all, or a log of a snapshot. *)
Definition no_log : Submitted := mkSub (Lsn.mkLSN 0) (Lsn.mkLSN 0) 0 Lsn.INVALID_PROPOSAL_ID.
Definition base_ok (b : Submitted) : Prop :=
  b = no_log ∨ 0 < s_id b ∧ Lsn.is_valid (s_lsn b) = true ∧ val (s_end b) < 2 ^ 63 ∧ s_pid b ≠ Lsn.INVALID_PROPOSAL_ID.

Section refine.
Context (Msgs : Msg → Prop) (B : Submitted).
Hypothesis msgs_ok : ∀ m, Msgs m → msg_ok m.
Abbreviation vsteps := (rtc (vstep Msgs B)).
Abbreviation Good r := (Inv Msgs B (view r)).

Record moves r r' : Prop := {
  mv_view : vsteps (view r) (view r');
  mv_flags : is_truncating_ r' = is_truncating_ r ∧ last_truncate_lsn_ r' = last_truncate_lsn_ r ∧ sw_inited r' = sw_inited r;
  mv_io : ∃ new, io r' = io r ++ (FlushLog <$> new) ∧ disk (outbox r') = disk (outbox r) ++ (entry_of <$> new)
}.
(** Nothing can be submitted. *)
Definition idle r : Prop := is_valid (task_at (s_id (last_submit r) + 1) r) = false.
Definition flows r r' : Prop := moves r r' ∧ (idle r → idle r' ∧ last_submit r' = last_submit r ∧ io r' = io r).

#[export] Instance moves_preorder : PreOrder moves.
Proof.
  split; [intros r; split; [done|done|exists []; by rewrite !app_nil_r]|].
  intros r1 r2 r3 [H1 (H2 & H3 & H3') (n1 & H4 & H5)] [H6 (H7 & H8 & H8') (n2 & H9 & H10)].
  split; [by etrans|split_and!; congruence|]. exists (n1 ++ n2). by rewrite !fmap_app, !app_assoc, <- H4, <- H5, H9, H10.
Qed.

#[export] Instance flows_preorder : PreOrder flows.
Proof.
  split; [by split|]. intros r1 r2 r3 [H1 H2] [H3 H4]. split; [by etrans|].
  intros Hi. destruct (H2 Hi) as (I2 & E1 & E2). destruct (H4 I2) as (I3 & E3 & E4). split_and!; [done|congruence|congruence].
Qed.

Lemma moves_good r r' : moves r r' → Good r → Good r'.
Proof. intros [H _ _]. by eapply inv_vsteps. Qed.

Lemma flows_good r r' : flows r r' → Good r → Good r'.
Proof. intros [H _]. by apply moves_good. Qed.

(** What is not seen. *)
Lemma flows_same r r' :
  view r' = view r → is_truncating_ r' = is_truncating_ r → last_truncate_lsn_ r' = last_truncate_lsn_ r → sw_inited r' = sw_inited r →
  io r' = io r → flows r r'.
Proof.
  intros Hv H1 H2 H2' H3. assert (last_submit r' = last_submit r ∧ tasks r' = tasks r ∧ disk (outbox r') = disk (outbox r)) as (Hs & Ht & Hd).
  { unfold view in Hv. by injection Hv. }
  split; [split; [by rewrite Hv|done|exists []; by rewrite !app_nil_r]|]. unfold idle, task_at. by rewrite Hs, Ht.
Qed.

Lemma flows_buffers a b c r : flows r (set_buffers a b c r).
Proof. by apply flows_same. Qed.

Lemma flows_acks f r : flows r (set_commit (committed_end r) f r).
Proof. by apply flows_same. Qed.

Lemma flows_put_if id k r :
  is_valid k = is_valid (task_at id r) → place k = place (task_at id r) →
  (is_pre_submit (task_at id r) = true → id ≤ s_id (last_submit r) → is_pre_submit k = true) → flows r (put id k r).
Proof.
  intros Hv Hp Hs. split; [split; [|done|exists []; by rewrite !app_nil_r]|].
  - apply rtc_once. apply (vs_put Msgs B id k (view r) Hv Hp Hs).
  - unfold idle. intros Hi. split_and!; [|done|done]. cbn [last_submit put set_window]. rewrite task_put.
    case_decide; [subst id; congruence|done].
Qed.

Lemma flows_put id k r : same_log (task_at id r) k → flows r (put id k r).
Proof. intros (Hv & Hp & Hs). apply flows_put_if; auto. Qed.

(** A task that is not submitted may lose its tag. *)
Lemma flows_put_unsubmitted id k r :
  is_valid k = is_valid (task_at id r) → place k = place (task_at id r) → s_id (last_submit r) < id → flows r (put id k r).
Proof. intros Hv Hp Hl. apply flows_put_if; [done|done|lia]. Qed.

(** ** Committing *)
Lemma flows_commit l f r :
  val (committed_end r) ≤ val l ≤ val (s_end (last_submit r)) → flows r (set_commit l f r).
Proof.
  intros Hl. split; [split; [|done|exists []; by rewrite !app_nil_r]|done].
  apply rtc_once. by apply (vs_commit Msgs B l (view r)).
Qed.

Lemma flows_advance l r : Lsn.is_valid l = true → val l ≤ val (s_end (last_submit r)) → flows r (advance_committed l r).
Proof.
  intros Hv Hl. unfold advance_committed, with_acks, LogCommit.try_advance_committed_lsn_. rewrite Hv. cbn [negb snd].
  unfold Lsn.lsn_gtb. cbn [acks_of LogCommit.committed_end_lsn_]. destruct (Lsn.lsn_ltb _ _) eqn:E; [|by apply flows_same].
  apply flows_commit. apply Lsn.ltb_spec in E. cbn. lia.
Qed.

Lemma log_task_ok id r : get_log_task id r = OB_SUCCESS → Lsn.is_valid_log_id id = true ∧ start_id r ≤ id < start_id r + PALF_SLIDING_WINDOW_SIZE.
Proof.
  unfold get_log_task. destruct (Lsn.is_valid_log_id id); [|done]. cbn [negb].
  destruct (Z.ltb_spec id (start_id r)); [done|]. destruct (Z.leb_spec (start_id r + PALF_SLIDING_WINDOW_SIZE) id); [done|]. lia.
Qed.

(** ** Sliding *)
Definition slide_info k id : Slid := mkSl id (i_max_scn_ (header_ k)) (begin_lsn_ (header_ k)) (task_end k) (task_pid k) (accum_checksum_ (header_ k)).
Definition slides c k r : Replica :=
  let h := header_ k in
  let r1 := set_sl (slide_info k (start_id r)) (send (UpdateEndLsn (task_end k) (i_max_scn_ h) (task_pid k)) (set_cs c r)) in
  slide_out (send (FillCache (begin_lsn_ h) (HEADER + data_len_ h)) r1).

Lemma io_send o r : io_task o = None → io (send o r) = io r.
Proof. intros Ho. unfold io. cbn [outbox send]. rewrite omap_app. simpl. rewrite Ho. apply app_nil_r. Qed.

Lemma disk_slides c k r : disk (outbox (slides c k r)) = disk (outbox r).
Proof. unfold slides, disk. cbn. by rewrite !foldl_app. Qed.

Lemma io_slides c k r : io (slides c k r) = io r.
Proof. unfold slides, io. cbn. by rewrite !omap_app, !app_nil_r. Qed.

Lemma flows_slides c r :
  let k := task_at (start_id r) r in
  is_valid k = true → val (task_end k) ≤ val (f_end (max_flushed r)) → val (task_end k) ≤ val (committed_end r) →
  flows r (slides c k r).
Proof.
  intros k Hv Hf Hc. split; [split; [|done|exists []; by rewrite io_slides, disk_slides, !app_nil_r]|].
  - apply rtc_once. eapply eq_ind; [exact (vs_slide Msgs B (view r) Hv Hf Hc)|]. unfold view. rewrite disk_slides. unfold slides, applied. cbn.
    by rewrite !omap_app, app_nil_r.
  - intros Hi. split_and!; [|done|apply io_slides]. unfold idle in *. cbn [last_submit slides slide_out send set_sl set_window].
    unfold task_at, slides in *. cbn. destruct (decide (start_id r = s_id (last_submit r) + 1)) as [->|Hn].
    + by rewrite lookup_delete_eq.
    + by rewrite lookup_delete_ne.
Qed.

(** The record of the last slid log is always taken. *)
Lemma slide_noted r r' :
  let k := task_at (start_id r) r in
  Good r → is_valid k = true → val (task_end k) ≤ val (f_end (max_flushed r)) → Lsn.is_valid_log_id (start_id r) = true →
  try_update_last_slide_log_info_ (slide_info k (start_id r)) r' = set_sl (slide_info k (start_id r)) r'.
Proof.
  intros k I Hv Hf Hid. destruct (slide_entry Msgs B msgs_ok (view r) Hv Hf I) as (e & l1 & l2 & E & _ & Hst & _).
  change (v_task (v_start (view r)) (view r)) with k in Hst.
  destruct Hst as (_ & _ & Hb & He & _ & Hs & Hp). destruct (entry_valid Msgs B msgs_ok (view r) e I) as (V1 & V2 & _); [rewrite E; set_solver|].
  unfold try_update_last_slide_log_info_, slide_info. cbn [d_lsn d_end d_pid d_id d_scn]. rewrite Hb, He, V1, V2, Hs.
  unfold Lsn.is_valid_log_id, Lsn.OB_INVALID_LOG_ID in *. rewrite (proj2 (Z.eqb_neq _ _)) by congruence.
  by destruct (Z.eqb_spec (-1) (start_id r)) as [E'|]; [rewrite <- E' in Hid|].
Qed.

Section crc.
Context (ob_crc64 : Z → list Z → Z).

Lemma sliding_cb_cases e r r0 :
  let k := task_at (start_id r) r in
  can_slide_sw e = true → Good r → is_valid k = true → val (task_end k) ≤ val (f_end (max_flushed r)) →
  Lsn.is_valid_log_id (start_id r) = true → r0 = r →
  let '(rc, r') := sliding_cb ob_crc64 e k r0 in
  if ob_failed rc then ∃ c, r' = set_cs c r ∨ r' = r else ∃ c, slide_out r' = slides c k r.
Proof.
  intros k Hs I Hv Hf Hid ->. unfold sliding_cb. destruct (sw_inited r); [|by exists (checksum_ r); right]. rewrite Hs. cbn [negb].
  destruct (LogChecksum.verify_accum_checksum _ _ _ _) as [rc c]. destruct (ob_failed rc) eqn:Erc; [rewrite Erc; exists c; by left|].
  change (ob_failed OB_SUCCESS) with false. cbn iota. exists c.
  pose proof (slide_noted r (send (UpdateEndLsn (task_end k) (i_max_scn_ (header_ k)) (task_pid k)) (set_cs c r)) I Hv Hf Hid) as Hn.
  unfold slide_info in Hn. fold k in Hn. cbn [start_id send set_cs set_buffers] in *. by rewrite Hn.
Qed.

Lemma task_put_eq id k r : task_at id (put id k r) = k.
Proof. rewrite task_put. by rewrite decide_True. Qed.

Lemma geb_le a b : Lsn.lsn_geb a b = true → val b ≤ val a.
Proof. unfold Lsn.lsn_geb, Lsn.lsn_ltb, Lsn.lsn_eqb. rewrite orb_true_iff, Z.ltb_lt, Z.eqb_eq. lia. Qed.

Lemma commit_once_flows e r : Good r → flows r (snd (commit_once ob_crc64 e r)).
Proof.
  intros I. unfold commit_once. destruct (ob_failed _) eqn:Eg; [by destruct (_ =? _)|]. apply ob_failed_false, log_task_ok in Eg as [Hid _].
  destruct (is_valid _) eqn:Hv; [|done]. cbn [negb]. destruct (_ && _ && _ && _) eqn:Ec; [|done].
  apply andb_prop in Ec as [Ec Hs]. apply andb_prop in Ec as [Ec Hc]. apply andb_prop in Ec as [_ Hf]. apply geb_le in Hc, Hf.
  unfold try_pre_slide. rewrite try_raise_is by (unfold PRE_SLIDE; lia). set (k := raise PRE_SLIDE _). set (r1 := put _ k r).
  assert (flows r r1) as F1 by (apply flows_put, same_raise; unfold PRE_SLIDE, IS_VALID; lia).
  destruct (negb (test _ _)); [|done]. pose proof (flows_good _ _ F1 I) as I1.
  assert (task_at (start_id r1) r1 = k) as Hk by apply task_put_eq.
  assert (is_valid k = true) as Hv1 by (unfold k; rewrite valid_raise; [done|unfold PRE_SLIDE; lia|done]).
  pose proof (sliding_cb_cases e r1 r1 Hs I1) as Hcb. rewrite Hk in Hcb. specialize (Hcb Hv1 Hf Hid eq_refl).
  destruct (sliding_cb _ _ _ _) as [rc r2]. destruct (ob_failed rc); cbn [snd]; (etrans; [exact F1|]).
  - assert (flows r1 r2) as F2 by (destruct Hcb as [c [-> | ->]]; [apply flows_buffers|done]). etrans; [exact F2|].
    apply flows_put. assert (task_at (start_id r) r2 = k) as -> by (destruct Hcb as [c [-> | ->]]; exact Hk).
    apply same_lower; unfold PRE_SLIDE, IS_VALID, PRE_SUBMIT; lia.
  - destruct Hcb as [c ->]. rewrite <- Hk. apply flows_slides; rewrite ?Hk; done.
Qed.

Lemma commit_loop_flows fuel e r : Good r → flows r (commit_loop ob_crc64 fuel e r).
Proof.
  revert r. induction fuel as [|fuel IH]; intros r I; [done|]. simpl. pose proof (commit_once_flows e r I) as F.
  destruct (commit_once _ _ _) as [[rc next] r1]. cbn [snd] in F. destruct (_ && _); [|done]. etrans; [exact F|]. apply IH. by eapply flows_good.
Qed.

Lemma committed_log_flows e r : Good r → flows r (handle_committed_log_ ob_crc64 e r).
Proof. intros I. unfold handle_committed_log_. destruct (is_all_committed_log_slided_out_ r); [done|]. by apply commit_loop_flows. Qed.

(** ** Submitting *)
Context (XXH64 : list Z → Z → Z) (grow : nat → bool).

Lemma generate_sound id h l gb g0 g :
  generate_group_entry_header_ XXH64 ob_crc64 grow id (Some h) l gb g0 = Some g → ob_failed (g_ret g) = false →
  LogGroupEntryHeader.group_size_ (group_header g) = s32 (data_len_ h) ∧
  LogGroupEntryHeader.proposal_id_ (group_header g) = i_proposal_id_ h ∧
  Lsn.is_valid (LogGroupEntryHeader.committed_end_lsn_ (group_header g)) = true ∧
  val (LogGroupEntryHeader.committed_end_lsn_ (group_header g)) ≤ val (begin_lsn_ h) ∧
  Scn.is_valid (i_max_scn_ h) = true ∧ i_proposal_id_ h ≠ Lsn.INVALID_PROPOSAL_ID.
Proof.
  unfold generate_group_entry_header_. destruct (_ =? id); [by intros [= <-]|].
  set (c := if negb (Lsn.is_valid (i_committed_end_lsn_ h)) then l else i_committed_end_lsn_ h).
  destruct (Lsn.lsn_gtb c _) eqn:Ec; [by intros [= <-]|].
  destruct (LogGroupBuffer.get_log_buf _ _ _ _ _) as [[rc w]|]; [|done]. destruct (ob_failed rc) eqn:Erc; [intros [= <-]; cbn; congruence|].
  destruct (LogGroupEntryHeader.generate _ _ _ _ _ _ _ _ _ _ _ _ _) as [[[rc1 d] h1]|] eqn:Eg; [|done].
  destruct (ob_failed rc1) eqn:Erc1; [intros [= <-]; cbn; congruence|].
  destruct (LogChecksum.acquire_accum_checksum _ _ _ _) as [[rc2 acc] cs]. destruct (ob_failed rc2) eqn:Erc2; [intros [= <-]; cbn; congruence|].
  intros [= <-] _. cbn [group_header]. unfold LogGroupEntryHeader.generate in Eg.
  destruct (_ || _ || _ || _) eqn:Eo; [injection Eg as <- _ _; done|]. apply orb_false_elim in Eo as [Eo Hp]. apply orb_false_elim in Eo as [Eo Hc].
  apply orb_false_elim in Eo as [Hs _]. apply negb_false_iff in Hc, Hs. apply Z.eqb_neq in Hp.
  assert (¬ val (begin_lsn_ h) < val c) as Hle by (rewrite <- Lsn.ltb_spec; unfold Lsn.lsn_gtb in Ec; congruence).
  destruct (LogGroupEntryHeader.calculate_log_checksum_ _ _ _ _ _ _ _) as [[rc3 d3]|]; [|done]. injection Eg as _ _ <-.
  destruct (is_padding_log_ h), (is_raw_write_ h); cbn; (split_and!; [done..|lia|done|congruence]).
Qed.

(** The next log may be submitted: it follows the last one. *)
Definition follows id (g : Generated) k r : Prop :=
  s_end (last_submit r) = begin_lsn_ (header_ k) ∧
  (1 < id → prev_lsn_ (header_ k) = s_lsn (last_submit r) ∧ prev_proposal_id_ (header_ k) = s_pid (last_submit r)) ∧
  LogGroupEntryHeader.group_size_ (group_header g) = s32 (data_len_ (header_ k)) ∧
  LogGroupEntryHeader.proposal_id_ (group_header g) = task_pid k ∧
  Lsn.is_valid (LogGroupEntryHeader.committed_end_lsn_ (group_header g)) = true ∧
  val (LogGroupEntryHeader.committed_end_lsn_ (group_header g)) ≤ val (begin_lsn_ (header_ k)) ∧ good k.

Lemma eqb_lsn a b : Lsn.lsn_eqb a b = true → a = b.
Proof. destruct a as [x], b as [y]. unfold Lsn.lsn_eqb. cbn. by intros ->%Z.eqb_eq. Qed.

Lemma prepare_flows e id r g r1 :
  let k := task_at id r in
  leader_active e = false → submit_prepare XXH64 ob_crc64 grow e id k r = Some (g, r1) →
  flows r r1 ∧ last_submit r1 = last_submit r ∧ same_log k (task_at id r1) ∧
  (ob_failed (g_ret g) = false → follows id g (task_at id r1) r1).
Proof.
  intros k Hl. unfold submit_prepare. destruct (Lsn.lsn_eqb _ _) eqn:E1; cbn [negb]; [|by intros [= <- <-]]. rewrite Hl. cbn [negb andb].
  destruct ((_ <? id) && _) eqn:E2; [by intros [= <- <-]|].
  destruct (generate_group_entry_header_ _ _ _ _ _ _ _ _) as [g1|] eqn:Eg; [|done]. pose proof (generate_sound _ _ _ _ _ _ Eg) as Hg.
  assert (∀ r', last_submit r' = last_submit r → ob_failed (g_ret g1) = false → ∀ g', group_header g' = group_header g1 →
    ∀ k', place k' = place k → follows id g' k' r') as Hfollow.
  { intros r' Hr Hok g' Eh k' Hp. destruct (Hg Hok) as (G1 & G2 & G3 & G4 & G5 & G6). unfold follows, good. rewrite Hr, Eh.
    unfold place in Hp. injection Hp as P1 P2 P3 P4 P5 P6. rewrite P1, P2, P3, P4, P5, P6. split_and!; try done; [by apply eqb_lsn|].
    intros Hid. apply andb_false_iff in E2 as [E2|E2]; [unfold FIRST_VALID_LOG_ID in E2; lia|].
    apply orb_false_elim in E2 as [E2 E3]. apply negb_false_iff in E2, E3. apply eqb_lsn in E2. apply Z.eqb_eq in E3. done. }
  destruct (ob_failed (g_ret g1)) eqn:Eok; [intros [= <- <-]; split_and!; [apply flows_buffers|done|done|congruence]|].
  destruct (negb (follower_active e)).
  - destruct (update_header_info _ _ _) as [rc k1] eqn:Eu. intros [= <- <-].
    assert (same_log k k1) as Hk.
    { assert (k1 = snd (rc, k1)) as -> by done. rewrite <- Eu. unfold update_header_info.
      destruct (negb (Lsn.is_valid _)); [by destruct k as [? [] ? ? ? ? ? ? ?]|].
      destruct (negb (is_valid _)); by destruct k as [? [] ? ? ? ? ? ? ?]. }
    split_and!; [etrans; [apply flows_buffers|by apply flows_put]|done|by rewrite task_put_eq|]. rewrite task_put_eq. intros _. apply Hfollow; [done..|apply Hk].
  - intros [= <- <-]. split_and!; [apply flows_buffers|done|done|]. intros _. by apply Hfollow.
Qed.

Lemma cached_end id r :
  let k := task_at id r in
  Good r → s_id (last_submit r) < id → is_valid k = true →
  Lsn.is_valid (begin_lsn_ (header_ k)) = true ∧ Lsn.is_valid (task_end k) = true ∧ val (begin_lsn_ (header_ k)) < val (task_end k) ∧
  Lsn.lsn_add (begin_lsn_ (header_ k)) (HEADER + s32 (data_len_ (header_ k))) = task_end k.
Proof.
  intros k I Hid Hv. destruct (iv_cached _ _ _ I id Hid Hv) as (m & Hm & _ & Hp & _). change (v_task id (view r)) with k in Hp.
  destruct (place_msg_end _ _ Hp) as (He & Hb & _). pose proof (msg_end_val m (msgs_ok m Hm)) as Hend. destruct (msgs_ok m Hm) as (H0 & H1 & H2).
  assert (data_len_ (header_ k) = m_len m) as Hlen by (unfold place, msg_place in Hp; congruence).
  rewrite He, Hb, Hlen. unfold Lsn.is_valid. change Lsn.LOG_INVALID_LSN_VAL with (2 ^ 64 - 1). rewrite Hend.
  split_and!; [apply negb_true_iff, Z.eqb_neq; lia..|lia|]. assert (s32 (m_len m) = m_len m) as -> by (apply wraps_small; unfold in_s; lia).
  unfold Lsn.lsn_add. change HEADER with 56. rewrite wrapu_small by (unfold in_u; lia). rewrite Z.add_assoc, <- Hend. by destruct (msg_end m).
Qed.

Lemma set_last_submit_is b e id pid r :
  Lsn.is_valid b = true → Lsn.is_valid e = true → 0 < id → pid ≠ Lsn.INVALID_PROPOSAL_ID →
  set_last_submit_log_info_ b e id pid r = set_sub (mkSub b e id pid) r.
Proof.
  intros Hb He Hid Hp. unfold set_last_submit_log_info_. rewrite Hb, He. cbn [negb orb]. unfold Lsn.OB_INVALID_LOG_ID.
  rewrite (proj2 (Z.eqb_neq (-1) id)), (proj2 (Z.eqb_neq _ pid)) by (congruence || lia). done.
Qed.

Lemma moves_submit id ctx pid r :
  let k := task_at id r in
  Good r → id = s_id (last_submit r) + 1 → is_valid k = true → is_pre_submit k = true → good k → 
  s_end (last_submit r) = begin_lsn_ (header_ k) →
  (1 < id → prev_lsn_ (header_ k) = s_lsn (last_submit r) ∧ prev_proposal_id_ (header_ k) = s_pid (last_submit r)) →
  entry_of ctx = mkEnt id (begin_lsn_ (header_ k)) (task_end k) (task_pid k) → pid = task_pid k →
  moves r (set_sub (mkSub (begin_lsn_ (header_ k)) (task_end k) id pid) (send (FlushLog ctx) r)).
Proof.
  intros k I Hid Hv Hs Hg He Hprev Hc ->. split; [|done|].
  - apply rtc_once. eapply eq_ind; [apply (vs_submit Msgs B (entry_of ctx) (view r)); rewrite Hc; try done|]. unfold view.
    rewrite Hc. cbn [last_submit set_sub start_id tasks send max_flushed last_slide committed_end outbox sub_of e_id e_lsn e_end e_pid].
    f_equal; [unfold disk; rewrite foldl_app; cbn; by rewrite Hc|]. unfold applied. rewrite omap_app. simpl. by rewrite app_nil_r.
  - exists [ctx]. unfold io, disk. cbn. by rewrite omap_app, foldl_app.
Qed.

Lemma submit_flush_moves e id g r rc r1 :
  let k := task_at id r in
  leader_active e = false → Good r → id = s_id (last_submit r) + 1 → 0 < id → is_valid k = true → is_pre_submit k = true → follows id g k r →
  submit_flush grow e id g r = Some (rc, r1) →
  moves r r1 ∧ (ob_failed rc = true → last_submit r1 = last_submit r ∧ place (task_at id r1) = place k ∧ is_valid (task_at id r1) = true).
Proof.
  intros k Hl I Hid Hpos Hv Hs (Hb & Hprev & Hsz & Hpid & Hc & Hcl & Hg). unfold submit_flush. rewrite Hl. cbn [negb].
  destruct (submit_header _ _ _ _ _) as [[[rc0 buf] gb]|]; [|done]. rewrite orb_true_r.
  change (task_at id r) with k. set (r2 := put id (set_submit_ts (now e) k) (set_buf gb r)).
  assert (flows r r2) as F2. { etrans; [apply (flows_buffers (lsn_allocator_ r) gb (LogReplica.checksum_ r))|]. by apply flows_put. }
  pose proof (flows_good _ _ F2 I) as I2. assert (task_at id r2 = set_submit_ts (now e) k) as Hk2 by apply task_put_eq.
  destruct F2 as [F2 _].
  destruct (ob_failed rc0) eqn:E0; [intros [= <- <-]; split; [done|]; by rewrite Hk2|].
  destruct (ob_failed (flush_rc e)) eqn:E1; [intros [= <- <-]; split; [done|]; by rewrite Hk2|]. intros [= <- <-]. split; [|done].
  destruct (cached_end id r2) as (V1 & V2 & V3 & V4); [done|cbn; lia|by rewrite Hk2|]. rewrite Hk2 in V1, V2, V3, V4.
  change (header_ (set_submit_ts (now e) k)) with (header_ k) in *. change (task_end (set_submit_ts (now e) k)) with (task_end k) in *.
  rewrite Hpid, set_last_submit_is by (done || apply Hg).
  set (r3 := set_sub _ _). assert (moves r2 r3) as F3.
  { pose proof (moves_submit id (mkCtx id (min_scn_ (header_ k)) (begin_lsn_ (header_ k)) (task_pid k)
      (HEADER + LogGroupEntryHeader.group_size_ (group_header g)) (proposal_id e)) (task_pid k) r2) as M.
    rewrite Hk2 in M. apply M; try done. unfold entry_of. cbn. by rewrite Hsz, V4. }
  assert (moves r r3) as F by (by etrans). destruct (_ || _); [|done]. etrans; [exact F|]. apply flows_advance; [done|]. change (s_end (last_submit r3)) with (task_end k). lia.
Qed.

(** Nothing is valid at the next id, or the submission goes as far as it can. *)
Lemma submit_once_flows e r rc goes_on updated r1 :
  leader_active e = false → Good r → submit_once XXH64 ob_crc64 grow e r = Some (rc, goes_on, updated, r1) → flows r r1.
Proof.
  intros Hl I. unfold submit_once. set (id := s_id (last_submit r) + 1). destruct (ob_failed _) eqn:Eg; [by intros [= <- <- <- <-]|].
  apply ob_failed_false, log_task_ok in Eg as [Hpos _]. apply Z.ltb_lt in Hpos.
  destruct (is_valid (task_at id r)) eqn:Hv; cbn [negb]; [|by intros [= <- <- <- <-]].
  destruct (try_pre_submit _) as [need k] eqn:Ep. set (r2 := put id k r).
  assert (same_log (task_at id r) k) as Hk by (pose proof (same_pre_submit (task_at id r)) as Hsame; by rewrite Ep in Hsame).
  assert (flows r r2) as F2 by (by apply flows_put). pose proof (flows_good _ _ F2 I) as I2.
  destruct need; cbn [negb]; [|by intros [= <- <- <- <-]]. assert (task_at id r2 = k) as Hk2 by apply task_put_eq.
  assert (is_pre_submit k = true) as Hsub.
  { pose proof (pre_submit_is (task_at id r)) as E. rewrite Ep in E. cbn [fst snd] in E. rewrite (E eq_refl). unfold is_pre_submit. by rewrite test_raise, orb_true_r. }
  destruct (submit_prepare _ _ _ _ _ _ _) as [[g r3]|] eqn:Es; [|done]. rewrite <- Hk2 in Es.
  destruct (prepare_flows _ _ _ _ _ Hl Es) as (F3 & L3 & K3 & Hok). rewrite Hk2 in K3. pose proof (flows_good _ _ F3 I2) as I3.
  assert (is_valid (task_at id r3) = true) as V3 by (destruct K3 as (-> & _), Hk as (-> & _); done).
  assert (∀ r4 (x : Z), moves r r4 → flows r r4) as Hmv.
  { intros r4 _ M. split; [done|]. intros Hi. unfold idle in Hi. fold id in Hi. congruence. }
  assert (∀ r4 c, moves r3 r4 → last_submit r4 = last_submit r3 → flows r (set_cs c (put id (reset_pre_submit (task_at id r4)) r4))) as Hback.
  { intros r4 c M4 L4. etrans; [apply (Hmv r4 0); etrans; [apply F2|]; etrans; [apply F3|done]|]. etrans; [|apply flows_buffers].
    apply flows_put_unsubmitted; [apply valid_lower; unfold PRE_SUBMIT, IS_VALID; lia|done|]. rewrite L4, L3. cbn. lia. }
  assert (∀ r4 rc4, moves r3 r4 → last_submit r4 = last_submit r3 →
    (if is_accum_checksum_acquired g then
       let '(rc, c) := LogChecksum.rollback_accum_checksum (LogGroupEntryHeader.accumulated_checksum_ (group_header g))
                         (LogReplica.checksum_ (put id (reset_pre_submit (task_at id r4)) r4)) in
       Some (rc, true, false, set_cs c (put id (reset_pre_submit (task_at id r4)) r4))
     else Some (rc4, true, false, put id (reset_pre_submit (task_at id r4)) r4)) = Some (rc, goes_on, updated, r1) → flows r r1) as Hfail.
  { intros r4 rc4 M4 L4. destruct (is_accum_checksum_acquired g).
    - destruct (LogChecksum.rollback_accum_checksum _ _) as [rc5 c]. intros [= _ _ _ <-]. by apply Hback.
    - intros [= _ _ _ <-]. etrans; [by apply (Hback r4 (LogReplica.checksum_ r4))|]. by apply flows_same. }
  destruct (ob_failed (g_ret g)) eqn:Er.
  - rewrite Er. cbn [negb]. by apply Hfail.
  - destruct (submit_flush _ _ _ _ _) as [[rc4 r4]|] eqn:E4; [|done].
    destruct (submit_flush_moves e id g r3 rc4 r4 Hl I3) as [M4 H4]; try done; [by rewrite L3|by apply K3|by apply Hok|].
    destruct (ob_failed rc4); cbn [negb]; [by apply Hfail, H4|]. intros [= _ _ _ <-]. apply (Hmv r4 0).
    etrans; [apply F2|]. etrans; [apply F3|done].
Qed.

Lemma submit_loop_flows n e r updated r1 :
  leader_active e = false → Good r → submit_loop XXH64 ob_crc64 grow n e r = Some (updated, r1) → flows r r1.
Proof.
  intros Hl. revert r updated r1. induction n as [|n IH]; intros r updated r1 I; simpl; [by intros [= _ <-]|].
  destruct (submit_once _ _ _ _ _) as [[[[rc go] up] r2]|] eqn:E; [|done]. pose proof (submit_once_flows _ _ _ _ _ _ Hl I E) as F.
  destruct (_ && _); [|by intros [= _ <-]]. destruct (submit_loop _ _ _ _ _ _) as [[u r3]|] eqn:E3; [|done]. intros [= _ <-].
  etrans; [exact F|]. eapply IH; [by eapply flows_good|done].
Qed.

(** ** Receiving *)
Definition msg_of (prev_lsn : LSN) (prev_pid : Z) (lsn : LSN) (h : LogGroupEntryHeader.LogGroupEntryHeader) : Msg :=
  mkMsg prev_lsn prev_pid lsn (LogGroupEntryHeader.log_id_ h) (LogGroupEntryHeader.proposal_id_ h) (LogGroupEntryHeader.group_size_ h)
    (LogGroupEntryHeader.max_scn_ h).

Lemma fits_put m k v : fits v m → fits (v_put (m_id m) k v) m.
Proof.
  intros Hf id Hid. cbn [v_sub v_put] in Hid. rewrite v_task_put. case_decide as E; [subst id; intros _; split; lia|]. by apply Hf.
Qed.

Lemma moves_fill m k r :
  Msgs m → start_id r ≤ m_id m → is_valid (task_at (m_id m) r) = false → is_valid k = true → place k = msg_place m →
  fits (view r) m → val (s_end (last_submit r)) ≤ val (m_lsn m) → moves r (put (m_id m) k r).
Proof.
  intros Hm Hst Hn Hv Hp Hf Hl. split; [|done|exists []; by rewrite !app_nil_r]. apply rtc_once.
  by apply (vs_fill Msgs B m k (view r)).
Qed.

Lemma ltb_ge a b : Lsn.lsn_ltb a b = false → val b ≤ val a.
Proof. unfold Lsn.lsn_ltb. rewrite Z.ltb_ge. done. Qed.

Lemma receive_fill_moves e log_type prev_lsn prev_pid lsn buf buf_len h c r rc r1 :
  let m := msg_of prev_lsn prev_pid lsn h in
  let id := m_id m in
  Msgs m → start_id r ≤ id → is_valid (task_at id r) = false → fits (view r) m →
  receive_fill XXH64 e log_type prev_lsn prev_pid lsn buf buf_len h c id (raise PRE_FILL (task_at id r)) r = Some (rc, r1) → moves r r1.
Proof.
  intros m id Hm Hst Hn Hf. unfold receive_fill. set (k := raise PRE_FILL _). set (r2 := put id k r).
  assert (same_log (task_at id r) k) as Hk by (apply same_raise; unfold PRE_FILL, IS_VALID; lia).
  assert (moves r r2) as M2 by (by apply flows_put).
  assert (is_valid k = false) as Hk1 by (destruct Hk as (-> & _); done).
  assert (∀ r' rc', moves r r' → Some (rc', put id (reset_pre_fill (task_at id r')) r') = Some (rc, r1) → moves r r1) as Hstop.
  { intros r' rc' M [= _ <-]. etrans; [exact M|]. apply flows_put, same_lower; unfold PRE_FILL, IS_VALID, PRE_SUBMIT; lia. }
  destruct (Lsn.lsn_ltb lsn (f_end _)); [by apply Hstop|]. destruct (Lsn.lsn_ltb lsn (s_end _)) eqn:El; [by apply Hstop|]. apply ltb_ge in El.
  destruct (get_min_scn_from_buf_ _ _ _ _) as [[rc1 min_scn]|]; [|done]. destruct (ob_failed rc1); [by apply Hstop|].
  destruct (LogGroupBuffer.fill _ _ _ _) as [[rc2 gb]|]; [|done]. set (r3 := set_buf gb r2).
  assert (moves r r3) as M3 by (etrans; [exact M2|]; apply flows_buffers). destruct (ob_failed rc2); [by apply Hstop|].
  unfold try_update_max_lsn_. destruct (LsnAllocator.inc_update_last_log_info _ _ _ _) as [rc3 al]. set (r4 := set_alloc al r3).
  assert (moves r r4) as M4 by (etrans; [exact M3|]; apply flows_buffers). destruct (ob_failed rc3); [by apply Hstop|].
  rewrite Hk1. unfold set_group_header. assert (task_at id r4 = k) as Ek by apply task_put_eq.
  destruct (_ || _); [apply Hstop; etrans; [exact M4|]; apply flows_put; by rewrite Ek|]. rewrite Hk1.
  change (ob_failed OB_SUCCESS) with false. cbn iota. apply Hstop. etrans; [exact M4|]. apply (moves_fill m); [done|done|by change (m_id m) with id; rewrite Ek| | | |done].
  - unfold is_valid, set_push_log_type, set_freeze_ts. cbn [freeze_ts_]. match goal with |- context [if ?b then _ else _] => destruct b end.
    all: unfold set_group_log_checksum, set_prev_log_proposal_id, set_prev_lsn, set_freezed.
    all: match goal with |- test IS_VALID ?x = true => change (test IS_VALID (raise IS_FREEZED (raise IS_VALID k)) = true) end.
    all: by rewrite !test_raise, orb_true_r.
  - unfold set_push_log_type, set_freeze_ts. by match goal with |- context [if ?b then _ else _] => destruct b end.
  - apply (fits_put m k (view r)), Hf.
Qed.

(** The cached logs have to be cleaned first. *)
Definition asks_clean (need_check : bool) (prev_lsn : LSN) (prev_pid : Z) (lsn : LSN) (h : LogGroupEntryHeader.LogGroupEntryHeader) r : bool :=
  fst (is_prev_log_pid_match (LogGroupEntryHeader.log_id_ h) lsn prev_lsn prev_pid r) && need_check
  && (LogGroupEntryHeader.log_id_ h =? s_id (last_submit r) + 1) && negb (LogGroupEntryHeader.proposal_id_ h =? s_pid (last_submit r)).

Lemma flows_send o r : io_task o = None → told_end o = None → flows r (send o r).
Proof.
  intros H1 H2. apply flows_same; [|done|done|done|by apply io_send]. unfold view. rewrite disk_send. unfold applied. cbn [outbox send].
  rewrite omap_app. simpl. rewrite H2, app_nil_r. by destruct o.
Qed.

Lemma push_resp_flows e pid l r : flows r (snd (submit_push_log_resp_ e pid l r)).
Proof. unfold submit_push_log_resp_. destruct (allow_vote e); [|done]. cbn [snd]. destruct (ob_failed _); [done|]. by apply flows_send. Qed.

Lemma need_update_task h k r :
  let '(update, _, _, _, k') := need_update_log_task_ h k r in
  same_log k k' ∧ (update = true → is_valid k = false ∧ k' = raise PRE_FILL k).
Proof.
  unfold need_update_log_task_. destruct (_ || _); [split; [reflexivity|done]|]. destruct (is_valid k) eqn:Hv; cbn [negb].
  - destruct (_ =? _); [|destruct (_ =? _)]; (split; [reflexivity|done]).
  - unfold try_pre_fill. rewrite try_raise_is by (unfold PRE_FILL; lia). split; [|done]. apply same_raise; unfold PRE_FILL, IS_VALID; lia.
Qed.

Lemma receive_task_moves e log_type prev_lsn prev_pid lsn buf buf_len need h c r rc t r1 :
  let m := msg_of prev_lsn prev_pid lsn h in
  Msgs m → start_id r ≤ m_id m → (asks_clean need prev_lsn prev_pid lsn h r = false → fits (view r) m) →
  receive_task XXH64 e log_type prev_lsn prev_pid lsn buf buf_len need h c r = Some (rc, t, r1) → moves r r1.
Proof.
  intros m Hm Hst Hf. unfold receive_task. set (id := LogGroupEntryHeader.log_id_ h). unfold asks_clean in Hf. fold id in Hf.
  destruct (is_prev_log_pid_match _ _ _ _ _) as [pm pe]. cbn [fst] in Hf.
  destruct (pe && _); [by intros [= _ _ <-]|]. destruct ((_ <? id) && _); [by intros [= _ _ <-]|].
  destruct (pm && _ && _ && _); [destruct (negb _ && _); by intros [= _ _ <-]|]. specialize (Hf eq_refl).
  pose proof (need_update_task h (task_at id r) r) as Hk. destruct (need_update_log_task_ _ _ _) as [[[[up ack] lv] pid_ok] k].
  destruct Hk as [Hsame Hup]. destruct up.
  - destruct (Hup eq_refl) as [Hn ->]. destruct (receive_fill _ _ _ _ _ _ _ _ _ _ _ _ _) as [[rc1 r2]|] eqn:E; [|done]. intros [= _ _ <-].
    by apply (receive_fill_moves e log_type prev_lsn prev_pid lsn buf buf_len h c r rc1 r2).
  - assert (moves r (put id k r)) as M by (by apply flows_put). destruct (negb lv); [by intros [= _ _ <-]|].
    destruct (negb pid_ok); [destruct (Lsn.lsn_leb _ _); by intros [= _ _ <-]|]. destruct ack; [|by intros [= _ _ <-]].
    match goal with |- context [submit_push_log_resp_ e ?x ?y ?z] => pose proof (push_resp_flows e x y z) as F; destruct (submit_push_log_resp_ e x y z) as [rc2 r2] end.
    intros [= _ _ <-]. etrans; [exact M|apply F].
Qed.

(** What a message brings, if it can be parsed. *)
Definition brings prev_lsn prev_pid lsn (need : bool) (buf : buf_t) buf_len r : Prop :=
  ∀ h c, parse_group XXH64 ob_crc64 buf buf_len = Some (OB_SUCCESS, h, c) →
    let m := msg_of prev_lsn prev_pid lsn h in Msgs m ∧ (asks_clean need prev_lsn prev_pid lsn h r = false → fits (view r) m).

Lemma receive_log_moves e src_valid log_type prev_lsn prev_pid lsn buf buf_len need r rc t r1 :
  leader_active e = false → Good r → brings prev_lsn prev_pid lsn need buf buf_len r →
  receive_log XXH64 ob_crc64 grow e src_valid log_type prev_lsn prev_pid lsn buf buf_len need r = Some (rc, t, r1) →
  r1 = r ∨ is_truncating_ r = false ∧ moves r r1.
Proof.
  intros Hl I Hb. unfold receive_log. destruct (negb _); [by intros [= _ _ <-]; left|]. destruct (_ || _); [by intros [= _ _ <-]; left|].
  destruct (is_truncating_ r); [by intros [= _ _ <-]; left|]. cbn [orb]. destruct (is_rebuilding_ r); [by intros [= _ _ <-]; left|].
  destruct (negb _); [by intros [= _ _ <-]; left|]. destruct (parse_group _ _ _ _) as [[[rc0 h] c]|] eqn:Ep; [|done].
  destruct (ob_failed rc0) eqn:E0; [by intros [= _ _ <-]; left|]. apply ob_failed_false in E0 as ->. destruct (Hb h c Ep) as [Hm Hf].
  destruct (negb _); [by intros [= _ _ <-]; left|]. destruct (ob_failed (get_log_task _ _)) eqn:Eg; [by intros [= _ _ <-]; left|].
  apply ob_failed_false, log_task_ok in Eg as [_ [Hst _]].
  destruct (receive_task _ _ _ _ _ _ _ _ _ _ _ _) as [[[rc1 t1] r2]|] eqn:E1; [|done]. apply receive_task_moves in E1; [|done|done|done].
  intros E. right. split; [done|]. revert E. destruct (ob_failed rc1); [by intros [= _ _ <-]|].
  pose proof (moves_good _ _ E1 I) as I2. assert (∀ u r3, moves r r3 → Some (OB_SUCCESS, t1, if (u : bool) then handle_committed_log_ ob_crc64 e r3 else r3) = Some (rc, t, r1) → moves r r1) as Hend.
  { intros u r3 M [= _ _ <-]. destruct u; [|done]. etrans; [exact M|]. apply committed_log_flows. by eapply moves_good. }
  destruct (_ =? _); [|by apply (Hend false)]. destruct (handle_next_submit_log_ _ _ _ _ _) as [[u r3]|] eqn:E3; [|done].
  apply Hend. etrans; [exact E1|]. eapply submit_loop_flows; [done|done|exact E3].
Qed.

(** ** Cleaning *)
Lemma flows_clean id k r : s_id (last_submit r) < id → is_valid k = false → flows r (put id k r).
Proof.
  intros Hid Hv. split; [split; [|done|exists []; by rewrite !app_nil_r]|].
  - apply rtc_once. by apply (vs_clean Msgs B id k (view r)).
  - unfold idle. intros Hi. split_and!; [|done|done]. cbn [last_submit put set_window]. rewrite task_put. by case_decide.
Qed.

Lemma clean_one_flows id found r : flows r (snd (clean_one (s_end (last_submit r)) (s_id (last_submit r)) id (found, r))).
Proof.
  unfold clean_one. destruct (is_valid _); [|done]. cbn [negb snd]. destruct (negb _ && _) eqn:E; [|done].
  apply andb_prop in E as [_ E]. apply flows_clean; [lia|done].
Qed.

Lemma clean_loop_flows n id s found r :
  last_submit r = s → flows r (snd (snd (clean_loop n id (s_end s) (s_id s) (found, r)))).
Proof.
  revert id found r. induction n as [|n IH]; intros id found r E; [done|]. simpl. destruct (ob_failed _); [done|]. subst s.
  pose proof (clean_one_flows id found r) as F. unfold clean_one in *.
  destruct (is_valid _); cbn [negb snd] in *; [|by apply IH]. etrans; [exact F|]. apply IH. by destruct (negb _ && _).
Qed.

Lemma clean_cached_flows begin_log_id lsn prev_lsn prev_pid r :
  flows r (snd (clean_cached_log begin_log_id lsn prev_lsn prev_pid r)).
Proof.
  unfold clean_cached_log. destruct (negb _); [done|]. destruct (_ =? _); [done|]. destruct (negb _); [done|]. destruct (negb _); [done|].
  unfold clean_log_. match goal with |- context [clean_loop ?n ?i _ _ (?f, r)] => pose proof (clean_loop_flows n i (last_submit r) f r eq_refl) as F end.
  destruct (clean_loop _ _ _ _ _) as [rc [found r1]]. cbn [snd] in F. destruct (ob_failed rc); [done|].
  destruct found as [[[id scn] end_lsn]|]; [|done]. destruct (_ || _); [done|]. destruct (Lsn.lsn_leb _ _); [|done].
  unfold truncate_lsn_allocator_. destruct (_ || _); [done|]. destruct (LsnAllocator.truncate _ _ _ _) as [rc2 al]. cbn [snd].
  etrans; [exact F|]. apply flows_buffers.
Qed.

(** ** Truncating *)
Lemma small_valid l : val l < 2 ^ 63 → Lsn.is_valid l = true.
Proof. intros Hl. unfold Lsn.is_valid. change Lsn.LOG_INVALID_LSN_VAL with (2 ^ 64 - 1). apply negb_true_iff, Z.eqb_neq. lia. Qed.

Hypothesis base : base_ok B.

Lemma base_id : 0 ≤ s_id B.
Proof. destruct base as [-> | H]; [done|lia]. Qed.

(** The log a slid or stored log is found to follow. *)
Lemma prev_log id r rc p :
  Good r → 1 < id → start_id r ≤ id ≤ s_id (last_submit r) + 1 → get_prev_log_info_ id r = (rc, Some p) →
  ∃ l1 l2, disk (outbox r) = l1 ++ l2 ∧ last_of B l1 = mkSub (p_lsn p) (p_end p) (id - 1) (p_pid p).
Proof.
  intros I Hid Hrange. pose proof base_id. destruct (iv_slid _ _ _ I) as (d1 & d2 & Ed & Hd & Hs & _). cbn [view v_disk v_start v_slid] in *.
  unfold get_prev_log_info_, get_log_task, FIRST_VALID_LOG_ID. rewrite (proj2 (Z.ltb_ge _ _)), (proj2 (Z.eqb_neq _ _)) by lia.
  unfold Lsn.is_valid_log_id. rewrite (proj2 (Z.ltb_lt _ _)) by lia. cbn [negb].
  destruct (Z.ltb_spec (id - 1) (start_id r)) as [Hlt|Hge].
  - change (ob_failed OB_ERR_OUT_OF_LOWER_BOUND) with true. change (OB_ERR_OUT_OF_LOWER_BOUND =? OB_ERR_OUT_OF_LOWER_BOUND) with true. cbn iota.
    destruct (Z.eqb_spec (start_id r) id); [|done]. intros [= _ <-]. exists d1, d2. split; [done|]. cbn [p_lsn p_end p_pid]. injection Hs as -> -> ->.
    revert Hd. destruct (last_of B d1). cbn. intros Hd. f_equal. lia.
  - destruct (_ <=? _); [done|]. change (ob_failed OB_SUCCESS) with false. cbn iota. destruct (is_valid _); [|done]. intros [= _ <-].
    pose proof (iv_chain _ _ _ I) as Hc. cbn [view v_disk] in Hc. pose proof (iv_last _ _ _ I) as Hl. cbn [view v_disk v_sub] in Hl.
    assert (s_id B < start_id r) as HB. { rewrite Ed in Hc. apply chain_app in Hc as [Hc _]. apply chain_mono in Hc. lia. }
    destruct (chain_split B (disk (outbox r)) id) as (l1 & l2 & E & Hi & _ & _); [done|rewrite <- Hl; lia|].
    exists l1, l2. split; [done|]. destruct l1 as [|e l1 _] using rev_ind; [cbn in Hi; lia|]. rewrite last_app in *. cbn in Hi.
    destruct (iv_tasks _ _ _ I e) as (_ & _ & T1 & T2 & T3 & _); [cbn; rewrite E; set_solver|cbn; lia|].
    rewrite Hi in T1, T2, T3. unfold sub_of. cbn [p_lsn p_end p_pid]. rewrite <- T1, <- T2, <- T3, Hi. done.
Qed.

(** The log that will be the last one, for [truncate]. *)
Lemma prev_of_truncate id b pl pp r prev_id p :
  Good r → start_id r ≤ id → 0 < id → val b ≤ val (s_end (last_submit r)) → (id = 1 → val b = 0) →
  fst (is_prev_log_pid_match id b pl pp r) = true → snd (truncate_prev id r) = Some (prev_id, p) →
  id ≤ s_id (last_submit r) + 1 ∧ prev_id = id - 1 ∧
  ∃ l1 l2, disk (outbox r) = l1 ++ l2 ∧ last_of B l1 = mkSub (p_lsn p) b (id - 1) (p_pid p).
Proof.
  intros I Hst Hpos Hb Hfirst. pose proof (start_le Msgs B (view r) I) as Hsl. cbn in Hsl.
  unfold is_prev_log_pid_match, truncate_prev, FIRST_VALID_LOG_ID. destruct (_ || _); [done|]. destruct (Z.eqb_spec 1 id) as [<-|Hn].
  - intros _ [= <- <-]. pose proof (chain_mono _ _ (iv_chain _ _ _ I)) as [Hmono _]. rewrite <- (iv_last _ _ _ I) in Hmono. cbn in Hmono. pose proof base_id.
    split_and!; [lia|done|]. destruct (iv_slid _ _ _ I) as (d1 & d2 & Ed & Hd & _). cbn in Ed, Hd.
    pose proof (iv_chain _ _ _ I) as Hc. cbn in Hc. rewrite Ed in Hc. apply chain_app in Hc as [Hc _]. pose proof (chain_mono _ _ Hc).
    exists [], (d1 ++ d2). split; [done|]. cbn [last_of]. destruct base as [-> | Hbase]; [|lia]. unfold no_log. cbn [p_lsn p_pid].
    f_equal. destruct b as [x]. cbn in Hfirst. by rewrite Hfirst.
  - destruct (get_prev_log_info_ id r) as [rc [q|]] eqn:E; [|done]. destruct (ob_failed rc) eqn:Erc; [done|]. intros Hm [= <- <-].
    cbn [fst] in Hm. apply andb_prop in Hm as [_ He]. apply eqb_lsn in He. destruct (decide (id ≤ s_id (last_submit r) + 1)) as [Hle|Hgt].
    + split_and!; [done|done|]. destruct (prev_log id r rc q I) as (l1 & l2 & E1 & E2); [lia|lia|done|]. exists l1, l2. by rewrite <- He.
    + exfalso. unfold get_prev_log_info_, get_log_task in E. destruct (id <? 1); [done|]. destruct (_ =? id); [done|].
      destruct (negb _); [done|]. destruct (Z.ltb_spec (id - 1) (start_id r)); [lia|]. destruct (_ <=? _); [done|].
      change (ob_failed OB_SUCCESS) with false in E. cbn iota in E. destruct (is_valid _) eqn:Hv; [|done]. injection E as <- <-. cbn [p_end] in He.
      destruct (iv_cached _ _ _ I (id - 1)) as (m & Hm & _ & Hp & Hl); [cbn; lia|done|]. cbn in Hl.
      destruct (place_msg_end _ _ Hp) as (Hend & _). change (v_task (id - 1) (view r)) with (task_at (id - 1) r) in Hend. rewrite He in Hend.
      pose proof (msg_end_val m (msgs_ok m Hm)). destruct (msgs_ok m Hm) as (? & ? & ?). rewrite Hend in Hb. lia.
Qed.

Lemma prev_after_reset id k r : truncate_prev id (put id k r) = truncate_prev id r.
Proof.
  unfold truncate_prev, get_prev_log_info_. destruct (_ =? id); [done|]. rewrite task_put, decide_False by lia. done.
Qed.

(** The log before the truncated one is good enough to be recorded. *)
Lemma prev_recorded l1 l2 l b id pid r :
  Good r → disk (outbox r) = l1 ++ l2 → last_of B l1 = mkSub l b id pid →
  Lsn.is_valid l = true ∧ Lsn.is_valid b = true ∧ (Lsn.OB_INVALID_LOG_ID =? id) = false ∧
  (Lsn.INVALID_PROPOSAL_ID =? pid) && (LogCommit.PALF_INITIAL_LSN_VAL <? val b) = false.
Proof.
  intros I E Hl. pose proof (iv_chain _ _ _ I) as Hc. cbn in Hc. rewrite E in Hc. apply chain_app in Hc as [Hc _].
  pose proof (chain_mono _ _ Hc) as [Hm _]. rewrite Hl in Hm. cbn in Hm. pose proof base_id as Hb. unfold Lsn.OB_INVALID_LOG_ID.
  rewrite (proj2 (Z.eqb_neq (-1) id)) by lia. destruct l1 as [|e l1 _] using rev_ind.
  - cbn in Hl. destruct base as [-> | (_ & V1 & V2 & V3)]; [by injection Hl as <- <- <- <-|]. rewrite Hl in V1, V2, V3. cbn in *.
    split_and!; try done; [by apply small_valid|]. by rewrite (proj2 (Z.eqb_neq _ pid)).
  - rewrite last_app in Hl. injection Hl as <- <- _ <-. destruct (entry_valid Msgs B msgs_ok (view r) e I) as (V1 & V2 & V3).
    { cbn. rewrite E. set_solver. }
    split_and!; try done. by rewrite (proj2 (Z.eqb_neq _ (e_pid e))).
Qed.

(** The positions after the window and the disk were cut off. *)
Definition cut_back (id : Z) (b : LSN) (p : PrevLog) r : Replica :=
  let r := if id <=? s_id (last_submit r)
           then set_cs (LogChecksum.set_accum_checksum (p_accum p) (LogReplica.checksum_ r)) (set_last_submit_log_info_ (p_lsn p) b (id - 1) (p_pid p) r)
           else r in
  if Lsn.lsn_gtb (f_end (max_flushed r)) b
  then let r := truncate_max_flushed_log_info_ (p_lsn p) b (p_pid p) r in set_buf (snd (LogGroupBuffer.truncate b (group_buffer_ r))) r
  else r.

Lemma cut_back_is id b p l1 l2 r r2 :
  Good r → disk (outbox r) = l1 ++ l2 → last_of B l1 = mkSub (p_lsn p) b (id - 1) (p_pid p) → last_submit r2 = last_submit r →
  let r3 := cut_back id b p r2 in
  start_id r3 = start_id r2 ∧ tasks r3 = tasks r2 ∧ outbox r3 = outbox r2 ∧ committed_end r3 = committed_end r2 ∧ last_slide r3 = last_slide r2 ∧
  (is_truncating_ r3 = is_truncating_ r2 ∧ sw_inited r3 = sw_inited r2) ∧ last_truncate_lsn_ r3 = last_truncate_lsn_ r2 ∧ last_submit r3 = last_of B l1 ∧
  f_end (max_flushed r3) = if val b <? val (f_end (max_flushed r2)) then b else f_end (max_flushed r2).
Proof.
  intros I E Hl Hs. destruct (prev_recorded _ _ _ _ _ _ r I E Hl) as (V1 & V2 & V3 & V4). unfold cut_back.
  unfold set_last_submit_log_info_, truncate_max_flushed_log_info_. rewrite V1, V2, V3, V4. cbn [negb orb]. rewrite Hl, Hs.
  assert (id > s_id (last_submit r) → last_submit r = mkSub (p_lsn p) b (id - 1) (p_pid p)) as Hlast.
  { intros Hgt. rewrite <- Hl. pose proof (iv_last _ _ _ I) as HL. cbn in HL. rewrite E, last_of_app in HL.
    pose proof (iv_chain _ _ _ I) as Hc. cbn in Hc. rewrite E in Hc. apply chain_app in Hc as [_ Hc]. rewrite HL.
    destruct l2 as [|x l2]; [done|]. exfalso. destruct Hc as (Hx & _ & _ & Hc). apply chain_mono in Hc as [Hc _]. rewrite HL in Hgt.
    rewrite Hl in Hx. cbn in *. lia. }
  unfold Lsn.lsn_gtb, Lsn.lsn_ltb. destruct (Z.leb_spec id (s_id (last_submit r))).
  - cbn [max_flushed set_cs set_buffers set_sub]. destruct (val b <? _); split_and!; done.
  - destruct (val b <? _); cbn; rewrite ?Hs; split_and!; try done; apply Hlast; lia.
Qed.

Lemma prev_found id b pl pp r : fst (is_prev_log_pid_match id b pl pp r) = true → ∃ x, truncate_prev id r = (OB_SUCCESS, Some x).
Proof.
  unfold is_prev_log_pid_match, truncate_prev. destruct (_ || _); [done|]. destruct (_ =? id); [by eexists|].
  destruct (get_prev_log_info_ id r) as [rc [q|]]; [|done]. destruct (ob_failed rc); [done|]. by eexists.
Qed.

Lemma idle_cut id r : (∀ i, id ≤ i → tasks r !! i = None) → id ≤ s_id (last_submit r) + 1 → idle r.
Proof. intros Ht Hid. unfold idle, task_at. by rewrite Ht. Qed.

(** Where no group waits to be submitted, a truncation cuts off a submitted one. *)
Lemma idle_cut_strict id b p l1 l2 r :
  Good r → disk (outbox r) = l1 ++ l2 → last_of B l1 = mkSub (p_lsn p) b (id - 1) (p_pid p) →
  is_valid (task_at id r) = true → idle r → val b < val (s_end (last_submit r)).
Proof.
  intros I E Hl Hv Hidle. pose proof (iv_last _ _ _ I) as HL. pose proof (iv_chain _ _ _ I) as Hc. cbn in HL, Hc.
  rewrite E, last_of_app in HL. rewrite E in Hc. apply chain_app in Hc as [_ Hc]. rewrite Hl in HL, Hc. destruct l2 as [|x l2].
  - unfold idle in Hidle. rewrite HL in Hidle. cbn in Hidle. replace (id - 1 + 1) with id in Hidle by lia. congruence.
  - destruct Hc as (_ & H1 & H2 & Hc). apply chain_mono in Hc as [_ Hc]. rewrite H1 in H2. rewrite HL. cbn in *. lia.
Qed.

Lemma truncate_step e t pl pp r r1 :
  let b := t_begin_lsn t in
  Good r → val b ≤ val (s_end (last_submit r)) → (t_log_id t = 1 → val b = 0) → truncate e t pl pp r = (OB_SUCCESS, r1) →
  vstep Msgs B (view r) (view r1) ∧ is_truncating_ r1 = true ∧ sw_inited r1 = true ∧ Lsn.is_valid b = true ∧ last_truncate_lsn_ r1 = b ∧ s_end (last_submit r1) = b ∧
  io r1 = io r ++ [TruncateLog b] ∧ disk (outbox r1) = filter (λ x, val (e_lsn x) < val b) (disk (outbox r)) ∧ idle r1 ∧
  (idle r → val b < val (s_end (last_submit r))).
Proof.
  intros b I Hb Hfirst. unfold truncate. set (id := t_log_id t) in *. fold b. destruct (sw_inited r) eqn:Hin; [cbn [negb]|done]. destruct (_ || _ || _) eqn:Ev; [done|].
  apply orb_false_elim in Ev as [_ Hvb]. apply negb_false_iff in Hvb.
  destruct (ob_failed (get_log_task id r)) eqn:Eg; [intros [= Er _]; by rewrite Er in Eg|].
  apply ob_failed_false, log_task_ok in Eg as [Hpos [Hst _]]. apply Z.ltb_lt in Hpos.
  destruct (_ || _ || _ || _) eqn:Em; [done|]. apply orb_false_elim in Em as [Em _]. apply orb_false_elim in Em as [Em _].
  apply orb_false_elim in Em as [Em Htask]. apply negb_false_iff in Em. apply negb_false_iff in Htask. rewrite prev_after_reset.
  destruct (prev_found _ _ _ _ _ Em) as [[prev_id p] Ep]. rewrite Ep.
  destruct (prev_of_truncate id b pl pp r prev_id p I Hst Hpos Hb Hfirst Em) as (Hid & -> & l1 & l2 & E & Hl); [by rewrite Ep|].
  destruct (Lsn.lsn_ltb b _) eqn:Ec; [done|]. apply ltb_ge in Ec. cbn in Ec. destruct (ob_failed (truncate_rc e)) eqn:Et; [intros [= Er _]; by rewrite Er in Et|].
  unfold truncate_window. cbn [start_id send put set_window]. rewrite (proj2 (Z.ltb_ge _ _)) by done. change (ob_failed OB_SUCCESS) with false. cbn iota.
  set (r2 := snd (truncate_lsn_allocator_ _ _ _ _)). intros [= <-]. fold (cut_back id b p r2).
  assert (last_submit r2 = last_submit r ∧ start_id r2 = start_id r ∧ tasks r2 = filter (λ x, fst x < id) (tasks r) ∧ outbox r2 = outbox r ++ [TruncateLog b] ∧
    committed_end r2 = committed_end r ∧ last_slide r2 = last_slide r ∧ max_flushed r2 = max_flushed r ∧
    is_truncating_ r2 = true ∧ last_truncate_lsn_ r2 = b ∧ sw_inited r2 = true) as (A1 & A2 & A3 & A4 & A5 & A6 & A7 & A8 & A9 & A10).
  { unfold r2, truncate_lsn_allocator_. destruct (_ || _); [|destruct (LsnAllocator.truncate _ _ _ _)]; cbn [snd];
      (split_and!; try done; cbn; apply map_filter_insert_not; intros y; cbn; lia). }
  destruct (cut_back_is id b p l1 l2 r r2 I E Hl A1) as (C1 & C2 & C3 & C4 & C5 & (C6 & C10) & C7 & C8 & C9). cbv zeta in *.
  set (r3 := cut_back id b p r2) in *. rewrite A2 in C1. rewrite A3 in C2. rewrite A4 in C3. rewrite A5 in C4. rewrite A6 in C5. rewrite A7 in C9. rewrite A8 in C6. rewrite A9 in C7. rewrite A10 in C10.
  assert (disk (outbox r3) = filter (λ x, val (e_lsn x) < val b) (disk (outbox r))) as Hd by (rewrite C3; unfold disk; by rewrite foldl_app).
  split_and!; try done.
  - eapply eq_ind; [apply (vs_truncate Msgs B id l1 l2 (view r)); [done|done|by rewrite Hl|by rewrite Hl]|]. unfold view at 9. 
    rewrite C1, C2, C4, C5, C8, C9, Hd, Hl. cbn. f_equal. unfold applied. rewrite C3, omap_app. cbn. by rewrite app_nil_r.
  - by rewrite C8, Hl.
  - unfold io. by rewrite C3, omap_app.
  - apply (idle_cut id); [|rewrite C8, Hl; cbn; lia]. intros i Hi. rewrite C2. apply map_lookup_filter_None. right. cbn. lia.
  - intros Hidle. by apply (idle_cut_strict id b p l1 l2 r).
Qed.

(** ** A flush has ended *)
Lemma sub_bound r : Good r → val (s_end (last_submit r)) < 2 ^ 63.
Proof.
  intros I. pose proof (iv_last _ _ _ I) as HL. pose proof (iv_linked _ _ _ I) as Hl. cbn in HL, Hl. rewrite HL.
  destruct (disk (outbox r)) as [|e l _] using rev_ind; [destruct base as [-> | H]; [done|apply H]|].
  apply linked_app in Hl as [_ [(m & Hm & _ & _ & E & _) _]]. rewrite last_app. cbn [s_end sub_of]. rewrite <- E, msg_end_val by auto.
  destruct (msgs_ok m Hm) as (? & ? & ?). lia.
Qed.

Lemma flush_info_flows lsn end_lsn pid r :
  Good r → val end_lsn ≤ val (s_end (last_submit r)) → flows r (inc_update_max_flushed_log_info_ lsn end_lsn pid r).
Proof.
  intros I Hl. unfold inc_update_max_flushed_log_info_. destruct (_ || _); [done|]. pose proof (sub_bound r I). pose proof (iv_flushed _ _ _ I) as Hf. cbn in Hf.
  rewrite small_valid by lia. cbn [andb]. destruct (Lsn.lsn_geb _ _) eqn:Eg; [done|].
  assert (val (f_end (max_flushed r)) ≤ val end_lsn) as Hle.
  { unfold Lsn.lsn_geb, Lsn.lsn_ltb in Eg. apply orb_false_elim in Eg as [Eg _]. lia. }
  split; [split; [|done|exists []; by rewrite !app_nil_r]|done]. apply rtc_once. by apply (vs_flush Msgs B end_lsn (view r)).
Qed.

Lemma freeze_last_flows e id l r : flows r (snd (try_freeze_last_log_task_ e id l r)).
Proof.
  unfold try_freeze_last_log_task_. destruct (_ || _); [done|]. destruct (ob_failed _); [by destruct (_ =? _)|].
  set (p := if negb _ then _ else _). assert (same_log (task_at id r) (snd p)) as Hp.
  { unfold p. destruct (negb _); [done|]. destruct (Lsn.lsn_gtb _ _); [done|]. apply same_try_freeze. }
  destruct p as [rc k]. cbn [snd] in Hp. destruct (is_freezed k); cbn [snd]; apply flows_put; [|done]. etrans; [exact Hp|apply same_set_freeze_ts].
Qed.

Lemma feedback_flows e r r1 :
  leader_active e = false → Good r → feedback_freeze_last_log_ XXH64 ob_crc64 grow e r = Some r1 → flows r r1.
Proof.
  intros Hl I. unfold feedback_freeze_last_log_. destruct (negb _); [by intros [= <-]|]. destruct (LsnAllocator.try_freeze _) as [[rc last] al].
  set (r2 := set_alloc al r). assert (flows r r2) as F2 by apply flows_buffers. destruct (ob_failed rc); [by intros [= <-]|].
  destruct last as [[last_end last_id]|]; [|by intros [= <-]]. destruct (_ <=? _); [by intros [= <-]|].
  pose proof (freeze_last_flows e last_id last_end r2) as F3. destruct (try_freeze_last_log_task_ _ _ _ _) as [[rc3 b3] r3]. cbn [snd] in F3.
  assert (flows r r3) as F by (by etrans). destruct (ob_failed rc3); [by intros [= <-]|].
  destruct (handle_next_submit_log_ _ _ _ _ _) as [[u r4]|] eqn:E4; [|done]. intros [= <-].
  assert (flows r3 r4) as F4 by (eapply submit_loop_flows; [done|by eapply flows_good|exact E4]).
  etrans; [exact F|]. etrans; [exact F4|]. apply committed_log_flows. eapply flows_good; [exact F4|]. by eapply flows_good.
Qed.

Lemma flush_next_flows e id r r1 :
  leader_active e = false → Good r → flush_next XXH64 ob_crc64 grow e id r = Some r1 → flows r r1.
Proof.
  intros Hl I. unfold flush_next. destruct (try_feedback_freeze_log_task_ _ _ _ _ _ _) as [r2|] eqn:E2; [|done].
  assert (flows r r2) as F2.
  { revert E2. unfold try_feedback_freeze_log_task_. destruct (ob_failed _); [by intros [= <-]|]. destruct (is_freezed _); [by intros [= <-]|].
    destruct (_ && _); [by apply feedback_flows|by intros [= <-]]. }
  pose proof (flows_good _ _ F2 I) as I2. destruct (_ =? _).
  - destruct (handle_next_submit_log_ _ _ _ _ _) as [[u r3]|] eqn:E3; [|done]. intros [= <-].
    assert (flows r2 r3) as F3 by (eapply submit_loop_flows; [done|done|exact E3]).
    etrans; [exact F2|]. etrans; [exact F3|]. apply committed_log_flows. by eapply flows_good.
  - intros [= <-]. etrans; [exact F2|]. by apply committed_log_flows.
Qed.

(** Whether the callback is for a log that is being truncated. *)
Definition cut_off (ctx : FlushLogCbCtx) r : bool := is_truncating_ r && Lsn.lsn_gtb (e_end (entry_of ctx)) (last_truncate_lsn_ r).

Lemma flush_check_cases e ctx r :
  let '(rc, can, _, r1) := flush_check e ctx r in
  flows r r1 ∧ last_submit r1 = last_submit r ∧ (cut_off ctx r = true → ob_failed rc || negb can = true).
Proof.
  unfold flush_check, cut_off. cbn [entry_of e_end]. set (noted := put _ _ r).
  assert (flows r noted) as Fn by (by apply flows_put).
  destruct (negb (sw_inited r)); [done|]. destruct (_ || _); [done|]. destruct (_ && _); [done|]. destruct (_ && _); [done|].
  destruct (negb _).
  - destruct (ob_failed (get_log_task _ _)); [done|]. destruct (negb (is_valid _)); [done|]. by destruct (negb _).
  - by destruct (ob_failed (get_log_task _ _)).
Qed.

Lemma leader_flushed_committed leader arb now cm l a :
  LogCommit.committed_end_lsn_ (LogCommit.leader_flushed leader false arb now cm l a) = LogCommit.committed_end_lsn_ a.
Proof.
  unfold LogCommit.leader_flushed. destruct leader; [|done]. unfold LogCommit.try_update_match_lsn_map_. cbv zeta.
  repeat (case_match; try done).
Qed.

Lemma after_flush_flows e ctx r rc r1 :
  leader_active e = false → Good r → (cut_off ctx r = false → val (e_end (entry_of ctx)) ≤ val (s_end (last_submit r))) →
  after_flush_log XXH64 ob_crc64 grow e ctx r = Some (rc, r1) → flows r r1.
Proof.
  intros Hl I Hend. unfold after_flush_log. pose proof (flush_check_cases e ctx r) as Hc.
  destruct (flush_check _ _ _) as [[[rc2 can] reply] r2]. destruct Hc as (F2 & L2 & Hcut). destruct (ob_failed rc2 || negb can); [by intros [= _ <-]|].
  assert (val (e_end (entry_of ctx)) ≤ val (s_end (last_submit r2))) as Hle.
  { rewrite L2. apply Hend. destruct (cut_off ctx r); [by specialize (Hcut eq_refl)|done]. }
  pose proof (flows_good _ _ F2 I) as I2. set (r3 := inc_update_max_flushed_log_info_ _ _ _ r2).
  assert (flows r2 r3) as F3 by (by apply flush_info_flows). set (r4 := with_acks _ r3).
  assert (flows r3 r4) as F4.
  { unfold r4, with_acks. rewrite Hl, leader_flushed_committed. apply flows_acks. }
  pose proof (flows_good _ _ F4 (flows_good _ _ F3 I2)) as I4. rewrite Hl.
  set (p := if role_follower e && _ && _ && _ then _ else _). assert (flows r4 (snd p)) as F5.
  { unfold p. destruct (_ && _ && _ && _); [apply push_resp_flows|done]. }
  destruct p as [rc5 r5]. cbn [snd] in F5. assert (flows r r5) as F.
  { etrans; [exact F2|]. etrans; [exact F3|]. by etrans. }
  destruct (ob_failed rc5); [by intros [= _ <-]|]. destruct (flush_next _ _ _ _ _ _) as [r6|] eqn:E6; [|done]. intros [= _ <-].
  etrans; [exact F|]. eapply flush_next_flows; [done| |exact E6]. by eapply flows_good.
Qed.

Lemma after_truncate_view l r :
  view (snd (after_truncate l r)) = view r ∧ io (snd (after_truncate l r)) = io r ∧
  (is_truncating_ r = true → last_truncate_lsn_ r = l → Lsn.is_valid l = true → sw_inited r = true → is_truncating_ (snd (after_truncate l r)) = false).
Proof.
  unfold after_truncate. destruct (sw_inited r); cbn [negb]; [|done]. destruct (Lsn.is_valid l); cbn [negb]; [|done].
  destruct (is_truncating_ r) eqn:Et; cbn [negb orb]; [|done]. destruct (Lsn.lsn_eqb _ _) eqn:El; cbn [negb]; [done|].
  split_and!; try done. intros _ E _ _. unfold Lsn.lsn_eqb in El. by rewrite E, Z.eqb_refl in El.
Qed.

(** ** A leader says what is committed *)
Lemma committed_info_flows e sv pid ppid l r rc r1 :
  Good r → handle_committed_info ob_crc64 e sv pid ppid l r = Some (rc, r1) → flows r r1.
Proof.
  intros I. unfold handle_committed_info. destruct (negb _); [by intros [= _ <-]|].
  destruct (_ || _ || _ || _) eqn:Ea; [by intros [= _ <-]|]. apply orb_false_elim in Ea as [Ea _]. apply orb_false_elim in Ea as [Ea _].
  apply orb_false_elim in Ea as [_ Hv]. apply negb_false_iff in Hv.
  destruct (_ <? pid); [by intros [= _ <-]|]. destruct (Lsn.lsn_ltb _ _) eqn:Ef; [by intros [= _ <-]|]. apply ltb_ge in Ef.
  destruct (Lsn.lsn_geb _ _); [by intros [= _ <-]|]. destruct (ob_failed _); [by intros [= _ <-]|]. destruct (negb _); [by intros [= _ <-]|].
  destruct (_ =? ppid); [|by intros [= _ <-]]. destruct (Lsn.lsn_eqb _ _); [|done]. intros [= _ <-].
  pose proof (iv_flushed _ _ _ I) as Hf. cbn in Hf. assert (flows r (advance_committed l r)) as F by (apply flows_advance; [done|lia]).
  etrans; [exact F|]. apply committed_log_flows. by eapply flows_good.
Qed.
End crc.
End refine.
End ReplicaRefine.
