(* ===== verification/ReplicaSafety.v ===== *)
(** The log of a replica that follows a leader (or recovers as one), through sequences of
    its handlers: groups received and submitted, callbacks of the log engine in the order of
    its tasks, truncations, cleanings, and what leaders say is committed.  The environment
    of each call is arbitrary but for [leader_active].  Two conditions are on the calls.
    Groups that are received satisfy [brings]: they are among the messages [Msgs], and a
    group placed beyond the submitted logs lies between the groups that are cached before
    and after it.  A truncation begins within the submitted log, and one that fails after
    the task has been reset is not a step: the handler has lost a submitted task then
    ([truncate_failed], and [Run.failed_truncate_blocks] for what follows). *)
From S2P Require Import Prelude Serialization Scn Lsn LsnAllocator Codec LogEntryHeader LogGroupEntryHeader LogGroupEntry LogGroupChecksum LogChecksum LogGroupBuffer LogSubmit LogTask MemberList LogCommit LogReplica ReplicaView ReplicaRefine.
Import Ser Codec LogSubmit LogTask LogReplica ReplicaView ReplicaRefine.

Module ReplicaSafety.
Implicit Types (r : Replica).

(** A replica, and how many tasks of the log engine have called back. *)
Record Node : Type := mkNode { rep : Replica; acked : nat }.
Implicit Types (n : Node).
Definition pending n : list Out := drop (acked n) (io (rep n)).

(** A replica that has nothing yet: its log will follow [B]. *)
Definition starts (B : Submitted) r : Prop :=
  start_id r = s_id B + 1 ∧ tasks r = ∅ ∧ last_submit r = B ∧ f_end (max_flushed r) = s_end B ∧ committed_end r = s_end B ∧
  (d_lsn (last_slide r), d_end (last_slide r), d_pid (last_slide r)) = (s_lsn B, s_end B, s_pid B) ∧ is_truncating_ r = false ∧ outbox r = [].

Section system.
Context (XXH64 : list Z → Z → Z) (ob_crc64 : Z → list Z → Z) (grow : nat → bool).
Context (Msgs : Msg → Prop) (B : Submitted).

Inductive step : Node → Node → Prop :=
| st_receive e src_valid log_type prev_lsn prev_pid lsn buf buf_len need r a rc t r1 :
    leader_active e = false → brings Msgs ob_crc64 XXH64 prev_lsn prev_pid lsn need buf buf_len r →
    receive_log XXH64 ob_crc64 grow e src_valid log_type prev_lsn prev_pid lsn buf buf_len need r = Some (rc, t, r1) →
    step (mkNode r a) (mkNode r1 a)
| st_clean id lsn prev_lsn prev_pid r a rc r1 :
    clean_cached_log id lsn prev_lsn prev_pid r = (rc, r1) → step (mkNode r a) (mkNode r1 a)
| st_truncate e t prev_lsn prev_pid r a r1 :
    val (t_begin_lsn t) ≤ val (s_end (last_submit r)) → (t_log_id t = 1 → val (t_begin_lsn t) = 0) →
    truncate e t prev_lsn prev_pid r = (OB_SUCCESS, r1) → step (mkNode r a) (mkNode r1 a)
| st_refused e t prev_lsn prev_pid r a rc :
    truncate e t prev_lsn prev_pid r = (rc, r) → step (mkNode r a) (mkNode r a)
| st_flushed e ctx r a rc r1 :
    leader_active e = false → io r !! a = Some (FlushLog ctx) →
    after_flush_log XXH64 ob_crc64 grow e ctx r = Some (rc, r1) → step (mkNode r a) (mkNode r1 (S a))
| st_truncated l r a rc r1 :
    io r !! a = Some (TruncateLog l) → after_truncate l r = (rc, r1) → step (mkNode r a) (mkNode r1 (S a))
| st_committed e server_valid prev_log_id prev_pid l r a rc r1 :
    handle_committed_info ob_crc64 e server_valid prev_log_id prev_pid l r = Some (rc, r1) → step (mkNode r a) (mkNode r1 a).

(** ** The tasks the engine still has *)
Definition written r (o : Out) : Prop := ∃ ctx, o = FlushLog ctx ∧ entry_of ctx ∈ disk (outbox r).
Definition to_cut r (l : LSN) (o : Out) : Prop :=
  ∃ ctx, o = FlushLog ctx ∧ (val (e_end (entry_of ctx)) ≤ val l → entry_of ctx ∈ disk (outbox r)).
(** A truncation that was followed by another one further back. *)
Definition overtaken (l : LSN) (o : Out) : Prop := ∃ l', o = TruncateLog l' ∧ val l < val l'.
Record NodeInv n : Prop := {
  ni_view : Inv Msgs B (view (rep n));
  ni_acked : (acked n ≤ length (io (rep n)))%nat;
  ni_writing : is_truncating_ (rep n) = false → ∀ o, o ∈ pending n → written (rep n) o;
  ni_cutting : is_truncating_ (rep n) = true →
    let l := last_truncate_lsn_ (rep n) in
    idle (rep n) ∧ s_end (last_submit (rep n)) = l ∧ Lsn.is_valid l = true ∧ sw_inited (rep n) = true ∧
    ∃ before, pending n = before ++ [TruncateLog l] ∧ ∀ o, o ∈ before → to_cut (rep n) l o ∨ overtaken l o
}.

Hypothesis msgs_ok : ∀ m, Msgs m → msg_ok m.
Hypothesis base : base_ok B.

Lemma inv_starts r : starts B r → NodeInv (mkNode r 0).
Proof.
  intros (H1 & H2 & H3 & H4 & H5 & H6 & H7 & H8). unfold io, pending. split; cbn [rep acked].
  - split; unfold view; rewrite ?H1, ?H2, ?H3, ?H4, ?H5, ?H6, ?H8; cbn; try done; [by intros e ?%elem_of_nil|].
    exists [], []. cbn. split_and!; try done. lia.
  - lia.
  - intros _ o. unfold pending, io. cbn. rewrite H8. by intros ?%elem_of_nil.
  - congruence.
Qed.

(** A handler without truncation only adds written groups to the tasks. *)
Lemma inv_moves r r1 a : is_truncating_ r = false → moves Msgs B r r1 → NodeInv (mkNode r a) → NodeInv (mkNode r1 a).
Proof.
  intros Ht M [I Ha Hw _]. pose proof M as [_ (E1 & _) (new & E4 & E5)]. cbn in *. split; cbn.
  - by eapply moves_good.
  - rewrite E4, length_app. lia.
  - intros _ o. unfold pending. cbn. rewrite E4, drop_app_le by done. unfold written. rewrite E5. intros [Ho|Ho]%elem_of_app.
    + destruct (Hw Ht o Ho) as (ctx & -> & Hin). exists ctx. split; [done|set_solver].
    + apply list_elem_of_fmap in Ho as (ctx & -> & Hin). exists ctx. split; [done|]. apply elem_of_app. right. by apply list_elem_of_fmap_2.
  - congruence.
Qed.

Lemma inv_flows r r1 a : flows Msgs B r r1 → NodeInv (mkNode r a) → NodeInv (mkNode r1 a).
Proof.
  intros [M Hidle] N. destruct (is_truncating_ r) eqn:Ht; [|by eapply inv_moves]. destruct N as [I Ha _ Hc]. cbn in *.
  destruct (Hc Ht) as (Hi & He & Hv & Hin & before & Hp & Hb). destruct (Hidle Hi) as (Hi1 & Hs & Hio).
  pose proof M as [_ (E1 & E2 & E3) (new & E4 & E5)]. assert (new = []) as ->.
  { rewrite Hio in E4. apply (f_equal length) in E4. rewrite length_app, length_fmap in E4. destruct new; [done|cbn in E4; lia]. }
  cbn in E5. rewrite app_nil_r in E5. split; cbn.
  - by eapply moves_good.
  - by rewrite Hio.
  - congruence.
  - intros _. rewrite E2, Hs, E3. split_and!; try done. exists before. unfold pending, to_cut in *. cbn in *. by rewrite Hio, E5.
Qed.

Lemma next_pending r a o : io r !! a = Some o → pending (mkNode r a) = o :: pending (mkNode r (S a)).
Proof. intros E. unfold pending. cbn. by apply drop_S. Qed.

(** The first pending task, if it is a flush, calls back. *)
Lemma inv_ack r a ctx : io r !! a = Some (FlushLog ctx) → NodeInv (mkNode r a) → NodeInv (mkNode r (S a)).
Proof.
  intros E [I Ha Hw Hc]. pose proof (next_pending _ _ _ E) as Hp. rewrite Hp in Hw, Hc. split; cbn in *; [done| | |].
  - apply lookup_lt_Some in E. lia.
  - intros Ht o Ho. apply Hw; set_solver.
  - intros Ht. destruct (Hc Ht) as (Hi & He & Hv & Hin & before & Hb & Hcut). split_and!; try done.
    destruct before as [|o before]; [done|]. injection Hb as <- Hb. exists before. split; [done|]. intros o Ho. apply Hcut. set_solver.
Qed.

Lemma flush_in_log r a ctx :
  io r !! a = Some (FlushLog ctx) → NodeInv (mkNode r a) → cut_off ctx r = false → val (e_end (entry_of ctx)) ≤ val (s_end (last_submit r)).
Proof.
  intros E [I _ Hw Hc] Hcut. pose proof (next_pending _ _ _ E) as Hp. rewrite Hp in Hw, Hc. cbn [rep acked] in *.
  assert (entry_of ctx ∈ disk (outbox r) → val (e_end (entry_of ctx)) ≤ val (s_end (last_submit r))) as Hend.
  { intros Hin. pose proof (chain_bounds _ _ _ (iv_chain _ _ _ I) Hin) as Hb. rewrite <- (iv_last _ _ _ I) in Hb. apply Hb. }
  destruct (is_truncating_ r) eqn:Ht.
  - destruct (Hc eq_refl) as (_ & He & _). rewrite He. unfold cut_off in Hcut. rewrite Ht in Hcut. cbn in Hcut. by apply ltb_ge in Hcut.
  - apply Hend. destruct (Hw eq_refl (FlushLog ctx)) as (ctx' & [= <-] & Hin); [set_solver|done].
Qed.

Lemma inv_truncate_node e t pl pp r a r1 :
  val (t_begin_lsn t) ≤ val (s_end (last_submit r)) → (t_log_id t = 1 → val (t_begin_lsn t) = 0) →
  truncate e t pl pp r = (OB_SUCCESS, r1) → NodeInv (mkNode r a) → NodeInv (mkNode r1 a).
Proof.
  intros Hb H1 E [I Ha Hw Hc]. cbn in *.
  destruct (truncate_step Msgs B msgs_ok ob_crc64 base e t pl pp r r1 I Hb H1 E) as (V & T1 & T2 & T3 & T4 & T5 & T6 & T7 & T8 & T9).
  assert (∀ ctx, entry_of ctx ∈ disk (outbox r) → val (e_end (entry_of ctx)) ≤ val (t_begin_lsn t) → entry_of ctx ∈ disk (outbox r1)) as Hkeep.
  { intros ctx Hin Hle. rewrite T7. apply list_elem_of_filter. split; [|done]. pose proof (chain_bounds _ _ _ (iv_chain _ _ _ I) Hin). lia. }
  split; cbn.
  - by eapply inv_vstep.
  - rewrite T6, length_app. lia.
  - congruence.
  - intros _. rewrite T4. split_and!; try done. exists (pending (mkNode r a)). split; [unfold pending; cbn; by rewrite T6, drop_app_le|].
    intros o Ho. destruct (is_truncating_ r) eqn:Ht.
    + destruct (Hc eq_refl) as (Hi & He & Hv & Hin & before & Hp & Hcut). specialize (T9 Hi). rewrite He in T9. unfold pending in Ho. cbn in Ho, Hp. rewrite Hp in Ho.
      apply elem_of_app in Ho as [Ho| ->%list_elem_of_singleton]; [|right; by exists (last_truncate_lsn_ r)].
      destruct (Hcut o Ho) as [(ctx & -> & Hctx)|(l' & -> & Hl')]; [left|right; exists l'; split; [done|lia]].
      exists ctx. split; [done|]. intros Hle. apply Hkeep; [apply Hctx; lia|done].
    + left. destruct (Hw eq_refl o Ho) as (ctx & -> & Hin). exists ctx. split; [done|]. by apply Hkeep.
Qed.

(** The callback of a truncation that is not the last one does nothing. *)
Lemma after_truncate_stale l r : val l ≠ val (last_truncate_lsn_ r) → after_truncate l r = (fst (after_truncate l r), r).
Proof.
  intros Hl. unfold after_truncate, Lsn.lsn_eqb. destruct (negb _); [done|]. destruct (negb _); [done|].
  rewrite (proj2 (Z.eqb_neq _ _)) by congruence. by destruct (is_truncating_ r).
Qed.

Lemma inv_truncated l r a rc r1 :
  io r !! a = Some (TruncateLog l) → after_truncate l r = (rc, r1) → NodeInv (mkNode r a) → NodeInv (mkNode r1 (S a)).
Proof.
  intros E Et [I Ha Hw Hc]. pose proof (next_pending _ _ _ E) as Hp. rewrite Hp in Hw, Hc. cbn [rep acked] in *.
  destruct (after_truncate_view l r) as (A1 & A2 & A3). rewrite Et in A1, A2, A3. cbn [snd] in *.
  destruct (is_truncating_ r) eqn:Ht; [|destruct (Hw eq_refl (TruncateLog l)) as (? & ? & _); [set_solver|done]].
  destruct (Hc eq_refl) as (Hi & He & Hv & Hin & before & Hb & Hcut). destruct before as [|o before].
  - injection Hb as -> Hb. specialize (A3 eq_refl eq_refl Hv Hin). split; cbn; [by rewrite A1| | |congruence].
    + rewrite A2. apply lookup_lt_Some in E. lia.
    + intros _ o. unfold pending in Hb |- *. cbn in Hb |- *. rewrite A2, Hb. by intros ?%elem_of_nil.
  - injection Hb as <- Hb. destruct (Hcut (TruncateLog l)) as [(? & ? & _)|(l' & [= <-] & Hl)]; [set_solver|done|].
    rewrite after_truncate_stale in Et by lia. injection Et as _ <-. split; cbn.
    + done.
    + apply lookup_lt_Some in E. lia.
    + congruence.
    + intros _. split_and!; try done. exists before. split; [done|]. intros o Ho. apply Hcut. set_solver.
Qed.

Lemma inv_step n n1 : step n n1 → NodeInv n → NodeInv n1.
Proof.
  intros [] N; pose proof (ni_view _ N) as I; cbn in I.
  - destruct (receive_log_moves Msgs B msgs_ok ob_crc64 XXH64 grow e src_valid log_type prev_lsn prev_pid lsn buf buf_len need r rc t r1)
      as [-> | [Ht M]]; try done. by eapply inv_moves.
  - eapply inv_flows; [|done]. assert (r1 = snd (rc, r1)) as -> by done. rewrite <- H. apply clean_cached_flows.
  - by eapply inv_truncate_node.
  - done.
  - assert (flows Msgs B r r1) as F.
    { eapply after_flush_flows; try done. by eapply flush_in_log. }
    eapply inv_ack; [|by eapply inv_flows]. destruct F as [[_ _ (new & -> & _)] _]. by apply lookup_app_l_Some.
  - by eapply inv_truncated.
  - eapply inv_flows; [|done]. by eapply committed_info_flows.
Qed.

Lemma inv_steps n n1 : rtc step n n1 → NodeInv n → NodeInv n1.
Proof. induction 1; eauto using inv_step. Qed.

Lemma step_views n n1 : step n n1 → NodeInv n → rtc (vstep Msgs B) (view (rep n)) (view (rep n1)).
Proof.
  intros [] N; pose proof (ni_view _ N) as I; cbn in I; cbn [rep].
  - destruct (receive_log_moves Msgs B msgs_ok ob_crc64 XXH64 grow e src_valid log_type prev_lsn prev_pid lsn buf buf_len need r rc t r1)
      as [-> | [Ht M]]; try done. apply M.
  - assert (r1 = snd (rc, r1)) as -> by done. rewrite <- H. apply clean_cached_flows.
  - apply rtc_once. by eapply (truncate_step Msgs B msgs_ok ob_crc64 base).
  - done.
  - eapply after_flush_flows; try done. by eapply flush_in_log.
  - destruct (after_truncate_view l r) as (A1 & _). rewrite H0 in A1. cbn in A1. by rewrite A1.
  - by eapply committed_info_flows.
Qed.

Lemma steps_forward n n1 : rtc step n n1 → NodeInv n → forward (view (rep n)) (view (rep n1)).
Proof.
  induction 1 as [n|n1 n2 n3 H1 _ IH]; intros N; [done|]. etrans; [|apply IH; by eapply inv_step].
  eapply vsteps_forward; [done|by apply step_views|apply N].
Qed.

(** ** What holds in every reachable state *)

(** A truncation that fails loses at most the task it was called for. *)
Lemma truncate_failed e t pl pp r rc r1 :
  truncate e t pl pp r = (rc, r1) → rc ≠ OB_SUCCESS → r1 = r ∨ r1 = put (t_log_id t) (reset (task_at (t_log_id t) r)) r.
Proof.
  unfold truncate. destruct (negb _); [by intros [= _ <-]; left|]. destruct (_ || _ || _); [by intros [= _ <-]; left|].
  destruct (ob_failed (get_log_task _ r)) eqn:Eg; [by intros [= _ <-]; left|]. apply ob_failed_false, log_task_ok in Eg as [_ [Hst _]].
  destruct (_ || _ || _ || _); [by intros [= _ <-]; left|]. destruct (truncate_prev _ _) as [rc0 [[prev_id p]|]]; [|by intros [= _ <-]; right].
  destruct (Lsn.lsn_ltb _ _); [by intros [= _ <-]; right|]. destruct (ob_failed (truncate_rc e)); [by intros [= _ <-]; right|].
  unfold truncate_window. cbn [start_id send put set_window]. rewrite (proj2 (Z.ltb_ge _ _)) by done.
  change (ob_failed OB_SUCCESS) with false. cbn iota. by intros [= <- _].
Qed.

(** C8. The log of a replica that is not an active leader is sound.  It holds after any
    sequence of its handlers in which received groups satisfy [brings] (the message is one
    of [Msgs], and a group beyond the submitted logs fits between the cached ones), the
    engine's callbacks come in the order of its tasks, and a truncation begins within the
    submitted log (at 0 for log 1) and is refused without effect or succeeds (it may follow
    one that is still running): the groups the log engine holds are contiguous in ids and LSNs from the
    first log on, every group came as a message whose previous log is the one before it, the
    last submitted log is the last of them, nothing beyond it is taken as committed or
    flushed, and the tasks of the window agree with the groups that were written.  A
    truncation that fails in such a state has no effect, or it has lost the task of the log
    it should have cut off, and nothing else; the run ends there. *)
Theorem replica_log_sound r0 n :
  starts B r0 → rtc step (mkNode r0 0) n →
  let r := rep n in
  let log := disk (outbox r) in
  chain B log ∧ linked Msgs B log ∧ last_submit r = last_of B log ∧
  val (committed_end r) ≤ val (s_end (last_submit r)) ∧ val (f_end (max_flushed r)) ≤ val (s_end (last_submit r)) ∧
  (∀ x, x ∈ log → start_id r ≤ e_id x → stored (task_at (e_id x) r) x) ∧
  ∀ e t pl pp rc r1, truncate e t pl pp r = (rc, r1) → rc ≠ OB_SUCCESS →
    r1 = r ∨ r1 = put (t_log_id t) (reset (task_at (t_log_id t) r)) r.
Proof.
  intros Hs Hr r log. pose proof (ni_view _ (inv_steps _ _ Hr (inv_starts r0 Hs))) as I.
  split_and!; [apply (iv_chain _ _ _ I)|apply (iv_linked _ _ _ I)|apply (iv_last _ _ _ I)|apply (iv_committed _ _ _ I)|apply (iv_flushed _ _ _ I)| |].
  - apply (iv_tasks _ _ _ I).
  - intros e t pl pp rc r1. apply truncate_failed.
Qed.

(** C9. Committed logs stay: from a reachable state on, the committed end never goes back,
    a group on the disk below it is never cut off, and what the file system was told is
    only added to. *)
Theorem committed_logs_stay r0 n n1 :
  starts B r0 → rtc step (mkNode r0 0) n → rtc step n n1 →
  val (committed_end (rep n)) ≤ val (committed_end (rep n1)) ∧
  (∀ x, x ∈ disk (outbox (rep n)) → val (e_end x) ≤ val (committed_end (rep n)) → x ∈ disk (outbox (rep n1))) ∧
  applied (outbox (rep n)) `prefix_of` applied (outbox (rep n1)).
Proof. intros Hs Hr Hr1. apply (steps_forward _ _ Hr1), (inv_steps _ _ Hr), inv_starts, Hs. Qed.

(** C10. What the file system is told, log by log, is a prefix of the log on the disk, in
    its order and without a gap, and ends where the window begins; all of it is committed
    and flushed. *)
Theorem applied_logs_prefix r0 n :
  starts B r0 → rtc step (mkNode r0 0) n →
  let r := rep n in
  ∃ done_ rest, disk (outbox r) = done_ ++ rest ∧ applied (outbox r) = told <$> done_ ∧ start_id r = s_id (last_of B done_) + 1 ∧
    ∀ x, x ∈ done_ → val (e_end x) ≤ val (committed_end r) ∧ val (e_end x) ≤ val (f_end (max_flushed r)).
Proof.
  intros Hs Hr r. pose proof (ni_view _ (inv_steps _ _ Hr (inv_starts r0 Hs))) as I. destruct (iv_slid _ _ _ I) as (l1 & l2 & E & H1 & _ & H3 & H4 & H5).
  cbn in *. exists l1, l2. split_and!; [done|done|fold r in H1; lia|]. intros x Hx. pose proof (iv_chain _ _ _ I) as Hc. cbn in Hc. rewrite E in Hc.
  apply chain_app in Hc as [Hc _]. pose proof (chain_bounds _ _ _ Hc Hx). fold r in H4, H5. lia.
Qed.

(** C11. Two replicas that were sent logs by the same leaders agree on the log before any
    log they share: if the LSN and the proposal id of a log determine the group a leader
    sends, then two groups on two disks with the same LSN and proposal id are the same
    group and have the same groups before them. *)
Theorem replicas_match r0 r0' n n' l1 l2 x y t1 t2 :
  (∀ m m', Msgs m → Msgs m' → m_lsn m = m_lsn m' → m_pid m = m_pid m' → m = m') →
  starts B r0 → rtc step (mkNode r0 0) n → starts B r0' → rtc step (mkNode r0' 0) n' →
  disk (outbox (rep n)) = l1 ++ x :: t1 → disk (outbox (rep n')) = l2 ++ y :: t2 →
  e_lsn x = e_lsn y → e_pid x = e_pid y → l1 ++ [x] = l2 ++ [y].
Proof.
  intros Hu H1 R1 H2 R2 E1 E2 Hl Hp. pose proof (ni_view _ (inv_steps _ _ R1 (inv_starts r0 H1))) as I1.
  pose proof (ni_view _ (inv_steps _ _ R2 (inv_starts r0' H2))) as I2.
  assert (∀ r l z t, Inv Msgs B (view r) → disk (outbox r) = l ++ z :: t → chain B (l ++ [z]) ∧ linked Msgs B (l ++ [z])) as Hpre.
  { intros r l z t I E. pose proof (iv_chain _ _ _ I) as Hc. pose proof (iv_linked _ _ _ I) as Hk. cbn in Hc, Hk. rewrite E in Hc, Hk.
    rewrite cons_middle, app_assoc in Hc, Hk. apply chain_app in Hc. apply linked_app in Hk. tauto. }
  destruct (Hpre _ _ _ _ I1 E1) as [C1 L1]. destruct (Hpre _ _ _ _ I2 E2) as [C2 L2].
  apply (linked_matching Msgs B msgs_ok l1 l2 x y); try done. by apply base_id.
Qed.
End system.

(** ** Sliding ends *)
Section ends.
Context (ob_crc64 : Z → list Z → Z).

Lemma sliding_cb_tasks e k r : tasks (snd (sliding_cb ob_crc64 e k r)) = tasks r ∧ start_id (snd (sliding_cb ob_crc64 e k r)) = start_id r.
Proof.
  unfold sliding_cb. destruct (negb _); [done|]. destruct (negb _); [done|]. destruct (LogChecksum.verify_accum_checksum _ _ _ _) as [rc c].
  destruct (ob_failed rc); [done|]. cbn [snd]. unfold try_update_last_slide_log_info_. by destruct (_ || _ || _ || _ || _).
Qed.

(** A round after which the loop goes on takes one task out of the window. *)
Lemma commit_once_shrinks e r rc r1 : commit_once ob_crc64 e r = (rc, true, r1) → size (tasks r) = S (size (tasks r1)).
Proof.
  unfold commit_once, get_log_task. rewrite Z.ltb_irrefl. destruct (negb (Lsn.is_valid_log_id _)); [done|].
  destruct (_ <=? _); [done|]. change (ob_failed OB_SUCCESS) with false. cbn iota. destruct (is_valid (task_at _ r)) eqn:Hv; [|done]. cbn [negb].
  destruct (_ && _ && _ && _); [|done]. destruct (try_pre_slide _) as [tagged k]. destruct tagged; [|done]. set (r2 := put _ k r).
  pose proof (sliding_cb_tasks e k r2) as [Ht Hs]. destruct (sliding_cb _ _ _ _) as [rc2 r3]. cbn [snd] in *. destruct (ob_failed rc2); [done|]. intros [= _ <-].
  assert (is_Some (tasks r !! start_id r)) as [k0 E0].
  { unfold task_at in Hv. destruct (tasks r !! start_id r); [done|]. by vm_compute in Hv. }
  unfold slide_out. cbn [tasks set_window]. rewrite Hs, Ht. cbn [r2 put tasks set_window start_id]. rewrite delete_insert_eq.
  rewrite <- (insert_delete_id _ _ _ E0) at 1. apply map_size_insert_None, lookup_delete_eq.
Qed.

(** Sliding out ends: the loop of [handle_committed_log_] stops by itself within one
    round more than there are tasks in the window, whatever the callback answers. *)
Theorem committed_loop_ends e r fuel : (size (tasks r) < fuel)%nat → commit_loop ob_crc64 fuel e r = commit_loop ob_crc64 (S (size (tasks r))) e r.
Proof.
  revert r. induction fuel as [|fuel IH]; intros r Hf; [lia|]. cbn [commit_loop]. pose proof (commit_once_shrinks e r) as Hs.
  destruct (commit_once ob_crc64 e r) as [[rc [|]] r1]; [|done]. cbn [andb]. destruct (ob_failed rc); [done|]. cbn [negb].
  rewrite (Hs _ _ eq_refl). apply IH. rewrite (Hs _ _ eq_refl) in Hf. lia.
Qed.
End ends.

(** * Witness: two logs are received, the first is committed, the second replaced by a new leader *)
Module Run.
Definition XX : list Z → Z → Z := LogEntryHeader.sum_hash.
Definition CRC : Z → list Z → Z := LogEntryHeader.sum_crc.
Definition GROW (_ : nat) : bool := true.
Definition header (id pid accum : Z) : LogGroupEntryHeader.LogGroupEntryHeader :=
  LogGroupEntryHeader.update_header_checksum XX
    (LogGroupEntryHeader.mkGEH LogGroupEntryHeader.MAGIC LogGroupEntryHeader.get_version_ 35 pid (Lsn.mkLSN 0) (Scn.mkSCN 9) accum id 0).
Definition bytes (id pid accum : Z) : list Z :=
  LogGroupEntry.group_bytes (header id pid accum) (LogGroupChecksum.body [LogGroupChecksum.one]).
(** Log [id] begins at 91 * (id - 1). *)
Definition at_ (id : Z) : LSN := Lsn.mkLSN (91 * (id - 1)).
Definition accum_of (id : Z) : Z := match id with 1 => CRC 0 (be_bytes 8 6) | _ => 0 end.
Definition follower (pid : Z) : Env :=
  mkEnv true false false true false true true pid true false false (LogCommit.mkConfig true [] 0 [] 0 [] no_lsn 0 0) 5 8 0 0 0.
Definition first : Replica :=
  mkRep true MemberList.no_addr 1 ∅ (LsnAllocator.mkAlloc (LsnAllocator.meta true 0 0 0) 0 0 true)
    (LogGroupBuffer.mkGB (Lsn.mkLSN 0) (Lsn.mkLSN 0) (Lsn.mkLSN 0) 512 512 1 (replicate 512 0) true)
    (LogChecksum.mkCS true 1 0 0 0) no_log (mkFl (Lsn.mkLSN 0) (Lsn.mkLSN 0) Lsn.INVALID_PROPOSAL_ID)
    (mkSl 0 Scn.min_scn (Lsn.mkLSN 0) (Lsn.mkLSN 0) Lsn.INVALID_PROPOSAL_ID 0) (Lsn.mkLSN 0) ∅ false no_lsn false no_lsn false [].
Definition prev_at (id : Z) : LSN := if id =? 1 then no_lsn else at_ (id - 1).
Definition prev_of (id : Z) : Z := if id =? 1 then Lsn.INVALID_PROPOSAL_ID else 1.
Definition receive (id pid : Z) (need : bool) r : option (Z * TruncateLogInfo * Replica) :=
  receive_log XX CRC GROW (follower pid) true PUSH_LOG (prev_at id) (prev_of id) (at_ id) (Some (bytes id pid (accum_of id))) 91 need r.
Definition flush (pid : Z) (a : nat) r : option (Z * Replica) :=
  match io r !! a with Some (FlushLog c) => after_flush_log XX CRC GROW (follower pid) c r | _ => None end.
Definition msg (id pid : Z) : Msg := mkMsg (prev_at id) (prev_of id) (at_ id) id pid 35 (Scn.mkSCN 9).
Definition sent (m : Msg) : Prop := m ∈ [msg 1 1; msg 2 1; msg 2 3].
Definition state {A} (x : option (A * Replica)) : Replica := match x with Some (_, r) => r | None => first end.

Definition s1 : Replica := Eval vm_compute in state (receive 1 1 false first).
Definition s2 : Replica := Eval vm_compute in state (receive 2 1 true s1).
Definition s3 : Replica := Eval vm_compute in state (flush 1 0 s2).
Definition s4 : Replica := Eval vm_compute in state (handle_committed_info CRC (follower 1) true 1 1 (at_ 2) s3).
Definition s5 : Replica := Eval vm_compute in state (receive 2 3 true s4).
Definition s6 : Replica := Eval vm_compute in snd (truncate (follower 3) (mkTrunc TRUNCATE_LOG 2 (at_ 2) 1) (at_ 1) 1 s5).
Definition s7 : Replica := Eval vm_compute in state (flush 3 1 s6).
Definition s8 : Replica := Eval vm_compute in snd (after_truncate (at_ 2) s7).
Definition s9 : Replica := Eval vm_compute in state (receive 2 3 false s8).

Lemma sent_ok m : sent m → msg_ok m.
Proof. unfold sent. rewrite !elem_of_cons, elem_of_nil. intros [-> |[-> |[-> |[]]]]; unfold msg_ok; cbn; lia. Qed.

Lemma sent_once m m' : sent m → sent m' → m_lsn m = m_lsn m' → m_pid m = m_pid m' → m = m'.
Proof. unfold sent. rewrite !elem_of_cons, !elem_of_nil. intros [-> |[-> |[-> |[]]]] [-> |[-> |[-> |[]]]]; done. Qed.

Lemma first_starts : starts no_log first.
Proof. by split_and!. Qed.

(** Nothing is cached in these states when a message arrives. *)
Lemma fits_uncached r m : bool_decide (map_Forall (λ id _, id ≤ s_id (last_submit r)) (tasks r)) = true → fits (view r) m.
Proof.
  rewrite bool_decide_eq_true. intros Hall id Hid Hv. exfalso. unfold v_task in Hv. cbn in Hid, Hv.
  destruct (tasks r !! id) as [k|] eqn:E; [|by vm_compute in Hv]. pose proof (Hall _ _ E). cbn in *. lia.
Qed.

Lemma receives id pid need r r1 a rc t :
  bool_decide (map_Forall (λ id _, id ≤ s_id (last_submit r)) (tasks r)) = true → sent (msg id pid) →
  (∃ c, parse_group XX CRC (Some (bytes id pid (accum_of id))) 91 = Some (OB_SUCCESS, header id pid (accum_of id), c) ∧
        msg_of (prev_at id) (prev_of id) (at_ id) (header id pid (accum_of id)) = msg id pid) →
  receive id pid need r = Some (rc, t, r1) → step XX CRC GROW sent (mkNode r a) (mkNode r1 a).
Proof.
  intros Hf Hs (c & Ep & Em) E. eapply (st_receive _ _ _ _ (follower pid)); [done| |exact E].
  intros h c' E'. rewrite Ep in E'. injection E' as <- _. rewrite Em. split; [done|]. intros _. by apply fits_uncached.
Qed.

Lemma run1 : rtc (step XX CRC GROW sent) (mkNode first 0) (mkNode s4 1).
Proof.
  apply (rtc_l _ _ (mkNode s1 0)). { eapply (receives 1 1 false); [vm_compute; reflexivity|unfold sent; set_solver|eexists; split; vm_compute; reflexivity|vm_compute; reflexivity]. }
  apply (rtc_l _ _ (mkNode s2 0)). { eapply (receives 2 1 true); [vm_compute; reflexivity|unfold sent; set_solver|eexists; split; vm_compute; reflexivity|vm_compute; reflexivity]. }
  apply (rtc_l _ _ (mkNode s3 1)). { eapply (st_flushed _ _ _ _ (follower 1)); [done|vm_compute; reflexivity|vm_compute; reflexivity]. }
  apply rtc_once. eapply (st_committed _ _ _ _ (follower 1) true 1 1 (at_ 2)). vm_compute. reflexivity.
Qed.

Lemma run2 : rtc (step XX CRC GROW sent) (mkNode s4 1) (mkNode s9 3).
Proof.
  apply (rtc_l _ _ (mkNode s5 1)). { eapply (receives 2 3 true); [vm_compute; reflexivity|unfold sent; set_solver|eexists; split; vm_compute; reflexivity|vm_compute; reflexivity]. }
  apply (rtc_l _ _ (mkNode s6 1)). { eapply (st_truncate _ _ _ _ (follower 3) (mkTrunc TRUNCATE_LOG 2 (at_ 2) 1) (at_ 1) 1); [by vm_compute|done|vm_compute; reflexivity]. }
  apply (rtc_l _ _ (mkNode s7 2)). { eapply (st_flushed _ _ _ _ (follower 3)); [done|vm_compute; reflexivity|vm_compute; reflexivity]. }
  apply (rtc_l _ _ (mkNode s8 3)). { eapply (st_truncated _ _ _ _ (at_ 2)); vm_compute; reflexivity. }
  apply rtc_once. eapply (receives 2 3 false); [vm_compute; reflexivity|unfold sent; set_solver|eexists; split; vm_compute; reflexivity|vm_compute; reflexivity].
Qed.

Definition log1 : Ent := mkEnt 1 (at_ 1) (at_ 2) 1.
Definition log2 : Ent := mkEnt 2 (at_ 2) (at_ 3) 3.
Lemma run_end : rtc (step XX CRC GROW sent) (mkNode first 0) (mkNode s9 3).
Proof. etrans; [exact run1|exact run2]. Qed.

Lemma replica_log_sound_witness :
  starts no_log first ∧ disk (outbox s9) = [log1; log2] ∧ chain no_log [log1; log2] ∧ last_submit s9 = sub_of log2.
Proof.
  pose proof (replica_log_sound XX CRC GROW sent no_log sent_ok (or_introl eq_refl) first (mkNode s9 3) first_starts run_end) as (H1 & _ & H2 & _).
  split_and!; [exact first_starts|vm_compute; reflexivity|exact H1|exact H2].
Defined.

Lemma committed_logs_stay_witness : log1 ∈ disk (outbox s4) ∧ val (committed_end s4) = 91 ∧ log1 ∈ disk (outbox s9).
Proof.
  destruct (committed_logs_stay XX CRC GROW sent no_log sent_ok (or_introl eq_refl) first (mkNode s4 1) (mkNode s9 3) first_starts run1 run2)
    as (_ & H & _).
  assert (log1 ∈ disk (outbox s4)) as Hin by (vm_compute; left). split_and!; [exact Hin|reflexivity|]. apply H; [exact Hin|vm_compute; congruence].
Defined.

Lemma applied_logs_prefix_witness :
  ∃ done_ rest, disk (outbox s9) = done_ ++ rest ∧ [(at_ 2, 1)] = told <$> done_ ∧ 2 = s_id (last_of no_log done_) + 1.
Proof.
  destruct (applied_logs_prefix XX CRC GROW sent no_log sent_ok (or_introl eq_refl) first (mkNode s9 3) first_starts run_end)
    as (d & rest & H1 & H2 & H3 & _).
  exists d, rest. split_and!; [exact H1|exact H2|exact H3].
Defined.

Lemma replicas_match_witness : disk (outbox s4) = [] ++ log1 :: [mkEnt 2 (at_ 2) (at_ 3) 1] ∧ [] ++ [log1] = [] ++ [log1].
Proof.
  assert (disk (outbox s4) = [] ++ log1 :: [mkEnt 2 (at_ 2) (at_ 3) 1]) as E by (vm_compute; reflexivity). split; [exact E|].
  apply (replicas_match XX CRC GROW sent no_log sent_ok (or_introl eq_refl) first first (mkNode s4 1) (mkNode s9 3) [] [] log1 log1
    [mkEnt 2 (at_ 2) (at_ 3) 1] [log2] sent_once first_starts run1 first_starts run_end E); [vm_compute; reflexivity|reflexivity|reflexivity].
Defined.

Lemma committed_loop_ends_witness : start_id (commit_loop CRC 9 (follower 1) (advance_committed (at_ 2) s3)) = 2 ∧
  commit_loop CRC 9 (follower 1) (advance_committed (at_ 2) s3) = commit_loop CRC 3 (follower 1) (advance_committed (at_ 2) s3).
Proof.
  split; [vm_compute; reflexivity|]. assert (size (tasks (advance_committed (at_ 2) s3)) = 2%nat) as E by (vm_compute; reflexivity).
  rewrite (committed_loop_ends CRC (follower 1) (advance_committed (at_ 2) s3) 9); [by rewrite E|rewrite E; lia].
Defined.

(** A truncation whose task the log engine does not take has already reset the log task: the
    log stays among the submitted ones, and the group of the new leader is never accepted. *)
Definition engine_full : Env :=
  mkEnv true false false true false true true 3 true false false (LogCommit.mkConfig true [] 0 [] 0 [] no_lsn 0 0) 5 8 0 OB_ERR_UNEXPECTED 0.
Definition lost : Replica := Eval vm_compute in snd (truncate engine_full (mkTrunc TRUNCATE_LOG 2 (at_ 2) 1) (at_ 1) 1 s5).
Lemma failed_truncate_blocks :
  truncate engine_full (mkTrunc TRUNCATE_LOG 2 (at_ 2) 1) (at_ 1) 1 s5 = (OB_ERR_UNEXPECTED, lost) ∧
  is_valid (task_at 2 lost) = false ∧ s_id (last_submit lost) = 2 ∧
  (fst <$> receive 2 3 true lost) = Some (OB_ERR_UNEXPECTED, no_truncate).
Proof. split_and!; vm_compute; reflexivity. Qed.
End Run.
End ReplicaSafety.
